(* ===== verification/_CoqProject ===== *)
-Q . S2P
Prelude.v
Machine.v
SpanTable.v
SpanSeq.v
VmemArena.v
VmemTile.v
VmemLists.v
VmemRep.v
VmemWf.v
VmemCarve.v
VmemSpan.v
VmemOps.v
VmemFree.v
VmemFit.v
VmemSearch.v
VmemXalloc.v
VmemSpec.v
VmemCreate.v
VmemSum.v
VmemProps.v
SlabModel.v
SlabWf.v
SlabInv.v
SlabFree.v
SlabFreeOp.v
SlabGrow.v
SlabSpec.v
SlabProps.v
SlabReclaim.v
ReclaimProps.v
CacheCreate.v
AllocSizes.v
CacheDebug.v
DebugProps.v
MagModel.v
MagOps.v
MagInv.v
MagSpec.v
MagLoops.v
MagRefine.v
MagBatch.v
MagPurge.v
MagProps.v
UpdateModel.v
UpdateInv.v
UpdateProps.v
ByteMem.v
MallocModel.v
PtrTable.v
MallocOps.v
MallocSpan.v
MallocTags.v
MallocDemo.v
MallocProps.v
BootReg.v
MallocLive.v
InterposeModel.v
InterposeProps.v
PtcModel.v
PtcTables.v
PtcPool.v
PtcClass.v
PtcReg.v
FrontModel.v
FrontInv.v
FrontOps.v
FrontAlloc.v
PtcExit.v
PtcDemo.v
PtcProps.v
EnvModel.v
EnvProps.v
Logs.v
OwnModel.v
OwnProps.v
Bump.v
Backend.v
Partition.v
ErrRing.v
Hooks.v
