(* ===== verification/Prelude.v ===== *)
(** * libumem: a verification development

    libumem is a user-level slab allocator.  From the bottom up it consists of
    - vmem arenas (src/vmem.c), which hand out address ranges and import spans
      from other arenas, with a table of the heap's spans that can be read
      without a lock;
    - object caches (src/umem.c): a slab layer that cuts blocks of an arena into
      buffers, and above it a magazine layer that keeps constructed objects per
      CPU and in a depot;
    - the general allocator [umem_alloc], a table from request size to cache, with
      a per-thread cache in front of the magazines (src/umem_ptc.c);
    - the malloc interface (src/malloc.c), which tags blocks so that free can
      recognise them, and the interposer (src/malloc_interpose.c), which makes it
      the process's malloc;
    - debugging checks on buffers, transaction logs, and maintenance of caches
      (update list, reap, page reclaim) by a worker;
    - the memory backends below the arenas (src/vmem_sbrk.c, src/vmem_mmap.c) and
      the options that configure all of it (src/envvar.c);
    - interfaces of their own beside [umem_alloc]: owned allocations
      (src/umem_own.c), scoped arenas (src/umem_arena.c), application hooks
      (src/umem_hooks.c), hash partitions (src/umem_hash_partition.c).
    Backends serve arenas, arenas serve the slab layer, the slab layer serves the
    magazine layer, the per-thread caches exchange magazines with the depot, and
    the update list asks for the operations that shrink and resize the magazines.

    ** Conventions

    A 64-bit word is a [Z] in [0, 2^64) with wrap-around written out
    ([Machine]: [wadd], [wsub], [wshl], the P2 macros, [highbit], [lowbit]);
    32-bit counters are reduced modulo 2^32.  Memory the code reads back (bufctl
    links inside buffers, buftags, fill patterns) is a map from addresses to
    words.  A linked list is the list of its nodes where no claim depends on the
    pointers, and a map of nodes with next and previous fields where one does.
    [result] is the outcome of an operation: [umem_panic], [exit], a failed
    ASSERT and an access outside an array are [Panic].  An ASSERT of src/misc.h
    does nothing under NDEBUG; the operations are those of a build that does not
    define it, and the theorems that they return [Ok] say that no ASSERT
    fails.  Left out are the ASSERTs of the list primitives of the arenas
    ([vmem_freelist_insert], [vmem_freelist_delete], [vmem_getseg],
    [vmem_seg_destroy], [vmem_span_destroy], [vmem_contains]), of cache creation
    (on its caller and on combinations of flags), of the walk of
    [umem_cache_drain_slabs], and those on the holder of a lock or on which
    thread runs.

    Code that is not part of the repository, and the components a file does not
    model, are the methods of a type class ([slab_env], [mag_env], [malloc_env], [heap_env], [bump_env],
    [backend_env]) whose laws are a second class ([slab_source],
    [mag_source_laws], [heap_laws] and the like); the theorems hold for every
    instance and witnesses give concrete ones.  Threads that interleave (the
    seqlock, the update list, the application hooks) are step relations; the
    other components are sequential, as their locks make them.

    ** Files

    [Machine]: macros of src/sol_compat.h and bit searches of src/misc.c.

    [SpanTable], [SpanSeq]: [vmem_span_table_insert], [vmem_span_table_remove],
    [vmem_span_find], [vmem_span_owns]; the seqlock between the writer, store by
    store, and a reader, as a step relation.

    [VmemArena] (data: segments, freelists, hash, the arena), [VmemOps]
    ([vmem_xalloc], [vmem_xfree] and their parts), [VmemTile], [VmemLists],
    [VmemRep], [VmemWf] (the representation and the invariant), [VmemCarve],
    [VmemSpan], [VmemFree], [VmemFit], [VmemSearch], [VmemXalloc] (one file per
    operation), [VmemSpec] (the abstract arena and the interface of an import
    source), [VmemCreate], [VmemSum], [VmemProps] (claims).

    [SlabModel] (caches, slabs, bufctls; [umem_slab_create], [umem_slab_alloc],
    [umem_slab_free], [umem_slab_destroy], page reclaim and drain), [SlabWf],
    [SlabInv], [SlabFree], [SlabFreeOp], [SlabGrow] (invariant and its
    preservation), [SlabSpec] (the set of buffers that are out, the interface of
    the arena below), [SlabProps]; [SlabReclaim], [ReclaimProps]
    ([umem_cache_reclaim_pages], [umem_cache_drain_slabs]).

    [CacheCreate]: flags, chunk and slab geometry of [umem_cache_create].
    [AllocSizes]: the size table of src/umem.c, the size options of
    src/envvar.c, the table of [umem_alloc].  [CacheDebug], [DebugProps]: buftags,
    patterns, redzones, [umem_error]'s attribution.

    [MagModel], [MagOps]: magazines, [_umem_cache_alloc], [_umem_cache_free],
    batches, the depot, working sets, purge and resize.  [MagInv] (held objects,
    well-formedness, the interface), [MagSpec], [MagLoops], [MagRefine],
    [MagBatch], [MagPurge] (the operations against the interface), [MagProps]
    (the slab layer as an instance; claims).

    [UpdateModel], [UpdateInv], [UpdateProps]: the update list of src/umem.c
    section 4 and its reset in the child of a fork (src/umem_fork.c), as a step
    relation of the worker and other threads.

    [ByteMem] (memory by bytes); [MallocModel], [PtrTable], [MallocOps] (tags, the
    bootstrap registry, [umem_malloc], [umem_memalign], [process_free],
    [umem_malloc_free]), [MallocSpan] (the cached ownership test), [MallocTags],
    [MallocLive], [MallocDemo] (a concrete heap), [BootReg], [MallocProps];
    [InterposeModel], [InterposeProps]: the entry points of the interposer.

    [PtcModel], [PtcTables], [PtcReg] (bins, magazine pairs, size tables and the
    registry of src/umem_ptc.c), [PtcPool], [PtcClass] (one size class);
    [FrontModel], [FrontInv], [FrontOps], [FrontAlloc] ([umem_alloc],
    [umem_zalloc], [umem_free] of src/umem.c over all of the above), [PtcExit]
    (thread exit and fork), [PtcDemo], [PtcProps].

    [EnvModel], [EnvProps]: src/envvar.c, from the text of the environment to the
    variables.  [Logs]: [umem_log_init], [umem_log_enter] of
    src/umem.c.  [OwnModel], [OwnProps]: src/umem_own.c.  [Bump]:
    src/umem_arena.c and the small-buffer allocator of src/umem_ptc.c.
    [Backend]: src/vmem_sbrk.c, src/vmem_mmap.c and what
    they use of src/pal/pal_mem.h.  [Partition]: src/umem_hash_partition.c.
    [ErrRing]: the ring of messages of src/misc.c.  [Hooks]: src/umem_hooks.c.

    ** What the theorems show

    Arenas: an allocation is placed at the lowest address of a free segment that
    meets every constraint and the arena gains exactly it; a free removes exactly
    the allocation and coalesces; invalid frees are detected; the search of the
    freelists equals a scan of all segments; totals add up; span lookups are
    exact, and a lock-free reader only acts on a consistent snapshot when the
    writer's stores become visible after its first increment (as on x86; the
    release store alone does not order them, and a theorem shows the wrong answer
    a reader can then get).  Slabs: allocation and free refine a set of buffers,
    with a new slab exactly when no slab can serve; corrupted links are not
    followed; reclaim and drain treat each slab by its state.  Caches: the
    geometry chosen by creation satisfies what the slab layer assumes; the
    best-fit loop ends at the least waste.  Sizes: each request goes to the least
    cache that holds it.  Debugging: a correct cycle is accepted and restores the
    free pattern; double frees, overruns and writes after free are reported.
    Magazines: objects are conserved by allocation, free, batches, returns,
    purge and resize, with the slab layer below as a proved instance of the
    interface.  Updates: three states and no failing assertion unless a thread
    forks inside the worker's own callback, requests carried out, removal that
    waits, termination.  malloc: free gives back exactly the
    block malloc obtained, a tag is believed only for memory of the heap, the
    fast path of free is the slow path, realloc keeps the contents.  Front end:
    an allocation adds one object that was nowhere else, the matching free takes
    it back, a thread that exits returns everything, the child of a fork frees
    nothing a client holds.  Options: a secure process is not steered by its
    environment, text is carried out option by option, numbers are exact.
    Logs: an entry stays until the ring has gone round.  Ownership: the calls
    refine a store of owned blocks, and a block has readers or one writer.
    Scoped arenas and small buffers: each byte is given out once.  Backends: no
    memory is lost when a step fails, the ranges held are those the arena has, a
    block given out can be used.
    Partitions: lookup finds the interval of a hash.  Ring: the text shown is
    the end of the text entered.  Hooks: unregistering waits for every user.
    Theorems under headings such as "Behaviours to know" show behaviour the code
    has and did not mean to have.

    ** Bounds and fuel

    Fuel bounds loops that follow pointers or retry: freelist searches take the
    number of segments, hash chains the number of entries, the binary search the
    length of the table, [cpu_alloc_loop] 3 and [cpu_free_loop] 4 turns, the
    batch loops 3 and 4 turns per object; the theorems prove that a run from a
    well-formed state does not exhaust it.  The passes of [_umem_cache_alloc]
    are bounded by the number of retries the nofail callback asks for, which the
    program does not bound.  The text of an option list is split at most once per
    character, the scan of a hook walk marks one hook per turn, the search of a
    partition halves its range; their fuel is the length, and the theorems
    prove that it is enough.  Counters the code lets wrap are assumed not to
    where a theorem says so: fewer than 2^31 borrows of a block, 2^32 hook walks,
    2^31 changes of the span table between two uses of a cached span, 2^32
    increments of its sequence number during one read.

    ** Not modelled

    Restartable sequences (assembly); interleavings of threads inside the
    magazine layer (each operation runs under its lock; trylock outcomes and CPU
    migration are nondeterministic inputs); audit records of bufctls and the
    walkers, reports and remote control of src/umem_inspect.c and
    src/umem_introspect.c, which print; profiles and NUMA discovery, which read
    files of the system; floating-point weights of hash partitions; start-up
    (src/init_lib.c) and the order of locks around fork; the standalone and
    Windows variants.  Of src/vmem.c the quantum caches, [vmem_walk],
    [vmem_destroy] and the rescale of hash tables, and of src/umem.c
    [umem_alloc_align] and the policy of [umem_cache_update], are not modelled
    either. *)
From stdpp Require Export base numbers list option gmap strings.
From Stdlib Require Export ZArith Lia.

#[export] Set Warnings "-clear-no-such-hyp".
#[global] Open Scope Z_scope.

#[global] Arguments Nat.div : simpl never.
#[global] Arguments Nat.modulo : simpl never.
#[global] Arguments Z.div : simpl never.
#[global] Arguments Z.modulo : simpl never.
#[global] Arguments Z.pow : simpl never.

(** Reflexive and one-step facts about what an operation leaves alone; each
    component adds its own. *)
Create HintDb umem discriminated.

(** Discharge such a fact. *)
Ltac frame := solve [eauto 4 with umem].

(** ** Lists linked through next and prev fields

    A doubly linked list is represented by the list of its nodes. *)
Section links.
Context {A : Type} `{EqDecision A}.
Implicit Types (l : list A) (p x : A).

(** Insert [x] after [p]. *)
Fixpoint insert_after p x l : list A :=
  match l with
  | [] => []
  | y :: l' => if decide (y = p) then y :: x :: l' else y :: insert_after p x l'
  end.

(** Unlink [x]. *)
Fixpoint unlink x l : list A :=
  match l with
  | [] => []
  | y :: l' => if decide (y = x) then l' else y :: unlink x l'
  end.

(** The node after [p], if it has one. *)
Fixpoint lnext p l : option A :=
  match l with
  | [] => None
  | y :: l' => if decide (y = p) then head l' else lnext p l'
  end.

(** The node before [p]; [prv] is the one before the head of the list. *)
Fixpoint lprev_from (prv : option A) p l : option A :=
  match l with
  | [] => None
  | y :: l' => if decide (y = p) then prv else lprev_from (Some y) p l'
  end.
Definition lprev p l : option A := lprev_from None p l.

Lemma insert_after_app p x l1 l2 :
  p ∉ l1 -> insert_after p x (l1 ++ p :: l2) = l1 ++ p :: x :: l2.
Proof.
  induction l1 as [|y l1 IH]; simpl; intros Hp; [by rewrite decide_True|].
  rewrite decide_False by set_solver. f_equal. apply IH. set_solver.
Qed.

Lemma unlink_app x l1 l2 : x ∉ l1 -> unlink x (l1 ++ x :: l2) = l1 ++ l2.
Proof.
  induction l1 as [|y l1 IH]; simpl; intros Hp; [by rewrite decide_True|].
  rewrite decide_False by set_solver. f_equal. apply IH. set_solver.
Qed.

Lemma lnext_app p l1 l2 : p ∉ l1 -> lnext p (l1 ++ p :: l2) = head l2.
Proof.
  induction l1 as [|y l1 IH]; simpl; intros Hp; [by rewrite decide_True|].
  rewrite decide_False by set_solver. apply IH. set_solver.
Qed.

Lemma lprev_from_app prv p l1 l2 :
  p ∉ l1 -> lprev_from prv p (l1 ++ p :: l2) =
            match last l1 with Some y => Some y | None => prv end.
Proof.
  revert prv. induction l1 as [|y l1 IH]; simpl; intros prv Hp; [by rewrite decide_True|].
  rewrite decide_False by set_solver. rewrite IH by set_solver. destruct l1; simpl; [done|].
  destruct (last (a :: l1)) eqn:E; [done|]. by apply last_None in E.
Qed.

Lemma lprev_app p l1 l2 : p ∉ l1 -> lprev p (l1 ++ p :: l2) = last l1.
Proof. intros H. unfold lprev. rewrite lprev_from_app by done. by destruct (last l1). Qed.
End links.

(** ** Arrays shifted in place *)

Section shifts.
Context {A : Type} `{Inhabited A}.

(** [for (j = n; j > i; j--) tab[j] = tab[j - 1];] with [n = i + k]. *)
Fixpoint shift_up (k i : nat) (tab : list A) : list A :=
  match k with
  | O => tab
  | S k' => shift_up k' i (<[(i + S k')%nat := tab !!! (i + k')%nat]> tab)
  end.

(** [for (; i + 1 < n; i++) tab[i] = tab[i + 1];] with [n = i + 1 + k]. *)
Fixpoint shift_down (k i : nat) (tab : list A) : list A :=
  match k with
  | O => tab
  | S k' => shift_down k' (S i) (<[i := tab !!! S i]> tab)
  end.

Lemma shift_up_length k i tab : length (shift_up k i tab) = length tab.
Proof. revert tab; induction k; intros; simpl; [done|]. by rewrite IHk, length_insert. Qed.

Lemma shift_down_length k i tab : length (shift_down k i tab) = length tab.
Proof. revert i tab; induction k; intros; simpl; [done|]. by rewrite IHk, length_insert. Qed.

Lemma shift_up_spec k (l1 l2 l3 : list A) x :
  length l2 = k ->
  exists y, shift_up k (length l1) (l1 ++ l2 ++ x :: l3) = l1 ++ y :: l2 ++ l3.
Proof.
  revert l2 l3 x. induction k as [|k IH]; intros l2 l3 x Hl; simpl.
  - destruct l2; [|done]. by exists x.
  - destruct l2 as [|a l2 _] using rev_ind; [done|].
    rewrite length_app in Hl; simpl in Hl.
    assert (E : (l1 ++ (l2 ++ [a]) ++ x :: l3) !!! (length l1 + k)%nat = a).
    { apply list_lookup_total_correct. rewrite lookup_app_r by lia.
      replace (length l1 + k - length l1)%nat with (length l2) by lia.
      rewrite <- app_assoc, lookup_app_r by lia.
      by replace (length l2 - length l2)%nat with O by lia. }
    rewrite E, insert_app_r_alt by lia. clear E.
    replace (length l1 + S k - length l1)%nat with (length (l2 ++ [a]) + 0)%nat
      by (rewrite length_app; simpl; lia).
    rewrite insert_app_r. simpl. rewrite <- app_assoc. simpl.
    destruct (IH l2 (a :: l3) a ltac:(lia)) as [y Hy]. exists y. rewrite Hy.
    by rewrite <- app_assoc.
Qed.

Lemma shift_down_spec k (l1 l2 l3 : list A) x :
  length l2 = k ->
  exists y, shift_down k (length l1) (l1 ++ x :: l2 ++ l3) = l1 ++ l2 ++ y :: l3.
Proof.
  revert l1 l2 x. induction k as [|k IH]; intros l1 l2 x Hl; simpl.
  - destruct l2; [|done]. by exists x.
  - destruct l2 as [|a l2]; [done|]. simpl in Hl.
    assert (E : (l1 ++ x :: (a :: l2) ++ l3) !!! S (length l1) = a).
    { apply list_lookup_total_correct. rewrite lookup_app_r by lia.
      by replace (S (length l1) - length l1)%nat with 1%nat by lia. }
    rewrite E.
    replace (length l1) with (length l1 + 0)%nat by lia. rewrite insert_app_r. simpl.
    destruct (IH (l1 ++ [a]) l2 a ltac:(lia)) as [y Hy]. exists y.
    rewrite length_app in Hy. simpl in Hy.
    replace (S (length l1 + 0)) with (length l1 + 1)%nat by lia.
    rewrite <- !app_assoc in Hy. simpl in Hy. exact Hy.
Qed.
End shifts.

(** ** Outcome of an operation of the program *)

(** [umem_panic] and a failed [ASSERT] do not return: an operation that can
    reach one returns [Panic] with the reason. *)
Inductive result (A : Type) : Type :=
| Ok (a : A)
| Panic (why : string).
Arguments Ok {A} a.
Arguments Panic {A} why.

Definition res_bind {A B} (m : result A) (k : A -> result B) : result B :=
  match m with Ok a => k a | Panic w => Panic w end.

(** [ASSERT] of misc.h, in a build without NDEBUG. *)
Definition ASSERT (b : bool) (why : string) : result unit := if b then Ok tt else Panic why.

Lemma ASSERT_true b why : b = true -> ASSERT b why = Ok tt.
Proof. by intros ->. Qed.

Declare Scope umem_scope.
Delimit Scope umem_scope with umem.
Notation "'do' x <- m ; k" := (res_bind m (fun x => k))
  (at level 60, x pattern, m at level 59, k at level 60, right associativity) : umem_scope.
#[global] Open Scope umem_scope.
