(* ===== verification/Machine.v ===== *)
(** * Machine words and the power-of-two macros

    LP64 words as [Z] in [0, 2^64), with the wrap-around of every C operator
    written out; the [P2*] macros of [sol_compat.h]; [highbit] and [lowbit] of
    [misc.c] translated test by test, with their characterisations. *)
From S2P Require Import Prelude.

(** ** Words *)

Definition w64 (x : Z) : Z := x mod 2 ^ 64.
Definition wadd (x y : Z) : Z := w64 (x + y).
Definition wsub (x y : Z) : Z := w64 (x - y).
Definition wneg (x : Z) : Z := w64 (- x).
Definition wnot (x : Z) : Z := w64 (Z.lnot x).
Definition wshl (x n : Z) : Z := w64 (Z.shiftl x n).
Definition is_word (x : Z) : Prop := 0 <= x < 2 ^ 64.

(** ** The macros of sol_compat.h *)

Definition P2PHASE (x align : Z) : Z := Z.land x (wsub align 1).
Definition P2ALIGN (x align : Z) : Z := Z.land x (wneg align).
Definition P2NPHASE (x align : Z) : Z := Z.land (wneg x) (wsub align 1).
Definition P2ROUNDUP (x align : Z) : Z := wneg (Z.land (wneg x) (wneg align)).
Definition P2END (x align : Z) : Z := wneg (Z.land (wnot x) (wneg align)).
Definition P2PHASEUP (x align phase : Z) : Z :=
  wsub phase (Z.land (wsub phase x) (wneg align)).
Definition P2SAMEHIGHBIT (x y : Z) : bool := Z.lxor x y <? Z.land x y.
Definition ISP2 (x : Z) : bool := Z.land x (wsub x 1) =? 0.
Definition P2BOUNDARY (off len align : Z) : bool :=
  wsub align 1 <? Z.lxor off (wsub (wadd off len) 1).

(** ** highbit and lowbit (misc.c) *)

(** [if (i & mask) { h += w; i >>= w; }] on the pair (h, i). *)
Definition hb_test (mask w : Z) (hi : Z * Z) : Z * Z :=
  let '(h, i) := hi in
  if Z.land i mask =? 0 then (h, i) else (h + w, Z.shiftr i w).

Definition highbit (i : Z) : Z :=
  if i =? 0 then 0
  else
    let s := (1, i) in
    let s := hb_test 0xffffffff00000000 32 s in
    let s := hb_test 0xffff0000 16 s in
    let s := hb_test 0xff00 8 s in
    let s := hb_test 0xf0 4 s in
    let s := hb_test 0xc 2 s in
    let '(h, i) := s in
    if Z.land i 0x2 =? 0 then h else h + 1.

(** [if (!(i & mask)) { h += w; i >>= w; }] *)
Definition lb_test (mask w : Z) (hi : Z * Z) : Z * Z :=
  let '(h, i) := hi in
  if Z.land i mask =? 0 then (h + w, Z.shiftr i w) else (h, i).

Definition lowbit (i : Z) : Z :=
  if i =? 0 then 0
  else
    let s := (1, i) in
    let s := lb_test 0xffffffff 32 s in
    let s := lb_test 0xffff 16 s in
    let s := lb_test 0xff 8 s in
    let s := lb_test 0xf 4 s in
    let s := lb_test 0x3 2 s in
    let '(h, i) := s in
    if Z.land i 0x1 =? 0 then h + 1 else h.

(** ** Characterisation of the bit scans *)

Lemma land_shifted_ones i k n :
  0 <= k -> 0 <= n -> 0 <= i < 2 ^ (k + n) ->
  Z.land i (Z.shiftl (Z.ones n) k) = Z.shiftl (Z.shiftr i k) k.
Proof.
  intros Hk Hn Hi. apply Z.bits_inj'; intros b Hb.
  rewrite Z.land_spec, !Z.shiftl_spec by lia.
  destruct (Z.lt_ge_cases b k) as [Hlt|Hge].
  - rewrite !(Z.testbit_neg_r _ (b - k)) by lia. apply andb_false_r.
  - rewrite Z.shiftr_spec, Z.testbit_ones_nonneg by lia.
    replace (b - k + k) with b by lia.
    destruct (Z.ltb_spec (b - k) n) as [H|H]; [apply andb_true_r|].
    rewrite andb_false_r. symmetry.
    destruct (Z.eq_dec i 0) as [->|]; [apply Z.bits_0|].
    apply Z.bits_above_log2; [lia|].
    apply Z.log2_lt_pow2; [lia|].
    eapply Z.lt_le_trans; [apply Hi|]. apply Z.pow_le_mono_r; lia.
Qed.

Lemma hb_test_spec mask k h i :
  0 < k -> mask = Z.shiftl (Z.ones k) k -> 0 < i < 2 ^ (2 * k) ->
  let '(h', i') := hb_test mask k (h, i) in
  0 < i' < 2 ^ k /\ h' + Z.log2 i' = h + Z.log2 i.
Proof.
  intros Hk -> Hi. unfold hb_test.
  rewrite land_shifted_ones by (replace (k + k) with (2 * k) by lia; lia).
  rewrite Z.shiftl_mul_pow2, Z.shiftr_div_pow2 by lia.
  assert (0 < 2 ^ k) by lia.
  assert (H2k : 2 ^ (2 * k) = 2 ^ k * 2 ^ k) by (rewrite <- Z.pow_add_r by lia; f_equal; lia).
  destruct (Z.eqb_spec (i / 2 ^ k * 2 ^ k) 0) as [E|E].
  - split; [|lia]. assert (i / 2 ^ k = 0) as E' by nia.
    apply Z.div_small_iff in E'; lia.
  - assert (0 < i / 2 ^ k).
    { assert (0 <= i / 2 ^ k) by (apply Z.div_pos; lia). nia. }
    split.
    + split; [lia|]. apply Z.div_lt_upper_bound; [lia|]. lia.
    + assert (0 <= Z.log2 i) by apply Z.log2_nonneg.
      rewrite <- Z.shiftr_div_pow2 by lia.
      rewrite Z.log2_shiftr by lia.
      assert (k <= Z.log2 i); [|lia].
      apply Z.log2_le_pow2; [lia|].
      destruct (Z.lt_ge_cases i (2 ^ k)); [|done].
      rewrite Z.div_small in H0; lia.
Qed.

Lemma highbit_spec i : 0 < i < 2 ^ 64 -> highbit i = Z.log2 i + 1.
Proof.
  intros Hi. unfold highbit. destruct (Z.eqb_spec i 0); [lia|].
  pose proof (hb_test_spec 0xffffffff00000000 32 1 i ltac:(lia) eq_refl ltac:(lia)) as H.
  destruct (hb_test 0xffffffff00000000 32 (1, i)) as [h1 i1]; destruct H as [B1 E1].
  pose proof (hb_test_spec 0xffff0000 16 h1 i1 ltac:(lia) eq_refl ltac:(lia)) as H.
  destruct (hb_test 0xffff0000 16 (h1, i1)) as [h2 i2]; destruct H as [B2 E2].
  pose proof (hb_test_spec 0xff00 8 h2 i2 ltac:(lia) eq_refl ltac:(lia)) as H.
  destruct (hb_test 0xff00 8 (h2, i2)) as [h3 i3]; destruct H as [B3 E3].
  pose proof (hb_test_spec 0xf0 4 h3 i3 ltac:(lia) eq_refl ltac:(lia)) as H.
  destruct (hb_test 0xf0 4 (h3, i3)) as [h4 i4]; destruct H as [B4 E4].
  pose proof (hb_test_spec 0xc 2 h4 i4 ltac:(lia) eq_refl ltac:(lia)) as H.
  destruct (hb_test 0xc 2 (h4, i4)) as [h5 i5]; destruct H as [B5 E5].
  assert (i5 = 1 \/ i5 = 2 \/ i5 = 3) as [->|[->| ->]] by lia;
    simpl; simpl in E5; lia.
Qed.

(** [lb_test] keeps [2^(h-1) * i] (the word being scanned), and leaves an [i]
    whose low [k] bits are not all zero. *)
Lemma lb_test_spec mask k h i :
  0 < k -> mask = Z.ones k -> 0 < i -> i mod 2 ^ (2 * k) <> 0 -> 1 <= h ->
  let '(h', i') := lb_test mask k (h, i) in
  1 <= h' /\ 0 < i' /\ i' * 2 ^ (h' - 1) = i * 2 ^ (h - 1) /\ i' mod 2 ^ k <> 0.
Proof.
  intros Hk -> Hi Hm Hh. unfold lb_test. rewrite Z.land_ones by lia.
  assert (H2k : 2 ^ (2 * k) = 2 ^ k * 2 ^ k) by (rewrite <- Z.pow_add_r by lia; f_equal; lia).
  assert (0 < 2 ^ k) by lia.
  destruct (Z.eqb_spec (i mod 2 ^ k) 0) as [E|E]; [|split_and!; lia].
  rewrite Z.shiftr_div_pow2 by lia.
  apply Z.div_exact in E; [|lia].
  split_and!; try nia.
  - rewrite E at 2. replace (h + k - 1) with (k + (h - 1)) by lia.
    rewrite Z.pow_add_r by lia. ring.
  - intros E'. apply Hm. rewrite E, H2k, Z.mul_mod_distr_l by lia. rewrite E'. lia.
Qed.

Lemma lowbit_odd i :
  0 < i < 2 ^ 64 ->
  exists k, Z.Odd k /\ 0 < k /\ 1 <= lowbit i /\ i = k * 2 ^ (lowbit i - 1).
Proof.
  intros Hi. unfold lowbit. destruct (Z.eqb_spec i 0); [lia|].
  pose proof (lb_test_spec 0xffffffff 32 1 i ltac:(lia) eq_refl ltac:(lia)
    ltac:(rewrite Z.mod_small; lia) ltac:(lia)) as H.
  destruct (lb_test 0xffffffff 32 (1, i)) as [h1 i1]; destruct H as (A1 & B1 & E1 & M1).
  pose proof (lb_test_spec 0xffff 16 h1 i1 ltac:(lia) eq_refl B1 M1 A1) as H.
  destruct (lb_test 0xffff 16 (h1, i1)) as [h2 i2]; destruct H as (A2 & B2 & E2 & M2).
  pose proof (lb_test_spec 0xff 8 h2 i2 ltac:(lia) eq_refl B2 M2 A2) as H.
  destruct (lb_test 0xff 8 (h2, i2)) as [h3 i3]; destruct H as (A3 & B3 & E3 & M3).
  pose proof (lb_test_spec 0xf 4 h3 i3 ltac:(lia) eq_refl B3 M3 A3) as H.
  destruct (lb_test 0xf 4 (h3, i3)) as [h4 i4]; destruct H as (A4 & B4 & E4 & M4).
  pose proof (lb_test_spec 0x3 2 h4 i4 ltac:(lia) eq_refl B4 M4 A4) as H.
  destruct (lb_test 0x3 2 (h4, i4)) as [h5 i5]; destruct H as (A5 & B5 & E5 & M5).
  assert (L1 : Z.land i5 1 = i5 mod 2 ^ 1) by exact (Z.land_ones i5 1 ltac:(lia)).
  rewrite L1.
  assert (E : i = i5 * 2 ^ (h5 - 1)) by (rewrite E5, E4, E3, E2, E1; simpl; lia).
  destruct (Z.eqb_spec (i5 mod 2 ^ 1) 0) as [Z0|Z0].
  - exists (i5 / 2). change (2 ^ 1) with 2 in *. change (2 ^ 2) with 4 in *.
    assert (E2i : i5 = 2 * (i5 / 2)) by (apply Z.div_exact; lia).
    split_and!; try lia.
    + exists (i5 / 2 / 2). clear - Z0 M5. Z.to_euclidean_division_equations; lia.
    + rewrite E. replace (h5 + 1 - 1) with (1 + (h5 - 1)) by lia.
      rewrite Z.pow_add_r by lia. nia.
  - exists i5. change (2 ^ 1) with 2 in *. split_and!; try lia.
    exists (i5 / 2). clear - Z0. Z.to_euclidean_division_equations; lia.
Qed.

Lemma lowbit_spec i :
  0 < i < 2 ^ 64 ->
  1 <= lowbit i <= 64 /\ Z.testbit i (lowbit i - 1) = true /\
  forall j, j < lowbit i - 1 -> Z.testbit i j = false.
Proof.
  intros Hi. destruct (lowbit_odd i Hi) as (k & [m Hk] & Hpos & Hl & E).
  assert (Hb : forall j, Z.testbit i j = Z.testbit k (j - (lowbit i - 1))).
  { intros j. rewrite E at 1. apply Z.mul_pow2_bits. lia. }
  assert (lowbit i <= 64).
  { destruct (Z.le_gt_cases (lowbit i) 64); [done|].
    assert (2 ^ 64 <= 2 ^ (lowbit i - 1)) by (apply Z.pow_le_mono_r; lia). nia. }
  split; [lia|split].
  - rewrite Hb, Z.sub_diag, Hk. apply Z.testbit_odd_0.
  - intros j Hj. rewrite Hb. apply Z.testbit_neg_r. lia.
Qed.

(** ** The alignment macros on a power of two *)

Lemma w64_small x : is_word x -> w64 x = x.
Proof. intros H. apply Z.mod_small, H. Qed.

Lemma w64_range x : is_word (w64 x).
Proof. apply Z.mod_pos_bound. lia. Qed.

Lemma wadd_small x y : 0 <= x + y < 2 ^ 64 -> wadd x y = x + y.
Proof. intros H. by apply w64_small. Qed.

Lemma wsub_small x y : 0 <= x - y < 2 ^ 64 -> wsub x y = x - y.
Proof. intros H. by apply w64_small. Qed.

Lemma land_w64 x y : Z.land (w64 x) (w64 y) = w64 (Z.land x y).
Proof.
  unfold w64. rewrite <- !Z.land_ones by lia.
  apply Z.bits_inj'; intros b Hb. rewrite !Z.land_spec.
  destruct (Z.testbit x b), (Z.testbit y b), (Z.testbit (Z.ones 64) b); reflexivity.
Qed.

Lemma land_neg_pow2 x k : 0 <= k -> Z.land x (- 2 ^ k) = x / 2 ^ k * 2 ^ k.
Proof.
  intros Hk.
  replace (- 2 ^ k) with (Z.lnot (Z.ones k)) by (rewrite Z.ones_equiv; unfold Z.lnot; lia).
  rewrite <- Z.ldiff_land, Z.ldiff_ones_r by lia.
  rewrite Z.shiftl_mul_pow2, Z.shiftr_div_pow2 by lia. reflexivity.
Qed.

Lemma wneg_w64 x : wneg (w64 x) = w64 (- x).
Proof.
  unfold wneg, w64. rewrite <- (Z.sub_0_l (x mod _)), <- (Z.sub_0_l x).
  rewrite Zminus_mod_idemp_r. reflexivity.
Qed.

(** Rounding up in mathematical integers. *)
Definition roundup (x a : Z) : Z := - (- x / a * a).

Lemma roundup_spec x a :
  0 < a -> x <= roundup x a < x + a /\ (a | roundup x a).
Proof.
  intros Ha. unfold roundup. split.
  - pose proof (Z.div_mod (- x) a ltac:(lia)).
    pose proof (Z.mod_pos_bound (- x) a Ha). lia.
  - exists (- (- x / a)). lia.
Qed.

Lemma roundup_least x a y : 0 < a -> (a | y) -> x <= y -> roundup x a <= y.
Proof.
  intros Ha [c ->] Hy. unfold roundup.
  assert (- c <= - x / a) by (apply Z.div_le_lower_bound; lia). nia.
Qed.

Lemma roundup_id x a : 0 < a -> (a | x) -> roundup x a = x.
Proof.
  intros Ha Hd. pose proof (roundup_spec x a Ha).
  pose proof (roundup_least x a x Ha Hd ltac:(lia)). lia.
Qed.

(** [P2ROUNDUP] of a word to a power of two, wrap-around included. *)
Lemma P2ROUNDUP_spec x k :
  0 <= k -> P2ROUNDUP x (2 ^ k) = w64 (roundup x (2 ^ k)).
Proof.
  intros Hk. unfold P2ROUNDUP, roundup.
  change (wneg x) with (w64 (- x)). change (wneg (2 ^ k)) with (w64 (- 2 ^ k)).
  rewrite land_w64, wneg_w64, land_neg_pow2 by lia. reflexivity.
Qed.

Lemma P2ALIGN_spec x k :
  0 <= k -> is_word x -> P2ALIGN x (2 ^ k) = x / 2 ^ k * 2 ^ k.
Proof.
  intros Hk Hx. unfold P2ALIGN. rewrite <- (w64_small x Hx) at 1.
  change (wneg (2 ^ k)) with (w64 (- 2 ^ k)). rewrite land_w64, land_neg_pow2 by lia.
  apply w64_small. unfold is_word in *.
  pose proof (Z.div_mod x (2 ^ k) ltac:(lia)).
  pose proof (Z.mod_pos_bound x (2 ^ k) ltac:(lia)).
  assert (0 <= x / 2 ^ k) by (apply Z.div_pos; lia). nia.
Qed.

Lemma P2PHASE_spec x k :
  0 <= k < 64 -> P2PHASE x (2 ^ k) = x mod 2 ^ k.
Proof.
  intros Hk. unfold P2PHASE, wsub. rewrite w64_small.
  - replace (2 ^ k - 1) with (Z.ones k) by (rewrite Z.ones_equiv; lia). rewrite Z.land_ones by lia. done.
  - assert (2 ^ k < 2 ^ 64) by (apply Z.pow_lt_mono_r; lia). unfold is_word. lia.
Qed.

(** [P2PHASEUP]: the least address at or above [x] with phase [phase], modulo
    the word size. *)
Lemma P2PHASEUP_spec x k phase :
  0 <= k ->
  P2PHASEUP x (2 ^ k) phase = w64 (phase + roundup (x - phase) (2 ^ k)).
Proof.
  intros Hk. unfold P2PHASEUP, wsub at 2. change (wneg (2 ^ k)) with (w64 (- 2 ^ k)).
  rewrite land_w64, land_neg_pow2 by lia. unfold wsub, w64, roundup.
  rewrite Zminus_mod_idemp_r. f_equal.
  replace (- (x - phase)) with (phase - x) by lia. lia.
Qed.

Lemma testbit_pow2_le x b : 0 <= x -> Z.testbit x b = true -> 2 ^ b <= x.
Proof.
  intros Hx Hb. destruct (Z.lt_ge_cases x (2 ^ b)) as [H|]; [|done].
  destruct (Z.lt_ge_cases b 0); [by rewrite Z.testbit_neg_r in Hb|].
  destruct (Z.eq_dec x 0) as [->|]; [by rewrite Z.bits_0 in Hb|].
  rewrite Z.bits_above_log2 in Hb; [done|lia|]. apply Z.log2_lt_pow2; lia.
Qed.

Lemma bits_lt_pow2 x b :
  0 <= x -> 0 <= b -> (forall j, b <= j -> Z.testbit x j = false) -> x < 2 ^ b.
Proof.
  intros Hx Hb H. destruct (Z.eq_dec x 0) as [->|]; [lia|].
  apply Z.log2_lt_pow2; [lia|]. destruct (Z.lt_ge_cases (Z.log2 x) b); [done|].
  specialize (H (Z.log2 x) ltac:(lia)). rewrite Z.bit_log2 in H by lia. done.
Qed.

(** Two words with the same highest bit, as [P2SAMEHIGHBIT] tests it. *)
Lemma P2SAMEHIGHBIT_spec x y :
  0 < x -> 0 <= y -> P2SAMEHIGHBIT x y = true <-> 0 < y /\ Z.log2 x = Z.log2 y.
Proof.
  intros Hx Hy. unfold P2SAMEHIGHBIT. rewrite Z.ltb_lt.
  destruct (Z.eq_dec y 0) as [->|].
  { rewrite Z.lxor_0_r, Z.land_0_r. lia. }
  assert (Hand : 0 <= Z.land x y) by (apply Z.land_nonneg; lia).
  assert (Hxor : 0 <= Z.lxor x y) by (apply Z.lxor_nonneg; lia).
  pose proof (Z.log2_nonneg x). pose proof (Z.log2_nonneg y).
  assert (Hx1 : Z.testbit x (Z.log2 x) = true) by (apply Z.bit_log2; lia).
  assert (Hy1 : Z.testbit y (Z.log2 y) = true) by (apply Z.bit_log2; lia).
  assert (Hxa : forall j, Z.log2 x < j -> Z.testbit x j = false)
    by (intros; apply Z.bits_above_log2; lia).
  assert (Hya : forall j, Z.log2 y < j -> Z.testbit y j = false)
    by (intros; apply Z.bits_above_log2; lia).
  split.
  - intros Hlt. split; [lia|].
    destruct (Z.lt_trichotomy (Z.log2 x) (Z.log2 y)) as [L|[L|L]]; [|done|]; exfalso.
    + assert (Z.land x y < 2 ^ Z.log2 y).
      { apply bits_lt_pow2; [done..|]. intros j Hj. rewrite Z.land_spec, Hxa by lia. done. }
      assert (2 ^ Z.log2 y <= Z.lxor x y); [|lia].
      apply testbit_pow2_le; [done|]. by rewrite Z.lxor_spec, Hy1, Hxa by lia.
    + assert (Z.land x y < 2 ^ Z.log2 x).
      { apply bits_lt_pow2; [done..|]. intros j Hj.
        rewrite Z.land_spec, (Hya j) by lia. apply andb_false_r. }
      assert (2 ^ Z.log2 x <= Z.lxor x y); [|lia].
      apply testbit_pow2_le; [done|]. by rewrite Z.lxor_spec, Hx1, Hya by lia.
  - intros [_ L].
    assert (2 ^ Z.log2 x <= Z.land x y).
    { apply testbit_pow2_le; [done|]. by rewrite Z.land_spec, Hx1, L, Hy1. }
    assert (Z.lxor x y < 2 ^ Z.log2 x); [|lia].
    apply bits_lt_pow2; [done..|]. intros j Hj. rewrite Z.lxor_spec.
    destruct (Z.eq_dec j (Z.log2 x)) as [->|]; [by rewrite Hx1, L, Hy1|].
    by rewrite Hxa, Hya by lia.
Qed.

(** Exclusive or of words. *)
Lemma lxor_word x y : is_word x -> is_word y -> is_word (Z.lxor x y).
Proof.
  intros Hx Hy. unfold is_word in *. split; [apply Z.lxor_nonneg; lia|].
  apply bits_lt_pow2; [apply Z.lxor_nonneg; lia|lia|]. intros j Hj. rewrite Z.lxor_spec.
  assert (Hb : forall z, 0 <= z < 2 ^ 64 -> Z.testbit z j = false).
  { intros z Hz. destruct (Z.eq_dec z 0) as [->|]; [apply Z.bits_0|].
    apply Z.bits_above_log2; [lia|]. apply Z.lt_le_trans with 64; [|done]. apply Z.log2_lt_pow2; lia. }
  by rewrite !Hb.
Qed.

(** The test [size & (size - 1)] recognises powers of two. *)
Lemma pow2_of_land size : 0 < size < 2 ^ 64 -> Z.land size (wsub size 1) = 0 -> size = 2 ^ Z.log2 size.
Proof.
  intros Hs. rewrite wsub_small by lia. intros H.
  destruct (Z.log2_spec size ltac:(lia)) as [H1 H2].
  destruct (Z.eq_dec size (2 ^ Z.log2 size)) as [|Hne]; [done|exfalso].
  assert (Hb1 : Z.testbit size (Z.log2 size) = true) by (apply Z.bit_log2; lia).
  pose proof (Z.log2_nonneg size).
  assert (El : Z.log2 (size - 1) = Z.log2 size) by (apply Z.log2_unique; lia).
  assert (Hb2 : Z.testbit (size - 1) (Z.log2 size) = true) by (rewrite <- El; apply Z.bit_log2; lia).
  assert (Hb : Z.testbit (Z.land size (size - 1)) (Z.log2 size) = true) by (by rewrite Z.land_spec, Hb1, Hb2).
  by rewrite H, Z.bits_0 in Hb.
Qed.

Lemma P2ROUNDUP_small x k :
  0 <= k <= 64 -> 0 <= x -> x + 2 ^ k <= 2 ^ 64 -> P2ROUNDUP x (2 ^ k) = roundup x (2 ^ k).
Proof.
  intros Hk Hx Hb. rewrite P2ROUNDUP_spec by lia. apply w64_small.
  pose proof (roundup_spec x (2 ^ k) ltac:(lia)). unfold is_word. lia.
Qed.
