(* ===== verification/SpanTable.v ===== *)
(** * The heap span table of vmem.c

    [vmem_span_tab] is a fixed array of [base, end) pairs kept sorted by base;
    [vmem_span_create] and [vmem_span_destroy] insert and remove entries,
    [vmem_span_find] answers by binary search whether an object lies inside
    one heap span.  The array, its live count, the sequence number and the
    saturation flag are one state record; entries past the live count keep
    whatever the shifts left there, as in the C array. *)
From S2P Require Import Prelude Machine.

Record vmem_span_ent := SpanEnt { vse_base : Z; vse_end : Z }.

#[global] Instance vmem_span_ent_eq_dec : EqDecision vmem_span_ent.
Proof. solve_decision. Defined.
#[global] Instance vmem_span_ent_inhabited : Inhabited vmem_span_ent :=
  populate (SpanEnt 0 0).

Record span_table := SpanTab {
  span_tab : list vmem_span_ent;    (* vmem_span_tab[VMEM_SPAN_MAX] *)
  span_cnt : nat;                   (* vmem_span_cnt *)
  span_seq : Z;                     (* vmem_span_seq, 32 bits *)
  span_saturated : bool             (* vmem_span_saturated *)
}.

Definition VMEM_SPAN_MAX : nat := Z.to_nat 16384.

Definition vmem_span_write_begin (s : Z) : Z := (s + 1) mod 2 ^ 32.
Definition vmem_span_write_end (s : Z) : Z := (s + 1) mod 2 ^ 32.

(** [for (i = 0; i < n; i++) if (test(tab[i])) break;] returns the [i] reached. *)
Fixpoint scan_index (test : vmem_span_ent -> bool) (l : list vmem_span_ent) : nat :=
  match l with
  | [] => O
  | e :: l' => if test e then O else S (scan_index test l')
  end.

Definition vmem_span_table_insert (base end_ : Z) (st : span_table) : span_table :=
  let n := span_cnt st in
  if decide (VMEM_SPAN_MAX <= n)%nat then
    SpanTab (span_tab st) n (span_seq st) true
  else
    let i := scan_index (fun e => base <? vse_base e) (take n (span_tab st)) in
    let seq1 := vmem_span_write_begin (span_seq st) in
    let tab1 := shift_up (n - i) i (span_tab st) in
    let tab2 := <[i := SpanEnt base end_]> tab1 in
    SpanTab tab2 (S n) (vmem_span_write_end seq1) (span_saturated st).

Definition vmem_span_table_remove (base end_ : Z) (st : span_table) : span_table :=
  let n := span_cnt st in
  let i := scan_index (fun e => (vse_base e =? base) && (vse_end e =? end_))
             (take n (span_tab st)) in
  if decide (i = n) then st
  else
    let seq1 := vmem_span_write_begin (span_seq st) in
    let tab1 := shift_down (n - 1 - i) i (span_tab st) in
    SpanTab tab1 (n - 1) (vmem_span_write_end seq1) (span_saturated st).

(** The binary search of [vmem_span_find] on the array: [None] when the loop
    runs off, [Some e] when it breaks at the entry containing [addr].  The
    interval halves, so a fuel of [bhi - blo] suffices ([bsearch_complete]). *)
Fixpoint bsearch (fuel : nat) (tab : list vmem_span_ent) (addr : Z) (blo bhi : nat)
  : option vmem_span_ent :=
  match fuel with
  | O => None
  | S fuel' =>
      if decide (blo < bhi)%nat then
        let i := (blo + (bhi - blo) / 2)%nat in
        let e := tab !!! i in
        if addr <? vse_base e then bsearch fuel' tab addr blo i
        else if vse_end e <=? addr then bsearch fuel' tab addr (S i) bhi
        else Some e
      else None
  end.

Lemma bsearch_S fuel tab addr blo bhi :
  bsearch (S fuel) tab addr blo bhi =
    if decide (blo < bhi)%nat then
      if addr <? vse_base (tab !!! (blo + (bhi - blo) / 2)%nat)
      then bsearch fuel tab addr blo (blo + (bhi - blo) / 2)
      else if vse_end (tab !!! (blo + (bhi - blo) / 2)%nat) <=? addr
      then bsearch fuel tab addr (S (blo + (bhi - blo) / 2)) bhi
      else Some (tab !!! (blo + (bhi - blo) / 2)%nat)
    else None.
Proof. reflexivity. Qed.
#[global] Arguments bsearch : simpl never.

Inductive find_result :=
| FindNo                       (* return 0 *)
| FindHull                     (* saturated: return 1, cache nothing *)
| FindIn (fb fe : Z).          (* return 1 with the span's bounds *)

#[global] Instance find_result_eq_dec : EqDecision find_result.
Proof. solve_decision. Defined.

(** What [found] and the out-parameters come to after the search. *)
Definition found_result (len addr : Z) (r : option vmem_span_ent) : find_result :=
  match r with
  | Some e => if wadd addr len <=? vse_end e then FindIn (vse_base e) (vse_end e) else FindNo
  | None => FindNo
  end.

(** [vmem_span_find] with no writer running (one pass of its retry loop). *)
Definition vmem_span_find (addr len : Z) (st : span_table) : find_result :=
  if wadd addr len <? addr then FindNo
  else if span_saturated st then FindHull
  else found_result len addr
         (bsearch (S (span_cnt st)) (span_tab st) addr 0 (span_cnt st)).

Definition vmem_span_owns (addr len : Z) (st : span_table) : bool :=
  match vmem_span_find addr len st with FindNo => false | _ => true end.

Definition vmem_span_gen (st : span_table) : Z := span_seq st.

(** ** Invariant *)

Definition live (st : span_table) : list vmem_span_ent := take (span_cnt st) (span_tab st).

(** Entries are non-empty ranges, in address order and pairwise disjoint. *)
Fixpoint spans_sorted (l : list vmem_span_ent) : Prop :=
  match l with
  | [] => True
  | e :: l' => vse_base e < vse_end e /\
               Forall (fun e' => vse_end e <= vse_base e') l' /\ spans_sorted l'
  end.

Record span_table_wf (st : span_table) : Prop := {
  stw_size : length (span_tab st) = VMEM_SPAN_MAX;
  stw_cnt : (span_cnt st <= VMEM_SPAN_MAX)%nat;
  stw_sorted : spans_sorted (live st);
  stw_seq : 0 <= span_seq st < 2 ^ 32 /\ Z.even (span_seq st) = true
}.

Definition span_empty : span_table :=
  SpanTab (replicate VMEM_SPAN_MAX (SpanEnt 0 0)) 0 0 false.

(** ** Insertion and removal keep the table sorted *)

Lemma scan_index_le test l : (scan_index test l <= length l)%nat.
Proof. induction l as [|e l IH]; simpl; [lia|]. destruct (test e); simpl; lia. Qed.

Lemma scan_index_before test l j e :
  (j < scan_index test l)%nat -> l !! j = Some e -> test e = false.
Proof.
  revert j. induction l as [|e0 l IH]; intros j Hj; simpl in *; [lia|].
  destruct (test e0) eqn:E; [lia|]. destruct j; simpl; [congruence|]. apply IH. lia.
Qed.

Lemma scan_index_at test l :
  (scan_index test l < length l)%nat ->
  exists e, l !! scan_index test l = Some e /\ test e = true.
Proof.
  induction l as [|e0 l IH]; simpl; [lia|].
  destruct (test e0) eqn:E; intros H; [by exists e0|]. apply IH. lia.
Qed.

(** The live entries after an insertion that found room. *)
Lemma insert_live base end_ st :
  length (span_tab st) = VMEM_SPAN_MAX -> (span_cnt st < VMEM_SPAN_MAX)%nat ->
  let i := scan_index (fun e => base <? vse_base e) (live st) in
  live (vmem_span_table_insert base end_ st) =
    take i (live st) ++ SpanEnt base end_ :: drop i (live st).
Proof.
  intros Hlen Hcnt. simpl. unfold vmem_span_table_insert.
  rewrite decide_False by lia. unfold live; simpl.
  set (l := take (span_cnt st) (span_tab st)).
  set (i := scan_index _ l).
  assert (Hl : length l = span_cnt st) by (unfold l; rewrite length_take; lia).
  assert (Hi : (i <= span_cnt st)%nat) by (rewrite <- Hl; apply scan_index_le).
  destruct (drop (span_cnt st) (span_tab st)) as [|x rest] eqn:Hd.
  { apply (f_equal length) in Hd. rewrite length_drop in Hd. simpl in Hd. lia. }
  assert (Etab : span_tab st = take i l ++ drop i l ++ x :: rest).
  { rewrite app_assoc, take_drop, <- Hd. unfold l. by rewrite take_drop. }
  assert (Hti : length (take i l) = i) by (rewrite length_take; lia).
  destruct (shift_up_spec (span_cnt st - i) (take i l) (drop i l) rest x) as [y Hy].
  { rewrite length_drop. lia. }
  rewrite <- Etab, Hti in Hy. rewrite Hy.
  replace i with (length (take i l) + 0)%nat at 1 by lia. rewrite insert_app_r. simpl.
  rewrite take_app_ge by lia. f_equal. rewrite Hti.
  replace (S (span_cnt st) - i)%nat with (S (span_cnt st - i)) by lia. simpl. f_equal.
  rewrite take_app_length'; [done|]. rewrite length_drop. lia.
Qed.

Lemma remove_live base end_ st :
  length (span_tab st) = VMEM_SPAN_MAX -> (span_cnt st <= VMEM_SPAN_MAX)%nat ->
  let i := scan_index (fun e => (vse_base e =? base) && (vse_end e =? end_)) (live st) in
  live (vmem_span_table_remove base end_ st) = take i (live st) ++ drop (S i) (live st).
Proof.
  intros Hlen Hcnt. simpl. unfold vmem_span_table_remove. unfold live.
  set (l := take (span_cnt st) (span_tab st)).
  set (i := scan_index _ l).
  assert (Hl : length l = span_cnt st) by (unfold l; rewrite length_take; lia).
  assert (Hi : (i <= span_cnt st)%nat) by (rewrite <- Hl; apply scan_index_le).
  case_decide as E.
  { fold l. rewrite (take_ge l i), (drop_ge l (S i)) by lia. by rewrite app_nil_r. }
  simpl. destruct (drop i l) as [|x l2] eqn:Hd.
  { apply (f_equal length) in Hd. rewrite length_drop in Hd. simpl in Hd. lia. }
  assert (Hl2 : drop (S i) l = l2).
  { replace (S i) with (i + 1)%nat by lia. rewrite <- drop_drop, Hd. done. }
  rewrite Hl2.
  assert (Hti : length (take i l) = i) by (rewrite length_take; lia).
  assert (Hl2' : length l2 = (span_cnt st - 1 - i)%nat).
  { apply (f_equal length) in Hd. rewrite length_drop in Hd. simpl in Hd. lia. }
  assert (Etab : span_tab st = take i l ++ x :: l2 ++ drop (span_cnt st) (span_tab st)).
  { change (x :: l2 ++ ?r) with ((x :: l2) ++ r). rewrite <- Hd, app_assoc, take_drop.
    unfold l. by rewrite take_drop. }
  destruct (shift_down_spec (span_cnt st - 1 - i) (take i l) l2
              (drop (span_cnt st) (span_tab st)) x Hl2') as [y Hy].
  rewrite <- Etab, Hti in Hy. rewrite Hy.
  rewrite app_assoc. apply take_app_length'. rewrite length_app. lia.
Qed.

Lemma spans_sorted_app l1 l2 :
  spans_sorted (l1 ++ l2) <->
  spans_sorted l1 /\ spans_sorted l2 /\
  Forall (fun e => Forall (fun e' => vse_end e <= vse_base e') l2) l1.
Proof.
  induction l1 as [|e l1 IH]; simpl; [naive_solver|].
  rewrite IH, Forall_app, Forall_cons. naive_solver.
Qed.

Lemma sorted_lookup_disjoint l i j ei ej :
  spans_sorted l -> (i < j)%nat -> l !! i = Some ei -> l !! j = Some ej ->
  vse_end ei <= vse_base ej.
Proof.
  revert i j. induction l as [|e l IH]; intros i j Hs Hij Hi Hj; [done|].
  destruct Hs as (He & Hf & Hs).
  destruct i; simpl in *; simplify_eq.
  - destruct j; [lia|]. simpl in Hj. rewrite Forall_lookup in Hf. eauto.
  - destruct j; [lia|]. simpl in Hj. eapply (IH i j); eauto. lia.
Qed.

Lemma sorted_lookup_nonempty l i e :
  spans_sorted l -> l !! i = Some e -> vse_base e < vse_end e.
Proof.
  revert i. induction l as [|e0 l IH]; intros i Hs Hi; [done|].
  destruct Hs as (He & Hf & Hs).
  destruct i; simpl in *; simplify_eq; eauto.
Qed.

(** A new span is disjoint from every span of the table. *)
Definition fresh_span (base end_ : Z) (l : list vmem_span_ent) : Prop :=
  base < end_ /\ Forall (fun e => vse_end e <= base \/ end_ <= vse_base e) l.

Lemma sorted_insert base end_ l :
  let i := scan_index (fun e => base <? vse_base e) l in
  spans_sorted l -> fresh_span base end_ l ->
  spans_sorted (take i l ++ SpanEnt base end_ :: drop i l).
Proof.
  intros i Hs [Hne Hf].
  pose proof Hs as Hs'. rewrite <- (take_drop i l) in Hs'.
  apply spans_sorted_app in Hs' as (H1 & H2 & H12).
  assert (Hb : forall j e, l !! j = Some e -> (j < i)%nat -> vse_end e <= base).
  { intros j e Hj Hji. pose proof (scan_index_before _ _ _ _ Hji Hj) as T. simpl in T.
    pose proof (sorted_lookup_nonempty _ _ _ Hs Hj).
    rewrite Forall_lookup in Hf. specialize (Hf _ _ Hj). apply Z.ltb_ge in T. lia. }
  assert (Ha : forall j e, l !! j = Some e -> (i <= j)%nat -> end_ <= vse_base e).
  { intros j e Hj Hij. pose proof (lookup_lt_Some _ _ _ Hj).
    destruct (scan_index_at (fun e => base <? vse_base e) l) as (e1 & He1 & T);
      [fold i; lia|]. fold i in He1. apply Z.ltb_lt in T.
    assert (end_ <= vse_base e1).
    { rewrite Forall_lookup in Hf. pose proof (Hf _ _ He1).
      pose proof (sorted_lookup_nonempty _ _ _ Hs He1). lia. }
    destruct (decide (i = j)) as [->|]; [by simplify_eq|].
    pose proof (sorted_lookup_disjoint _ i j _ _ Hs ltac:(lia) He1 Hj).
    pose proof (sorted_lookup_nonempty _ _ _ Hs He1). lia. }
  apply spans_sorted_app. split; [done|]. split.
  - simpl. split; [done|]. split; [|done]. apply Forall_lookup. intros j e Hj.
    rewrite lookup_drop in Hj. eapply Ha; [done|lia].
  - apply Forall_lookup. intros j e Hj. apply lookup_take_Some in Hj as [Hj Hji].
    apply Forall_cons. split; [simpl; eauto|].
    rewrite Forall_lookup in H12. apply (H12 j). by rewrite lookup_take_lt.
Qed.

Lemma sorted_remove i l :
  spans_sorted l -> spans_sorted (take i l ++ drop (S i) l).
Proof.
  revert i. induction l as [|e l IH]; intros i Hs; [by rewrite take_nil, drop_nil|].
  destruct Hs as (He & Hf & Hs). destruct i; simpl; [by rewrite drop_0|].
  split; [done|]. split; [|by apply IH].
  apply Forall_app. split; [by apply Forall_take|by apply Forall_drop].
Qed.

Lemma seq_two s :
  0 <= s < 2 ^ 32 -> Z.even s = true ->
  let s' := vmem_span_write_end (vmem_span_write_begin s) in
  0 <= s' < 2 ^ 32 /\ Z.even s' = true.
Proof.
  intros Hs He s'. unfold s', vmem_span_write_end, vmem_span_write_begin.
  rewrite Zplus_mod_idemp_l. split; [apply Z.mod_pos_bound; lia|].
  apply Z.even_spec in He as [k ->]. apply Z.even_spec.
  exists ((k + 1) mod 2 ^ 31). replace (2 * k + 1 + 1) with (2 * (k + 1)) by lia.
  change (2 ^ 32) with (2 * 2 ^ 31). rewrite Z.mul_mod_distr_l by lia. done.
Qed.

Lemma span_empty_wf : span_table_wf span_empty.
Proof.
  split; [apply length_replicate|apply Nat.le_0_l|exact I|]. simpl. split; [lia|done].
Qed.

Lemma insert_wf base end_ st :
  span_table_wf st -> fresh_span base end_ (live st) ->
  span_table_wf (vmem_span_table_insert base end_ st).
Proof.
  intros [Hlen Hcnt Hs Hseq] Hf.
  destruct (decide (VMEM_SPAN_MAX <= span_cnt st)%nat) as [Hfull|Hroom].
  - unfold vmem_span_table_insert. rewrite decide_True by done. by split.
  - split.
    + unfold vmem_span_table_insert. rewrite decide_False by done. simpl.
      by rewrite length_insert, shift_up_length.
    + unfold vmem_span_table_insert. rewrite decide_False by done. simpl. lia.
    + rewrite insert_live by lia. by apply sorted_insert.
    + unfold vmem_span_table_insert. rewrite decide_False by done. destruct Hseq. by apply seq_two.
Qed.

Lemma remove_wf base end_ st :
  span_table_wf st -> span_table_wf (vmem_span_table_remove base end_ st).
Proof.
  intros [Hlen Hcnt Hs Hseq]. split.
  - unfold vmem_span_table_remove. case_decide; [done|]. simpl. by rewrite shift_down_length.
  - unfold vmem_span_table_remove. case_decide; simpl; lia.
  - rewrite remove_live by lia. by apply sorted_remove.
  - unfold vmem_span_table_remove. case_decide; [done|]. destruct Hseq. by apply seq_two.
Qed.

(** ** The lookup *)

Definition in_span (addr : Z) (e : vmem_span_ent) : Prop := vse_base e <= addr < vse_end e.

Lemma live_lookup st i e :
  live st !! i = Some e <-> (i < span_cnt st)%nat /\ span_tab st !! i = Some e.
Proof. unfold live. rewrite lookup_take_Some. naive_solver. Qed.

Lemma bsearch_sound fuel st addr blo bhi e :
  length (span_tab st) = VMEM_SPAN_MAX -> (span_cnt st <= VMEM_SPAN_MAX)%nat ->
  (bhi <= span_cnt st)%nat ->
  bsearch fuel (span_tab st) addr blo bhi = Some e -> e ∈ live st /\ in_span addr e.
Proof.
  intros Hlen Hcnt. revert blo bhi.
  induction fuel as [|fuel IH]; intros blo bhi Hhi; [done|].
  rewrite bsearch_S.
  case_decide as Hlt; [|done].
  pose proof (Nat.div_lt (bhi - blo) 2 ltac:(lia) ltac:(lia)).
  set (i := (blo + (bhi - blo) / 2)%nat) in *.
  destruct (Z.ltb_spec addr (vse_base (span_tab st !!! i))) as [H1|H1]; [apply IH; lia|].
  destruct (Z.leb_spec (vse_end (span_tab st !!! i)) addr) as [H2|H2]; [apply IH; lia|].
  intros [= <-]. split; [|split; lia].
  apply list_elem_of_lookup. exists i. apply live_lookup. split; [lia|].
  apply list_lookup_lookup_total_lt. lia.
Qed.

Lemma bsearch_complete fuel st addr blo bhi k e :
  span_table_wf st -> (bhi <= span_cnt st)%nat -> (bhi - blo < fuel)%nat ->
  live st !! k = Some e -> (blo <= k < bhi)%nat -> in_span addr e ->
  bsearch fuel (span_tab st) addr blo bhi = Some e.
Proof.
  intros [Hlen Hcnt Hs _]. revert blo bhi.
  induction fuel as [|fuel IH]; intros blo bhi Hhi Hfuel Hk Hb Hin; [lia|].
  rewrite bsearch_S.
  rewrite decide_True by lia.
  pose proof (Nat.div_lt (bhi - blo) 2 ltac:(lia) ltac:(lia)).
  set (i := (blo + (bhi - blo) / 2)%nat) in *.
  assert (Hi : live st !! i = Some (span_tab st !!! i)).
  { apply live_lookup. split; [lia|]. apply list_lookup_lookup_total_lt. lia. }
  pose proof (sorted_lookup_nonempty _ _ _ Hs Hi).
  unfold in_span in Hin.
  destruct (Z.ltb_spec addr (vse_base (span_tab st !!! i))) as [H1|H1].
  { apply IH; [lia|lia|done| |done].
    destruct (decide (i <= k)%nat); [|lia]. destruct (decide (i = k)) as [<-|].
    - rewrite Hi in Hk. simplify_eq. lia.
    - pose proof (sorted_lookup_disjoint _ i k _ _ Hs ltac:(lia) Hi Hk). lia. }
  destruct (Z.leb_spec (vse_end (span_tab st !!! i)) addr) as [H2|H2].
  { apply IH; [lia|lia|done| |done].
    destruct (decide (k <= i)%nat); [|lia]. destruct (decide (i = k)) as [<-|].
    - rewrite Hi in Hk. simplify_eq. lia.
    - pose proof (sorted_lookup_disjoint _ k i _ _ Hs ltac:(lia) Hk Hi). lia. }
  f_equal. destruct (Nat.lt_trichotomy i k) as [L|[L|L]].
  - pose proof (sorted_lookup_disjoint _ i k _ _ Hs L Hi Hk). lia.
  - subst k. rewrite Hi in Hk. congruence.
  - pose proof (sorted_lookup_disjoint _ k i _ _ Hs L Hk Hi). lia.
Qed.

(** The object [addr, addr+len) as the callers pass it: a real, non-empty range. *)
Definition real_object (addr len : Z) : Prop := 0 <= addr /\ 0 < len /\ addr + len < 2 ^ 64.

Definition span_covers (addr len : Z) (e : vmem_span_ent) : Prop :=
  vse_base e <= addr /\ addr + len <= vse_end e.

Lemma find_unsat_spec addr len st fb fe :
  span_table_wf st -> real_object addr len -> span_saturated st = false ->
  vmem_span_find addr len st = FindIn fb fe <->
  SpanEnt fb fe ∈ live st /\ span_covers addr len (SpanEnt fb fe).
Proof.
  intros Hwf (Ha & Hl & Hb) Hsat. unfold vmem_span_find, found_result, wadd.
  rewrite w64_small by (unfold is_word; lia). rewrite Hsat.
  destruct (Z.ltb_spec (addr + len) addr); [lia|]. split.
  - destruct (bsearch _ _ _ _ _) as [e|] eqn:E; [|done].
    destruct (Z.leb_spec (addr + len) (vse_end e)); [|done].
    intros [= <- <-]. destruct Hwf.
    apply bsearch_sound in E as [? [? ?]]; [|done..]. by destruct e.
  - intros [Hin [Hc1 Hc2]]. simpl in *.
    apply list_elem_of_lookup in Hin as [k Hk].
    pose proof Hk as [Hlt _]%live_lookup.
    erewrite bsearch_complete; [|done|done|lia|done|lia|split; simpl; lia].
    simpl. destruct (Z.leb_spec (addr + len) fe); [done|lia].
Qed.

(** ** Refinement: the table implements a set of spans *)

Lemma insert_elem base end_ st x :
  span_table_wf st -> (span_cnt st < VMEM_SPAN_MAX)%nat ->
  x ∈ live (vmem_span_table_insert base end_ st) <-> x = SpanEnt base end_ \/ x ∈ live st.
Proof.
  intros [Hlen Hcnt _ _] Hroom. rewrite insert_live by done. simpl.
  set (i := scan_index _ _). rewrite <- (take_drop i (live st)) at 3. set_solver.
Qed.

Lemma sorted_NoDup l : spans_sorted l -> NoDup l.
Proof.
  induction l as [|e l IH]; [constructor|]. intros (He & Hf & Hs). constructor; [|auto].
  intros Hin. rewrite Forall_forall in Hf. specialize (Hf _ Hin). lia.
Qed.

Lemma remove_elem base end_ st x :
  span_table_wf st ->
  x ∈ live (vmem_span_table_remove base end_ st) <-> x ∈ live st /\ x <> SpanEnt base end_.
Proof.
  intros [Hlen Hcnt Hs _]. rewrite remove_live by done. simpl.
  set (test := fun e => _). set (i := scan_index test (live st)).
  assert (T : forall e, test e = true <-> e = SpanEnt base end_).
  { intros [b e]. unfold test. simpl. rewrite andb_true_iff, !Z.eqb_eq.
    split; [by intros [-> ->]|by intros [= -> ->]]. }
  destruct (decide (i < length (live st))%nat) as [Hi|Hi].
  - destruct (scan_index_at test (live st) Hi) as (e & He & Te). fold i in He.
    apply T in Te as ->. apply sorted_NoDup in Hs.
    rewrite <- (take_drop_middle _ _ _ He) in Hs |- * at 3.
    apply NoDup_app in Hs as (_ & H12 & H2). apply NoDup_cons in H2 as [H2 _].
    set_unfold. naive_solver.
  - rewrite take_ge, drop_ge, app_nil_r by lia. split; [|tauto]. intros Hx. split; [done|].
    intros ->. apply list_elem_of_lookup in Hx as [j Hj].
    pose proof (scan_index_le test (live st)). pose proof (lookup_lt_Some _ _ _ Hj).
    assert (test (SpanEnt base end_) = false)
      by (eapply (scan_index_before test (live st) j); [fold i; lia|done]).
    rewrite (proj2 (T _) eq_refl) in *. done.
Qed.

(** The operations [vmem_span_create] and [vmem_span_destroy] perform on the
    table when the arena is the heap. *)
Inductive span_op := SpanCreate (base end_ : Z) | SpanDestroy (base end_ : Z).

Definition span_exec (op : span_op) (st : span_table) : span_table :=
  match op with
  | SpanCreate b e => vmem_span_table_insert b e st
  | SpanDestroy b e => vmem_span_table_remove b e st
  end.

(** The abstract contract: a set of pairwise disjoint spans. *)
Definition spec_exec (op : span_op) (S : gset (Z * Z)) : gset (Z * Z) :=
  match op with
  | SpanCreate b e => {[(b, e)]} ∪ S
  | SpanDestroy b e => S ∖ {[(b, e)]}
  end.

(** The heap only ever adds a span disjoint from the ones it has. *)
Definition op_ok (op : span_op) (S : gset (Z * Z)) : Prop :=
  match op with
  | SpanCreate b e => b < e /\ forall b' e', (b', e') ∈ S -> e' <= b \/ e <= b'
  | SpanDestroy _ _ => True
  end.

Fixpoint ops_ok (ops : list span_op) (S : gset (Z * Z)) : Prop :=
  match ops with
  | [] => True
  | op :: ops' => op_ok op S /\ ops_ok ops' (spec_exec op S)
  end.

Definition span_run (ops : list span_op) (st : span_table) : span_table :=
  foldl (fun st op => span_exec op st) st ops.
Definition spec_run (ops : list span_op) (S : gset (Z * Z)) : gset (Z * Z) :=
  foldl (fun S op => spec_exec op S) S ops.

(** A saturated table tracks a part of the spans, otherwise all of them. *)
Record span_refines (st : span_table) (S : gset (Z * Z)) : Prop := {
  sr_wf : span_table_wf st;
  sr_sub : forall b e, SpanEnt b e ∈ live st -> (b, e) ∈ S;
  sr_all : span_saturated st = false -> forall b e, (b, e) ∈ S -> SpanEnt b e ∈ live st
}.

Lemma insert_full base end_ st :
  (VMEM_SPAN_MAX <= span_cnt st)%nat ->
  vmem_span_table_insert base end_ st = SpanTab (span_tab st) (span_cnt st) (span_seq st) true.
Proof. intros H. unfold vmem_span_table_insert. by rewrite decide_True. Qed.

Lemma insert_saturated base end_ st :
  (span_cnt st < VMEM_SPAN_MAX)%nat ->
  span_saturated (vmem_span_table_insert base end_ st) = span_saturated st.
Proof. intros H. unfold vmem_span_table_insert. by rewrite decide_False by lia. Qed.

Lemma remove_saturated base end_ st :
  span_saturated (vmem_span_table_remove base end_ st) = span_saturated st.
Proof. unfold vmem_span_table_remove. by case_decide. Qed.

Lemma span_exec_refines op st S :
  span_refines st S -> op_ok op S -> span_refines (span_exec op st) (spec_exec op S).
Proof.
  intros [Hwf Hsub Hall] Hok. destruct op as [b e|b e]; simpl in *.
  - destruct Hok as [Hne Hdis].
    assert (fresh_span b e (live st)).
    { split; [done|]. apply Forall_forall. intros [b' e'] Hin. simpl. eauto. }
    destruct (decide (VMEM_SPAN_MAX <= span_cnt st)%nat) as [Hf|Hf].
    + split; [by apply insert_wf| |]; rewrite insert_full by done; simpl; [|done].
      intros b' e' Hin. change (SpanEnt b' e' ∈ live st) in Hin. set_solver.
    + split; [by apply insert_wf| |].
      * intros b' e'. rewrite insert_elem by (done || lia). set_solver.
      * rewrite insert_saturated by lia. intros Hs b' e' Hin.
        rewrite insert_elem by (done || lia). set_solver.
  - split; [by apply remove_wf| |].
    + intros b' e'. rewrite remove_elem by done. set_solver.
    + rewrite remove_saturated. intros Hs b' e' Hin. rewrite remove_elem by done.
      set_solver.
Qed.

Lemma span_run_refines ops st S :
  span_refines st S -> ops_ok ops S -> span_refines (span_run ops st) (spec_run ops S).
Proof.
  revert st S. induction ops as [|op ops IH]; intros st S H Hok; [done|].
  destruct Hok. simpl. apply IH; [|done]. by apply span_exec_refines.
Qed.

Lemma span_empty_refines : span_refines span_empty ∅.
Proof. split; [apply span_empty_wf|intros ?? H; by apply elem_of_nil in H|set_solver]. Qed.

(** ** Exactness of the ownership test *)

Lemma span_owns_exact st S addr len :
  span_refines st S -> real_object addr len ->
  (span_saturated st = true -> vmem_span_owns addr len st = true) /\
  (span_saturated st = false ->
     vmem_span_owns addr len st = true <->
     exists b e, (b, e) ∈ S /\ b <= addr /\ addr + len <= e).
Proof.
  intros [Hwf Hsub Hall] Hobj. split.
  - intros Hs. destruct Hobj as (? & ? & ?). unfold vmem_span_owns, vmem_span_find, wadd.
    rewrite w64_small by (unfold is_word; lia). rewrite Hs.
    by destruct (Z.ltb_spec (addr + len) addr); [lia|].
  - intros Hs. unfold vmem_span_owns. split.
    + destruct (vmem_span_find addr len st) as [| |fb fe] eqn:E; [done| |].
      * unfold vmem_span_find, found_result in E. rewrite Hs in E.
        repeat (case_match; try done).
      * intros _. apply find_unsat_spec in E as [Hin [? ?]]; [|done..].
        exists fb, fe. split_and!; [by apply Hsub|done..].
    + intros (b & e & Hin & ? & ?).
      rewrite (proj2 (find_unsat_spec addr len st b e Hwf Hobj Hs)); [done|].
      split; [by apply Hall|done].
Qed.

(** C15: after any history of span creations and destructions of the heap, the
    lock-free ownership test answers yes for an object exactly when the object
    lies inside one current heap span (an address in a gap between two spans is
    refused); once the table has overflowed it always answers yes, so it never
    refuses an object of the heap. *)
Theorem span_ownership_exact (ops : list span_op) (addr len : Z) :
  ops_ok ops ∅ -> real_object addr len ->
  let st := span_run ops span_empty in
  (span_saturated st = true -> vmem_span_owns addr len st = true) /\
  (span_saturated st = false ->
     vmem_span_owns addr len st = true <->
     exists b e, (b, e) ∈ spec_run ops ∅ /\ b <= addr /\ addr + len <= e).
Proof.
  intros Hok Hobj. apply span_owns_exact; [|done].
  apply span_run_refines; [apply span_empty_refines|done].
Qed.

Definition span_demo : list span_op :=
  [SpanCreate 0x10000 0x20000; SpanCreate 0x40000 0x50000; SpanCreate 0x30000 0x38000;
   SpanDestroy 0x10000 0x20000].

Lemma span_ownership_exact_witness :
  vmem_span_owns 0x40010 0x20 (span_run span_demo span_empty) = true /\
  vmem_span_owns 0x38010 0x20 (span_run span_demo span_empty) = false /\
  ((span_saturated (span_run span_demo span_empty) = true ->
     vmem_span_owns 0x40010 0x20 (span_run span_demo span_empty) = true) /\
   (span_saturated (span_run span_demo span_empty) = false ->
     vmem_span_owns 0x40010 0x20 (span_run span_demo span_empty) = true <->
     exists b e, (b, e) ∈ spec_run span_demo ∅ /\ b <= 0x40010 /\ 0x40010 + 0x20 <= e)).
Proof.
  split; [vm_compute; reflexivity|]. split; [vm_compute; reflexivity|].
  apply (span_ownership_exact span_demo 0x40010 0x20).
  - simpl. split_and!; try lia; set_unfold; naive_solver lia.
  - unfold real_object. lia.
Defined.
