(* ===== verification/SpanSeq.v ===== *)
(** * The seqlock of the span table (vmem.c)

    [vmem_span_find] runs with no lock while one writer, holding [vm_lock],
    shifts the array under it.  The writer's stores are separate steps (the two
    words of an entry are copied one after the other), the reader's loads are
    separate steps, and the two interleave freely.

    A step of the writer is the moment a store becomes visible.  The stores
    between the two increments of the sequence number may become visible in any
    order ([visible]); that the first increment is visible before them and the
    last after them is the assumption.  For the last increment the release store
    of [vmem_span_write_end] gives it; for the first it holds where stores become
    visible in program order, as on x86, but the release store of
    [vmem_span_write_begin] does not give it: [early_stores_false_no] shows what
    happens without it.  The reader's loads are taken in program order; its
    acquire load and acquire fence keep the others between the two loads of the
    sequence number, and an answer that passes the check comes from loads between
    which nothing was stored, so that their order does not matter.

    A read that returns saw the table as it was, between two writer operations,
    at the moment it loaded the first sequence number. *)
From S2P Require Import Prelude Machine SpanTable.

(** ** The writer, store by store *)

Inductive wact :=
| WSeq                          (* vmem_span_seq := vmem_span_seq + 1 *)
| WSat                          (* vmem_span_saturated := 1 *)
| WCopyBase (j k : nat)         (* tab[j].vse_base := tab[k].vse_base *)
| WCopyEnd (j k : nat)          (* tab[j].vse_end := tab[k].vse_end *)
| WBase (j : nat) (b : Z)       (* tab[j].vse_base := b *)
| WEnd (j : nat) (e : Z)        (* tab[j].vse_end := e *)
| WCnt (n : nat).               (* vmem_span_cnt := n *)

Definition set_tab (st : span_table) (j : nat) (e : vmem_span_ent) : span_table :=
  SpanTab (<[j := e]> (span_tab st)) (span_cnt st) (span_seq st) (span_saturated st).

Definition wexec (a : wact) (st : span_table) : span_table :=
  let tab := span_tab st in
  match a with
  | WSeq => SpanTab tab (span_cnt st) ((span_seq st + 1) mod 2 ^ 32) (span_saturated st)
  | WSat => SpanTab tab (span_cnt st) (span_seq st) true
  | WCopyBase j k => set_tab st j (SpanEnt (vse_base (tab !!! k)) (vse_end (tab !!! j)))
  | WCopyEnd j k => set_tab st j (SpanEnt (vse_base (tab !!! j)) (vse_end (tab !!! k)))
  | WBase j b => set_tab st j (SpanEnt b (vse_end (tab !!! j)))
  | WEnd j e => set_tab st j (SpanEnt (vse_base (tab !!! j)) e)
  | WCnt n => SpanTab tab n (span_seq st) (span_saturated st)
  end.

Definition wrun (acts : list wact) (st : span_table) : span_table :=
  foldl (fun st a => wexec a st) st acts.

Fixpoint up_acts (k i : nat) : list wact :=
  match k with
  | O => []
  | S k' => WCopyBase (i + S k') (i + k') :: WCopyEnd (i + S k') (i + k') :: up_acts k' i
  end.

Fixpoint down_acts (k i : nat) : list wact :=
  match k with
  | O => []
  | S k' => WCopyBase i (S i) :: WCopyEnd i (S i) :: down_acts k' (S i)
  end.

(** The stores of one call of [vmem_span_table_insert] or
    [vmem_span_table_remove], in program order. *)
Definition op_acts (op : span_op) (st : span_table) : list wact :=
  let n := span_cnt st in
  match op with
  | SpanCreate b e =>
      if decide (VMEM_SPAN_MAX <= n)%nat then [WSat]
      else
        let i := scan_index (fun x => b <? vse_base x) (take n (span_tab st)) in
        WSeq :: (up_acts (n - i) i ++ [WBase i b; WEnd i e; WCnt (S n)]) ++ [WSeq]
  | SpanDestroy b e =>
      let i := scan_index (fun x => (vse_base x =? b) && (vse_end x =? e))
                 (take n (span_tab st)) in
      if decide (i = n) then []
      else WSeq :: (down_acts (n - 1 - i) i ++ [WCnt (n - 1)%nat]) ++ [WSeq]
  end.

(** ** The order in which the stores become visible *)

(** A store to the data the search reads. *)
Definition is_data (a : wact) : bool :=
  match a with WSeq | WSat => false | _ => true end.

(** Program order, or any order of stores of data with the same outcome between
    the two increments. *)
Inductive visible (op : span_op) (st : span_table) : list wact -> Prop :=
| vis_program : visible op st (op_acts op st)
| vis_data data data' :
    op_acts op st = WSeq :: data ++ [WSeq] -> Forall (fun a => is_data a = true) data' ->
    wrun data' (wexec WSeq st) = wrun data (wexec WSeq st) -> visible op st (WSeq :: data' ++ [WSeq]).

(** ** The reader, load by load *)

Inductive reader :=
| RStart                                       (* load s0 *)
| RSat (s0 : Z)                                (* load vmem_span_saturated *)
| RCnt (s0 : Z)                                (* load vmem_span_cnt *)
| RBase (s0 : Z) (blo bhi : nat)               (* loop test, load tab[i].vse_base *)
| REnd (s0 : Z) (blo bhi : nat)                (* load tab[i].vse_end *)
| RFb (s0 : Z) (i : nat)                       (* fb = tab[i].vse_base *)
| RFe (s0 : Z) (i : nat) (fb : Z)              (* fe = tab[i].vse_end *)
| RSeq (s0 : Z) (r : find_result)              (* load s1 *)
| RDone (r : find_result).

#[global] Instance reader_eq_dec : EqDecision reader.
Proof. solve_decision. Defined.

Definition mid (blo bhi : nat) : nat := (blo + (bhi - blo) / 2)%nat.

Definition fe_result (addr len fb fe : Z) : find_result :=
  if wadd addr len <=? fe then FindIn fb fe else FindNo.

Definition rstep (addr len : Z) (st : span_table) (r : reader) : reader :=
  match r with
  | RStart =>
      if wadd addr len <? addr then RDone FindNo
      else if Z.odd (span_seq st) then RStart else RSat (span_seq st)
  | RSat s0 => if span_saturated st then RDone FindHull else RCnt s0
  | RCnt s0 => RBase s0 0 (span_cnt st)
  | RBase s0 blo bhi =>
      if decide (blo < bhi)%nat then
        if addr <? vse_base (span_tab st !!! mid blo bhi) then RBase s0 blo (mid blo bhi)
        else REnd s0 blo bhi
      else RSeq s0 FindNo
  | REnd s0 blo bhi =>
      if vse_end (span_tab st !!! mid blo bhi) <=? addr then RBase s0 (S (mid blo bhi)) bhi
      else RFb s0 (mid blo bhi)
  | RFb s0 i => RFe s0 i (vse_base (span_tab st !!! i))
  | RFe s0 i fb => RSeq s0 (fe_result addr len fb (vse_end (span_tab st !!! i)))
  | RSeq s0 r => if span_seq st =? s0 then RDone r else RStart
  | RDone r => RDone r
  end.

(** ** Interleaving *)

(** [c_incs] counts the increments of the sequence number without wrapping;
    [c_done] is the list of completed writer operations, [c_cur] the one in
    progress with its stores still to come; [c_g0] and [c_ops0] record
    [c_incs] and [c_done] when the reader last loaded an even [s0]. *)
Record config := Config {
  c_tab : span_table;
  c_incs : Z;
  c_done : list span_op;
  c_cur : option (span_op * list wact);
  c_reader : reader;
  c_g0 : Z;
  c_ops0 : list span_op
}.

Definition act_incs (a : wact) : Z := match a with WSeq => 1 | _ => 0 end.

Section interleaving.
Context (addr len : Z).

Inductive step : config -> config -> Prop :=
| step_write_start st n d r g o op a acts :
    visible op st (a :: acts) ->
    step (Config st n d None r g o) (Config st n d (Some (op, a :: acts)) r g o)
| step_write_nothing st n d r g o op :
    op_acts op st = [] ->
    step (Config st n d None r g o) (Config st n (d ++ [op]) None r g o)
| step_write st n d r g o op a a' acts :
    step (Config st n d (Some (op, a :: a' :: acts)) r g o)
         (Config (wexec a st) (n + act_incs a) d (Some (op, a' :: acts)) r g o)
| step_write_last st n d r g o op a :
    step (Config st n d (Some (op, [a])) r g o)
         (Config (wexec a st) (n + act_incs a) (d ++ [op]) None r g o)
| step_read_s0 st n d w g o :
    rstep addr len st RStart = RSat (span_seq st) ->
    step (Config st n d w RStart g o) (Config st n d w (RSat (span_seq st)) n d)
| step_read st n d w r g o :
    (forall s0, rstep addr len st r <> RSat s0) ->
    step (Config st n d w r g o) (Config st n d w (rstep addr len st r) g o).

Inductive reachable : config -> Prop :=
| reach_init : reachable (Config span_empty 0 [] None RStart 0 [])
| reach_step c c' : reachable c -> step c c' -> reachable c'.

End interleaving.

(** ** Running a schedule *)

Inductive choice := ChStart (op : span_op) | ChWrite | ChRead.

Definition sched_step (addr len : Z) (ch : choice) (c : config) : config :=
  let '(Config st n d cur r g o) := c in
  match ch, cur with
  | ChStart op, None =>
      match op_acts op st with
      | [] => Config st n (d ++ [op]) None r g o
      | a :: acts => Config st n d (Some (op, a :: acts)) r g o
      end
  | ChWrite, Some (op, [a]) => Config (wexec a st) (n + act_incs a) (d ++ [op]) None r g o
  | ChWrite, Some (op, a :: a' :: acts) =>
      Config (wexec a st) (n + act_incs a) d (Some (op, a' :: acts)) r g o
  | ChRead, _ =>
      match r, rstep addr len st r with
      | RStart, RSat s => Config st n d cur (RSat s) n d
      | _, r' => Config st n d cur r' g o
      end
  | _, _ => c
  end.

Definition sched_run (addr len : Z) (l : list choice) (c : config) : config :=
  foldl (fun c ch => sched_step addr len ch c) c l.

Definition config0 : config := Config span_empty 0 [] None RStart 0 [].

Lemma sched_step_reachable addr len ch c :
  reachable addr len c -> reachable addr len (sched_step addr len ch c).
Proof.
  intros H. destruct c as [st n d cur r g o].
  destruct ch as [op| |]; simpl.
  - destruct cur as [[]|]; [done|]. destruct (op_acts op st) eqn:E.
    + eapply reach_step; [done|]. by constructor.
    + eapply reach_step; [done|]. constructor. rewrite <- E. constructor.
  - destruct cur as [[op [|a [|a' acts]]]|]; try done; (eapply reach_step; [done|]); constructor.
  - assert (E0 : forall s, rstep addr len st RStart = RSat s -> s = span_seq st).
    { intros s. simpl. repeat case_match; congruence. }
    assert (Eo : forall s, r <> RStart -> rstep addr len st r <> RSat s).
    { intros s Hr. destruct r; simpl; repeat case_match; congruence. }
    destruct (decide (r = RStart)) as [->|Hr].
    + pose proof (step_read addr len st n d cur RStart g o) as Hs.
      cbn [rstep] in E0, Hs. destruct (if wadd addr len <? addr then _ else _) eqn:E;
        try (eapply reach_step; [exact H|]; apply Hs; done).
      rewrite (E0 _ eq_refl). eapply reach_step; [exact H|]. apply step_read_s0.
      cbn [rstep]. by rewrite E, <- (E0 _ eq_refl).
    + replace (match r with RStart => _ | _ => _ end) with (Config st n d cur (rstep addr len st r) g o)
        by (by destruct r).
      eapply reach_step; [exact H|]. apply step_read. auto.
Qed.

Lemma sched_run_reachable addr len l : reachable addr len (sched_run addr len l config0).
Proof.
  unfold sched_run. assert (Hc : reachable addr len config0) by constructor. revert Hc.
  generalize config0. induction l as [|ch l IH]; intros c Hc; simpl; [done|].
  by apply IH, sched_step_reachable.
Qed.

(** ** The stores of an operation add up to the operation *)

Lemma copy_pair st j k :
  j <> k -> wrun [WCopyBase j k; WCopyEnd j k] st = set_tab st j (span_tab st !!! k).
Proof.
  intros Hjk. unfold wrun; simpl; unfold set_tab; simpl. rewrite list_insert_insert_eq.
  destruct (decide (j < length (span_tab st))%nat) as [H|H].
  - rewrite list_lookup_total_insert_eq by done.
    rewrite list_lookup_total_insert_ne by done. by destruct (span_tab st !!! k).
  - by rewrite !list_insert_ge by lia.
Qed.

Lemma store_pair st j b e :
  wrun [WBase j b; WEnd j e] st = set_tab st j (SpanEnt b e).
Proof.
  unfold wrun; simpl; unfold set_tab; simpl. rewrite list_insert_insert_eq.
  destruct (decide (j < length (span_tab st))%nat) as [H|H].
  - by rewrite list_lookup_total_insert_eq by done.
  - by rewrite !list_insert_ge by lia.
Qed.

Lemma wrun_app l1 l2 st : wrun (l1 ++ l2) st = wrun l2 (wrun l1 st).
Proof. apply foldl_app. Qed.

Lemma wrun_up k i st :
  wrun (up_acts k i) st =
  SpanTab (shift_up k i (span_tab st)) (span_cnt st) (span_seq st) (span_saturated st).
Proof.
  revert st. induction k as [|k IH]; intros st; [by destruct st|]. cbn [up_acts shift_up].
  change (WCopyBase ?a ?b :: WCopyEnd ?a ?b :: ?l) with ([WCopyBase a b; WCopyEnd a b] ++ l).
  rewrite wrun_app, copy_pair by lia. by rewrite IH.
Qed.

Lemma wrun_down k i st :
  wrun (down_acts k i) st =
  SpanTab (shift_down k i (span_tab st)) (span_cnt st) (span_seq st) (span_saturated st).
Proof.
  revert i st. induction k as [|k IH]; intros i st; [by destruct st|].
  cbn [down_acts shift_down].
  change (WCopyBase ?a ?b :: WCopyEnd ?a ?b :: ?l) with ([WCopyBase a b; WCopyEnd a b] ++ l).
  rewrite wrun_app, copy_pair by lia. by rewrite IH.
Qed.

Lemma wrun_op op st : wrun (op_acts op st) st = span_exec op st.
Proof.
  destruct op as [b e|b e]; cbn [op_acts span_exec].
  - unfold vmem_span_table_insert. case_decide; [done|].
    set (i := scan_index _ _).
    change (WSeq :: ?l) with ([WSeq] ++ l).
    change ([WBase i b; WEnd i e; WCnt (S (span_cnt st))])
      with ([WBase i b; WEnd i e] ++ [WCnt (S (span_cnt st))]).
    rewrite !wrun_app, wrun_up, store_pair. reflexivity.
  - unfold vmem_span_table_remove. case_decide; [by destruct st|].
    change (WSeq :: ?l) with ([WSeq] ++ l).
    rewrite !wrun_app, wrun_down. reflexivity.
Qed.

(** ** Shape of an operation's stores *)

(** No stores, the saturation flag alone, or data stores between two
    increments of the sequence number. *)
Inductive bracketed : list wact -> Prop :=
| br_nil : bracketed []
| br_sat : bracketed [WSat]
| br_seq data : Forall (fun a => is_data a = true) data -> bracketed (WSeq :: data ++ [WSeq]).

Lemma up_acts_data k i : Forall (fun a => is_data a = true) (up_acts k i).
Proof. induction k; simpl; repeat constructor; done. Qed.
Lemma down_acts_data k i : Forall (fun a => is_data a = true) (down_acts k i).
Proof. revert i; induction k; simpl; repeat constructor; done. Qed.

Lemma op_acts_bracketed op st : bracketed (op_acts op st).
Proof.
  destruct op; cbn [op_acts]; case_decide; constructor.
  - apply Forall_app. split; [apply up_acts_data|]. repeat constructor.
  - apply Forall_app. split; [apply down_acts_data|]. repeat constructor.
Qed.

Lemma visible_bracketed op st l : visible op st l -> bracketed l.
Proof. intros [|data data' _ Hd _]; [apply op_acts_bracketed|by constructor]. Qed.

Lemma visible_run op st l : visible op st l -> wrun l st = span_exec op st.
Proof.
  rewrite <- wrun_op. intros [|data data' -> _ Hr]; [done|].
  change (WSeq :: ?l) with ([WSeq] ++ l). rewrite !wrun_app. by f_equal.
Qed.

Definition incs_of (l : list wact) : Z := foldr (fun a n => act_incs a + n) 0 l.

Lemma incs_of_app l1 l2 : incs_of (l1 ++ l2) = incs_of l1 + incs_of l2.
Proof. induction l1; simpl; lia. Qed.

Lemma incs_of_data l : Forall (fun a => is_data a = true) l -> incs_of l = 0.
Proof. induction 1 as [|a l Ha _ IH]; simpl; [done|]. by destruct a. Qed.

(** Where the writer can stop inside a bracketed list. *)
Lemma bracketed_split pre a acts :
  bracketed (pre ++ a :: acts) ->
  (pre = [] /\ is_data a = false) \/ (incs_of pre = 1 /\ (a = WSeq -> acts = []) /\ a <> WSat).
Proof.
  intros H. inversion H as [E|E|data Hd E].
  - by destruct pre.
  - left. destruct pre as [|? [|]]; simplify_eq/=. done.
  - destruct pre as [|p pre]; simpl in E; injection E as <- E; [by left|]. right.
    destruct acts as [|z acts _] using rev_ind.
    + apply app_inj_tail in E as [-> <-]. simpl. by rewrite incs_of_data by done.
    + rewrite app_comm_cons, app_assoc in E. apply app_inj_tail in E as [-> <-].
      apply Forall_app in Hd as [H1 H2]. apply Forall_cons in H2 as [H2 _].
      simpl. rewrite incs_of_data by done. split_and!; [lia| |]; by intros ->.
Qed.

Lemma bracketed_even l : bracketed l -> Z.even (incs_of l) = true.
Proof.
  intros [| |data Hd]; [done..|]. simpl. rewrite incs_of_app, incs_of_data by done. done.
Qed.

(** ** The invariant *)

(** The operation in progress is some of its stores past the table the
    completed operations left, and the increments match. *)
Definition writer_inv (c : config) : Prop :=
  let base := span_run (c_done c) span_empty in
  span_seq (c_tab c) = c_incs c mod 2 ^ 32 /\
  match c_cur c with
  | None => c_tab c = base /\ Z.even (c_incs c) = true
  | Some (op, acts) =>
      exists pre k, visible op base (pre ++ acts) /\ acts <> [] /\
        c_tab c = wrun pre base /\ c_incs c = 2 * k + incs_of pre
  end.

(** What the rest of the reader's search returns if the array stays as it is. *)
Definition rfinish (addr len : Z) (st : span_table) (r : reader) : find_result :=
  match r with
  | RSat _ | RCnt _ =>
      found_result len addr (bsearch (S (span_cnt st)) (span_tab st) addr 0 (span_cnt st))
  | RBase _ blo bhi => found_result len addr (bsearch (S (bhi - blo)) (span_tab st) addr blo bhi)
  | REnd _ blo bhi =>
      let e := span_tab st !!! mid blo bhi in
      if vse_end e <=? addr then
        found_result len addr
          (bsearch (S (bhi - S (mid blo bhi))) (span_tab st) addr (S (mid blo bhi)) bhi)
      else found_result len addr (Some e)
  | RFb _ i => found_result len addr (Some (span_tab st !!! i))
  | RFe _ i fb => fe_result addr len fb (vse_end (span_tab st !!! i))
  | RSeq _ r => r
  | RStart | RDone _ => FindNo
  end.

(** The sequence number the reader holds, once it has one. *)
Definition reader_s0 (r : reader) : option Z :=
  match r with
  | RSat s | RCnt s | RBase s _ _ | REnd s _ _ | RFb s _ | RFe s _ _ | RSeq s _ => Some s
  | RStart | RDone _ => None
  end.

(** The saturation flag has been read as clear. *)
Definition past_sat (r : reader) : bool :=
  match r with RSat _ | RStart | RDone _ => false | _ => true end.

Definition same_data (s1 s2 : span_table) : Prop :=
  span_tab s1 = span_tab s2 /\ span_cnt s1 = span_cnt s2.

Definition reader_inv (addr len : Z) (c : config) : Prop :=
  forall s0, reader_s0 (c_reader c) = Some s0 ->
  let snap := span_run (c_ops0 c) span_empty in
  s0 = c_g0 c mod 2 ^ 32 /\ Z.even (c_g0 c) = true /\ c_g0 c <= c_incs c /\
  (span_saturated snap = true ->
     span_saturated (c_tab c) = true /\ past_sat (c_reader c) = false) /\
  (wadd addr len <? addr) = false /\
  (c_incs c = c_g0 c ->
     same_data (c_tab c) snap /\
     rfinish addr len (c_tab c) (c_reader c) = rfinish addr len snap (RCnt s0)).

Lemma bsearch_fuel f1 f2 tab addr blo bhi :
  (bhi - blo < f1)%nat -> (bhi - blo < f2)%nat ->
  bsearch f1 tab addr blo bhi = bsearch f2 tab addr blo bhi.
Proof.
  revert f2 blo bhi. induction f1 as [|f1 IH]; intros f2 blo bhi H1 H2; [lia|].
  destruct f2 as [|f2]; [lia|]. rewrite !bsearch_S. case_decide; [|done].
  pose proof (Nat.div_lt (bhi - blo) 2 ltac:(lia) ltac:(lia)).
  repeat case_match; [apply IH; lia|apply IH; lia|done].
Qed.

Lemma rstep_finish addr len st r s0 :
  reader_s0 (rstep addr len st r) = Some s0 -> r <> RStart ->
  reader_s0 r = Some s0 /\ rfinish addr len st (rstep addr len st r) = rfinish addr len st r.
Proof.
  intros Hs Hr. destruct r as [|s|s|s blo bhi|s blo bhi|s i|s i fb|s q|q]; simpl in *; try done.
  - by destruct (span_saturated st).
  - split; [done|]. by rewrite Nat.sub_0_r.
  - rewrite bsearch_S. fold (mid blo bhi). case_decide as Hlt; simpl in *; [|done].
    assert (blo <= mid blo bhi < bhi)%nat.
    { unfold mid. pose proof (Nat.div_lt (bhi - blo) 2 ltac:(lia) ltac:(lia)). lia. }
    destruct (Z.ltb_spec addr (vse_base (span_tab st !!! mid blo bhi))); simpl in *;
      split; try done.
    + f_equal. apply bsearch_fuel; lia.
    + case_match; [|done]. f_equal. apply bsearch_fuel; lia.
  - by destruct (Z.leb_spec (vse_end (span_tab st !!! mid blo bhi)) addr).
  - by destruct (Z.eqb_spec (span_seq st) s).
Qed.

(** ** Preservation *)

Lemma wexec_seq a st n :
  span_seq st = n mod 2 ^ 32 -> span_seq (wexec a st) = (n + act_incs a) mod 2 ^ 32.
Proof.
  intros H. destruct a; simpl; rewrite ?H, ?Z.add_0_r; try done. by rewrite Zplus_mod_idemp_l.
Qed.

Lemma even_mod n : Z.even (n mod 2 ^ 32) = Z.even n.
Proof.
  rewrite (Z.div_mod n (2 ^ 32)) at 2 by lia.
  rewrite Z.even_add, Z.even_mul. by destruct (Z.even (n mod 2 ^ 32)).
Qed.

Lemma span_run_snoc ops op st : span_run (ops ++ [op]) st = span_exec op (span_run ops st).
Proof. unfold span_run. by rewrite foldl_app. Qed.

Lemma writer_inv_step addr len c c' : writer_inv c -> step addr len c c' -> writer_inv c'.
Proof.
  intros [Hseq Hw] Hst. destruct Hst; unfold writer_inv in *; simpl in *.
  - destruct Hw as [-> He]. split; [done|]. apply Z.even_spec in He as [k ->].
    exists [], k. split_and!; [done|done|done|simpl; lia].
  - destruct Hw as [-> He]. rewrite span_run_snoc, <- wrun_op, H. done.
  - destruct Hw as (pre & k & Hacts & _ & -> & ->).
    split; [by apply wexec_seq|]. exists (pre ++ [a]), k.
    rewrite <- app_assoc, wrun_app, incs_of_app. simpl. split_and!; [done|done|done|lia].
  - destruct Hw as (pre & k & Hacts & _ & -> & ->).
    split; [by apply wexec_seq|]. rewrite span_run_snoc, <- (visible_run _ _ _ Hacts), wrun_app.
    split; [done|]. pose proof (visible_bracketed _ _ _ Hacts) as Hb. apply bracketed_even in Hb. rewrite incs_of_app in Hb. simpl in Hb.
    replace (2 * k + incs_of pre + act_incs a) with (incs_of pre + (act_incs a + 0) + 2 * k)
      by lia.
    by rewrite Z.even_add_mul_2.
  - done.
  - done.
Qed.

Lemma writer_even_quiet c :
  writer_inv c -> Z.even (c_incs c) = true -> c_tab c = span_run (c_done c) span_empty.
Proof.
  intros [_ Hw] He. destruct (c_cur c) as [[op acts]|]; [|tauto].
  destruct Hw as (pre & k & Hacts & Hne & -> & Hi).
  pose proof (visible_bracketed _ _ _ Hacts) as Hb. destruct acts as [|a acts]; [done|].
  apply bracketed_split in Hb as [[-> _]|[E _]]; [done|].
  rewrite Hi, E, Z.add_comm, Z.even_add_mul_2 in He. done.
Qed.

Lemma writer_data_odd c op a acts :
  writer_inv c -> c_cur c = Some (op, a :: acts) -> is_data a = true ->
  Z.even (c_incs c) = false.
Proof.
  intros [_ Hw] Hc Ha. rewrite Hc in Hw. destruct Hw as (pre & k & Hacts & _ & _ & ->).
  pose proof (visible_bracketed _ _ _ Hacts) as Hb. apply bracketed_split in Hb as [[_ E]|[E _]]; [congruence|].
  by rewrite E, Z.add_comm, Z.even_add_mul_2.
Qed.

Lemma rfinish_data addr len st st' r :
  same_data st st' -> rfinish addr len st r = rfinish addr len st' r.
Proof. intros [Et Ec]. destruct r; simpl; by rewrite ?Et, ?Ec. Qed.

Lemma reader_inv_write addr len st n d cur d' cur' r g o a :
  reader_inv addr len (Config st n d cur r g o) ->
  (is_data a = true -> Z.even n = false) ->
  reader_inv addr len (Config (wexec a st) (n + act_incs a) d' cur' r g o).
Proof.
  intros Hr Hd s0 Hs. destruct (Hr s0 Hs) as (E0 & Eg & Hle & Hsat & Hw & Hq). simpl in *.
  split_and!; try done.
  - destruct a; simpl; lia.
  - intros Hsn. destruct (Hsat Hsn) as [E ?]. split; [|done]. destruct a; simpl; done.
  - intros Hn. destruct (is_data a) eqn:Ea.
    + assert (act_incs a = 0) as Z0 by (by destruct a). rewrite Z0, Z.add_0_r in Hn. subst n.
      rewrite Hd in Eg by done. done.
    + destruct a; try done; simpl in *; [lia|]. rewrite Z.add_0_r in Hn.
      destruct (Hq Hn) as [Hsd Hf]. split; [done|]. rewrite <- Hf. by apply rfinish_data.
Qed.

Lemma reader_inv_step addr len c c' :
  writer_inv c -> reader_inv addr len c -> step addr len c c' -> reader_inv addr len c'.
Proof.
  intros Hwi Hr Hst. destruct Hst as [st n d r g o op a acts Hop|st n d r g o op Hop
    |st n d r g o op a a' acts|st n d r g o op a|st n d w g o E0|st n d w r g o Hno].
  - exact Hr.
  - exact Hr.
  - eapply reader_inv_write; [exact Hr|]. by eapply (writer_data_odd _ _ _ _ Hwi).
  - eapply reader_inv_write; [exact Hr|]. by eapply (writer_data_odd _ _ _ _ Hwi).
  - intros s0 [= <-]. simpl.
    assert (Hev : Z.even (span_seq st) = true /\ (wadd addr len <? addr) = false).
    { unfold rstep in E0. destruct (wadd addr len <? addr); [done|].
      rewrite <- Z.negb_even in E0. by destruct (Z.even (span_seq st)). }
    destruct Hev as [Hev Hwr]. pose proof Hwi as [Hseq _]. simpl in Hseq.
    rewrite Hseq, even_mod in Hev.
    pose proof (writer_even_quiet _ Hwi Hev) as Hq. simpl in Hq.
    rewrite <- Hq. split_and!; try done.
  - intros s0 Hs. simpl in *. destruct (decide (r = RStart)) as [->|Hnr].
    { exfalso. apply (Hno s0). unfold rstep in *. destruct (wadd addr len <? addr); [done|].
      destruct (Z.odd (span_seq st)); simplify_eq/=; done. }
    destruct (rstep_finish _ _ _ _ _ Hs Hnr) as [Hs' Hf].
    destruct (Hr s0 Hs') as (E0 & Eg & Hle & Hsat & Hwr & Hq). simpl in *.
    split_and!; try done.
    + intros Hsn. destruct (Hsat Hsn) as [Et Ep]. exfalso.
      destruct r; simpl in *; try done. by rewrite Et in Hs.
    + intros Hn. destruct (Hq Hn) as [Hsd Hfin]. split; [done|]. by rewrite Hf.
Qed.

Lemma reachable_inv addr len c :
  reachable addr len c -> writer_inv c /\ reader_inv addr len c.
Proof.
  induction 1 as [|c c' _ [IHw IHr] Hst].
  - split; [|by intros s0]. split; [done|]. done.
  - split; [by eapply writer_inv_step|by eapply reader_inv_step].
Qed.

(** C16: in every interleaving of the span-table writer with the lock-free
    reader in which an operation's first increment of the sequence number is
    visible before the words it stores, which may become visible in any order,
    and its last increment after them: a read whose final check of the sequence
    number succeeds returns exactly the answer for the table left by the
    operations completed when the read loaded its first sequence number,
    provided fewer than 2^32 increments happened in between (the counter is
    32 bits wide). *)
Theorem seqlock_snapshot (addr len : Z) (c : config) (s0 : Z) (r : find_result) :
  reachable addr len c -> c_reader c = RSeq s0 r ->
  rstep addr len (c_tab c) (c_reader c) = RDone r ->
  c_incs c - c_g0 c < 2 ^ 32 ->
  r = vmem_span_find addr len (span_run (c_ops0 c) span_empty).
Proof.
  intros Hc Hr Hdone Hlt. destruct (reachable_inv _ _ _ Hc) as [[Hseq _] Hri].
  destruct (Hri s0 ltac:(by rewrite Hr)) as (E0 & Eg & Hle & Hsat & Hwr & Hq).
  rewrite Hr in *. simpl in *.
  destruct (Z.eqb_spec (span_seq (c_tab c)) s0) as [E|E]; [|done].
  assert (c_incs c = c_g0 c) as Hn.
  { rewrite Hseq, E0 in E. pose proof (Z.div_mod (c_incs c) (2 ^ 32) ltac:(lia)).
    pose proof (Z.div_mod (c_g0 c) (2 ^ 32) ltac:(lia)). nia. }
  destruct (Hq Hn) as [_ ->]. unfold vmem_span_find. rewrite Hwr.
  destruct (span_saturated _) eqn:Es; [|done]. destruct Hsat as [_ ?]; done.
Qed.

(** A span is created, the reader runs up to its final check, and while it runs
    the creation of a second span starts but has not yet stored anything. *)
Definition seqlock_demo : config :=
  sched_run 0x10010 0x20
    ([ChStart (SpanCreate 0x10000 0x20000)] ++ replicate 5 ChWrite ++
     replicate 4 ChRead ++ [ChStart (SpanCreate 0x40000 0x50000)] ++ replicate 3 ChRead)
    config0.

Lemma seqlock_snapshot_witness :
  c_reader seqlock_demo = RSeq 2 (FindIn 0x10000 0x20000) /\
  c_ops0 seqlock_demo = [SpanCreate 0x10000 0x20000] /\
  FindIn 0x10000 0x20000 =
    vmem_span_find 0x10010 0x20 (span_run (c_ops0 seqlock_demo) span_empty).
Proof.
  assert (E : c_reader seqlock_demo = RSeq 2 (FindIn 0x10000 0x20000))
    by (vm_compute; reflexivity).
  split; [exact E|]. split; [vm_compute; reflexivity|].
  apply (seqlock_snapshot 0x10010 0x20 seqlock_demo 2).
  - apply sched_run_reachable.
  - exact E.
  - vm_compute. reflexivity.
  - vm_compute. reflexivity.
Defined.

(** ** Without the order of the first increment

    The release store of [vmem_span_write_begin] does not keep the stores after
    it from becoming visible before it.  A span is in the table and one below it
    is inserted; the words of the two entries are visible, the increment and the
    count are not yet.  The reader finds the even sequence number twice and
    answers no for an object of the first span, which the table holds before and
    after the insertion. *)
Definition one_span : span_table := span_run [SpanCreate 0x40000 0x50000] span_empty.
Definition early_stores : list wact :=
  [WCopyBase 1 0; WCopyEnd 1 0; WBase 0 0x10000; WEnd 0 0x20000].
Fixpoint rsteps (n : nat) (addr len : Z) (st : span_table) (r : reader) : reader :=
  match n with O => r | S n => rsteps n addr len st (rstep addr len st r) end.

Theorem early_stores_false_no :
  op_acts (SpanCreate 0x10000 0x20000) one_span = WSeq :: (early_stores ++ [WCnt 2]) ++ [WSeq] /\
  vmem_span_owns 0x40010 0x20 one_span = true /\
  vmem_span_owns 0x40010 0x20 (span_exec (SpanCreate 0x10000 0x20000) one_span) = true /\
  rsteps 7 0x40010 0x20 (wrun early_stores one_span) RStart = RDone FindNo.
Proof. split_and!; vm_compute; reflexivity. Qed.
