(* ===== verification/VmemArena.v ===== *)
(** * Vmem arenas: segments and the structures that hold them (vmem.c)

    An arena is its segment structures (a store from structure addresses to
    their fields), the arena list that links every segment in address order
    inside its span, the kin list of the spans, the chain of the power-of-two
    freelists with their heads, the hash table of the allocated segments, and
    the stock of spare segment structures.  [Dlist.v] relates the linked lists
    to the pointer fields the C code updates. *)
From S2P Require Import Prelude Machine SpanTable.

(** ** Data *)

(** Addresses of segment structures: one from the segment pool, the arena's
    anchor [vm_seg0], its rotor, a walker on the stack of [vmem_walk], or the
    head of freelist [i] (a [vmem_freelist_t] seen as a segment). *)
Inductive segp :=
| Seg (a : Z)
| Seg0
| Rotor
| Walker
| Flist (i : nat).

#[global] Instance segp_eq_dec : EqDecision segp.
Proof. solve_decision. Defined.

#[global] Instance segp_countable : Countable segp.
Proof.
  refine (inj_countable'
    (fun p => match p with
              | Seg a => inl (inl a) | Seg0 => inr 0%nat | Rotor => inr 1%nat
              | Walker => inr 2%nat | Flist i => inl (inr i) end)
    (fun s : (Z + nat) + nat =>
              match s with
              | inl (inl a) => Seg a | inl (inr i) => Flist i
              | inr 0%nat => Seg0 | inr 1%nat => Rotor | inr _ => Walker end) _).
  by intros [].
Defined.

Definition VMEM_ALLOC : Z := 0x01.
Definition VMEM_FREE : Z := 0x02.
Definition VMEM_SPAN : Z := 0x10.
Definition VMEM_ROTOR : Z := 0x20.
Definition VMEM_WALKER : Z := 0x40.

(** The fields of [vmem_seg_t] other than its links and the audit data. *)
Record seg := Sg { vs_start : Z; vs_end : Z; vs_type : Z; vs_import : bool }.

#[global] Instance seg_eq_dec : EqDecision seg.
Proof. solve_decision. Defined.
#[global] Instance seg_inhabited : Inhabited seg := populate (Sg 0 0 0 false).

Definition VS_SIZE (s : seg) : Z := wsub (vs_end s) (vs_start s).

Definition VMEM_HASH_INITIAL : Z := 16.
Definition VMEM_FREELISTS : Z := 64.
Definition VMEM_SEGS_PER_SPAN_CREATE : Z := 2.
Definition VMEM_SEGS_PER_EXACT_ALLOC : Z := 0.
Definition VMEM_SEGS_PER_MIDDLE_ALLOC : Z := 2.
Definition VMEM_SEGS_PER_ALLOC_MAX : Z := VMEM_SEGS_PER_SPAN_CREATE + VMEM_SEGS_PER_MIDDLE_ALLOC.
Definition VMEM_POPULATE_SEGS_PER_ARENA : Z := 4.
Definition VMEM_POPULATE_LOCKS : Z := 1.
Definition VMEM_POPULATE_RESERVE : Z := VMEM_POPULATE_SEGS_PER_ARENA * VMEM_POPULATE_LOCKS.
Definition VMEM_MINFREE : Z := VMEM_POPULATE_RESERVE + VMEM_SEGS_PER_ALLOC_MAX.

(** [VMEM_HASH_INDEX(a, s, q, m)] *)
Definition VMEM_HASH_INDEX (a s q m : Z) : Z :=
  Z.land (Z.shiftr (wadd (wadd a (Z.shiftr a s)) (Z.shiftr a (Z.shiftl s 1))) q) m.

(** [vmem_kstat_t]: 64-bit counters by name. *)
Inductive kctr :=
| vk_mem_inuse | vk_mem_import | vk_mem_total | vk_alloc | vk_free | vk_wait | vk_fail
| vk_lookup | vk_search | vk_populate_fail | vk_contains | vk_contains_search.

#[global] Instance kctr_eq_dec : EqDecision kctr.
Proof. solve_decision. Defined.

Definition vmem_kstat := kctr -> Z.
Definition kadd (c : kctr) (n : Z) (k : vmem_kstat) : vmem_kstat :=
  fun c' => if decide (c' = c) then w64 (k c' + n) else k c'.

(** What [vmem_heap] publishes for the lock-free ownership check. *)
Record heap_pub := HeapPub { vmem_heap_lo : Z; vmem_heap_hi : Z; vmem_heap_tab : span_table }.

(** The part of an arena fixed by [vmem_create]. *)
Record vmem_cfg := VmemCfg {
  vm_quantum : Z;               (* vmem quantum *)
  vm_qshift : Z;                (* log2(vm_quantum) *)
  vm_qcache_max : Z;            (* maximum size to front by umem *)
  vm_cflags : Z;
  vm_mtbf : Z;                  (* induced failure rate, the global one or-ed in *)
  vm_source_alloc : bool;       (* vm_source_alloc != NULL *)
  vm_source_free : bool;        (* vm_source_free != NULL *)
  vm_source_quantum : Z;        (* vm_source->vm_quantum *)
  vm_pop_id : option nat        (* index in vmem_populator[] *)
}.

Record vmem := Vmem {
  vm_cfg : vmem_cfg;
  vm_segs : gmap segp seg;          (* the segment structures *)
  vm_alist : list segp;             (* arena list, circular, from vm_seg0 *)
  vm_spans : list segp;             (* kin list of the spans, circular, from vm_seg0 *)
  vm_flist : list segp;             (* the freelists, from head 0 to head 64 *)
  vm_freemap : Z;                   (* bitmap of non-empty freelists *)
  vm_hash : list (list segp);       (* vm_hash_table *)
  vm_hash_mask : Z;
  vm_hash_shift : Z;
  vm_segfree : list segp;           (* free vmem_seg_t list *)
  vm_nsegfree : Z;
  vm_kstat : vmem_kstat;
  vm_heap_pub : option heap_pub     (* Some for vmem_heap *)
}.

Definition set_segs v (vm : vmem) : vmem :=
  Vmem (vm_cfg vm) v (vm_alist vm) (vm_spans vm) (vm_flist vm) (vm_freemap vm) (vm_hash vm) (vm_hash_mask vm) (vm_hash_shift vm) (vm_segfree vm) (vm_nsegfree vm) (vm_kstat vm) (vm_heap_pub vm).
Definition set_alist v (vm : vmem) : vmem :=
  Vmem (vm_cfg vm) (vm_segs vm) v (vm_spans vm) (vm_flist vm) (vm_freemap vm) (vm_hash vm) (vm_hash_mask vm) (vm_hash_shift vm) (vm_segfree vm) (vm_nsegfree vm) (vm_kstat vm) (vm_heap_pub vm).
Definition set_spans v (vm : vmem) : vmem :=
  Vmem (vm_cfg vm) (vm_segs vm) (vm_alist vm) v (vm_flist vm) (vm_freemap vm) (vm_hash vm) (vm_hash_mask vm) (vm_hash_shift vm) (vm_segfree vm) (vm_nsegfree vm) (vm_kstat vm) (vm_heap_pub vm).
Definition set_flist v (vm : vmem) : vmem :=
  Vmem (vm_cfg vm) (vm_segs vm) (vm_alist vm) (vm_spans vm) v (vm_freemap vm) (vm_hash vm) (vm_hash_mask vm) (vm_hash_shift vm) (vm_segfree vm) (vm_nsegfree vm) (vm_kstat vm) (vm_heap_pub vm).
Definition set_freemap v (vm : vmem) : vmem :=
  Vmem (vm_cfg vm) (vm_segs vm) (vm_alist vm) (vm_spans vm) (vm_flist vm) v (vm_hash vm) (vm_hash_mask vm) (vm_hash_shift vm) (vm_segfree vm) (vm_nsegfree vm) (vm_kstat vm) (vm_heap_pub vm).
Definition set_hash v (vm : vmem) : vmem :=
  Vmem (vm_cfg vm) (vm_segs vm) (vm_alist vm) (vm_spans vm) (vm_flist vm) (vm_freemap vm) v (vm_hash_mask vm) (vm_hash_shift vm) (vm_segfree vm) (vm_nsegfree vm) (vm_kstat vm) (vm_heap_pub vm).
Definition set_hash_mask v (vm : vmem) : vmem :=
  Vmem (vm_cfg vm) (vm_segs vm) (vm_alist vm) (vm_spans vm) (vm_flist vm) (vm_freemap vm) (vm_hash vm) v (vm_hash_shift vm) (vm_segfree vm) (vm_nsegfree vm) (vm_kstat vm) (vm_heap_pub vm).
Definition set_hash_shift v (vm : vmem) : vmem :=
  Vmem (vm_cfg vm) (vm_segs vm) (vm_alist vm) (vm_spans vm) (vm_flist vm) (vm_freemap vm) (vm_hash vm) (vm_hash_mask vm) v (vm_segfree vm) (vm_nsegfree vm) (vm_kstat vm) (vm_heap_pub vm).
Definition set_segfree v (vm : vmem) : vmem :=
  Vmem (vm_cfg vm) (vm_segs vm) (vm_alist vm) (vm_spans vm) (vm_flist vm) (vm_freemap vm) (vm_hash vm) (vm_hash_mask vm) (vm_hash_shift vm) v (vm_nsegfree vm) (vm_kstat vm) (vm_heap_pub vm).
Definition set_nsegfree v (vm : vmem) : vmem :=
  Vmem (vm_cfg vm) (vm_segs vm) (vm_alist vm) (vm_spans vm) (vm_flist vm) (vm_freemap vm) (vm_hash vm) (vm_hash_mask vm) (vm_hash_shift vm) (vm_segfree vm) v (vm_kstat vm) (vm_heap_pub vm).
Definition set_kstat v (vm : vmem) : vmem :=
  Vmem (vm_cfg vm) (vm_segs vm) (vm_alist vm) (vm_spans vm) (vm_flist vm) (vm_freemap vm) (vm_hash vm) (vm_hash_mask vm) (vm_hash_shift vm) (vm_segfree vm) (vm_nsegfree vm) v (vm_heap_pub vm).
Definition set_heap_pub v (vm : vmem) : vmem :=
  Vmem (vm_cfg vm) (vm_segs vm) (vm_alist vm) (vm_spans vm) (vm_flist vm) (vm_freemap vm) (vm_hash vm) (vm_hash_mask vm) (vm_hash_shift vm) (vm_segfree vm) (vm_nsegfree vm) (vm_kstat vm) v.

Definition sg (vm : vmem) (p : segp) : seg := vm_segs vm !!! p.
Definition upd_seg (p : segp) (f : seg -> seg) (vm : vmem) : vmem :=
  set_segs (<[p := f (sg vm p)]> (vm_segs vm)) vm.
Definition kcount (c : kctr) (n : Z) (vm : vmem) : vmem :=
  set_kstat (kadd c n (vm_kstat vm)) vm.

Definition with_start (a : Z) (s : seg) : seg := Sg a (vs_end s) (vs_type s) (vs_import s).
Definition with_end (a : Z) (s : seg) : seg := Sg (vs_start s) a (vs_type s) (vs_import s).
Definition with_type (t : Z) (s : seg) : seg := Sg (vs_start s) (vs_end s) t (vs_import s).
Definition with_import (b : bool) (s : seg) : seg := Sg (vs_start s) (vs_end s) (vs_type s) b.

(** [vs_anext], [vs_aprev] on the circular arena list and [vs_knext],
    [vs_kprev] on the circular span list. *)
Definition cnext (l : list segp) (p : segp) : segp := default Seg0 (lnext p l).
Definition cprev (l : list segp) (p : segp) : segp :=
  match lprev p l with Some q => q | None => default Seg0 (last l) end.
Definition vs_anext (vm : vmem) (p : segp) : segp := cnext (vm_alist vm) p.
Definition vs_aprev (vm : vmem) (p : segp) : segp := cprev (vm_alist vm) p.

(** ** The stock of segment structures *)

Definition vmem_getseg (vm : vmem) : result (segp * vmem) :=
  match vm_segfree vm with
  | [] => Panic "vm_segfree is NULL"
  | p :: l => Ok (p, set_nsegfree (vm_nsegfree vm - 1) (set_segfree l vm))
  end.

Definition vmem_putseg (p : segp) (vm : vmem) : vmem :=
  set_nsegfree (vm_nsegfree vm + 1) (set_segfree (p :: vm_segfree vm) vm).

(** ** Freelists

    The primitives on lists and segments are total functions: their ASSERTs
    (that a segment on a freelist is free and does not head its hash chain, that
    the bitmap has its list's bit, that a destroyed segment is no rotor and a
    destroyed span starts with a span marker) are not part of the model.  The
    ASSERTs of the operations built from them are. *)

Definition vmem_freelist_insert (p : segp) (vm : vmem) : vmem :=
  let head := Flist (Z.to_nat (highbit (VS_SIZE (sg vm p)) - 1)) in
  let vm := upd_seg p (with_type VMEM_FREE) vm in
  let vm := set_freemap (Z.lor (vm_freemap vm) (VS_SIZE (sg vm head))) vm in
  set_flist (insert_after head p (vm_flist vm)) vm.

Definition vmem_freelist_delete (p : segp) (vm : vmem) : vmem :=
  let knext := default Seg0 (lnext p (vm_flist vm)) in
  let kprev := default Seg0 (lprev p (vm_flist vm)) in
  let vm :=
    if (vs_start (sg vm knext) =? 0) && (vs_start (sg vm kprev) =? 0)
    then set_freemap (Z.lxor (vm_freemap vm) (VS_SIZE (sg vm kprev))) vm
    else vm in
  set_flist (unlink p (vm_flist vm)) vm.

(** ** The allocated-segment hash table *)

Definition hash_index (vm : vmem) (addr : Z) : nat :=
  Z.to_nat (VMEM_HASH_INDEX addr (vm_hash_shift vm) (vm_qshift (vm_cfg vm)) (vm_hash_mask vm)).

(** Insert into the bucket and count; the audit stack, thread and timestamp
    the C code also records are not part of the model. *)
Definition vmem_hash_insert (p : segp) (vm : vmem) : vmem :=
  let vm := upd_seg p (with_type VMEM_ALLOC) vm in
  let h := hash_index vm (vs_start (sg vm p)) in
  let vm := set_hash (<[h := p :: vm_hash vm !!! h]> (vm_hash vm)) vm in
  kcount vk_mem_inuse (VS_SIZE (sg vm p)) (kcount vk_alloc 1 vm).

(** The scan of one bucket: the segment found, how many were passed over, and
    the bucket without it. *)
Fixpoint hash_scan (vm : vmem) (addr : Z) (b : list segp) : option segp * Z * list segp :=
  match b with
  | [] => (None, 0, [])
  | p :: b' =>
      if vs_start (sg vm p) =? addr then (Some p, 0, b')
      else let '(r, n, b'') := hash_scan vm addr b' in (r, n + 1, p :: b'')
  end.

Definition vmem_hash_delete (addr size : Z) (vm : vmem) : result (segp * vmem) :=
  let h := hash_index vm addr in
  let '(r, n, b) := hash_scan vm addr (vm_hash vm !!! h) in
  let vm := kcount vk_lookup n (set_hash (<[h := b]> (vm_hash vm)) vm) in
  match r with
  | None => Panic "vmem_hash_delete: bad free"
  | Some p =>
      if VS_SIZE (sg vm p) =? size
      then Ok (p, kcount vk_mem_inuse (- size) (kcount vk_free 1 vm))
      else Panic "vmem_hash_delete: wrong size"
  end.

(** ** Segments and spans *)

Definition vmem_seg_create (vprev : segp) (start end_ : Z) (vm : vmem) : result (segp * vmem) :=
  do (p, vm) <- vmem_getseg vm;
  let vm := upd_seg p (fun _ => Sg start end_ 0 false) vm in
  Ok (p, set_alist (insert_after vprev p (vm_alist vm)) vm).

Definition vmem_seg_destroy (p : segp) (vm : vmem) : vmem :=
  vmem_putseg p (set_alist (unlink p (vm_alist vm)) vm).

(** [for (kprev = kend->vs_kprev; kprev != kend; kprev = kprev->vs_kprev)
      if (!kprev->vs_import && (kprev->vs_end - 1) < start) break;]
    over the spans from the highest, ending at the anchor. *)
Fixpoint span_kprev (vm : vmem) (start : Z) (rev_spans : list segp) : segp :=
  match rev_spans with
  | [] => Seg0
  | k :: l =>
      if negb (vs_import (sg vm k)) && (wsub (vs_end (sg vm k)) 1 <? start) then k
      else span_kprev vm start l
  end.

Definition heap_publish (start end_ : Z) (h : heap_pub) : heap_pub :=
  HeapPub (if start <? vmem_heap_lo h then start else vmem_heap_lo h)
          (if vmem_heap_hi h <? end_ then end_ else vmem_heap_hi h)
          (vmem_span_table_insert start end_ (vmem_heap_tab h)).

Definition vmem_span_create (vaddr size : Z) (import : bool) (vm : vmem) : result (segp * vmem) :=
  let start := vaddr in
  let end_ := wadd start size in
  let knext :=
    if negb import && negb (vm_source_alloc (vm_cfg vm))
    then cnext (vm_spans vm) (span_kprev vm start (rev (tail (vm_spans vm))))
    else Seg0 in
  if negb (Z.land (Z.lor start end_) (wsub (vm_quantum (vm_cfg vm)) 1) =? 0)
  then Panic "vmem_span_create: misaligned"
  else
    let vm := set_heap_pub (heap_publish start end_ <$> vm_heap_pub vm) vm in
    do (span, vm) <- vmem_seg_create (vs_aprev vm knext) start end_ vm;
    let vm := upd_seg span (with_type VMEM_SPAN) vm in
    let vm := set_spans (insert_after (cprev (vm_spans vm) knext) span (vm_spans vm)) vm in
    do (newseg, vm) <- vmem_seg_create span start end_ vm;
    let vm := vmem_freelist_insert newseg vm in
    let vm := upd_seg newseg (with_import import) vm in
    let vm := if import then kcount vk_mem_import size vm else vm in
    Ok (newseg, kcount vk_mem_total size vm).

Definition heap_unpublish (start end_ : Z) (h : heap_pub) : heap_pub :=
  HeapPub (vmem_heap_lo h) (vmem_heap_hi h) (vmem_span_table_remove start end_ (vmem_heap_tab h)).

Definition vmem_span_destroy (p : segp) (vm : vmem) : vmem :=
  let span := vs_aprev vm p in
  let size := VS_SIZE (sg vm p) in
  let vm := set_heap_pub
    (heap_unpublish (vs_start (sg vm span)) (vs_end (sg vm span)) <$> vm_heap_pub vm) vm in
  let vm := if vs_import (sg vm p) then kcount vk_mem_import (- size) vm else vm in
  let vm := kcount vk_mem_total (- size) vm in
  let vm := set_spans (unlink span (vm_spans vm)) vm in
  let vm := vmem_seg_destroy p vm in
  vmem_seg_destroy span vm.

(** Allocate [addr, addr + size) from the free segment [p]. *)
Definition vmem_seg_alloc (p : segp) (addr size : Z) (vm : vmem) : result (segp * vmem) :=
  let s_start := vs_start (sg vm p) in
  let s_end := vs_end (sg vm p) in
  let s_size := wsub s_end s_start in
  let realsize := P2ROUNDUP size (vm_quantum (vm_cfg vm)) in
  let addr_end := wadd addr realsize in
  do _ <- ASSERT (P2PHASE s_start (vm_quantum (vm_cfg vm)) =? 0) "P2PHASE(vs_start, vm_quantum) == 0";
  do _ <- ASSERT (P2PHASE addr (vm_quantum (vm_cfg vm)) =? 0) "P2PHASE(addr, vm_quantum) == 0";
  do _ <- ASSERT (vs_type (sg vm p) =? VMEM_FREE) "vs_type == VMEM_FREE";
  do _ <- ASSERT ((s_start <=? addr) && (wsub addr_end 1 <=? wsub s_end 1))
            "addr >= vs_start && addr_end - 1 <= vs_end - 1";
  do _ <- ASSERT (wsub addr 1 <=? wsub addr_end 1) "addr - 1 <= addr_end - 1";
  if P2SAMEHIGHBIT s_size (wsub s_size realsize) && (addr =? s_start) then
    do _ <- ASSERT (highbit s_size =? highbit (wsub s_size realsize)) "highbit(vs_size)";
    let vm := upd_seg p (with_start addr_end) vm in
    do (q, vm) <- vmem_seg_create (vs_aprev vm p) addr (wadd addr size) vm;
    Ok (q, vmem_hash_insert q vm)
  else
    let vm := vmem_freelist_delete p vm in
    do vm <- (if s_end =? addr_end then Ok vm
              else do (q, vm) <- vmem_seg_create p addr_end s_end vm;
                   Ok (vmem_freelist_insert q vm));
    do vm <- (if s_start =? addr then Ok vm
              else do (q, vm) <- vmem_seg_create (vs_aprev vm p) s_start addr vm;
                   Ok (vmem_freelist_insert q vm));
    let vm := upd_seg p (fun s => with_end (wadd addr size) (with_start addr s)) vm in
    Ok (p, vmem_hash_insert p vm).
