(* ===== verification/VmemTile.v ===== *)
(** * Tiling of an arena

    The arena list runs through the spans; after each span marker come the
    segments that cut the span into allocated and free pieces with no gap, no
    overlap and no two free neighbours.  [trun] reads the list left to right
    with the state (span start, position reached, span end, last piece free). *)
From S2P Require Import Prelude Machine SpanTable VmemArena.

Definition tst := option (Z * Z * Z * bool).

(** A span may start only where the previous one is completely covered. *)
Definition closed (st : tst) : Prop :=
  match st with None => True | Some (_, p, E, _) => p = E end.

Definition clear_flag (st : tst) : tst :=
  match st with None => None | Some (B, p, E, _) => Some (B, p, E, false) end.

Section tiling.
Context (q : Z).

Inductive tstep : tst -> seg -> tst -> Prop :=
| ts_span st s e imp :
    closed st -> 0 < s -> s < e -> e < 2 ^ 64 -> (q | s) -> (q | e) ->
    tstep st (Sg s e VMEM_SPAN imp) (Some (s, s, e, false))
| ts_alloc B p E f e imp :
    p < e -> roundup e q <= E ->
    tstep (Some (B, p, E, f)) (Sg p e VMEM_ALLOC imp) (Some (B, roundup e q, E, false))
| ts_free B p E e imp :
    p < e -> e <= E -> (q | e) ->
    tstep (Some (B, p, E, false)) (Sg p e VMEM_FREE imp) (Some (B, e, E, true))
| ts_mark st s :
    vs_type s = VMEM_ROTOR \/ vs_type s = VMEM_WALKER -> tstep st s (clear_flag st).

Inductive trun : tst -> list seg -> tst -> Prop :=
| tr_nil st : trun st [] st
| tr_cons st s st1 l st2 : tstep st s st1 -> trun st1 l st2 -> trun st (s :: l) st2.

(** The list is accepted from [st] and every span is completely covered. *)
Definition tclosed (st : tst) (l : list seg) : Prop := exists st', trun st l st' /\ closed st'.

Lemma trun_app st l1 l2 st' :
  trun st (l1 ++ l2) st' <-> exists m, trun st l1 m /\ trun m l2 st'.
Proof.
  revert st. induction l1 as [|s l1 IH]; intros st; simpl.
  - split; [intros H; exists st; split; [constructor|done]|].
    intros (m & Hm & H). by inversion Hm; subst.
  - split.
    + intros H. inversion H; subst. apply IH in H5 as (m & Hm & H5).
      exists m. split; [|done]. by econstructor.
    + intros (m & Hm & H). inversion Hm; subst. econstructor; [done|]. apply IH. eauto.
Qed.

Lemma tclosed_app st l1 l2 :
  tclosed st (l1 ++ l2) <-> exists m, trun st l1 m /\ tclosed m l2.
Proof.
  unfold tclosed. split.
  - intros (st' & (m & H1 & H2)%trun_app & Hc). eauto.
  - intros (m & H1 & st' & H2 & Hc). exists st'. split; [|done]. apply trun_app. eauto.
Qed.

Lemma tclosed_nil st : tclosed st [] <-> closed st.
Proof.
  split; [|intros H; exists st; split; [constructor|done]].
  intros (st' & H & Hc). by inversion H; subst.
Qed.

Lemma trun_cons st s l st' :
  trun st (s :: l) st' <-> exists m, tstep st s m /\ trun m l st'.
Proof.
  split; [intros H; inversion H; subst; eauto|]. intros (m & ? & ?). by econstructor.
Qed.

Lemma tclosed_cons st s l :
  tclosed st (s :: l) <-> exists m, tstep st s m /\ tclosed m l.
Proof.
  change (s :: l) with ([s] ++ l). rewrite tclosed_app. split.
  - intros (m & H & Hc). inversion H; subst. inversion H5; subst. eauto.
  - intros (m & H & Hc). exists m. split; [|done]. econstructor; [exact H|constructor].
Qed.

(** Where a free last piece is accepted, any last piece is. *)
Lemma tclosed_flag B p E f l :
  tclosed (Some (B, p, E, true)) l -> tclosed (Some (B, p, E, f)) l.
Proof.
  destruct l as [|s l]; [by rewrite !tclosed_nil|]. rewrite !tclosed_cons.
  intros (m & Hs & Hc). exists m. split; [|done].
  inversion Hs; subst; try by constructor. by apply ts_mark with (st := Some (B, p, E, f)).
Qed.

Lemma tclosed_any_flag B p E f l :
  tclosed (Some (B, p, E, f)) l -> tclosed (Some (B, p, E, false)) l.
Proof. destruct f; [apply tclosed_flag|done]. Qed.

(** States that a run from [None] can reach. *)
Definition tst_ok (st : tst) : Prop :=
  match st with
  | None => True
  | Some (B, p, E, _) => 0 < B /\ B <= p <= E /\ E < 2 ^ 64 /\ (q | B) /\ (q | p) /\ (q | E)
  end.

(** Any last piece is accepted where a free one is, unless a free one follows. *)
Lemma tclosed_raise B p E f l :
  tclosed (Some (B, p, E, f)) l -> (forall s l', l = s :: l' -> vs_type s <> VMEM_FREE) ->
  tclosed (Some (B, p, E, true)) l.
Proof.
  destruct l as [|s l]; [by rewrite !tclosed_nil|]. rewrite !tclosed_cons.
  intros (m & Hs & Hc) Hh. exists m. split; [|done]. specialize (Hh s l eq_refl).
  inversion Hs; subst; try done; try by constructor. by apply ts_mark with (st := Some (B, p, E, true)).
Qed.

(** The open span is a span of the list read so far. *)
Lemma trun_open st l B p E f :
  trun st l (Some (B, p, E, f)) ->
  (exists p' f', st = Some (B, p', E, f')) \/
  exists s, s ∈ l /\ vs_type s = VMEM_SPAN /\ vs_start s = B /\ vs_end s = E.
Proof.
  remember (Some (B, p, E, f)) as st'. intros Hr. revert Heqst'.
  induction Hr as [|st s st1 l st2 Hs Hr IH]; intros ->; [left; eauto|].
  destruct (IH eq_refl) as [(p' & f' & ->)|(s' & Hin & ?)]; [|right; exists s'; set_solver].
  inversion Hs; subst; try (left; eauto; fail).
  - right. eexists. split; [apply list_elem_of_here|]. done.
  - left. destruct st as [[[[? ?] ?] ?]|]; [|done]. simpl in *. simplify_eq. eauto.
Qed.

(** The last piece is recorded as free only if it is. *)
Lemma trun_flag l B p E :
  trun None l (Some (B, p, E, true)) -> exists l' s, l = l' ++ [s] /\ vs_type s = VMEM_FREE.
Proof.
  destruct l as [|s l _] using rev_ind; [intros H; inversion H|].
  intros (m & _ & Hm)%trun_app. apply trun_cons in Hm as (m' & Hs & Hn). inversion Hn; subst.
  inversion Hs; subst; eauto. destruct m as [[[[? ?] ?] ?]|]; done.
Qed.

Context (Hq : 0 < q).

Lemma tstep_ok st s st' : tst_ok st -> tstep st s st' -> tst_ok st'.
Proof.
  intros Hok Hs. destruct Hs as [st s e imp|B p E f e imp Hlt Hle|B p E e imp|st s Ht]; simpl in *.
  - split_and!; try done; lia.
  - pose proof (roundup_spec e q Hq). split_and!; try tauto; lia.
  - split_and!; try tauto; lia.
  - destruct st as [[[[B p] E] f]|]; done.
Qed.

Lemma trun_ok st l st' : tst_ok st -> trun st l st' -> tst_ok st'.
Proof. intros Hok. induction 1; eauto using tstep_ok. Qed.

(** What a run says about one of its segments. *)
Lemma trun_elem st l st' s :
  tst_ok st -> trun st l st' -> s ∈ l ->
  vs_type s = VMEM_ALLOC \/ vs_type s = VMEM_FREE \/ vs_type s = VMEM_SPAN ->
  0 < vs_start s /\ vs_start s < vs_end s /\ vs_end s < 2 ^ 64 /\ (q | vs_start s) /\
  (vs_type s <> VMEM_ALLOC -> (q | vs_end s)) /\ roundup (vs_end s) q < 2 ^ 64.
Proof.
  intros Hok Hr. revert Hok. induction Hr as [|st s0 st1 l st2 Hs Hr IH]; intros Hok Hin Ht;
    [by apply elem_of_nil in Hin|].
  apply elem_of_cons in Hin as [->|Hin]; [|eauto using tstep_ok].
  destruct Hs; simpl in *; try (destruct st as [[[[]]]|]); simpl in *;
    try (pose proof (roundup_spec e q Hq)); try (rewrite (roundup_id e q) by tauto);
    try (split_and!; try tauto; try lia; fail).
  all: exfalso; unfold VMEM_ALLOC, VMEM_FREE, VMEM_SPAN, VMEM_ROTOR, VMEM_WALKER in *; lia.
Qed.

(** Every piece of a run lies in the span that was open at the start, at or
    after the position reached, or in a span of the list. *)
Definition piece (s : seg) : Prop := vs_type s = VMEM_ALLOC \/ vs_type s = VMEM_FREE.

Lemma piece_span_ne s : piece s -> vs_type s <> VMEM_SPAN.
Proof. intros [-> | ->]; done. Qed.

Lemma trun_piece st l st' s :
  tst_ok st -> trun st l st' -> s ∈ l -> piece s ->
  (exists B p E f, st = Some (B, p, E, f) /\ p <= vs_start s /\ vs_end s <= E) \/
  (exists sp, sp ∈ l /\ vs_type sp = VMEM_SPAN /\
     vs_start sp <= vs_start s /\ vs_end s <= vs_end sp).
Proof.
  intros Hok Hr. revert Hok. induction Hr as [|st s0 st1 l st2 Hs Hr IH]; intros Hok Hin Hp;
    [by apply elem_of_nil in Hin|].
  pose proof (tstep_ok _ _ _ Hok Hs) as Hok1.
  apply elem_of_cons in Hin as [->|Hin].
  - left. destruct Hs as [st s e imp|B p E f e imp|B p E e imp|st s Ht].
    + by destruct (piece_span_ne _ Hp).
    + exists B, p, E, f. simpl. pose proof (roundup_spec e q Hq). split_and!; [done|lia|lia].
    + exists B, p, E, false. simpl. split_and!; [done|lia|lia].
    + exfalso. unfold piece, VMEM_ALLOC, VMEM_FREE, VMEM_ROTOR, VMEM_WALKER in *. lia.
  - destruct (IH Hok1 Hin Hp) as [(B1 & p1 & E1 & f1 & -> & H1 & H2)|(sp & Hsp & ?)];
      [|right; exists sp; set_solver].
    inversion Hs; subst.
    + right. eexists. split; [apply list_elem_of_here|]. simpl. split_and!; [done|lia|lia].
    + left. pose proof (roundup_spec e q Hq). eexists _, _, _, _. split_and!; [done|lia|lia].
    + left. eexists _, _, _, _. split_and!; [done|lia|lia].
    + left. destruct st as [[[[B0 p0] E0] f0]|]; [|done]. simpl in *. simplify_eq.
      eexists _, _, _, _. split_and!; done.
Qed.
End tiling.
