(* ===== verification/VmemLists.v ===== *)
(** * Freelists and hash table of an arena

    [free_ok]: the chain of freelists holds exactly the segments of a map [F],
    each on the list of its size class, and [vm_freemap] has a bit for each
    non-empty list.  [hash_ok]: the buckets hold exactly the segments of a map
    [H], each in the bucket of its start address. *)
From S2P Require Import Prelude Machine SpanTable VmemArena.

(** ** The chain of freelists *)

Fixpoint chain_from (k : nat) (fl : list (list segp)) : list segp :=
  match fl with
  | [] => []
  | l :: fl' => Flist k :: l ++ chain_from (S k) fl'
  end.

Definition nlists : nat := 65.          (* VMEM_FREELISTS + 1 *)

(** The head of freelist [i] as [vmem_create] sets it up. *)
Definition head_seg (i : nat) : seg :=
  Sg 0 (if decide (i = 64%nat) then 0 else 2 ^ Z.of_nat i) 0 false.

(** The freelist a segment of this size belongs on. *)
Definition fclass (s : seg) : nat := Z.to_nat (highbit (VS_SIZE s) - 1).

Lemma chain_from_app k f1 f2 :
  chain_from k (f1 ++ f2) = chain_from k f1 ++ chain_from (k + length f1) f2.
Proof.
  revert k. induction f1 as [|l f1 IH]; intros k; simpl; [by rewrite Nat.add_0_r|].
  rewrite IH, <- app_assoc. by replace (S k + length f1)%nat with (k + S (length f1))%nat by lia.
Qed.

Lemma elem_of_chain p k fl :
  p ∈ chain_from k fl <->
  (exists i, p = Flist i /\ (k <= i < k + length fl)%nat) \/ (exists l, l ∈ fl /\ p ∈ l).
Proof.
  revert k. induction fl as [|l fl IH]; intros k; simpl.
  - rewrite elem_of_nil. split; [done|]. intros [(i & _ & ?)|(l & Hl & _)]; [lia|].
    by apply elem_of_nil in Hl.
  - rewrite elem_of_cons, elem_of_app, IH. split.
    + intros [->|[Hp|[(i & -> & ?)|(l' & ? & ?)]]].
      * left. exists k. split; [done|lia].
      * right. exists l. set_solver.
      * left. exists i. split; [done|lia].
      * right. exists l'. set_solver.
    + intros [(i & -> & ?)|(l' & [->|?]%elem_of_cons & ?)].
      * destruct (decide (i = k)) as [->|]; [by left|]. right. right. left.
        exists i. split; [done|lia].
      * tauto.
      * right. right. right. eauto.
Qed.

Lemma elem_of_concat p (fl : list (list segp)) :
  p ∈ concat fl <-> exists l, l ∈ fl /\ p ∈ l.
Proof.
  rewrite list_elem_of_In, in_concat. setoid_rewrite list_elem_of_In. naive_solver.
Qed.

(** Freelist elements are pool segments, each on one list. *)
Definition lists_ok (fl : list (list segp)) : Prop :=
  NoDup (concat fl) /\ forall p, p ∈ concat fl -> exists a, p = Seg a.

Lemma not_in_chain p k fl : (exists a, p = Seg a) -> p ∉ concat fl -> p ∉ chain_from k fl.
Proof.
  intros [a ->] Hp [(i & ? & _)|(l & Hl & Hpl)]%elem_of_chain; [done|].
  apply Hp, elem_of_concat. eauto.
Qed.

Lemma head_not_in_chain i k fl :
  (forall p, p ∈ concat fl -> exists a, p = Seg a) -> (i < k \/ k + length fl <= i)%nat ->
  Flist i ∉ chain_from k fl.
Proof.
  intros Hs Hi [(j & [= ->] & ?)|(l & Hl & Hpl)]%elem_of_chain; [lia|].
  destruct (Hs (Flist i)); [|done]. apply elem_of_concat. eauto.
Qed.

(** A freelist taken out of the middle of the chain. *)
Lemma fl_split (fl : list (list segp)) i l :
  fl !! i = Some l ->
  exists f1 f2, fl = f1 ++ l :: f2 /\ length f1 = i /\
    chain_from 0 fl = chain_from 0 f1 ++ Flist i :: l ++ chain_from (S i) f2 /\
    forall g, alter g i fl = f1 ++ g l :: f2.
Proof.
  intros Hi. exists (take i fl), (drop (S i) fl).
  pose proof (lookup_lt_Some _ _ _ Hi).
  assert (E : fl = take i fl ++ l :: drop (S i) fl) by (by rewrite take_drop_middle).
  assert (Hl : length (take i fl) = i) by (rewrite length_take; lia).
  split_and!; [done|done| |].
  - rewrite E at 1. rewrite chain_from_app. simpl. by rewrite Hl.
  - intros g. rewrite E at 1. rewrite <- Hl at 1.
    clear. induction (take i fl); simpl; [done|]. by f_equal.
Qed.

Lemma lists_ok_split f1 l f2 p :
  lists_ok (f1 ++ l :: f2) -> p ∈ l ->
  (exists a, p = Seg a) /\ (p ∉ chain_from 0 f1) /\ (forall k, p ∉ chain_from k f2) /\ NoDup l.
Proof.
  intros [Hnd Hs] Hp. rewrite concat_app in *. simpl in *.
  assert (Hseg : exists a, p = Seg a) by (apply Hs; set_solver).
  apply NoDup_app in Hnd as (_ & H1 & Hnd). apply NoDup_app in Hnd as (Hl & H2 & _).
  split_and!; [done| | |done].
  - apply not_in_chain; [done|]. intros ?. apply (H1 p); [done|]. set_solver.
  - intros k. apply not_in_chain; [done|]. by apply H2.
Qed.

(** ** The freelists represent a map of free segments *)

Record free_rep (segs : gmap segp seg) (flist : list segp) (fm : Z)
    (F : gmap segp seg) (fl : list (list segp)) : Prop := {
  fr_len : length fl = nlists;
  fr_chain : flist = chain_from 0 fl;
  fr_lists : lists_ok fl;
  fr_in : forall i l p, fl !! i = Some l -> p ∈ l <-> exists s, F !! p = Some s /\ fclass s = i;
  fr_cls : forall p s, F !! p = Some s -> (fclass s < 64)%nat;
  fr_map : forall i l, fl !! i = Some l ->
    Z.testbit fm (Z.of_nat i) = negb (bool_decide (l = []));
  fr_word : is_word fm;
  fr_heads : forall i, (i < nlists)%nat -> segs !! Flist i = Some (head_seg i);
  fr_starts : forall p s, F !! p = Some s -> exists s', segs !! p = Some s' /\ vs_start s' <> 0
}.

Definition free_ok segs flist fm F : Prop := exists fl, free_rep segs flist fm F fl.

Lemma free_rep_list segs flist fm F fl i :
  free_rep segs flist fm F fl -> (i < nlists)%nat -> exists l, fl !! i = Some l.
Proof. intros Hr Hi. apply lookup_lt_is_Some. rewrite (fr_len _ _ _ _ _ Hr). done. Qed.

Lemma free_rep_seg segs flist fm F fl p s :
  free_rep segs flist fm F fl -> F !! p = Some s ->
  (exists a, p = Seg a) /\ exists l, fl !! fclass s = Some l /\ p ∈ l.
Proof.
  intros Hr Hp. pose proof (fr_cls _ _ _ _ _ Hr _ _ Hp).
  destruct (free_rep_list _ _ _ _ _ (fclass s) Hr ltac:(unfold nlists; lia)) as [l Hl].
  assert (p ∈ l) by (apply (fr_in _ _ _ _ _ Hr _ _ p Hl); eauto).
  split; [|eauto]. destruct (fr_lists _ _ _ _ _ Hr) as [_ Hs]. apply Hs.
  apply elem_of_concat. exists l. split; [|done]. by eapply list_elem_of_lookup_2.
Qed.

(** Other segments may change, and a free segment may change within its class. *)
Lemma free_rep_upd segs segs' flist fm F F' fl :
  free_rep segs flist fm F fl ->
  (forall i, segs' !! Flist i = segs !! Flist i) ->
  (forall p s, F' !! p = Some s -> exists s', segs' !! p = Some s' /\ vs_start s' <> 0) ->
  (forall p i, (exists s, F' !! p = Some s /\ fclass s = i) <->
               (exists s, F !! p = Some s /\ fclass s = i)) ->
  free_rep segs' flist fm F' fl.
Proof.
  intros [Hlen Hch Hls Hin Hcls Hmap Hw Hh Hst] Hh' Hst' Hc. split; try done.
  - intros i l p Hi. rewrite Hc. by apply Hin.
  - intros p s Hp. destruct (proj1 (Hc p (fclass s)) ltac:(eauto)) as (s' & Hp' & <-). eauto.
  - intros i Hi. rewrite Hh'. by apply Hh.
Qed.

Lemma head_size i : (i < 64)%nat -> VS_SIZE (head_seg i) = 2 ^ Z.of_nat i.
Proof.
  intros Hi. unfold VS_SIZE, head_seg; simpl. rewrite decide_False by lia.
  unfold wsub. rewrite Z.sub_0_r. apply w64_small.
  assert (2 ^ Z.of_nat i < 2 ^ 64) by (apply Z.pow_lt_mono_r; lia). unfold is_word. lia.
Qed.

Lemma lor_pow2_bits fm (i j : nat) :
  Z.testbit (Z.lor fm (2 ^ Z.of_nat i)) (Z.of_nat j) =
  (bool_decide (i = j) || Z.testbit fm (Z.of_nat j)).
Proof.
  rewrite Z.lor_spec, Z.pow2_bits_eqb by lia. rewrite orb_comm. f_equal.
  apply eq_true_iff_eq. rewrite Z.eqb_eq, bool_decide_eq_true. lia.
Qed.

Lemma lxor_pow2_bits fm (i j : nat) :
  Z.testbit (Z.lxor fm (2 ^ Z.of_nat i)) (Z.of_nat j) =
  xorb (Z.testbit fm (Z.of_nat j)) (bool_decide (i = j)).
Proof.
  rewrite Z.lxor_spec, Z.pow2_bits_eqb by lia. f_equal.
  apply eq_true_iff_eq. rewrite Z.eqb_eq, bool_decide_eq_true. lia.
Qed.

Lemma word_bits x : (forall j, 64 <= j -> Z.testbit x j = false) -> 0 <= x -> is_word x.
Proof. intros H Hx. split; [done|]. by apply bits_lt_pow2. Qed.

Lemma word_above x j : is_word x -> 64 <= j -> Z.testbit x j = false.
Proof.
  intros [H1 H2] Hj. destruct (Z.eq_dec x 0) as [->|]; [apply Z.bits_0|].
  apply Z.bits_above_log2; [lia|]. apply Z.log2_lt_pow2; [lia|].
  eapply Z.lt_le_trans; [done|]. by apply Z.pow_le_mono_r; lia.
Qed.

Lemma pow2_word (i : nat) : (i < 64)%nat -> is_word (2 ^ Z.of_nat i).
Proof.
  intros Hi. assert (2 ^ Z.of_nat i < 2 ^ 64) by (apply Z.pow_lt_mono_r; lia).
  unfold is_word. lia.
Qed.

Lemma lor_word x y : is_word x -> is_word y -> is_word (Z.lor x y).
Proof.
  intros Hx Hy. apply word_bits; [|unfold is_word in *; apply Z.lor_nonneg; lia].
  intros j Hj. by rewrite Z.lor_spec, !word_above.
Qed.

(** Putting a segment on the freelist of its class. *)
Lemma free_rep_insert segs flist fm F fl a s :
  free_rep segs flist fm F fl -> F !! Seg a = None -> (fclass s < 64)%nat ->
  segs !! Seg a = Some s -> vs_start s <> 0 ->
  free_rep segs (insert_after (Flist (fclass s)) (Seg a) flist)
    (Z.lor fm (VS_SIZE (head_seg (fclass s)))) (<[Seg a := s]> F)
    (alter (cons (Seg a)) (fclass s) fl).
Proof.
  intros Hr Hnone Hc Hsegs Hst. pose proof Hr as [Hlen Hch Hls Hin Hcls Hmap Hw Hh Hsts].
  destruct (free_rep_list _ _ _ _ _ (fclass s) Hr ltac:(unfold nlists; lia)) as [l Hl].
  destruct (fl_split fl _ l Hl) as (f1 & f2 & Efl & Hf1 & Ech & Ealt).
  assert (Hnew : Seg a ∉ concat fl).
  { intros (l' & [i Hi]%list_elem_of_lookup & Hp)%elem_of_concat.
    apply (Hin i l') in Hp as (s' & ? & _); [congruence|done]. }
  rewrite head_size by done. split.
  - by rewrite length_alter.
  - rewrite Hch, Ech, Ealt, chain_from_app. simpl. rewrite Hf1.
    apply insert_after_app. apply head_not_in_chain; [|lia].
    intros p Hp. destruct Hls as [_ Hs]. apply Hs. rewrite Efl, concat_app. set_solver.
  - rewrite Ealt. destruct Hls as [Hnd Hs]. rewrite Efl in Hnew, Hnd, Hs.
    rewrite concat_app in Hnew, Hnd. unfold lists_ok. rewrite concat_app. simpl in *. split.
    + rewrite <- Permutation_middle. constructor; [done|done].
    + intros p Hp. destruct (decide (p = Seg a)) as [->|]; [eauto|]. apply Hs.
      rewrite concat_app. set_solver.
  - intros i l' p. rewrite list_lookup_alter. case_decide as E.
    + subst i. rewrite Hl. simpl. intros [= <-]. rewrite elem_of_cons, (Hin _ _ p Hl).
      destruct (decide (p = Seg a)) as [->|Hne].
      * rewrite lookup_insert_eq. naive_solver.
      * rewrite lookup_insert_ne by done. naive_solver.
    + intros Hi. rewrite (Hin _ _ p Hi). destruct (decide (p = Seg a)) as [->|Hne].
      * rewrite lookup_insert_eq, Hnone. naive_solver.
      * by rewrite lookup_insert_ne.
  - intros p s'. rewrite lookup_insert. case_decide; [naive_solver|apply Hcls].
  - intros i l'. rewrite list_lookup_alter, lor_pow2_bits. case_decide as E.
    + subst i. rewrite Hl. simpl. intros [= <-]. by rewrite bool_decide_eq_true_2.
    + intros Hi. rewrite (Hmap _ _ Hi), (bool_decide_eq_false_2 (fclass s = i)) by done. done.
  - apply lor_word; [done|]. by apply pow2_word.
  - done.
  - intros p s'. rewrite lookup_insert. case_decide as E; [|apply Hsts].
    subst p. intros [= <-]. eauto.
Qed.

Lemma elem_of_split_nodup (l : list segp) p :
  p ∈ l -> NoDup l -> exists la lb, l = la ++ p :: lb /\ (p ∉ la) /\ (p ∉ lb).
Proof.
  intros Hp Hnd. apply list_elem_of_split in Hp as (la & lb & ->).
  exists la, lb. split; [done|].
  apply NoDup_app in Hnd as (_ & H1 & H2). apply NoDup_cons in H2 as [H2 _].
  split; [|done]. intros H. apply (H1 p H). by left.
Qed.

Lemma unlink_subset (l : list segp) p x : NoDup l -> x ∈ unlink p l <-> x ∈ l /\ x <> p.
Proof.
  intros Hnd. destruct (decide (p ∈ l)) as [Hp|Hp].
  - destruct (elem_of_split_nodup l p Hp Hnd) as (la & lb & -> & Ha & Hb).
    rewrite unlink_app by done. set_solver.
  - assert (unlink p l = l) as ->.
    { clear Hnd. induction l as [|y l IH]; simpl; [done|].
      rewrite decide_False by set_solver. f_equal. apply IH. set_solver. }
    set_solver.
Qed.

(** The first and last node of the list that starts right after [Flist k]. *)
Lemma chain_next_start (segs : gmap segp seg) k fl lb :
  (forall p, p ∈ lb -> vs_start (segs !!! p) <> 0) ->
  (forall i, (k <= i < k + length fl)%nat -> segs !! Flist i = Some (head_seg i)) ->
  (0 < length fl)%nat ->
  vs_start (segs !!! default Seg0 (head (lb ++ chain_from k fl))) = 0 <-> lb = [].
Proof.
  intros Hs Hh Hl. destruct lb as [|x lb]; simpl.
  - split; [done|intros _]. destruct fl as [|l fl]; [simpl in Hl; lia|]. simpl.
    by rewrite (lookup_total_correct segs _ _ (Hh k ltac:(simpl; lia))).
  - split; [|done]. intros E. exfalso. apply (Hs x); [by left|done].
Qed.

(** Taking a segment off its freelist. *)
Lemma free_rep_delete segs flist fm F fl p s :
  free_rep segs flist fm F fl -> F !! p = Some s ->
  let kn := segs !!! default Seg0 (lnext p flist) in
  let kp := segs !!! default Seg0 (lprev p flist) in
  free_rep segs (unlink p flist)
    (if (vs_start kn =? 0) && (vs_start kp =? 0) then Z.lxor fm (VS_SIZE kp) else fm)
    (delete p F) (alter (unlink p) (fclass s) fl).
Proof.
  intros Hr Hp kn kp. pose proof Hr as [Hlen Hch Hls Hin Hcls Hmap Hw Hh Hsts].
  pose proof (Hcls _ _ Hp) as Hc.
  destruct (free_rep_seg _ _ _ _ _ _ _ Hr Hp) as (_ & l & Hl & Hpl).
  destruct (fl_split fl _ l Hl) as (f1 & f2 & Efl & Hf1 & Ech & Ealt).
  rewrite Efl in Hls. destruct (lists_ok_split _ _ _ _ Hls Hpl) as ([a Ea] & Hn1 & Hn2 & Hnl).
  destruct (elem_of_split_nodup l p Hpl Hnl) as (la & lb & El & Hna & Hnb).
  assert (Hf2 : (0 < length f2)%nat).
  { rewrite Efl, length_app in Hlen. simpl in Hlen. unfold nlists in Hlen. lia. }
  assert (Hhl : forall i l', fl !! i = Some l' -> forall x, x ∈ l' -> vs_start (segs !!! x) <> 0).
  { intros i l' Hi x Hx. apply (Hin _ _ x Hi) in Hx as (sx & Hx & _).
    destruct (Hsts _ _ Hx) as (sx' & Hx' & ?). by rewrite (lookup_total_correct segs _ _ Hx'). }
  assert (Eflist : flist = (chain_from 0 f1 ++ Flist (fclass s) :: la) ++ p ::
                           (lb ++ chain_from (S (fclass s)) f2)).
  { rewrite Hch, Ech, El. simplify_list_eq. done. }
  assert (Hpre : p ∉ chain_from 0 f1 ++ Flist (fclass s) :: la) by (subst p; set_solver).
  assert (Hkn : vs_start kn = 0 <-> lb = []).
  { unfold kn. rewrite Eflist, lnext_app by done. apply chain_next_start; [| |done].
    - intros x Hx. apply (Hhl _ _ Hl). rewrite El. set_solver.
    - intros i Hi. apply Hh. rewrite Efl, length_app in Hlen. simpl in Hlen. unfold nlists in *. lia. }
  assert (Hheads : segs !! Flist (fclass s) = Some (head_seg (fclass s)))
    by (apply Hh; unfold nlists; lia).
  assert (Hkp : (la = [] -> kp = head_seg (fclass s)) /\ (la <> [] -> vs_start kp <> 0)).
  { unfold kp. rewrite Eflist, lprev_app by done. split.
    - intros ->. rewrite last_snoc. simpl. by apply lookup_total_correct.
    - intros Hne. destruct la as [|x la _] using rev_ind; [done|].
      rewrite app_comm_cons, app_assoc, last_snoc. simpl. apply (Hhl _ _ Hl). rewrite El. set_solver. }
  assert (Hfl' : unlink p l = la ++ lb) by (rewrite El; by apply unlink_app).
  assert (Hfm : exists b : bool, b = bool_decide (la ++ lb = []) /\
    (if (vs_start kn =? 0) && (vs_start kp =? 0) then Z.lxor fm (VS_SIZE kp) else fm) =
    if b then Z.lxor fm (2 ^ Z.of_nat (fclass s)) else fm).
  { exists (bool_decide (la ++ lb = [])). split; [done|].
    destruct la as [|x la].
    - destruct Hkp as [-> _]; [|done]. rewrite head_size by done.
      unfold head_seg at 1; simpl. rewrite andb_true_r.
      destruct lb; simpl.
      + rewrite (proj2 Hkn eq_refl). done.
      + destruct (Z.eqb_spec (vs_start kn) 0) as [E|]; [|done]. by apply Hkn in E.
    - destruct (Z.eqb_spec (vs_start kp) 0) as [E|]; [by destruct Hkp as [_ []]|].
      by rewrite andb_false_r. }
  destruct Hfm as (b & Hb & ->).
  split.
  - by rewrite length_alter.
  - rewrite Eflist, unlink_app by done. rewrite Ealt, chain_from_app. simpl.
    rewrite Hf1, Hfl'. simplify_list_eq. done.
  - rewrite Ealt, Hfl'. rewrite El in Hls. destruct Hls as [Hnd Hs].
    unfold lists_ok. rewrite concat_app in *. simpl in *. split.
    + revert Hnd. rewrite <- !app_assoc. simpl.
      rewrite app_assoc, <- Permutation_middle. intros [_ Hnd]%NoDup_cons.
      by rewrite <- !app_assoc in Hnd.
    + intros x Hx. apply Hs. set_solver.
  - intros i l' x. rewrite list_lookup_alter. case_decide as E.
    + subst i. rewrite Hl. simpl. intros [= <-]. rewrite unlink_subset by done.
      rewrite (Hin _ _ x Hl), lookup_delete. case_decide; naive_solver.
    + intros Hi. rewrite (Hin _ _ x Hi), lookup_delete. case_decide; naive_solver.
  - intros x s'. rewrite lookup_delete. case_decide; [done|apply Hcls].
  - intros i l'. rewrite list_lookup_alter. case_decide as E.
    + subst i. rewrite Hl. simpl. intros [= <-]. rewrite Hfl', Hb.
      assert (Hbit : Z.testbit fm (Z.of_nat (fclass s)) = true).
      { rewrite (Hmap _ _ Hl), El. by destruct la. }
      case_bool_decide; [|done]. by rewrite lxor_pow2_bits, Hbit, bool_decide_eq_true_2.
    + intros Hi. destruct b; [|by apply Hmap].
      rewrite lxor_pow2_bits, (bool_decide_eq_false_2 (fclass s = i)) by done.
      rewrite xorb_false_r. by apply Hmap.
  - destruct b; [|done]. apply lxor_word; [done|]. by apply pow2_word.
  - done.
  - intros x s'. rewrite lookup_delete. case_decide; [done|apply Hsts].
Qed.

(** ** The hash table represents a map of allocated segments *)

Record hash_rep (idx : Z -> nat) (hash : list (list segp)) (H : gmap segp seg) : Prop := {
  hr_len : forall a, (idx a < length hash)%nat;
  hr_in : forall h b p, hash !! h = Some b ->
    p ∈ b <-> exists s, H !! p = Some s /\ idx (vs_start s) = h;
  hr_nodup : forall h b, hash !! h = Some b -> NoDup b
}.

Lemma hash_rep_bucket idx hash H a :
  hash_rep idx hash H -> hash !! idx a = Some (hash !!! idx a).
Proof. intros Hr. apply list_lookup_lookup_total_lt, Hr. Qed.

Lemma hash_rep_insert idx hash H p s :
  hash_rep idx hash H -> H !! p = None ->
  hash_rep idx (<[idx (vs_start s) := p :: hash !!! idx (vs_start s)]> hash) (<[p := s]> H).
Proof.
  intros Hr Hp. pose proof (hash_rep_bucket _ _ _ (vs_start s) Hr) as Hb.
  destruct Hr as [Hlen Hin Hnd]. split.
  - intros a. rewrite length_insert. apply Hlen.
  - intros h b x. rewrite list_lookup_insert. case_decide as E.
    + destruct E as [<- _]. intros [= <-]. rewrite elem_of_cons, (Hin _ _ x Hb), lookup_insert.
      case_decide; subst; [|naive_solver]. rewrite Hp. naive_solver.
    + intros Hh. rewrite (Hin _ _ x Hh), lookup_insert. case_decide as Ex; [|done]. subst x.
      rewrite Hp. split; [naive_solver|]. intros (s' & [= <-] & <-). exfalso.
      apply E. split; [done|]. apply Hlen.
  - intros h b. rewrite list_lookup_insert. case_decide as E; [|apply Hnd].
    intros [= <-]. constructor; [|by eapply Hnd]. rewrite (Hin _ _ p Hb). naive_solver.
Qed.

Lemma hash_scan_spec vm addr b r n b' :
  hash_scan vm addr b = (r, n, b') ->
  match r with
  | Some p => exists b1 b2, b = b1 ++ p :: b2 /\ b' = b1 ++ b2 /\ vs_start (sg vm p) = addr /\
      n = Z.of_nat (length b1) /\ (forall x, x ∈ b1 -> vs_start (sg vm x) <> addr)
  | None => b' = b /\ n = Z.of_nat (length b) /\ forall x, x ∈ b -> vs_start (sg vm x) <> addr
  end.
Proof.
  revert r n b'. induction b as [|x b IH]; intros r n b'; simpl.
  { intros [= <- <- <-]. split_and!; [done|done|]. intros ? []%elem_of_nil. }
  destruct (Z.eqb_spec (vs_start (sg vm x)) addr) as [E|E].
  { intros [= <- <- <-]. exists [], b. split_and!; try done. intros ? []%elem_of_nil. }
  destruct (hash_scan vm addr b) as [[r0 n0] b0] eqn:Eb. intros [= <- <- <-].
  specialize (IH _ _ _ eq_refl). destruct r0 as [p|].
  - destruct IH as (b1 & b2 & -> & -> & Hp & -> & Hb1). exists (x :: b1), b2.
    split_and!; [done|done|done|simpl; lia|]. intros y [->|Hy]%elem_of_cons; eauto.
  - destruct IH as (-> & -> & Hb). split_and!; [done|simpl; lia|].
    intros y [->|Hy]%elem_of_cons; eauto.
Qed.

Lemma hash_rep_delete idx hash H p s b1 b2 :
  hash_rep idx hash H -> H !! p = Some s ->
  hash !! idx (vs_start s) = Some (b1 ++ p :: b2) ->
  hash_rep idx (<[idx (vs_start s) := b1 ++ b2]> hash) (delete p H).
Proof.
  intros [Hlen Hin Hnd] Hp Hb. pose proof (Hnd _ _ Hb) as Hn.
  apply NoDup_app in Hn as (Hn1 & H12 & Hn2). apply NoDup_cons in Hn2 as [Hn2 Hn3]. split.
  - intros a. rewrite length_insert. apply Hlen.
  - intros h b x. rewrite list_lookup_insert. case_decide as E.
    + destruct E as [<- _]. intros [= <-].
      assert (Hx : x ∈ b1 ++ b2 <-> x ∈ b1 ++ p :: b2 /\ x <> p) by set_solver.
      rewrite Hx, (Hin _ _ x Hb), lookup_delete. case_decide; naive_solver.
    + intros Hh. rewrite (Hin _ _ x Hh), lookup_delete. case_decide as Ex; [|done]. subst x.
      split; [|naive_solver]. intros (s' & ? & <-). simplify_eq. exfalso. apply E.
      split; [done|]. apply Hlen.
  - intros h b. rewrite list_lookup_insert. case_decide as E; [|apply Hnd]. intros [= <-].
    apply NoDup_app. split_and!; [done| |done]. set_solver.
Qed.
