(* ===== verification/VmemRep.v ===== *)
(** * The arena representation and its primitive steps

    [rep] ties the fields of an arena to an abstract view: the list [A] of its
    segments in arena order, the maps [F] of segments on the freelists and [H]
    of segments in the hash table, the span list, the number of spare segment
    structures, the published heap bounds and the two size counters.  Each
    primitive of vmem.c changes the view in one obvious way; the operations of
    the arena are verified by composing these steps. *)
From S2P Require Import Prelude Machine SpanTable VmemArena VmemTile VmemLists.

Abbreviation view := (list (segp * seg)).

Record rep (vm : vmem) (c : vmem_cfg) (A : view) (F H : gmap segp seg)
    (sp : list segp) (n : nat) (hp : option heap_pub) (u t : Z) : Prop := {
  rp_cfg : vm_cfg vm = c;
  rp_alist : vm_alist vm = Seg0 :: A.*1;
  rp_nodup : NoDup (Seg0 :: A.*1);
  rp_noheads : forall i, Flist i ∉ A.*1;
  rp_segs : forall p s, (p, s) ∈ A -> vm_segs vm !! p = Some s;
  rp_seg0 : vm_segs vm !! Seg0 = Some (Sg 0 0 VMEM_SPAN false);
  rp_free : free_ok (vm_segs vm) (vm_flist vm) (vm_freemap vm) F;
  rp_freeA : forall p s, F !! p = Some s -> (p, s) ∈ A;
  rp_hash : hash_rep (hash_index vm) (vm_hash vm) H;
  rp_hashA : forall p s, H !! p = Some s -> (p, s) ∈ A;
  rp_spans : vm_spans vm = sp;
  rp_pool : NoDup (vm_segfree vm) /\ forall p, p ∈ vm_segfree vm -> exists a, p = Seg a /\ (p ∉ A.*1);
  rp_n : length (vm_segfree vm) = n /\ vm_nsegfree vm = Z.of_nat n;
  rp_pub : vm_heap_pub vm = hp;
  rp_inuse : vm_kstat vm vk_mem_inuse = w64 u;
  rp_total : vm_kstat vm vk_mem_total = w64 t
}.

(** ** The view under update *)

Lemma fmap_mid (A1 A2 : view) p s : (A1 ++ (p, s) :: A2).*1 = A1.*1 ++ p :: A2.*1.
Proof. by rewrite fmap_app. Qed.

Lemma view_elem_mid (A1 A2 : view) p s s' p' t :
  NoDup ((A1 ++ (p, s) :: A2).*1) -> p' <> p ->
  (p', t) ∈ A1 ++ (p, s) :: A2 <-> (p', t) ∈ A1 ++ (p, s') :: A2.
Proof. intros _ Hne. set_solver. Qed.

Lemma view_functional (A : view) p s s' :
  NoDup (A.*1) -> (p, s) ∈ A -> (p, s') ∈ A -> s = s'.
Proof.
  intros Hnd H1 H2. induction A as [|[q t] A IH]; simpl in *; [by apply elem_of_nil in H1|].
  apply NoDup_cons in Hnd as [Hq Hnd].
  assert (forall x, (q, x) ∈ A -> False).
  { intros x Hx. apply Hq. apply list_elem_of_fmap. by exists (q, x). }
  set_solver.
Qed.

Lemma view_in_fst (A : view) p s : (p, s) ∈ A -> p ∈ A.*1.
Proof. intros H. apply list_elem_of_fmap. by exists (p, s). Qed.

Lemma view_split (A : view) p s : (p, s) ∈ A -> exists A1 A2, A = A1 ++ (p, s) :: A2.
Proof. apply list_elem_of_split. Qed.

Lemma rep_sg vm c A F H sp n hp u t p s :
  rep vm c A F H sp n hp u t -> (p, s) ∈ A -> sg vm p = s.
Proof. intros Hr Hin. apply lookup_total_correct. by eapply rp_segs. Qed.

Lemma rep_nodup vm c A F H sp n hp u t : rep vm c A F H sp n hp u t -> NoDup (A.*1).
Proof. intros Hr. by pose proof (rp_nodup _ _ _ _ _ _ _ _ _ _ Hr) as [_ ?]%NoDup_cons. Qed.

Lemma mid_nodup (A1 A2 : view) p s :
  NoDup (Seg0 :: (A1 ++ (p, s) :: A2).*1) ->
  (p ∉ Seg0 :: A1.*1) /\ (p ∉ A2.*1) /\ p <> Seg0.
Proof.
  rewrite fmap_mid. change (Seg0 :: ?l ++ ?m) with ((Seg0 :: l) ++ m).
  intros (_ & H1 & H2)%NoDup_app. apply NoDup_cons in H2 as [H2 _].
  assert (Hp : p ∉ Seg0 :: A1.*1) by (intros Hp; apply (H1 p Hp); by left).
  split_and!; [done|done|]. set_solver.
Qed.

Lemma rep_aprev vm c A1 A2 F H sp n hp u t p s :
  rep vm c (A1 ++ (p, s) :: A2) F H sp n hp u t ->
  Some (vs_aprev vm p) = last (Seg0 :: A1.*1).
Proof.
  intros Hr. unfold vs_aprev, cprev. rewrite (rp_alist _ _ _ _ _ _ _ _ _ _ Hr), fmap_mid.
  destruct (mid_nodup _ _ _ _ (rp_nodup _ _ _ _ _ _ _ _ _ _ Hr)) as (Hp & _ & _).
  change (Seg0 :: ?l ++ ?m) with ((Seg0 :: l) ++ m). rewrite lprev_app by done.
  destruct (last (Seg0 :: A1.*1)) eqn:E; [done|]. by apply last_None in E.
Qed.

Lemma rep_anext vm c A1 A2 F H sp n hp u t p s :
  rep vm c (A1 ++ (p, s) :: A2) F H sp n hp u t ->
  vs_anext vm p = default Seg0 (head A2.*1).
Proof.
  intros Hr. unfold vs_anext, cnext. rewrite (rp_alist _ _ _ _ _ _ _ _ _ _ Hr), fmap_mid.
  destruct (mid_nodup _ _ _ _ (rp_nodup _ _ _ _ _ _ _ _ _ _ Hr)) as (Hp & _ & _).
  change (Seg0 :: ?l ++ ?m) with ((Seg0 :: l) ++ m). by rewrite lnext_app.
Qed.

(** ** Primitive steps *)

(** Changing a segment that is on no freelist and in no bucket. *)
Lemma rep_upd_seg vm c A1 A2 F H sp n hp u t p s f :
  rep vm c (A1 ++ (p, s) :: A2) F H sp n hp u t -> F !! p = None -> H !! p = None ->
  rep (upd_seg p f vm) c (A1 ++ (p, f s) :: A2) F H sp n hp u t.
Proof.
  intros Hr HF HH. pose proof Hr as [].
  destruct (mid_nodup _ _ _ _ rp_nodup0) as (Hp1 & Hp2 & Hp0).
  assert (Esg : sg vm p = s) by (eapply rep_sg; [done|set_solver]).
  assert (Hph : forall i, p <> Flist i).
  { intros i ->. apply (rp_noheads0 i). rewrite fmap_mid. set_solver. }
  assert (Hother : forall p' s', p' <> p ->
    (p', s') ∈ A1 ++ (p, s) :: A2 -> (p', s') ∈ A1 ++ (p, f s) :: A2) by set_solver.
  unfold upd_seg. rewrite Esg. split; simpl; try done.
  - by rewrite rp_alist0, !fmap_mid.
  - revert rp_nodup0. by rewrite !fmap_mid.
  - intros i. rewrite fmap_mid. specialize (rp_noheads0 i). by rewrite fmap_mid in rp_noheads0.
  - intros p' s' Hin. destruct (decide (p' = p)) as [->|Hne].
    + rewrite lookup_insert_eq. f_equal. symmetry.
      eapply (view_functional (A1 ++ (p, f s) :: A2)); [|done|set_solver].
      apply NoDup_cons in rp_nodup0 as [_ Hnd]. by rewrite !fmap_mid in *.
    + rewrite lookup_insert_ne by done. apply rp_segs0. set_solver.
  - by rewrite lookup_insert_ne.
  - destruct rp_free0 as [fl Hfl]. exists fl. eapply free_rep_upd; [done| | |done].
    + intros i. by rewrite lookup_insert_ne.
    + intros p' s' Hp'. rewrite lookup_insert_ne by congruence.
      by apply (fr_starts _ _ _ _ _ Hfl _ s').
  - intros p' s' Hp'. apply Hother; [congruence|eauto].
  - intros p' s' Hp'. apply Hother; [congruence|eauto].
  - destruct rp_pool0 as [Hnd Hpool]. split; [done|]. intros x Hx.
    destruct (Hpool x Hx) as (a & -> & Hn). exists a. split; [done|]. by rewrite fmap_mid in *.
Qed.

(** Moving the bounds of a free segment within its size class. *)
Lemma rep_upd_free vm c A1 A2 F H sp n hp u t p s f :
  rep vm c (A1 ++ (p, s) :: A2) F H sp n hp u t -> F !! p = Some s -> H !! p = None ->
  fclass (f s) = fclass s -> vs_start (f s) <> 0 ->
  rep (upd_seg p f vm) c (A1 ++ (p, f s) :: A2) (<[p := f s]> F) H sp n hp u t.
Proof.
  intros Hr HF HH Hcl Hst. pose proof Hr as [].
  destruct (mid_nodup _ _ _ _ rp_nodup0) as (Hp1 & Hp2 & Hp0).
  assert (Esg : sg vm p = s) by (eapply rep_sg; [done|set_solver]).
  assert (Hph : forall i, p <> Flist i).
  { intros i ->. apply (rp_noheads0 i). rewrite fmap_mid. set_solver. }
  unfold upd_seg. rewrite Esg. split; simpl; try done.
  - by rewrite rp_alist0, !fmap_mid.
  - revert rp_nodup0. by rewrite !fmap_mid.
  - intros i. rewrite fmap_mid. specialize (rp_noheads0 i). by rewrite fmap_mid in rp_noheads0.
  - intros p' s' Hin. destruct (decide (p' = p)) as [->|Hne].
    + rewrite lookup_insert_eq. f_equal. symmetry.
      eapply (view_functional (A1 ++ (p, f s) :: A2)); [|done|set_solver].
      apply NoDup_cons in rp_nodup0 as [_ Hnd]. by rewrite !fmap_mid in *.
    + rewrite lookup_insert_ne by done. apply rp_segs0. set_solver.
  - by rewrite lookup_insert_ne.
  - destruct rp_free0 as [fl Hfl]. exists fl. eapply free_rep_upd; [done| | |].
    + intros i. by rewrite lookup_insert_ne.
    + intros p' s'. rewrite !lookup_insert. case_decide; [naive_solver|].
      intros Hp'. by apply (fr_starts _ _ _ _ _ Hfl _ s').
    + intros p' i. rewrite lookup_insert. case_decide; subst; naive_solver.
  - intros p' s'. rewrite lookup_insert. case_decide; [set_solver|].
    intros Hp'. apply rp_freeA0 in Hp'. set_solver.
  - intros p' s' Hp'. assert (p' <> p) by congruence. apply rp_hashA0 in Hp'. set_solver.
  - destruct rp_pool0 as [Hnd Hpool]. split; [done|]. intros x Hx.
    destruct (Hpool x Hx) as (a & -> & Hn). exists a. split; [done|]. by rewrite fmap_mid in *.
Qed.

(** A new segment structure linked in after [vprev]. *)
Lemma rep_seg_create vm c A1 A2 F H sp n hp u t vprev st en :
  rep vm c (A1 ++ A2) F H sp (S n) hp u t -> last (Seg0 :: A1.*1) = Some vprev ->
  exists a vm', vmem_seg_create vprev st en vm = Ok (Seg a, vm') /\
    rep vm' c (A1 ++ (Seg a, Sg st en 0 false) :: A2) F H sp n hp u t /\
    (Seg a ∉ (A1 ++ A2).*1) /\ F !! Seg a = None /\ H !! Seg a = None /\
    (forall p, (p ∈ (A1 ++ A2).*1) -> sg vm' p = sg vm p).
Proof.
  intros Hr Hv. pose proof Hr as []. destruct rp_n0 as [Hn Hns]. destruct rp_pool0 as [Hnd Hpool].
  destruct (vm_segfree vm) as [|x pool] eqn:Epool; [done|].
  destruct (Hpool x ltac:(by left)) as (a & -> & Hna).
  apply NoDup_cons in Hnd as [Hxp Hnd].
  assert (HF : F !! Seg a = None).
  { destruct (F !! Seg a) eqn:E; [|done]. apply rp_freeA0, view_in_fst in E. done. }
  assert (HH : H !! Seg a = None).
  { destruct (H !! Seg a) eqn:E; [|done]. apply rp_hashA0, view_in_fst in E. done. }
  exists a. eexists. unfold vmem_seg_create, vmem_getseg. rewrite Epool. simpl.
  split; [reflexivity|]. split; [|split_and!; [done|done|done|]].
  2:{ intros p Hp. unfold sg. simpl. rewrite lookup_total_insert_ne; [done|].
      intros <-. by apply Hna. }
  assert (Hlist : insert_after vprev (Seg a) (vm_alist vm) =
                  Seg0 :: (A1 ++ (Seg a, Sg st en 0 false) :: A2).*1).
  { rewrite rp_alist0, fmap_mid, fmap_app.
    pose proof Hv as [l0 Hl0]%last_Some.
    change (Seg0 :: ?l ++ ?m) with ((Seg0 :: l) ++ m). rewrite Hl0, <- !app_assoc. simpl.
    apply insert_after_app. revert rp_nodup0. rewrite fmap_app.
    change (Seg0 :: ?l ++ ?m) with ((Seg0 :: l) ++ m). rewrite Hl0, <- app_assoc. simpl.
    intros (_ & Hd & _)%NoDup_app Hin. apply (Hd _ Hin). by left. }
  split; simpl; try done.
  - rewrite fmap_mid. apply NoDup_cons in rp_nodup0 as [H0 H1]. rewrite fmap_app in *.
    constructor; [set_solver|]. rewrite <- Permutation_middle. by constructor.
  - intros i. rewrite fmap_mid. specialize (rp_noheads0 i). rewrite fmap_app in *. set_solver.
  - intros p s Hin. destruct (decide (p = Seg a)) as [->|Hne].
    + rewrite lookup_insert_eq. f_equal.
      assert (Hin' : (Seg a, s) ∈ A1 ++ A2 \/ s = Sg st en 0 false) by set_solver.
      destruct Hin' as [Hin'%view_in_fst| ->]; done.
    + rewrite lookup_insert_ne by done. apply rp_segs0. set_solver.
  - by rewrite lookup_insert_ne.
  - destruct rp_free0 as [fl Hfl]. exists fl. eapply free_rep_upd; [done| | |done].
    + intros i. by rewrite lookup_insert_ne.
    + intros p' s' Hp'. rewrite lookup_insert_ne by congruence.
      by apply (fr_starts _ _ _ _ _ Hfl _ s').
  - intros p s Hp. apply rp_freeA0 in Hp. set_solver.
  - intros p s Hp. apply rp_hashA0 in Hp. set_solver.
  - split; [done|]. intros y Hy. destruct (Hpool y) as (b & -> & Hb); [by right|].
    exists b. split; [done|]. rewrite fmap_mid. rewrite fmap_app in Hb.
    assert (Seg b <> Seg a) by (intros E; rewrite E in Hy; done). set_solver.
  - simpl in Hn. split; lia.
Qed.

Lemma seg_size_class s :
  0 < vs_start s -> vs_start s < vs_end s -> vs_end s < 2 ^ 64 ->
  VS_SIZE s = vs_end s - vs_start s /\ (fclass s < 64)%nat /\
  Z.of_nat (fclass s) = Z.log2 (vs_end s - vs_start s).
Proof.
  intros H1 H2 H3. assert (E : VS_SIZE s = vs_end s - vs_start s).
  { unfold VS_SIZE, wsub. apply w64_small. unfold is_word. lia. }
  split; [done|]. unfold fclass. rewrite E, highbit_spec by lia.
  pose proof (Z.log2_nonneg (vs_end s - vs_start s)).
  assert (Z.log2 (vs_end s - vs_start s) < 64) by (apply Z.log2_lt_pow2; lia).
  split; lia.
Qed.

Lemma rep_freelist_insert vm c A1 A2 F H sp n hp u t a s :
  rep vm c (A1 ++ (Seg a, s) :: A2) F H sp n hp u t -> F !! Seg a = None -> H !! Seg a = None ->
  0 < vs_start s -> vs_start s < vs_end s -> vs_end s < 2 ^ 64 ->
  rep (vmem_freelist_insert (Seg a) vm) c (A1 ++ (Seg a, with_type VMEM_FREE s) :: A2)
    (<[Seg a := with_type VMEM_FREE s]> F) H sp n hp u t.
Proof.
  intros Hr HF HH Hs1 Hs2 Hs3.
  assert (Esg : sg vm (Seg a) = s) by (eapply rep_sg; [done|set_solver]).
  destruct (seg_size_class s Hs1 Hs2 Hs3) as (_ & Hc & _).
  pose proof (rep_upd_seg _ _ _ _ _ _ _ _ _ _ _ _ _ (with_type VMEM_FREE) Hr HF HH) as Hr'.
  unfold vmem_freelist_insert. rewrite Esg.
  set (vm1 := upd_seg (Seg a) (with_type VMEM_FREE) vm) in *.
  fold (fclass s). change (fclass s) with (fclass (with_type VMEM_FREE s)).
  pose proof Hr' as []. destruct rp_free0 as [fl Hfl].
  assert (Ehd : sg vm1 (Flist (fclass (with_type VMEM_FREE s))) = head_seg (fclass (with_type VMEM_FREE s))).
  { apply lookup_total_correct, (fr_heads _ _ _ _ _ Hfl). unfold nlists.
    change (fclass (with_type VMEM_FREE s)) with (fclass s). lia. }
  rewrite Ehd. split; simpl; try done.
  - eexists. apply free_rep_insert; [done|done|done| |].
    + apply rp_segs0. set_solver.
    + simpl. lia.
  - intros p s'. rewrite lookup_insert. case_decide; [set_solver|]. eauto.
Qed.

Lemma rep_freelist_delete vm c A F H sp n hp u t p s :
  rep vm c A F H sp n hp u t -> F !! p = Some s ->
  rep (vmem_freelist_delete p vm) c A (delete p F) H sp n hp u t.
Proof.
  intros Hr HF. pose proof Hr as []. destruct rp_free0 as [fl Hfl].
  pose proof (free_rep_delete _ _ _ _ _ _ _ Hfl HF) as Hd. simpl in Hd.
  fold (sg vm (default Seg0 (lnext p (vm_flist vm)))) in Hd.
  fold (sg vm (default Seg0 (lprev p (vm_flist vm)))) in Hd.
  unfold vmem_freelist_delete.
  destruct ((vs_start (sg vm (default Seg0 (lnext p (vm_flist vm)))) =? 0) &&
            (vs_start (sg vm (default Seg0 (lprev p (vm_flist vm)))) =? 0));
    split; simpl; try done; try (by eexists); intros p' s'; rewrite lookup_delete;
    case_decide; naive_solver.
Qed.

Lemma kadd_same k ctr x y : k ctr = w64 x -> kadd ctr y k ctr = w64 (x + y).
Proof.
  intros E. unfold kadd. rewrite decide_True, E by done. unfold w64. apply Zplus_mod_idemp_l.
Qed.

Lemma kadd_other k ctr ctr' x : ctr' <> ctr -> kadd ctr x k ctr' = k ctr'.
Proof. intros H. unfold kadd. by rewrite decide_False. Qed.

Lemma rep_hash_insert vm c A1 A2 F H sp n hp u t p s :
  rep vm c (A1 ++ (p, s) :: A2) F H sp n hp u t -> F !! p = None -> H !! p = None ->
  rep (vmem_hash_insert p vm) c (A1 ++ (p, with_type VMEM_ALLOC s) :: A2) F
    (<[p := with_type VMEM_ALLOC s]> H) sp n hp (u + VS_SIZE s) t.
Proof.
  intros Hr HF HH.
  pose proof (rep_upd_seg _ _ _ _ _ _ _ _ _ _ _ _ _ (with_type VMEM_ALLOC) Hr HF HH) as Hr'.
  unfold vmem_hash_insert. set (vm1 := upd_seg p (with_type VMEM_ALLOC) vm) in *.
  assert (Esg : sg vm1 p = with_type VMEM_ALLOC s) by (eapply rep_sg; [done|set_solver]).
  pose proof Hr' as []. split; simpl; try done.
  - change (hash_index _) with (hash_index vm1). rewrite Esg. by apply hash_rep_insert.
  - intros p' s'. rewrite lookup_insert. case_decide; [set_solver|]. eauto.
  - change (sg (set_hash _ vm1) p) with (sg vm1 p). rewrite Esg.
    apply (kadd_same _ _ u). by rewrite kadd_other.
Qed.

Lemma rep_seg_destroy vm c A1 A2 F H sp n hp u t a s :
  rep vm c (A1 ++ (Seg a, s) :: A2) F H sp n hp u t -> F !! Seg a = None -> H !! Seg a = None ->
  rep (vmem_seg_destroy (Seg a) vm) c (A1 ++ A2) F H sp (S n) hp u t.
Proof.
  intros Hr HF HH. pose proof Hr as [].
  destruct (mid_nodup _ _ _ _ rp_nodup0) as (Hp1 & Hp2 & Hp0).
  split; simpl; try done.
  - rewrite rp_alist0, fmap_mid, fmap_app.
    change (Seg0 :: ?l ++ ?m) with ((Seg0 :: l) ++ m). by apply unlink_app.
  - revert rp_nodup0. rewrite fmap_mid, fmap_app.
    change (Seg0 :: ?l ++ ?m) with ((Seg0 :: l) ++ m). rewrite <- Permutation_middle.
    by intros [_ ?]%NoDup_cons.
  - intros i. specialize (rp_noheads0 i). rewrite fmap_mid in rp_noheads0.
    rewrite fmap_app. set_solver.
  - intros p s' Hin. apply rp_segs0. set_solver.
  - intros p s' Hp. assert (p <> Seg a) by congruence. apply rp_freeA0 in Hp. set_solver.
  - intros p s' Hp. assert (p <> Seg a) by congruence. apply rp_hashA0 in Hp. set_solver.
  - destruct rp_pool0 as [Hnd Hpool]. split.
    + constructor; [|done]. intros Hin. destruct (Hpool _ Hin) as (? & _ & Hn).
      rewrite fmap_mid in Hn. set_solver.
    + intros p [->|Hp]%elem_of_cons.
      * exists a. split; [done|]. rewrite fmap_app. set_solver.
      * destruct (Hpool _ Hp) as (b & -> & Hn). exists b. split; [done|].
        rewrite fmap_mid in Hn. rewrite fmap_app. set_solver.
  - destruct rp_n0. split; lia.
Qed.

(** Looking an address up in the hash table: found, wrong size, absent. *)
Lemma rep_hash_delete vm c A F H sp n hp u t p s :
  rep vm c A F H sp n hp u t -> H !! p = Some s ->
  (forall p' s', H !! p' = Some s' -> vs_start s' = vs_start s -> p' = p) ->
  exists vm', (forall p', sg vm' p' = sg vm p') /\
    rep vm' c A F (delete p H) sp n hp (u - VS_SIZE s) t /\
    forall size, vmem_hash_delete (vs_start s) size vm =
      if VS_SIZE s =? size then Ok (p, vm') else Panic "vmem_hash_delete: wrong size".
Proof.
  intros Hr HH Huniq. pose proof Hr as [].
  assert (Hsg : forall x sx, H !! x = Some sx -> sg vm x = sx)
    by (intros x sx Hx; eapply rep_sg; eauto).
  pose proof (hash_rep_bucket _ _ _ (vs_start s) rp_hash0) as Hb.
  destruct (hash_scan vm (vs_start s) (vm_hash vm !!! hash_index vm (vs_start s)))
    as [[r k] b'] eqn:Escan.
  pose proof (hash_scan_spec _ _ _ _ _ _ Escan) as Hscan.
  assert (Hpb : p ∈ vm_hash vm !!! hash_index vm (vs_start s))
    by (apply (hr_in _ _ _ rp_hash0 _ _ p Hb); eauto).
  destruct r as [p'|].
  2:{ destruct Hscan as (_ & _ & Hno). destruct (Hno p Hpb). by rewrite (Hsg _ _ HH). }
  destruct Hscan as (b1 & b2 & Eb & -> & Est & _ & _).
  assert (Hp' : p' ∈ vm_hash vm !!! hash_index vm (vs_start s)) by (rewrite Eb; set_solver).
  apply (hr_in _ _ _ rp_hash0 _ _ p' Hb) in Hp' as (s' & Hs' & _).
  assert (p' = p) as -> by (apply (Huniq _ _ Hs'); by rewrite <- (Hsg _ _ Hs')).
  set (vm1 := kcount vk_lookup k
    (set_hash (<[hash_index vm (vs_start s) := b1 ++ b2]> (vm_hash vm)) vm)).
  exists (kcount vk_mem_inuse (- VS_SIZE s) (kcount vk_free 1 vm1)). split_and!.
  - done.
  - split; simpl; try done.
    + change (hash_index _) with (hash_index vm). apply hash_rep_delete; [done|done|].
      by rewrite Hb, Eb.
    + intros x sx. rewrite lookup_delete. case_decide; [done|eauto].
    + apply kadd_same. by rewrite !kadd_other.
  - intros size. unfold vmem_hash_delete. rewrite Escan. fold vm1.
    change (sg vm1 p) with (sg vm p). rewrite (Hsg _ _ HH).
    destruct (Z.eqb_spec (VS_SIZE s) size) as [->|]; done.
Qed.

Lemma rep_hash_absent vm c A F H sp n hp u t addr size :
  rep vm c A F H sp n hp u t ->
  (forall p s, H !! p = Some s -> vs_start s <> addr) ->
  vmem_hash_delete addr size vm = Panic "vmem_hash_delete: bad free".
Proof.
  intros Hr Hno. pose proof Hr as [].
  pose proof (hash_rep_bucket _ _ _ addr rp_hash0) as Hb.
  unfold vmem_hash_delete.
  destruct (hash_scan vm addr (vm_hash vm !!! hash_index vm addr)) as [[r k] b'] eqn:Escan.
  pose proof (hash_scan_spec _ _ _ _ _ _ Escan) as Hscan. destruct r as [p|]; [|done].
  destruct Hscan as (b1 & b2 & Eb & _ & Est & _).
  assert (Hp : p ∈ vm_hash vm !!! hash_index vm addr) by (rewrite Eb; set_solver).
  apply (hr_in _ _ _ rp_hash0 _ _ p Hb) in Hp as (s & Hs & _).
  destruct (Hno _ _ Hs). rewrite <- Est. symmetry. f_equal. eapply rep_sg; eauto.
Qed.
