(* ===== verification/VmemWf.v ===== *)
(** * Well-formed arenas

    [arena vm A n]: the arena's segments are [A] in arena order, tiling its
    spans with no two free neighbours; the freelists hold exactly the free
    segments and the hash table exactly the allocated ones; the spans are
    pairwise disjoint, the size counters are the totals and the published
    table of the heap is the set of its spans; [n] spare segment structures
    remain. *)
From S2P Require Import Prelude Machine SpanTable VmemArena VmemTile VmemLists VmemRep.

Definition typed (t : Z) (ps : segp * seg) : bool := vs_type ps.2 =? t.

Definition sum_type (t : Z) (A : view) : Z :=
  foldr (fun ps acc => (if typed t ps then VS_SIZE ps.2 else 0) + acc) 0 A.

Definition spans_of (A : view) : list segp := (filter (fun ps => vs_type ps.2 = VMEM_SPAN) A).*1.

(** The type a structure can have at each kind of address. *)
Definition kind_ok (p : segp) (s : seg) : Prop :=
  match p with
  | Seg _ => vs_type s = VMEM_ALLOC \/ vs_type s = VMEM_FREE \/ vs_type s = VMEM_SPAN
  | Rotor => vs_type s = VMEM_ROTOR
  | Walker => vs_type s = VMEM_WALKER
  | Seg0 | Flist _ => False
  end.

Definition spans_disjoint (A : view) : Prop :=
  forall p s p' s', (p, s) ∈ A -> (p', s') ∈ A -> p <> p' ->
    vs_type s = VMEM_SPAN -> vs_type s' = VMEM_SPAN ->
    vs_end s <= vs_start s' \/ vs_end s' <= vs_start s.

(** The spans as the abstract set the published table implements. *)
Definition span_set (A : view) : gset (Z * Z) :=
  list_to_set ((fun ps => (vs_start ps.2, vs_end ps.2)) <$>
               filter (fun ps => vs_type ps.2 = VMEM_SPAN) A).

Definition pub_ok (hp : option heap_pub) (A : view) : Prop :=
  match hp with
  | None => True
  | Some h => span_refines (vmem_heap_tab h) (span_set A)
  end.

Definition quantum_ok (c : vmem_cfg) : Prop :=
  0 <= vm_qshift c < 64 /\ vm_quantum c = 2 ^ vm_qshift c.

(** [F] holds exactly the segments of [A] with type [t]. *)
Definition holds (t : Z) (F : gmap segp seg) (A : view) : Prop :=
  forall p s, F !! p = Some s <-> (p, s) ∈ A /\ vs_type s = t.

Definition tiled (c : vmem_cfg) (A : view) : Prop := tclosed (vm_quantum c) None A.*2.

Record arena (vm : vmem) (A : view) (n : nat) : Prop := {
  ar_rep : exists F H hp,
    rep vm (vm_cfg vm) A F H (Seg0 :: spans_of A) n hp (sum_type VMEM_ALLOC A) (sum_type VMEM_SPAN A) /\
    holds VMEM_FREE F A /\ holds VMEM_ALLOC H A /\ pub_ok hp A;
  ar_quantum : quantum_ok (vm_cfg vm);
  ar_tile : tiled (vm_cfg vm) A;
  ar_kind : forall p s, (p, s) ∈ A -> kind_ok p s;
  ar_disjoint : spans_disjoint A
}.

Lemma quantum_pos c : quantum_ok c -> 0 < vm_quantum c.
Proof. intros [H ->]. lia. Qed.

(** ** Generic facts on the view *)

Lemma sum_type_app t A1 A2 : sum_type t (A1 ++ A2) = sum_type t A1 + sum_type t A2.
Proof. induction A1 as [|x A1 IH]; simpl; [lia|]. unfold sum_type in *. lia. Qed.

Lemma sum_type_cons t p s A :
  sum_type t ((p, s) :: A) = (if vs_type s =? t then VS_SIZE s else 0) + sum_type t A.
Proof. reflexivity. Qed.

Lemma spans_of_app A1 A2 : spans_of (A1 ++ A2) = spans_of A1 ++ spans_of A2.
Proof. unfold spans_of. by rewrite list.filter_app, fmap_app. Qed.

Lemma spans_of_cons p s A :
  spans_of ((p, s) :: A) = if decide (vs_type s = VMEM_SPAN) then p :: spans_of A else spans_of A.
Proof. unfold spans_of. rewrite list.filter_cons. simpl. by case_decide. Qed.

Lemma elem_of_span_set A b e :
  (b, e) ∈ span_set A <->
  exists p s, (p, s) ∈ A /\ vs_type s = VMEM_SPAN /\ vs_start s = b /\ vs_end s = e.
Proof.
  unfold span_set. rewrite elem_of_list_to_set, list_elem_of_fmap. split.
  - intros ([p s] & [= -> ->] & Hin). apply list_elem_of_filter in Hin as [? ?]. naive_solver.
  - intros (p & s & ? & ? & <- & <-). exists (p, s). split; [done|].
    by apply list_elem_of_filter.
Qed.

Lemma span_set_ext A A' :
  (forall p s, vs_type s = VMEM_SPAN -> (p, s) ∈ A <-> (p, s) ∈ A') -> span_set A = span_set A'.
Proof.
  intros H. apply set_eq. intros [b e]. rewrite !elem_of_span_set.
  split; intros (p & s & Hin & Ht & ?); exists p, s; naive_solver.
Qed.

Lemma pub_ok_ext hp A A' : span_set A = span_set A' -> pub_ok hp A -> pub_ok hp A'.
Proof. intros E. unfold pub_ok. destruct hp; [by rewrite E|done]. Qed.

Lemma elem_of_snd p s (A : view) : (p, s) ∈ A -> s ∈ A.*2.
Proof. intros H. apply list_elem_of_fmap. by exists (p, s). Qed.

(** Bounds and alignment of a segment of a well-formed arena. *)
Lemma arena_seg vm A n p s :
  arena vm A n -> (p, s) ∈ A ->
  vs_type s = VMEM_ALLOC \/ vs_type s = VMEM_FREE \/ vs_type s = VMEM_SPAN ->
  0 < vs_start s /\ vs_start s < vs_end s /\ vs_end s < 2 ^ 64 /\
  (vm_quantum (vm_cfg vm) | vs_start s) /\
  (vs_type s <> VMEM_ALLOC -> (vm_quantum (vm_cfg vm) | vs_end s)) /\
  roundup (vs_end s) (vm_quantum (vm_cfg vm)) < 2 ^ 64.
Proof.
  intros Ha Hin Ht. destruct (ar_tile _ _ _ Ha) as (st & Hrun & _).
  eapply (trun_elem _ (quantum_pos _ (ar_quantum _ _ _ Ha)) None); eauto using elem_of_snd. done.
Qed.

(** ** [holds] under changes of the view; only the members matter *)

#[global] Instance holds_perm t F : Proper ((≡ₚ) ==> iff) (holds t F).
Proof. intros A A' E. unfold holds. by setoid_rewrite E. Qed.

Lemma holds_cons_same t F p s A :
  holds t F A -> p ∉ A.*1 -> vs_type s = t -> holds t (<[p := s]> F) ((p, s) :: A).
Proof.
  unfold holds.
  intros Hh Hp Ht p' s'. rewrite lookup_insert, elem_of_cons. case_decide as E; subst.
  - split; [intros [= <-]; auto|]. intros [[[=]|Hin] _]; [by subst|].
    by apply view_in_fst in Hin.
  - rewrite Hh. naive_solver.
Qed.

Lemma holds_cons_other t F p s A :
  holds t F A -> vs_type s <> t -> holds t F ((p, s) :: A).
Proof.
  unfold holds. intros Hh Ht p' s'. rewrite Hh, elem_of_cons. naive_solver. Qed.

Lemma holds_uncons t F p s A :
  holds t F ((p, s) :: A) -> p ∉ A.*1 -> holds t (delete p F) A.
Proof.
  unfold holds.
  intros Hh Hp p' s'. rewrite lookup_delete. case_decide as E; subst.
  - split; [done|]. intros [Hin _]. by apply view_in_fst in Hin.
  - rewrite Hh, elem_of_cons. naive_solver.
Qed.

Lemma holds_uncons_other t F p s A :
  holds t F ((p, s) :: A) -> p ∉ A.*1 -> vs_type s <> t -> holds t F A.
Proof.
  unfold holds.
  intros Hh Hp Ht p' s'. rewrite Hh, elem_of_cons. split; [|naive_solver].
  intros [[[=]|Hin] Ht']; naive_solver.
Qed.

Lemma holds_app_other t F L A :
  holds t F A -> (forall p s, (p, s) ∈ L -> vs_type s <> t) -> holds t F (L ++ A).
Proof.
  intros Hh. induction L as [|[p s] L IH]; intros HL; [done|].
  apply holds_cons_other; [apply IH; set_solver|]. apply (HL p). set_solver.
Qed.

Lemma holds_none t F A p s :
  holds t F A -> NoDup (A.*1) -> (p, s) ∈ A -> vs_type s <> t -> F !! p = None.
Proof.
  intros Hh Hnd Hin Ht. destruct (F !! p) as [s'|] eqn:E; [|done].
  apply Hh in E as [E Et]. destruct Ht. by rewrite (view_functional _ _ _ _ Hnd Hin E).
Qed.

(** The same at a position inside the view. *)
Lemma holds_mid t F p s s' A1 A2 :
  holds t F (A1 ++ (p, s) :: A2) -> NoDup ((A1 ++ (p, s) :: A2).*1) -> vs_type s' = t ->
  holds t (<[p := s']> (delete p F)) (A1 ++ (p, s') :: A2).
Proof.
  rewrite <- !Permutation_middle. simpl. intros Hh [Hp _]%NoDup_cons Ht.
  apply holds_cons_same; [|done|done]. by eapply holds_uncons.
Qed.

Lemma holds_mid_other t F p s s' A1 A2 :
  holds t F (A1 ++ (p, s) :: A2) -> NoDup ((A1 ++ (p, s) :: A2).*1) ->
  vs_type s <> t -> vs_type s' <> t -> holds t F (A1 ++ (p, s') :: A2).
Proof.
  rewrite <- !Permutation_middle. simpl. intros Hh [Hp _]%NoDup_cons Ht Ht'.
  apply holds_cons_other; [|done]. by eapply holds_uncons_other.
Qed.

(** ** Replacing a run of segments that contains no span *)

Definition no_spans (M : view) : Prop := spans_of M = [].

Lemma no_spans_elem M p s : no_spans M -> (p, s) ∈ M -> vs_type s <> VMEM_SPAN.
Proof.
  intros Hn Hin Ht. assert (p ∈ spans_of M).
  { unfold spans_of. apply list_elem_of_fmap. exists (p, s). split; [done|].
    by apply list_elem_of_filter. }
  unfold no_spans in Hn. rewrite Hn in *. by apply elem_of_nil in H.
Qed.

Lemma no_spans_sum M : no_spans M -> sum_type VMEM_SPAN M = 0.
Proof.
  unfold no_spans. induction M as [|[p s] M IH]; [done|]. rewrite spans_of_cons, sum_type_cons.
  case_decide as E; [done|]. intros H. destruct (Z.eqb_spec (vs_type s) VMEM_SPAN); [done|].
  rewrite IH by done. lia.
Qed.

Lemma replace_spans (M M' A1 A2 : view) p s :
  no_spans M -> no_spans M' -> vs_type s = VMEM_SPAN ->
  (p, s) ∈ A1 ++ M ++ A2 <-> (p, s) ∈ A1 ++ M' ++ A2.
Proof.
  intros HM HM' Ht. pose proof (no_spans_elem M p s HM). pose proof (no_spans_elem M' p s HM').
  set_solver.
Qed.

Lemma arena_replace vm vm' A1 M M' A2 n n' F' H' hp u' :
  arena vm (A1 ++ M ++ A2) n ->
  pub_ok hp (A1 ++ M ++ A2) ->
  rep vm' (vm_cfg vm) (A1 ++ M' ++ A2) F' H' (Seg0 :: spans_of (A1 ++ M ++ A2)) n' hp u'
    (sum_type VMEM_SPAN (A1 ++ M ++ A2)) ->
  holds VMEM_FREE F' (A1 ++ M' ++ A2) -> holds VMEM_ALLOC H' (A1 ++ M' ++ A2) ->
  no_spans M -> no_spans M' ->
  u' = sum_type VMEM_ALLOC (A1 ++ M ++ A2) - sum_type VMEM_ALLOC M + sum_type VMEM_ALLOC M' ->
  (forall p s, (p, s) ∈ M' -> kind_ok p s) ->
  (forall st, tst_ok (vm_quantum (vm_cfg vm)) st -> trun (vm_quantum (vm_cfg vm)) None A1.*2 st ->
     tclosed (vm_quantum (vm_cfg vm)) st (M ++ A2).*2 ->
     tclosed (vm_quantum (vm_cfg vm)) st (M' ++ A2).*2) ->
  arena vm' (A1 ++ M' ++ A2) n'.
Proof.
  intros [Har Hq Ht Hk Hd] Hpub Hr HF HH HM HM' -> Hk' Htile.
  pose proof (rp_cfg _ _ _ _ _ _ _ _ _ _ Hr) as Ec.
  assert (Hsp : spans_of (A1 ++ M' ++ A2) = spans_of (A1 ++ M ++ A2)).
  { rewrite !spans_of_app. by rewrite HM, HM'. }
  split; rewrite ?Ec.
  - exists F', H', hp. rewrite Hsp.
    replace (sum_type VMEM_SPAN (A1 ++ M' ++ A2)) with (sum_type VMEM_SPAN (A1 ++ M ++ A2)).
    2:{ rewrite !sum_type_app, (no_spans_sum M), (no_spans_sum M') by done. done. }
    replace (sum_type VMEM_ALLOC (A1 ++ M' ++ A2)) with
      (sum_type VMEM_ALLOC (A1 ++ M ++ A2) - sum_type VMEM_ALLOC M + sum_type VMEM_ALLOC M')
      by (rewrite !sum_type_app; lia).
    split_and!; [done..|]. eapply pub_ok_ext; [|exact Hpub]. apply span_set_ext.
    intros p s Hs. by apply replace_spans.
  - done.
  - unfold tiled in *. rewrite fmap_app in Ht |- *. apply tclosed_app in Ht as (st & Hr1 & Hc).
    apply tclosed_app. exists st. split; [done|]. apply Htile; [|done|done].
    by eapply (trun_ok _ (quantum_pos _ Hq) None).
  - intros p s Hin. rewrite !elem_of_app in Hin.
    destruct Hin as [?|[?|?]]; [apply Hk; set_solver|by apply Hk'|apply Hk; set_solver].
  - intros p s p' s' H1 H2 Hne Hs1 Hs2.
    by eapply (Hd p s p' s'); [apply (replace_spans M M')|apply (replace_spans M M')|..].
Qed.
