(* ===== verification/VmemCarve.v ===== *)
(** * Carving an allocation out of a free segment

    [vmem_seg_alloc] keeps an arena well formed: the free segment becomes the
    allocated piece with at most one free remainder on either side. *)
From S2P Require Import Prelude Machine SpanTable VmemArena VmemTile VmemLists VmemRep VmemWf.

(** ** Rounding a shifted address *)

Lemma roundup_shift q a x : 0 < q -> (q | a) -> roundup (a + x) q = a + roundup x q.
Proof.
  intros Hq [c ->]. unfold roundup.
  replace (- (c * q + x)) with (- x + (- c) * q) by lia. rewrite Z.div_add by lia. lia.
Qed.

Lemma roundup_mono q x y : 0 < q -> x <= y -> roundup x q <= roundup y q.
Proof.
  intros Hq H. apply roundup_least; [done|apply roundup_spec; done|].
  pose proof (roundup_spec y q Hq). lia.
Qed.

(** ** Tiling *)

Lemma tile_free_inv q st s e imp l :
  0 < q -> tst_ok q st -> tclosed q st (Sg s e VMEM_FREE imp :: l) ->
  exists B E, st = Some (B, s, E, false) /\ 0 < s /\ s < e /\ e <= E /\ E < 2 ^ 64 /\
    (q | s) /\ (q | e) /\ tclosed q (Some (B, e, E, true)) l.
Proof.
  intros Hq Hok. rewrite tclosed_cons. intros (m & Hs & Hc). inversion Hs; subst; simpl in *.
  - exists B, E. split_and!; tauto || lia.
  - exfalso. unfold VMEM_FREE, VMEM_ROTOR, VMEM_WALKER in *. lia.
Qed.

Lemma tile_alloc_inv q st s e imp l :
  0 < q -> tst_ok q st -> tclosed q st (Sg s e VMEM_ALLOC imp :: l) ->
  exists B E f, st = Some (B, s, E, f) /\ 0 < s /\ s < e /\ roundup e q <= E /\ E < 2 ^ 64 /\
    (q | s) /\ tclosed q (Some (B, roundup e q, E, false)) l.
Proof.
  intros Hq Hok. rewrite tclosed_cons. intros (m & Hs & Hc). inversion Hs; subst; simpl in *.
  - exists B, E, f. split_and!; tauto || lia.
  - exfalso. unfold VMEM_ALLOC, VMEM_ROTOR, VMEM_WALKER in *. lia.
Qed.

(** The remainder on one side: nothing, or one free segment. *)
Inductive remainder (b e : Z) : view -> Prop :=
| rem_none : b = e -> remainder b e []
| rem_one a imp : b < e -> remainder b e [(Seg a, Sg b e VMEM_FREE imp)].

Lemma remainder_free b e L p s : remainder b e L -> (p, s) ∈ L -> vs_type s = VMEM_FREE.
Proof. intros [] Hin; [by apply elem_of_nil in Hin|]. by apply list_elem_of_singleton in Hin as [= _ ->]. Qed.

Lemma remainder_other b e L t p s :
  remainder b e L -> t <> VMEM_FREE -> (p, s) ∈ L -> vs_type s <> t.
Proof. intros HL Ht Hin E. apply Ht. rewrite <- E. by eapply remainder_free. Qed.

Lemma tile_carve q st s e imp addr ae size imp' L R l :
  0 < q -> tst_ok q st -> tclosed q st (Sg s e VMEM_FREE imp :: l) ->
  s <= addr -> (q | addr) -> 0 < size -> ae = roundup (addr + size) q -> ae <= e ->
  remainder s addr L -> remainder ae e R ->
  tclosed q st (L.*2 ++ Sg addr (addr + size) VMEM_ALLOC imp' :: R.*2 ++ l).
Proof.
  intros Hq Hok Hc Hs Hqa Hsz -> Hae HL HR.
  destruct (tile_free_inv _ _ _ _ _ _ Hq Hok Hc) as (B & E & -> & H0 & H1 & H2 & H3 & Hqs & Hqe & Hl).
  pose proof (roundup_spec (addr + size) q Hq).
  assert (Hl' : tclosed q (Some (B, roundup (addr + size) q, E, false)) (R.*2 ++ l)).
  { destruct HR as [<-|x imp2 Hlt]; simpl.
    - by apply tclosed_flag.
    - apply tclosed_cons. eexists. split; [by apply ts_free|done]. }
  destruct HL as [->|x imp2 Hlt]; simpl.
  - apply tclosed_cons. eexists. split; [apply ts_alloc; lia|done].
  - apply tclosed_cons. eexists. split; [apply ts_free; lia || done|].
    apply tclosed_cons. eexists. split; [apply ts_alloc; lia|done].
Qed.

(** ** The steps of [vmem_seg_alloc] *)

Lemma rep_add_free vm c A1 A2 F H sp n hp u t vprev st en :
  rep vm c (A1 ++ A2) F H sp (S n) hp u t -> last (Seg0 :: A1.*1) = Some vprev ->
  0 < st -> st < en -> en < 2 ^ 64 ->
  exists a vm', (do (q, vm) <- vmem_seg_create vprev st en vm;
                 Ok (vmem_freelist_insert q vm)) = Ok vm' /\
    rep vm' c (A1 ++ (Seg a, Sg st en VMEM_FREE false) :: A2)
      (<[Seg a := Sg st en VMEM_FREE false]> F) H sp n hp u t /\
    (Seg a ∉ (A1 ++ A2).*1).
Proof.
  intros Hr Hv H1 H2 H3.
  destruct (rep_seg_create _ _ _ _ _ _ _ _ _ _ _ _ st en Hr Hv) as (a & vm1 & E & Hr1 & Ha & HF & HH & _).
  rewrite E. simpl. eexists a, _. split; [done|]. split; [|done].
  by apply (rep_freelist_insert _ _ _ _ _ _ _ _ _ _ _ a (Sg st en 0 false)).
Qed.

Lemma view_last_cons (A1 : view) p s : last (Seg0 :: (A1 ++ [(p, s)]).*1) = Some p.
Proof. rewrite fmap_app, app_comm_cons, last_app. done. Qed.

(** The leftover on one side goes to the freelist, if there is one. *)
Lemma rep_side vm c B1 B2 F H sp n hp u t vprev b e none :
  rep vm c (B1 ++ B2) F H sp n hp u t -> last (Seg0 :: B1.*1) = Some vprev ->
  none = (b =? e) -> 0 < b -> b <= e -> e < 2 ^ 64 -> (b < e -> (1 <= n)%nat) ->
  exists vm' L F',
    (if none : bool then Ok vm
     else do (q, vm) <- vmem_seg_create vprev b e vm; Ok (vmem_freelist_insert q vm)) = Ok vm' /\
    remainder b e L /\ rep vm' c (B1 ++ L ++ B2) F' H sp (n - length L) hp u t /\
    (forall x, x ∈ (B1 ++ B2).*1 -> F' !! x = F !! x) /\
    (forall B, holds VMEM_FREE F B -> B.*1 ⊆ (B1 ++ B2).*1 -> holds VMEM_FREE F' (L ++ B)).
Proof.
  intros Hr Hv -> Hb Hbe He Hn. destruct (Z.eqb_spec b e) as [->|Hne].
  - exists vm, [], F. rewrite Nat.sub_0_r. split_and!; try done. by constructor.
  - destruct n as [|m]; [lia|].
    destruct (rep_add_free _ _ _ _ _ _ _ _ _ _ _ _ b e Hr Hv Hb ltac:(lia) He) as (a & vm' & E & Hr' & Ha).
    exists vm', [(Seg a, Sg b e VMEM_FREE false)]. eexists. split_and!.
    + exact E.
    + constructor. lia.
    + simpl. rewrite Nat.sub_0_r. exact Hr'.
    + intros x Hx. apply lookup_insert_ne. intros <-. done.
    + intros B HB Hsub. simpl. apply holds_cons_same; [done| |done]. intros Hin. by apply Ha, Hsub.
Qed.

(** What carving [addr, addr + size) out of the free segment [s] between [A1]
    and [A2] does to the arena: [r] is the allocated segment. *)
Definition carve_need (s : seg) (addr ae : Z) : nat :=
  (if decide (vs_start s = addr) then 0 else 1) + (if decide (ae = vs_end s) then 0 else 1).

Definition carved (vm : vmem) (A1 : view) (s : seg) (A2 : view) (n : nat)
    (addr size : Z) (r : segp) (vm' : vmem) : Prop :=
  exists L R imp,
    arena vm' (A1 ++ (L ++ (r, Sg addr (addr + size) VMEM_ALLOC imp) :: R) ++ A2)
      (n - (length L + length R)) /\
    vm_cfg vm' = vm_cfg vm /\ vm_heap_pub vm' = vm_heap_pub vm /\
    remainder (vs_start s) addr L /\
    remainder (roundup (addr + size) (vm_quantum (vm_cfg vm))) (vs_end s) R.

Lemma remainder_no_spans b e L : remainder b e L -> no_spans L.
Proof. intros []; [done|]. unfold no_spans. by rewrite spans_of_cons. Qed.

Lemma carve_no_spans b e b' e' L R p s :
  remainder b e L -> remainder b' e' R -> vs_type s <> VMEM_SPAN -> no_spans (L ++ (p, s) :: R).
Proof.
  intros HL%remainder_no_spans HR%remainder_no_spans Hs. unfold no_spans in *.
  rewrite spans_of_app, spans_of_cons, HL, HR. by case_decide.
Qed.

Lemma carve_sum t b e b' e' L R p s :
  t <> VMEM_FREE -> remainder b e L -> remainder b' e' R ->
  sum_type t (L ++ (p, s) :: R) = if vs_type s =? t then VS_SIZE s else 0.
Proof.
  intros Ht HL HR. rewrite sum_type_app, sum_type_cons.
  assert (Hz : forall b e L, remainder b e L -> sum_type t L = 0).
  { intros ? ? ? []; [done|]. rewrite sum_type_cons. cbn [vs_type].
    by rewrite (proj2 (Z.eqb_neq VMEM_FREE t)) by congruence. }
  rewrite (Hz _ _ _ HL), (Hz _ _ _ HR). lia.
Qed.

Lemma carve_kind b e b' e' L R a s p t :
  remainder b e L -> remainder b' e' R -> vs_type s = VMEM_ALLOC ->
  (p, t) ∈ L ++ (Seg a, s) :: R -> kind_ok p t.
Proof.
  intros HL HR Hs. rewrite elem_of_app, elem_of_cons. intros [Hin|[[= -> ->]|Hin]].
  - destruct HL; [by apply elem_of_nil in Hin|].
    apply list_elem_of_singleton in Hin as [= -> ->]. simpl. auto.
  - simpl. auto.
  - destruct HR; [by apply elem_of_nil in Hin|].
    apply list_elem_of_singleton in Hin as [= -> ->]. simpl. auto.
Qed.

Section seg_alloc.
Context (vm : vmem) (A1 A2 : view) (n : nat) (x : Z) (s : seg) (addr size : Z).
#[local] Abbreviation q := (vm_quantum (vm_cfg vm)).
#[local] Abbreviation ae := (roundup (addr + size) q).
#[local] Abbreviation p := (Seg x).
Hypothesis (Har : arena vm (A1 ++ (p, s) :: A2) n) (Hfree : vs_type s = VMEM_FREE).
Hypothesis (Hlo : vs_start s <= addr) (Hqa : (q | addr)) (Hsz : 0 < size) (Hhi : ae <= vs_end s).

Lemma sa_bounds :
  0 < q /\ 0 < vs_start s /\ vs_start s < vs_end s /\ vs_end s < 2 ^ 64 /\
  (q | vs_start s) /\ (q | vs_end s) /\ addr < ae /\ addr + size <= ae /\ (q | ae).
Proof.
  destruct (arena_seg _ _ _ p s Har ltac:(set_solver) ltac:(auto)) as (H1 & H2 & H3 & H4 & H5 & _).
  pose proof (quantum_pos _ (ar_quantum _ _ _ Har)) as Hq.
  pose proof (roundup_spec (addr + size) q Hq).
  split_and!; try done; try lia; try tauto. apply H5. by rewrite Hfree.
Qed.

(** The words the code computes. *)
Lemma sa_words :
  wsub (vs_end s) (vs_start s) = vs_end s - vs_start s /\
  P2ROUNDUP size q = ae - addr /\ wadd addr (P2ROUNDUP size q) = ae /\
  wadd addr size = addr + size.
Proof.
  destruct sa_bounds as (Hq & H1 & H2 & H3 & H4 & H5 & H6 & H7 & H8).
  destruct (ar_quantum _ _ _ Har) as [Hsh Eq].
  assert (E : P2ROUNDUP size q = ae - addr).
  { rewrite Eq at 1. rewrite P2ROUNDUP_spec by lia. rewrite <- Eq.
    rewrite roundup_shift by done. replace (addr + roundup size q - addr) with (roundup size q) by lia.
    apply w64_small. unfold is_word in *. rewrite roundup_shift in * by done. lia. }
  rewrite E. split_and!; [apply wsub_small|done|rewrite wadd_small|apply wadd_small]; lia.
Qed.

Lemma divide_phase c t : quantum_ok c -> (vm_quantum c | t) -> (P2PHASE t (vm_quantum c) =? 0) = true.
Proof.
  intros [Hsh Eq] Hd. rewrite Eq, P2PHASE_spec, <- Eq by lia. apply Z.eqb_eq, Z.mod_divide; [lia|done].
Qed.

(** The assertions on the way in. *)
Lemma sa_asserts {X} (k : result X) :
  (do _ <- ASSERT (P2PHASE (vs_start s) q =? 0) "P2PHASE(vs_start, vm_quantum) == 0";
   do _ <- ASSERT (P2PHASE addr q =? 0) "P2PHASE(addr, vm_quantum) == 0";
   do _ <- ASSERT (vs_type s =? VMEM_FREE) "vs_type == VMEM_FREE";
   do _ <- ASSERT ((vs_start s <=? addr) && (wsub ae 1 <=? wsub (vs_end s) 1))
             "addr >= vs_start && addr_end - 1 <= vs_end - 1";
   do _ <- ASSERT (wsub addr 1 <=? wsub ae 1) "addr - 1 <= addr_end - 1"; k) = k.
Proof.
  destruct sa_bounds as (Hq & H1 & H2 & H3 & H4 & H5 & H6 & H7 & H8).
  rewrite !wsub_small by lia. rewrite Hfree, !divide_phase by (done || apply (ar_quantum _ _ _ Har)).
  rewrite !(proj2 (Z.leb_le _ _)) by lia. done.
Qed.

Lemma sa_fast_class :
  P2SAMEHIGHBIT (vs_end s - vs_start s) (vs_end s - vs_start s - (ae - addr)) = true ->
  addr = vs_start s ->
  ae < vs_end s /\ fclass (with_start ae s) = fclass s /\
  (highbit (vs_end s - vs_start s) =? highbit (vs_end s - vs_start s - (ae - addr))) = true.
Proof.
  destruct sa_bounds as (Hq & H1 & H2 & H3 & H4 & H5 & H6 & H7 & H8). intros Hb Ha.
  apply P2SAMEHIGHBIT_spec in Hb as [Hpos Hlog]; [|lia|lia]. split; [lia|].
  rewrite !highbit_spec, Hlog, Z.eqb_refl by lia. split; [|done].
  destruct (seg_size_class s) as (_ & _ & Es); [lia..|].
  destruct (seg_size_class (with_start ae s)) as (_ & _ & Ew); simpl in *; [lia..|].
  replace (vs_end s - vs_start s - (ae - addr)) with (vs_end s - ae) in Hlog by lia. lia.
Qed.

(** The two ways out of [vmem_seg_alloc] rebuild the arena the same way. *)
Lemma sa_build vm' L R r imp F H hp :
  pub_ok hp (A1 ++ (p, s) :: A2) -> vm_heap_pub vm = hp ->
  remainder (vs_start s) addr L -> remainder ae (vs_end s) R ->
  rep vm' (vm_cfg vm) (A1 ++ (L ++ (Seg r, Sg addr (addr + size) VMEM_ALLOC imp) :: R) ++ A2) F H
    (Seg0 :: spans_of (A1 ++ (p, s) :: A2)) (n - (length L + length R)) hp
    (sum_type VMEM_ALLOC (A1 ++ (p, s) :: A2) + size) (sum_type VMEM_SPAN (A1 ++ (p, s) :: A2)) ->
  holds VMEM_FREE F (A1 ++ (L ++ (Seg r, Sg addr (addr + size) VMEM_ALLOC imp) :: R) ++ A2) ->
  holds VMEM_ALLOC H (A1 ++ (L ++ (Seg r, Sg addr (addr + size) VMEM_ALLOC imp) :: R) ++ A2) ->
  carved vm A1 s A2 n addr size (Seg r) vm'.
Proof.
  intros Hpub Ehp HL HR Hr HF HH.
  destruct sa_bounds as (Hq & H1 & H2 & H3 & H4 & H5 & H6 & H7 & H8).
  exists L, R, imp. split_and!; [|apply (rp_cfg _ _ _ _ _ _ _ _ _ _ Hr)| |done|done].
  2:{ rewrite Ehp. apply (rp_pub _ _ _ _ _ _ _ _ _ _ Hr). }
  eapply (arena_replace vm vm' A1 [(p, s)] _ A2 n); [done|done|exact Hr|done|done| | | | |].
  - unfold no_spans. rewrite spans_of_cons. by rewrite decide_False by (by rewrite Hfree).
  - by eapply carve_no_spans.
  - rewrite sum_type_cons, Hfree, (carve_sum VMEM_ALLOC _ _ _ _ _ _ _ _ ltac:(done) HL HR).
    cbn [vs_type]. change (VMEM_FREE =? VMEM_ALLOC) with false. unfold VS_SIZE. cbn [vs_start vs_end].
    rewrite wsub_small by lia. change (VMEM_ALLOC =? VMEM_ALLOC) with true. unfold sum_type at 3. simpl. lia.
  - intros p' t. by eapply carve_kind.
  - intros st Hst _. rewrite !fmap_app. destruct s as [b e ty i]. simpl in *. subst ty.
    rewrite <- app_assoc. simpl. intros Hc. by eapply tile_carve.
Qed.

Lemma sa_fast :
  P2SAMEHIGHBIT (vs_end s - vs_start s) (vs_end s - vs_start s - (ae - addr)) = true ->
  addr = vs_start s -> (1 <= n)%nat ->
  exists r vm',
    (let vm1 := upd_seg p (with_start ae) vm in
     do (y, vm2) <- vmem_seg_create (vs_aprev vm1 p) addr (addr + size) vm1;
     Ok (y, vmem_hash_insert y vm2)) = Ok (Seg r, vm') /\
    carved vm A1 s A2 n addr size (Seg r) vm'.
Proof.
  intros Hb Ha Hn. destruct (sa_fast_class Hb Ha) as (Hlt & Hcl & _).
  destruct sa_bounds as (Hq & H1 & H2 & H3 & H4 & H5 & H6 & H7 & H8).
  destruct (ar_rep _ _ _ Har) as (F & H & hp & Hr & HF & HH & Hpub).
  pose proof (rep_nodup _ _ _ _ _ _ _ _ _ _ Hr) as Hnd.
  assert (HFp : F !! p = Some s) by (apply HF; set_solver).
  assert (HHp : H !! p = None).
  { apply (holds_none _ _ _ p s HH Hnd); [set_solver|by rewrite Hfree]. }
  replace n with (S (n - 1)) in Hr by lia.
  pose proof (rep_upd_free _ _ _ _ _ _ _ _ _ _ _ _ _ (with_start ae) Hr HFp HHp Hcl ltac:(simpl; lia)) as Hr1.
  pose proof (rep_aprev _ _ _ _ _ _ _ _ _ _ _ _ _ Hr1) as Hv.
  destruct (rep_seg_create _ _ _ _ _ _ _ _ _ _ _ _ addr (addr + size) Hr1 (eq_sym Hv))
    as (r & vm2 & E & Hr2 & Hra & HFr & HHr & _).
  pose proof (rep_hash_insert _ _ _ _ _ _ _ _ _ _ _ _ _ Hr2 HFr HHr) as Hr3.
  cbv zeta. rewrite E. simpl. eexists r, _. split; [done|].
  eapply (sa_build _ [] [(p, with_start ae s)] r false _ _ hp); [done|..].
  - apply (rp_pub _ _ _ _ _ _ _ _ _ _ Hr).
  - by constructor.
  - destruct s as [b e ty i]. simpl in *. subst ty. by constructor.
  - unfold VS_SIZE in Hr3. simpl in *. rewrite wsub_small in Hr3 by lia.
    replace (addr + size - addr) with size in Hr3 by lia. exact Hr3.
  - simpl. rewrite <- Permutation_middle. apply holds_cons_other; [|done].
    rewrite <- insert_delete_eq. by eapply holds_mid.
  - simpl. rewrite <- Permutation_middle. apply holds_cons_same; [|done|done].
    eapply holds_mid_other; [done|done|by rewrite Hfree|by simpl; rewrite Hfree].
Qed.

Lemma sa_slow :
  (carve_need s addr ae <= n)%nat ->
  exists vm',
    (let vm1 := vmem_freelist_delete p vm in
     do vm2 <- (if vs_end s =? ae then Ok vm1
                else do (y, vm2) <- vmem_seg_create p ae (vs_end s) vm1;
                     Ok (vmem_freelist_insert y vm2));
     do vm3 <- (if vs_start s =? addr then Ok vm2
                else do (y, vm3) <- vmem_seg_create (vs_aprev vm2 p) (vs_start s) addr vm2;
                     Ok (vmem_freelist_insert y vm3));
     let vm4 := upd_seg p (fun s => with_end (addr + size) (with_start addr s)) vm3 in
     Ok (p, vmem_hash_insert p vm4)) = Ok (p, vm') /\
    carved vm A1 s A2 n addr size p vm'.
Proof.
  intros Hn. destruct sa_bounds as (Hq & H1 & H2 & H3 & H4 & H5 & H6 & H7 & H8).
  destruct (ar_rep _ _ _ Har) as (F & H & hp & Hr & HF & HH & Hpub).
  pose proof (rep_nodup _ _ _ _ _ _ _ _ _ _ Hr) as Hnd.
  assert (HFp : F !! p = Some s) by (apply HF; set_solver).
  assert (HHp : H !! p = None).
  { apply (holds_none _ _ _ p s HH Hnd); [set_solver|by rewrite Hfree]. }
  pose proof (rep_freelist_delete _ _ _ _ _ _ _ _ _ _ _ _ Hr HFp) as Hr1. cbv zeta.
  assert (HF1 : holds VMEM_FREE (delete p F) (A1 ++ A2)).
  { rewrite <- Permutation_middle in HF, Hnd. apply NoDup_cons in Hnd as [Hp _].
    eapply holds_uncons; [exact HF|exact Hp]. }
  unfold carve_need in Hn.
  replace (A1 ++ (p, s) :: A2) with ((A1 ++ [(p, s)]) ++ A2) in Hr1 at 1 by (by rewrite <- app_assoc).
  destruct (rep_side _ _ _ _ _ _ _ _ _ _ _ p ae (vs_end s) (vs_end s =? ae) Hr1)
    as (vm2 & R & F2 & E2 & HR & Hr2 & HFo2 & HF2);
    [apply view_last_cons|apply Z.eqb_sym|lia|lia|lia|intros; repeat case_decide; lia|].
  rewrite E2. cbn [res_bind].
  rewrite <- app_assoc in Hr2. simpl in Hr2.
  pose proof (rep_aprev _ _ _ _ _ _ _ _ _ _ _ _ _ Hr2) as Hv.
  destruct (rep_side _ _ _ _ _ _ _ _ _ _ _ (vs_aprev vm2 p) (vs_start s) addr (vs_start s =? addr) Hr2)
    as (vm3 & L & F3 & E3 & HL & Hr3 & HFo3 & HF3);
    [done|done|lia|lia|lia| |].
  { intros. destruct HR; simpl; repeat case_decide; lia. }
  rewrite E3. cbn [res_bind]. eexists. split; [done|].
  rewrite app_assoc in Hr3.
  assert (HFp3 : F3 !! p = None).
  { rewrite HFo3, HFo2, lookup_delete_eq; [done|..]; rewrite !fmap_app; set_solver. }
  pose proof (rep_upd_seg _ _ _ _ _ _ _ _ _ _ _ _ _
    (fun s => with_end (addr + size) (with_start addr s)) Hr3 HFp3 HHp) as Hr4.
  pose proof (rep_hash_insert _ _ _ _ _ _ _ _ _ _ _ _ _ Hr4 HFp3 HHp) as Hr5.
  assert (Eview : A1 ++ (L ++ (p, Sg addr (addr + size) VMEM_ALLOC (vs_import s)) :: R) ++ A2 =
    (A1 ++ L) ++ (p, Sg addr (addr + size) VMEM_ALLOC (vs_import s)) :: R ++ A2)
    by (rewrite <- !app_assoc; done).
  eapply (sa_build _ L R x (vs_import s) F3 _ hp); [done|..].
  - apply (rp_pub _ _ _ _ _ _ _ _ _ _ Hr).
  - done.
  - done.
  - unfold VS_SIZE in Hr5. simpl in *. rewrite wsub_small in Hr5 by lia.
    replace (addr + size - addr) with size in Hr5 by lia.
    replace (n - (length L + length R))%nat with (n - length R - length L)%nat by lia.
    rewrite <- !app_assoc in *. exact Hr5.
  - rewrite Eview. rewrite <- Permutation_middle. apply holds_cons_other; [|done].
    rewrite <- app_assoc, Permutation_app_swap_app. apply HF3; [|rewrite !fmap_app; set_solver].
    rewrite Permutation_app_swap_app. apply HF2; [done|]. rewrite !fmap_app. set_solver.
  - pose proof (rep_nodup _ _ _ _ _ _ _ _ _ _ Hr5) as Hnd5. rewrite Eview.
    rewrite <- Permutation_middle in Hnd5 |- *. apply NoDup_cons in Hnd5 as [Hp _].
    apply holds_cons_same; [|exact Hp|done]. rewrite <- app_assoc, Permutation_app_swap_app.
    apply holds_app_other; [|intros ? ?; by eapply remainder_other].
    rewrite Permutation_app_swap_app. apply holds_app_other; [|intros ? ?; by eapply remainder_other].
    rewrite <- Permutation_middle in HH, Hnd. apply NoDup_cons in Hnd as [Hp0 _].
    eapply holds_uncons_other; [exact HH|exact Hp0|by rewrite Hfree].
Qed.

(** Allocating from a free segment carves the range out of it. *)
Lemma arena_seg_alloc :
  (carve_need s addr ae <= n)%nat ->
  exists r vm', vmem_seg_alloc p addr size vm = Ok (Seg r, vm') /\
    carved vm A1 s A2 n addr size (Seg r) vm'.
Proof.
  intros Hn. destruct (ar_rep _ _ _ Har) as (F & H & hp & Hr & _).
  assert (Esg : sg vm p = s) by (eapply rep_sg; [exact Hr|set_solver]).
  destruct sa_words as (E1 & E2 & E3 & E4).
  destruct sa_bounds as (Hq & H1 & H2 & H3 & H4 & H5 & H6 & H7 & H8).
  unfold vmem_seg_alloc. rewrite Esg, E1, E3, E4, E2, (wsub_small _ (ae - addr)) by lia.
  rewrite sa_asserts.
  destruct (P2SAMEHIGHBIT _ _ && (addr =? vs_start s)) eqn:E.
  - apply andb_true_iff in E as [Eb Ea%Z.eqb_eq].
    destruct (sa_fast_class Eb Ea) as (Hlt & _ & Ehb). rewrite Ehb. cbn [ASSERT res_bind].
    destruct (sa_fast Eb Ea) as (r & vm' & Er & Hc); [|by exists r, vm'].
    unfold carve_need in Hn. repeat case_decide; lia.
  - destruct (sa_slow Hn) as (vm' & Er & Hc). by exists x, vm'.
Qed.
End seg_alloc.
