(* ===== verification/VmemSpan.v ===== *)
(** * Adding and removing spans

    [vmem_span_create] adds a span, published for the heap, with one free
    segment covering it; [vmem_span_destroy] removes a span whose pieces have
    coalesced into one.  Both keep the arena well formed. *)
From S2P Require Import Prelude Machine SpanTable VmemArena VmemTile VmemLists VmemRep VmemWf VmemCarve.

#[local] Opaque vmem_span_table_insert vmem_span_table_remove.

(** ** Steps that touch only the span list, the counters or the published bounds *)

Lemma rep_set_pub vm c A F H sp n hp u t f :
  rep vm c A F H sp n hp u t ->
  rep (set_heap_pub (f <$> vm_heap_pub vm) vm) c A F H sp n (f <$> hp) u t.
Proof. intros []. split; simpl; try done. by f_equal. Qed.

Lemma rep_set_spans vm c A F H sp n hp u t sp' :
  rep vm c A F H sp n hp u t -> rep (set_spans sp' vm) c A F H sp' n hp u t.
Proof. by intros []. Qed.

Lemma rep_total vm c A F H sp n hp u t d :
  rep vm c A F H sp n hp u t -> rep (kcount vk_mem_total d vm) c A F H sp n hp u (t + d).
Proof. intros []. split; simpl; try done. by apply kadd_same. Qed.

Lemma rep_kcount vm c A F H sp n hp u t k d :
  rep vm c A F H sp n hp u t -> k <> vk_mem_inuse -> k <> vk_mem_total ->
  rep (kcount k d vm) c A F H sp n hp u t.
Proof. intros [] H1 H2. split; simpl; try done; by rewrite kadd_other. Qed.

(** ** Where a span goes *)

(** A place between two spans, or after the last. *)
Definition span_gap (B2 : view) (knext : segp) : Prop :=
  (B2 = [] /\ knext = Seg0) \/
  (exists s B2', B2 = (knext, s) :: B2' /\ vs_type s = VMEM_SPAN).

Lemma span_gap_elem (A : view) k :
  k = Seg0 \/ k ∈ spans_of A -> exists B1 B2, A = B1 ++ B2 /\ span_gap B2 k.
Proof.
  intros [->|Hk].
  - exists A, []. rewrite app_nil_r. split; [done|]. by left.
  - apply list_elem_of_fmap in Hk as ([p s] & -> & [Ht Hin]%list_elem_of_filter).
    apply view_split in Hin as (B1 & B2 & ->). eexists B1, _. split; [done|]. right. eauto.
Qed.

Lemma head_elem {X} (l : list X) x : head l = Some x -> x ∈ l.
Proof. destruct l; [done|]. intros [= ->]. by left. Qed.

Lemma lnext_elem {X} `{EqDecision X} (l : list X) p x : lnext p l = Some x -> x ∈ tail l.
Proof.
  destruct l as [|y l]; [done|]. simpl. revert y.
  induction l as [|z l IH]; intros y; simpl; [by case_decide|].
  case_decide; [intros [= ->]; by left|]. specialize (IH z). simpl in IH. set_solver.
Qed.

Lemma cnext_elem (l : list segp) p : cnext (Seg0 :: l) p = Seg0 \/ cnext (Seg0 :: l) p ∈ l.
Proof.
  unfold cnext. destruct (lnext p (Seg0 :: l)) eqn:E; [|by left]. right.
  by apply lnext_elem in E.
Qed.

Lemma spans_of_nodup (A : view) : NoDup (Seg0 :: A.*1) -> NoDup (Seg0 :: spans_of A).
Proof.
  intros [H0 Hnd]%NoDup_cons. constructor.
  - intros Hin. apply H0. apply list_elem_of_fmap in Hin as ([p s] & -> & [_ Hin]%list_elem_of_filter).
    by eapply view_in_fst.
  - unfold spans_of. clear H0. induction A as [|[p s] A IH]; [constructor|].
    apply NoDup_cons in Hnd as [Hp Hnd]. rewrite filter_cons. case_decide; [|auto].
    simpl. constructor; [|auto].
    intros Hin. apply Hp. apply list_elem_of_fmap in Hin as ([p' s'] & -> & [_ Hin]%list_elem_of_filter).
    by eapply view_in_fst.
Qed.

Lemma cprev_gap (l1 l2 : list segp) k :
  NoDup (Seg0 :: l1 ++ l2) -> (l2 = [] /\ k = Seg0) \/ head l2 = Some k ->
  Some (cprev (Seg0 :: l1 ++ l2) k) = last (Seg0 :: l1).
Proof.
  intros Hnd [[-> ->]|Hk].
  - rewrite app_nil_r. unfold cprev, lprev. cbn [lprev_from]. rewrite decide_True by done.
    destruct (last (Seg0 :: l1)) eqn:E; [done|]. by apply last_None in E.
  - destruct l2 as [|k' l2]; [done|]. injection Hk as ->. unfold cprev.
    rewrite app_comm_cons in *. apply NoDup_app in Hnd as (_ & Hd & _).
    rewrite lprev_app; [|intros Hin; by apply (Hd _ Hin); left].
    destruct (last (Seg0 :: l1)) eqn:E; [done|]. by apply last_None in E.
Qed.

Lemma insert_after_gap (l1 l2 : list segp) k a :
  NoDup (Seg0 :: l1 ++ l2) -> (l2 = [] /\ k = Seg0) \/ head l2 = Some k ->
  insert_after (cprev (Seg0 :: l1 ++ l2) k) a (Seg0 :: l1 ++ l2) = Seg0 :: l1 ++ a :: l2.
Proof.
  intros Hnd Hk. pose proof (cprev_gap _ _ _ Hnd Hk) as Hc.
  set (x := cprev (Seg0 :: l1 ++ l2) k) in *. clearbody x.
  symmetry in Hc. apply last_Some in Hc as [l Hl]. rewrite !app_comm_cons, Hl in *.
  rewrite <- !app_assoc in *. simpl in *. apply insert_after_app.
  apply NoDup_app in Hnd as (_ & Hd & _). intros Hin. apply (Hd _ Hin). by left.
Qed.

Lemma tile_gap q st B2 k st' :
  closed st -> closed st' -> span_gap B2 k -> tclosed q st B2.*2 -> tclosed q st' B2.*2.
Proof.
  intros Hst Hst' [[-> _]|(s & B2' & -> & Ht)]; simpl.
  - by rewrite !tclosed_nil.
  - rewrite !tclosed_cons. intros (m & Hs & Hc). exists m. split; [|done].
    inversion Hs; subst; simpl in *; try done; [by constructor|].
    exfalso. unfold VMEM_SPAN, VMEM_ROTOR, VMEM_WALKER in *. lia.
Qed.

Lemma tile_gap_closed q st B2 k : span_gap B2 k -> tclosed q st B2.*2 -> closed st.
Proof.
  intros [[-> _]|(s & B2' & -> & Ht)]; simpl; [by rewrite tclosed_nil|].
  rewrite tclosed_cons. intros (m & Hs & Hc). inversion Hs; subst; simpl in *; try done.
  exfalso. unfold VMEM_SPAN, VMEM_ROTOR, VMEM_WALKER in *. lia.
Qed.

(** ** Creating a span *)

Definition span_fresh (A : view) (b e : Z) : Prop :=
  forall p s, (p, s) ∈ A -> vs_type s = VMEM_SPAN -> vs_end s <= b \/ e <= vs_start s.

(** The new span and its only piece. *)
Definition span_pair (sp ns b e : Z) (import : bool) : view :=
  [(Seg sp, Sg b e VMEM_SPAN false); (Seg ns, Sg b e VMEM_FREE import)].

Lemma span_pair_elem B1 B2 sp ns b e import x :
  x ∈ B1 ++ span_pair sp ns b e import ++ B2 <->
  x ∈ B1 ++ B2 \/ x = (Seg sp, Sg b e VMEM_SPAN false) \/ x = (Seg ns, Sg b e VMEM_FREE import).
Proof. unfold span_pair. set_solver. Qed.

Lemma pub_ok_Some h A : pub_ok (Some h) A = span_refines (vmem_heap_tab h) (span_set A).
Proof. reflexivity. Qed.

Lemma fmap_Some_pub (f : heap_pub -> heap_pub) h : f <$> Some h = Some (f h).
Proof. reflexivity. Qed.

Lemma pub_ok_publish h B1 B2 sp ns b e import :
  pub_ok h (B1 ++ B2) -> b < e -> span_fresh (B1 ++ B2) b e ->
  pub_ok (heap_publish b e <$> h) (B1 ++ span_pair sp ns b e import ++ B2).
Proof.
  intros Hp Hbe Hf. destruct h as [h|]; [|done].
  rewrite pub_ok_Some in Hp. rewrite fmap_Some_pub, pub_ok_Some.
  change (vmem_heap_tab (heap_publish b e h)) with (span_exec (SpanCreate b e) (vmem_heap_tab h)).
  replace (span_set _) with (spec_exec (SpanCreate b e) (span_set (B1 ++ B2))).
  - apply (span_exec_refines (SpanCreate b e)); [done|]. split; [done|].
    intros b' e' (p & s & Hin & Ht & <- & <-)%elem_of_span_set. destruct (Hf p s Hin Ht); auto.
  - apply set_eq. intros [b' e']. simpl. rewrite elem_of_union, elem_of_singleton, !elem_of_span_set.
    unfold span_pair. split.
    + intros [[= -> ->]|(p & s & Hin & ?)]; [|exists p, s; set_solver].
      exists (Seg sp), (Sg b e VMEM_SPAN false). set_solver.
    + intros (p & s & Hin & Ht & <- & <-). 
      apply span_pair_elem in Hin as [Hin|[[= -> ->]|[= -> ->]]]; [|by left|done].
      right. by exists p, s.
Qed.

Lemma span_pair_sums sp ns b e import :
  0 <= b -> b <= e -> e < 2 ^ 64 ->
  sum_type VMEM_ALLOC (span_pair sp ns b e import) = 0 /\
  sum_type VMEM_SPAN (span_pair sp ns b e import) = e - b /\
  spans_of (span_pair sp ns b e import) = [Seg sp].
Proof.
  intros. unfold span_pair. rewrite !sum_type_cons, !spans_of_cons. cbn [vs_type].
  split_and!; [done| |done]. change (VMEM_SPAN =? VMEM_SPAN) with true.
  change (VMEM_FREE =? VMEM_SPAN) with false. unfold VS_SIZE. simpl. rewrite wsub_small by lia. lia.
Qed.

(** The arena with the new span, from its representation. *)
Lemma arena_add_span vm vm' B1 B2 k n n' sp ns b e import F F' H H' hp :
  arena vm (B1 ++ B2) n -> span_gap B2 k -> pub_ok hp (B1 ++ B2) ->
  holds VMEM_FREE F (B1 ++ B2) -> holds VMEM_ALLOC H (B1 ++ B2) ->
  F' = <[Seg ns := Sg b e VMEM_FREE import]> F -> H' = H ->
  0 < b -> b < e -> e < 2 ^ 64 ->
  (vm_quantum (vm_cfg vm) | b) -> (vm_quantum (vm_cfg vm) | e) -> span_fresh (B1 ++ B2) b e ->
  rep vm' (vm_cfg vm) (B1 ++ span_pair sp ns b e import ++ B2) F' H'
    (Seg0 :: spans_of B1 ++ Seg sp :: spans_of B2) n' (heap_publish b e <$> hp)
    (sum_type VMEM_ALLOC (B1 ++ B2)) (sum_type VMEM_SPAN (B1 ++ B2) + (e - b)) ->
  arena vm' (B1 ++ span_pair sp ns b e import ++ B2) n'.
Proof.
  intros [Har Hq Ht Hk Hd] Hg Hpub HF HH -> -> Hb Hbe He Hqb Hqe Hfr Hr.
  pose proof (rp_cfg _ _ _ _ _ _ _ _ _ _ Hr) as Ec.
  destruct (span_pair_sums sp ns b e import) as (Es1 & Es2 & Es3); [lia..|].
  pose proof (rep_nodup _ _ _ _ _ _ _ _ _ _ Hr) as Hnd.
  rewrite (Permutation_app_swap_app B1) in Hnd. apply NoDup_cons in Hnd as [Hsp [Hns _]%NoDup_cons].
  split; rewrite ?Ec; [| done | | |].
  - eexists _, _, _. rewrite !spans_of_app, !sum_type_app, Es1, Es2, Es3 in *.
    replace (sum_type VMEM_SPAN B1 + (e - b + sum_type VMEM_SPAN B2))
      with (sum_type VMEM_SPAN B1 + sum_type VMEM_SPAN B2 + (e - b)) by lia.
    split; [exact Hr|]. split_and!.
    + rewrite (Permutation_app_swap_app B1). apply holds_cons_other; [|done]. by apply holds_cons_same.
    + rewrite (Permutation_app_swap_app B1). apply holds_cons_other; [|done]. by apply holds_cons_other.
    + by apply pub_ok_publish.
  - unfold tiled in *. rewrite fmap_app in *. apply tclosed_app in Ht as (st & H1 & H2).
    apply tclosed_app. exists st. split; [done|]. pose proof (tile_gap_closed _ _ _ _ Hg H2).
    simpl. apply tclosed_cons. eexists. split; [by constructor|].
    apply tclosed_cons. eexists. split; [by constructor|]. by eapply (tile_gap _ st).
  - intros p s. rewrite span_pair_elem.
    intros [Hin|[[= -> ->]|[= -> ->]]]; [by apply Hk|simpl; auto|simpl; auto].
  - intros p s p' s' Hi%span_pair_elem Hi'%span_pair_elem Hne Hs Hs'.
    destruct Hi as [Hi|[[= -> ->]|[= -> ->]]], Hi' as [Hi'|[[= -> ->]|[= -> ->]]]; try done.
    + by eapply Hd.
    + simpl. by apply (Hfr p s).
    + simpl. destruct (Hfr p' s'); auto.
Qed.

(** The place [vmem_span_create] picks. *)
Definition span_knext (vm : vmem) (start : Z) (import : bool) : segp :=
  if negb import && negb (vm_source_alloc (vm_cfg vm))
  then cnext (vm_spans vm) (span_kprev vm start (rev (tail (vm_spans vm))))
  else Seg0.

Lemma gap_spans B2 k :
  span_gap B2 k -> (spans_of B2 = [] /\ k = Seg0) \/ head (spans_of B2) = Some k.
Proof.
  intros [[-> ->]|(s & B2' & -> & Ht)]; [by left|right]. rewrite spans_of_cons. by rewrite decide_True.
Qed.

Lemma gap_keys B2 k : span_gap B2 k -> (B2.*1 = [] /\ k = Seg0) \/ head B2.*1 = Some k.
Proof. intros [[-> ->]|(s & B2' & -> & Ht)]; [by left|by right]. Qed.

Lemma rep_place_span vm c B1 B2 F H n hp u t k b e :
  rep vm c (B1 ++ B2) F H (Seg0 :: spans_of (B1 ++ B2)) (S n) hp u t -> span_gap B2 k ->
  exists a vm1, vmem_seg_create (vs_aprev vm k) b e vm = Ok (Seg a, vm1) /\
    let vm2 := upd_seg (Seg a) (with_type VMEM_SPAN) vm1 in
    rep (set_spans (insert_after (cprev (vm_spans vm2) k) (Seg a) (vm_spans vm2)) vm2) c
      (B1 ++ (Seg a, Sg b e VMEM_SPAN false) :: B2) F H
      (Seg0 :: spans_of B1 ++ Seg a :: spans_of B2) n hp u t.
Proof.
  intros Hr Hg. pose proof (rp_nodup _ _ _ _ _ _ _ _ _ _ Hr) as Hnd.
  pose proof (spans_of_nodup _ Hnd) as Hnds. rewrite spans_of_app in Hnds.
  assert (Hv : Some (vs_aprev vm k) = last (Seg0 :: B1.*1)).
  { unfold vs_aprev. rewrite (rp_alist _ _ _ _ _ _ _ _ _ _ Hr), fmap_app in *.
    apply cprev_gap; [done|]. by apply gap_keys. }
  destruct (rep_seg_create _ _ _ _ _ _ _ _ _ _ _ _ b e Hr (eq_sym Hv))
    as (a & vm1 & E & Hr1 & Ha & HF & HH & _).
  exists a, vm1. split; [done|]. intros vm2.
  pose proof (rep_upd_seg _ _ _ _ _ _ _ _ _ _ _ _ _ (with_type VMEM_SPAN) Hr1 HF HH) as Hr2.
  fold vm2 in Hr2. rewrite (rp_spans _ _ _ _ _ _ _ _ _ _ Hr2), spans_of_app.
  rewrite insert_after_gap; [by eapply rep_set_spans|done|by apply gap_spans].
Qed.

Lemma rep_place_free vm c B1 B2 F H sp n hp u t a sa b e import :
  rep vm c (B1 ++ (Seg a, sa) :: B2) F H sp (S n) hp u t ->
  0 < b -> b < e -> e < 2 ^ 64 ->
  exists ns vm1, vmem_seg_create (Seg a) b e vm = Ok (Seg ns, vm1) /\
    rep (upd_seg (Seg ns) (with_import import) (vmem_freelist_insert (Seg ns) vm1)) c
      (B1 ++ (Seg a, sa) :: (Seg ns, Sg b e VMEM_FREE import) :: B2)
      (<[Seg ns := Sg b e VMEM_FREE import]> F) H sp n hp u t.
Proof.
  intros Hr Hb Hbe He.
  replace (B1 ++ (Seg a, sa) :: B2) with ((B1 ++ [(Seg a, sa)]) ++ B2) in Hr by (by rewrite <- app_assoc).
  destruct (rep_seg_create _ _ _ _ _ _ _ _ _ _ _ (Seg a) b e Hr)
    as (ns & vm1 & E & Hr1 & Ha & HF & HH & _); [apply view_last_cons|].
  pose proof (rep_freelist_insert _ _ _ _ _ _ _ _ _ _ _ ns (Sg b e 0 false) Hr1 HF HH Hb Hbe He) as Hr2.
  exists ns, vm1. split; [done|].
  pose proof (rep_upd_free _ _ _ _ _ _ _ _ _ _ _ (Seg ns) (with_type VMEM_FREE (Sg b e 0 false))
    (with_import import) Hr2) as Hr3.
  rewrite insert_insert_eq in Hr3. rewrite <- app_assoc in Hr3.
  apply Hr3; [apply lookup_insert_eq|done|done|simpl; lia].
Qed.

Lemma span_knext_elem vm A c F H n hp u t start import :
  rep vm c A F H (Seg0 :: spans_of A) n hp u t ->
  span_knext vm start import = Seg0 \/ span_knext vm start import ∈ spans_of A.
Proof.
  intros Hr. unfold span_knext. rewrite (rp_spans _ _ _ _ _ _ _ _ _ _ Hr).
  destruct (_ && _); [|by left]. apply cnext_elem.
Qed.

Lemma land_quantum c x y :
  quantum_ok c -> (vm_quantum c | x) -> (vm_quantum c | y) ->
  Z.land (Z.lor x y) (wsub (vm_quantum c) 1) = 0.
Proof.
  intros [Hsh Eq] [i ->] [j ->]. fold (P2PHASE (Z.lor (i * vm_quantum c) (j * vm_quantum c)) (vm_quantum c)).
  rewrite Eq, P2PHASE_spec by lia. rewrite <- !Z.shiftl_mul_pow2 by lia.
  rewrite <- Z.shiftl_lor, Z.shiftl_mul_pow2 by lia. apply Z.mod_mul. lia.
Qed.

Lemma arena_span_create vm A n start size import :
  arena vm A (S (S n)) -> 0 < start -> 0 < size -> start + size < 2 ^ 64 ->
  (vm_quantum (vm_cfg vm) | start) -> (vm_quantum (vm_cfg vm) | start + size) ->
  span_fresh A start (start + size) ->
  exists B1 B2 sp ns vm', A = B1 ++ B2 /\
    vmem_span_create start size import vm = Ok (Seg ns, vm') /\
    arena vm' (B1 ++ span_pair sp ns start (start + size) import ++ B2) n /\
    vm_cfg vm' = vm_cfg vm /\
    vm_heap_pub vm' = heap_publish start (start + size) <$> vm_heap_pub vm.
Proof.
  intros Har Hs Hz He Hqs Hqe Hfr. pose proof Har as [(F & H & hp & Hr & HF & HH & Hpub) Hq _ _ _].
  unfold vmem_span_create. rewrite wadd_small by lia. fold (span_knext vm start import).
  rewrite land_quantum by done. change (negb (0 =? 0)) with false. cbv iota.
  pose proof (rep_set_pub _ _ _ _ _ _ _ _ _ _ (heap_publish start (start + size)) Hr) as Hr1.
  destruct (span_gap_elem A _ (span_knext_elem _ _ _ _ _ _ _ _ _ start import Hr)) as (B1 & B2 & -> & Hg).
  destruct (rep_place_span _ _ _ _ _ _ _ _ _ _ _ start (start + size) Hr1 Hg) as (sp & vm2 & E2 & Hr2).
  rewrite E2. cbn [res_bind]. cbv zeta in Hr2.
  destruct (rep_place_free _ _ _ _ _ _ _ _ _ _ _ _ _ start (start + size) import Hr2 ltac:(lia) ltac:(lia) He)
    as (ns & vm3 & E3 & Hr3).
  rewrite E3. cbn [res_bind].
  apply rep_total with (d := size) in Hr3 as Hr4.
  exists B1, B2, sp, ns. eexists. split_and!; [done..| | |].
  - eapply (arena_add_span vm _ B1 B2 _ (S (S n)) n sp ns start (start + size) import F _ H _ hp);
      try done; try lia.
    replace (start + size - start) with size by lia. destruct import; [|exact Hr4].
    apply rep_total. apply rep_kcount; done.
  - destruct import; apply (rp_cfg _ _ _ _ _ _ _ _ _ _ Hr4).
  - rewrite (rp_pub _ _ _ _ _ _ _ _ _ _ Hr).
    destruct import; apply (rp_pub _ _ _ _ _ _ _ _ _ _ Hr4).
Qed.
