(* ===== verification/VmemOps.v ===== *)
(** * Operations of a vmem arena (vmem.c)

    Each operation runs under the arena's lock.  What it calls outside the
    arena is a callback of [vmem_env]: the source's allocation and free
    functions, the quantum caches, the stock of segment structures, the clock.
    A callback made while the lock is dropped returns the arena as it is when
    the lock is taken again, since other threads may have used it meanwhile. *)
From S2P Require Import Prelude Machine SpanTable VmemArena.

Definition VM_NOSLEEP : Z := 0x1.
Definition VM_PANIC : Z := 0x2.
Definition VM_UMFLAGS : Z := 0xff.
Definition VM_BESTFIT : Z := 0x100.
Definition VM_FIRSTFIT : Z := 0x200.
Definition VM_NEXTFIT : Z := 0x400.
Definition VMC_XALLOC : Z := 0x80000.
Definition VMEM_REENTRANT : Z := 0x80000000.

(** [flags & f] as a C condition. *)
Definition hasflag (flags f : Z) : bool := negb (Z.land flags f =? 0).

(** Outcome of an allocation: an address, NULL, or still waiting for another
    thread to free memory. *)
Inductive xret := Addr (a : Z) | Null | Waiting.

Class vmem_env (W : Type) := {
  env_populate : Z -> vmem * W -> bool * (vmem * W);     (* vmem_populate *)
  env_source_alloc : Z -> Z -> vmem * W -> Z * (vmem * W);
  env_source_ximport : Z -> Z -> vmem * W -> Z * Z * (vmem * W);
  env_source_free : Z -> Z -> vmem * W -> vmem * W;
  env_qcache_alloc : Z -> vmem * W -> xret * (vmem * W); (* _umem_cache_alloc(vm_qcache[i]) *)
  env_qcache_free : Z -> Z -> vmem * W -> vmem * W;
  env_reap : vmem * W -> vmem * W;                       (* vmem_reap *)
  env_wait : vmem * W -> vmem * W;                       (* cond_wait on vm_cv *)
  env_hrtime : W -> Z * W;
  env_allocator : Z                                      (* the global vmem_allocator *)
}.

(** [vmem_xfree]: attempt to coalesce with the next segment. *)
Definition coalesce_next (vsp : segp) (vm : vmem) : result vmem :=
  let vnext := vs_anext vm vsp in
  if vs_type (sg vm vnext) =? VMEM_FREE then
    do _ <- ASSERT (vs_end (sg vm vsp) =? vs_start (sg vm vnext)) "vsp->vs_end == vnext->vs_start";
    let vm := vmem_freelist_delete vnext vm in
    let vm := upd_seg vsp (with_end (vs_end (sg vm vnext))) vm in
    Ok (vmem_seg_destroy vnext vm)
  else Ok vm.

(** [vmem_xfree]: attempt to coalesce with the previous segment. *)
Definition coalesce_prev (vsp : segp) (vm : vmem) : result (segp * vmem) :=
  let vprev := vs_aprev vm vsp in
  if vs_type (sg vm vprev) =? VMEM_FREE then
    do _ <- ASSERT (vs_end (sg vm vprev) =? vs_start (sg vm vsp)) "vprev->vs_end == vsp->vs_start";
    let vm := vmem_freelist_delete vprev vm in
    let vm := upd_seg vprev (with_end (vs_end (sg vm vsp))) vm in
    Ok (vprev, vmem_seg_destroy vsp vm)
  else Ok (vsp, vm).

Section ops.
Context {W : Type} `{vmem_env W}.
#[local] Abbreviation st := (vmem * W)%type.

(** ** vmem_xfree *)

Definition vmem_xfree (vaddr size : Z) (s : st) : result st :=
  let '(vm, w) := s in
  do (vsp, vm) <- vmem_hash_delete vaddr size vm;
  let vm := upd_seg vsp (fun s => with_end (P2ROUNDUP (vs_end s) (vm_quantum (vm_cfg vm))) s) vm in
  do vm <- coalesce_next vsp vm;
  do (vsp, vm) <- coalesce_prev vsp vm;
  if vs_import (sg vm vsp) && vm_source_free (vm_cfg vm) &&
     (vs_type (sg vm (vs_aprev vm vsp)) =? VMEM_SPAN) &&
     (vs_type (sg vm (vs_anext vm vsp)) =? VMEM_SPAN)
  then
    let vaddr := vs_start (sg vm vsp) in
    let size := VS_SIZE (sg vm vsp) in
    do _ <- ASSERT (size =? VS_SIZE (sg vm (vs_aprev vm vsp))) "size == VS_SIZE(vsp->vs_aprev)";
    Ok (env_source_free vaddr size (vmem_span_destroy vsp vm, w))
  else Ok (vmem_freelist_insert vsp vm, w).

(** ** vmem_xalloc *)

(** One candidate: the address the request would get in segment [vs]. *)
Definition xfit (size align phase nocross minaddr maxaddr : Z) (vs : seg) : option Z :=
  if wsub (vs_end vs) 1 <? minaddr then None
  else if wsub maxaddr 1 <? vs_start vs then None
  else
    let start := Z.max (vs_start vs) minaddr in
    let end_ := wadd (Z.min (wsub (vs_end vs) 1) (wsub maxaddr 1)) 1 in
    let taddr := P2PHASEUP start align phase in
    let taddr := if P2BOUNDARY taddr size nocross
                 then wadd taddr (P2ROUNDUP (P2NPHASE taddr nocross) align) else taddr in
    if wsub end_ start <? wadd (wsub taddr start) size then None else Some taddr.

(** The freelist to start at, plus one; 0 for none. *)
Definition xflist (size vmflag freemap : Z) : Z :=
  if Z.land size (wsub size 1) =? 0 then lowbit (P2ALIGN freemap size)
  else
    let hb := highbit size in
    let hb := if (Z.shiftr freemap hb =? 0) || (hb =? VMEM_FREELISTS) ||
                 hasflag vmflag (Z.lor VM_BESTFIT VM_FIRSTFIT)
              then hb - 1 else hb in
    lowbit (P2ALIGN freemap (wshl 1 hb)).

(** The scan of the freelists from the node [p]; [None] when the fuel runs out
    or when the list the bitmap names does not begin with a free segment, which
    the code asserts. *)
Fixpoint xsearch (fuel : nat) (size align phase nocross minaddr maxaddr vmflag : Z)
    (vm : vmem) (p : option segp) (vbest : option (segp * Z)) {struct fuel}
    : option (option (segp * Z) * vmem) :=
  match p with
  | None => Some (vbest, vm)
  | Some p =>
    match fuel with
    | O => None
    | S fuel =>
      let continue := xsearch fuel size align phase nocross minaddr maxaddr vmflag in
      let vm := kcount vk_search 1 vm in
      let vs := sg vm p in
      if vs_start vs =? 0 then
        match vbest with
        | Some _ => Some (vbest, vm)
        | None =>
            let flist := lowbit (P2ALIGN (vm_freemap vm) (VS_SIZE vs)) in
            if flist =? 0 then Some (vbest, vm)
            else
              let knext := lnext (Flist (Z.to_nat (flist - 1))) (vm_flist vm) in
              if vs_type (sg vm (default Seg0 knext)) =? VMEM_FREE then continue vm knext vbest else None
        end
      else
        match xfit size align phase nocross minaddr maxaddr vs with
        | None => continue vm (lnext p (vm_flist vm)) vbest
        | Some taddr =>
            if match vbest with Some (b, _) => VS_SIZE (sg vm b) <=? VS_SIZE vs | None => false end
            then continue vm (lnext p (vm_flist vm)) vbest
            else if negb (hasflag vmflag VM_BESTFIT) || (VS_SIZE vs =? size)
            then Some (Some (p, taddr), vm)
            else continue vm (lnext p (vm_flist vm)) (Some (p, taddr))
        end
    end
  end.

Definition xalloc_fail (vmflag : Z) (s : st) : result (xret * st) :=
  let '(vm, w) := s in
  let vm := kcount vk_fail 1 vm in
  if hasflag vmflag VM_PANIC then Panic "vmem_xalloc: cannot satisfy mandatory allocation"
  else Ok (Null, (vm, w)).

(** Take the request out of the segment found. *)
Definition xalloc_take (vbest : segp) (addr size align phase nocross minaddr maxaddr : Z)
    (s : st) : result (xret * st) :=
  let '(vm, w) := s in
  do _ <- ASSERT (vs_type (sg vm vbest) =? VMEM_FREE) "vbest->vs_type == VMEM_FREE";
  do _ <- ASSERT (negb (bool_decide (lnext vbest (vm_flist vm) = Some vbest))) "vbest->vs_knext != vbest";
  do (_, vm) <- vmem_seg_alloc vbest addr size vm;
  do _ <- ASSERT (P2PHASE addr align =? phase) "P2PHASE(addr, align) == phase";
  do _ <- ASSERT (negb (P2BOUNDARY addr size nocross)) "!P2BOUNDARY(addr, size, nocross)";
  do _ <- ASSERT (minaddr <=? addr) "addr >= minaddr";
  do _ <- ASSERT (wsub (wadd addr size) 1 <=? wsub maxaddr 1) "addr + size - 1 <= maxaddr - 1";
  Ok (Addr addr, (vm, w)).

(** Import a span: the address the source gave (0 for NULL) and the size. *)
Definition xalloc_import (asize resv vmflag : Z) (s : st) : Z * Z * st :=
  let '(vm, w) := s in
  let vm := set_nsegfree (vm_nsegfree vm - resv) vm in
  let '(vaddr, asize, (vm, w)) :=
    if hasflag (vm_cflags (vm_cfg vm)) VMC_XALLOC then
      let '(vaddr, xsize, s) := env_source_ximport asize (Z.land vmflag VM_UMFLAGS) (vm, w) in
      (vaddr, (if vaddr =? 0 then asize else xsize), s)
    else
      let '(vaddr, s) := env_source_alloc asize (Z.land vmflag VM_UMFLAGS) (vm, w) in
      (vaddr, asize, s) in
  (vaddr, asize, (set_nsegfree (vm_nsegfree vm + resv) vm, w)).

(** The loop; [iters] bounds how often the caller is woken up to try again. *)
Fixpoint xalloc_loop (iters : nat) (size align phase nocross minaddr maxaddr vmflag : Z)
    (s : st) : result (xret * st) :=
  match iters with
  | O => Ok (Waiting, s)
  | S iters =>
    let '(ok, (vm, w)) :=
      if vm_nsegfree (s.1) <? VMEM_MINFREE then env_populate vmflag s else (true, s) in
    if negb ok then xalloc_fail vmflag (vm, w)
    else
      let flist := xflist size vmflag (vm_freemap vm) in
      let first := if flist =? 0 then None
                   else lnext (Flist (Z.to_nat (flist - 1))) (vm_flist vm) in
      match xsearch (S (length (vm_flist vm))) size align phase nocross minaddr maxaddr vmflag vm first None with
      | None => Panic "vmem_xalloc: freelist chain does not end"
      | Some (Some (vbest, addr), vm) => 
          xalloc_take vbest addr size align phase nocross minaddr maxaddr (vm, w)
      | Some (None, vm) =>
        if size =? 0 then Panic "vmem_xalloc(): size == 0"
        else
          let retry (s : st) :=
            let s := env_reap s in
            if hasflag vmflag VM_NOSLEEP then xalloc_fail vmflag s
            else xalloc_loop iters size align phase nocross minaddr maxaddr vmflag
                   (env_wait (kcount vk_wait 1 s.1, s.2)) in
          if vm_source_alloc (vm_cfg vm) && (nocross =? 0) && (minaddr =? 0) && (maxaddr =? 0)
          then
            let asize := P2ROUNDUP (wadd size phase) (Z.max align (vm_source_quantum (vm_cfg vm))) in
            if asize <? size then
              if hasflag vmflag VM_NOSLEEP then Ok (Null, (vm, w))
              else Panic "vmem_xalloc(): overflow on VM_SLEEP allocation"
            else
              let resv := if size =? asize
                          then VMEM_SEGS_PER_SPAN_CREATE + VMEM_SEGS_PER_EXACT_ALLOC
                          else VMEM_SEGS_PER_ALLOC_MAX in
              do _ <- ASSERT (resv <=? vm_nsegfree vm) "vm_nsegfree >= resv";
              let '(vaddr, asize, (vm, w)) := xalloc_import asize resv vmflag (vm, w) in
              if vaddr =? 0 then retry (vm, w)
              else
                do (vbest, vm) <- vmem_span_create vaddr asize true vm;
                xalloc_take vbest (P2PHASEUP (vs_start (sg vm vbest)) align phase) size
                  align phase nocross minaddr maxaddr (vm, w)
          else retry (vm, w)
      end
  end.

(** The induced failure of [vm_mtbf]. *)
Definition mtbf_fails (vmflag : Z) (s : st) : bool * st :=
  let '(vm, w) := s in
  if vm_mtbf (vm_cfg vm) =? 0 then (false, s)
  else
    let '(t, w) := env_hrtime w in
    ((t mod vm_mtbf (vm_cfg vm) =? 0) &&
     (Z.land vmflag (Z.lor VM_NOSLEEP VM_PANIC) =? VM_NOSLEEP), (vm, w)).

Definition vmem_xalloc (iters : nat) (size align phase nocross minaddr maxaddr vmflag : Z)
    (s : st) : result (xret * st) :=
  let quantum := vm_quantum (vm_cfg (s.1)) in
  if (0 <? phase) && (align <=? phase) then Panic "vmem_xalloc: invalid phase"
  else
    let align := if align =? 0 then quantum else align in
    if negb (Z.land (Z.lor (Z.lor align phase) nocross) (wsub quantum 1) =? 0)
    then Panic "vmem_xalloc: parameters not vm_quantum aligned"
    else if negb (nocross =? 0) &&
            ((nocross <? align) || (nocross <? P2ROUNDUP (wadd phase size) align))
    then Panic "vmem_xalloc: overconstrained allocation"
    else
      let '(fails, s) := mtbf_fails vmflag s in
      if fails then Ok (Null, s)
      else xalloc_loop iters size align phase nocross minaddr maxaddr vmflag s.

(** ** Next-fit allocation *)

Definition vmem_advance (walker : segp) (afterme : option segp) (s : st) : result st :=
  let '(vm, w) := s in
  let vprev := vs_aprev vm walker in
  let vnext := vs_anext vm walker in
  let vm := set_alist (unlink walker (vm_alist vm)) vm in
  let vm := match afterme with
            | None => vm
            | Some a => set_alist (insert_after a walker (vm_alist vm)) vm
            end in
  do (vsp, vm) <-
    (if vs_type (sg vm vprev) =? VMEM_FREE then
       if vs_type (sg vm vnext) =? VMEM_FREE then
         do _ <- ASSERT (vs_end (sg vm vprev) =? vs_start (sg vm vnext)) "vprev->vs_end == vnext->vs_start";
         let vm := vmem_freelist_delete vnext vm in
         let vm := vmem_freelist_delete vprev vm in
         let vm := upd_seg vprev (with_end (vs_end (sg vm vnext))) vm in
         let vm := vmem_freelist_insert vprev vm in
         Ok (Some vprev, vmem_seg_destroy vnext vm)
       else Ok (Some vprev, vm)
     else if vs_type (sg vm vnext) =? VMEM_FREE then Ok (Some vnext, vm)
     else Ok (None, vm));
  match vsp with
  | None => Ok (vm, w)
  | Some vsp =>
      if vs_import (sg vm vsp) && vm_source_free (vm_cfg vm) &&
         (vs_type (sg vm (vs_aprev vm vsp)) =? VMEM_SPAN) &&
         (vs_type (sg vm (vs_anext vm vsp)) =? VMEM_SPAN)
      then
        let vaddr := vs_start (sg vm vsp) in
        let size := VS_SIZE (sg vm vsp) in
        do _ <- ASSERT (size =? VS_SIZE (sg vm (vs_aprev vm vsp))) "size == VS_SIZE(vsp->vs_aprev)";
        let vm := vmem_freelist_delete vsp vm in
        let vm := vmem_span_destroy vsp vm in
        Ok (env_source_free vaddr size (vm, w))
      else Ok (vm, w)
  end.

(** The walk from [vsp] to the first free segment of at least [size] bytes, or
    to the rotor. *)
Fixpoint nextfit_scan (fuel : nat) (size : Z) (vm : vmem) (vsp : segp) : option segp * vmem :=
  match fuel with
  | O => (None, vm)
  | S fuel =>
      let vm := kcount vk_search 1 vm in
      if (vs_type (sg vm vsp) =? VMEM_FREE) && (size <=? VS_SIZE (sg vm vsp)) then (Some vsp, vm)
      else
        let vsp := vs_anext vm vsp in
        if decide (vsp = Rotor) then (None, vm) else nextfit_scan fuel size vm vsp
  end.

(** Extract the allocation and move the rotor behind it. *)
Definition nextfit_take (vsp : segp) (size : Z) (s : st) : result (xret * st) :=
  let '(vm, w) := s in
  let addr := vs_start (sg vm vsp) in
  do (vsp, vm) <- vmem_seg_alloc vsp addr size vm;
  do _ <- ASSERT ((vs_type (sg vm vsp) =? VMEM_ALLOC) && (vs_start (sg vm vsp) =? addr) &&
                  (vs_end (sg vm vsp) =? wadd addr size)) "vsp is [addr, addr + size)";
  do s <- vmem_advance Rotor (Some vsp) (vm, w);
  Ok (Addr addr, s).

Fixpoint nextfit_loop (iters : nat) (size vmflag : Z) (vsp : segp) (s : st) : result (xret * st) :=
  match iters with
  | O => Ok (Waiting, s)
  | S iters' =>
      match nextfit_scan (length (vm_alist s.1)) size s.1 vsp with
      | (Some vsp, vm) => nextfit_take vsp size (vm, s.2)
      | (None, vm) =>
          do s <- vmem_advance Rotor (Some (vs_anext vm Rotor)) (vm, s.2);
          let vm := s.1 in
          let vsp := vs_aprev vm Rotor in
          if (vs_type (sg vm vsp) =? VMEM_FREE) && (size <=? VS_SIZE (sg vm vsp))
          then nextfit_take vsp size s
          else if vm_source_alloc (vm_cfg vm) || hasflag vmflag VM_NOSLEEP
          then vmem_xalloc iters size (vm_quantum (vm_cfg vm)) 0 0 0 0 (Z.land vmflag VM_UMFLAGS) s
          else
            let s := env_wait (kcount vk_wait 1 vm, s.2) in
            nextfit_loop iters' size vmflag (vs_anext s.1 Rotor) s
      end
  end.

Definition vmem_nextfit_alloc (iters : nat) (size vmflag : Z) (s : st) : result (xret * st) :=
  let realsize := P2ROUNDUP size (vm_quantum (vm_cfg (s.1))) in
  let '(ok, (vm, w)) :=
    if vm_nsegfree (s.1) <? VMEM_MINFREE then env_populate vmflag s else (true, s) in
  if negb ok then Ok (Null, (vm, w))
  else
    let vsp := vs_anext vm Rotor in
    let vs_size := VS_SIZE (sg vm vsp) in
    if (vs_type (sg vm vsp) =? VMEM_FREE) && (realsize <? vs_size) &&
       P2SAMEHIGHBIT vs_size (wsub vs_size realsize)
    then
      do _ <- ASSERT (highbit vs_size =? highbit (wsub vs_size realsize)) "highbit(vs_size)";
      let addr := vs_start (sg vm vsp) in
      let vm := upd_seg vsp (with_start (wadd addr realsize)) vm in
      do (new, vm) <- vmem_seg_create (vs_aprev vm Rotor) addr (wadd addr size) vm;
      Ok (Addr addr, (vmem_hash_insert new vm, w))
    else nextfit_loop iters size vmflag vsp (vm, w).

(** ** vmem_alloc and vmem_free *)

Definition vmem_alloc (iters : nat) (size vmflag : Z) (s : st) : result (xret * st) :=
  let vmflag := Z.lor vmflag env_allocator in
  let c := vm_cfg (s.1) in
  let xalloc (s : st) := vmem_xalloc iters size (vm_quantum c) 0 0 0 0 vmflag s in
  if wsub size 1 <? vm_qcache_max c
  then
    do _ <- ASSERT (hasflag vmflag VM_NOSLEEP) "vmflag & VM_NOSLEEP";
    Ok (env_qcache_alloc (Z.shiftr (wsub size 1) (vm_qshift c)) s)
  else
    let '(fails, s) := mtbf_fails vmflag s in
    if fails then Ok (Null, s)
    else if hasflag vmflag VM_NEXTFIT then vmem_nextfit_alloc iters size vmflag s
    else if hasflag vmflag (Z.lor VM_BESTFIT VM_FIRSTFIT) then xalloc s
    else
      let '(ok, (vm, w)) :=
        if VMEM_MINFREE <=? vm_nsegfree (s.1) then (true, s) else env_populate vmflag s in
      let hb := highbit size in
      let flist :=
        if negb ok then 0
        else if Z.land size (wsub size 1) =? 0 then lowbit (P2ALIGN (vm_freemap vm) size)
        else if hb <? VMEM_FREELISTS then lowbit (P2ALIGN (vm_freemap vm) (wshl 1 hb))
        else 0 in
      if flist =? 0 then xalloc (vm, w)
      else
        do _ <- ASSERT (size <=? wshl 1 (flist - 1)) "size <= (1UL << flist)";
        let vsp := default Seg0 (lnext (Flist (Z.to_nat (flist - 1))) (vm_flist vm)) in
        let addr := vs_start (sg vm vsp) in
        do (_, vm) <- vmem_seg_alloc vsp addr size vm;
        Ok (Addr addr, (vm, w)).

Definition vmem_free (vaddr size : Z) (s : st) : result st :=
  let c := vm_cfg (s.1) in
  if wsub size 1 <? vm_qcache_max c
  then Ok (env_qcache_free (Z.shiftr (wsub size 1) (vm_qshift c)) vaddr s)
  else vmem_xfree vaddr size s.

(** ** Spans: membership, addition, extension *)

Fixpoint contains_scan (start end_ : Z) (spans : list segp) (vm : vmem) : bool * vmem :=
  match spans with
  | [] => (false, vm)
  | p :: l =>
      let vm := kcount vk_contains_search 1 vm in
      if (vs_start (sg vm p) <=? start) && (wsub end_ 1 <=? wsub (vs_end (sg vm p)) 1)
      then (true, vm) else contains_scan start end_ l vm
  end.

Definition vmem_contains (vaddr size : Z) (vm : vmem) : bool * vmem :=
  contains_scan vaddr (wadd vaddr size) (tail (vm_spans vm)) (kcount vk_contains 1 vm).

Definition vmem_add (vaddr size vmflag : Z) (s : st) : result (Z * st) :=
  if (vaddr =? 0) || (size =? 0) then Panic "vmem_add: bad arguments"
  else
    let '(found, vm) := vmem_contains vaddr size (s.1) in
    do _ <- ASSERT (negb found) "!vmem_contains(vmp, vaddr, size)";
    let '(ok, (vm, w)) := env_populate vmflag (vm, s.2) in
    if ok then do (_, vm) <- vmem_span_create vaddr size false vm; Ok (vaddr, (vm, w))
    else Ok (0, (vm, w)).
End ops.

(** [for (span = end->vs_kprev; span != end; span = span->vs_kprev)
      if (span->vs_end == addr || span->vs_start == endaddr) break;] *)
Fixpoint extend_span (vm : vmem) (addr endaddr : Z) (rev_spans : list segp) : segp :=
  match rev_spans with
  | [] => Seg0
  | k :: l =>
      if (vs_end (sg vm k) =? addr) || (vs_start (sg vm k) =? endaddr) then k
      else extend_span vm addr endaddr l
  end.

Definition extend_done (vsp : segp) (addr endaddr : Z) (vm : vmem) : result (segp * vmem) :=
  Ok (vsp, kcount vk_mem_total (wsub endaddr addr) (vmem_freelist_insert vsp vm)).

Definition vmem_extend_unlocked (addr endaddr : Z) (vm : vmem) : result (segp * vmem) :=
  let span := extend_span vm addr endaddr (rev (tail (vm_spans vm))) in
  if decide (span = Seg0) then vmem_span_create addr (wsub endaddr addr) false vm
  else
    let prevspan := cprev (vm_spans vm) span in
    if (vs_end (sg vm prevspan) =? addr) && (vs_start (sg vm span) =? endaddr) then
      let nextseg := vs_anext vm span in
      let prevseg := vs_aprev vm span in
      let vm := upd_seg prevspan (with_end (vs_end (sg vm span))) vm in
      let prevfree := vs_type (sg vm prevseg) =? VMEM_FREE in
      let nextfree := vs_type (sg vm nextseg) =? VMEM_FREE in
      let del_k (vm : vmem) := set_spans (unlink span (vm_spans vm)) vm in
      if prevfree && nextfree then
        do _ <- ASSERT ((vs_end (sg vm prevseg) =? addr) && (vs_start (sg vm nextseg) =? endaddr))
                  "prevseg->vs_end == addr && nextseg->vs_start == endaddr";
        let vm := vmem_freelist_delete prevseg vm in
        let vm := upd_seg prevseg (with_end (vs_end (sg vm nextseg))) vm in
        let vm := del_k (vmem_freelist_delete nextseg vm) in
        let vm := vmem_seg_destroy span (vmem_seg_destroy nextseg vm) in
        extend_done prevseg addr endaddr vm
      else if prevfree then
        do _ <- ASSERT (vs_end (sg vm prevseg) =? addr) "prevseg->vs_end == addr";
        let vm := vmem_seg_destroy span (del_k vm) in
        let vm := upd_seg prevseg (with_end endaddr) (vmem_freelist_delete prevseg vm) in
        extend_done prevseg addr endaddr vm
      else if nextfree then
        do _ <- ASSERT (vs_start (sg vm nextseg) =? endaddr) "nextseg->vs_start == endaddr";
        let vm := vmem_seg_destroy span (del_k vm) in
        let vm := upd_seg nextseg (with_start addr) (vmem_freelist_delete nextseg vm) in
        extend_done nextseg addr endaddr vm
      else
        let vm := upd_seg span (fun s => with_end endaddr (with_start addr s)) (del_k vm) in
        extend_done span addr endaddr vm
    else if vs_end (sg vm span) =? addr then
      let oldseg := vs_aprev vm (cnext (vm_spans vm) span) in
      let vm := upd_seg span (with_end endaddr) vm in
      do _ <- ASSERT (negb (vs_type (sg vm oldseg) =? VMEM_SPAN)) "oldseg->vs_type != VMEM_SPAN";
      if vs_type (sg vm oldseg) =? VMEM_FREE then
        do _ <- ASSERT (vs_end (sg vm oldseg) =? addr) "oldseg->vs_end == addr";
        let vm := upd_seg oldseg (with_end endaddr) (vmem_freelist_delete oldseg vm) in
        extend_done oldseg addr endaddr vm
      else
        do (vsp, vm) <- vmem_seg_create oldseg addr endaddr vm;
        extend_done vsp addr endaddr vm
    else
      let oldseg := vs_anext vm span in
      do _ <- ASSERT (vs_start (sg vm span) =? endaddr) "span->vs_start == endaddr";
      let vm := upd_seg span (with_start addr) vm in
      do _ <- ASSERT (negb (vs_type (sg vm oldseg) =? VMEM_SPAN)) "oldseg->vs_type != VMEM_SPAN";
      if vs_type (sg vm oldseg) =? VMEM_FREE then
        do _ <- ASSERT (vs_start (sg vm oldseg) =? endaddr) "oldseg->vs_start == endaddr";
        let vm := upd_seg oldseg (with_start addr) (vmem_freelist_delete oldseg vm) in
        extend_done oldseg addr endaddr vm
      else
        do (vsp, vm) <- vmem_seg_create span addr endaddr vm;
        extend_done vsp addr endaddr vm.

Definition vmem_extend_alloc {W} `{vmem_env W} (vaddr size alloc vmflag : Z) (s : vmem * W)
    : result (Z * (vmem * W)) :=
  let addr := vaddr in
  let endaddr := wadd addr size in
  do _ <- ASSERT (negb (vaddr =? 0) && negb (size =? 0) && (addr <? endaddr))
            "vaddr != NULL && size != 0 && endaddr > addr";
  do _ <- ASSERT ((alloc <=? size) && negb (alloc =? 0)) "alloc <= size && alloc != 0";
  do _ <- ASSERT (Z.land (Z.lor (Z.lor addr size) alloc) (wsub (vm_quantum (vm_cfg (s.1))) 1) =? 0)
            "((addr | size | alloc) & (vm_quantum - 1)) == 0";
  let '(found, vm) := vmem_contains vaddr size (s.1) in
  do _ <- ASSERT (negb found) "!vmem_contains(vmp, vaddr, size)";
  let '(ok, (vm, w)) := env_populate vmflag (vm, s.2) in
  if negb ok then Ok (0, (vm, w))
  else
    do (vsp, vm) <- (if vm_source_alloc (vm_cfg vm) then vmem_span_create vaddr size false vm
                     else vmem_extend_unlocked addr endaddr vm);
    do _ <- ASSERT (alloc <=? VS_SIZE (sg vm vsp)) "VS_SIZE(vsp) >= alloc";
    let addr := vs_start (sg vm vsp) in
    do (_, vm) <- vmem_seg_alloc vsp addr alloc vm;
    Ok (addr, (vm, w)).

(** ** Sizes *)

Definition vmem_size (typemask : Z) (vm : vmem) : Z :=
  let size := 0 in
  let size := if hasflag typemask VMEM_ALLOC then wadd size (vm_kstat vm vk_mem_inuse) else size in
  if hasflag typemask VMEM_FREE
  then wadd size (wsub (vm_kstat vm vk_mem_total) (vm_kstat vm vk_mem_inuse)) else size.
