(* ===== verification/VmemFree.v ===== *)
(** * Freeing and coalescing

    The pieces of a well-formed arena are pairwise disjoint, a free finds the
    allocation it names, and [vmem_xfree] merges it with its free neighbours. *)
From S2P Require Import Prelude Machine SpanTable VmemArena VmemTile VmemLists VmemRep VmemWf VmemCarve VmemSpan VmemOps.

#[local] Opaque vmem_span_table_insert vmem_span_table_remove.

(** ** Pieces are disjoint *)

Lemma elem_of_snd_inv (A : view) s : s ∈ A.*2 -> exists p, (p, s) ∈ A.
Proof. intros ([p s'] & -> & Hin)%list_elem_of_fmap. by exists p. Qed.

Lemma arena_nodup vm A n : arena vm A n -> NoDup (A.*1).
Proof. intros [(F & H & hp & Hr & _) _ _ _ _]. by eapply rep_nodup. Qed.

Lemma arena_later_disjoint vm A1 A2 n p s p' s' :
  arena vm (A1 ++ (p, s) :: A2) n -> (p', s') ∈ A2 -> piece s -> piece s' ->
  vs_end s <= vs_start s' \/ vs_end s' <= vs_start s.
Proof.
  intros Har Hin Hp Hp'. pose proof (quantum_pos _ (ar_quantum _ _ _ Har)) as Hq.
  pose proof (arena_nodup _ _ _ Har) as Hnd.
  destruct (ar_tile _ _ _ Har) as (st & Hrun & _).
  rewrite fmap_app in Hrun. apply trun_app in Hrun as (m & H1 & H2).
  assert (Hm : tst_ok (vm_quantum (vm_cfg vm)) m) by (by eapply (trun_ok _ Hq None)).
  destruct (proj1 (trun_cons _ _ _ _ _) H2) as (m1 & Hs & H3).
  pose proof (tstep_ok _ Hq _ _ _ Hm Hs) as Hm1.
  assert (exists B pos E f E' pos' f', m = Some (B, pos, E, f) /\ m1 = Some (B, pos', E', f') /\
    E' = E /\ B <= vs_start s /\ vs_end s <= pos' /\ vs_end s <= E) as
    (B & pos & E & f & E' & pos' & f' & -> & -> & -> & HB & Hpos & HE).
  { simpl in Hs. destruct Hs as [st' b e i|B pos E f e i|B pos E e i|st' x Hx]; simpl in *.
    - by destruct (piece_span_ne _ Hp).
    - pose proof (roundup_spec e _ Hq). eexists _, _, _, _, _, _, _. split_and!; try done; lia.
    - eexists _, _, _, _, _, _, _. split_and!; try done; lia.
    - exfalso. unfold piece, VMEM_ALLOC, VMEM_FREE, VMEM_ROTOR, VMEM_WALKER in *. lia. }
  destruct (trun_piece _ Hq _ _ _ s' Hm1 H3 (elem_of_snd _ _ _ Hin) Hp')
    as [(B2 & p2 & E2 & f2 & [= -> -> -> ->] & Hlo & Hhi)|(sp & Hsp & Hst & Hlo & Hhi)]; [left; lia|].
  destruct (trun_open _ _ _ _ _ _ _ H1) as [(? & ? & [=])|(s0 & Hs0 & Ht0 & <- & <-)].
  apply elem_of_snd_inv in Hsp as [k Hk]. apply elem_of_snd_inv in Hs0 as [k0 Hk0].
  destruct (ar_disjoint _ _ _ Har k0 s0 k sp) as [Hd|Hd]; try lia; [set_solver..|].
  intros ->. rewrite fmap_app in Hnd. apply NoDup_app in Hnd as (_ & Hd & _).
  apply (Hd k); [by eapply view_in_fst|]. right. by eapply view_in_fst.
Qed.

Lemma arena_pieces_disjoint vm A n p s p' s' :
  arena vm A n -> (p, s) ∈ A -> (p', s') ∈ A -> p <> p' -> piece s -> piece s' ->
  vs_end s <= vs_start s' \/ vs_end s' <= vs_start s.
Proof.
  intros Har Hin Hin' Hne Hp Hp'. apply view_split in Hin as (A1 & A2 & ->).
  rewrite elem_of_app, elem_of_cons in Hin'. destruct Hin' as [Hin'|[[= -> ->]|Hin']]; [|done|].
  - apply view_split in Hin' as (B1 & B2 & ->). rewrite <- app_assoc in Har. simpl in Har.
    destruct (arena_later_disjoint _ _ _ _ _ _ p s Har); [set_solver|done|done|right; lia|left; lia].
  - by eapply arena_later_disjoint.
Qed.

Lemma arena_alloc_unique vm A n p s p' s' :
  arena vm A n -> (p, s) ∈ A -> (p', s') ∈ A ->
  piece s -> piece s' -> vs_start s = vs_start s' -> p = p'.
Proof.
  intros Har Hin Hin' Hp Hp' E. destruct (decide (p = p')) as [|Hne]; [done|exfalso].
  destruct (arena_seg _ _ _ _ _ Har Hin) as (_ & H1 & _); [destruct Hp; auto|].
  destruct (arena_seg _ _ _ _ _ Har Hin') as (_ & H2 & _); [destruct Hp'; auto|].
  destruct (arena_pieces_disjoint _ _ _ _ _ _ _ Har Hin Hin' Hne Hp Hp'); lia.
Qed.

(** ** Neighbours *)

Definition next_type (A2 : view) : Z := match A2 with [] => VMEM_SPAN | (_, s) :: _ => vs_type s end.
Definition prev_type (A1 : view) : Z :=
  match last A1 with None => VMEM_SPAN | Some (_, s) => vs_type s end.

Lemma rep_seg0 vm c A F H sp n hp u t :
  rep vm c A F H sp n hp u t -> sg vm Seg0 = Sg 0 0 VMEM_SPAN false.
Proof. intros Hr. apply lookup_total_correct. by eapply rp_seg0. Qed.

Lemma rep_next_type vm c A1 A2 F H sp n hp u t p s :
  rep vm c (A1 ++ (p, s) :: A2) F H sp n hp u t ->
  vs_type (sg vm (vs_anext vm p)) = next_type A2.
Proof.
  intros Hr. rewrite (rep_anext _ _ _ _ _ _ _ _ _ _ _ _ _ Hr).
  destruct A2 as [|[x sx] A2]; simpl; [by rewrite (rep_seg0 _ _ _ _ _ _ _ _ _ _ Hr)|].
  by rewrite (rep_sg _ _ _ _ _ _ _ _ _ _ x sx Hr ltac:(set_solver)).
Qed.

Lemma rep_prev_type vm c A1 A2 F H sp n hp u t p s :
  rep vm c (A1 ++ (p, s) :: A2) F H sp n hp u t ->
  vs_type (sg vm (vs_aprev vm p)) = prev_type A1.
Proof.
  intros Hr. pose proof (rep_aprev _ _ _ _ _ _ _ _ _ _ _ _ _ Hr) as Hv. unfold prev_type.
  destruct A1 as [|[x sx] A1 _] using rev_ind.
  - injection Hv as ->. by rewrite (rep_seg0 _ _ _ _ _ _ _ _ _ _ Hr).
  - rewrite view_last_cons in Hv. injection Hv as ->. rewrite last_snoc.
    by rewrite (rep_sg _ _ _ _ _ _ _ _ _ _ x sx Hr ltac:(set_solver)).
Qed.

Lemma app_cons_assoc {X} (l1 l2 : list X) x : l1 ++ x :: l2 = (l1 ++ [x]) ++ l2.
Proof. by rewrite <- app_assoc. Qed.

(** ** Merging with the neighbours *)

Definition kinds_ok (A : view) : Prop := forall p s, (p, s) ∈ A -> kind_ok p s.

Lemma kind_free p s : kind_ok p s -> vs_type s = VMEM_FREE -> exists a, p = Seg a.
Proof. intros Hk Ht. destruct p; simpl in Hk; rewrite ?Ht in Hk; try done. eauto. Qed.

(** The segment [p] is off the lists; everything else is where it belongs. *)
Record in_flux (vm : vmem) (c : vmem_cfg) (A1 : view) (p : segp) (s : seg) (A2 : view)
    (F H : gmap segp seg) (sp : list segp) (n : nat) (hp : option heap_pub) (u t : Z) : Prop := {
  fx_rep : rep vm c (A1 ++ (p, s) :: A2) F H sp n hp u t;
  fx_F : holds VMEM_FREE F (A1 ++ A2);
  fx_H : holds VMEM_ALLOC H (A1 ++ A2);
  fx_kinds : kinds_ok (A1 ++ A2)
}.

Lemma holds_absent t F A p : holds t F A -> p ∉ A.*1 -> F !! p = None.
Proof.
  intros Hh Hp. destruct (F !! p) eqn:E; [|done]. apply Hh in E as [E _].
  by apply view_in_fst in E.
Qed.

Lemma flux_absent vm c A1 p s A2 F H sp n hp u t :
  in_flux vm c A1 p s A2 F H sp n hp u t ->
  (p ∉ (A1 ++ A2).*1) /\ F !! p = None /\ H !! p = None.
Proof.
  intros [Hr HF HH _]. pose proof (rep_nodup _ _ _ _ _ _ _ _ _ _ Hr) as Hnd.
  rewrite <- Permutation_middle in Hnd. apply NoDup_cons in Hnd as [Hp _].
  split_and!; [exact Hp|by eapply holds_absent..].
Qed.

Lemma flux_nodup vm c A1 p s A2 F H sp n hp u t :
  in_flux vm c A1 p s A2 F H sp n hp u t -> NoDup ((A1 ++ A2).*1).
Proof.
  intros [Hr _ _ _]. pose proof (rep_nodup _ _ _ _ _ _ _ _ _ _ Hr) as Hnd.
  rewrite <- Permutation_middle in Hnd. by apply NoDup_cons in Hnd as [_ Hnd].
Qed.

Lemma flux_upd vm c A1 p s A2 F H sp n hp u t f :
  in_flux vm c A1 p s A2 F H sp n hp u t ->
  in_flux (upd_seg p f vm) c A1 p (f s) A2 F H sp n hp u t.
Proof.
  intros Hx. destruct (flux_absent _ _ _ _ _ _ _ _ _ _ _ _ _ Hx) as (_ & HF & HH).
  destruct Hx. split; try done. by apply rep_upd_seg.
Qed.

Lemma flux_sg vm c A1 p s A2 F H sp n hp u t :
  in_flux vm c A1 p s A2 F H sp n hp u t -> sg vm p = s.
Proof. intros Hx. eapply rep_sg; [apply (fx_rep _ _ _ _ _ _ _ _ _ _ _ _ _ Hx)|set_solver]. Qed.

Lemma flux_next vm c A1 p s a sn A2 F H sp n hp u t :
  in_flux vm c A1 p s ((Seg a, sn) :: A2) F H sp n hp u t -> vs_type sn = VMEM_FREE ->
  in_flux (vmem_seg_destroy (Seg a)
     (upd_seg p (with_end (vs_end sn)) (vmem_freelist_delete (Seg a) vm)))
    c A1 p (with_end (vs_end sn) s) A2 (delete (Seg a) F) H sp (S n) hp u t.
Proof.
  intros Hx Hsn. destruct (flux_absent _ _ _ _ _ _ _ _ _ _ _ _ _ Hx) as (Hp & HFp & HHp).
  destruct Hx as [Hr HF HH Hk].
  assert (HFa : F !! Seg a = Some sn) by (apply HF; set_solver).
  pose proof (rep_nodup _ _ _ _ _ _ _ _ _ _ Hr) as Hnd.
  assert (HHa : H !! Seg a = None).
  { eapply (holds_none _ _ _ _ sn HH); [|set_solver|by rewrite Hsn].
    rewrite <- Permutation_middle in Hnd. apply NoDup_cons in Hnd as [_ Hnd]. exact Hnd. }
  rewrite <- Permutation_middle in HF, HH. rewrite <- !Permutation_middle in Hnd.
  apply NoDup_cons in Hnd as [_ [Ha _]%NoDup_cons].
  split.
  - pose proof (rep_freelist_delete _ _ _ _ _ _ _ _ _ _ _ _ Hr HFa) as Hr1.
    pose proof (rep_upd_seg _ _ _ _ _ _ _ _ _ _ _ _ _ (with_end (vs_end sn)) Hr1) as Hr2.
    rewrite app_cons_assoc in Hr2. rewrite app_cons_assoc.
    apply (rep_seg_destroy _ _ _ _ _ _ _ _ _ _ _ _ sn); [|apply lookup_delete_eq|done].
    apply Hr2; [|done]. rewrite lookup_delete. by case_decide.
  - by eapply holds_uncons.
  - eapply holds_uncons_other; [done|done|by rewrite Hsn].
  - intros x sx Hin. apply Hk. set_solver.
Qed.

Lemma flux_prev vm c A1 a sv x s A2 F H sp n hp u t :
  in_flux vm c (A1 ++ [(Seg a, sv)]) (Seg x) s A2 F H sp n hp u t -> vs_type sv = VMEM_FREE ->
  in_flux (vmem_seg_destroy (Seg x)
     (upd_seg (Seg a) (with_end (vs_end s)) (vmem_freelist_delete (Seg a) vm)))
    c A1 (Seg a) (with_end (vs_end s) sv) A2 (delete (Seg a) F) H sp (S n) hp u t.
Proof.
  intros Hx Hsv. destruct (flux_absent _ _ _ _ _ _ _ _ _ _ _ _ _ Hx) as (Hp & HFp & HHp).
  destruct Hx as [Hr HF HH Hk]. rewrite <- app_assoc in Hr, HF, HH, Hp, Hk. simpl in *.
  assert (HFa : F !! Seg a = Some sv) by (apply HF; set_solver).
  pose proof (rep_nodup _ _ _ _ _ _ _ _ _ _ Hr) as Hnd.
  rewrite <- Permutation_middle in HF, HH. rewrite <- !Permutation_middle in Hnd.
  apply NoDup_cons in Hnd as [Ha0 _].
  assert (Ha : Seg a ∉ (A1 ++ A2).*1) by (intros Hin; apply Ha0; by right).
  assert (Hax : Seg a <> Seg x) by (intros E; rewrite E in HFa; congruence).
  assert (HHa : H !! Seg a = None).
  { destruct (H !! Seg a) as [s'|] eqn:E; [|done]. apply HH in E as [Hin Et].
    apply elem_of_cons in Hin as [Heq|Hin]; [injection Heq as ->; by rewrite Hsv in Et|].
    destruct Ha. by eapply view_in_fst. }
  split.
  - pose proof (rep_freelist_delete _ _ _ _ _ _ _ _ _ _ _ _ Hr HFa) as Hr1.
    pose proof (rep_upd_seg _ _ _ _ _ _ _ _ _ _ _ _ _ (with_end (vs_end s)) Hr1) as Hr2.
    rewrite app_cons_assoc in Hr2. rewrite app_cons_assoc.
    apply (rep_seg_destroy _ _ _ _ _ _ _ _ _ _ _ _ s); [|by rewrite lookup_delete_ne|done].
    apply Hr2; [apply lookup_delete_eq|done].
  - by eapply holds_uncons.
  - eapply holds_uncons_other; [done|done|by rewrite Hsv].
  - intros y sy Hin. apply Hk. set_solver.
Qed.

(** Back on the freelist. *)
Lemma flux_insert vm c A1 a s A2 F H sp n hp u t :
  in_flux vm c A1 (Seg a) s A2 F H sp n hp u t ->
  0 < vs_start s -> vs_start s < vs_end s -> vs_end s < 2 ^ 64 ->
  rep (vmem_freelist_insert (Seg a) vm) c (A1 ++ (Seg a, with_type VMEM_FREE s) :: A2)
    (<[Seg a := with_type VMEM_FREE s]> F) H sp n hp u t /\
  holds VMEM_FREE (<[Seg a := with_type VMEM_FREE s]> F) (A1 ++ (Seg a, with_type VMEM_FREE s) :: A2) /\
  holds VMEM_ALLOC H (A1 ++ (Seg a, with_type VMEM_FREE s) :: A2).
Proof.
  intros Hx H1 H2 H3. destruct (flux_absent _ _ _ _ _ _ _ _ _ _ _ _ _ Hx) as (Hp & HFp & HHp).
  destruct Hx as [Hr HF HH Hk]. split_and!.
  - by apply rep_freelist_insert.
  - rewrite <- Permutation_middle. by apply holds_cons_same.
  - rewrite <- Permutation_middle. by apply holds_cons_other.
Qed.

Lemma spans_of_keys (A : view) p : p ∈ spans_of A -> p ∈ A.*1.
Proof.
  intros ([x sx] & -> & [_ Hin]%list_elem_of_filter)%list_elem_of_fmap. by eapply view_in_fst.
Qed.

(** The whole span goes. *)
Lemma flux_span_destroy vm c B1 sp_ b e i a s A2 F H n hp u t :
  in_flux vm c (B1 ++ [(Seg sp_, Sg b e VMEM_SPAN i)]) (Seg a) s A2 F H
    (Seg0 :: spans_of (B1 ++ (Seg sp_, Sg b e VMEM_SPAN i) :: A2)) n hp u t ->
  VS_SIZE s = e - b ->
  rep (vmem_span_destroy (Seg a) vm) c (B1 ++ A2) F H (Seg0 :: spans_of (B1 ++ A2)) (S (S n))
    (heap_unpublish b e <$> hp) u (t - (e - b)) /\
  holds VMEM_FREE F (B1 ++ A2) /\ holds VMEM_ALLOC H (B1 ++ A2).
Proof.
  intros Hx Hsz. destruct (flux_absent _ _ _ _ _ _ _ _ _ _ _ _ _ Hx) as (Hp & HFp & HHp).
  pose proof (flux_sg _ _ _ _ _ _ _ _ _ _ _ _ _ Hx) as Esg.
  pose proof (flux_nodup _ _ _ _ _ _ _ _ _ _ _ _ _ Hx) as Hnd. destruct Hx as [Hr HF HH Hk].
  pose proof (rep_aprev _ _ _ _ _ _ _ _ _ _ _ _ _ Hr) as Hv. rewrite view_last_cons in Hv.
  injection Hv as Hv. rewrite <- app_assoc in *. simpl in *.
  assert (Esp : sg vm (Seg sp_) = Sg b e VMEM_SPAN i) by (eapply rep_sg; [done|set_solver]).
  pose proof Hnd as Hs. rewrite <- Permutation_middle in Hs. apply NoDup_cons in Hs as [Hs _].
  change (Seg sp_ ∉ (B1 ++ A2).*1) in Hs.
  assert (HFs : F !! Seg sp_ = None) 
    by (eapply (holds_none _ _ _ _ (Sg b e VMEM_SPAN i) HF); [done|set_solver|done]).
  assert (HHs : H !! Seg sp_ = None) 
    by (eapply (holds_none _ _ _ _ (Sg b e VMEM_SPAN i) HH); [done|set_solver|done]).
  split_and!.
  - unfold vmem_span_destroy. rewrite Hv, Esp, Esg, Hsz. simpl.
    apply (rep_seg_destroy _ _ _ _ _ _ _ _ _ _ _ sp_ (Sg b e VMEM_SPAN i)); [|done|done].
    rewrite app_cons_assoc. apply (rep_seg_destroy _ _ _ _ _ _ _ _ _ _ _ a s); [|done|done].
    rewrite <- app_assoc. simpl.
    assert (Hu : unlink (Seg sp_) (Seg0 :: spans_of (B1 ++ (Seg sp_, Sg b e VMEM_SPAN i) :: A2)) =
                 Seg0 :: spans_of (B1 ++ A2)).
    { rewrite !spans_of_app, spans_of_cons, decide_True by done. rewrite !app_comm_cons. apply unlink_app.
      intros [[=]|Hin]%elem_of_cons. apply Hs. rewrite fmap_app. apply elem_of_app. left.
      by apply spans_of_keys. }
    assert (Hfin : forall v, rep v c (B1 ++ (Seg sp_, Sg b e VMEM_SPAN i) :: (Seg a, s) :: A2) F H
        (Seg0 :: spans_of (B1 ++ (Seg sp_, Sg b e VMEM_SPAN i) :: A2)) n (heap_unpublish b e <$> hp) u t ->
      rep (set_spans (unlink (Seg sp_) (vm_spans v)) (kcount vk_mem_total (- (e - b)) v)) c
        (B1 ++ (Seg sp_, Sg b e VMEM_SPAN i) :: (Seg a, s) :: A2) F H
        (Seg0 :: spans_of (B1 ++ A2)) n (heap_unpublish b e <$> hp) u (t - (e - b))).
    { intros v Hv'. rewrite (rp_spans _ _ _ _ _ _ _ _ _ _ Hv'), Hu.
      eapply rep_set_spans. by apply rep_total. }
    apply (rep_set_pub _ _ _ _ _ _ _ _ _ _ (heap_unpublish b e)) in Hr.
    destruct (vs_import (sg _ (Seg a))); [|by apply (Hfin _ Hr)].
    by apply (Hfin (kcount vk_mem_import (- (e - b))
      (set_heap_pub (heap_unpublish b e <$> vm_heap_pub vm) vm))), rep_kcount.
  - rewrite <- Permutation_middle in HF. by eapply holds_uncons_other.
  - rewrite <- Permutation_middle in HH. by eapply holds_uncons_other.
Qed.

(** ** Merging with both neighbours *)

(** The free neighbours of a piece, as the code finds them. *)
Inductive free_head : view -> view -> view -> Prop :=
| fh_none A : next_type A <> VMEM_FREE -> free_head A [] A
| fh_one p s A : vs_type s = VMEM_FREE -> free_head ((p, s) :: A) [(p, s)] A.

Inductive free_tail : view -> view -> view -> Prop :=
| ft_none A : prev_type A <> VMEM_FREE -> free_tail A A []
| ft_one A p s : vs_type s = VMEM_FREE -> free_tail (A ++ [(p, s)]) A [(p, s)].

Lemma free_head_ex A : exists NX A', free_head A NX A'.
Proof.
  destruct A as [|[p s] A]; [by eexists _, _; constructor|].
  destruct (decide (vs_type s = VMEM_FREE)); eexists _, _; [by apply fh_one|by apply fh_none].
Qed.

Lemma free_tail_ex A : exists A' PV, free_tail A A' PV.
Proof.
  destruct A as [|[p s] A _] using rev_ind; [by eexists _, _; constructor|].
  destruct (decide (vs_type s = VMEM_FREE)) as [E|E]; eexists _, _; [by apply ft_one|apply ft_none].
  unfold prev_type. by rewrite last_snoc.
Qed.

Lemma free_head_app A NX A' : free_head A NX A' -> A = NX ++ A'.
Proof. by intros []. Qed.
Lemma free_tail_app A A' PV : free_tail A A' PV -> A = A' ++ PV.
Proof. intros []; [by rewrite app_nil_r|done]. Qed.

(** The merged segment: who represents it and what it covers. *)
Definition merge_end (s : seg) (NX : view) : Z :=
  match NX with [] => vs_end s | (_, sn) :: _ => vs_end sn end.
Definition merge_seg (PV : view) (p : segp) (s : seg) (NX : view) : segp * seg :=
  match PV with
  | [] => (p, with_end (merge_end s NX) s)
  | (pv, sv) :: _ => (pv, with_end (merge_end s NX) sv)
  end.

Lemma sg_freelist_delete p x vm : sg (vmem_freelist_delete p vm) x = sg vm x.
Proof. unfold vmem_freelist_delete. by destruct (_ && _). Qed.

(** The neighbours to merge with are adjacent. *)
Definition adjacent (PV : view) (s : seg) (NX : view) : Prop :=
  Forall (fun v : segp * seg => vs_end v.2 = vs_start s) PV /\
  Forall (fun v : segp * seg => vs_end s = vs_start v.2) NX.

Lemma flux_coalesce_next vm c A1 x s A2 NX A2' F H sp n hp u t :
  in_flux vm c A1 (Seg x) s A2 F H sp n hp u t -> free_head A2 NX A2' ->
  Forall (fun v : segp * seg => vs_end s = vs_start v.2) NX ->
  exists F' vm', coalesce_next (Seg x) vm = Ok vm' /\
    in_flux vm' c A1 (Seg x) (with_end (merge_end s NX) s) A2' F' H sp (n + length NX) hp u t.
Proof.
  intros Hx Hh Hadj. pose proof (fx_rep _ _ _ _ _ _ _ _ _ _ _ _ _ Hx) as Hr.
  unfold coalesce_next. rewrite (rep_next_type _ _ _ _ _ _ _ _ _ _ _ _ _ Hr).
  destruct Hh as [A Hn|p sn A Ht]; simpl.
  - rewrite (proj2 (Z.eqb_neq _ _) Hn), Nat.add_0_r. exists F, vm. by destruct s.
  - rewrite Ht. change (VMEM_FREE =? VMEM_FREE) with true. cbv iota.
    rewrite (rep_anext _ _ _ _ _ _ _ _ _ _ _ _ _ Hr). simpl.
    destruct (kind_free p sn) as [a ->];
      [apply (fx_kinds _ _ _ _ _ _ _ _ _ _ _ _ _ Hx); set_solver|done|].
    assert (Es : vs_end (sg (vmem_freelist_delete (Seg a) vm) (Seg a)) = vs_end sn).
    { rewrite sg_freelist_delete. by rewrite (rep_sg _ _ _ _ _ _ _ _ _ _ (Seg a) sn Hr ltac:(set_solver)). }
    rewrite (flux_sg _ _ _ _ _ _ _ _ _ _ _ _ _ Hx).
    rewrite (rep_sg _ _ _ _ _ _ _ _ _ _ (Seg a) sn Hr ltac:(set_solver)).
    apply Forall_cons in Hadj as [Ha _]. simpl in Ha. rewrite Ha, Z.eqb_refl. cbn [ASSERT res_bind].
    rewrite Es, Nat.add_1_r. eexists _, _. split; [done|]. by apply flux_next.
Qed.

Lemma flux_coalesce_prev vm c A1 A1' PV x s A2 F H sp n hp u t :
  in_flux vm c A1 (Seg x) s A2 F H sp n hp u t -> free_tail A1 A1' PV ->
  Forall (fun v : segp * seg => vs_end v.2 = vs_start s) PV ->
  exists F' a vm', coalesce_prev (Seg x) vm = Ok (Seg a, vm') /\
    (merge_seg PV (Seg x) s []).1 = Seg a /\
    in_flux vm' c A1' (Seg a) (merge_seg PV (Seg x) s []).2 A2 F' H sp (n + length PV) hp u t.
Proof.
  intros Hx Hh Hadj. pose proof (fx_rep _ _ _ _ _ _ _ _ _ _ _ _ _ Hx) as Hr.
  unfold coalesce_prev. rewrite (rep_prev_type _ _ _ _ _ _ _ _ _ _ _ _ _ Hr).
  destruct Hh as [A Hn|A p sv Ht]; simpl.
  - rewrite (proj2 (Z.eqb_neq _ _) Hn), Nat.add_0_r. exists F, x, vm. by destruct s.
  - unfold prev_type. rewrite last_snoc, Ht. change (VMEM_FREE =? VMEM_FREE) with true. cbv iota.
    pose proof (rep_aprev _ _ _ _ _ _ _ _ _ _ _ _ _ Hr) as Hv. rewrite view_last_cons in Hv.
    injection Hv as ->.
    destruct (kind_free p sv) as [a ->];
      [apply (fx_kinds _ _ _ _ _ _ _ _ _ _ _ _ _ Hx); set_solver|done|].
    assert (Es : vs_end (sg (vmem_freelist_delete (Seg a) vm) (Seg x)) = vs_end s).
    { rewrite sg_freelist_delete. by rewrite (rep_sg _ _ _ _ _ _ _ _ _ _ (Seg x) s Hr ltac:(set_solver)). }
    rewrite (flux_sg _ _ _ _ _ _ _ _ _ _ _ _ _ Hx).
    rewrite (rep_sg _ _ _ _ _ _ _ _ _ _ (Seg a) sv Hr ltac:(set_solver)).
    apply Forall_cons in Hadj as [Ha _]. simpl in Ha. rewrite Ha, Z.eqb_refl. cbn [ASSERT res_bind].
    rewrite Es, Nat.add_1_r. eexists _, a, _. split_and!; [done|done|]. by apply flux_prev.
Qed.

(** What the tiling says of the merged segment: its left end, then both. *)
Lemma tile_merge_left q st A1 A1' PV p s l :
  0 < q -> tst_ok q st -> trun q None A1'.*2 st -> vs_type s = VMEM_ALLOC ->
  free_tail A1 A1' PV -> tclosed q st (PV.*2 ++ s :: l) ->
  let m := (merge_seg PV p s []).2 in
  exists B E f, st = Some (B, vs_start m, E, false) /\ 0 < vs_start m /\ vs_start m <= vs_start s /\
    (q | vs_start m) /\ tst_ok q (Some (B, vs_start s, E, f)) /\
    tclosed q (Some (B, vs_start s, E, f)) (s :: l).
Proof.
  intros Hq Hok Hrun Hs Htl Hc m. subst m.
  destruct s as [b e ty i]; simpl in *; subst ty. destruct Htl as [A Hp|A pv sv Ht]; simpl in *.
  - destruct (tile_alloc_inv _ _ _ _ _ _ Hq Hok Hc) as (B & E & f & -> & H0 & H1 & H2 & H3 & H4 & _).
    assert (f = false) as ->.
    { destruct f; [|done]. exfalso. apply trun_flag in Hrun as (l' & s & El & Ht).
      destruct A as [|[x sx] A _] using rev_ind; [by destruct l'|].
      rewrite fmap_app in El. apply app_inj_2 in El as [_ [= <-]]; [|done].
      unfold prev_type in Hp. by rewrite last_snoc in Hp. }
    exists B, E, false. destruct Hok as (? & ? & ? & ? & ? & ?). split_and!; done || lia.
  - destruct sv as [b' e' ty i']; simpl in *; subst ty.
    destruct (tile_free_inv _ _ _ _ _ _ Hq Hok Hc) as (B & E & -> & H0 & H1 & H2 & H3 & H4 & H5 & Hl).
    assert (Hok1 : tst_ok q (Some (B, e', E, true)))
      by (destruct Hok as (? & ? & ? & ? & ? & ?); simpl; split_and!; try done; lia).
    destruct (tile_alloc_inv _ _ _ _ _ _ Hq Hok1 Hl) as (B1 & E1 & f1 & [= <- <- <- <-] & _).
    exists B, E, true. destruct Hok1 as (? & ? & ? & ? & ? & ?). split_and!; done || lia.
Qed.

Lemma merge_seg_start PV p s NX NX' e :
  vs_start (merge_seg PV p (with_end e s) NX).2 = vs_start (merge_seg PV p s NX').2.
Proof. by destruct PV as [|[]]. Qed.

Lemma merge_seg_end PV p s NX : vs_end (merge_seg PV p s NX).2 = merge_end s NX.
Proof. by destruct PV as [|[]]. Qed.

Lemma next_type_free (A : view) x l : next_type A <> VMEM_FREE -> A.*2 = x :: l -> vs_type x <> VMEM_FREE.
Proof. destruct A as [|[p s] A]; simpl; [done|]. by intros H [= <- _]. Qed.

Lemma tile_merge q st A1 A1' PV p s NX A2 A2' :
  0 < q -> tst_ok q st -> trun q None A1'.*2 st -> vs_type s = VMEM_ALLOC ->
  free_tail A1 A1' PV -> free_head A2 NX A2' ->
  tclosed q st (PV ++ (p, s) :: NX ++ A2').*2 ->
  let m := (merge_seg PV p (with_end (roundup (vs_end s) q) s) NX).2 in
  exists B E, st = Some (B, vs_start m, E, false) /\ 0 < vs_start m /\ vs_start m < vs_end m /\
    vs_end m <= E /\ E < 2 ^ 64 /\ (q | vs_start m) /\ (q | vs_end m) /\
    vs_start m <= vs_start s /\ vs_end s <= vs_end m /\
    tclosed q (Some (B, vs_end m, E, true)) A2'.*2.
Proof.
  intros Hq Hok Hrun Hs Htl Hhd Hc m. rewrite fmap_app in Hc. simpl in Hc.
  destruct (tile_merge_left _ _ _ _ _ p _ _ Hq Hok Hrun Hs Htl Hc) as (B & E & f & -> & H0 & H1 & H2 & Hok1 & Hc1).
  assert (Em : vs_start m = vs_start (merge_seg PV p s []).2) by apply merge_seg_start.
  assert (Ee : vs_end m = merge_end (with_end (roundup (vs_end s) q) s) NX) by apply merge_seg_end.
  clearbody m. rewrite <- Em in *. exists B, E.
  destruct s as [b e ty i]; cbn [vs_start vs_end vs_type] in *; subst ty.
  destruct (tile_alloc_inv _ _ _ _ _ _ Hq Hok1 Hc1) as (B1 & E1 & f1 & [= <- <- <-] & G0 & G1 & G2 & G3 & G4 & Hl).
  pose proof (roundup_spec e q Hq) as [Hr1 Hr2].
  destruct Hhd as [A Hn|pn sn A Ht]; simpl in *.
  - rewrite Ee. split_and!; try done; try lia. eapply tclosed_raise; [done|].
    intros x l'. by apply next_type_free.
  - destruct sn as [b' e' ty' i']; simpl in *; subst ty'.
    assert (Hok2 : tst_ok q (Some (B, roundup e q, E, false)))
      by (destruct Hok1 as (? & ? & ? & ? & ? & ?); simpl; split_and!; try done; lia).
    destruct (tile_free_inv _ _ _ _ _ _ Hq Hok2 Hl) as (B2 & E2 & [= <- <- <-] & K0 & K1 & K2 & K3 & K4 & K5 & Hl2).
    rewrite Ee. split_and!; try done; lia.
Qed.

(** ** Dropping a span *)

Lemma next_span_gap A : next_type A = VMEM_SPAN -> exists k, span_gap A k.
Proof.
  destruct A as [|[p s] A]; simpl; intros Ht; [exists Seg0; by left|]. exists p. right. eauto.
Qed.

Lemma pub_ok_unpublish h B1 M B2 sp b e i :
  pub_ok h (B1 ++ (Seg sp, Sg b e VMEM_SPAN i) :: M ++ B2) -> no_spans M -> b < e ->
  spans_disjoint (B1 ++ (Seg sp, Sg b e VMEM_SPAN i) :: M ++ B2) ->
  NoDup ((B1 ++ (Seg sp, Sg b e VMEM_SPAN i) :: M ++ B2).*1) ->
  (forall p s, (p, s) ∈ B1 ++ B2 -> vs_type s = VMEM_SPAN -> vs_start s < vs_end s) ->
  pub_ok (heap_unpublish b e <$> h) (B1 ++ B2).
Proof.
  intros Hp HM Hbe Hd Hnd Hne. destruct h as [h|]; [|done].
  rewrite pub_ok_Some in Hp. rewrite fmap_Some_pub, pub_ok_Some.
  change (vmem_heap_tab (heap_unpublish b e h)) with (span_exec (SpanDestroy b e) (vmem_heap_tab h)).
  replace (span_set (B1 ++ B2)) with
    (spec_exec (SpanDestroy b e) (span_set (B1 ++ (Seg sp, Sg b e VMEM_SPAN i) :: M ++ B2))).
  { by apply (span_exec_refines (SpanDestroy b e)). }
  apply set_eq. intros [b' e']. simpl.
  rewrite elem_of_difference, elem_of_singleton, !elem_of_span_set. split.
  - intros [(p & s & Hin & Ht & <- & <-) Hn]. exists p, s. split_and!; try done.
    pose proof (no_spans_elem M p s HM). set_solver.
  - intros (p & s & Hin & Ht & <- & <-). split; [exists p, s; set_solver|]. intros [= E1 E2].
    specialize (Hne p s Hin Ht).
    assert (Hps : p <> Seg sp).
    { intros ->. rewrite <- Permutation_middle in Hnd. apply NoDup_cons in Hnd as [Hn _].
      apply Hn. apply list_elem_of_fmap. exists (Seg sp, s). set_solver. }
    destruct (Hd p s (Seg sp) (Sg b e VMEM_SPAN i)); simpl in *; try done; [set_solver..|lia|lia].
Qed.

Lemma arena_drop_span vm vm' B1 M B2 n n' sp b e i F H hp u t :
  arena vm (B1 ++ (Seg sp, Sg b e VMEM_SPAN i) :: M ++ B2) n ->
  pub_ok hp (B1 ++ (Seg sp, Sg b e VMEM_SPAN i) :: M ++ B2) ->
  no_spans M -> next_type B2 = VMEM_SPAN ->
  rep vm' (vm_cfg vm) (B1 ++ B2) F H (Seg0 :: spans_of (B1 ++ B2)) n' (heap_unpublish b e <$> hp) u t ->
  holds VMEM_FREE F (B1 ++ B2) -> holds VMEM_ALLOC H (B1 ++ B2) ->
  u = sum_type VMEM_ALLOC (B1 ++ (Seg sp, Sg b e VMEM_SPAN i) :: M ++ B2) - sum_type VMEM_ALLOC M ->
  t = sum_type VMEM_SPAN (B1 ++ (Seg sp, Sg b e VMEM_SPAN i) :: M ++ B2) - (e - b) ->
  arena vm' (B1 ++ B2) n'.
Proof.
  intros Har Hpub HM HB2 Hr HF HH -> ->. pose proof (arena_nodup _ _ _ Har) as Hnd.
  destruct (arena_seg _ _ _ (Seg sp) (Sg b e VMEM_SPAN i) Har) as (Hb & Hbe & He & _); [set_solver|auto|].
  simpl in *. assert (Hsub : forall p s, (p, s) ∈ B1 ++ B2 ->
    (p, s) ∈ B1 ++ (Seg sp, Sg b e VMEM_SPAN i) :: M ++ B2) by set_solver.
  pose proof Har as [_ Hq Ht Hk Hd]. pose proof (rp_cfg _ _ _ _ _ _ _ _ _ _ Hr) as Ec.
  assert (E1 : sum_type VMEM_ALLOC (B1 ++ (Seg sp, Sg b e VMEM_SPAN i) :: M ++ B2) -
    sum_type VMEM_ALLOC M = sum_type VMEM_ALLOC (B1 ++ B2)).
  { rewrite !sum_type_app, sum_type_cons, sum_type_app. change (vs_type _ =? VMEM_ALLOC) with false. cbv iota. lia. }
  assert (E2 : sum_type VMEM_SPAN (B1 ++ (Seg sp, Sg b e VMEM_SPAN i) :: M ++ B2) - (e - b) =
    sum_type VMEM_SPAN (B1 ++ B2)).
  { rewrite !sum_type_app, sum_type_cons, sum_type_app, (no_spans_sum M) by done.
    change (vs_type _ =? VMEM_SPAN) with true. unfold VS_SIZE. simpl. rewrite wsub_small by lia. lia. }
  split; rewrite ?Ec.
  - exists F, H, (heap_unpublish b e <$> hp). split_and!; [|done|done|].
    + by rewrite E1, E2 in Hr.
    + eapply (pub_ok_unpublish hp B1 M); try done.
      intros p s Hin Hs. destruct (arena_seg _ _ _ p s Har) as (_ & ? & _); auto.
  - done.
  - unfold tiled in *. rewrite fmap_app in *. apply tclosed_app in Ht as (st & H1 & H2).
    apply tclosed_app. exists st. split; [done|]. simpl in H2. rewrite fmap_app in H2.
    apply tclosed_cons in H2 as (m & Hs & (m2 & H3 & H4)%tclosed_app).
    destruct (next_span_gap _ HB2) as [k Hg]. pose proof (tile_gap_closed _ _ _ _ Hg H4).
    eapply tile_gap; [done| |done|done]. inversion Hs; subst; [done|].
    exfalso. simpl in *. unfold VMEM_SPAN, VMEM_ROTOR, VMEM_WALKER in *. lia.
  - intros p s Hin. apply Hk. auto.
  - intros p s p' s' Hin Hin'. apply Hd; auto.
Qed.

(** ** vmem_xfree *)

Section xfree.
Context {W : Type} {env : vmem_env W}.
Context (vm : vmem) (w : W) (A1 A2 : view) (n : nat) (x : Z) (s : seg).
Context (A1' PV NX A2' : view).
#[local] Abbreviation q := (vm_quantum (vm_cfg vm)).
#[local] Abbreviation A := (A1 ++ (Seg x, s) :: A2).
#[local] Abbreviation s' := (with_end (roundup (vs_end s) q) s).
#[local] Abbreviation m := (merge_seg PV (Seg x) s' NX).
Hypothesis (Har : arena vm A n) (Hs : vs_type s = VMEM_ALLOC).
Hypothesis (Htl : free_tail A1 A1' PV) (Hhd : free_head A2 NX A2').

Lemma xf_tile :
  exists B E st, trun q None A1'.*2 st /\ st = Some (B, vs_start m.2, E, false) /\
    0 < vs_start m.2 /\ vs_start m.2 < vs_end m.2 /\ vs_end m.2 <= E /\ E < 2 ^ 64 /\
    (q | vs_start m.2) /\ (q | vs_end m.2) /\ vs_start m.2 <= vs_start s /\ vs_end s <= vs_end m.2 /\
    tclosed q (Some (B, vs_end m.2, E, true)) A2'.*2.
Proof.
  pose proof (quantum_pos _ (ar_quantum _ _ _ Har)) as Hq. pose proof (ar_tile _ _ _ Har) as Ht.
  unfold tiled in Ht. rewrite (free_tail_app _ _ _ Htl), (free_head_app _ _ _ Hhd), <- app_assoc in Ht.
  rewrite fmap_app in Ht. apply tclosed_app in Ht as (st & Hrun & Hc).
  assert (Hok : tst_ok q st) by (by eapply (trun_ok _ Hq None)).
  destruct (tile_merge _ _ _ _ _ _ _ _ _ _ Hq Hok Hrun Hs Htl Hhd Hc) as (B & E & ? & ?).
  exists B, E, st. tauto.
Qed.

Lemma xf_adjacent : adjacent PV s' NX.
Proof.
  pose proof (quantum_pos _ (ar_quantum _ _ _ Har)) as Hq. pose proof (ar_tile _ _ _ Har) as Ht.
  unfold tiled in Ht. rewrite (free_tail_app _ _ _ Htl), (free_head_app _ _ _ Hhd), <- app_assoc in Ht.
  rewrite fmap_app in Ht. apply tclosed_app in Ht as (st & Hrun & Hc).
  assert (Hok : tst_ok q st) by (by eapply (trun_ok _ Hq None)).
  rewrite fmap_app in Hc. cbn [fmap list_fmap] in Hc.
  assert (Hpv : forall v, v ∈ PV -> vs_type v.2 = VMEM_FREE /\ PV = [v])
    by (intros v Hv; destruct Htl; [by apply elem_of_nil in Hv|by apply list_elem_of_singleton in Hv as ->]).
  assert (Hnx : forall v, v ∈ NX -> vs_type v.2 = VMEM_FREE /\ NX = [v])
    by (intros v Hv; destruct Hhd; [by apply elem_of_nil in Hv|by apply list_elem_of_singleton in Hv as ->]).
  apply tclosed_app in Hc as (st2 & Hrun2 & Hc).
  assert (Hok2 : tst_ok q st2) by (by eapply (trun_ok _ Hq st)).
  destruct s as [b e ty i]. simpl in Hs. subst ty.
  destruct (tile_alloc_inv _ _ _ _ _ _ Hq Hok2 Hc) as (B & E & f & -> & H0 & H1 & H2 & H3 & H4 & Hl).
  split; apply Forall_forall.
  - intros v Hv. destruct (Hpv v Hv) as [Ht ->]. destruct v as [pv [b' e' ty i']]. simpl in *. subst ty.
    apply trun_cons in Hrun2 as (m1 & Hst & Hm). inversion Hm; subst m1.
    inversion Hst as [| | |? ? [?|?]]; subst; simplify_eq; done.
  - intros v Hv. destruct (Hnx v Hv) as [Ht ->]. destruct v as [pn [b' e' ty i']]. simpl in *. subst ty.
    assert (Hok3 : tst_ok q (Some (B, roundup e q, E, false))).
    { pose proof (roundup_spec e q Hq). destruct Hok2 as (? & ? & ? & ? & ? & ?).
      simpl. split_and!; try done; try lia; tauto. }
    by destruct (tile_free_inv _ _ _ _ _ _ Hq Hok3 Hl) as (? & ? & [= _ <- _] & _).
Qed.

(** After the lookup and both merges. *)
Lemma xf_merged F H hp :
  rep vm (vm_cfg vm) A F H (Seg0 :: spans_of A) n hp (sum_type VMEM_ALLOC A) (sum_type VMEM_SPAN A) ->
  holds VMEM_FREE F A -> holds VMEM_ALLOC H A ->
  exists F' H' a vm1 vm2 vm3, vmem_hash_delete (vs_start s) (VS_SIZE s) vm = Ok (Seg x, vm1) /\
    vm_cfg vm1 = vm_cfg vm /\ m.1 = Seg a /\
    coalesce_next (Seg x)
      (upd_seg (Seg x) (fun s => with_end (P2ROUNDUP (vs_end s) (vm_quantum (vm_cfg vm1))) s) vm1) = Ok vm3 /\
    coalesce_prev (Seg x) vm3 = Ok (Seg a, vm2) /\
    in_flux vm2 (vm_cfg vm) A1' (Seg a) m.2 A2' F' H' (Seg0 :: spans_of A)
      (n + length NX + length PV) hp (sum_type VMEM_ALLOC A - VS_SIZE s) (sum_type VMEM_SPAN A).
Proof.
  intros Hr HF HH. assert (Hin : (Seg x, s) ∈ A) by set_solver.
  pose proof (rep_nodup _ _ _ _ _ _ _ _ _ _ Hr) as Hnd.
  destruct (rep_hash_delete _ _ _ _ _ _ _ _ _ _ (Seg x) s Hr) as (vm1 & Esg & Hr1 & Eh).
  { by apply HH. }
  { intros p' s1 Hp' Est. apply HH in Hp' as [Hin' Ht'].
    eapply (arena_alloc_unique vm _ _ p' s1 (Seg x) s Har); try done; by left. }
  specialize (Eh (VS_SIZE s)). rewrite Z.eqb_refl in Eh.
  pose proof (rp_cfg _ _ _ _ _ _ _ _ _ _ Hr1) as Ec.
  rewrite <- Permutation_middle in HF, HH, Hnd. apply NoDup_cons in Hnd as [Hx _].
  assert (Hflux : in_flux vm1 (vm_cfg vm) A1 (Seg x) s A2 F (delete (Seg x) H)
    (Seg0 :: spans_of A) n hp (sum_type VMEM_ALLOC A - VS_SIZE s) (sum_type VMEM_SPAN A)).
  { split; [done| | |].
    - eapply holds_uncons_other; [done|done|by rewrite Hs].
    - by eapply holds_uncons.
    - intros p t Hpt. apply (ar_kind _ _ _ Har). set_solver. }
  apply (flux_upd _ _ _ _ _ _ _ _ _ _ _ _ _
    (fun s => with_end (P2ROUNDUP (vs_end s) (vm_quantum (vm_cfg vm1))) s)) in Hflux.
  assert (Ee : P2ROUNDUP (vs_end s) (vm_quantum (vm_cfg vm1)) = roundup (vs_end s) q).
  { destruct (ar_quantum _ _ _ Har) as [Hsh Eq].
    destruct (arena_seg _ _ _ _ _ Har Hin ltac:(auto)) as (? & ? & ? & _ & _ & Hlt).
    pose proof (roundup_spec (vs_end s) q (quantum_pos _ (ar_quantum _ _ _ Har))).
    rewrite Ec, Eq, P2ROUNDUP_spec by lia. apply w64_small. unfold is_word. rewrite <- Eq. lia. }
  cbv beta in Hflux. rewrite Ee in Hflux.
  destruct xf_adjacent as [Hpv Hnx].
  destruct (flux_coalesce_next _ _ _ _ _ _ _ _ _ _ _ _ _ _ _ Hflux Hhd Hnx) as (F1 & vm3 & En & Hf1).
  destruct (flux_coalesce_prev _ _ _ _ _ _ _ _ _ _ _ _ _ _ _ Hf1 Htl Hpv) as (F2 & a & vm2 & Ep & Em & Hf2).
  exists F2, (delete (Seg x) H), a, vm1, vm2, vm3. by destruct PV as [|[]].
Qed.

(** The free segment stays in the arena. *)
Lemma xf_keep F H hp a vm2 :
  pub_ok hp A -> m.1 = Seg a ->
  in_flux vm2 (vm_cfg vm) A1' (Seg a) m.2 A2' F H (Seg0 :: spans_of A)
    (n + length NX + length PV) hp (sum_type VMEM_ALLOC A - VS_SIZE s) (sum_type VMEM_SPAN A) ->
  arena (vmem_freelist_insert (Seg a) vm2) (A1' ++ (Seg a, with_type VMEM_FREE m.2) :: A2')
    (n + length NX + length PV).
Proof.
  intros Hpub Hm Hx. destruct xf_tile as (B & E & st & Hrun & -> & H1 & H2 & H3 & H4 & H5 & H6 & _ & _ & Hc).
  destruct (flux_insert _ _ _ _ _ _ _ _ _ _ _ _ _ Hx) as (Hr & HF & HH); [lia..|].
  assert (EA : A = A1' ++ (PV ++ (Seg x, s) :: NX) ++ A2').
  { rewrite (free_tail_app _ _ _ Htl), (free_head_app _ _ _ Hhd), <- !app_assoc. done. }
  pose proof Har as Har'. rewrite EA in Har', Hr, Hpub.
  assert (Hn : no_spans (PV ++ (Seg x, s) :: NX) /\ sum_type VMEM_ALLOC (PV ++ (Seg x, s) :: NX) = VS_SIZE s).
  { unfold no_spans. rewrite spans_of_app, spans_of_cons, sum_type_app, sum_type_cons, Hs.
    destruct Htl as [|? ? ? Ht1], Hhd as [|? ? ? Ht2]; rewrite ?spans_of_cons, ?sum_type_cons, ?Ht1, ?Ht2;
      (split; [done|]); unfold sum_type; simpl; lia. }
  destruct Hn as [Hn1 Hn2].
  eapply (arena_replace vm _ A1' (PV ++ (Seg x, s) :: NX) [(Seg a, with_type VMEM_FREE m.2)] A2' n);
    [done|done|exact Hr|done|done|done|done| | |].
  - rewrite Hn2, sum_type_cons. simpl. change (VMEM_FREE =? VMEM_ALLOC) with false. unfold sum_type. simpl. lia.
  - intros p t [= -> ->]%list_elem_of_singleton. simpl. auto.
  - intros st' Hst' Hrun' Hc'. rewrite <- app_assoc in Hc'. 
    destruct (tile_merge _ _ _ _ _ _ _ _ _ _ (quantum_pos _ (ar_quantum _ _ _ Har)) Hst' Hrun' Hs Htl Hhd Hc')
      as (B1 & E1 & -> & K1 & K2 & K3 & K4 & K5 & K6 & _ & _ & Kc).
    simpl. apply tclosed_cons. eexists. split; [|exact Kc].
    by apply (ts_free q B1 (vs_start m.2) E1 (vs_end m.2) (vs_import m.2)).
Qed.

(** Between two span markers the merged segment is the whole span. *)
Lemma xf_whole :
  prev_type A1' = VMEM_SPAN -> next_type A2' = VMEM_SPAN ->
  exists B1 sp i, A1' = B1 ++ [(Seg sp, Sg (vs_start m.2) (vs_end m.2) VMEM_SPAN i)].
Proof.
  intros Hp Hn. destruct xf_tile as (B & E & st & Hrun & -> & H1 & H2 & H3 & H4 & H5 & H6 & _ & _ & Hc).
  destruct (next_span_gap _ Hn) as [k Hg]. pose proof (tile_gap_closed _ _ _ _ Hg Hc) as Hcl. simpl in Hcl.
  destruct A1' as [|[k' sk] B1 _] eqn:EA using rev_ind; [inversion Hrun|].
  unfold prev_type in Hp. rewrite last_snoc in Hp.
  rewrite fmap_app in Hrun. apply trun_app in Hrun as (m1 & _ & Hm1).
  apply trun_cons in Hm1 as (m2 & Hst & Hm2). inversion Hm2; subst m2. clear Hm2.
  assert (Hk : kind_ok k' sk).
  { apply (ar_kind _ _ _ Har). rewrite (free_tail_app _ _ _ Htl). set_solver. }
  assert (exists sp, k' = Seg sp) as [sp ->].
  { destruct k'; simpl in Hk; rewrite ?Hp in Hk; try done. eauto. }
  exists B1, sp, (vs_import sk). f_equal. f_equal. f_equal.
  rewrite Hcl. destruct sk as [b e ty i]. simpl in *. subst ty.
  inversion Hst as [| | |st0 s0 [Ht|Ht]]; [simplify_eq; congruence|by subst..].
Qed.

Lemma xf_return F H hp a vm2 B1 sp i :
  pub_ok hp A -> m.1 = Seg a -> next_type A2' = VMEM_SPAN ->
  A1' = B1 ++ [(Seg sp, Sg (vs_start m.2) (vs_end m.2) VMEM_SPAN i)] ->
  in_flux vm2 (vm_cfg vm) A1' (Seg a) m.2 A2' F H (Seg0 :: spans_of A)
    (n + length NX + length PV) hp (sum_type VMEM_ALLOC A - VS_SIZE s) (sum_type VMEM_SPAN A) ->
  arena (vmem_span_destroy (Seg a) vm2) (B1 ++ A2') (S (S (n + length NX + length PV))).
Proof.
  intros Hpub Hm Hn EA1 Hx. destruct xf_tile as (B & E & st & Hrun & -> & H1 & H2 & H3 & H4 & H5 & H6 & _ & _ & Hc).
  assert (EA : A = B1 ++ (Seg sp, Sg (vs_start m.2) (vs_end m.2) VMEM_SPAN i) ::
                   (PV ++ (Seg x, s) :: NX) ++ A2').
  { rewrite (free_tail_app _ _ _ Htl), EA1, (free_head_app _ _ _ Hhd), <- !app_assoc. done. }
  assert (Hn' : no_spans (PV ++ (Seg x, s) :: NX) /\ sum_type VMEM_ALLOC (PV ++ (Seg x, s) :: NX) = VS_SIZE s).
  { unfold no_spans. rewrite spans_of_app, spans_of_cons, sum_type_app, sum_type_cons, Hs.
    destruct Htl as [|? ? ? Ht1], Hhd as [|? ? ? Ht2]; rewrite ?spans_of_cons, ?sum_type_cons, ?Ht1, ?Ht2;
      (split; [done|]); unfold sum_type; simpl; lia. }
  destruct Hn' as [Hn1 Hn2].
  assert (Esp : spans_of A = spans_of (B1 ++ (Seg sp, Sg (vs_start m.2) (vs_end m.2) VMEM_SPAN i) :: A2')).
  { rewrite EA, !spans_of_app, !spans_of_cons, spans_of_app, Hn1. done. }
  rewrite EA1, Esp in Hx. apply flux_span_destroy in Hx as (Hr & HF & HH).
  2:{ unfold VS_SIZE. apply wsub_small. lia. }
  pose proof Har as Har'. rewrite EA in Har', Hpub, Hr.
  eapply (arena_drop_span vm _ B1 (PV ++ (Seg x, s) :: NX) A2' n); [done|done|done|done|exact Hr|done|done| |done].
  by rewrite Hn2.
Qed.

Definition xf_returned : bool :=
  vs_import m.2 && vm_source_free (vm_cfg vm) &&
  (prev_type A1' =? VMEM_SPAN) && (next_type A2' =? VMEM_SPAN).

Lemma arena_xfree :
  if xf_returned then
    exists B1 sp i vm',
      A1' = B1 ++ [(Seg sp, Sg (vs_start m.2) (vs_end m.2) VMEM_SPAN i)] /\
      vmem_xfree (vs_start s) (VS_SIZE s) (vm, w) =
        Ok (env_source_free (vs_start m.2) (vs_end m.2 - vs_start m.2) (vm', w)) /\
      arena vm' (B1 ++ A2') (S (S (n + length NX + length PV))) /\ vm_cfg vm' = vm_cfg vm
  else
    exists vm', vmem_xfree (vs_start s) (VS_SIZE s) (vm, w) = Ok (vm', w) /\
      arena vm' (A1' ++ (m.1, with_type VMEM_FREE m.2) :: A2') (n + length NX + length PV) /\
      vm_cfg vm' = vm_cfg vm.
Proof.
  destruct (ar_rep _ _ _ Har) as (F & H & hp & Hr & HF & HH & Hpub).
  destruct (xf_merged _ _ _ Hr HF HH) as (F' & H' & a & vm1 & vm2 & vm3 & Eh & Ec & Em & En & Ep & Hx).
  destruct xf_tile as (B & E & st & Hrun & -> & H1 & H2 & H3 & H4 & H5 & H6 & _ & _ & Hc).
  pose proof (fx_rep _ _ _ _ _ _ _ _ _ _ _ _ _ Hx) as Hr2.
  pose proof (rp_cfg _ _ _ _ _ _ _ _ _ _ Hr2) as Ec2.
  unfold vmem_xfree. rewrite Eh. cbn [res_bind]. rewrite En. cbn [res_bind]. rewrite Ep. cbn [res_bind].
  rewrite (flux_sg _ _ _ _ _ _ _ _ _ _ _ _ _ Hx), Ec2.
  rewrite (rep_prev_type _ _ _ _ _ _ _ _ _ _ _ _ _ Hr2), (rep_next_type _ _ _ _ _ _ _ _ _ _ _ _ _ Hr2).
  fold xf_returned. destruct xf_returned eqn:Eret.
  - unfold xf_returned in Eret. apply andb_true_iff in Eret as [Eret Hn%Z.eqb_eq].
    apply andb_true_iff in Eret as [_ Hp%Z.eqb_eq].
    destruct (xf_whole Hp Hn) as (B1 & sp & i & EA).
    eexists B1, sp, i, _. split_and!; [done| | |].
    + pose proof (rep_aprev _ _ _ _ _ _ _ _ _ _ _ _ _ Hr2) as Hv. rewrite EA, view_last_cons in Hv.
      injection Hv as ->. rewrite (rep_sg _ _ _ _ _ _ _ _ _ _ (Seg sp) (Sg (vs_start m.2) (vs_end m.2) VMEM_SPAN i) Hr2)
        by (rewrite EA; set_solver).
      unfold VS_SIZE. cbn [vs_start vs_end]. rewrite Z.eqb_refl, wsub_small by lia. reflexivity.
    + by eapply xf_return.
    + unfold vmem_span_destroy. by destruct (vs_import _).
  - eexists. split_and!; [done| |done]. rewrite Em. by eapply xf_keep.
Qed.
End xfree.

(** A free of an address that is not the start of an allocation, or with
    another size, stops the program. *)
Lemma arena_xfree_bad {W} {env : vmem_env W} vm w A n addr size :
  arena vm A n -> (forall p s, (p, s) ∈ A -> vs_type s = VMEM_ALLOC -> vs_start s <> addr) ->
  vmem_xfree addr size (vm, w) = Panic "vmem_hash_delete: bad free".
Proof.
  intros Har Hno. destruct (ar_rep _ _ _ Har) as (F & H & hp & Hr & HF & HH & Hpub).
  unfold vmem_xfree. rewrite (rep_hash_absent _ _ _ _ _ _ _ _ _ _ _ _ Hr); [done|].
  intros p s Hp. apply HH in Hp as [Hin Ht]. eauto.
Qed.

Lemma arena_xfree_wrong_size {W} {env : vmem_env W} vm w A n p s size :
  arena vm A n -> (p, s) ∈ A -> vs_type s = VMEM_ALLOC -> VS_SIZE s <> size ->
  vmem_xfree (vs_start s) size (vm, w) = Panic "vmem_hash_delete: wrong size".
Proof.
  intros Har Hin Hs Hsz. destruct (ar_rep _ _ _ Har) as (F & H & hp & Hr & HF & HH & Hpub).
  unfold vmem_xfree.
  destruct (rep_hash_delete _ _ _ _ _ _ _ _ _ _ p s Hr) as (vm1 & _ & _ & Eh); [by apply HH| |].
  - intros p' s' Hp' Est. apply HH in Hp' as [Hin' Ht'].
    eapply (arena_alloc_unique vm _ _ p' s' p s Har); try done; by left.
  - by rewrite Eh, (proj2 (Z.eqb_neq _ _) Hsz).
Qed.
