(* ===== verification/VmemFit.v ===== *)
(** * Placing a request in a free segment

    [xfit] computes, in wrap-around arithmetic, the lowest address of a segment
    that satisfies a constrained request, and reports failure exactly when
    there is none. *)
From S2P Require Import Prelude Machine SpanTable VmemArena VmemTile VmemLists VmemRep VmemWf VmemCarve VmemOps.

(** A request as [vmem_xalloc] accepts it: powers of two for the alignment and
    the boundary, which the allocation with its phase must be able to respect. *)
Record request_ok (size align phase nocross minaddr maxaddr : Z) : Prop := {
  rq_size : 0 < size;
  rq_align : exists k, 0 <= k < 64 /\ align = 2 ^ k;
  rq_phase : 0 <= phase < align;
  rq_nocross : nocross = 0 \/
    (exists j, 0 <= j < 64 /\ nocross = 2 ^ j) /\ (align | nocross) /\ phase + size <= nocross;
  rq_min : is_word minaddr;
  rq_max : is_word maxaddr;
  rq_range : maxaddr = 0 \/ minaddr < maxaddr;
  rq_room : size + align + nocross <= 2 ^ 64
}.

(** [t] satisfies the request inside the segment. *)
Definition fits (size align phase nocross minaddr maxaddr : Z) (vs : seg) (t : Z) : Prop :=
  vs_start vs <= t /\ t + size <= vs_end vs /\ minaddr <= t /\
  (maxaddr <> 0 -> t + size <= maxaddr) /\ t mod align = phase /\
  (nocross <> 0 -> t / nocross = (t + size - 1) / nocross).

(** ** Arithmetic of the macros *)

Lemma lxor_small_iff a b j :
  0 <= a -> 0 <= b -> 0 <= j -> Z.lxor a b < 2 ^ j <-> a / 2 ^ j = b / 2 ^ j.
Proof.
  intros Ha Hb Hj. rewrite <- !Z.shiftr_div_pow2 by done.
  assert (Hx : 0 <= Z.lxor a b) by (apply Z.lxor_nonneg; lia). split.
  - intros Hlt. apply Z.lxor_eq. rewrite <- Z.shiftr_lxor, Z.shiftr_div_pow2 by done.
    apply Z.div_small. lia.
  - intros E. assert (E2 : Z.shiftr (Z.lxor a b) j = 0) by (rewrite Z.shiftr_lxor, E; apply Z.lxor_nilpotent).
    rewrite Z.shiftr_div_pow2 in E2 by done. apply Z.div_small_iff in E2; lia.
Qed.

(** A block crosses a boundary. *)
Lemma P2BOUNDARY_spec off len j :
  0 <= off -> 0 < len -> off + len <= 2 ^ 64 -> 0 <= j < 64 ->
  P2BOUNDARY off len (2 ^ j) = negb (off / 2 ^ j =? (off + len - 1) / 2 ^ j).
Proof.
  intros Ho Hl Hw Hj. unfold P2BOUNDARY. rewrite (wsub_small (2 ^ j)).
  2:{ assert (2 ^ j < 2 ^ 64) by (apply Z.pow_lt_mono_r; lia). lia. }
  assert (E : wsub (wadd off len) 1 = off + len - 1).
  { unfold wsub, wadd, w64. rewrite Zminus_mod_idemp_l. apply Z.mod_small. lia. }
  rewrite E. pose proof (lxor_small_iff off (off + len - 1) j ltac:(lia) ltac:(lia) ltac:(lia)) as Hx.
  destruct (Z.eqb_spec (off / 2 ^ j) ((off + len - 1) / 2 ^ j)) as [Eq|Ne]; simpl.
  - apply Z.ltb_ge. apply Hx in Eq. lia.
  - apply Z.ltb_lt. destruct (Z.lt_ge_cases (Z.lxor off (off + len - 1)) (2 ^ j)); [tauto|lia].
Qed.

Lemma P2BOUNDARY_none off len : 0 <= off < 2 ^ 64 -> P2BOUNDARY off len 0 = false.
Proof.
  intros Ho. unfold P2BOUNDARY. change (wsub 0 1) with (2 ^ 64 - 1). apply Z.ltb_ge.
  assert (Hw : 0 <= wsub (wadd off len) 1 < 2 ^ 64) by apply w64_range.
  assert (is_word (Z.lxor off (wsub (wadd off len) 1))) by (by apply lxor_word).
  unfold is_word in *. lia.
Qed.

(** The lowest address at or above [start] with the wanted phase. *)
Definition phaseup (start align phase : Z) : Z := phase + roundup (start - phase) align.

Lemma phaseup_spec start align phase :
  0 < align -> 0 <= phase < align ->
  start <= phaseup start align phase < start + align /\
  phaseup start align phase mod align = phase.
Proof.
  intros Ha Hp. unfold phaseup. destruct (roundup_spec (start - phase) align Ha) as [H1 [c H2]].
  split; [lia|]. rewrite H2, Z.mod_add by lia. apply Z.mod_small. lia.
Qed.

Lemma phaseup_least start align phase t :
  0 < align -> 0 <= phase < align -> start <= t -> t mod align = phase ->
  phaseup start align phase <= t.
Proof.
  intros Ha Hp Hs Ht. unfold phaseup. pose proof (Z.div_mod t align ltac:(lia)).
  assert (roundup (start - phase) align <= align * (t / align)); [|lia].
  apply roundup_least; [done| |lia]. exists (t / align). lia.
Qed.

(** Where the request goes when it would cross a boundary. *)
Definition nextblock (t nocross phase : Z) : Z := roundup t nocross + phase.

Lemma roundup_nphase T align nocross phase :
  0 < align -> 0 < nocross -> (align | nocross) -> 0 <= phase < align -> T mod align = phase ->
  T + roundup ((- T) mod nocross) align = nextblock T nocross phase.
Proof.
  intros Ha Hn [c Hc] Hp HT. unfold nextblock.
  assert (E1 : roundup T nocross = T + (- T) mod nocross).
  { unfold roundup. pose proof (Z.div_mod (- T) nocross ltac:(lia)). lia. }
  rewrite E1. set (d := (- T) mod nocross).
  assert (Hd : exists k, d = - T + k * align).
  { pose proof (Z.div_mod (- T) nocross ltac:(lia)). exists (- (- T / nocross) * c). unfold d. nia. }
  destruct Hd as [k Hk]. pose proof (Z.div_mod T align ltac:(lia)) as Hdm. rewrite HT in Hdm.
  assert (E2 : roundup d align = d + phase); [|lia].
  assert (Hdiv : (align | d + phase)) by (exists (k - T / align); lia).
  pose proof (roundup_least d align (d + phase) Ha Hdiv ltac:(lia)).
  destruct (roundup_spec d align Ha) as [H1 [e He]]. destruct Hdiv as [f Hf].
  assert (e = f) by nia. lia.
Qed.

Lemma nextblock_bounds T align nocross phase :
  0 < align -> 0 < nocross -> (align | nocross) -> 0 <= phase < align -> T mod align = phase ->
  T <= nextblock T nocross phase <= T + nocross.
Proof.
  intros Ha Hn Hd Hp HT. rewrite <- (roundup_nphase T align) by done.
  pose proof (Z.mod_pos_bound (- T) nocross ltac:(lia)).
  pose proof (roundup_spec ((- T) mod nocross) align Ha).
  pose proof (roundup_least ((- T) mod nocross) align nocross Ha Hd ltac:(lia)). lia.
Qed.

Lemma w64_add_r x y : w64 (x + w64 y) = w64 (x + y).
Proof. apply Zplus_mod_idemp_r. Qed.
Lemma w64_add_l x y : w64 (w64 x + y) = w64 (x + y).
Proof. apply Zplus_mod_idemp_l. Qed.
Lemma w64_sub_l x y : w64 (w64 x - y) = w64 (x - y).
Proof. apply Zminus_mod_idemp_l. Qed.

Lemma P2NPHASE_spec x j : 0 <= j < 64 -> P2NPHASE (w64 x) (2 ^ j) = (- x) mod 2 ^ j.
Proof.
  intros Hj. unfold P2NPHASE. rewrite wneg_w64.
  change (Z.land (w64 (- x)) (wsub (2 ^ j) 1)) with (P2PHASE (w64 (- x)) (2 ^ j)).
  rewrite P2PHASE_spec by done. unfold w64.
  replace (2 ^ 64) with (2 ^ j * 2 ^ (64 - j)) by (rewrite <- Z.pow_add_r by lia; f_equal; lia).
  rewrite Z.rem_mul_r by lia. rewrite Z.mul_comm, Z.mod_add by lia. by rewrite Z.mod_mod by lia.
Qed.

(** A later block with the phase starts after the boundary too. *)
Lemma block_after T t align nocross phase size :
  0 < align -> 0 < nocross -> (align | nocross) -> 0 <= phase < align -> 0 < size <= nocross ->
  T / nocross <> (T + size - 1) / nocross -> t / nocross = (t + size - 1) / nocross ->
  T <= t -> t mod align = phase -> nextblock T nocross phase <= t.
Proof.
  intros Ha Hn [c Hc] Hp Hs HT Ht Hle Hm. unfold nextblock.
  pose proof (Z.div_mod T nocross ltac:(lia)). pose proof (Z.mod_pos_bound T nocross Hn).
  pose proof (Z.div_mod t nocross ltac:(lia)). pose proof (Z.mod_pos_bound t nocross Hn).
  pose proof (Z.div_mod (t + size - 1) nocross ltac:(lia)). pose proof (Z.mod_pos_bound (t + size - 1) nocross Hn).
  set (N := nocross * (T / nocross) + nocross).
  assert (Hcross : N <= T + size - 1).
  { destruct (Z.le_gt_cases N (T + size - 1)); [done|]. destruct HT.
    apply (Z.div_unique_pos _ _ _ (T + size - 1 - nocross * (T / nocross))); lia. }
  assert (HN : roundup T nocross <= N) by (apply roundup_least; [done|exists (T / nocross + 1); lia|lia]).
  assert (HtN : N <= t).
  { destruct (Z.le_gt_cases N t) as [|Hlt]; [done|exfalso].
    assert (t / nocross = T / nocross) by (symmetry; apply (Z.div_unique_pos _ _ _ (t - nocross * (T / nocross))); lia).
    rewrite <- Ht in *. nia. }
  assert (E : (t - N) mod align = phase).
  { rewrite <- Hm. replace N with ((T / nocross + 1) * c * align) by (unfold N; nia).
    rewrite <- (Z.mod_add (t - _) ((T / nocross + 1) * c)) by lia. f_equal. lia. }
  pose proof (Z.mod_le (t - N) align ltac:(lia) ltac:(lia)). lia.
Qed.

(** ** The candidate address *)

Section fit.
Context (size align phase nocross minaddr maxaddr : Z) (vs : seg).
Hypothesis (Hrq : request_ok size align phase nocross minaddr maxaddr).
Hypothesis (Hvs : 0 < vs_start vs) (Hve : vs_start vs < vs_end vs) (Hvw : vs_end vs < 2 ^ 64).

#[local] Abbreviation lo := (Z.max (vs_start vs) minaddr).
#[local] Abbreviation hi := (if maxaddr =? 0 then vs_end vs else Z.min (vs_end vs) maxaddr).
#[local] Abbreviation T := (phaseup lo align phase).

(** The final candidate, in unbounded integers. *)
Definition candidate : Z :=
  if nocross =? 0 then T
  else if T / nocross =? (T + size - 1) / nocross then T else nextblock T nocross phase.

Lemma candidate_fits :
  candidate + size <= hi -> fits size align phase nocross minaddr maxaddr vs candidate.
Proof.
  destruct Hrq as [Hs (k & Hk & Ha) Hp Hn Hmin Hmax Hrange Hroom]. intros Hhi.
  assert (Ha0 : 0 < align) by (rewrite Ha; lia).
  pose proof (phaseup_spec lo align phase Ha0 Hp) as [HT1 HT2].
  assert (Hc : lo <= candidate /\ candidate mod align = phase /\
    (nocross <> 0 -> candidate / nocross = (candidate + size - 1) / nocross)).
  { unfold candidate. destruct (Z.eqb_spec nocross 0) as [->|Hn0]; [split_and!; try done; lia|].
    destruct Hn as [->|((j & Hj & Hnc) & Hd & Hps)]; [done|].
    assert (0 < nocross) by (rewrite Hnc; lia).
    destruct (Z.eqb_spec (T / nocross) ((T + size - 1) / nocross)) as [E|E]; [split_and!; try done; lia|].
    pose proof (nextblock_bounds T align nocross phase Ha0 ltac:(lia) Hd Hp HT2).
    destruct (roundup_spec T nocross ltac:(lia)) as [_ [c Hc]]. destruct Hd as [d Hd].
    split_and!; [lia| |intros _]; unfold nextblock in *; rewrite Hc.
    - rewrite Hd, Z.mul_assoc, Z.add_comm, Z.mod_add by lia. apply Z.mod_small. lia.
    - rewrite <- Z.add_assoc, <- Z.add_sub_assoc. rewrite !Z.div_add_l by lia.
      rewrite !Z.div_small by lia. done. }
  destruct Hc as (H1 & H2 & H3). unfold fits.
  destruct (Z.eqb_spec maxaddr 0); split_and!; try done; lia.
Qed.

Lemma candidate_least t :
  fits size align phase nocross minaddr maxaddr vs t -> candidate <= t /\ t + size <= hi.
Proof.
  destruct Hrq as [Hs (k & Hk & Ha) Hp Hn Hmin Hmax Hrange Hroom].
  intros (F1 & F2 & F3 & F4 & F5 & F6). assert (Ha0 : 0 < align) by (rewrite Ha; lia).
  split; [|destruct (Z.eqb_spec maxaddr 0); lia].
  pose proof (phaseup_least lo align phase t Ha0 Hp ltac:(lia) F5) as HT.
  pose proof (phaseup_spec lo align phase Ha0 Hp) as [HT1 HT2].
  unfold candidate. destruct (Z.eqb_spec nocross 0) as [->|Hn0]; [lia|].
  destruct Hn as [->|((j & Hj & Hnc) & Hd & Hps)]; [done|].
  assert (Hn1 : 0 < nocross) by (rewrite Hnc; lia). specialize (F6 Hn0).
  destruct (Z.eqb_spec (T / nocross) ((T + size - 1) / nocross)) as [E|E]; [lia|].
  apply (block_after T t align nocross phase size); try done; lia.
Qed.

(** ** [xfit] *)

Lemma fit_range :
  (minaddr <= vs_end vs - 1 -> (maxaddr = 0 \/ vs_start vs <= maxaddr - 1) -> lo <= hi) /\
  0 <= lo /\ hi < 2 ^ 64.
Proof.
  destruct Hrq as [Hs _ _ _ Hmin Hmax Hrange Hroom]. unfold is_word in *.
  destruct (Z.eqb_spec maxaddr 0); lia.
Qed.

Lemma xfit_hi :
  (maxaddr = 0 \/ vs_start vs <= maxaddr - 1) ->
  wadd (Z.min (wsub (vs_end vs) 1) (wsub maxaddr 1)) 1 = hi.
Proof.
  intros Hm. pose proof (rq_max _ _ _ _ _ _ Hrq) as Hmax. unfold is_word in *.
  rewrite (wsub_small (vs_end vs)) by lia. destruct (Z.eqb_spec maxaddr 0) as [->|Hne].
  - change (wsub 0 1) with (2 ^ 64 - 1). rewrite wadd_small; lia.
  - rewrite wsub_small by lia. rewrite wadd_small; lia.
Qed.

Lemma xfit_words :
  minaddr <= vs_end vs - 1 -> (maxaddr = 0 \/ vs_start vs <= maxaddr - 1) ->
  xfit size align phase nocross minaddr maxaddr vs =
    if hi <? candidate + size then None else Some (w64 candidate).
Proof.
  intros Hmn Hmx. pose proof fit_range as (Hlh & Hlo & Hhi). specialize (Hlh Hmn Hmx).
  destruct Hrq as [Hs (k & Hk & Ha) Hp Hn Hmin Hmax Hrange Hroom].
  assert (Ha0 : 0 < align) by (rewrite Ha; lia).
  pose proof (phaseup_spec lo align phase Ha0 Hp) as [HT1 HT2].
  assert (ET : P2PHASEUP lo align phase = w64 T) by (rewrite Ha; apply P2PHASEUP_spec; lia).
  unfold xfit. rewrite xfit_hi by done. rewrite ET.
  rewrite (wsub_small (vs_end vs)) by lia. rewrite (proj2 (Z.ltb_ge _ _)) by lia.
  rewrite (proj2 (Z.ltb_ge (wsub maxaddr 1) _)).
  2:{ destruct Hmx as [->|Hmx]; [change (wsub 0 1) with (2 ^ 64 - 1); lia|].
      unfold is_word in *. rewrite wsub_small by lia. lia. }
  assert (Htest : forall X, lo <= X -> X - lo + size < 2 ^ 64 ->
    (if wsub hi lo <? wadd (wsub (w64 X) lo) size then None else Some (w64 X)) =
    if hi <? X + size then None else Some (w64 X)).
  { intros X H1 H2. unfold wsub at 2. rewrite w64_sub_l.
    rewrite (w64_small (X - lo)) by (unfold is_word; lia).
    rewrite (wsub_small hi) by lia. rewrite wadd_small by lia.
    destruct (Z.ltb_spec (hi - lo) (X - lo + size)), (Z.ltb_spec hi (X + size)); lia || done. }
  unfold candidate. destruct Hn as [->|((j & Hj & Hnc) & Hd & Hps)].
  { rewrite P2BOUNDARY_none by apply w64_range. change (0 =? 0) with true. cbv iota. apply (Htest T); lia. }
  assert (Hn1 : 0 < nocross) by (rewrite Hnc; lia).
  pose proof (nextblock_bounds T align nocross phase Ha0 Hn1 Hd Hp HT2) as HN.
  rewrite (proj2 (Z.eqb_neq nocross 0)) by lia.
  assert (EN : wadd (w64 T) (P2ROUNDUP (P2NPHASE (w64 T) nocross) align) = w64 (nextblock T nocross phase)).
  { assert (Hnp : forall x, P2NPHASE (w64 x) nocross = (- x) mod nocross)
      by (intros y; rewrite Hnc; by apply P2NPHASE_spec).
    assert (Hru : forall x, P2ROUNDUP x align = w64 (roundup x align))
      by (intros y; rewrite Ha; apply P2ROUNDUP_spec; lia).
    rewrite Hnp, Hru. unfold wadd. rewrite w64_add_r, w64_add_l. by rewrite (roundup_nphase T align nocross phase). }
  rewrite EN. destruct (Z.le_gt_cases (T + size) (2 ^ 64)) as [Hfit|Hover].
  - rewrite (w64_small T) by (unfold is_word; lia).
    assert (Hpb : forall x, 0 <= x -> x + size <= 2 ^ 64 ->
      P2BOUNDARY x size nocross = negb (x / nocross =? (x + size - 1) / nocross))
      by (intros y ? ?; rewrite Hnc; by apply P2BOUNDARY_spec).
    rewrite Hpb by lia.
    destruct (Z.eqb_spec (T / nocross) ((T + size - 1) / nocross)); simpl.
    + pose proof (Htest T ltac:(lia) ltac:(lia)) as HtT.
      rewrite (w64_small T) in HtT |- * by (unfold is_word; lia). exact HtT.
    + apply Htest; lia.
  - destruct (P2BOUNDARY (w64 T) size nocross); rewrite Htest by lia;
      (rewrite (proj2 (Z.ltb_lt _ _)) by lia);
      destruct (Z.eqb_spec (T / nocross) ((T + size - 1) / nocross));
      by rewrite (proj2 (Z.ltb_lt _ _)) by lia.
Qed.
End fit.

(** What [xfit] computes, for a segment of an arena and a valid request. *)
Lemma xfit_exact size align phase nocross minaddr maxaddr vs :
  request_ok size align phase nocross minaddr maxaddr ->
  0 < vs_start vs -> vs_start vs < vs_end vs -> vs_end vs < 2 ^ 64 ->
  match xfit size align phase nocross minaddr maxaddr vs with
  | Some t => fits size align phase nocross minaddr maxaddr vs t /\
              forall t', fits size align phase nocross minaddr maxaddr vs t' -> t <= t'
  | None => forall t', ~ fits size align phase nocross minaddr maxaddr vs t'
  end.
Proof.
  intros Hrq H1 H2 H3. pose proof (rq_size _ _ _ _ _ _ Hrq). pose proof (rq_max _ _ _ _ _ _ Hrq) as Hmax.
  destruct (Z.lt_ge_cases (vs_end vs - 1) minaddr) as [Hmn|Hmn].
  { unfold xfit. rewrite (wsub_small (vs_end vs)) by lia. rewrite (proj2 (Z.ltb_lt _ _)) by lia.
    intros t' (F1 & F2 & F3 & _). lia. }
  destruct (decide (maxaddr <> 0 /\ maxaddr - 1 < vs_start vs)) as [[Hm0 Hmx]|Hmx].
  { unfold xfit. rewrite (wsub_small (vs_end vs)) by lia. rewrite (proj2 (Z.ltb_ge _ _)) by lia.
    unfold is_word in *. rewrite (wsub_small maxaddr) by lia. rewrite (proj2 (Z.ltb_lt _ _)) by lia.
    intros t' (F1 & F2 & F3 & F4 & _). lia. }
  rewrite xfit_words by (try done; lia).
  set (hi := if maxaddr =? 0 then vs_end vs else Z.min (vs_end vs) maxaddr).
  set (cand := candidate size align phase nocross minaddr vs).
  destruct (Z.ltb_spec hi (cand + size)) as [Hlt|Hle].
  - intros t' Hf. apply (candidate_least _ _ _ _ _ _ _ Hrq) in Hf as [F1 F2]; try done. fold hi in F2. fold cand in F1. lia.
  - assert (Hfit : fits size align phase nocross minaddr maxaddr vs cand) by (by apply candidate_fits).
    assert (E : w64 cand = cand).
    { apply w64_small. destruct Hfit as (F1 & F2 & F3 & _). pose proof (rq_min _ _ _ _ _ _ Hrq).
      unfold is_word in *. lia. }
    rewrite E. split; [done|]. intros t' Hf. by apply (candidate_least _ _ _ _ _ _ _ Hrq) in Hf as [F1 _].
Qed.
