(* ===== verification/VmemSearch.v ===== *)
(** * The freelist search of vmem_xalloc

    [xsearch] walks the chain of freelists, jumping over empty ones with the
    bitmap.  It returns what a plain scan of the chain returns ([xsearch_scan]);
    the plain scan finds a fitting segment if there is one and, for a best-fit
    request, a smallest one. *)
From S2P Require Import Prelude Machine SpanTable VmemArena VmemTile VmemLists VmemRep VmemWf VmemCarve VmemSpan VmemOps VmemFree VmemFit.

(** [vm'] differs from [vm] in the search counter only. *)
Definition searched (vm vm' : vmem) : Prop :=
  exists k, vm' = set_kstat k vm /\ forall c, c <> vk_search -> k c = vm_kstat vm c.

Lemma searched_refl vm : searched vm vm.
Proof. exists (vm_kstat vm). by destruct vm. Qed.

Lemma searched_kcount vm vm' n : searched (kcount vk_search n vm) vm' -> searched vm vm'.
Proof.
  intros (k & -> & Hk). exists k. split; [done|]. intros c Hc. rewrite Hk by done.
  by apply kadd_other.
Qed.

Lemma rep_searched vm vm' c A F H sp n hp u t :
  rep vm c A F H sp n hp u t -> searched vm vm' -> rep vm' c A F H sp n hp u t.
Proof. intros [] (k & -> & Hk). split; simpl; try done; by rewrite Hk. Qed.

Lemma arena_contains_count vm A n : arena vm A n -> arena (kcount vk_contains 1 vm) A n.
Proof.
  intros [(F & H & hp & Hr & HF & HH & Hpub) Hq Ht Hk Hd]. split; try done.
  exists F, H, hp. split_and!; try done. by apply rep_kcount.
Qed.

Lemma arena_searched vm vm' A n : arena vm A n -> searched vm vm' -> arena vm' A n.
Proof.
  intros [(F & H & hp & Hr & HF & HH & Hpub) Hq Ht Hk Hd] Hs.
  pose proof (rep_searched _ _ _ _ _ _ _ _ _ _ _ Hr Hs) as Hr'.
  destruct Hs as (k & -> & _). split; try done. by exists F, H, hp.
Qed.

(** ** The reference scan *)

Section scan.
Context (size align phase nocross minaddr maxaddr vmflag : Z).
#[local] Abbreviation fit := (xfit size align phase nocross minaddr maxaddr).

Fixpoint scan (sgf : segp -> seg) (suf : list segp) (best : option (segp * Z)) : option (segp * Z) :=
  match suf with
  | [] => best
  | Flist _ :: rest => match best with Some _ => best | None => scan sgf rest best end
  | p :: rest =>
      match fit (sgf p) with
      | None => scan sgf rest best
      | Some t =>
          if match best with Some (b, _) => VS_SIZE (sgf b) <=? VS_SIZE (sgf p) | None => false end
          then scan sgf rest best
          else if negb (hasflag vmflag VM_BESTFIT) || (VS_SIZE (sgf p) =? size) then Some (p, t)
          else scan sgf rest (Some (p, t))
      end
  end.

(** The chain from the head of list [i] on. *)
Definition chain_at (fl : list (list segp)) (i : nat) : list segp := chain_from i (drop i fl).

Lemma chain_at_S fl i l : fl !! i = Some l -> chain_at fl i = Flist i :: l ++ chain_at fl (S i).
Proof. intros Hi. unfold chain_at. by rewrite (drop_S _ _ _ Hi). Qed.

Lemma chain_at_split fl i : (i <= length fl)%nat ->
  chain_from 0 fl = chain_from 0 (take i fl) ++ chain_at fl i.
Proof.
  intros Hi. rewrite <- (take_drop i fl) at 1. rewrite chain_from_app, length_take.
  unfold chain_at. by replace (0 + i `min` length fl)%nat with i by lia.
Qed.

Lemma scan_skip sgf fl i j :
  (i <= j)%nat -> (forall x, (i <= x < j)%nat -> fl !! x = Some []) ->
  scan sgf (chain_at fl i) None = scan sgf (chain_at fl j) None.
Proof.
  intros Hij He. induction Hij as [|j Hij IH]; [done|].
  rewrite IH by (intros; apply He; lia). by rewrite (chain_at_S _ _ [] (He j ltac:(lia))).
Qed.

Lemma nodup_split {X} (l1 l2 l1' l2' : list X) x :
  NoDup (l1 ++ x :: l2) -> l1 ++ x :: l2 = l1' ++ x :: l2' -> l1 = l1' /\ l2 = l2'.
Proof.
  revert l1'. induction l1 as [|y l1 IH]; intros [|z l1'] Hnd E; simpl in *.
  - by injection E.
  - injection E as -> E. apply NoDup_cons in Hnd as [Hx _]. rewrite E in Hx. set_solver.
  - injection E as -> E. apply NoDup_cons in Hnd as [Hx _]. set_solver.
  - injection E as -> E. apply NoDup_cons in Hnd as [_ Hnd]. by destruct (IH _ Hnd E) as [-> ->].
Qed.

Lemma chain_nodup k fl : lists_ok fl -> NoDup (chain_from k fl).
Proof.
  revert k. induction fl as [|l fl IH]; intros k [Hnd Hs]; simpl in *; [constructor|].
  apply NoDup_app in Hnd as (Hl & Hd & Hnd).
  assert (Hok : lists_ok fl) by (split; [done|]; intros p Hp; apply Hs; set_solver).
  constructor.
  - intros [Hp|Hp]%elem_of_app; [destruct (Hs (Flist k)); set_solver|].
    apply (head_not_in_chain k (S k) fl); [apply Hok|lia|done].
  - apply NoDup_app. split_and!; [done| |by apply IH].
    intros p Hp. apply not_in_chain; [|by apply Hd]. apply Hs. set_solver.
Qed.
End scan.

(** ** The bitmap finds the next non-empty list *)

Lemma align_bits fm k j :
  0 <= k -> is_word fm -> Z.testbit (P2ALIGN fm (2 ^ k)) j = (k <=? j) && Z.testbit fm j.
Proof.
  intros Hk Hw. rewrite P2ALIGN_spec by done.
  destruct (Z.lt_ge_cases j 0); [rewrite !Z.testbit_neg_r by done; by rewrite andb_false_r|].
  rewrite Z.mul_pow2_bits by done. destruct (Z.leb_spec k j); simpl.
  - rewrite Z.div_pow2_bits by lia. f_equal. lia.
  - apply Z.testbit_neg_r. lia.
Qed.

Lemma lowbit_align fm k :
  0 <= k < 64 -> is_word fm ->
  let f := lowbit (P2ALIGN fm (2 ^ k)) in
  (f = 0 /\ forall j, k <= j -> Z.testbit fm j = false) \/
  (k < f <= 64 /\ Z.testbit fm (f - 1) = true /\ forall j, k <= j < f - 1 -> Z.testbit fm j = false).
Proof.
  intros Hk Hw f. pose proof (align_bits fm k) as Hb.
  assert (Hpos : is_word (P2ALIGN fm (2 ^ k))).
  { apply word_bits.
    - intros j Hj. rewrite Hb by (done || lia). rewrite word_above by done. apply andb_false_r.
    - rewrite P2ALIGN_spec by (done || lia). destruct Hw. pose proof (Z.div_pos fm (2 ^ k)). nia. }
  destruct (Z.eq_dec (P2ALIGN fm (2 ^ k)) 0) as [E|E].
  - left. unfold f. rewrite E. split; [done|]. intros j Hj.
    specialize (Hb j ltac:(lia) Hw). rewrite E, Z.bits_0, (proj2 (Z.leb_le _ _)) in Hb by lia. done.
  - right. unfold is_word in Hpos. destruct (lowbit_spec (P2ALIGN fm (2 ^ k)) ltac:(lia)) as (H1 & H2 & H3).
    fold f in H1, H2, H3. rewrite Hb in H2 by (done || lia). apply andb_true_iff in H2 as [H2%Z.leb_le H2'].
    split_and!; [lia..|done|]. intros j Hj. specialize (H3 j ltac:(lia)).
    rewrite Hb, (proj2 (Z.leb_le _ _)) in H3 by (done || lia). done.
Qed.

Section jump.
Context (segs : gmap segp seg) (flist : list segp) (fm : Z) (F : gmap segp seg) (fl : list (list segp)).
Hypothesis (Hfl : free_rep segs flist fm F fl).

Lemma list_empty i : (i < nlists)%nat -> Z.testbit fm (Z.of_nat i) = false -> fl !! i = Some [].
Proof.
  intros Hi Hb. destruct (free_rep_list _ _ _ _ _ i Hfl Hi) as [l Hl].
  rewrite (fr_map _ _ _ _ _ Hfl _ _ Hl) in Hb. rewrite Hl. f_equal.
  destruct (decide (l = [])); [done|]. rewrite bool_decide_false in Hb by done. done.
Qed.

(** From head [i], the list the bitmap names, or none. *)
Lemma jump_spec i :
  (i < nlists)%nat ->
  let f := lowbit (P2ALIGN fm (VS_SIZE (head_seg i))) in
  (f = 0 /\ forall j, (i <= j < nlists)%nat -> fl !! j = Some []) \/
  (exists j, f = Z.of_nat j + 1 /\ (i <= j < 64)%nat /\ fl !! j <> Some [] /\
     forall x, (i <= x < j)%nat -> fl !! x = Some []).
Proof.
  intros Hi f. pose proof (fr_word _ _ _ _ _ Hfl) as Hw. unfold nlists in *.
  destruct (decide (i = 64%nat)) as [->|Hne].
  - left. assert (E : P2ALIGN fm (VS_SIZE (head_seg 64)) = 0) by apply Z.land_0_r.
    unfold f. rewrite E. split; [done|]. intros j Hj. replace j with 64%nat by lia.
    apply list_empty; [unfold nlists; lia|]. by apply word_above.
  - unfold f. rewrite head_size by lia.
    destruct (lowbit_align fm (Z.of_nat i) ltac:(lia) Hw) as [[E H]|(H1 & H2 & H3)].
    + left. split; [done|]. intros j Hj. apply list_empty; [unfold nlists; lia|]. apply H. lia.
    + right. exists (Z.to_nat (lowbit (P2ALIGN fm (2 ^ Z.of_nat i)) - 1)). split_and!; [lia..| |].
      { intros Hl. rewrite <- (Z2Nat.id (_ - 1)) in H2 by lia.
        by rewrite (fr_map _ _ _ _ _ Hfl _ _ Hl), bool_decide_true in H2. }
      intros x Hx. apply list_empty; [unfold nlists; lia|]. apply H3. lia.
Qed.
End jump.

(** ** The search is the scan *)

Section search.
Context (size align phase nocross minaddr maxaddr vmflag : Z).
Context (F : gmap segp seg) (fl : list (list segp)).
#[local] Abbreviation scan' := (scan size align phase nocross minaddr maxaddr vmflag).

Lemma chain_at_length i j : (i <= j)%nat -> (length (chain_at fl j) <= length (chain_at fl i))%nat.
Proof.
  intros Hij. induction Hij as [|j Hij IH]; [done|]. destruct (fl !! j) as [l|] eqn:E.
  - rewrite (chain_at_S _ _ _ E) in IH. simpl in IH. rewrite length_app in IH. lia.
  - apply lookup_ge_None in E. unfold chain_at. rewrite (drop_ge fl (S j)) by lia. simpl. lia.
Qed.

Lemma chain_at_end i : (length fl <= i)%nat -> chain_at fl i = [].
Proof. intros Hi. unfold chain_at. by rewrite drop_ge. Qed.

(** The part of the chain that starts at head [i]. *)
Lemma chain_head_suffix vm pre i rest :
  free_rep (vm_segs vm) (vm_flist vm) (vm_freemap vm) F fl ->
  vm_flist vm = pre ++ Flist i :: rest -> (i < nlists)%nat -> Flist i :: rest = chain_at fl i.
Proof.
  intros Hfl Ech Hi. destruct (free_rep_list _ _ _ _ _ _ Hfl Hi) as [l Hl].
  rewrite (chain_at_S _ _ _ Hl). f_equal.
  pose proof (chain_nodup 0 fl (fr_lists _ _ _ _ _ Hfl)) as Hnd.
  rewrite (fr_chain _ _ _ _ _ Hfl) in Ech. rewrite Ech in Hnd.
  eapply (nodup_split pre rest _ _ (Flist i) Hnd). rewrite <- Ech.
  rewrite (chain_at_split fl i), (chain_at_S _ _ _ Hl); [done|].
  rewrite (fr_len _ _ _ _ _ Hfl). lia.
Qed.

(** The node after head [j]. *)
Lemma chain_head_next vm j :
  free_rep (vm_segs vm) (vm_flist vm) (vm_freemap vm) F fl -> (j < nlists)%nat ->
  exists pre rest, vm_flist vm = (pre ++ [Flist j]) ++ rest /\ chain_at fl j = Flist j :: rest /\
    lnext (Flist j) (vm_flist vm) = head rest /\
    (fl !! j <> Some [] -> exists p, head rest = Some p /\ is_Some (F !! p)).
Proof.
  intros Hfl Hj. destruct (free_rep_list _ _ _ _ _ _ Hfl Hj) as [l Hl].
  exists (chain_from 0 (take j fl)), (l ++ chain_at fl (S j)).
  pose proof (chain_nodup 0 fl (fr_lists _ _ _ _ _ Hfl)) as Hnd.
  rewrite (fr_chain _ _ _ _ _ Hfl), (chain_at_split fl j), (chain_at_S _ _ _ Hl) in *
    by (rewrite (fr_len _ _ _ _ _ Hfl); lia).
  split_and!; [by rewrite <- app_assoc|done| |].
  - apply lnext_app. apply NoDup_app in Hnd as (_ & Hd & _). intros Hin. apply (Hd _ Hin). by left.
  - intros Hne. destruct l as [|p l]; [done|]. exists p. split; [done|].
    destruct (proj1 (fr_in _ _ _ _ _ Hfl _ _ p Hl) ltac:(by left)) as (s & Hs & _). eauto.
Qed.

Lemma chain_cases vm pre p rest :
  free_rep (vm_segs vm) (vm_flist vm) (vm_freemap vm) F fl -> vm_flist vm = pre ++ p :: rest ->
  (exists i, p = Flist i /\ (i < nlists)%nat /\ sg vm p = head_seg i) \/
  (exists a, p = Seg a /\ vs_start (sg vm p) <> 0 /\ is_Some (F !! p)).
Proof.
  intros Hfl Ech. assert (Hin : p ∈ chain_from 0 fl) by (rewrite <- (fr_chain _ _ _ _ _ Hfl), Ech; set_solver).
  apply elem_of_chain in Hin as [(i & -> & Hi)|(l & Hl & Hp)].
  - left. exists i. rewrite (fr_len _ _ _ _ _ Hfl) in Hi. split_and!; [done|lia|].
    apply lookup_total_correct, (fr_heads _ _ _ _ _ Hfl). lia.
  - right. apply list_elem_of_lookup in Hl as [i Hi].
    pose proof (proj1 (fr_in _ _ _ _ _ Hfl _ _ p Hi) Hp) as (s & Hs & _).
    destruct (free_rep_seg _ _ _ _ _ _ _ Hfl Hs) as [[a ->] _]. exists a.
    destruct (fr_starts _ _ _ _ _ Hfl _ _ Hs) as (s' & Hs' & Hne).
    split_and!; [done| |eauto]. unfold sg. by rewrite (lookup_total_correct _ _ _ Hs').
Qed.

Lemma xsearch_scan fuel vm pre suf best :
  free_rep (vm_segs vm) (vm_flist vm) (vm_freemap vm) F fl ->
  (forall p, is_Some (F !! p) -> vs_type (sg vm p) = VMEM_FREE) ->
  vm_flist vm = pre ++ suf -> (length suf <= fuel)%nat ->
  exists vm', searched vm vm' /\
    xsearch fuel size align phase nocross minaddr maxaddr vmflag vm (head suf) best =
      Some (scan' (sg vm) suf best, vm').
Proof.
  revert vm pre suf best. induction fuel as [|fuel IH]; intros vm pre suf best Hfl Hty Ech Hlen;
    (destruct suf as [|p rest]; [by exists vm; split; [apply searched_refl|]|]); simpl in Hlen; [lia|].
  cbn [head xsearch scan]. set (vm1 := kcount vk_search 1 vm).
  assert (Hnd : NoDup (pre ++ p :: rest)).
  { rewrite <- Ech, (fr_chain _ _ _ _ _ Hfl). apply chain_nodup, Hfl. }
  assert (Hnext : lnext p (vm_flist vm1) = head rest).
  { simpl. rewrite Ech. apply lnext_app. apply NoDup_app in Hnd as (_ & Hd & _).
    intros Hin. apply (Hd _ Hin). by left. }
  assert (Hrec : forall b, exists vm', searched vm vm' /\
    xsearch fuel size align phase nocross minaddr maxaddr vmflag vm1 (head rest) b =
      Some (scan' (sg vm) rest b, vm')).
  { intros b. destruct (IH vm1 (pre ++ [p]) rest b) as (vm' & Hs & E); [done|done| |lia|].
    - rewrite <- app_assoc. done.
    - exists vm'. split; [by eapply searched_kcount|done]. }
  assert (Hdone : searched vm vm1) by (apply (searched_kcount _ _ 1), searched_refl).
  destruct (chain_cases vm pre p rest Hfl Ech) as [(i & -> & Hi & Esg)|(a & -> & Hst & _)].
  - change (sg vm1 (Flist i)) with (sg vm (Flist i)). rewrite Esg.
    change (vs_start (head_seg i) =? 0) with true. cbv iota.
    destruct best as [b|]; [by exists vm1|].
    pose proof (chain_head_suffix _ _ _ _ Hfl Ech Hi) as Esuf.
    assert (Escan : forall j, (i <= j)%nat -> (forall x, (i <= x < j)%nat -> fl !! x = Some []) ->
      scan' (sg vm) rest None = scan' (sg vm) (chain_at fl j) None).
    { intros j Hj He. rewrite <- (scan_skip _ _ _ _ _ _ _ _ fl i j Hj He), <- Esuf. done. }
    destruct (jump_spec _ _ _ _ _ Hfl i Hi) as [[E He]|(j & E & Hj & Hje & He)];
      change (vm_freemap vm1) with (vm_freemap vm); rewrite E.
    + exists vm1. split; [done|]. rewrite (Escan nlists), chain_at_end; [done|..].
      * by rewrite (fr_len _ _ _ _ _ Hfl).
      * lia.
      * done.
    + rewrite (proj2 (Z.eqb_neq _ _)) by lia. replace (Z.of_nat j + 1 - 1) with (Z.of_nat j) by lia.
      rewrite Nat2Z.id. change (vm_flist vm1) with (vm_flist vm).
      destruct (chain_head_next vm j Hfl ltac:(unfold nlists; lia)) as (pre' & rest' & Ech' & Eat & Enx & Hne).
      destruct (Hne Hje) as (p & Ep & Hp). cbv zeta. change (sg vm1) with (sg vm).
      rewrite Enx, Ep. change (default Seg0 (Some p)) with p. rewrite (Hty p Hp), Z.eqb_refl, <- Ep. clear p Ep Hp.
      destruct (IH vm1 _ rest' None Hfl Hty Ech') as (vm' & Hs & ->).
      { pose proof (chain_at_length i j ltac:(lia)) as Hl. rewrite Eat, <- Esuf in Hl. simpl in Hl. lia. }
      exists vm'. split; [by eapply searched_kcount|].
      rewrite (Escan j), Eat by (done || lia). done.
  - change (sg vm1) with (sg vm). rewrite (proj2 (Z.eqb_neq _ _) Hst), Hnext.
    destruct (xfit _ _ _ _ _ _ _) as [t|]; [|apply Hrec].
    destruct (match best with Some _ => _ | None => _ end); [apply Hrec|].
    destruct (_ || _); [by exists vm1|apply Hrec].
Qed.
End search.

(** ** What the scan returns *)

Definition is_seg (p : segp) : Prop := match p with Seg _ => True | _ => False end.

Section scan_spec.
Context (size align phase nocross minaddr maxaddr vmflag : Z) (sgf : segp -> seg).
#[local] Abbreviation fit p := (xfit size align phase nocross minaddr maxaddr (sgf p)).
#[local] Abbreviation scan' := (scan size align phase nocross minaddr maxaddr vmflag sgf).

(** Only heads and pool segments are on the chain. *)
Definition chain_nodes (suf : list segp) : Prop :=
  forall p, p ∈ suf -> is_seg p \/ exists i, p = Flist i.

Lemma chain_nodes_cons p suf : chain_nodes (p :: suf) -> chain_nodes suf.
Proof. intros H x Hx. apply H. by right. Qed.

Lemma scan_sound suf best p t :
  chain_nodes suf -> scan' suf best = Some (p, t) ->
  best = Some (p, t) \/ (p ∈ suf /\ is_seg p /\ fit p = Some t).
Proof.
  revert best. induction suf as [|x suf IH]; intros best Hn; [by left|].
  assert (IH' : forall b, scan' suf b = Some (p, t) ->
    b = Some (p, t) \/ (p ∈ x :: suf /\ is_seg p /\ fit p = Some t)).
  { intros b Hb. destruct (IH b (chain_nodes_cons _ _ Hn) Hb) as [|(? & ?)]; [by left|].
    right. split; [by right|done]. }
  destruct (Hn x ltac:(by left)) as [Hx|[i ->]].
  2:{ cbn [scan]. destruct best; [by left|apply IH']. }
  destruct x as [a| | | |]; try done. cbn [scan]. destruct (fit (Seg a)) as [t'|] eqn:Ef; [|apply IH'].
  destruct (match best with Some _ => _ | None => _ end); [apply IH'|].
  destruct (_ || _).
  - intros [= <- <-]. right. split; [by left|done].
  - intros Hb. destruct (IH' _ Hb) as [[= <- <-]|]; [|by right]. right. split; [by left|done].
Qed.

Lemma scan_keeps suf b : scan' suf (Some b) <> None.
Proof.
  revert b. induction suf as [|x suf IH]; intros [b t]; [done|].
  destruct x; cbn [scan]; try done;
    (destruct (xfit _ _ _ _ _ _ _); [|apply IH]; destruct (_ <=? _); [apply IH|]; destruct (_ || _); [done|apply IH]).
Qed.

Lemma scan_complete suf p :
  chain_nodes suf -> scan' suf None = None -> p ∈ suf -> is_seg p -> fit p = None.
Proof.
  induction suf as [|x suf IH]; intros Hn Hs Hp Hseg; [by apply elem_of_nil in Hp|].
  specialize (IH (chain_nodes_cons _ _ Hn)).
  destruct (Hn x ltac:(by left)) as [Hx|[i ->]].
  2:{ cbn [scan] in Hs. apply elem_of_cons in Hp as [->|Hp]; [done|auto]. }
  destruct x as [a| | | |]; try done. cbn [scan] in Hs. destruct (fit (Seg a)) as [t'|] eqn:Ef.
  - exfalso. destruct (_ || _); [done|]. by apply scan_keeps in Hs.
  - apply elem_of_cons in Hp as [->|Hp]; auto.
Qed.

(** Sizes grow from one freelist to the next. *)
Definition class_sorted (suf : list segp) : Prop :=
  forall l j r p p', suf = l ++ Flist j :: r -> p ∈ l -> p' ∈ r -> is_seg p -> is_seg p' ->
    VS_SIZE (sgf p) <= VS_SIZE (sgf p').

Definition below_heads (b : segp) (suf : list segp) : Prop :=
  forall l j r p', suf = l ++ Flist j :: r -> p' ∈ r -> is_seg p' -> VS_SIZE (sgf b) <= VS_SIZE (sgf p').

Lemma class_sorted_cons x suf :
  class_sorted (x :: suf) -> class_sorted suf /\ (is_seg x -> below_heads x suf).
Proof.
  intros H. split.
  - intros l j r p p' -> Hp Hp'. apply (H (x :: l) j r); [done|by right|done].
  - intros Hx l j r p' -> Hp' Hs. apply (H (x :: l) j r x p'); [done|by left|done..].
Qed.

Lemma below_heads_cons b x suf : below_heads b (x :: suf) -> below_heads b suf.
Proof. intros H l j r p' -> Hp'. by apply (H (x :: l) j r). Qed.

Hypothesis (Hbest : hasflag vmflag VM_BESTFIT = true).

Lemma scan_min suf best p t :
  chain_nodes suf -> class_sorted suf ->
  (forall p t, p ∈ suf -> is_seg p -> fit p = Some t -> size <= VS_SIZE (sgf p)) ->
  (forall b tb, best = Some (b, tb) -> below_heads b suf) ->
  scan' suf best = Some (p, t) ->
  (forall b tb, best = Some (b, tb) -> VS_SIZE (sgf p) <= VS_SIZE (sgf b)) /\
  (forall p' t', p' ∈ suf -> is_seg p' -> fit p' = Some t' -> VS_SIZE (sgf p) <= VS_SIZE (sgf p')).
Proof.
  revert best. induction suf as [|x suf IH]; intros best Hn Hc Hsize Hb Hs.
  { simpl in Hs. split; [intros b tb E; simplify_eq; lia|]. intros p' t' Hp'. by apply elem_of_nil in Hp'. }
  destruct (class_sorted_cons _ _ Hc) as [Hc' Hbx]. pose proof (chain_nodes_cons _ _ Hn) as Hn'.
  assert (Hsize' : forall p t, p ∈ suf -> is_seg p -> fit p = Some t -> size <= VS_SIZE (sgf p))
    by (intros p0 t0 Hp0; apply Hsize; by right).
  assert (Hb' : forall b tb, best = Some (b, tb) -> below_heads b suf)
    by (intros b tb E; eapply below_heads_cons; eauto).
  destruct (Hn x ltac:(by left)) as [Hx|[i ->]].
  - destruct x as [a| | | |]; try done. cbn [scan] in Hs. rewrite Hbest in Hs. simpl in Hs.
    destruct (fit (Seg a)) as [ta|] eqn:Ef.
    2:{ destruct (IH best Hn' Hc' Hsize' Hb' Hs) as [I1 I2]. split; [done|].
        intros p' t' [->|Hp']%elem_of_cons Hseg E; [congruence|eauto]. }
    destruct (match best with Some _ => _ | None => _ end) eqn:Ecmp.
    + destruct best as [[b tb]|]; [|done]. apply Z.leb_le in Ecmp.
      destruct (IH _ Hn' Hc' Hsize' Hb' Hs) as [I1 I2]. split; [done|].
      intros p' t' [->|Hp']%elem_of_cons Hseg E; [|eauto]. specialize (I1 _ _ eq_refl). lia.
    + assert (Hlt : forall b tb, best = Some (b, tb) -> VS_SIZE (sgf (Seg a)) <= VS_SIZE (sgf b)).
      { intros b tb ->. apply Z.leb_gt in Ecmp. lia. }
      destruct (Z.eqb_spec (VS_SIZE (sgf (Seg a))) size) as [Es|Es].
      * injection Hs as <- <-. split; [done|]. intros p' t' Hp' Hseg E. rewrite Es. by eapply Hsize.
      * destruct (IH (Some (Seg a, ta)) Hn' Hc' Hsize' ltac:(intros ? ? ?; simplify_eq; by apply Hbx) Hs) as [I1 I2].
        specialize (I1 _ _ eq_refl). split; [intros b tb E; specialize (Hlt _ _ E); lia|].
        intros p' t' [->|Hp']%elem_of_cons Hseg E; [done|eauto].
  - cbn [scan] in Hs. destruct best as [[b tb]|].
    + injection Hs as <- <-. split; [intros b' tb' ?; simplify_eq; lia|].
      intros p' t' [->|Hp']%elem_of_cons Hseg E; [done|]. by apply (Hb _ _ eq_refl [] i suf).
    + destruct (IH None Hn' Hc' Hsize' ltac:(done) Hs) as [I1 I2]. split; [done|].
      intros p' t' [->|Hp']%elem_of_cons Hseg E; [done|eauto].
Qed.
End scan_spec.
