(* ===== verification/VmemXalloc.v ===== *)
(** * Constrained allocation

    [vmem_xalloc] on a well-formed arena: it takes a free segment that fits,
    the smallest one for a best-fit request; it imports a span when none fits;
    it fails only when none does. *)
From S2P Require Import Prelude Machine SpanTable VmemArena VmemTile VmemLists VmemRep VmemWf VmemCarve VmemSpan VmemOps VmemFree VmemFit VmemSearch.

(** ** Where the search starts *)

(** The lowest size class the search looks at. *)
Definition xlo (size vmflag fm : Z) : Z :=
  if Z.land size (wsub size 1) =? 0 then Z.log2 size
  else if (Z.shiftr fm (highbit size) =? 0) || (highbit size =? VMEM_FREELISTS) ||
          hasflag vmflag (Z.lor VM_BESTFIT VM_FIRSTFIT)
  then Z.log2 size else Z.log2 size + 1.

Lemma log2_word x : 0 < x < 2 ^ 64 -> 0 <= Z.log2 x < 64.
Proof. intros Hx. split; [apply Z.log2_nonneg|]. apply Z.log2_lt_pow2; lia. Qed.

Lemma wshl_pow2 n : 0 <= n < 64 -> wshl 1 n = 2 ^ n.
Proof.
  intros Hn. unfold wshl. rewrite Z.shiftl_1_l. apply w64_small. unfold is_word.
  split; [lia|]. apply Z.pow_lt_mono_r; lia.
Qed.

Lemma xflist_spec size vmflag fm :
  0 < size < 2 ^ 64 ->
  0 <= xlo size vmflag fm < 64 /\ xflist size vmflag fm = lowbit (P2ALIGN fm (2 ^ xlo size vmflag fm)) /\
  Z.log2 size <= xlo size vmflag fm <= Z.log2 size + 1.
Proof.
  intros Hs. pose proof (log2_word _ Hs) as Hl. unfold xlo, xflist.
  destruct (Z.eqb_spec (Z.land size (wsub size 1)) 0) as [E|E].
  - rewrite (pow2_of_land _ Hs E) at 3. split_and!; lia || done.
  - rewrite !highbit_spec by done. unfold VMEM_FREELISTS.
    destruct (_ || hasflag _ _) eqn:Ec.
    + replace (Z.log2 size + 1 - 1) with (Z.log2 size) by lia. rewrite wshl_pow2 by lia.
      split_and!; lia || done.
    + assert (Z.log2 size + 1 <> 64).
      { intros E1. rewrite E1 in Ec. change (64 =? 64) with true in Ec. by rewrite orb_true_r in Ec. }
      rewrite wshl_pow2 by lia. split_and!; lia || done.
Qed.

Lemma xlo_bestfit size vmflag fm :
  hasflag vmflag (Z.lor VM_BESTFIT VM_FIRSTFIT) = true -> xlo size vmflag fm = Z.log2 size.
Proof. intros H. unfold xlo. rewrite H, orb_true_r. by destruct (_ =? _). Qed.

Lemma search_start size align phase nocross minaddr maxaddr vmflag vm F fl lo :
  free_rep (vm_segs vm) (vm_flist vm) (vm_freemap vm) F fl ->
  (forall p, is_Some (F !! p) -> vs_type (sg vm p) = VMEM_FREE) -> 0 <= lo < 64 ->
  let f := lowbit (P2ALIGN (vm_freemap vm) (2 ^ lo)) in
  exists vm', searched vm vm' /\
    xsearch (S (length (vm_flist vm))) size align phase nocross minaddr maxaddr vmflag vm
      (if f =? 0 then None else lnext (Flist (Z.to_nat (f - 1))) (vm_flist vm)) None =
    Some (scan size align phase nocross minaddr maxaddr vmflag (sg vm) (chain_at fl (Z.to_nat lo)) None, vm').
Proof.
  intros Hfl Hty Hlo f. pose proof (fr_word _ _ _ _ _ Hfl) as Hw. pose proof (fr_len _ _ _ _ _ Hfl) as Hlen.
  destruct (jump_spec _ _ _ _ _ Hfl (Z.to_nat lo) ltac:(unfold nlists; lia)) as [[E He]|(j & E & Hj & _ & He)];
    rewrite head_size, Z2Nat.id in E by lia; fold f in E; rewrite E.
  - exists vm. split; [apply searched_refl|]. change (0 =? 0) with true. cbv iota.
    rewrite (scan_skip _ _ _ _ _ _ _ _ _ (Z.to_nat lo) nlists), chain_at_end; [done|lia|unfold nlists; lia|done].
  - rewrite (proj2 (Z.eqb_neq _ _)) by lia. replace (Z.of_nat j + 1 - 1) with (Z.of_nat j) by lia.
    rewrite Nat2Z.id.
    destruct (chain_head_next F fl vm j Hfl ltac:(unfold nlists; lia)) as (pre & rest & Ech & Eat & Enx & _).
    rewrite Enx. rewrite (scan_skip _ _ _ _ _ _ _ _ _ (Z.to_nat lo) j), Eat by (done || lia). cbn [scan].
    eapply xsearch_scan; [done|done|done|]. rewrite Ech, length_app. lia.
Qed.

Lemma rep_free_types vm c A F H sp n hp u t :
  rep vm c A F H sp n hp u t -> holds VMEM_FREE F A ->
  forall p, is_Some (F !! p) -> vs_type (sg vm p) = VMEM_FREE.
Proof.
  intros Hr HF p [s Hs]. apply HF in Hs as [Hin Ht]. by rewrite (rep_sg _ _ _ _ _ _ _ _ _ _ p s Hr Hin).
Qed.

(** ** The segments on the chain from a class on *)

Section chain.
Context (segs : gmap segp seg) (flist : list segp) (fm : Z) (F : gmap segp seg) (fl : list (list segp)).
Hypothesis (Hfl : free_rep segs flist fm F fl).

Lemma chain_at_elem i p :
  is_seg p -> p ∈ chain_at fl i <-> exists s, F !! p = Some s /\ (i <= fclass s)%nat.
Proof.
  intros Hp. unfold chain_at. rewrite elem_of_chain. split.
  - intros [(j & -> & _)|(l & Hl & Hpl)]; [done|]. apply list_elem_of_lookup in Hl as [k Hk].
    rewrite lookup_drop in Hk. apply (fr_in _ _ _ _ _ Hfl _ _ p Hk) in Hpl as (s & Hs & Hc).
    exists s. split; [done|lia].
  - intros (s & Hs & Hi). right. destruct (free_rep_seg _ _ _ _ _ _ _ Hfl Hs) as (_ & l & Hl & Hpl).
    exists l. split; [|done]. apply list_elem_of_lookup. exists (fclass s - i)%nat.
    rewrite lookup_drop. by replace (i + (fclass s - i))%nat with (fclass s) by lia.
Qed.

Lemma chain_at_nodes i : chain_nodes (chain_at fl i).
Proof.
  intros p [(j & -> & _)|(l & Hl & Hpl)]%elem_of_chain; [right; eauto|left].
  apply list_elem_of_lookup in Hl as [k Hk]. rewrite lookup_drop in Hk.
  apply (fr_in _ _ _ _ _ Hfl _ _ p Hk) in Hpl as (s & Hs & _).
  by destruct (free_rep_seg _ _ _ _ _ _ _ Hfl Hs) as [[a ->] _].
Qed.

Lemma chain_at_nodup i : NoDup (chain_at fl i).
Proof.
  apply chain_nodup. destruct (fr_lists _ _ _ _ _ Hfl) as [Hnd Hs].
  rewrite <- (take_drop i fl), concat_app in Hnd, Hs. split.
  - by apply NoDup_app in Hnd as (_ & _ & ?).
  - intros p Hp. apply Hs. set_solver.
Qed.

Lemma chain_at_classes i l j r p :
  chain_at fl i = l ++ Flist j :: r -> is_seg p ->
  (p ∈ r -> exists s, F !! p = Some s /\ (j <= fclass s)%nat) /\
  (p ∈ l -> exists s, F !! p = Some s /\ (fclass s < j)%nat).
Proof.
  intros E Hp. assert (Hj : Flist j ∈ chain_at fl i) by (rewrite E; set_solver).
  apply elem_of_chain in Hj as [(j' & [= <-] & Hj)|(x & Hx & Hpx)].
  2:{ apply list_elem_of_lookup in Hx as [k Hk]. rewrite lookup_drop in Hk.
      apply (fr_in _ _ _ _ _ Hfl _ _ _ Hk) in Hpx as (s & Hs & _).
      by destruct (free_rep_seg _ _ _ _ _ _ _ Hfl Hs) as [[a ?] _]. }
  rewrite length_drop in Hj.
  assert (E2 : chain_at fl i = chain_from i (take (j - i) (drop i fl)) ++ chain_at fl j).
  { unfold chain_at. rewrite <- (take_drop (j - i) (drop i fl)) at 1. rewrite chain_from_app, length_take, drop_drop, length_drop.
    replace (i + (j - i) `min` (length fl - i))%nat with j by lia. by replace (i + (j - i))%nat with j by lia. }
  destruct (lookup_lt_is_Some_2 fl j ltac:(lia)) as [lj Hlj].
  rewrite (chain_at_S fl j lj Hlj) in E2. pose proof (chain_at_nodup i) as Hnd. rewrite E in Hnd, E2.
  destruct (nodup_split _ _ _ _ _ Hnd E2) as [-> ->]. split.
  - intros Hin. apply chain_at_elem; [done|]. rewrite (chain_at_S fl j lj Hlj). by right.
  - intros [(y & -> & _)|(x & Hx & Hpx)]%elem_of_chain; [done|]. apply list_elem_of_lookup in Hx as [k Hk].
    apply lookup_take_Some in Hk as [Hk Hkj]. rewrite lookup_drop in Hk.
    apply (fr_in _ _ _ _ _ Hfl _ _ p Hk) in Hpx as (s & Hs & Hcl). exists s. split; [done|lia].
Qed.
End chain.

(** ** Searching a well-formed arena *)

Section find.
Context (size align phase nocross minaddr maxaddr vmflag : Z).
Hypothesis (Hrq : request_ok size align phase nocross minaddr maxaddr).
#[local] Abbreviation fits' := (fits size align phase nocross minaddr maxaddr).

Lemma request_size : 0 < size < 2 ^ 64.
Proof. destruct Hrq as [H1 (k & Hk & ->) _ Hn _ _ _ Hr]. destruct Hn as [->|[(j & Hj & ->) _]]; lia. Qed.

Lemma fits_size s t : fits' s t -> 0 < vs_start s -> vs_end s < 2 ^ 64 -> size <= VS_SIZE s.
Proof.
  intros (H1 & H2 & _) H3 H4. pose proof request_size. unfold VS_SIZE. rewrite wsub_small; lia.
Qed.

(** What the search finds. *)
Definition found (A : view) (lo : Z) (best : option (segp * Z)) : Prop :=
  match best with
  | Some (p, t) =>
      exists x s, p = Seg x /\ (p, s) ∈ A /\ vs_type s = VMEM_FREE /\ fits' s t /\
        (forall t', fits' s t' -> t <= t') /\
        (hasflag vmflag VM_BESTFIT = true -> forall p' s' t', (p', s') ∈ A ->
           vs_type s' = VMEM_FREE -> fits' s' t' -> VS_SIZE s <= VS_SIZE s')
  | None =>
      forall p s t, (p, s) ∈ A -> vs_type s = VMEM_FREE -> 2 ^ lo <= VS_SIZE s -> ~ fits' s t
  end.

Lemma hasflag_or f a b : hasflag f a = true -> hasflag f (Z.lor a b) = true.
Proof.
  unfold hasflag. rewrite !negb_true_iff, !Z.eqb_neq, Z.land_lor_distr_r. intros H E.
  by apply Z.lor_eq_0_iff in E as [? _].
Qed.

Section in_arena.
Context (vm : vmem) (A : view) (n : nat) (F H : gmap segp seg) (hp : option heap_pub) (fl : list (list segp)).
Hypothesis (Har : arena vm A n).
Hypothesis (Hr : rep vm (vm_cfg vm) A F H (Seg0 :: spans_of A) n hp (sum_type VMEM_ALLOC A) (sum_type VMEM_SPAN A)).
Hypothesis (HF : holds VMEM_FREE F A) (Hfl : free_rep (vm_segs vm) (vm_flist vm) (vm_freemap vm) F fl).
#[local] Abbreviation scan' := (scan size align phase nocross minaddr maxaddr vmflag (sg vm)).

Lemma free_facts p s :
  F !! p = Some s ->
  (p, s) ∈ A /\ vs_type s = VMEM_FREE /\ sg vm p = s /\
  0 < vs_start s /\ vs_start s < vs_end s /\ vs_end s < 2 ^ 64 /\
  Z.of_nat (fclass s) = Z.log2 (VS_SIZE s).
Proof.
  intros Hp. apply HF in Hp as [Hin Ht].
  destruct (arena_seg _ _ _ p s Har Hin) as (H1 & H2 & H3 & _); [auto|].
  destruct (seg_size_class s H1 H2 H3) as (-> & _ & ?). split_and!; try done. by eapply rep_sg.
Qed.

Lemma free_fit p s :
  F !! p = Some s ->
  match xfit size align phase nocross minaddr maxaddr (sg vm p) with
  | Some t => fits' s t /\ forall t', fits' s t' -> t <= t'
  | None => forall t', ~ fits' s t'
  end.
Proof.
  intros Hp. destruct (free_facts _ _ Hp) as (_ & _ & -> & H1 & H2 & H3 & _). by apply xfit_exact.
Qed.

Lemma free_on_chain lo p s :
  0 <= lo -> (p, s) ∈ A -> vs_type s = VMEM_FREE -> 2 ^ lo <= VS_SIZE s ->
  F !! p = Some s /\ is_seg p /\ p ∈ chain_at fl (Z.to_nat lo).
Proof.
  intros Hlo Hin Ht Hsz. assert (Hp : F !! p = Some s) by (by apply HF).
  destruct (free_facts _ _ Hp) as (_ & _ & _ & H1 & H2 & H3 & Hc).
  destruct (free_rep_seg _ _ _ _ _ _ _ Hfl Hp) as [[a ->] _]. split_and!; [done|done|].
  eapply chain_at_elem; [done|done|]. exists s. split; [done|].
  assert (lo <= Z.log2 (VS_SIZE s)); [|lia]. rewrite <- (Z.log2_pow2 lo) by lia. by apply Z.log2_le_mono.
Qed.

Lemma chain_class_sorted i : class_sorted (sg vm) (chain_at fl i).
Proof.
  intros l j r p p' E Hp Hp' Hs Hs'.
  destruct (proj2 (chain_at_classes _ _ _ _ _ Hfl _ _ _ _ _ E Hs) Hp) as (s & HFs & Hc).
  destruct (proj1 (chain_at_classes _ _ _ _ _ Hfl _ _ _ _ _ E Hs') Hp') as (s' & HFs' & Hc').
  destruct (free_facts _ _ HFs) as (_ & _ & -> & _ & _ & _ & El).
  destruct (free_facts _ _ HFs') as (_ & _ & -> & _ & _ & _ & El').
  apply Z.lt_le_incl, Z.log2_lt_cancel. lia.
Qed.

(** The search result is a fitting free segment; under best fit, a smallest one. *)
Lemma scan_found lo p t :
  0 <= lo -> scan' (chain_at fl (Z.to_nat lo)) None = Some (p, t) ->
  exists x s, p = Seg x /\ F !! p = Some s /\ fits' s t /\ (forall t', fits' s t' -> t <= t') /\
    (hasflag vmflag VM_BESTFIT = true -> forall p' s' t', (p', s') ∈ A -> vs_type s' = VMEM_FREE ->
       2 ^ lo <= VS_SIZE s' -> fits' s' t' -> VS_SIZE s <= VS_SIZE s').
Proof.
  intros Hlo Escan. pose proof (chain_at_nodes _ _ _ _ _ Hfl (Z.to_nat lo)) as Hn.
  destruct (scan_sound _ _ _ _ _ _ _ _ _ _ _ _ Hn Escan) as [|(Hin & Hp & Hfit)]; [done|].
  destruct p as [x| | | |]; try done. apply (chain_at_elem _ _ _ _ _ Hfl) in Hin as (s & HFs & _); [|done].
  pose proof (free_fit _ _ HFs) as Hx. rewrite Hfit in Hx. destruct Hx as [Hx1 Hx2].
  exists x, s. split_and!; try done. intros Hb p' s' t' Hin' Ht' Hsz' Hf'.
  destruct (free_on_chain lo p' s' Hlo Hin' Ht' Hsz') as (HFs' & Hseg' & Hch').
  destruct (scan_min _ _ _ _ _ _ _ _ Hb _ None _ _ Hn (chain_class_sorted _)
    ltac:(intros y ty Hy Hsy Hfy; apply (chain_at_elem _ _ _ _ _ Hfl) in Hy as (sy & HFy & _); [|done];
          pose proof (free_fit _ _ HFy) as Hz; rewrite Hfy in Hz; destruct Hz as [Hz _];
          destruct (free_facts _ _ HFy) as (_ & _ & -> & ? & ? & ? & _); by eapply fits_size)
    ltac:(done) Escan) as [_ Hmin].
  pose proof (free_fit _ _ HFs') as Hz.
  destruct (xfit _ _ _ _ _ _ (sg vm p')) as [t2|] eqn:E2; [|by destruct (Hz t')].
  specialize (Hmin p' t2 Hch' Hseg' E2).
  destruct (free_facts _ _ HFs) as (_ & _ & Es & _). destruct (free_facts _ _ HFs') as (_ & _ & Es' & _).
  by rewrite Es, Es' in Hmin.
Qed.
End in_arena.

Lemma arena_search vm A n :
  arena vm A n ->
  let f := xflist size vmflag (vm_freemap vm) in
  exists best vm', searched vm vm' /\
    xsearch (S (length (vm_flist vm))) size align phase nocross minaddr maxaddr vmflag vm
      (if f =? 0 then None else lnext (Flist (Z.to_nat (f - 1))) (vm_flist vm)) None = Some (best, vm') /\
    found A (xlo size vmflag (vm_freemap vm)) best.
Proof.
  intros Har f. destruct (ar_rep _ _ _ Har) as (F & H & hp & Hr & HF & HH & Hpub).
  destruct (rp_free _ _ _ _ _ _ _ _ _ _ Hr) as [fl Hfl].
  pose proof (rep_free_types _ _ _ _ _ _ _ _ _ _ Hr HF) as Hty.
  destruct (xflist_spec size vmflag (vm_freemap vm) request_size) as (Hlo & Ef & Hlog).
  destruct (search_start size align phase nocross minaddr maxaddr vmflag vm F fl _ Hfl Hty Hlo)
    as (vm' & Hs & E). cbv zeta in E. rewrite <- Ef in E. fold f in E.
  set (lo := xlo size vmflag (vm_freemap vm)) in *.
  eexists _, vm'. split_and!; [done|exact E|].
  destruct (scan _ _ _ _ _ _ _ _ _ _) as [[p t]|] eqn:Escan.
  - destruct (scan_found vm A n F H hp fl Har Hr HF Hfl lo p t ltac:(lia) Escan)
      as (x & s & -> & HFs & Hf & Hleast & Hbest).
    apply HF in HFs as [Hin Ht]. exists x, s. split_and!; try done.
    intros Hb p' s' t' Hin' Ht' Hf'. eapply (Hbest Hb p' s' t'); try done.
    assert (lo = Z.log2 size) as -> by (by apply xlo_bestfit, hasflag_or).
    destruct (arena_seg _ _ _ p' s' Har Hin') as (? & ? & ? & _); [auto|].
    pose proof (Z.log2_spec size ltac:(apply request_size)). pose proof (fits_size _ _ Hf'). lia.
  - intros p s t Hin Ht Hsz Hf.
    destruct (free_on_chain vm A n F H hp fl Har Hr HF Hfl lo p s ltac:(lia) Hin Ht Hsz) as (Hp & Hseg & Hch).
    pose proof (scan_complete _ _ _ _ _ _ _ _ _ _ (chain_at_nodes _ _ _ _ _ Hfl _) Escan Hch Hseg) as Hnone.
    pose proof (free_fit vm A n F H hp Har Hr HF _ _ Hp) as Hx. rewrite Hnone in Hx. by apply (Hx t).
Qed.
End find.

(** ** vmem_xalloc *)

(** The parameters are multiples of the arena's quantum. *)
Definition quantum_args (vm : vmem) (align phase nocross : Z) : Prop :=
  (vm_quantum (vm_cfg vm) | align) /\ (vm_quantum (vm_cfg vm) | phase) /\ (vm_quantum (vm_cfg vm) | nocross).

Lemma divide_lor c x y :
  quantum_ok c -> (vm_quantum c | x) -> (vm_quantum c | y) -> (vm_quantum c | Z.lor x y).
Proof.
  intros [Hsh Eq] [i ->] [j ->]. rewrite Eq. rewrite <- !Z.shiftl_mul_pow2 by lia.
  rewrite <- Z.shiftl_lor, Z.shiftl_mul_pow2 by lia. apply Z.divide_factor_r.
Qed.

Section xalloc.
Context {W : Type} {env : vmem_env W}.
Context (size align phase nocross minaddr maxaddr vmflag : Z).
Hypothesis (Hrq : request_ok size align phase nocross minaddr maxaddr).
#[local] Abbreviation fits' := (fits size align phase nocross minaddr maxaddr).
#[local] Abbreviation loop it := (xalloc_loop it size align phase nocross minaddr maxaddr vmflag).
#[local] Abbreviation xalloc it := (vmem_xalloc it size align phase nocross minaddr maxaddr vmflag).

(** A valid request passes the checks. *)
Lemma xalloc_accepts it vm w A n :
  arena vm A n -> quantum_args vm align phase nocross -> vm_mtbf (vm_cfg vm) = 0 ->
  xalloc it (vm, w) = loop it (vm, w).
Proof.
  intros Har (Qa & Qp & Qn) Hm. pose proof (ar_quantum _ _ _ Har) as Hq.
  destruct Hrq as [Hs (k & Hk & Ha) Hp Hn Hmin Hmax Hrange Hroom].
  assert (Ha0 : 0 < align) by (rewrite Ha; lia).
  unfold vmem_xalloc. cbn [fst].
  rewrite (proj2 (Z.leb_gt align phase)) by lia. rewrite andb_false_r.
  rewrite (proj2 (Z.eqb_neq align 0)) by lia.
  rewrite land_quantum by (done || by apply divide_lor). change (negb (0 =? 0)) with false. cbv iota.
  assert (Hg : negb (nocross =? 0) && ((nocross <? align) || (nocross <? P2ROUNDUP (wadd phase size) align)) = false).
  { destruct Hn as [->|((j & Hj & Hnc) & Hd & Hps)]; [done|].
    assert (0 < nocross) by (rewrite Hnc; lia).
    pose proof (Z.divide_pos_le align nocross ltac:(lia) Hd).
    rewrite wadd_small by lia. rewrite Ha at 2. rewrite P2ROUNDUP_spec, <- Ha by lia.
    pose proof (roundup_least (phase + size) align nocross Ha0 Hd Hps).
    pose proof (roundup_spec (phase + size) align Ha0).
    rewrite w64_small by (unfold is_word; lia).
    rewrite !(proj2 (Z.ltb_ge _ _)) by lia. apply andb_false_r. }
  rewrite Hg. unfold mtbf_fails. by rewrite Hm.
Qed.

Lemma phase_quantum q t : (q | align) -> (q | phase) -> 0 < align -> t mod align = phase -> (q | t).
Proof.
  intros Ha Hp H0 Ht. rewrite (Z.div_mod t align), Ht by lia.
  apply Z.divide_add_r; [by apply Z.divide_mul_l|done].
Qed.

Lemma lnext_irrefl (p : segp) l : NoDup l -> lnext p l <> Some p.
Proof.
  induction l as [|y l IH]; [done|]. intros [Hy Hl]%NoDup_cons. simpl. case_decide as Ep; [subst y|by apply IH].
  destruct l as [|z l]; [done|]. simpl. intros [= ->]. set_solver.
Qed.

(** A free segment is not its own successor on the freelists. *)
Lemma arena_knext vm A n p :
  arena vm A n -> negb (bool_decide (lnext p (vm_flist vm) = Some p)) = true.
Proof.
  intros Har. destruct (ar_rep _ _ _ Har) as (F & H & hp & Hr & _).
  destruct (rp_free _ _ _ _ _ _ _ _ _ _ Hr) as [fl Hfl].
  apply negb_true_iff, bool_decide_false. rewrite (fr_chain _ _ _ _ _ Hfl).
  apply lnext_irrefl, chain_nodup, Hfl.
Qed.

(** What is asserted of the address on the way out. *)
Lemma fits_asserts vs t :
  0 < vs_start vs -> vs_end vs < 2 ^ 64 -> fits' vs t ->
  (P2PHASE t align =? phase) = true /\ negb (P2BOUNDARY t size nocross) = true /\
  (minaddr <=? t) = true /\ (wsub (wadd t size) 1 <=? wsub maxaddr 1) = true.
Proof.
  intros H0 He (H1 & H2 & H3 & H4 & H5 & H6).
  destruct Hrq as [Hs (k & Hk & Ha) Hp Hn Hmin Hmax _ _]. split_and!.
  - rewrite Ha, P2PHASE_spec, <- Ha by lia. by apply Z.eqb_eq.
  - destruct Hn as [->|((j & Hj & ->) & _)]; [by rewrite P2BOUNDARY_none by lia|].
    rewrite P2BOUNDARY_spec by lia. rewrite <- H6, Z.eqb_refl by lia. done.
  - by apply Z.leb_le.
  - apply Z.leb_le. rewrite wadd_small, wsub_small by lia.
    destruct (Z.eq_dec maxaddr 0) as [->|Hne]; [change (wsub 0 1) with (2 ^ 64 - 1); lia|].
    unfold is_word in Hmax. rewrite wsub_small by lia. specialize (H4 Hne). lia.
Qed.

(** Taking a free segment the search found. *)
Lemma arena_take vm (w : W) A1 x s A2 n t :
  arena vm (A1 ++ (Seg x, s) :: A2) n -> (2 <= n)%nat -> quantum_args vm align phase nocross ->
  vs_type s = VMEM_FREE -> fits' s t ->
  exists r vm', xalloc_take (Seg x) t size align phase nocross minaddr maxaddr (vm, w) = Ok (Addr t, (vm', w)) /\
    carved vm A1 s A2 n t size (Seg r) vm'.
Proof.
  intros Har Hn (Qa & Qp & _) Ht Hfit. pose proof Hfit as (H1 & H2 & H3 & H4 & H5 & H6).
  destruct Hrq as [Hs (k & Hk & Ha) _ _ _ _ _ _].
  pose proof (quantum_pos _ (ar_quantum _ _ _ Har)) as Hq.
  destruct (arena_seg _ _ _ (Seg x) s Har ltac:(set_solver) ltac:(auto)) as (Hst & _ & Hen & _ & Hqe & _).
  destruct (fits_asserts s t Hst Hen Hfit) as (E1 & E2 & E3 & E4).
  assert (Esg : sg vm (Seg x) = s).
  { destruct (ar_rep _ _ _ Har) as (F & H & hp & Hr & _). eapply rep_sg; [exact Hr|set_solver]. }
  destruct (arena_seg_alloc vm A1 A2 n x s t size Har Ht) as (r & vm' & E & Hc); try done.
  - eapply phase_quantum; [done|done|rewrite Ha; lia|done].
  - apply roundup_least; [done| |done]. apply Hqe. by rewrite Ht.
  - unfold carve_need. repeat case_decide; lia.
  - exists r, vm'. unfold xalloc_take. by rewrite Esg, Ht, (arena_knext _ _ _ _ Har), E, E1, E2, E3, E4.
Qed.

(** With segment structures in stock and a segment that fits, the request is
    served from the arena: at the lowest address of a fitting segment, and of
    a smallest one under best fit. *)
Lemma xalloc_served it vm (w : W) A n :
  arena vm A n -> (Z.to_nat VMEM_MINFREE <= n)%nat -> vm_mtbf (vm_cfg vm) = 0 ->
  quantum_args vm align phase nocross ->
  (exists p s t, (p, s) ∈ A /\ vs_type s = VMEM_FREE /\
     2 ^ xlo size vmflag (vm_freemap vm) <= VS_SIZE s /\ fits' s t) ->
  exists A1 x s A2 t r vm',
    xalloc (S it) (vm, w) = Ok (Addr t, (vm', w)) /\
    A = A1 ++ (Seg x, s) :: A2 /\ vs_type s = VMEM_FREE /\
    fits' s t /\ (forall t', fits' s t' -> t <= t') /\
    (hasflag vmflag VM_BESTFIT = true -> forall p' s' t', (p', s') ∈ A ->
       vs_type s' = VMEM_FREE -> fits' s' t' -> VS_SIZE s <= VS_SIZE s') /\
    carved vm A1 s A2 n t size (Seg r) vm'.
Proof.
  intros Har Hn Hm Hq (p0 & s0 & t0 & Hin0 & Ht0 & Hsz0 & Hf0).
  rewrite (xalloc_accepts _ _ _ _ _ Har Hq Hm). cbn [xalloc_loop].
  destruct (ar_rep _ _ _ Har) as (F & H & hp & Hr & _).
  destruct (rp_n _ _ _ _ _ _ _ _ _ _ Hr) as [_ En]. cbn [fst]. rewrite En.
  rewrite (proj2 (Z.ltb_ge _ _)) by lia. cbv iota. cbn [negb].
  destruct (arena_search _ _ _ _ _ _ vmflag Hrq _ _ _ Har) as (best & vm1 & Hsr & E & Hfound).
  cbv zeta in E. rewrite E. destruct best as [[p t]|]; [|by destruct (Hfound p0 s0 t0)].
  destruct Hfound as (x & s & -> & Hin & Ht & Hf & Hleast & Hbest).
  apply view_split in Hin as (A1 & A2 & ->).
  pose proof (arena_searched _ _ _ _ Har Hsr) as Har1.
  assert (Ecfg : vm_cfg vm1 = vm_cfg vm /\ vm_heap_pub vm1 = vm_heap_pub vm) by (by destruct Hsr as (k & -> & _)).
  destruct Ecfg as [Ec Eh].
  destruct (arena_take vm1 w A1 x s A2 n t Har1) as (r & vm' & Etk & Hc); try done.
  { change (Z.to_nat VMEM_MINFREE) with 8%nat in Hn. lia. }
  { unfold quantum_args. by rewrite Ec. }
  exists A1, x, s, A2, t, r, vm'. split_and!; try done.
  unfold carved in *. by rewrite Ec, Eh in Hc.
Qed.

(** One pass of the loop when nothing on the searched freelists fits. *)
Lemma xalloc_nofit it vm (w : W) A n :
  arena vm A n -> (Z.to_nat VMEM_MINFREE <= n)%nat -> vm_mtbf (vm_cfg vm) = 0 ->
  quantum_args vm align phase nocross ->
  (forall p s t, (p, s) ∈ A -> vs_type s = VMEM_FREE -> ~ fits' s t) ->
  exists vm1, searched vm vm1 /\
    let retry (s : vmem * W) :=
      let s := env_reap s in
      if hasflag vmflag VM_NOSLEEP then xalloc_fail vmflag s
      else loop it (env_wait (kcount vk_wait 1 s.1, s.2)) in
    xalloc (S it) (vm, w) =
      if vm_source_alloc (vm_cfg vm) && (nocross =? 0) && (minaddr =? 0) && (maxaddr =? 0)
      then
        let asize := P2ROUNDUP (wadd size phase) (Z.max align (vm_source_quantum (vm_cfg vm))) in
        if asize <? size then
          if hasflag vmflag VM_NOSLEEP then Ok (Null, (vm1, w))
          else Panic "vmem_xalloc(): overflow on VM_SLEEP allocation"
        else
          let resv := if size =? asize then 2 else 4 in
          do _ <- ASSERT (resv <=? vm_nsegfree vm1) "vm_nsegfree >= resv";
          let '(vaddr, asize, (vm, w)) := xalloc_import asize resv vmflag (vm1, w) in
          if vaddr =? 0 then retry (vm, w)
          else
            do (vbest, vm) <- vmem_span_create vaddr asize true vm;
            xalloc_take vbest (P2PHASEUP (vs_start (sg vm vbest)) align phase) size
              align phase nocross minaddr maxaddr (vm, w)
      else retry (vm1, w).
Proof.
  intros Har Hn Hm Hq Hno. rewrite (xalloc_accepts _ _ _ _ _ Har Hq Hm). cbn [xalloc_loop].
  destruct (ar_rep _ _ _ Har) as (F & H & hp & Hr & _).
  destruct (rp_n _ _ _ _ _ _ _ _ _ _ Hr) as [_ En]. cbn [fst]. rewrite En.
  rewrite (proj2 (Z.ltb_ge _ _)) by lia. cbv iota. cbn [negb].
  destruct (arena_search _ _ _ _ _ _ vmflag Hrq _ _ _ Har) as (best & vm1 & Hsr & E & Hfound).
  cbv zeta in E. rewrite E. destruct best as [[p t]|].
  { destruct Hfound as (x & s & -> & Hin & Ht & Hf & _). by destruct (Hno _ _ _ Hin Ht Hf). }
  exists vm1. split; [done|]. cbv zeta.
  rewrite (proj2 (Z.eqb_neq size 0)) by (pose proof (rq_size _ _ _ _ _ _ Hrq); lia).
  assert (Ec : vm_cfg vm1 = vm_cfg vm) by (by destruct Hsr as (k & -> & _)). rewrite Ec. done.
Qed.
End xalloc.

(** ** Importing from the source *)

Section import.
Context {W : Type} {env : vmem_env W}.
Context (size align phase vmflag : Z).
Hypothesis (Hrq : request_ok size align phase 0 0 0).
Context (vm : vmem) (w w2 : W) (A : view) (n : nat) (vaddr : Z).
#[local] Abbreviation asize := (P2ROUNDUP (wadd size phase) (Z.max align (vm_source_quantum (vm_cfg vm)))).
Hypothesis (Har : arena vm A n) (Hn : (Z.to_nat VMEM_MINFREE <= n)%nat) (Hm : vm_mtbf (vm_cfg vm) = 0).
Hypothesis (Hq : quantum_args vm align phase 0).
Hypothesis (Hno : forall p s t, (p, s) ∈ A -> vs_type s = VMEM_FREE -> ~ fits size align phase 0 0 0 s t).
Hypothesis (Hsrc : vm_source_alloc (vm_cfg vm) = true).
Hypothesis (Hplain : hasflag (vm_cflags (vm_cfg vm)) VMC_XALLOC = false).
Hypothesis (Hbig : size <= asize).
(** The source gives a range, and does not touch the arena. *)
Hypothesis (Hgive : forall vmx, env_source_alloc asize (Z.land vmflag VM_UMFLAGS) (vmx, w) = (vaddr, (vmx, w2))).
Hypothesis (Hva : 0 < vaddr) (Hvw : vaddr + asize < 2 ^ 64).
Hypothesis (Hqv : (vm_quantum (vm_cfg vm) | vaddr)) (Hqz : (vm_quantum (vm_cfg vm) | vaddr + asize)).
Hypothesis (Hfresh : span_fresh A vaddr (vaddr + asize)).
(** The request has room in the span from its first address with the phase. *)
Hypothesis (Hroom : phaseup vaddr align phase + size <= vaddr + asize).

Lemma phaseup_fits :
  fits size align phase 0 0 0 (Sg vaddr (vaddr + asize) VMEM_FREE true) (phaseup vaddr align phase) /\
  P2PHASEUP vaddr align phase = phaseup vaddr align phase.
Proof.
  destruct Hrq as [Hs (k & Hk & Ha) Hp _ _ _ _ _]. assert (Ha0 : 0 < align) by (rewrite Ha; lia).
  destruct (phaseup_spec vaddr align phase Ha0 Hp) as [H1 H2]. split.
  - unfold fits. simpl. split_and!; done || lia.
  - transitivity (w64 (phaseup vaddr align phase)); [|apply w64_small; unfold is_word; lia].
    unfold phaseup. rewrite Ha. apply P2PHASEUP_spec. lia.
Qed.

Lemma xalloc_imports it :
  exists t B1 B2 sp ns r vm1 vm',
    vmem_xalloc (S it) size align phase 0 0 0 vmflag (vm, w) = Ok (Addr t, (vm', w2)) /\
    t = phaseup vaddr align phase /\ A = B1 ++ B2 /\ vm_cfg vm1 = vm_cfg vm /\
    arena vm1 ((B1 ++ [(Seg sp, Sg vaddr (vaddr + asize) VMEM_SPAN false)]) ++
               (Seg ns, Sg vaddr (vaddr + asize) VMEM_FREE true) :: B2) (n - 2) /\
    vm_heap_pub vm1 = heap_publish vaddr (vaddr + asize) <$> vm_heap_pub vm /\
    carved vm1 (B1 ++ [(Seg sp, Sg vaddr (vaddr + asize) VMEM_SPAN false)])
      (Sg vaddr (vaddr + asize) VMEM_FREE true) B2 (n - 2) t size (Seg r) vm'.
Proof.
  destruct (xalloc_nofit _ _ _ _ _ _ vmflag Hrq it vm w A n Har Hn Hm Hq Hno) as (vm1 & Hsr & E).
  pose proof (arena_searched _ _ _ _ Har Hsr) as Har1.
  assert (Ecfg : vm_cfg vm1 = vm_cfg vm /\ vm_heap_pub vm1 = vm_heap_pub vm) by (by destruct Hsr as (k & -> & _)).
  destruct Ecfg as [Ec Eh]. rewrite E, Hsrc. change (0 =? 0) with true. cbn [andb]. cbv zeta.
  rewrite (proj2 (Z.ltb_ge asize size)) by lia.
  assert (Eimp : forall resv, xalloc_import asize resv vmflag (vm1, w) = (vaddr, asize, (vm1, w2))).
  { intros resv. unfold xalloc_import. change (vm_cfg (set_nsegfree _ vm1)) with (vm_cfg vm1).
    rewrite Ec, Hplain, Hgive. f_equal. f_equal. destruct vm1. unfold set_nsegfree. simpl. f_equal. lia. }
  assert (Ers : ASSERT ((if size =? asize then 2 else 4) <=? vm_nsegfree vm1) "vm_nsegfree >= resv" = Ok tt).
  { destruct (ar_rep _ _ _ Har1) as (F1 & H1 & hp1 & Hr1 & _).
    destruct (rp_n _ _ _ _ _ _ _ _ _ _ Hr1) as [_ ->]. change (Z.to_nat VMEM_MINFREE) with 8%nat in Hn.
    apply ASSERT_true, Z.leb_le. destruct (size =? asize); lia. }
  rewrite Ers, Eimp. cbn [res_bind]. rewrite (proj2 (Z.eqb_neq vaddr 0)) by lia.
  change (Z.to_nat VMEM_MINFREE) with 8%nat in Hn. replace n with (S (S (n - 2))) in Har1 by lia.
  assert (0 < asize) by (pose proof (rq_size _ _ _ _ _ _ Hrq); lia).
  destruct (arena_span_create vm1 A (n - 2) vaddr asize true Har1) as
    (B1 & B2 & sp & ns & vm2 & EA & Esp & Har2 & Ec2 & Eh2); [lia|lia|lia|by rewrite Ec..|done|].
  rewrite Esp. cbn [res_bind]. destruct (ar_rep _ _ _ Har2) as (F2 & H2 & hp & Hr & _).
  unfold span_pair in Hr, Har2.
  rewrite (rep_sg _ _ _ _ _ _ _ _ _ _ (Seg ns) (Sg vaddr (vaddr + asize) VMEM_FREE true) Hr) by set_solver.
  destruct phaseup_fits as [Hf Ep]. simpl vs_start. rewrite Ep.
  replace (B1 ++ [(Seg sp, Sg vaddr (vaddr + asize) VMEM_SPAN false);
                  (Seg ns, Sg vaddr (vaddr + asize) VMEM_FREE true)] ++ B2)
    with ((B1 ++ [(Seg sp, Sg vaddr (vaddr + asize) VMEM_SPAN false)]) ++
          (Seg ns, Sg vaddr (vaddr + asize) VMEM_FREE true) :: B2) in Har2 by (by rewrite <- app_assoc).
  destruct (arena_take size align phase 0 0 0 Hrq vm2 w2 _ ns _ B2 (n - 2) _ Har2 ltac:(lia)
    ltac:(unfold quantum_args; by rewrite Ec2, Ec) eq_refl Hf) as (r & vm' & Etk & Hc).
  exists (phaseup vaddr align phase), B1, B2, sp, ns, r, vm2, vm'. split_and!; try done.
  - by rewrite Ec2.
  - by rewrite Eh2, Eh.
Qed.
End import.
