(* ===== verification/VmemSpec.v ===== *)
(** * What an arena promises

    The contract of an arena: a set of spans and, inside them, a set of
    pairwise disjoint allocated ranges.  The operations of vmem.c refine it:
    allocation adds a range that overlaps no other, free removes exactly the
    range it names, a span comes and goes as a whole. *)
From S2P Require Import Prelude Machine SpanTable VmemArena VmemTile VmemLists VmemRep VmemWf VmemCarve VmemSpan VmemOps VmemFree VmemFit VmemSearch VmemXalloc.

#[local] Opaque vmem_span_table_insert vmem_span_table_remove.

Definition range := (Z * Z)%type.

Definition overlap (r r' : range) : Prop := r.1 < r'.2 /\ r'.1 < r.2.

Record vspec := VSpec { sp_spans : gset range; sp_allocs : gset range }.

Inductive vstep : vspec -> vspec -> Prop :=
| v_alloc S X b e t u :
    (b, e) ∈ S -> b <= t -> t < u -> u <= e -> (forall r, r ∈ X -> ~ overlap (t, u) r) ->
    vstep (VSpec S X) (VSpec S ({[(t, u)]} ∪ X))
| v_free S X t u :
    (t, u) ∈ X -> vstep (VSpec S X) (VSpec S (X ∖ {[(t, u)]}))
| v_add S X b e :
    b < e -> (forall r, r ∈ S -> ~ overlap (b, e) r) -> vstep (VSpec S X) (VSpec ({[(b, e)]} ∪ S) X)
| v_return S X b e :
    (b, e) ∈ S -> (forall r, r ∈ X -> ~ overlap (b, e) r) -> vstep (VSpec S X) (VSpec (S ∖ {[(b, e)]}) X).

(** Zero or more steps. *)
Inductive vsteps : vspec -> vspec -> Prop :=
| vs_nil s : vsteps s s
| vs_cons s1 s2 s3 : vstep s1 s2 -> vsteps s2 s3 -> vsteps s1 s3.

Lemma vsteps_one s s' : vstep s s' -> vsteps s s'.
Proof. intros H. econstructor; [done|constructor]. Qed.

Lemma vsteps_app s1 s2 s3 : vsteps s1 s2 -> vsteps s2 s3 -> vsteps s1 s3.
Proof. induction 1; intros; [done|]. econstructor; eauto. Qed.

(** The contract's invariant: every allocation lies in a span and overlaps no other. *)
Definition vspec_ok (s : vspec) : Prop :=
  (forall r, r ∈ sp_allocs s -> r.1 < r.2 /\ exists R, R ∈ sp_spans s /\ R.1 <= r.1 /\ r.2 <= R.2) /\
  (forall r r', r ∈ sp_allocs s -> r' ∈ sp_allocs s -> r <> r' -> ~ overlap r r') /\
  (forall R R', R ∈ sp_spans s -> R' ∈ sp_spans s -> R <> R' -> ~ overlap R R').

Lemma vstep_ok s s' : vspec_ok s -> vstep s s' -> vspec_ok s'.
Proof.
  intros (H1 & H2 & H3) Hs. destruct Hs as [S X b e t u Hin Hb Ht He Hd|S X t u Hin|S X b e Hbe Hd|S X b e Hin Hd];
    unfold vspec_ok in *; simpl in *; split_and!.
  - intros r [->%elem_of_singleton|Hr]%elem_of_union; [|by apply H1]. split; [done|]. by exists (b, e).
  - intros r r' [->%elem_of_singleton|Hr]%elem_of_union [->%elem_of_singleton|Hr']%elem_of_union Hne;
      [done|by apply Hd| |by apply H2]. intros [O1 O2]. by apply (Hd r Hr).
  - done.
  - intros r [Hr _]%elem_of_difference. by apply H1.
  - intros r r' [Hr _]%elem_of_difference [Hr' _]%elem_of_difference. by apply H2.
  - done.
  - intros r Hr. destruct (H1 r Hr) as (? & R & HR & ?). split; [done|]. exists R. set_solver.
  - done.
  - intros R R' [->%elem_of_singleton|HR]%elem_of_union [->%elem_of_singleton|HR']%elem_of_union Hne;
      [done|by apply Hd| |by apply H3]. intros [O1 O2]. by apply (Hd R HR).
  - intros r Hr. destruct (H1 r Hr) as (Hlt & R & HR & Hlo & Hhi). split; [done|].
    exists R. split; [|done]. apply elem_of_difference. split; [done|]. intros ->%elem_of_singleton.
    apply (Hd r Hr). simpl in *. split; simpl; lia.
  - done.
  - intros R R' [HR _]%elem_of_difference [HR' _]%elem_of_difference. by apply H3.
Qed.

(** ** The refinement relation *)

Definition alloc_set (A : view) : gset range :=
  list_to_set ((fun ps => (vs_start ps.2, vs_end ps.2)) <$>
               filter (fun ps => vs_type ps.2 = VMEM_ALLOC) A).

Definition abs (A : view) : vspec := VSpec (span_set A) (alloc_set A).

Definition refines (vm : vmem) (s : vspec) : Prop := exists A n, arena vm A n /\ s = abs A.

Lemma elem_of_alloc_set A b e :
  (b, e) ∈ alloc_set A <->
  exists p s, (p, s) ∈ A /\ vs_type s = VMEM_ALLOC /\ vs_start s = b /\ vs_end s = e.
Proof.
  unfold alloc_set. rewrite elem_of_list_to_set, list_elem_of_fmap. split.
  - intros ([p s] & [= -> ->] & Hin). apply list_elem_of_filter in Hin as [? ?]. naive_solver.
  - intros (p & s & ? & ? & <- & <-). exists (p, s). split; [done|]. by apply list_elem_of_filter.
Qed.

(** Every piece lies in a span of the arena. *)
Lemma arena_piece_span vm A n p s :
  arena vm A n -> (p, s) ∈ A -> piece s ->
  exists k sp, (k, sp) ∈ A /\ vs_type sp = VMEM_SPAN /\ vs_start sp <= vs_start s /\ vs_end s <= vs_end sp.
Proof.
  intros Har Hin Hp. pose proof (quantum_pos _ (ar_quantum _ _ _ Har)) as Hq.
  destruct (ar_tile _ _ _ Har) as (st & Hrun & _).
  destruct (trun_piece _ Hq None _ _ s I Hrun (elem_of_snd _ _ _ Hin) Hp)
    as [(? & ? & ? & ? & [=] & _)|(sp & Hsp & Ht & H1 & H2)].
  apply elem_of_snd_inv in Hsp as [k Hk]. by exists k, sp.
Qed.

Lemma arena_spec_ok vm A n : arena vm A n -> vspec_ok (abs A).
Proof.
  intros Har. split_and!; simpl.
  - intros [b e] (p & s & Hin & Ht & <- & <-)%elem_of_alloc_set.
    destruct (arena_seg _ _ _ p s Har Hin) as (_ & Hlt & _); [auto|]. split; [done|].
    destruct (arena_piece_span _ _ _ p s Har Hin) as (k & sp & Hk & Htk & H1 & H2); [by left|].
    exists (vs_start sp, vs_end sp). split; [|done]. apply elem_of_span_set. by exists k, sp.
  - intros [b e] [b' e'] (p & s & Hin & Ht & <- & <-)%elem_of_alloc_set
      (p' & s' & Hin' & Ht' & <- & <-)%elem_of_alloc_set Hne [O1 O2]. simpl in *.
    destruct (decide (p = p')) as [->|Hpp].
    + by rewrite (view_functional _ _ _ _ (arena_nodup _ _ _ Har) Hin Hin') in Hne.
    + destruct (arena_pieces_disjoint _ _ _ _ _ _ _ Har Hin Hin' Hpp); [by left|by left|lia..].
  - intros [b e] [b' e'] (p & s & Hin & Ht & <- & <-)%elem_of_span_set
      (p' & s' & Hin' & Ht' & <- & <-)%elem_of_span_set Hne [O1 O2]. simpl in *.
    destruct (decide (p = p')) as [->|Hpp].
    + by rewrite (view_functional _ _ _ _ (arena_nodup _ _ _ Har) Hin Hin') in Hne.
    + destruct (ar_disjoint _ _ _ Har _ _ _ _ Hin Hin' Hpp Ht Ht'); lia.
Qed.

(** ** Each change of the view is a step of the contract *)

Lemma abs_ext A A' :
  (forall p s, vs_type s = VMEM_SPAN -> (p, s) ∈ A <-> (p, s) ∈ A') ->
  (forall p s, vs_type s = VMEM_ALLOC -> (p, s) ∈ A <-> (p, s) ∈ A') -> abs A = abs A'.
Proof.
  intros Hs Ha. unfold abs. f_equal; [by apply span_set_ext|].
  apply set_eq. intros [b e]. rewrite !elem_of_alloc_set.
  split; intros (p & s & Hin & Ht & ?); exists p, s; naive_solver.
Qed.

Lemma remainder_types b e L p s :
  remainder b e L -> (p, s) ∈ L -> vs_type s <> VMEM_SPAN /\ vs_type s <> VMEM_ALLOC.
Proof. intros HL Hin. split; by eapply remainder_other. Qed.

(** Carving adds the allocated range. *)
Lemma carved_abs vm A1 x s A2 n t size r vm' :
  arena vm (A1 ++ (Seg x, s) :: A2) n -> vs_type s = VMEM_FREE ->
  carved vm A1 s A2 n t size (Seg r) vm' ->
  exists A' n', arena vm' A' n' /\ vstep (abs (A1 ++ (Seg x, s) :: A2)) (abs A') /\
    sp_spans (abs A') = sp_spans (abs (A1 ++ (Seg x, s) :: A2)) /\
    sp_allocs (abs A') = {[(t, t + size)]} ∪ sp_allocs (abs (A1 ++ (Seg x, s) :: A2)).
Proof.
  intros Har Hs (L & R & imp & Har' & _ & _ & HL & HR).
  set (A' := A1 ++ (L ++ (Seg r, Sg t (t + size) VMEM_ALLOC imp) :: R) ++ A2) in *.
  assert (Hspan : span_set A' = span_set (A1 ++ (Seg x, s) :: A2)).
  { apply span_set_ext. intros p sp Ht. unfold A'.
    pose proof (remainder_types _ _ _ p sp HL). pose proof (remainder_types _ _ _ p sp HR).
    assert (sp <> s) by (intros ->; rewrite Hs in Ht; done). set_solver. }
  assert (Halloc : alloc_set A' = {[(t, t + size)]} ∪ alloc_set (A1 ++ (Seg x, s) :: A2)).
  { apply set_eq. intros [b e]. rewrite elem_of_union, elem_of_singleton, !elem_of_alloc_set. unfold A'. split.
    - intros (p & sp & Hin & Ht & <- & <-).
      pose proof (remainder_types _ _ _ p sp HL). pose proof (remainder_types _ _ _ p sp HR).
      assert ((p, sp) = (Seg r, Sg t (t + size) VMEM_ALLOC imp) \/ (p, sp) ∈ A1 ++ A2) as [[= -> ->]|?] by set_solver;
        [by left|]. right. exists p, sp. set_solver.
    - intros [[= -> ->]|(p & sp & Hin & Ht & <- & <-)].
      + exists (Seg r), (Sg t (t + size) VMEM_ALLOC imp). set_solver.
      + exists p, sp. assert (sp <> s) by (intros ->; rewrite Hs in Ht; done). set_solver. }
  exists A'. eexists. split_and!; [exact Har'| |done|done]. unfold abs. rewrite Hspan, Halloc.
  assert (Hr : (Seg r, Sg t (t + size) VMEM_ALLOC imp) ∈ A') by set_solver.
  assert (Hnr : Seg r ∉ (A1 ++ A2).*1).
  { pose proof (arena_nodup _ _ _ Har') as Hnd. unfold A' in Hnd.
    replace (A1 ++ _ ++ A2) with ((A1 ++ L) ++ (Seg r, Sg t (t + size) VMEM_ALLOC imp) :: R ++ A2) in Hnd
      by (rewrite <- !app_assoc; done).
    rewrite <- Permutation_middle in Hnd. apply NoDup_cons in Hnd as [Hnd _].
    intros Hin. apply Hnd. rewrite fmap_app in Hin. cbn [fst]. change (Seg r ∈ ((A1 ++ L) ++ R ++ A2).*1).
    rewrite !fmap_app. set_solver. }
  destruct (arena_seg _ _ _ _ _ Har' Hr) as (_ & Hlt & _); [auto|]. simpl in Hlt.
  destruct (arena_piece_span _ _ _ _ _ Har' Hr) as (k & sp & Hk & Htk & H1 & H2); [by left|].
  apply (v_alloc _ _ (vs_start sp) (vs_end sp)); simpl in *; try done.
  - rewrite <- Hspan. apply elem_of_span_set. by exists k, sp.
  - intros [b e] (p & s' & Hin & Ht & <- & <-)%elem_of_alloc_set.
    assert (Hin' : (p, s') ∈ A') by (assert (s' <> s) by (intros ->; rewrite Hs in Ht; done); set_solver).
    intros [O1 O2]. simpl in *. destruct (decide (p = Seg r)) as [->|Hne].
    + apply Hnr. apply (view_in_fst _ _ s'). assert (s' <> s) by (intros ->; rewrite Hs in Ht; done). set_solver.
    + destruct (arena_pieces_disjoint _ _ _ _ _ _ _ Har' Hr Hin' ltac:(done)); simpl in *; [by left|by left|lia..].
Qed.

(** Removing one allocated segment removes its range. *)
Lemma alloc_set_remove vm A n A' p0 s0 :
  arena vm A n -> (p0, s0) ∈ A -> vs_type s0 = VMEM_ALLOC ->
  (forall p s, vs_type s = VMEM_ALLOC -> (p, s) ∈ A' <-> (p, s) ∈ A /\ p <> p0) ->
  alloc_set A' = alloc_set A ∖ {[(vs_start s0, vs_end s0)]}.
Proof.
  intros Har Hin0 Ht0 Hiff. apply set_eq. intros [b e].
  rewrite elem_of_difference, elem_of_singleton, !elem_of_alloc_set. split.
  - intros (p & s & Hin & Ht & <- & <-). apply Hiff in Hin as [Hin Hne]; [|done].
    split; [by exists p, s|]. intros [= E1 E2].
    destruct Hne. eapply (arena_alloc_unique vm A n); try done; by left.
  - intros [(p & s & Hin & Ht & <- & <-) Hne]. exists p, s. split_and!; try done.
    apply Hiff; [done|]. split; [done|]. intros ->. apply Hne.
    by rewrite (view_functional _ _ _ _ (arena_nodup _ _ _ Har) Hin Hin0).
Qed.

Lemma free_tail_types A A' PV p s : free_tail A A' PV -> (p, s) ∈ PV -> vs_type s = VMEM_FREE.
Proof. intros [|? p' s' Ht]; [by intros ?%elem_of_nil|]. by intros [= -> ->]%list_elem_of_singleton. Qed.

Lemma free_head_types A NX A' p s : free_head A NX A' -> (p, s) ∈ NX -> vs_type s = VMEM_FREE.
Proof. intros [|p' s' ? Ht]; [by intros ?%elem_of_nil|]. by intros [= -> ->]%list_elem_of_singleton. Qed.

Section free_abs.
Context (vm : vmem) (A1 A2 : view) (n : nat) (x : Z) (s : seg) (A1' PV NX A2' : view).
#[local] Abbreviation A := (A1 ++ (Seg x, s) :: A2).
Hypothesis (Har : arena vm A n) (Hs : vs_type s = VMEM_ALLOC).
Hypothesis (Htl : free_tail A1 A1' PV) (Hhd : free_head A2 NX A2').

Lemma freed_members p t :
  (vs_type t = VMEM_ALLOC -> (p, t) ∈ A1' ++ A2' <-> (p, t) ∈ A /\ p <> Seg x) /\
  (vs_type t = VMEM_SPAN -> (p, t) ∈ A1' ++ A2' <-> (p, t) ∈ A).
Proof.
  pose proof (arena_nodup _ _ _ Har) as Hnd. rewrite <- Permutation_middle in Hnd.
  apply NoDup_cons in Hnd as [Hx _]. change (Seg x ∉ (A1 ++ A2).*1) in Hx.
  pose proof (free_tail_app _ _ _ Htl) as E1. pose proof (free_head_app _ _ _ Hhd) as E2.
  pose proof (free_tail_types _ _ _ p t Htl) as T1. pose proof (free_head_types _ _ _ p t Hhd) as T2.
  assert (Hne : (p, t) ∈ A1 ++ A2 -> p <> Seg x) by (intros Hin ->; by apply Hx, (view_in_fst _ _ t)).
  split; intros Ht; rewrite Ht in T1, T2; rewrite E1, E2 in *.
  - set_solver.
  - assert (t <> s) by (intros ->; rewrite Hs in Ht; done). set_solver.
Qed.

(** The merged free segment instead of the allocation and its free neighbours. *)
Lemma keep_abs m ms :
  vs_type ms = VMEM_FREE ->
  abs (A1' ++ (m, ms) :: A2') = VSpec (span_set A) (alloc_set A ∖ {[(vs_start s, vs_end s)]}).
Proof.
  intros Hms. unfold abs. f_equal.
  - apply span_set_ext. intros p t Ht. destruct (freed_members p t) as [_ H]. specialize (H Ht).
    assert (t <> ms) by (intros ->; rewrite Hms in Ht; done). set_solver.
  - eapply (alloc_set_remove vm A n _ (Seg x) s Har); [set_solver|done|].
    intros p t Ht. destruct (freed_members p t) as [H _]. specialize (H Ht).
    assert (t <> ms) by (intros ->; rewrite Hms in Ht; done). set_solver.
Qed.

Lemma free_step : vstep (abs A) (VSpec (span_set A) (alloc_set A ∖ {[(vs_start s, vs_end s)]})).
Proof. apply v_free. apply elem_of_alloc_set. exists (Seg x), s. set_solver. Qed.

(** The whole span gone as well. *)
Section returned.
Context (B1 : view) (sp b e : Z) (i : bool) (vm' : vmem) (n' : nat).
Hypothesis (EA : A1' = B1 ++ [(Seg sp, Sg b e VMEM_SPAN i)]) (Har' : arena vm' (B1 ++ A2') n').

Lemma returned_allocs p t : vs_type t = VMEM_ALLOC -> (p, t) ∈ B1 ++ A2' <-> (p, t) ∈ A /\ p <> Seg x.
Proof.
  intros Ht. destruct (freed_members p t) as [H _]. rewrite <- (H Ht), EA.
  assert (t <> Sg b e VMEM_SPAN i) by (intros ->; done). set_solver.
Qed.

Lemma returned_span : (Seg sp, Sg b e VMEM_SPAN i) ∈ A.
Proof.
  destruct (freed_members (Seg sp) (Sg b e VMEM_SPAN i)) as [_ H]. apply H; [done|]. rewrite EA. set_solver.
Qed.

Lemma returned_key : Seg sp ∉ (B1 ++ A2').*1.
Proof.
  pose proof (arena_nodup _ _ _ Har) as Hnd.
  rewrite (free_tail_app _ _ _ Htl), (free_head_app _ _ _ Hhd), EA, <- !app_assoc in Hnd. simpl in Hnd.
  rewrite <- Permutation_middle in Hnd. apply NoDup_cons in Hnd as [Hnd _]. intros H. apply Hnd.
  change (Seg sp ∈ (B1 ++ PV ++ (Seg x, s) :: NX ++ A2').*1). rewrite fmap_app in H.
  rewrite !fmap_app. simpl. rewrite fmap_app. set_solver.
Qed.

(** Another span of the arena is elsewhere. *)
Lemma returned_other p t :
  (p, t) ∈ B1 ++ A2' -> vs_type t = VMEM_SPAN ->
  (p, t) ∈ A /\ (vs_end t <= b \/ e <= vs_start t) /\ vs_start t < vs_end t.
Proof.
  intros Hp Ht. assert (HpA : (p, t) ∈ A).
  { destruct (freed_members p t) as [_ H]. apply (H Ht). rewrite EA. set_solver. }
  destruct (arena_seg _ _ _ p t Har HpA) as (_ & Hlt & _); [auto|]. split_and!; [done| |done].
  assert (p <> Seg sp) by (intros ->; by apply returned_key, (view_in_fst _ _ t)).
  by destruct (ar_disjoint _ _ _ Har p t (Seg sp) _ HpA returned_span); auto.
Qed.

Lemma returned_abs :
  abs (B1 ++ A2') = VSpec (span_set A ∖ {[(b, e)]}) (alloc_set A ∖ {[(vs_start s, vs_end s)]}).
Proof.
  unfold abs. f_equal.
  - apply set_eq. intros [b' e']. rewrite elem_of_difference, elem_of_singleton, !elem_of_span_set. split.
    + intros (p & t & Hp & Ht & <- & <-). destruct (returned_other p t Hp Ht) as (HpA & Hd & Hlt).
      split; [by exists p, t|]. intros [= E1 E2]. lia.
    + intros [(p & t & Hp & Ht & <- & <-) Hne]. exists p, t. split_and!; try done.
      destruct (freed_members p t) as [_ H]. apply (H Ht) in Hp. rewrite EA in Hp.
      assert ((p, t) <> (Seg sp, Sg b e VMEM_SPAN i)) by (by intros [= -> ->]). set_solver.
  - apply (alloc_set_remove vm A n _ (Seg x) s Har); [set_solver|done|apply returned_allocs].
Qed.

Lemma returned_steps : vsteps (abs A) (abs (B1 ++ A2')).
Proof.
  rewrite returned_abs. econstructor; [apply free_step|]. apply vsteps_one, v_return.
  - apply elem_of_span_set. exists (Seg sp), (Sg b e VMEM_SPAN i). split_and!; try done. apply returned_span.
  - rewrite <- (alloc_set_remove vm A n (B1 ++ A2') (Seg x) s Har);
      [|set_solver|done|apply returned_allocs].
    intros [b' e'] (p & t & Hp & Ht & <- & <-)%elem_of_alloc_set [O1 O2]. simpl in *.
    destruct (arena_piece_span _ _ _ p t Har' Hp) as (k & sk & Hk & Htk & K1 & K2); [by left|].
    destruct (returned_other k sk Hk Htk) as (_ & Hd & _).
    destruct (arena_seg _ _ _ p t Har' Hp) as (_ & Hlt & _); [auto|]. lia.
Qed.
End returned.
End free_abs.

Lemma abs_allocs_pair B1 B2 sp ns b e import :
  sp_allocs (abs (B1 ++ span_pair sp ns b e import ++ B2)) = sp_allocs (abs (B1 ++ B2)).
Proof.
  apply set_eq. intros [b' e']. unfold abs. cbn [sp_allocs]. rewrite !elem_of_alloc_set. split.
  - intros (p & s & [Hin|[[= -> ->]|[= -> ->]]]%span_pair_elem & Ht & <- & <-); [|done..]. by exists p, s.
  - intros (p & s & Hin & ?). exists p, s. rewrite span_pair_elem. tauto.
Qed.

Lemma abs_spans_pair B1 B2 sp ns b e import :
  sp_spans (abs (B1 ++ span_pair sp ns b e import ++ B2)) = {[(b, e)]} ∪ sp_spans (abs (B1 ++ B2)).
Proof.
  apply set_eq. intros [b' e']. unfold abs. cbn [sp_spans].
  rewrite elem_of_union, elem_of_singleton, !elem_of_span_set. split.
  - intros (p & s & [Hin|[[= -> ->]|[= -> ->]]]%span_pair_elem & Ht & <- & <-); [|by left|done].
    right. by exists p, s.
  - intros [[= -> ->]|(p & s & Hin & ?)]; [|exists p, s; rewrite span_pair_elem; tauto].
    exists (Seg sp), (Sg b e VMEM_SPAN false). rewrite span_pair_elem. tauto.
Qed.

(** A new span with its free piece adds the span. *)
Lemma span_pair_abs B1 B2 sp ns b e import :
  b < e -> span_fresh (B1 ++ B2) b e ->
  vstep (abs (B1 ++ B2)) (abs (B1 ++ span_pair sp ns b e import ++ B2)).
Proof.
  intros Hbe Hf.
  pose proof (abs_spans_pair B1 B2 sp ns b e import) as E1.
  pose proof (abs_allocs_pair B1 B2 sp ns b e import) as E2. unfold abs in *. cbn [sp_spans sp_allocs] in *.
  rewrite E1, E2. apply v_add; [done|].
  intros [b' e'] (p & s & Hin & Ht & <- & <-)%elem_of_span_set [O1 O2].
  simpl in *. destruct (Hf p s Hin Ht); lia.
Qed.
