(* ===== verification/VmemCreate.v ===== *)
(** * Creating an arena (vmem_create)

    A new arena has the 65 freelist heads, the anchor and the rotor, no span
    and no spare segment structure; it is well formed. *)
From S2P Require Import Prelude Machine SpanTable VmemArena VmemTile VmemLists VmemRep VmemWf VmemCarve VmemSpan VmemOps.

Definition VMEM_NQCACHE_MAX : Z := 16.
Definition VMC_POPULATOR : Z := 0x10000.

(** [for (i = 0; i < VMEM_FREELISTS; i++) { vfp->vs_end = 1UL << i; ... }] and
    the last entry with [vs_end = 0]. *)
Definition freelist_head (i : nat) : segp * seg :=
  (Flist i, Sg 0 (if decide (i = Z.to_nat VMEM_FREELISTS) then 0 else wshl 1 (Z.of_nat i)) 0 false).

Definition vmem_segs0 : gmap segp seg :=
  <[Rotor := Sg 0 0 VMEM_ROTOR false]>
  (<[Seg0 := Sg 0 0 VMEM_SPAN false]>
   (list_to_map (freelist_head <$> seq 0 65))).

(** The fields [vmem_create] sets in the zeroed structure. *)
Definition vmem_fresh (c : vmem_cfg) : vmem :=
  let hash_mask := VMEM_HASH_INITIAL - 1 in
  Vmem c vmem_segs0 (insert_after Seg0 Rotor [Seg0]) [Seg0] (Flist <$> seq 0 65) 0
    (replicate (Z.to_nat VMEM_HASH_INITIAL) []) hash_mask (highbit hash_mask) [] 0 (fun _ => 0) None.

(** The quantum caches: [vm_qcache_max] after the loop over [i], where
    [create i] says whether [umem_cache_create] of cache [i] succeeded. *)
Fixpoint qcache_loop (create : Z -> bool) (quantum : Z) (n : nat) (i : Z) (qcache_max : Z) : Z :=
  match n with
  | O => qcache_max
  | S n => if create i then qcache_loop create quantum n (i + 1) qcache_max else i * quantum
  end.

Definition vmem_create_cfg (quantum : Z) (afunc ffunc : bool) (source_quantum qcache_max vmflag mtbf : Z)
    (create : Z -> bool) (pop_id : option nat) : vmem_cfg :=
  let qshift := highbit quantum - 1 in
  let nqcache := Z.min (Z.shiftr qcache_max qshift) VMEM_NQCACHE_MAX in
  let qmax := if nqcache =? 0 then 0
              else qcache_loop create quantum (Z.to_nat nqcache) 0 (wshl nqcache qshift) in
  VmemCfg quantum qshift qmax vmflag mtbf afunc ffunc source_quantum pop_id.

(** [vmem_create]: the new arena, populated if it is a populator, with its
    initial span; [None] when the span could not be added. *)
Definition vmem_create {W} `{vmem_env W} (base size quantum : Z) (afunc ffunc : bool)
    (source_quantum qcache_max vmflag mtbf : Z) (create : Z -> bool) (pop_id : option nat) (w : W)
    : result (option vmem * W) :=
  let vm := vmem_fresh (vmem_create_cfg quantum afunc ffunc source_quantum qcache_max vmflag mtbf create pop_id) in
  let vmflag := Z.land vmflag VM_UMFLAGS in
  let '(vm, w) := if hasflag (vm_cflags (vm_cfg vm)) VMC_POPULATOR
                  then (env_populate (Z.lor vmflag VM_PANIC) (vm, w)).2 else (vm, w) in
  if (base =? 0) && (size =? 0) then Ok (Some vm, w)
  else
    do (a, (vm, w)) <- vmem_add base size vmflag (vm, w);
    if a =? 0 then Ok (None, w) else Ok (Some vm, w).

(** ** A new arena is well formed *)

Definition rotor_view : view := [(Rotor, Sg 0 0 VMEM_ROTOR false)].

Lemma heads_lookup i : (i < 65)%nat -> vmem_segs0 !! Flist i = Some (head_seg i).
Proof.
  intros Hi. unfold vmem_segs0. rewrite !lookup_insert_ne by done.
  do 65 (destruct i as [|i]; [reflexivity|]). lia.
Qed.

Lemma chain_from_empty n k : chain_from k (replicate n []) = Flist <$> seq k n.
Proof. revert k. induction n as [|n IH]; intros k; simpl; [done|]. by rewrite IH. Qed.

Lemma fresh_free_ok : free_ok vmem_segs0 (Flist <$> seq 0 65) 0 ∅.
Proof.
  exists (replicate 65 []). split.
  - apply length_replicate.
  - by rewrite chain_from_empty.
  - unfold lists_ok. change (concat (replicate 65 [])) with (@nil segp). split; [constructor|set_solver].
  - intros i l p Hl. apply lookup_replicate in Hl as [-> _]. rewrite elem_of_nil. naive_solver.
  - intros p s Hp. by rewrite lookup_empty in Hp.
  - intros i l Hl. apply lookup_replicate in Hl as [-> _]. by rewrite Z.bits_0, bool_decide_true.
  - unfold is_word. lia.
  - apply heads_lookup.
  - intros p s Hp. by rewrite lookup_empty in Hp.
Qed.

Lemma hash_index_lt vm a k :
  0 <= k -> vm_hash_mask vm = 2 ^ k - 1 -> Z.of_nat (length (vm_hash vm)) = 2 ^ k ->
  (hash_index vm a < length (vm_hash vm))%nat.
Proof.
  intros Hk Hm Hl. unfold hash_index, VMEM_HASH_INDEX. rewrite Hm.
  replace (2 ^ k - 1) with (Z.ones k) by (rewrite Z.ones_equiv; lia).
  rewrite Z.land_ones by done. set (x := Z.shiftr _ _).
  pose proof (Z.mod_pos_bound x (2 ^ k) ltac:(lia)). lia.
Qed.

Lemma arena_fresh c : quantum_ok c -> arena (vmem_fresh c) rotor_view 0.
Proof.
  intros Hq. split; [|done| | |].
  - exists ∅, ∅, None. split_and!; try done.
    + split; try done.
      * simpl. constructor; [set_solver|]. apply NoDup_singleton.
      * intros i. simpl. set_solver.
      * intros p s Hp. apply list_elem_of_singleton in Hp as [= -> ->]. done.
      * apply fresh_free_ok.
      * split.
        -- intros a. by apply (hash_index_lt _ _ 4).
        -- intros h b p Hh. apply lookup_replicate in Hh as [-> _]. rewrite elem_of_nil.
           setoid_rewrite lookup_empty. naive_solver.
        -- intros h b Hh. apply lookup_replicate in Hh as [-> _]. constructor.
      * simpl. split; [constructor|]. intros p Hp. by apply elem_of_nil in Hp.
    + intros p s. rewrite lookup_empty. split; [done|]. unfold rotor_view.
      by intros [[= -> ->]%list_elem_of_singleton ?].
    + intros p s. rewrite lookup_empty. split; [done|]. unfold rotor_view.
      by intros [[= -> ->]%list_elem_of_singleton ?].
  - unfold tiled. simpl. apply tclosed_cons. eexists. split; [apply ts_mark; by left|]. by apply tclosed_nil.
  - intros p s Hp. unfold rotor_view in Hp. by apply list_elem_of_singleton in Hp as [= -> ->].
  - intros p s p' s' Hp Hp' Hne Ht. unfold rotor_view in *. by apply list_elem_of_singleton in Hp as [= -> ->].
Qed.

(** A spare segment structure more. *)
Lemma arena_putseg vm A n a :
  arena vm A n -> Seg a ∉ A.*1 -> Seg a ∉ vm_segfree vm -> arena (vmem_putseg (Seg a) vm) A (S n).
Proof.
  intros [(F & H & hp & Hr & HF & HH & Hpub) Hq Ht Hk Hd] Ha Hp. split; try done.
  exists F, H, hp. split_and!; try done. destruct Hr. split; simpl; try done.
  - destruct rp_pool as [Hnd Hpool]. split; [by constructor|].
    intros p [->|Hin]%elem_of_cons; [by exists a|by apply Hpool].
  - destruct rp_n as [Hn Hns]. split; lia.
Qed.

(** Stock [k] structures at addresses [a], [a + 1], ... *)
Fixpoint putsegs (k : nat) (a : Z) (vm : vmem) : vmem :=
  match k with O => vm | S k => putsegs k (a + 1) (vmem_putseg (Seg a) vm) end.

Lemma arena_putsegs k a vm A n :
  arena vm A n -> (forall b, a <= b -> (Seg b ∉ A.*1) /\ (Seg b ∉ vm_segfree vm)) ->
  arena (putsegs k a vm) A (k + n).
Proof.
  revert a vm n. induction k as [|k IH]; intros a vm n Har Hb; [done|]. simpl.
  replace (S (k + n)) with (k + S n)%nat by lia. apply IH.
  - apply arena_putseg; [done|apply Hb; lia..].
  - intros b Hab. simpl. destruct (Hb b ltac:(lia)) as [? ?]. split; [done|].
    intros [[= ->]|?]%elem_of_cons; [lia|done].
Qed.
