(* ===== verification/VmemSum.v ===== *)
(** * No byte of a span is lost

    The free segments and the allocated ones, rounded up to the quantum, add up
    to the spans; [vmem_size] reports these totals. *)
From S2P Require Import Prelude Machine SpanTable VmemArena VmemTile VmemLists VmemRep VmemWf VmemCarve VmemSpan VmemOps VmemFree.

(** What a segment takes of its span: allocations are rounded to the quantum. *)
Definition footprint (q : Z) (s : seg) : Z :=
  if vs_type s =? VMEM_ALLOC then roundup (vs_end s) q - vs_start s
  else if vs_type s =? VMEM_FREE then vs_end s - vs_start s else 0.
Definition span_len (s : seg) : Z := if vs_type s =? VMEM_SPAN then vs_end s - vs_start s else 0.

Definition total (f : seg -> Z) (l : list seg) : Z := foldr (fun s acc => f s + acc) 0 l.

(** What the open span still misses. *)
Definition missing (st : tst) : Z := match st with None => 0 | Some (_, p, E, _) => E - p end.

Lemma tstep_total q st s st' :
  tstep q st s st' -> missing st + span_len s = footprint q s + missing st'.
Proof.
  intros H. destruct H as [st s e i Hc|B p E f e i|B p E e i|st s [Ht|Ht]];
    unfold footprint, span_len; simpl; try lia.
  - destruct st as [[[[? ?] ?] ?]|]; simpl in *; lia.
  - rewrite Ht. destruct st as [[[[? ?] ?] ?]|]; simpl; lia.
  - rewrite Ht. destruct st as [[[[? ?] ?] ?]|]; simpl; lia.
Qed.

Lemma trun_total q st l st' :
  trun q st l st' -> missing st + total span_len l = total (footprint q) l + missing st'.
Proof.
  induction 1 as [|st s st1 l st2 Hs Hr IH]; simpl; [lia|].
  pose proof (tstep_total _ _ _ _ Hs). lia.
Qed.

Lemma arena_total vm A n :
  arena vm A n -> total span_len A.*2 = total (footprint (vm_quantum (vm_cfg vm))) A.*2.
Proof.
  intros Har. destruct (ar_tile _ _ _ Har) as (st & Hrun & Hc).
  apply trun_total in Hrun. simpl in Hrun.
  assert (missing st = 0) by (destruct st as [[[[? ?] ?] ?]|]; simpl in *; lia). lia.
Qed.

(** The sums of [VS_SIZE] over a type. *)
Lemma sum_type_total vm A n t f :
  arena vm A n -> (t = VMEM_ALLOC \/ t = VMEM_FREE \/ t = VMEM_SPAN) ->
  (forall s, f s = if vs_type s =? t then vs_end s - vs_start s else 0) ->
  sum_type t A = total f A.*2.
Proof.
  intros Har Ht Hf. assert (Hin : forall p s, (p, s) ∈ A -> (p, s) ∈ A) by done. revert Hin.
  generalize A at 1 3 4. intros B HB. induction B as [|[p s] B IH]; [done|].
  rewrite sum_type_cons. simpl. rewrite IH by (intros; apply HB; by right). f_equal. rewrite Hf.
  destruct (Z.eqb_spec (vs_type s) t) as [E|]; [|done].
  destruct (arena_seg _ _ _ p s Har) as (? & ? & ? & _); [apply HB; by left|rewrite E; tauto|].
  unfold VS_SIZE. rewrite wsub_small; lia.
Qed.

Lemma total_split (f g h : seg -> Z) l :
  (forall s, s ∈ l -> f s = g s + h s) -> total f l = total g l + total h l.
Proof.
  induction l as [|s l IH]; intros H; simpl; [done|].
  rewrite IH, (H s) by (intros; try apply H; set_solver). lia.
Qed.

Lemma footprint_split q s :
  0 < q -> ((q | vs_end s) \/ vs_type s <> VMEM_ALLOC) ->
  footprint q s = (if vs_type s =? VMEM_ALLOC then vs_end s - vs_start s else 0) +
                  (if vs_type s =? VMEM_FREE then vs_end s - vs_start s else 0).
Proof.
  intros Hq Hd. unfold footprint. destruct (Z.eqb_spec (vs_type s) VMEM_ALLOC) as [E|E].
  - rewrite E. change (VMEM_ALLOC =? VMEM_FREE) with false. destruct Hd as [Hd|]; [|done].
    rewrite roundup_id by done. lia.
  - destruct (_ =? VMEM_FREE); lia.
Qed.

(** When every allocation is a multiple of the quantum, free and allocated
    bytes add up to the spans. *)
Lemma arena_conserves vm A n :
  arena vm A n ->
  (forall p s, (p, s) ∈ A -> vs_type s = VMEM_ALLOC -> (vm_quantum (vm_cfg vm) | vs_end s)) ->
  sum_type VMEM_SPAN A = sum_type VMEM_ALLOC A + sum_type VMEM_FREE A.
Proof.
  intros Har Hmul. rewrite (sum_type_total _ _ _ _ span_len Har) by (auto; done).
  rewrite (sum_type_total _ _ _ VMEM_ALLOC (fun s => if vs_type s =? VMEM_ALLOC then vs_end s - vs_start s else 0) Har) by (auto; done).
  rewrite (sum_type_total _ _ _ VMEM_FREE (fun s => if vs_type s =? VMEM_FREE then vs_end s - vs_start s else 0) Har) by (auto; done).
  rewrite (arena_total _ _ _ Har). apply total_split. intros s [p Hp]%elem_of_snd_inv.
  apply footprint_split; [apply quantum_pos, Har|].
  destruct (decide (vs_type s = VMEM_ALLOC)); [left|by right]. by eapply Hmul.
Qed.

Lemma vmem_size_spec vm A n :
  arena vm A n ->
  vmem_size VMEM_ALLOC vm = w64 (sum_type VMEM_ALLOC A) /\
  vmem_size VMEM_FREE vm = w64 (sum_type VMEM_SPAN A - sum_type VMEM_ALLOC A) /\
  vmem_size (Z.lor VMEM_ALLOC VMEM_FREE) vm = w64 (sum_type VMEM_SPAN A).
Proof.
  intros Har. destruct (ar_rep _ _ _ Har) as (F & H & hp & Hr & _).
  unfold vmem_size. rewrite (rp_inuse _ _ _ _ _ _ _ _ _ _ Hr), (rp_total _ _ _ _ _ _ _ _ _ _ Hr).
  set (u := sum_type VMEM_ALLOC A). set (t := sum_type VMEM_SPAN A).
  assert (Es : wsub (w64 t) (w64 u) = w64 (t - u)).
  { unfold wsub, w64. by rewrite <- Zminus_mod. }
  assert (Ea : wadd 0 (w64 u) = w64 u) by (by apply Z.mod_mod).
  split_and!.
  - exact Ea.
  - change (hasflag VMEM_FREE VMEM_ALLOC) with false. change (hasflag VMEM_FREE VMEM_FREE) with true. cbv iota.
    rewrite Es. by apply Z.mod_mod.
  - change (hasflag (Z.lor VMEM_ALLOC VMEM_FREE) VMEM_ALLOC) with true.
    change (hasflag (Z.lor VMEM_ALLOC VMEM_FREE) VMEM_FREE) with true. cbv iota.
    rewrite Es, Ea. unfold wadd, w64. rewrite <- Zplus_mod. f_equal. lia.
Qed.
