(* ===== verification/VmemProps.v ===== *)
(** * Properties of vmem arenas

    The behaviour of the arena operations on every well-formed arena, stated
    against the contract of [VmemSpec.v], with a concrete arena for each. *)
From S2P Require Import Prelude Machine SpanTable VmemArena VmemTile VmemLists VmemRep VmemWf VmemCarve VmemSpan VmemOps VmemFree VmemFit VmemSearch VmemXalloc VmemSpec VmemCreate VmemSum.

#[local] Opaque vmem_span_table_insert vmem_span_table_remove.

(** ** The view of an arena can be read off it *)

Definition view_of (vm : vmem) : view := (fun p => (p, sg vm p)) <$> tail (vm_alist vm).

Lemma arena_view vm A n : arena vm A n -> A = view_of vm /\ n = length (vm_segfree vm).
Proof.
  intros Har. destruct (ar_rep _ _ _ Har) as (F & H & hp & Hr & _).
  split; [|symmetry; apply (rp_n _ _ _ _ _ _ _ _ _ _ Hr)].
  unfold view_of. rewrite (rp_alist _ _ _ _ _ _ _ _ _ _ Hr). simpl.
  assert (Hs : forall p s, (p, s) ∈ A -> sg vm p = s) by (intros; by eapply rep_sg).
  clear - Hs. induction A as [|[p s] A IH]; [done|]. simpl.
  rewrite (Hs p s) by (by left). f_equal. apply IH. intros. apply Hs. by right.
Qed.

(** ** A concrete arena over a concrete source

    The source hands out increasing addresses. *)
Definition demo_env : vmem_env Z := {|
  env_populate := fun _ s => (true, s);
  env_source_alloc := fun size _ s => (s.2, (s.1, s.2 + size));
  env_source_ximport := fun size _ s => (s.2, size, (s.1, s.2 + size));
  env_source_free := fun _ _ s => s;
  env_qcache_alloc := fun _ s => (Null, s);
  env_qcache_free := fun _ _ s => s;
  env_reap := fun s => s;
  env_wait := fun s => s;
  env_hrtime := fun w => (0, w);
  env_allocator := 0 |}.

Definition demo_cfg : vmem_cfg := VmemCfg 0x1000 12 0 0 0 true true 0x1000 None.
Definition demo_vm0 : vmem := putsegs 40 1 (vmem_fresh demo_cfg).

Definition run_span (b size : Z) (import : bool) (vm : vmem) : vmem :=
  match vmem_span_create b size import vm with Ok (_, vm') => vm' | Panic _ => vm end.
Definition run_alloc (size vmflag : Z) (vm : vmem) : vmem :=
  match @vmem_xalloc Z demo_env 1 size 0x1000 0 0 0 0 vmflag (vm, 0) with
  | Ok (_, s) => s.1 | Panic _ => vm end.

Definition demo_vm1 : vmem := run_span 0x10000 0x10000 false demo_vm0.
Definition demo_vm2 : vmem := run_alloc 0x3000 VM_NOSLEEP demo_vm1.

Lemma demo_arena0 : arena demo_vm0 rotor_view 40.
Proof.
  apply (arena_putsegs 40 1 (vmem_fresh demo_cfg) rotor_view 0).
  - apply arena_fresh. split; [simpl; lia|done].
  - intros b _. split; [intros [=]%list_elem_of_singleton|intros []%elem_of_nil].
Qed.

Lemma demo_arena1 : arena demo_vm1 (view_of demo_vm1) 38.
Proof.
  destruct (arena_span_create demo_vm0 rotor_view 38 0x10000 0x10000 false demo_arena0)
    as (B1 & B2 & sp & ns & vm' & _ & E & Har & _);
    [lia|lia|lia|by exists 16|by exists 32| |].
  { intros p s Hin Ht. unfold rotor_view in Hin. by apply list_elem_of_singleton in Hin as [= -> ->]. }
  unfold demo_vm1, run_span. rewrite E. destruct (arena_view _ _ _ Har) as [EA _].
  rewrite <- EA. exact Har.
Qed.

Definition demo_span : segp * seg := (Seg 40, Sg 0x10000 0x20000 VMEM_SPAN false).
Definition demo_free : segp * seg := (Seg 39, Sg 0x10000 0x20000 VMEM_FREE false).
Lemma demo_view1 : view_of demo_vm1 = [(Rotor, Sg 0 0 VMEM_ROTOR false); demo_span; demo_free].
Proof. vm_compute. reflexivity. Qed.

(** ** Allocation *)

(** C1: vmem_xalloc with a free segment that can hold the request: it returns
    the lowest address of a free segment that satisfies size, alignment, phase,
    boundary and address bounds (of a smallest such segment under VM_BESTFIT);
    the arena stays well formed and its allocated ranges grow by exactly the
    new one, which overlaps no other and lies inside a span. *)
Theorem xalloc_placement {W} {env : vmem_env W} (it : nat)
    (size align phase nocross minaddr maxaddr vmflag : Z) (vm : vmem) (w : W) (A : view) (n : nat) :
  request_ok size align phase nocross minaddr maxaddr ->
  arena vm A n -> (8 <= n)%nat -> vm_mtbf (vm_cfg vm) = 0 -> quantum_args vm align phase nocross ->
  (exists p s t, (p, s) ∈ A /\ vs_type s = VMEM_FREE /\
     2 ^ xlo size vmflag (vm_freemap vm) <= VS_SIZE s /\
     fits size align phase nocross minaddr maxaddr s t) ->
  exists t vm' A' n',
    vmem_xalloc (S it) size align phase nocross minaddr maxaddr vmflag (vm, w) = Ok (Addr t, (vm', w)) /\
    (exists p s, (p, s) ∈ A /\ vs_type s = VMEM_FREE /\
       fits size align phase nocross minaddr maxaddr s t /\
       (forall t', fits size align phase nocross minaddr maxaddr s t' -> t <= t') /\
       (hasflag vmflag VM_BESTFIT = true -> forall p' s' t', (p', s') ∈ A -> vs_type s' = VMEM_FREE ->
          fits size align phase nocross minaddr maxaddr s' t' -> VS_SIZE s <= VS_SIZE s')) /\
    arena vm' A' n' /\ vstep (abs A) (abs A') /\
    sp_allocs (abs A') = {[(t, t + size)]} ∪ sp_allocs (abs A).
Proof.
  intros Hrq Har Hn Hm Hq Hex.
  destruct (xalloc_served _ _ _ _ _ _ vmflag Hrq it vm w A n Har Hn Hm Hq Hex)
    as (A1 & x & s & A2 & t & r & vm' & E & -> & Hs & Hf & Hl & Hb & Hc).
  destruct (carved_abs _ _ _ _ _ _ _ _ _ _ Har Hs Hc) as (A' & n' & Har' & Hst & _ & Hal).
  exists t, vm', A', n'. split_and!; try done. exists (Seg x), s. split_and!; try done. set_solver.
Qed.

Lemma demo_request : request_ok 0x3000 0x2000 0x1000 0 0 0.
Proof.
  split; [lia|exists 13; split; [lia|done]|lia|by left|unfold is_word; lia|unfold is_word; lia|by left|lia].
Qed.

Lemma xalloc_placement_witness :
  exists t vm' A' n',
    @vmem_xalloc Z demo_env 1 0x3000 0x2000 0x1000 0 0 0 VM_BESTFIT (demo_vm1, 0) = Ok (Addr t, (vm', 0)) /\
    (exists p s, (p, s) ∈ view_of demo_vm1 /\ vs_type s = VMEM_FREE /\
       fits 0x3000 0x2000 0x1000 0 0 0 s t /\
       (forall t', fits 0x3000 0x2000 0x1000 0 0 0 s t' -> t <= t') /\
       (hasflag VM_BESTFIT VM_BESTFIT = true -> forall p' s' t', (p', s') ∈ view_of demo_vm1 ->
          vs_type s' = VMEM_FREE -> fits 0x3000 0x2000 0x1000 0 0 0 s' t' -> VS_SIZE s <= VS_SIZE s')) /\
    arena vm' A' n' /\ vstep (abs (view_of demo_vm1)) (abs A') /\
    sp_allocs (abs A') = {[(t, t + 0x3000)]} ∪ sp_allocs (abs (view_of demo_vm1)).
Proof.
  apply (@xalloc_placement Z demo_env 0 0x3000 0x2000 0x1000 0 0 0 VM_BESTFIT demo_vm1 0 (view_of demo_vm1) 38).
  - exact demo_request.
  - exact demo_arena1.
  - lia.
  - reflexivity.
  - split_and!; [by exists 2|by exists 1|by exists 0].
  - exists (Seg 39), (Sg 0x10000 0x20000 VMEM_FREE false), 0x11000. rewrite demo_view1. split_and!.
    + right. right. left.
    + reflexivity.
    + vm_compute. discriminate.
    + unfold fits. simpl. split_and!; lia || done.
Defined.

(** C14: vmem_xalloc when no free segment fits: it asks the source for the
    rounded size, adds exactly the range it is given as a new span, and
    allocates in it at the lowest address with the phase; the source gives a
    fresh range with room from that address on. *)
Theorem xalloc_import_placement {W} {env : vmem_env W} (it : nat) (size align phase vmflag : Z)
    (vm : vmem) (w w2 : W) (A : view) (n : nat) (vaddr asize : Z) :
  asize = P2ROUNDUP (wadd size phase) (Z.max align (vm_source_quantum (vm_cfg vm))) ->
  request_ok size align phase 0 0 0 ->
  arena vm A n -> (8 <= n)%nat -> vm_mtbf (vm_cfg vm) = 0 -> quantum_args vm align phase 0 ->
  (forall p s t, (p, s) ∈ A -> vs_type s = VMEM_FREE -> ~ fits size align phase 0 0 0 s t) ->
  vm_source_alloc (vm_cfg vm) = true -> hasflag (vm_cflags (vm_cfg vm)) VMC_XALLOC = false ->
  (forall vmx, env_source_alloc asize (Z.land vmflag VM_UMFLAGS) (vmx, w) = (vaddr, (vmx, w2))) ->
  size <= asize -> 0 < vaddr -> vaddr + asize < 2 ^ 64 ->
  (vm_quantum (vm_cfg vm) | vaddr) -> (vm_quantum (vm_cfg vm) | vaddr + asize) ->
  span_fresh A vaddr (vaddr + asize) ->
  phaseup vaddr align phase + size <= vaddr + asize ->
  exists t vm' A' n',
    vmem_xalloc (S it) size align phase 0 0 0 vmflag (vm, w) = Ok (Addr t, (vm', w2)) /\
    vaddr <= t /\ t + size <= vaddr + asize /\ t mod align = phase /\
    (forall t', vaddr <= t' -> t' mod align = phase -> t <= t') /\
    arena vm' A' n' /\ vsteps (abs A) (abs A') /\
    sp_spans (abs A') = {[(vaddr, vaddr + asize)]} ∪ sp_spans (abs A) /\
    sp_allocs (abs A') = {[(t, t + size)]} ∪ sp_allocs (abs A).
Proof.
  intros -> Hrq Har Hn Hm Hq Hno Hsrc Hpl Hgive Hbig Hva Hvw Hqv Hqz Hfr Hroom.
  destruct (xalloc_imports size align phase vmflag Hrq vm w w2 A n vaddr Har Hn Hm Hq Hno Hsrc Hpl
    Hbig Hgive Hva Hvw Hqv Hqz Hfr Hroom it)
    as (t & B1 & B2 & sp & ns & r & vm1 & vm' & E & -> & -> & Ec & Har1 & _ & Hc).
  destruct (carved_abs _ _ _ _ _ _ _ _ _ _ Har1 eq_refl Hc) as (A' & n' & Har' & Hst & Hsp & Hal).
  pose proof (rq_size _ _ _ _ _ _ Hrq) as Hs.
  set (e := vaddr + P2ROUNDUP (wadd size phase) (Z.max align (vm_source_quantum (vm_cfg vm)))) in *.
  pose proof (span_pair_abs B1 B2 sp ns vaddr e true ltac:(lia) Hfr) as Hadd.
  unfold span_pair in Hadd. rewrite <- app_assoc in Hst, Hsp, Hal. cbn [app] in Hst, Hsp, Hal, Hadd.
  destruct Hrq as [_ (k & Hk & Ha) Hp _ _ _ _ _].
  destruct (phaseup_spec vaddr align phase ltac:(rewrite Ha; lia) Hp) as [H1 H2].
  eexists _, vm', A', n'. split_and!; [exact E|lia|lia|done| |done| | |].
  - intros t' Hlo Ht. apply phaseup_least; [rewrite Ha; lia|done..].
  - econstructor; [exact Hadd|]. by apply vsteps_one.
  - rewrite Hsp. apply (abs_spans_pair B1 B2 sp ns vaddr e true).
  - rewrite Hal. f_equal. apply (abs_allocs_pair B1 B2 sp ns vaddr e true).
Qed.

Lemma xalloc_import_placement_witness :
  exists t vm' A' n',
    @vmem_xalloc Z demo_env 1 0x3000 0x1000 0 0 0 0 VM_NOSLEEP (demo_vm0, 0x50000) = Ok (Addr t, (vm', 0x53000)) /\
    0x50000 <= t /\ t + 0x3000 <= 0x50000 + 0x3000 /\ t mod 0x1000 = 0 /\
    (forall t', 0x50000 <= t' -> t' mod 0x1000 = 0 -> t <= t') /\
    arena vm' A' n' /\ vsteps (abs rotor_view) (abs A') /\
    sp_spans (abs A') = {[(0x50000, 0x50000 + 0x3000)]} ∪ sp_spans (abs rotor_view) /\
    sp_allocs (abs A') = {[(t, t + 0x3000)]} ∪ sp_allocs (abs rotor_view).
Proof.
  apply (@xalloc_import_placement Z demo_env 0 0x3000 0x1000 0 VM_NOSLEEP demo_vm0 0x50000 0x53000
    rotor_view 40 0x50000 0x3000).
  - reflexivity.
  - split; [lia|exists 12; split; [lia|done]|lia|by left|unfold is_word; lia|unfold is_word; lia|by left|lia].
  - exact demo_arena0.
  - lia.
  - reflexivity.
  - split_and!; [by exists 1|by exists 0|by exists 0].
  - intros p s t Hin Ht. unfold rotor_view in Hin. by apply list_elem_of_singleton in Hin as [= -> ->].
  - reflexivity.
  - reflexivity.
  - intros vmx. reflexivity.
  - lia.
  - lia.
  - lia.
  - by exists 0x50.
  - by exists 0x53.
  - intros p s Hin Ht. unfold rotor_view in Hin. by apply list_elem_of_singleton in Hin as [= -> ->].
  - vm_compute. discriminate.
Defined.

(** The placement of a request in a free segment (the body of the search
    loop of vmem_xalloc): it returns the lowest address that satisfies every
    constraint, and none exactly when no address of the segment does. *)
Theorem xfit_lowest (size align phase nocross minaddr maxaddr : Z) (vs : seg) :
  request_ok size align phase nocross minaddr maxaddr ->
  0 < vs_start vs -> vs_start vs < vs_end vs -> vs_end vs < 2 ^ 64 ->
  match xfit size align phase nocross minaddr maxaddr vs with
  | Some t => fits size align phase nocross minaddr maxaddr vs t /\
              forall t', fits size align phase nocross minaddr maxaddr vs t' -> t <= t'
  | None => forall t', ~ fits size align phase nocross minaddr maxaddr vs t'
  end.
Proof. apply xfit_exact. Qed.

Lemma xfit_lowest_witness :
  xfit 0x300 0x100 0x80 0x1000 0x1c00 0x4000 (Sg 0x1000 0x3000 VMEM_FREE false) = Some 0x1c80 /\
  xfit 0x600 0x100 0x80 0x1000 0x1c00 0x4000 (Sg 0x1000 0x3000 VMEM_FREE false) = Some 0x2080 /\
  (fits 0x600 0x100 0x80 0x1000 0x1c00 0x4000 (Sg 0x1000 0x3000 VMEM_FREE false) 0x2080 /\
   forall t', fits 0x600 0x100 0x80 0x1000 0x1c00 0x4000 (Sg 0x1000 0x3000 VMEM_FREE false) t' -> 0x2080 <= t').
Proof.
  split; [reflexivity|split; [reflexivity|]].
  apply (xfit_lowest 0x600 0x100 0x80 0x1000 0x1c00 0x4000 (Sg 0x1000 0x3000 VMEM_FREE false)); simpl; [|lia..].
  split; [lia|exists 8; split; [lia|done]|lia| |unfold is_word; lia|unfold is_word; lia|right; lia|lia].
  right. split_and!; [exists 12; split; [lia|done]|by exists 16|lia].
Defined.

(** C39: the freelist search of vmem_xalloc, which jumps over empty lists with
    the bitmap, returns what a plain scan of the whole chain from that list on
    returns, and always ends. *)
Theorem xsearch_is_scan (size align phase nocross minaddr maxaddr vmflag : Z)
    (vm : vmem) (A : view) (n : nat) (lo : Z) :
  arena vm A n -> 0 <= lo < 64 ->
  let f := lowbit (P2ALIGN (vm_freemap vm) (2 ^ lo)) in
  exists fl vm', vm_flist vm = chain_from 0 fl /\ searched vm vm' /\
    xsearch (S (length (vm_flist vm))) size align phase nocross minaddr maxaddr vmflag vm
      (if f =? 0 then None else lnext (Flist (Z.to_nat (f - 1))) (vm_flist vm)) None =
    Some (scan size align phase nocross minaddr maxaddr vmflag (sg vm) (chain_at fl (Z.to_nat lo)) None, vm').
Proof.
  intros Har Hlo f. destruct (ar_rep _ _ _ Har) as (F & H & hp & Hr & HF & _).
  destruct (rp_free _ _ _ _ _ _ _ _ _ _ Hr) as [fl Hfl].
  destruct (search_start size align phase nocross minaddr maxaddr vmflag vm F fl lo Hfl) as (vm' & Hs & E);
    [by eapply rep_free_types|done|].
  exists fl, vm'. split_and!; [apply Hfl|done|exact E].
Qed.

Lemma xsearch_is_scan_witness :
  let f := lowbit (P2ALIGN (vm_freemap demo_vm1) (2 ^ 13)) in
  exists fl vm', vm_flist demo_vm1 = chain_from 0 fl /\ searched demo_vm1 vm' /\
    xsearch (S (length (vm_flist demo_vm1))) 0x3000 0x1000 0 0 0 0 0 demo_vm1
      (if f =? 0 then None else lnext (Flist (Z.to_nat (f - 1))) (vm_flist demo_vm1)) None =
    Some (scan 0x3000 0x1000 0 0 0 0 0 (sg demo_vm1) (chain_at fl (Z.to_nat 13)) None, vm').
Proof. exact (xsearch_is_scan 0x3000 0x1000 0 0 0 0 0 demo_vm1 (view_of demo_vm1) 38 13 demo_arena1 ltac:(lia)). Defined.

(** ** Free *)

(** The free segments on either side of an allocation in the address-ordered
    list, and the range they make with it: an allocation's own range goes up to
    the next multiple of the quantum. *)
Definition free_before (A1 : view) : option seg :=
  match last A1 with Some (_, v) => if vs_type v =? VMEM_FREE then Some v else None | None => None end.
Definition free_after (A2 : view) : option seg :=
  match head A2 with Some (_, v) => if vs_type v =? VMEM_FREE then Some v else None | None => None end.

Definition merged_lo (A1 : view) (s : seg) : Z := from_option vs_start (vs_start s) (free_before A1).
Definition merged_hi (q : Z) (s : seg) (A2 : view) : Z :=
  from_option vs_end (roundup (vs_end s) q) (free_after A2).
(** The import mark is the lower segment's. *)
Definition merged_mark (A1 : view) (s : seg) : bool := from_option vs_import (vs_import s) (free_before A1).

(** A span marker, or the end of the list, bounds the merged range on both sides. *)
Definition spans_around (A1 A2 : view) : Prop :=
  prev_type (if free_before A1 is Some _ then removelast A1 else A1) = VMEM_SPAN /\
  next_type (if free_after A2 is Some _ then tail A2 else A2) = VMEM_SPAN.

#[global] Instance spans_around_dec A1 A2 : Decision (spans_around A1 A2).
Proof. unfold spans_around. apply _. Defined.

(** When the merged range goes back to the source. *)
Definition goes_back (c : vmem_cfg) (A1 : view) (s : seg) (A2 : view) : bool :=
  merged_mark A1 s && vm_source_free c && bool_decide (spans_around A1 A2).

Lemma free_tail_parts A1 A1' PV :
  free_tail A1 A1' PV ->
  free_before A1 = snd <$> head PV /\ (if free_before A1 is Some _ then removelast A1 else A1) = A1'.
Proof.
  intros [A Hp|A p s Ht]; unfold free_before, prev_type in *.
  - destruct (last A) as [[p s]|]; [|done]. by rewrite (proj2 (Z.eqb_neq _ _) Hp).
  - rewrite last_snoc, Ht. split; [done|]. apply removelast_last.
Qed.

Lemma free_head_parts A2 NX A2' :
  free_head A2 NX A2' ->
  free_after A2 = snd <$> head NX /\ (if free_after A2 is Some _ then tail A2 else A2) = A2'.
Proof.
  intros [A Hp|p s A Ht]; unfold free_after.
  - destruct A as [|[p s] A]; [done|]. simpl in *. by rewrite (proj2 (Z.eqb_neq _ _) Hp).
  - simpl. by rewrite Ht.
Qed.

(** The merged segment of the code, in these terms. *)
Lemma merge_seg_parts A1 A1' PV NX A2 A2' p s q :
  free_tail A1 A1' PV -> free_head A2 NX A2' ->
  let m := (merge_seg PV p (with_end (roundup (vs_end s) q) s) NX).2 in
  vs_start m = merged_lo A1 s /\ vs_end m = merged_hi q s A2 /\ vs_import m = merged_mark A1 s.
Proof.
  intros [E1 _]%free_tail_parts [E2 _]%free_head_parts. unfold merged_lo, merged_hi, merged_mark.
  rewrite E1, E2. by destruct PV as [|[]], NX as [|[]].
Qed.

Lemma goes_back_returned vm A1 A1' PV NX A2 A2' x s :
  free_tail A1 A1' PV -> free_head A2 NX A2' ->
  xf_returned vm x s A1' PV NX A2' = goes_back (vm_cfg vm) A1 s A2.
Proof.
  intros Htl Hhd. unfold xf_returned, goes_back.
  destruct (merge_seg_parts A1 A1' PV NX A2 A2' (Seg x) s (vm_quantum (vm_cfg vm)) Htl Hhd) as (_ & _ & ->).
  rewrite <- andb_assoc. f_equal.
  assert (Hsp : spans_around A1 A2 <-> prev_type A1' = VMEM_SPAN /\ next_type A2' = VMEM_SPAN).
  { unfold spans_around. by rewrite (proj2 (free_tail_parts _ _ _ Htl)), (proj2 (free_head_parts _ _ _ Hhd)). }
  case_bool_decide as Hd; rewrite Hsp in Hd; [by destruct Hd as [-> ->]|].
  apply andb_false_iff. rewrite !Z.eqb_neq. destruct (decide (prev_type A1' = VMEM_SPAN)); [right|left]; tauto.
Qed.

(** C2: vmem_xfree of an allocation [s] between [A1] and [A2] in the arena's
    list: the arena stays well formed and loses exactly that allocation.  If
    the range it makes with its free neighbours carries the import mark, the
    arena has a release function and the range is all there is between two span
    markers, then that range is a span, it leaves the arena and exactly it is
    handed to the release function; in every other case nothing is handed to
    the source, the spans stay and the whole range is one free segment that
    keeps the mark. *)
Theorem xfree_refines {W} {env : vmem_env W} (vm : vmem) (w : W) (A1 A2 : view) (n : nat) (p : segp) (s : seg) :
  arena vm (A1 ++ (p, s) :: A2) n -> vs_type s = VMEM_ALLOC ->
  let A := A1 ++ (p, s) :: A2 in
  let lo := merged_lo A1 s in
  let hi := merged_hi (vm_quantum (vm_cfg vm)) s A2 in
  lo <= vs_start s /\ vs_end s <= hi /\
  exists vm' A' n', arena vm' A' n' /\ vsteps (abs A) (abs A') /\
    sp_allocs (abs A') = sp_allocs (abs A) ∖ {[(vs_start s, vs_end s)]} /\
    if goes_back (vm_cfg vm) A1 s A2 then
      vmem_xfree (vs_start s) (VS_SIZE s) (vm, w) = Ok (env_source_free lo (hi - lo) (vm', w)) /\
      (lo, hi) ∈ sp_spans (abs A) /\ sp_spans (abs A') = sp_spans (abs A) ∖ {[(lo, hi)]}
    else
      vmem_xfree (vs_start s) (VS_SIZE s) (vm, w) = Ok (vm', w) /\
      sp_spans (abs A') = sp_spans (abs A) /\
      exists m, (m, Sg lo hi VMEM_FREE (merged_mark A1 s)) ∈ A'.
Proof.
  intros Har Hs A lo hi.
  assert (exists x, p = Seg x) as [x ->].
  { pose proof (ar_kind _ _ _ Har p s ltac:(set_solver)) as Hk.
    destruct p; simpl in Hk; rewrite ?Hs in Hk; try done. eauto. }
  destruct (free_tail_ex A1) as (A1' & PV & Htl). destruct (free_head_ex A2) as (NX & A2' & Hhd).
  pose proof (arena_xfree vm w A1 A2 n x s A1' PV NX A2' Har Hs Htl Hhd) as Hx.
  rewrite (goes_back_returned vm A1 A1' PV NX A2 A2' x s Htl Hhd) in Hx.
  destruct (merge_seg_parts A1 A1' PV NX A2 A2' (Seg x) s (vm_quantum (vm_cfg vm)) Htl Hhd) as (Elo & Ehi & Em).
  destruct (xf_tile vm A1 A2 n x s A1' PV NX A2' Har Hs Htl Hhd)
    as (B & E & st & _ & _ & _ & _ & _ & _ & _ & _ & Hlo & Hhi & _).
  rewrite Elo in Hlo. rewrite Ehi in Hhi. split_and!; [done|done|].
  rewrite Elo, Ehi in Hx. fold lo hi in Hx. destruct (goes_back _ _ _ _).
  - destruct Hx as (B1 & sp & i & vm' & EA & Er & Har' & _).
    pose proof (returned_abs vm A1 A2 n x s A1' PV NX A2' Har Hs Htl Hhd B1 sp _ _ i vm' _ EA Har') as Ea.
    exists vm', (B1 ++ A2'). eexists. split_and!; [exact Har'|by eapply returned_steps|by rewrite Ea|done| |by rewrite Ea].
    apply elem_of_span_set. eexists _, _. split_and!; [by eapply returned_span|done..].
  - destruct Hx as (vm' & Er & Har' & _).
    set (ms := merge_seg _ _ _ _) in *.
    pose proof (keep_abs vm A1 A2 n x s A1' PV NX A2' Har Hs Htl Hhd ms.1 (with_type VMEM_FREE ms.2) eq_refl) as Ea.
    exists vm'. eexists _, _. split_and!; [exact Har'| |by rewrite Ea|done|by rewrite Ea|].
    + rewrite Ea. by apply vsteps_one, (free_step vm A1 A2 n x s A1' PV NX A2').
    + exists ms.1. unfold lo, hi. rewrite <- Elo, <- Ehi, <- Em. apply elem_of_app. right. left.
Qed.

Lemma demo_plain : request_ok 0x3000 0x1000 0 0 0 0.
Proof.
  split; [lia|exists 12; split; [lia|done]|lia|by left|unfold is_word; lia|unfold is_word; lia|by left|lia].
Qed.

Lemma demo_arena2 : arena demo_vm2 (view_of demo_vm2) 37.
Proof.
  destruct (@xalloc_served Z demo_env 0x3000 0x1000 0 0 0 0 VM_NOSLEEP demo_plain 0 demo_vm1 0
    (view_of demo_vm1) 38 demo_arena1) as (A1 & x & s & A2 & t & r & vm' & E & _ & _ & _ & _ & _ & Hc).
  - vm_compute. lia.
  - reflexivity.
  - split_and!; [by exists 1|by exists 0|by exists 0].
  - exists (Seg 39), (Sg 0x10000 0x20000 VMEM_FREE false), 0x10000. rewrite demo_view1. split_and!.
    + right. right. left.
    + reflexivity.
    + vm_compute. discriminate.
    + unfold fits. simpl. split_and!; lia || done.
  - destruct Hc as (L & R & imp & Har & _).
    assert (Ev : vm' = demo_vm2) by (unfold demo_vm2, run_alloc; by rewrite E).
    rewrite Ev in Har. destruct (arena_view _ _ _ Har) as [EA En]. rewrite <- EA.
    replace 37%nat with (length (vm_segfree demo_vm2)) by (vm_compute; reflexivity). by rewrite <- En.
Qed.

Definition demo_seg2 : seg := Sg 0x10000 0x13000 VMEM_ALLOC false.

Definition demo_free2 : segp * seg := (Seg 38, Sg 0x13000 0x20000 VMEM_FREE false).

Lemma demo_view2 :
  view_of demo_vm2 = [(Rotor, Sg 0 0 VMEM_ROTOR false); demo_span] ++ (Seg 39, demo_seg2) :: [demo_free2].
Proof. vm_compute. reflexivity. Qed.

(** An imported span with one allocation, the only one. *)
Definition demo_vm3 : vmem :=
  match @vmem_xalloc Z demo_env 1 0x3000 0x1000 0 0 0 0 VM_NOSLEEP (demo_vm0, 0x50000) with
  | Ok (_, s) => s.1 | Panic _ => demo_vm0 end.
Definition demo_span3 : segp * seg := (Seg 40, Sg 0x50000 0x53000 VMEM_SPAN false).
Definition demo_seg3 : seg := Sg 0x50000 0x53000 VMEM_ALLOC true.

Lemma demo_view3 :
  view_of demo_vm3 = [(Rotor, Sg 0 0 VMEM_ROTOR false); demo_span3] ++ (Seg 39, demo_seg3) :: [].
Proof. vm_compute. reflexivity. Qed.

Lemma demo_arena3 : arena demo_vm3 (view_of demo_vm3) 38.
Proof.
  destruct (@xalloc_imports Z demo_env 0x3000 0x1000 0 VM_NOSLEEP demo_plain demo_vm0 0x50000 0x53000
    rotor_view 40 0x50000 demo_arena0) with (it := 0%nat)
    as (t & B1 & B2 & sp & ns & r & vm1 & vm' & E & _ & _ & _ & _ & _ & Hc).
  - vm_compute; lia.
  - reflexivity.
  - split_and!; [by exists 1|by exists 0|by exists 0].
  - intros p s t Hin Ht. unfold rotor_view in Hin. by apply list_elem_of_singleton in Hin as [= -> ->].
  - reflexivity.
  - reflexivity.
  - vm_compute. discriminate.
  - intros vmx. reflexivity.
  - lia.
  - vm_compute. reflexivity.
  - by exists 0x50.
  - by exists 0x53.
  - intros p s Hin Ht. unfold rotor_view in Hin. by apply list_elem_of_singleton in Hin as [= -> ->].
  - vm_compute. discriminate.
  - destruct Hc as (L & R & imp & Har & _).
    assert (Ev : vm' = demo_vm3) by (unfold demo_vm3; by rewrite E).
    rewrite Ev in Har. destruct (arena_view _ _ _ Har) as [EA En]. rewrite <- EA.
    replace 38%nat with (length (vm_segfree demo_vm3)) by (vm_compute; reflexivity). by rewrite <- En.
Qed.

(** The allocation next to a free segment of a span that is not imported, and
    the only allocation of an imported one. *)
Lemma xfree_refines_witness :
  let A := view_of demo_vm2 in
  let B := view_of demo_vm3 in
  (exists vm' A' n', arena vm' A' n' /\ vsteps (abs A) (abs A') /\
    @vmem_xfree Z demo_env 0x10000 0x3000 (demo_vm2, 0) = Ok (vm', 0) /\
    exists m, (m, Sg 0x10000 0x20000 VMEM_FREE false) ∈ A') /\
  (exists vm' A' n', arena vm' A' n' /\ vsteps (abs B) (abs A') /\
    @vmem_xfree Z demo_env 0x50000 0x3000 (demo_vm3, 0) =
      Ok (@env_source_free Z demo_env 0x50000 0x3000 (vm', 0)) /\
    (0x50000, 0x53000) ∈ sp_spans (abs B) /\ sp_spans (abs A') = sp_spans (abs B) ∖ {[(0x50000, 0x53000)]}).
Proof.
  intros A B. split.
  - pose proof demo_arena2 as Har. assert (EA : A = _) by exact demo_view2. fold A in Har. rewrite EA in *.
    pose proof (@xfree_refines Z demo_env demo_vm2 0 _ _ 37 (Seg 39) demo_seg2 Har eq_refl) as H.
    assert (Eb : goes_back (vm_cfg demo_vm2) [(Rotor, Sg 0 0 VMEM_ROTOR false); demo_span] demo_seg2 [demo_free2] =
      false) by (vm_compute; reflexivity).
    rewrite Eb in H. destruct H as (_ & _ & vm' & A' & n' & H1 & H2 & _ & H3 & _ & H4).
    exists vm', A', n'. split; [exact H1|]. split; [exact H2|]. split; [exact H3|exact H4].
  - pose proof demo_arena3 as Har. assert (EB : B = _) by exact demo_view3. fold B in Har. rewrite EB in *.
    pose proof (@xfree_refines Z demo_env demo_vm3 0 _ _ 38 (Seg 39) demo_seg3 Har eq_refl) as H.
    assert (Eb : goes_back (vm_cfg demo_vm3) [(Rotor, Sg 0 0 VMEM_ROTOR false); demo_span3] demo_seg3 [] =
      true) by (vm_compute; reflexivity).
    rewrite Eb in H. destruct H as (_ & _ & vm' & A' & n' & H1 & H2 & _ & H3 & H4 & H5).
    exists vm', A', n'. split; [exact H1|]. split; [exact H2|]. split; [exact H3|]. split; [exact H4|exact H5].
Defined.

(** A free of an address where no allocation starts, or with a size other
    than the allocation's, stops with the report of vmem_hash_delete and never
    changes the arena. *)
Theorem bad_free_detected {W} {env : vmem_env W} (vm : vmem) (w : W) (A : view) (n : nat) (addr size : Z) :
  arena vm A n ->
  (forall p s, (p, s) ∈ A -> vs_type s = VMEM_ALLOC -> vs_start s = addr -> VS_SIZE s <> size) ->
  exists why, vmem_xfree addr size (vm, w) = Panic why /\
    (why = "vmem_hash_delete: bad free"%string \/ why = "vmem_hash_delete: wrong size"%string).
Proof.
  intros Har Hno.
  destruct (decide (Exists (fun ps => vs_type ps.2 = VMEM_ALLOC /\ vs_start ps.2 = addr) A)) as [Hex|Hnex].
  - apply Exists_exists in Hex as ([p s] & Hin & Ht & Ha). simpl in *. eexists. split; [|right; reflexivity].
    subst addr. eapply (arena_xfree_wrong_size vm w A n p s size); eauto.
  - eexists. split; [|left; reflexivity]. eapply arena_xfree_bad; [exact Har|].
    intros p s Hin Ht Ha. apply Hnex. apply Exists_exists. by exists (p, s).
Qed.

Lemma bad_free_detected_witness :
  (exists why, @vmem_xfree Z demo_env 0x11000 0x1000 (demo_vm2, 0) = Panic why /\
    (why = "vmem_hash_delete: bad free"%string \/ why = "vmem_hash_delete: wrong size"%string)) /\
  (exists why, @vmem_xfree Z demo_env 0x10000 0x1000 (demo_vm2, 0) = Panic why /\
    (why = "vmem_hash_delete: bad free"%string \/ why = "vmem_hash_delete: wrong size"%string)).
Proof.
  split; apply (@bad_free_detected Z demo_env demo_vm2 0 (view_of demo_vm2) 37 _ _ demo_arena2);
    intros p s Hin Ht Ha Hsz; revert Hin Ht Ha Hsz; change (view_of demo_vm2) with (view_of demo_vm2);
    (replace (view_of demo_vm2) with
      [(Rotor, Sg 0 0 VMEM_ROTOR false); demo_span; (Seg 39, demo_seg2);
       (Seg 38, Sg 0x13000 0x20000 VMEM_FREE false)] by (vm_compute; reflexivity));
    intros [[= -> ->]|[[= -> ->]|[[= -> ->]|[[= -> ->]|Hin%elem_of_nil]%elem_of_cons]%elem_of_cons]%elem_of_cons]%elem_of_cons; simpl; done.
Defined.

(** ** Accounting *)

(** vmem_size reports the bytes in use, the rest of the spans, and the
    spans; where every allocation is a multiple of the quantum, what it reports
    as free is the total size of the free segments. *)
Theorem size_totals (vm : vmem) (A : view) (n : nat) :
  arena vm A n ->
  vmem_size VMEM_ALLOC vm = w64 (sum_type VMEM_ALLOC A) /\
  vmem_size (Z.lor VMEM_ALLOC VMEM_FREE) vm = w64 (sum_type VMEM_SPAN A) /\
  ((forall p s, (p, s) ∈ A -> vs_type s = VMEM_ALLOC -> (vm_quantum (vm_cfg vm) | vs_end s)) ->
   vmem_size VMEM_FREE vm = w64 (sum_type VMEM_FREE A)).
Proof.
  intros Har. destruct (vmem_size_spec _ _ _ Har) as (E1 & E2 & E3). split_and!; [done|done|].
  intros Hmul. rewrite E2, (arena_conserves _ _ _ Har Hmul). f_equal. lia.
Qed.

Lemma size_totals_witness :
  vmem_size VMEM_ALLOC demo_vm2 = w64 (sum_type VMEM_ALLOC (view_of demo_vm2)) /\
  vmem_size (Z.lor VMEM_ALLOC VMEM_FREE) demo_vm2 = w64 (sum_type VMEM_SPAN (view_of demo_vm2)) /\
  ((forall p s, (p, s) ∈ view_of demo_vm2 -> vs_type s = VMEM_ALLOC ->
      (vm_quantum (vm_cfg demo_vm2) | vs_end s)) ->
   vmem_size VMEM_FREE demo_vm2 = w64 (sum_type VMEM_FREE (view_of demo_vm2))).
Proof. exact (size_totals demo_vm2 (view_of demo_vm2) 37 demo_arena2). Defined.

(** Vmem_create sets up a well-formed arena with no span, and vmem_add
    gives it the span [base, base + size) as one free segment. *)
Theorem create_wellformed {W} {env : vmem_env W} (c : vmem_cfg) (k : nat) (base size vmflag : Z) (w : W) :
  quantum_ok c -> (2 <= k)%nat -> 0 < base -> 0 < size -> base + size < 2 ^ 64 ->
  (vm_quantum c | base) -> (vm_quantum c | base + size) ->
  (forall vmx, env_populate vmflag (vmx, w) = (true, (vmx, w))) ->
  exists vm' A' n', vmem_add base size vmflag (putsegs k 1 (vmem_fresh c), w) = Ok (base, (vm', w)) /\
    arena vm' A' n' /\ abs A' = VSpec {[(base, base + size)]} ∅ /\
    exists p, (p, Sg base (base + size) VMEM_FREE false) ∈ A'.
Proof.
  intros Hq Hk Hb Hs Hw Qb Qe Hpop.
  assert (Har : arena (putsegs k 1 (vmem_fresh c)) rotor_view (k + 0)).
  { apply arena_putsegs; [by apply arena_fresh|]. intros b _.
    split; [intros [=]%list_elem_of_singleton|intros []%elem_of_nil]. }
  assert (Ecfg : vm_cfg (putsegs k 1 (vmem_fresh c)) = c).
  { assert (Hg : forall k a vm, vm_cfg (putsegs k a vm) = vm_cfg vm).
    { clear. intros k. induction k as [|k IH]; intros; [done|]. simpl. by rewrite IH. }
    by rewrite Hg. }
  assert (Espans : vm_spans (putsegs k 1 (vmem_fresh c)) = [Seg0]).
  { destruct (ar_rep _ _ _ Har) as (F & H & hp & Hr & _). by rewrite (rp_spans _ _ _ _ _ _ _ _ _ _ Hr). }
  apply arena_contains_count in Har. change (vm_cfg (putsegs k 1 (vmem_fresh c)))
    with (vm_cfg (kcount vk_contains 1 (putsegs k 1 (vmem_fresh c)))) in Ecfg.
  replace (k + 0)%nat with (S (S (k - 2))) in Har by lia.
  destruct (arena_span_create _ _ _ base size false Har) as (B1 & B2 & sp & ns & vm' & EA & E & Har' & _);
    rewrite ?Ecfg; try done.
  { intros p s Hin Ht. unfold rotor_view in Hin. by apply list_elem_of_singleton in Hin as [= -> ->]. }
  exists vm'. eexists _, _. split_and!; [|exact Har'| |].
  - unfold vmem_add. rewrite (proj2 (Z.eqb_neq base 0)), (proj2 (Z.eqb_neq size 0)) by lia.
    cbn [orb fst snd]. unfold vmem_contains. rewrite Espans. cbn [tail contains_scan ASSERT negb res_bind].
    rewrite Hpop, E. done.
  - assert (Hno : forall p s, (p, s) ∈ B1 ++ B2 -> vs_type s = VMEM_ROTOR).
    { intros p s. rewrite <- EA. unfold rotor_view. by intros [= -> ->]%list_elem_of_singleton. }
    unfold abs. f_equal; apply set_eq; intros [b e].
    + rewrite elem_of_span_set, elem_of_singleton. split.
      * intros (p & s & [Hin|[[= -> ->]|[= -> ->]]]%span_pair_elem & Ht & <- & <-); [|done..].
        by rewrite (Hno _ _ Hin) in Ht.
      * intros [= -> ->]. exists (Seg sp), (Sg base (base + size) VMEM_SPAN false).
        rewrite span_pair_elem. tauto.
    + rewrite elem_of_alloc_set, elem_of_empty. split; [|done].
      intros (p & s & [Hin|[[= -> ->]|[= -> ->]]]%span_pair_elem & Ht & <- & <-); [|done..].
      by rewrite (Hno _ _ Hin) in Ht.
  - exists (Seg ns). rewrite span_pair_elem. tauto.
Qed.

Lemma create_wellformed_witness :
  exists vm' A' n', @vmem_add Z demo_env 0x10000 0x4000 VM_NOSLEEP (putsegs 8 1 (vmem_fresh demo_cfg), 0) =
      Ok (0x10000, (vm', 0)) /\
    arena vm' A' n' /\ abs A' = VSpec {[(0x10000, 0x10000 + 0x4000)]} ∅ /\
    exists p, (p, Sg 0x10000 (0x10000 + 0x4000) VMEM_FREE false) ∈ A'.
Proof.
  apply (@create_wellformed Z demo_env demo_cfg 8 0x10000 0x4000 VM_NOSLEEP 0); try lia.
  - split; [simpl; lia|done].
  - by exists 16.
  - by exists 20.
  - reflexivity.
Defined.

(** ** Two behaviours of the import path *)

(** The size vmem_xalloc asks its source for is too small when the alignment
    exceeds the source's quantum: with a source that returns 0x51000, a request
    of 0x2000 bytes aligned to 0x2000 imports [0x51000, 0x53000) and picks
    0x52000, 0x1000 bytes short of room.  The assertion of vmem_seg_alloc stops
    the program; without assertions the allocation would run past its span. *)
Theorem import_overruns_span :
  P2PHASEUP 0x51000 0x2000 0 + 0x2000 = 0x53000 + 0x1000 /\
  @vmem_xalloc Z demo_env 1 0x2000 0x2000 0 0 0 0 VM_NOSLEEP (demo_vm0, 0x51000) =
    Panic "addr >= vs_start && addr_end - 1 <= vs_end - 1".
Proof. by vm_compute. Qed.

Definition demo_cfg_big : vmem_cfg := VmemCfg 0x1000 12 0 0 0 true true 0x10000 None.

(** Allocate 0x3000 and 0xd000 bytes from an imported span, free the first,
    allocate and free 0x1000 bytes from it, free the second. *)
Definition lost_import_run : result (vmem * Z) :=
  let xalloc size s := @vmem_xalloc Z demo_env 1 size 0x1000 0 0 0 0 VM_NOSLEEP s in
  do (_, s) <- xalloc 0x3000 (putsegs 40 1 (vmem_fresh demo_cfg_big), 0x50000);
  do (_, s) <- xalloc 0xd000 s;
  do s <- @vmem_xfree Z demo_env 0x50000 0x3000 s;
  do (_, s) <- xalloc 0x1000 s;
  do s <- @vmem_xfree Z demo_env 0x50000 0x1000 s;
  @vmem_xfree Z demo_env 0x53000 0xd000 s.

(** The import mark is lost when the fast path of vmem_seg_alloc splits a
    free segment and the pieces are freed again: the imported span ends up
    entirely free but is kept, its mark gone, although the source could have it
    back. *)
Theorem import_mark_lost :
  match lost_import_run with
  | Ok (vm', _) =>
      view_of vm' = [(Rotor, Sg 0 0 VMEM_ROTOR false); (Seg 40, Sg 0x50000 0x60000 VMEM_SPAN false);
                     (Seg 37, Sg 0x50000 0x60000 VMEM_FREE false)]
  | Panic _ => False
  end.
Proof. vm_compute. reflexivity. Qed.
