(* ===== verification/SlabModel.v ===== *)
(** * The slab layer of an object cache: data and operations

    A cache ([umem_cache_t], the slab part) owns slabs obtained from its arena,
    each cut into chunks; free chunks are chained through mangled links, for
    most caches inside the user's own buffers.  This file translates
    [umem_slab_create], [umem_slab_destroy], [umem_slab_alloc],
    [umem_slab_free], [umem_slab_link_valid], [umem_findslab],
    [umem_hash_rescale], [umem_cache_reclaim_pages] and
    [umem_cache_drain_slabs] of [umem.c].

    Memory is a map from word addresses to 64-bit words; the link [bc_next] of
    a bufctl at address [b] is the word at [b] (it is the structure's first
    field, so the same expression reads a bufctl structure and a raw buffer).
    The other two fields of the bufctls of hashed caches are in their own map.
    [slab_next] and [slab_prev] are a ring: the list of slab addresses from
    [cache_nullslab.slab_next], with the null slab at its end.  Each operation
    runs under [cache_lock]; the fields of the audit bufctls and the logs are
    not part of the model. *)
From S2P Require Import Prelude Machine.

(** ** Flags and constants (umem_impl.h, umem.h) *)

Definition UMF_AUDIT : Z := 0x1.
Definition UMF_DEADBEEF : Z := 0x2.
Definition UMF_REDZONE : Z := 0x4.
Definition UMF_CONTENTS : Z := 0x8.
Definition UMF_CHECKSIGNAL : Z := 0x10.
Definition UMF_NOMAGAZINE : Z := 0x20.
Definition UMF_FIREWALL : Z := 0x40.
Definition UMF_LITE : Z := 0x100.
Definition UMF_HASH : Z := 0x200.
Definition UMF_RANDOMIZE : Z := 0x400.
Definition UMF_PTC : Z := 0x800.
Definition UMF_CHECKNULL : Z := 0x1000.
Definition UMF_HOOKED : Z := 0x2000.
Definition UMF_BUFTAG : Z := Z.lor UMF_DEADBEEF UMF_REDZONE.
Definition UMF_TOUCH : Z := Z.lor (Z.lor UMF_BUFTAG UMF_LITE) UMF_CONTENTS.
Definition UMF_RANDOM : Z := Z.lor (Z.lor UMF_TOUCH UMF_AUDIT) UMF_NOMAGAZINE.
Definition UMF_DEBUG : Z := Z.lor UMF_RANDOM UMF_FIREWALL.

Definition UMC_NOTOUCH : Z := 0x10000.
Definition UMC_NODEBUG : Z := 0x20000.
Definition UMC_NOMAGAZINE : Z := 0x40000.
Definition UMC_NOHASH : Z := 0x80000.
Definition UMC_QCACHE : Z := 0x100000.
Definition UMC_INTERNAL : Z := 0x80000000.

Definition UMEM_FREE_PATTERN : Z := 0xdeadbeefdeadbeef.
Definition UMEM_UNINITIALIZED_PATTERN : Z := 0xbaddcafebaddcafe.
Definition UMEM_REDZONE_PATTERN : Z := 0xfeedfacefeedface.
Definition UMEM_REDZONE_BYTE : Z := 0xbb.
Definition UMEM_BUFTAG_ALLOC : Z := 0xa110c8ed.
Definition UMEM_BUFTAG_FREE : Z := 0xf4eef4ee.

Definition SLAB_ACTIVE : Z := 0.
Definition SLAB_DIRTY : Z := 1.
Definition SLAB_CLEAN : Z := 2.
Definition SLAB_RECLAIMING : Z := 3.

Definition UMEM_ALIGN : Z := 8.
Definition UMEM_HASH_INITIAL : Z := 64.
(** [sizeof (umem_slab_t)] on LP64. *)
Definition sizeof_slab : Z := 72.

Definition has (flags m : Z) : bool := negb (Z.land flags m =? 0).

(** The error codes [umem_error] is called with. *)
Inductive umerr : Type :=
| UMERR_MODIFIED | UMERR_REDZONE | UMERR_DUPFREE | UMERR_BADADDR
| UMERR_BADBUFTAG | UMERR_BADBUFCTL | UMERR_BADCACHE | UMERR_BADSIZE
| UMERR_BADBASE.

#[global] Instance umerr_eq_dec : EqDecision umerr.
Proof. solve_decision. Defined.

(** ** Word memory *)

Definition memory : Type := gmap Z Z.
Definition ld (m : memory) (a : Z) : Z := default 0 (m !! a).
Definition st (m : memory) (a v : Z) : memory := <[a := v]> m.

(** The number of 8-byte stores of a loop from [buf] below [buf + size]. *)
Definition nwords (size : Z) : nat := Z.to_nat ((size + 7) / 8).

Fixpoint copy_words (n : nat) (pattern a : Z) (m : memory) : memory :=
  match n with
  | O => m
  | S n' => copy_words n' pattern (a + 8) (st m a pattern)
  end.
Definition copy_pattern (pattern : Z) (m : memory) (buf size : Z) : memory :=
  copy_words (nwords size) pattern buf m.

(** The address of the first word that differs, or NULL. *)
Fixpoint verify_words (n : nat) (pattern a : Z) (m : memory) : Z :=
  match n with
  | O => 0
  | S n' => if ld m a =? pattern then verify_words n' pattern (a + 8) m else a
  end.
Definition verify_pattern (pattern : Z) (m : memory) (buf size : Z) : Z :=
  verify_words (nwords size) pattern buf m.

(** [verify_and_copy_pattern]: [buf0] is the buffer, [a] the current word. *)
Fixpoint vcopy_words (n : nat) (old new buf0 a : Z) (m : memory) : memory * Z :=
  match n with
  | O => (m, 0)
  | S n' =>
      if ld m a =? old then vcopy_words n' old new buf0 (a + 8) (st m a new)
      else (copy_pattern old m buf0 (a - buf0), a)
  end.
Definition verify_and_copy_pattern (old new : Z) (m : memory) (buf size : Z) : memory * Z :=
  vcopy_words (nwords size) old new buf buf m.

(** ** Data *)

Record umem_slab := Slab {
  slab_cache : Z;
  slab_base : Z;
  slab_head : Z;
  slab_refcnt : Z;
  slab_chunks : Z;
  slab_state : Z;
  slab_idle_time : Z;
}.

(** [bc_addr] and [bc_slab] of a bufctl of a hashed cache. *)
Record bufctl := Bufctl { bc_addr : Z; bc_slab : Z }.

(** What [umem_cache_create] fixes. *)
Record slab_cfg := SlabCfg {
  cache_self : Z;                 (* cp *)
  cache_nullslab : Z;             (* &cp->cache_nullslab *)
  cache_null : bool;              (* cp == &umem_null_cache *)
  cache_bufsize : Z;
  cache_align : Z;
  cache_chunksize : Z;
  cache_slabsize : Z;
  cache_bufctl : Z;
  cache_buftag : Z;
  cache_verify : Z;
  cache_contents : Z;
  cache_mincolor : Z;
  cache_maxcolor : Z;
  cache_hash_shift : Z;
  cache_flags : Z;
  cache_cflags : Z;
  cache_quantum : Z;              (* cache_arena->vm_quantum *)
  umem_link_cookie : Z;
  umem_reclaim_enabled : bool;
  umem_reclaim_delay : Z;
  umem_reap_interval : Z;
}.

(** The statistics counters of the slab layer (64-bit). *)
Record slab_stats := Stats {
  cache_slab_create : Z;
  cache_slab_destroy : Z;
  cache_slab_alloc : Z;
  cache_slab_free : Z;
  cache_alloc_fail : Z;
  cache_buftotal : Z;
  cache_bufmax : Z;
  cache_rescale : Z;
  cache_lookup_depth : Z;
}.

Record cache := Cache {
  cfg : slab_cfg;
  cache_color : Z;
  slabs : gmap Z umem_slab;
  ring : list Z;
  cache_freelist : Z;
  cache_hash_base : Z;
  cache_hash_table : list Z;
  cache_hash_mask : Z;
  bufctls : gmap Z bufctl;
  mem : memory;
  stats : slab_stats;
}.

Definition set_color v (c : cache) : cache :=
  Cache (cfg c) v (slabs c) (ring c) (cache_freelist c)
    (cache_hash_base c) (cache_hash_table c) (cache_hash_mask c) (bufctls c) (mem c) (stats c).
Definition set_slabs v (c : cache) : cache :=
  Cache (cfg c) (cache_color c) v (ring c) (cache_freelist c)
    (cache_hash_base c) (cache_hash_table c) (cache_hash_mask c) (bufctls c) (mem c) (stats c).
Definition set_ring v (c : cache) : cache :=
  Cache (cfg c) (cache_color c) (slabs c) v (cache_freelist c)
    (cache_hash_base c) (cache_hash_table c) (cache_hash_mask c) (bufctls c) (mem c) (stats c).
Definition set_freelist v (c : cache) : cache :=
  Cache (cfg c) (cache_color c) (slabs c) (ring c) v
    (cache_hash_base c) (cache_hash_table c) (cache_hash_mask c) (bufctls c) (mem c) (stats c).
Definition set_table v (c : cache) : cache :=
  Cache (cfg c) (cache_color c) (slabs c) (ring c) (cache_freelist c)
    (cache_hash_base c) v (cache_hash_mask c) (bufctls c) (mem c) (stats c).
Definition set_mask v (c : cache) : cache :=
  Cache (cfg c) (cache_color c) (slabs c) (ring c) (cache_freelist c)
    (cache_hash_base c) (cache_hash_table c) v (bufctls c) (mem c) (stats c).
Definition set_base v (c : cache) : cache :=
  Cache (cfg c) (cache_color c) (slabs c) (ring c) (cache_freelist c)
    v (cache_hash_table c) (cache_hash_mask c) (bufctls c) (mem c) (stats c).
Definition set_bufctls v (c : cache) : cache :=
  Cache (cfg c) (cache_color c) (slabs c) (ring c) (cache_freelist c)
    (cache_hash_base c) (cache_hash_table c) (cache_hash_mask c) v (mem c) (stats c).
Definition set_mem v (c : cache) : cache :=
  Cache (cfg c) (cache_color c) (slabs c) (ring c) (cache_freelist c)
    (cache_hash_base c) (cache_hash_table c) (cache_hash_mask c) (bufctls c) v (stats c).
Definition set_stats v (c : cache) : cache :=
  Cache (cfg c) (cache_color c) (slabs c) (ring c) (cache_freelist c)
    (cache_hash_base c) (cache_hash_table c) (cache_hash_mask c) (bufctls c) (mem c) v.

Definition stat_create (n : Z) (t : slab_stats) : slab_stats :=
  let total := wadd (cache_buftotal t) n in
  Stats (wadd (cache_slab_create t) 1) (cache_slab_destroy t) (cache_slab_alloc t)
    (cache_slab_free t) (cache_alloc_fail t) total
    (if cache_bufmax t <? total then total else cache_bufmax t)
    (cache_rescale t) (cache_lookup_depth t).
Definition stat_destroy (n : Z) (t : slab_stats) : slab_stats :=
  Stats (cache_slab_create t) (wadd (cache_slab_destroy t) 1) (cache_slab_alloc t)
    (cache_slab_free t) (cache_alloc_fail t) (wsub (cache_buftotal t) n)
    (cache_bufmax t) (cache_rescale t) (cache_lookup_depth t).
Definition stat_alloc (t : slab_stats) : slab_stats :=
  Stats (cache_slab_create t) (cache_slab_destroy t) (wadd (cache_slab_alloc t) 1)
    (cache_slab_free t) (cache_alloc_fail t) (cache_buftotal t)
    (cache_bufmax t) (cache_rescale t) (cache_lookup_depth t).
Definition stat_free (t : slab_stats) : slab_stats :=
  Stats (cache_slab_create t) (cache_slab_destroy t) (cache_slab_alloc t)
    (wadd (cache_slab_free t) 1) (cache_alloc_fail t) (cache_buftotal t)
    (cache_bufmax t) (cache_rescale t) (cache_lookup_depth t).
Definition stat_fail (t : slab_stats) : slab_stats :=
  Stats (cache_slab_create t) (cache_slab_destroy t) (cache_slab_alloc t)
    (cache_slab_free t) (wadd (cache_alloc_fail t) 1) (cache_buftotal t)
    (cache_bufmax t) (cache_rescale t) (cache_lookup_depth t).
Definition stat_rescale (t : slab_stats) : slab_stats :=
  Stats (cache_slab_create t) (cache_slab_destroy t) (cache_slab_alloc t)
    (cache_slab_free t) (cache_alloc_fail t) (cache_buftotal t)
    (cache_bufmax t) (wadd (cache_rescale t) 1) (cache_lookup_depth t).
Definition stat_depth (n : Z) (t : slab_stats) : slab_stats :=
  Stats (cache_slab_create t) (cache_slab_destroy t) (cache_slab_alloc t)
    (cache_slab_free t) (cache_alloc_fail t) (cache_buftotal t)
    (cache_bufmax t) (cache_rescale t) (wadd (cache_lookup_depth t) n).

Definition set_head v (s : umem_slab) : umem_slab :=
  Slab (slab_cache s) (slab_base s) v (slab_refcnt s) (slab_chunks s) (slab_state s)
    (slab_idle_time s).
Definition set_refcnt v (s : umem_slab) : umem_slab :=
  Slab (slab_cache s) (slab_base s) (slab_head s) v (slab_chunks s) (slab_state s)
    (slab_idle_time s).
Definition set_state v idle (s : umem_slab) : umem_slab :=
  Slab (slab_cache s) (slab_base s) (slab_head s) (slab_refcnt s) (slab_chunks s) v idle.

(** ** The macros of umem_impl.h *)

Definition UMEM_LINK_MANGLE (f : slab_cfg) (slot v : Z) : Z :=
  Z.lxor (Z.lxor v (umem_link_cookie f)) (Z.shiftr slot 12).
Definition UMEM_BUFTAG (f : slab_cfg) (buf : Z) : Z := wadd buf (cache_buftag f).
Definition UMEM_BUFCTL (f : slab_cfg) (buf : Z) : Z := wadd buf (cache_bufctl f).
Definition UMEM_BUF (f : slab_cfg) (bcp : Z) : Z := wsub bcp (cache_bufctl f).
Definition UMEM_SLAB (f : slab_cfg) (buf : Z) : Z :=
  wsub (P2END buf (cache_slabsize f)) sizeof_slab.
Definition UMEM_SLAB_MEMBER (f : slab_cfg) (s : umem_slab) (buf : Z) : bool :=
  wsub buf (slab_base s) <? w64 (slab_chunks s * cache_chunksize f).
Definition UMEM_SLAB_CHUNK (f : slab_cfg) (s : umem_slab) (buf : Z) : bool :=
  UMEM_SLAB_MEMBER f s buf && (wsub buf (slab_base s) mod cache_chunksize f =? 0).
Definition UMEM_HASH (c : cache) (buf : Z) : nat :=
  Z.to_nat (Z.land (Z.shiftr buf (cache_hash_shift (cfg c))) (cache_hash_mask c)).

Definition hashed (c : cache) : bool := has (cache_flags (cfg c)) UMF_HASH.

(** The bufctl's [bc_next], and the slab freelist link it stores mangled. *)
Definition link_of (c : cache) (bcp : Z) : Z :=
  UMEM_LINK_MANGLE (cfg c) bcp (ld (mem c) bcp).
Definition set_link (c : cache) (bcp next : Z) : cache :=
  set_mem (st (mem c) bcp (UMEM_LINK_MANGLE (cfg c) bcp next)) c.

(** [*sp], for an [sp] that is a slab header of the cache. *)
Definition upd_slab (sp : Z) (g : umem_slab -> umem_slab) (c : cache) : cache :=
  set_slabs (alter g sp (slabs c)) c.

(** ** What the slab layer calls *)

(** The cache's arena, [umem_slab_cache], [cache_bufctl_cache], the arena of
    the hash tables and [umem_error] (which stops the program or returns, as
    the options say), with their state [W].  0 is NULL. *)
Class slab_env (W : Type) := {
  env_vmem_alloc : W -> Z -> W * Z;
  env_vmem_free : W -> Z -> Z -> W;
  env_slab_alloc : W -> Z -> W * Z;
  env_slab_free : W -> Z -> W;
  env_bufctl_alloc : W -> Z -> W * Z;
  env_bufctl_free : W -> Z -> W;
  env_table_alloc : W -> Z -> W * Z;
  env_table_free : W -> Z -> Z -> W;
  env_decommit : W -> Z -> Z -> W;
  env_error : W -> umerr -> Z -> result W;
}.

(** ** Ring operations *)

(** Link [x] before the node [p] (the null slab ends the ring). *)
Fixpoint insert_before (p x : Z) (l : list Z) : list Z :=
  match l with
  | [] => []
  | y :: l' => if decide (y = p) then x :: y :: l' else y :: insert_before p x l'
  end.

(** The nodes after [p]. *)
Fixpoint after (p : Z) (l : list Z) : list Z :=
  match l with
  | [] => []
  | y :: l' => if decide (y = p) then l' else after p l'
  end.

Definition slab_next (c : cache) (sp : Z) : Z :=
  match after sp (ring c) with
  | x :: _ => x
  | [] => hd (cache_nullslab (cfg c)) (ring c)
  end.

(** Link a slab before the freelist's first and make it the freelist. *)
Definition freelist_push (sp : Z) (c : cache) : cache :=
  set_freelist sp (set_ring (insert_before (cache_freelist c) sp (ring c)) c).

(** Unlink a slab; the freelist moves past it if it was first. *)
Definition slab_unlink (sp : Z) (c : cache) : cache :=
  let fl := if sp =? cache_freelist c then slab_next c sp else cache_freelist c in
  set_freelist fl (set_ring (unlink sp (ring c)) c).

Section ops.
Context {W : Type} {env : slab_env W}.

Definition umem_slab_link_valid (f : slab_cfg) (s : umem_slab) (bcp : Z) : bool :=
  if bcp =? 0 then true
  else if negb (P2PHASE bcp UMEM_ALIGN =? 0) then false
  else if negb (has (cache_flags f) UMF_HASH) && negb (UMEM_SLAB_CHUNK f s (UMEM_BUF f bcp))
  then false
  else true.

(** The tag and free pattern [umem_slab_create] writes behind a buffer. *)
Definition buftag_init (f : slab_cfg) (m : memory) (buf bcp : Z) : memory :=
  let bt := UMEM_BUFTAG f buf in
  let m := st m bt UMEM_REDZONE_PATTERN in
  let m := st m (bt + 8) bcp in
  let m := st m (bt + 16) (Z.lxor bcp UMEM_BUFTAG_FREE) in
  if has (cache_flags f) UMF_DEADBEEF
  then copy_pattern UMEM_FREE_PATTERN m buf (cache_verify f) else m.

(** One bufctl for the chunk at [buf]; 0 when its cache has none left. *)
Definition chunk_bufctl (w : W) (c : cache) (sp buf umflag : Z) : W * cache * Z :=
  if hashed c then
    let '(w, bcp) := env_bufctl_alloc w umflag in
    if bcp =? 0 then (w, c, 0)
    else (w, set_bufctls (<[bcp := Bufctl buf sp]> (bufctls c)) c, bcp)
  else (w, c, UMEM_BUFCTL (cfg c) buf).

(** The [while (chunks-- != 0)] loop; [false] is bufctl_alloc_failure. *)
Fixpoint slab_build (n : nat) (w : W) (c : cache) (sp buf umflag : Z) : W * cache * bool :=
  match n with
  | O => (w, c, true)
  | S n' =>
      let '(w, c, bcp) := chunk_bufctl w c sp buf umflag in
      if hashed c && (bcp =? 0) then (w, c, false)
      else
        let c := if has (cache_flags (cfg c)) UMF_BUFTAG
                 then set_mem (buftag_init (cfg c) (mem c) buf bcp) c else c in
        let head := match slabs c !! sp with Some s => slab_head s | None => 0 end in
        let c := set_link c bcp head in
        let c := upd_slab sp (set_head bcp) c in
        slab_build n' w c sp (wadd buf (cache_chunksize (cfg c))) umflag
  end.

(** [while ((bcp = sp->slab_head) != NULL)] of the failure unwinding and of
    [umem_slab_destroy]: the slab's bufctls go back to their cache.  A slab has
    at most [slab_chunks] of them; the last case is a longer chain. *)
Fixpoint bufctls_free (n : nat) (w : W) (c : cache) (sp : Z) : result (W * cache) :=
  match slabs c !! sp with
  | None => Panic "bufctls_free: no slab"
  | Some s =>
      if slab_head s =? 0 then Ok (w, c)
      else match n with
           | O => Panic "bufctls_free: chain longer than the slab"
           | S n' =>
               let bcp := slab_head s in
               let c := upd_slab sp (set_head (link_of c bcp)) c in
               let w := env_bufctl_free w bcp in
               bufctls_free n' w (set_bufctls (delete bcp (bufctls c)) c) sp
           end
  end.

Definition slab_create_failed (w : W) (c : cache) : result (W * cache * Z) :=
  Ok (w, set_stats (stat_fail (stats c)) c, 0).

(** Create a slab; 0 when memory ran out. *)
Definition umem_slab_create (w : W) (c : cache) (umflag : Z) : result (W * cache * Z) :=
  let f := cfg c in
  let slabsize := cache_slabsize f in
  let chunksize := cache_chunksize f in
  let color := wadd (cache_color c) (cache_align f) in
  let color := if cache_maxcolor f <? color then cache_mincolor f else color in
  let c := set_color color c in
  let '(w, slab) := env_vmem_alloc w slabsize in
  if slab =? 0 then slab_create_failed w c
  else
    do _ <- ASSERT (P2PHASE slab (cache_quantum f) =? 0) "P2PHASE(slab, vmp->vm_quantum) == 0";
    let c := if negb (has (cache_cflags f) UMC_NOTOUCH) && has (cache_flags f) UMF_DEADBEEF
             then set_mem (copy_pattern UMEM_UNINITIALIZED_PATTERN (mem c) slab slabsize) c
             else c in
    let '(w, sp, chunks) :=
      if hashed c then
        let '(w, sp) := env_slab_alloc w umflag in
        (w, sp, wsub slabsize color / chunksize)
      else (w, UMEM_SLAB f slab, wsub (wsub slabsize sizeof_slab) color / chunksize) in
    if sp =? 0 then slab_create_failed (env_vmem_free w slab slabsize) c
    else
      let buf := wadd slab color in
      let c := set_slabs (<[sp := Slab (cache_self f) buf 0 0 chunks SLAB_ACTIVE 0]> (slabs c)) c in
      do _ <- ASSERT (0 <? chunks) "chunks > 0";
      let '(w, c, built) := slab_build (Z.to_nat chunks) w c sp buf umflag in
      if built then Ok (w, c, sp)
      else
        do (w, c) <- bufctls_free (Z.to_nat chunks) w c sp;
        let w := env_slab_free w sp in
        let c := set_slabs (delete sp (slabs c)) c in
        slab_create_failed (env_vmem_free w slab slabsize) c.

(** Destroy a slab that is off the ring: its header leaves the cache, and its
    memory goes back to the arena. *)
Definition umem_slab_destroy (w : W) (c : cache) (sp : Z) : result (W * cache) :=
  match slabs c !! sp with
  | None => Panic "umem_slab_destroy: no slab"
  | Some s =>
      let slab := P2ALIGN (slab_base s) (cache_quantum (cfg c)) in
      do (w, c) <-
        (if hashed c then
           do (w, c) <- bufctls_free (Z.to_nat (slab_chunks s)) w c sp;
           Ok (env_slab_free w sp, c)
         else Ok (w, c));
      let c := set_slabs (delete sp (slabs c)) c in
      Ok (env_vmem_free w slab (cache_slabsize (cfg c)), c)
  end.

(** Create a slab and put it at the front of the freelist. *)
Definition slab_grow (w : W) (c : cache) (umflag : Z) : result (W * cache * Z) :=
  if cache_null (cfg c) then Ok (w, c, 0)
  else
    do (w, c, sp) <- umem_slab_create w c umflag;
    if sp =? 0 then Ok (w, c, 0)
    else
      let chunks := match slabs c !! sp with Some s => slab_chunks s | None => 0 end in
      let c := set_stats (stat_create chunks (stats c)) c in
      Ok (w, freelist_push sp c, sp).

(** The walk past slabs whose pages are being given back. *)
Fixpoint find_usable (c : cache) (l : list Z) : Z :=
  match l with
  | [] => cache_nullslab (cfg c)
  | sp :: l' =>
      if sp =? cache_nullslab (cfg c) then sp
      else match slabs c !! sp with
           | Some s => if (slab_state s =? SLAB_RECLAIMING) || (slab_head s =? 0)
                       then find_usable c l' else sp
           | None => sp
           end
  end.

(** The slab to allocate from; 0 when there is none and none can be created. *)
Definition slab_pick (w : W) (c : cache) (umflag : Z) : result (W * cache * Z) :=
  let sp := cache_freelist c in
  match slabs c !! sp with
  | None => Panic "slab_pick: freelist"
  | Some s =>
      do _ <- ASSERT (slab_cache s =? cache_self (cfg c)) "sp->slab_cache == cp";
      do (w, c, sp) <- (if slab_head s =? 0 then slab_grow w c umflag else Ok (w, c, sp));
      if sp =? 0 then Ok (w, c, 0)
      else match slabs c !! sp with
           | None => Panic "slab_pick: slab"
           | Some s =>
               if slab_state s =? SLAB_RECLAIMING then
                 let sp := find_usable c (after sp (ring c)) in
                 let usable := negb (sp =? cache_nullslab (cfg c)) &&
                               match slabs c !! sp with
                               | Some s => negb (slab_head s =? 0) | None => false end in
                 if usable then Ok (w, c, sp) else slab_grow w c umflag
               else Ok (w, c, sp)
           end
  end.

(** Take the first free buffer of the slab. *)
Definition slab_take (w : W) (c : cache) (sp : Z) : result (W * cache * Z) :=
  match slabs c !! sp with
  | None => Panic "umem_slab_alloc: slab"
  | Some s =>
      let s := if slab_state s =? SLAB_ACTIVE then s else set_state SLAB_ACTIVE 0 s in
      do _ <- ASSERT (slab_refcnt s + 1 <=? slab_chunks s) "sp->slab_refcnt <= sp->slab_chunks";
      let bcp := slab_head s in
      let next := link_of c bcp in
      if negb (umem_slab_link_valid (cfg c) s next) then
        let badbuf := if hashed c
                      then match bufctls c !! bcp with Some b => bc_addr b | None => 0 end
                      else UMEM_BUF (cfg c) bcp in
        let c := set_slabs (<[sp := set_head 0 s]> (slabs c)) c in
        let c := set_freelist (slab_next c sp) c in
        do w <- env_error w UMERR_BADADDR badbuf;
        Ok (w, c, 0)
      else
        let s := set_head next (set_refcnt (slab_refcnt s + 1) s) in
        let c := set_slabs (<[sp := s]> (slabs c)) c in
        let c := if next =? 0 then set_freelist (slab_next c sp) c else c in
        do _ <- ASSERT (negb (next =? 0) || (slab_refcnt s =? slab_chunks s)) "sp->slab_refcnt == sp->slab_chunks";
        if hashed c then
          match bufctls c !! bcp with
          | None => Panic "umem_slab_alloc: bufctl"
          | Some b =>
              let h := UMEM_HASH c (bc_addr b) in
              let c := set_mem (st (mem c) bcp (nth h (cache_hash_table c) 0)) c in
              let c := set_table (<[h := bcp]> (cache_hash_table c)) c in
              do _ <- ASSERT (UMEM_SLAB_MEMBER (cfg c) s (bc_addr b)) "UMEM_SLAB_MEMBER(sp, buf)";
              Ok (w, c, bc_addr b)
          end
        else
          do _ <- ASSERT (UMEM_SLAB_MEMBER (cfg c) s (UMEM_BUF (cfg c) bcp)) "UMEM_SLAB_MEMBER(sp, buf)";
          Ok (w, c, UMEM_BUF (cfg c) bcp)
  end.

(** Allocate a raw buffer; 0 is NULL. *)
Definition umem_slab_alloc (w : W) (c : cache) (umflag : Z) : result (W * cache * Z) :=
  let c := set_stats (stat_alloc (stats c)) c in
  do (w, c, sp) <- slab_pick w c umflag;
  if sp =? 0 then Ok (w, c, 0) else slab_take w c sp.

(** The walk of a bucket's chain for [buf]: the bufctl found (0 if none), the
    bufctl before it (0 for the bucket itself) and the number of steps.  The
    fuel is the number of bufctls. *)
Fixpoint hash_walk (n : nat) (c : cache) (buf prev bcp depth : Z) : Z * Z * Z :=
  if bcp =? 0 then (0, prev, depth)
  else match bufctls c !! bcp with
       | None => (0, prev, depth)
       | Some b =>
           if bc_addr b =? buf then (bcp, prev, depth)
           else match n with
                | O => (0, prev, depth)
                | S n' => hash_walk n' c buf bcp (ld (mem c) bcp) (depth + 1)
                end
       end.

(** Find the bufctl and slab of [buf], taking a hashed one off its chain. *)
Definition slab_lookup (c : cache) (buf : Z) : cache * Z * Z :=
  if hashed c then
    let h := UMEM_HASH c buf in
    let '(bcp, prev, depth) :=
      hash_walk (size (bufctls c)) c buf 0 (nth h (cache_hash_table c) 0) 0 in
    let c := set_stats (stat_depth depth (stats c)) c in
    if bcp =? 0 then (c, 0, 0)
    else
      let next := ld (mem c) bcp in
      let c := if prev =? 0 then set_table (<[h := next]> (cache_hash_table c)) c
               else set_mem (st (mem c) prev next) c in
      (c, bcp, match bufctls c !! bcp with Some b => bc_slab b | None => 0 end)
  else (c, UMEM_BUFCTL (cfg c) buf, UMEM_SLAB (cfg c) buf).

(** Unlink a slab whose last buffer is free and account for it. *)
Definition slab_retire (sp : Z) (c : cache) : cache :=
  let chunks := match slabs c !! sp with Some s => slab_chunks s | None => 0 end in
  let c := slab_unlink sp c in
  set_stats (stat_destroy chunks (stats c)) c.

(** Free a raw buffer.  Memory that holds no slab header of this cache is
    memory whose [slab_cache] word is not [cp]. *)
Definition umem_slab_free (w : W) (c : cache) (buf : Z) : result (W * cache) :=
  do _ <- ASSERT (negb (buf =? 0)) "buf != NULL";
  let c := set_stats (stat_free (stats c)) c in
  let '(c, bcp, sp) := slab_lookup c buf in
  match slabs c !! sp with
  | Some s =>
      if (bcp =? 0) || negb (slab_cache s =? cache_self (cfg c)) ||
         negb (UMEM_SLAB_CHUNK (cfg c) s buf)
      then do w <- env_error w UMERR_BADADDR buf; Ok (w, c)
      else
        do _ <- ASSERT (negb (slab_head s =? 0) || (slab_refcnt s =? slab_chunks s))
                  "sp->slab_refcnt == sp->slab_chunks";
        do _ <- ASSERT (negb (slab_head s =? 0) || negb (cache_freelist c =? sp)) "cp->cache_freelist != sp";
        let c := if slab_head s =? 0
                 then freelist_push sp (set_ring (unlink sp (ring c)) c) else c in
        let c := set_link c bcp (slab_head s) in
        do _ <- ASSERT (1 <=? slab_refcnt s) "sp->slab_refcnt >= 1";
        let s := set_refcnt (slab_refcnt s - 1) (set_head bcp s) in
        if slab_refcnt s =? 0 then
          if umem_reclaim_enabled (cfg c)
          then Ok (w, set_slabs (<[sp := set_state SLAB_DIRTY 0 s]> (slabs c)) c)
          else umem_slab_destroy w (slab_retire sp (set_slabs (<[sp := s]> (slabs c)) c)) sp
        else Ok (w, set_slabs (<[sp := s]> (slabs c)) c)
  | None => do w <- env_error w UMERR_BADADDR buf; Ok (w, c)
  end.

(** The slab whose chunks contain [buf], searched from the head of the ring. *)
Fixpoint findslab_scan (c : cache) (l : list Z) (buf : Z) : Z :=
  match l with
  | [] => 0
  | sp :: l' =>
      if sp =? cache_nullslab (cfg c) then 0
      else match slabs c !! sp with
           | Some s => if UMEM_SLAB_MEMBER (cfg c) s buf then sp else findslab_scan c l' buf
           | None => findslab_scan c l' buf
           end
  end.
Definition umem_findslab (c : cache) (buf : Z) : Z := findslab_scan c (ring c) buf.

(** ** Rescaling the hash table *)

(** Move the chain at [bcp] to the new table. *)
Fixpoint rehash_chain (n : nat) (bcp : Z) (c : cache) : cache :=
  if bcp =? 0 then c
  else match n with
       | O => c
       | S n' =>
           let addr := match bufctls c !! bcp with Some b => bc_addr b | None => 0 end in
           let next := ld (mem c) bcp in
           let h := UMEM_HASH c addr in
           let c := set_mem (st (mem c) bcp (nth h (cache_hash_table c) 0)) c in
           let c := set_table (<[h := bcp]> (cache_hash_table c)) c in
           rehash_chain n' next c
       end.

Fixpoint rehash_table (old : list Z) (c : cache) : cache :=
  match old with
  | [] => c
  | b :: old' => rehash_table old' (rehash_chain (size (bufctls c)) b c)
  end.

Definition umem_hash_rescale (w : W) (c : cache) : W * cache :=
  let total := cache_buftotal (stats c) in
  let new_size := Z.max UMEM_HASH_INITIAL
                    (Z.shiftl 1 (highbit (wadd (w64 (3 * total)) 4) - 2)) in
  let old_size := cache_hash_mask c + 1 in
  if (Z.shiftr old_size 1 <=? new_size) && (new_size <=? Z.shiftl old_size 1) then (w, c)
  else
    let '(w, new_table) := env_table_alloc w (new_size * 8) in
    if new_table =? 0 then (w, c)
    else
      let old := cache_hash_table c in
      let old_base := cache_hash_base c in
      let c := set_base new_table (set_mask (new_size - 1) c) in
      let c := set_table (replicate (Z.to_nat new_size) 0) c in
      let c := set_stats (stat_rescale (stats c)) c in
      let c := rehash_table old c in
      (env_table_free w old_base (old_size * 8), c).

(** ** Giving pages and slabs back *)

Definition umem_slab_keeps_metadata (f : slab_cfg) : bool :=
  negb (has (cache_flags f) UMF_HASH) || has (cache_flags f) UMF_BUFTAG.

Definition umem_slab_reclaim (pagesize : Z) (w : W) (f : slab_cfg) (s : umem_slab) : W :=
  if umem_slab_keeps_metadata f then w
  else
    let start := P2ROUNDUP (slab_base s) pagesize in
    let limit := P2END (slab_base s) (cache_slabsize f) in
    let fin := P2ALIGN limit pagesize in
    if fin <=? start then w else env_decommit w start (wsub fin start).

Definition w32 (x : Z) : Z := x mod 2 ^ 32.

(** What the walk of [umem_cache_reclaim_pages] decides for one slab: the new
    cache, the slabs to advise and the slabs to destroy. *)
Definition reclaim_one (c : cache) (rl dl : list Z) (sp : Z) : cache * list Z * list Z :=
  match slabs c !! sp with
  | None => (c, rl, dl)
  | Some s =>
      if negb (slab_refcnt s =? 0) then (c, rl, dl)
      else
        let idle := w32 (slab_idle_time s + umem_reap_interval (cfg c)) in
        if slab_state s =? SLAB_DIRTY then
          if umem_reclaim_delay (cfg c) <=? idle
          then (upd_slab sp (set_state SLAB_RECLAIMING idle) c, sp :: rl, dl)
          else (upd_slab sp (set_state SLAB_DIRTY idle) c, rl, dl)
        else if slab_state s =? SLAB_CLEAN then
          let c := upd_slab sp (set_state SLAB_CLEAN idle) c in
          if w32 (umem_reclaim_delay (cfg c) * 2) <=? idle
          then (slab_retire sp c, rl, sp :: dl)
          else (c, rl, dl)
        else (c, rl, dl)
  end.

Fixpoint reclaim_walk (l : list Z) (c : cache) (rl dl : list Z) : cache * list Z * list Z :=
  match l with
  | [] => (c, rl, dl)
  | sp :: l' => let '(c, rl, dl) := reclaim_one c rl dl sp in reclaim_walk l' c rl dl
  end.

Fixpoint reclaim_advise (pagesize : Z) (l : list Z) (w : W) (c : cache) : W :=
  match l with
  | [] => w
  | sp :: l' =>
      let w := match slabs c !! sp with
               | Some s => umem_slab_reclaim pagesize w (cfg c) s | None => w end in
      reclaim_advise pagesize l' w c
  end.

Fixpoint slabs_destroy (l : list Z) (w : W) (c : cache) : result (W * cache) :=
  match l with
  | [] => Ok (w, c)
  | sp :: l' => do (w, c) <- umem_slab_destroy w c sp; slabs_destroy l' w c
  end.

Fixpoint reclaim_clean (l : list Z) (c : cache) : result cache :=
  match l with
  | [] => Ok c
  | sp :: l' =>
      match slabs c !! sp with
      | Some s =>
          if (slab_state s =? SLAB_RECLAIMING) && (slab_refcnt s =? 0)
          then reclaim_clean l' (upd_slab sp (fun s => set_state SLAB_CLEAN (slab_idle_time s) s) c)
          else Panic "umem_cache_reclaim_pages: state"
      | None => Panic "umem_cache_reclaim_pages: slab"
      end
  end.

Definition umem_cache_reclaim_pages (pagesize : Z) (w : W) (c : cache) : result (W * cache) :=
  let '(c, rl, dl) := reclaim_walk (reverse (removelast (ring c))) c [] [] in
  let w := reclaim_advise pagesize rl w c in
  do (w, c) <- slabs_destroy dl w c;
  do c <- reclaim_clean rl c;
  Ok (w, c).

(** The walk of [umem_cache_drain_slabs]: the slabs to destroy and the number
    of buffers still out. *)
Fixpoint drain_walk (l : list Z) (c : cache) (dl : list Z) (outstanding : Z) : cache * list Z * Z :=
  match l with
  | [] => (c, dl, outstanding)
  | sp :: l' =>
      match slabs c !! sp with
      | None => drain_walk l' c dl outstanding
      | Some s =>
          if negb (slab_refcnt s =? 0)
          then drain_walk l' c dl (outstanding + slab_refcnt s)
          else drain_walk l' (slab_retire sp c) (sp :: dl) outstanding
      end
  end.

Definition umem_cache_drain_slabs (w : W) (c : cache) : result (W * cache * Z) :=
  let '(c, dl, outstanding) := drain_walk (removelast (ring c)) c [] 0 in
  do (w, c) <- slabs_destroy dl w c;
  Ok (w, c, outstanding).
End ops.
