(* ===== verification/SlabWf.v ===== *)
(** * The slab layer: well-formedness

    When a cache's slabs, rings, freelists and allocated-address table fit
    together: [cache_inv c F L], where [F] gives the free bufctls of every slab
    in freelist order and [L] the chains of the hash table. *)
From S2P Require Import Prelude Machine SlabModel.

(** ** Address arithmetic *)

Lemma P2END_spec x k : 0 <= k -> P2END x (2 ^ k) = w64 ((x / 2 ^ k + 1) * 2 ^ k).
Proof.
  intros Hk. unfold P2END. change (wnot x) with (w64 (Z.lnot x)).
  change (wneg (2 ^ k)) with (w64 (- 2 ^ k)).
  rewrite land_w64, wneg_w64, land_neg_pow2 by lia. f_equal.
  assert (0 < 2 ^ k) by lia.
  replace (Z.lnot x / 2 ^ k) with (- (x / 2 ^ k + 1)); [lia|].
  unfold Z.lnot. pose proof (Z.div_mod x (2 ^ k) ltac:(lia)).
  pose proof (Z.mod_pos_bound x (2 ^ k) ltac:(lia)).
  apply Z.div_unique with (2 ^ k - 1 - x mod 2 ^ k); lia.
Qed.

(** Mangling is its own inverse. *)
Lemma mangle_mangle f slot v : UMEM_LINK_MANGLE f slot (UMEM_LINK_MANGLE f slot v) = v.
Proof.
  unfold UMEM_LINK_MANGLE. apply Z.bits_inj'; intros b Hb. rewrite !Z.lxor_spec.
  by destruct (Z.testbit v b), (Z.testbit (umem_link_cookie f) b),
    (Z.testbit (Z.shiftr slot 12) b).
Qed.

(** ** Chains of links *)

Fixpoint chain (next : Z -> Z) (h : Z) (l : list Z) : Prop :=
  match l with
  | [] => h = 0
  | b :: l' => h = b /\ b <> 0 /\ chain next (next b) l'
  end.

Lemma chain_ext next next' h l :
  (forall b, b ∈ l -> next b = next' b) -> chain next h l -> chain next' h l.
Proof.
  revert h. induction l as [|b l IH]; simpl; intros h He; [done|].
  intros (-> & ? & Hc). split_and!; try done. rewrite <- He by set_solver.
  apply IH; [|done]. set_solver.
Qed.

Lemma chain_det next h l l' : chain next h l -> chain next h l' -> l = l'.
Proof.
  revert h l'. induction l as [|b l IH]; simpl; intros h [|b' l']; simpl; [done|naive_solver..|].
  intros (-> & ? & ?) (-> & ? & ?). f_equal. eauto.
Qed.

Lemma chain_head next h l : chain next h l -> h = hd 0 l.
Proof. destruct l; simpl; [done|]. by intros [-> _]. Qed.

(** ** Slabs *)

(** What the configuration of a cache guarantees to the slab layer. *)
Record geom (f : slab_cfg) (q : Z) : Prop := Geom {
  geom_q : 3 <= q < 64;
  geom_quantum : cache_quantum f = 2 ^ q;
  geom_chunk : 8 <= cache_chunksize f;
  geom_chunk8 : (8 | cache_chunksize f);
  geom_slab : cache_chunksize f <= cache_slabsize f < 2 ^ 64;
  geom_slabq : (2 ^ q | cache_slabsize f);
  geom_bufctl : 0 <= cache_bufctl f /\ cache_bufctl f + 8 <= cache_chunksize f;
  geom_bufctl8 : (8 | cache_bufctl f);
  geom_raw : has (cache_flags f) UMF_HASH = false -> cache_slabsize f = 2 ^ q;
  geom_tag : has (cache_flags f) UMF_BUFTAG = true ->
    0 <= cache_buftag f /\ cache_buftag f + 24 <= cache_chunksize f /\
    0 <= cache_verify f <= cache_chunksize f;
  geom_align : 0 < cache_align f < 2 ^ 63 /\ (8 | cache_align f);
  geom_color : 0 <= cache_mincolor f <= cache_maxcolor f /\ cache_maxcolor f < 2 ^ q /\
    (8 | cache_mincolor f);
  geom_room : cache_maxcolor f + cache_chunksize f +
    (if has (cache_flags f) UMF_HASH then 0 else sizeof_slab) <= cache_slabsize f;
}.

Definition slab_start (f : slab_cfg) (s : umem_slab) : Z :=
  slab_base s / cache_quantum f * cache_quantum f.

(** The [i]-th chunk. *)
Definition chunk (f : slab_cfg) (s : umem_slab) (i : Z) : Z :=
  slab_base s + i * cache_chunksize f.

Definition is_chunk (f : slab_cfg) (s : umem_slab) (buf : Z) : Prop :=
  exists i, 0 <= i < slab_chunks s /\ buf = chunk f s i.

(** The chunks lie in the slab's memory, below the header of a raw slab. *)
Record slab_geom (f : slab_cfg) (sp : Z) (s : umem_slab) : Prop := SlabGeom {
  sg_cache : slab_cache s = cache_self f;
  sg_chunks : 0 < slab_chunks s;
  sg_base8 : (8 | slab_base s);
  sg_start : 0 < slab_start f s;
  sg_end : slab_start f s + cache_slabsize f < 2 ^ 64;
  sg_fit : slab_base s + slab_chunks s * cache_chunksize f <= slab_start f s + cache_slabsize f;
  sg_raw : has (cache_flags f) UMF_HASH = false ->
           sp = slab_start f s + cache_slabsize f - sizeof_slab /\
           slab_base s + slab_chunks s * cache_chunksize f <= sp;
}.

Section geometry.
Context {f : slab_cfg} {q : Z} (G : geom f q).
Implicit Types (s : umem_slab) (sp buf i : Z).

Lemma slab_quantum_pos : 0 < 2 ^ q.
Proof. pose proof (geom_q _ _ G). lia. Qed.

Lemma slab_start_le s : 0 <= slab_base s -> slab_start f s <= slab_base s < slab_start f s + 2 ^ q.
Proof.
  intros. unfold slab_start. rewrite (geom_quantum _ _ G). pose proof slab_quantum_pos.
  pose proof (Z.div_mod (slab_base s) (2 ^ q) ltac:(lia)).
  pose proof (Z.mod_pos_bound (slab_base s) (2 ^ q) ltac:(lia)). lia.
Qed.

Lemma base_pos sp s : slab_geom f sp s -> 0 < slab_base s.
Proof.
  intros Hs. pose proof (sg_start _ _ _ Hs) as H. unfold slab_start in H.
  rewrite (geom_quantum _ _ G) in H. pose proof slab_quantum_pos.
  destruct (Z.lt_ge_cases (slab_base s) 0) as [Hn|].
  - pose proof (Z.div_mod (slab_base s) (2 ^ q) ltac:(lia)).
    assert (slab_base s / 2 ^ q < 0) by (apply Z.div_lt_upper_bound; lia). nia.
  - destruct (Z.eq_dec (slab_base s) 0) as [E|]; [|lia]. rewrite E, Z.div_0_l in H; lia.
Qed.

Lemma chunk_bounds sp s i :
  slab_geom f sp s -> 0 <= i < slab_chunks s ->
  slab_base s <= chunk f s i /\ chunk f s i + cache_chunksize f <= slab_start f s + cache_slabsize f.
Proof.
  intros Hs Hi. unfold chunk. pose proof (sg_fit _ _ _ Hs). pose proof (geom_chunk _ _ G). nia.
Qed.

Lemma chunk_word sp s i :
  slab_geom f sp s -> 0 <= i < slab_chunks s -> 0 < chunk f s i < 2 ^ 64.
Proof.
  intros Hs Hi. pose proof (chunk_bounds sp s i Hs Hi). pose proof (base_pos sp s Hs).
  pose proof (sg_end _ _ _ Hs). pose proof (geom_chunk _ _ G). lia.
Qed.

(** The test [UMEM_SLAB_CHUNK] accepts exactly the chunks. *)
Lemma slab_chunk_spec sp s buf :
  slab_geom f sp s -> is_word buf -> UMEM_SLAB_CHUNK f s buf = true <-> is_chunk f s buf.
Proof.
  intros Hs Hb. unfold UMEM_SLAB_CHUNK, UMEM_SLAB_MEMBER, is_chunk, chunk, is_word in *.
  pose proof (sg_fit _ _ _ Hs). pose proof (base_pos sp s Hs). pose proof (sg_end _ _ _ Hs).
  pose proof (sg_chunks _ _ _ Hs). pose proof (geom_chunk _ _ G).
  pose proof (slab_start_le s ltac:(lia)).
  assert (Hw : w64 (slab_chunks s * cache_chunksize f) = slab_chunks s * cache_chunksize f)
    by (apply w64_small; unfold is_word; nia).
  rewrite Hw, andb_true_iff, Z.ltb_lt, Z.eqb_eq. split.
  - destruct (Z.lt_ge_cases buf (slab_base s)) as [Hlt|Hge].
    { replace (wsub buf (slab_base s)) with (buf - slab_base s + 2 ^ 64).
      2:{ unfold wsub, w64. apply Z.mod_unique with (-1); lia. }
      intros [? _]. nia. }
    rewrite wsub_small by lia. intros [Hlt Hm]. exists ((buf - slab_base s) / cache_chunksize f).
    pose proof (Z.div_mod (buf - slab_base s) (cache_chunksize f) ltac:(lia)).
    split; [split; [apply Z.div_pos; lia|apply Z.div_lt_upper_bound; lia]|lia].
  - intros (i & Hi & ->). rewrite wsub_small by nia.
    replace (slab_base s + i * cache_chunksize f - slab_base s) with (i * cache_chunksize f) by lia.
    split; [nia|]. apply Z.mod_mul. lia.
Qed.

Lemma chunk_member sp s buf : slab_geom f sp s -> is_chunk f s buf -> UMEM_SLAB_MEMBER f s buf = true.
Proof.
  intros Hs Hc. pose proof Hc as (i & Hi & E). pose proof (chunk_word sp s i Hs Hi).
  pose proof (proj2 (slab_chunk_spec sp s buf Hs ltac:(unfold is_word; subst buf; lia)) Hc) as Hk.
  unfold UMEM_SLAB_CHUNK in Hk. by apply andb_true_iff in Hk as [? _].
Qed.

(** The header a raw slab's chunks lead back to. *)
Lemma umem_slab_spec sp s buf :
  has (cache_flags f) UMF_HASH = false -> slab_geom f sp s -> is_chunk f s buf ->
  UMEM_SLAB f buf = sp.
Proof.
  intros Hr Hs (i & Hi & ->). destruct (sg_raw _ _ _ Hs Hr) as [Hsp Hend].
  pose proof (geom_raw _ _ G Hr) as Hq. pose proof (geom_chunk _ _ G). pose proof (geom_q _ _ G).
  pose proof (base_pos sp s Hs). pose proof (slab_start_le s ltac:(lia)) as Hst.
  pose proof (sg_end _ _ _ Hs). pose proof (sg_start _ _ _ Hs). unfold sizeof_slab in *.
  assert (0 < sp) by (pose proof (sg_chunks _ _ _ Hs); nia).
  unfold UMEM_SLAB. rewrite Hq, P2END_spec by lia.
  assert (Hd : chunk f s i / 2 ^ q = slab_base s / 2 ^ q).
  { symmetry. apply Z.div_unique with (chunk f s i - slab_start f s).
    - left. unfold chunk. nia.
    - unfold slab_start. rewrite (geom_quantum _ _ G). lia. }
  rewrite Hd, Z.mul_add_distr_r, Z.mul_1_l.
  replace (slab_base s / 2 ^ q * 2 ^ q) with (slab_start f s)
    by (unfold slab_start; by rewrite (geom_quantum _ _ G)).
  rewrite w64_small by (unfold is_word; lia). unfold sizeof_slab. rewrite wsub_small; lia.
Qed.

Lemma chunk_inj s i j : chunk f s i = chunk f s j -> i = j.
Proof. unfold chunk. pose proof (geom_chunk _ _ G). nia. Qed.

(** Chunks of slabs that do not overlap do not overlap. *)
Lemma chunks_apart sp sp' s s' i j :
  slab_geom f sp s -> slab_geom f sp' s' ->
  slab_start f s + cache_slabsize f <= slab_start f s' \/
  slab_start f s' + cache_slabsize f <= slab_start f s ->
  0 <= i < slab_chunks s -> 0 <= j < slab_chunks s' ->
  chunk f s i + cache_chunksize f <= chunk f s' j \/ chunk f s' j + cache_chunksize f <= chunk f s i.
Proof.
  intros Hs Hs' Hd Hi Hj.
  pose proof (chunk_bounds sp s i Hs Hi). pose proof (chunk_bounds sp' s' j Hs' Hj).
  pose proof (base_pos sp s Hs). pose proof (base_pos sp' s' Hs').
  pose proof (slab_start_le s ltac:(lia)). pose proof (slab_start_le s' ltac:(lia)). lia.
Qed.
End geometry.

(** ** Bufctls *)

(** [b] is the bufctl of the chunk [buf] of the slab [sp]. *)
Definition bufctl_for (c : cache) (sp : Z) (s : umem_slab) (b buf : Z) : Prop :=
  is_chunk (cfg c) s buf /\ b <> 0 /\ (8 | b) /\ is_word b /\
  if hashed c then bufctls c !! b = Some (Bufctl buf sp) else b = buf + cache_bufctl (cfg c).

Definition bufctl_at (c : cache) (sp : Z) (s : umem_slab) (b : Z) : Prop :=
  exists buf, bufctl_for c sp s b buf.

Section bufctls.
Context {c : cache} {q : Z} (G : geom (cfg c) q).

Lemma raw_bufctl sp s buf :
  hashed c = false -> slab_geom (cfg c) sp s -> is_chunk (cfg c) s buf ->
  UMEM_BUFCTL (cfg c) buf = buf + cache_bufctl (cfg c) /\
  bufctl_for c sp s (buf + cache_bufctl (cfg c)) buf.
Proof.
  intros Hr Hs Hc. pose proof Hc as (i & Hi & ->).
  pose proof (chunk_bounds G sp s i Hs Hi). pose proof (chunk_word G sp s i Hs Hi).
  pose proof (geom_bufctl _ _ G). pose proof (sg_end _ _ _ Hs).
  split; [unfold UMEM_BUFCTL; rewrite wadd_small; lia|].
  unfold bufctl_for. rewrite Hr. unfold is_word. split_and!; try done; try lia.
  apply Z.divide_add_r; [|apply (geom_bufctl8 _ _ G)]. unfold chunk.
  apply Z.divide_add_r; [apply (sg_base8 _ _ _ Hs)|].
  apply Z.divide_mul_r, (geom_chunk8 _ _ G).
Qed.

(** The buffer [umem_slab_alloc] computes from a bufctl. *)
Lemma raw_buf sp s b buf :
  hashed c = false -> slab_geom (cfg c) sp s -> bufctl_for c sp s b buf ->
  UMEM_BUF (cfg c) b = buf.
Proof.
  intros Hr Hs (Hc & _ & _ & Hw & Hb). rewrite Hr in Hb. subst b. unfold UMEM_BUF.
  destruct Hc as (i & Hi & ->). pose proof (chunk_word G sp s i Hs Hi). rewrite wsub_small; lia.
Qed.

(** A bufctl of the slab is a valid link. *)
Lemma link_valid_bufctl sp s b :
  slab_geom (cfg c) sp s -> bufctl_at c sp s b -> umem_slab_link_valid (cfg c) s b = true.
Proof.
  intros Hs [buf Hb]. unfold umem_slab_link_valid. pose proof Hb as (Hc & H0 & H8 & Hw & Hd).
  rewrite (proj2 (Z.eqb_neq b 0) H0).
  assert (Hp : P2PHASE b UMEM_ALIGN = 0).
  { change UMEM_ALIGN with (2 ^ 3). rewrite P2PHASE_spec by lia. apply Z.mod_divide; [lia|done]. }
  rewrite Hp. simpl. fold (hashed c).
  destruct (hashed c) eqn:Hr; [done|]. simpl.
  rewrite (raw_buf sp s b buf Hr Hs Hb).
  destruct Hc as (i & Hi & ->).
  assert (is_word (chunk (cfg c) s i)) as Hcw
    by (pose proof (chunk_word G sp s i Hs Hi); unfold is_word; lia).
  by rewrite (proj2 (slab_chunk_spec G sp s _ Hs Hcw) ltac:(by exists i)).
Qed.

(** Conversely, for a raw cache a link that passes the test is a chunk's. *)
Lemma link_valid_raw sp s b :
  hashed c = false -> slab_geom (cfg c) sp s -> is_word b ->
  umem_slab_link_valid (cfg c) s b = true -> b = 0 \/ bufctl_at c sp s b.
Proof.
  intros Hr Hs Hw Hv. unfold umem_slab_link_valid in Hv. fold (hashed c) in Hv. rewrite Hr in Hv.
  destruct (Z.eqb_spec b 0) as [|H0]; [by left|right].
  destruct (P2PHASE b UMEM_ALIGN =? 0) eqn:Hp; [|done]. simpl in Hv.
  destruct (UMEM_SLAB_CHUNK (cfg c) s (UMEM_BUF (cfg c) b)) eqn:Hk; [|done].
  apply (slab_chunk_spec G sp s) in Hk; [|done|apply w64_range].
  exists (UMEM_BUF (cfg c) b). destruct (raw_bufctl sp s _ Hr Hs Hk) as [_ Hb].
  replace (UMEM_BUF (cfg c) b + cache_bufctl (cfg c)) with b in Hb; [done|].
  destruct Hk as (i & Hi & E). pose proof (chunk_word G sp s i Hs Hi).
  pose proof (chunk_bounds G sp s i Hs Hi). pose proof (geom_bufctl _ _ G).
  pose proof (sg_end _ _ _ Hs). unfold UMEM_BUF, is_word in *.
  destruct (Z.lt_ge_cases b (cache_bufctl (cfg c))) as [Hlt|]; [|rewrite wsub_small; lia].
  exfalso. assert (Ew : wsub b (cache_bufctl (cfg c)) = b - cache_bufctl (cfg c) + 2 ^ 64).
  { unfold wsub, w64. symmetry. apply Z.mod_unique with (-1); lia. }
  rewrite Ew in E. lia.
Qed.
End bufctls.
