(* ===== verification/SlabInv.v ===== *)
(** * The slab layer: the invariant of a cache

    [cache_inv q c F L]: the ring is the full slabs, then the freelist, then the
    null slab; the freelist of every slab decodes to a list [F] of bufctls of
    its own chunks; slabs do not overlap; the chains [L] of the hash table hold
    the bufctls of the allocated buffers.  [slab_take] keeps it. *)
From S2P Require Import Prelude Machine SlabModel SlabWf.

(** The buffer a bufctl stands for. *)
Definition buf_of (c : cache) (b : Z) : Z :=
  if hashed c then match bufctls c !! b with Some x => bc_addr x | None => 0 end
  else b - cache_bufctl (cfg c).

Lemma buf_of_for c sp s b buf : bufctl_for c sp s b buf -> buf_of c b = buf.
Proof.
  intros (_ & _ & _ & _ & H). unfold buf_of. destruct (hashed c); [by rewrite H|]. subst. lia.
Qed.

(** A slab with free bufctls [fl], in freelist order. *)
Record slab_ok (c : cache) (sp : Z) (s : umem_slab) (fl : list Z) : Prop := SlabOk {
  so_geom : slab_geom (cfg c) sp s;
  so_chain : chain (link_of c) (slab_head s) fl;
  so_nodup : NoDup fl;
  so_bufctls : Forall (bufctl_at c sp s) fl;
  so_refcnt : slab_refcnt s = slab_chunks s - Z.of_nat (length fl);
  so_nneg : 0 <= slab_refcnt s;
  so_idle : slab_state s <> SLAB_ACTIVE -> slab_refcnt s = 0;
}.

(** A slab that left the freelist while its pages were given back: all its
    buffers are free, and it waits to be destroyed. *)
Definition dropped (s : umem_slab) : Prop :=
  slab_refcnt s = 0 /\ (slab_state s = SLAB_RECLAIMING \/ slab_state s = SLAB_CLEAN).

(** The bufctls in use: on a freelist or in the hash table. *)
Definition live (F : gmap Z (list Z)) (L : list (list Z)) (b : Z) : Prop :=
  (exists sp fl, F !! sp = Some fl /\ b ∈ fl) \/ (exists h l, L !! h = Some l /\ b ∈ l).

(** The allocated-address table. *)
Record hash_ok (c : cache) (F : gmap Z (list Z)) (L : list (list Z)) : Prop := HashOk {
  ho_mask : exists k, 0 <= k /\ cache_hash_mask c = 2 ^ k - 1 /\ Z.of_nat (length L) = 2 ^ k;
  ho_chain : Forall2 (chain (ld (mem c))) (cache_hash_table c) L;
  ho_nodup : forall h l, L !! h = Some l -> NoDup l;
  ho_alloc : forall h l b, L !! h = Some l -> b ∈ l ->
    exists sp s fl buf, F !! sp = Some fl /\ slabs c !! sp = Some s /\
      bufctl_for c sp s b buf /\ UMEM_HASH c buf = h;
  ho_out : forall h l b sp fl, L !! h = Some l -> b ∈ l -> F !! sp = Some fl -> b ∉ fl;
  ho_inj : forall b b', live F L b -> live F L b' -> buf_of c b = buf_of c b' -> b = b';
}.

(** [ring c] is the slabs [A] off the freelist, the freelist [B], the null slab. *)
Record ring_ok (c : cache) (F : gmap Z (list Z)) (A B : list Z) : Prop := RingOk {
  ro_ring : ring c = A ++ B ++ [cache_nullslab (cfg c)];
  ro_nodup : NoDup (ring c);
  ro_head : cache_freelist c = hd (cache_nullslab (cfg c)) B;
  ro_dom : forall sp, sp ∈ A ++ B <-> is_Some (F !! sp);
  ro_off : forall sp s fl, sp ∈ A -> slabs c !! sp = Some s -> F !! sp = Some fl ->
             fl = [] \/ dropped s;
  ro_on : forall sp, sp ∈ B -> F !! sp <> Some [];
  ro_null : exists s, slabs c !! cache_nullslab (cfg c) = Some s /\ slab_head s = 0 /\
    slab_cache s = cache_self (cfg c);
  ro_nonzero : 0 ∉ ring c;
}.

Record cache_inv (q : Z) (c : cache) (F : gmap Z (list Z)) (L : list (list Z)) : Prop := CacheInv {
  ci_geom : geom (cfg c) q;
  ci_ring : exists A B, ring_ok c F A B;
  ci_slab : forall sp fl, F !! sp = Some fl -> exists s, slabs c !! sp = Some s /\ slab_ok c sp s fl;
  ci_apart : forall sp sp' s s', sp <> sp' -> is_Some (F !! sp) -> is_Some (F !! sp') ->
    slabs c !! sp = Some s -> slabs c !! sp' = Some s' ->
    slab_start (cfg c) s + cache_slabsize (cfg c) <= slab_start (cfg c) s' \/
    slab_start (cfg c) s' + cache_slabsize (cfg c) <= slab_start (cfg c) s;
  ci_sep : forall sp sp' fl fl' b, F !! sp = Some fl -> F !! sp' = Some fl' ->
    b ∈ fl -> b ∈ fl' -> sp = sp';
  ci_hash : hashed c = true -> hash_ok c F L;
  ci_color : 0 <= cache_color c <= cache_maxcolor (cfg c) /\ (8 | cache_color c);
}.

Lemma ci_slab_at q c F L sp fl s :
  cache_inv q c F L -> F !! sp = Some fl -> slabs c !! sp = Some s -> slab_ok c sp s fl.
Proof. intros I HF Hs. destruct (ci_slab _ _ _ _ I _ _ HF) as (s' & Hs' & ?). congruence. Qed.

(** ** Frames *)

(** What another slab's state depends on. *)
Lemma slab_ok_frame c c' sp s fl :
  cfg c' = cfg c -> (forall b, b ∈ fl -> bufctls c' !! b = bufctls c !! b) ->
  (forall b, b ∈ fl -> ld (mem c') b = ld (mem c) b) ->
  slab_ok c sp s fl -> slab_ok c' sp s fl.
Proof.
  intros Hc Hb Hm Hs. destruct Hs as [G H1 H2 H3 H4 H5 H6].
  constructor; try done; [by rewrite Hc| |].
  - eapply chain_ext; [|done]. intros b Hbl. unfold link_of. by rewrite Hc, Hm.
  - rewrite Forall_forall in H3 |- *. intros b Hbl. destruct (H3 b Hbl) as [buf Hf].
    exists buf. unfold bufctl_for, hashed in *. by rewrite Hc, Hb.
Qed.

Lemma bufctl_for_frame c c' sp s s' b buf :
  cfg c' = cfg c -> bufctls c' !! b = bufctls c !! b ->
  slab_base s' = slab_base s -> slab_chunks s' = slab_chunks s ->
  bufctl_for c sp s b buf -> bufctl_for c' sp s' b buf.
Proof.
  intros Hc Hb H1 H2 (Hk & Hr). unfold bufctl_for, hashed, is_chunk, chunk in *.
  rewrite Hc, Hb, H1, H2. by split.
Qed.

(** ** Counting: a slab has at most [slab_chunks] bufctls *)

(** The index of the chunk a bufctl stands for. *)
Definition chunk_index (c : cache) (s : umem_slab) (b : Z) : nat :=
  Z.to_nat ((buf_of c b - slab_base s) / cache_chunksize (cfg c)).

Lemma chunk_index_at c q sp s b :
  geom (cfg c) q -> bufctl_at c sp s b ->
  exists i, 0 <= i < slab_chunks s /\ chunk_index c s b = Z.to_nat i /\ buf_of c b = chunk (cfg c) s i.
Proof.
  intros G [buf Hf]. pose proof (geom_chunk _ _ G) as Hck. pose proof (buf_of_for _ _ _ _ _ Hf) as E.
  destruct Hf as ((i & Hi & ->) & _). exists i. split_and!; [lia..| |done].
  unfold chunk_index. f_equal. rewrite E. unfold chunk.
  replace (slab_base s + i * cache_chunksize (cfg c) - slab_base s)
    with (i * cache_chunksize (cfg c)) by lia. apply Z.div_mul. lia.
Qed.

Lemma chunk_indices c q sp s bs :
  geom (cfg c) q -> NoDup bs -> Forall (bufctl_at c sp s) bs ->
  (forall b b', b ∈ bs -> b' ∈ bs -> buf_of c b = buf_of c b' -> b = b') ->
  chunk_index c s <$> bs ⊆+ seq 0 (Z.to_nat (slab_chunks s)).
Proof.
  intros G Hnd Hat Hinj. rewrite Forall_forall in Hat. apply NoDup_submseteq.
  - apply NoDup_fmap_2_strong; [|done]. intros b b' Hb Hb' E.
    destruct (chunk_index_at _ _ _ _ _ G (Hat b Hb)) as (i & Hi & E1 & E2).
    destruct (chunk_index_at _ _ _ _ _ G (Hat b' Hb')) as (j & Hj & E3 & E4).
    rewrite E1, E3 in E. apply Hinj; [done..|]. rewrite E2, E4. f_equal. lia.
  - intros n Hn. apply list_elem_of_fmap in Hn as (b & -> & Hb).
    destruct (chunk_index_at _ _ _ _ _ G (Hat b Hb)) as (i & Hi & E1 & _). rewrite E1. apply elem_of_seq. lia.
Qed.

Lemma bufctls_bound c q sp s bs :
  geom (cfg c) q -> slab_geom (cfg c) sp s -> NoDup bs -> Forall (bufctl_at c sp s) bs ->
  (forall b b', b ∈ bs -> b' ∈ bs -> buf_of c b = buf_of c b' -> b = b') ->
  Z.of_nat (length bs) <= slab_chunks s.
Proof.
  intros G Hs Hnd Hat Hinj. pose proof (chunk_indices c q sp s bs G Hnd Hat Hinj) as Hsub.
  apply submseteq_length in Hsub. rewrite length_fmap, length_seq in Hsub.
  pose proof (sg_chunks _ _ _ Hs). lia.
Qed.

(** A slab with no buffer out has a free bufctl for every chunk. *)
Lemma idle_all_free c q sp s fl buf :
  geom (cfg c) q -> slab_ok c sp s fl -> slab_refcnt s = 0 ->
  (forall b b', b ∈ fl -> b' ∈ fl -> buf_of c b = buf_of c b' -> b = b') ->
  is_chunk (cfg c) s buf -> exists b, b ∈ fl /\ buf_of c b = buf.
Proof.
  intros G Hok Hz Hinj (i & Hi & ->).
  pose proof (chunk_indices c q sp s fl G (so_nodup _ _ _ _ Hok) (so_bufctls _ _ _ _ Hok) Hinj) as Hsub.
  pose proof (so_refcnt _ _ _ _ Hok). pose proof (sg_chunks _ _ _ (so_geom _ _ _ _ Hok)).
  apply submseteq_length_Permutation in Hsub; [|rewrite length_fmap, length_seq; lia].
  assert (Hin : Z.to_nat i ∈ chunk_index c s <$> fl) by (rewrite Hsub; apply elem_of_seq; lia).
  apply list_elem_of_fmap in Hin as (b & E & Hb). exists b. split; [done|].
  pose proof (so_bufctls _ _ _ _ Hok) as Hat. rewrite Forall_forall in Hat.
  destruct (chunk_index_at _ _ _ _ _ G (Hat b Hb)) as (j & Hj & E1 & ->). f_equal. lia.
Qed.

(** ** Taking a buffer *)

Lemma after_app p l1 l2 : p ∉ l1 -> after p (l1 ++ p :: l2) = l2.
Proof.
  induction l1 as [|y l1 IH]; simpl; intros Hp; [by rewrite decide_True|].
  rewrite decide_False by set_solver. apply IH. set_solver.
Qed.

Lemma slab_next_app c A sp B n :
  ring c = A ++ sp :: B ++ [n] -> NoDup (ring c) -> slab_next c sp = hd n B.
Proof.
  intros E Hnd. unfold slab_next. rewrite E in *.
  rewrite after_app by (apply NoDup_app in Hnd; set_solver). by destruct B.
Qed.

Lemma hash_lt c F L buf : hash_ok c F L -> (UMEM_HASH c buf < length L)%nat.
Proof.
  intros [(k & Hk & Hm & Hl) _ _ _ _ _]. unfold UMEM_HASH. rewrite Hm.
  replace (2 ^ k - 1) with (Z.ones k) by (rewrite Z.ones_equiv; lia).
  rewrite Z.land_ones by lia. pose proof (Z.mod_pos_bound (Z.shiftr buf (cache_hash_shift (cfg c))) (2 ^ k)). lia.
Qed.

(** The state after taking the first free bufctl [b] of [sp]. *)
Definition taken (c : cache) (sp b next : Z) (s : umem_slab) : cache :=
  let s1 := if slab_state s =? SLAB_ACTIVE then s else set_state SLAB_ACTIVE 0 s in
  let c1 := set_slabs (<[sp := set_head next (set_refcnt (slab_refcnt s1 + 1) s1)]> (slabs c)) c in
  let c2 := if next =? 0 then set_freelist (slab_next c1 sp) c1 else c1 in
  if hashed c then
    let h := UMEM_HASH c (buf_of c b) in
    set_table (<[h := b]> (cache_hash_table c2))
      (set_mem (st (mem c2) b (nth h (cache_hash_table c2) 0)) c2)
  else c2.

Definition taken_table (c : cache) (L : list (list Z)) (b : Z) : list (list Z) :=
  if hashed c then
    let h := UMEM_HASH c (buf_of c b) in <[h := b :: nth h L []]> L
  else L.

Section take.
Context {W : Type} {env : slab_env W}.
Context {q : Z} {c : cache} {F : gmap Z (list Z)} {L : list (list Z)} (I : cache_inv q c F L).

Lemma slab_take_run w sp b fl s :
  F !! sp = Some (b :: fl) -> slabs c !! sp = Some s ->
  slab_take w c sp = Ok (w, taken c sp b (hd 0 fl) s, buf_of c b).
Proof.
  intros HF Hs. destruct (ci_slab _ _ _ _ I _ _ HF) as (s' & Hs' & Hok).
  rewrite Hs in Hs'; simplify_eq. pose proof (so_geom _ _ _ _ Hok) as Hg.
  destruct (so_chain _ _ _ _ Hok) as (Hh & Hb0 & Hch).
  pose proof (so_bufctls _ _ _ _ Hok) as Hat. apply Forall_cons in Hat as [[buf Hbuf] Hat].
  unfold slab_take. rewrite Hs.
  set (s1 := if slab_state s' =? SLAB_ACTIVE then s' else set_state SLAB_ACTIVE 0 s').
  assert (Eh : slab_head s1 = b) by (unfold s1; by destruct (_ =? _)).
  assert (Eb : slab_base s1 = slab_base s' /\ slab_chunks s1 = slab_chunks s')
    by (unfold s1; by destruct (_ =? _)).
  rewrite Eh. rewrite (chain_head _ _ _ Hch).
  assert (Hv : umem_slab_link_valid (cfg c) s1 (hd 0 fl) = true).
  { transitivity (umem_slab_link_valid (cfg c) s' (hd 0 fl)).
    - unfold umem_slab_link_valid, UMEM_SLAB_CHUNK, UMEM_SLAB_MEMBER.
      by rewrite (proj1 Eb), (proj2 Eb).
    - destruct fl as [|b' fl]; [done|]. apply Forall_cons in Hat as [Hb' _].
      by apply (link_valid_bufctl (ci_geom _ _ _ _ I) sp). }
  assert (Er : slab_refcnt s1 = slab_refcnt s') by (unfold s1; by destruct (_ =? _)).
  pose proof (so_refcnt _ _ _ _ Hok) as Hrc. simpl in Hrc.
  rewrite Er, (proj2 Eb), (proj2 (Z.leb_le _ _)) by lia. cbn [ASSERT res_bind].
  rewrite Hv. cbn [negb]. unfold taken. fold s1. rewrite Er.
  assert (Hend : negb (hd 0 fl =? 0) || (slab_refcnt s' + 1 =? slab_chunks s') = true).
  { destruct fl as [|b' fl]; simpl.
    - apply Z.eqb_eq. simpl in Hrc. lia.
    - destruct Hch as (_ & Hn & _). by rewrite (proj2 (Z.eqb_neq _ _) Hn). }
  cbn [set_head set_refcnt slab_refcnt slab_chunks]. rewrite (proj2 Eb), Hend. cbn [ASSERT res_bind].
  assert (Hmem : forall r, UMEM_SLAB_MEMBER (cfg c) (set_head (hd 0 fl) (set_refcnt r s1)) buf = true).
  { intros r. transitivity (UMEM_SLAB_MEMBER (cfg c) s' buf);
      [unfold UMEM_SLAB_MEMBER; simpl; by rewrite (proj1 Eb), (proj2 Eb)|].
    apply (chunk_member (ci_geom _ _ _ _ I) sp s' buf Hg), Hbuf. }
  destruct (hashed c) eqn:Hhash.
  - replace (hashed _) with true by (by destruct (hd 0 fl =? 0)).
    replace (bufctls _ !! b) with (Some (Bufctl buf sp)).
    2:{ destruct Hbuf as (_ & _ & _ & _ & Hbb). rewrite Hhash in Hbb. by destruct (hd 0 fl =? 0). }
    rewrite (buf_of_for _ _ _ _ _ Hbuf). cbn [bc_addr].
    destruct (hd 0 fl =? 0); match goal with |- context [UMEM_SLAB_MEMBER ?f _ _] => change f with (cfg c) end;
      by rewrite Hmem.
  - replace (hashed _) with false by (by destruct (hd 0 fl =? 0)).
    replace (cfg _) with (cfg c) by (by destruct (hd 0 fl =? 0)).
    by rewrite (raw_buf (ci_geom _ _ _ _ I) _ _ _ _ Hhash Hg Hbuf), Hmem, (buf_of_for _ _ _ _ _ Hbuf).
Qed.

Lemma taken_fields sp b fl s :
  let c' := taken c sp b (hd 0 fl) s in
  cfg c' = cfg c /\ ring c' = ring c /\ bufctls c' = bufctls c /\
  (cache_hash_mask c' = cache_hash_mask c /\ cache_color c' = cache_color c) /\
  slabs c' = <[sp := Slab (slab_cache s) (slab_base s) (hd 0 fl) (slab_refcnt s + 1)
                       (slab_chunks s) SLAB_ACTIVE
                       (if slab_state s =? SLAB_ACTIVE then slab_idle_time s else 0)]> (slabs c) /\
  cache_freelist c' = (if hd 0 fl =? 0 then slab_next c sp else cache_freelist c) /\
  mem c' = (if hashed c then st (mem c) b (nth (UMEM_HASH c (buf_of c b)) (cache_hash_table c) 0)
            else mem c) /\
  cache_hash_table c' = (if hashed c then <[UMEM_HASH c (buf_of c b) := b]> (cache_hash_table c)
                         else cache_hash_table c).
Proof.
  unfold taken. cbn zeta.
  destruct (hashed c), (Z.eqb_spec (slab_state s) SLAB_ACTIVE) as [Ha|], (hd 0 fl =? 0);
    split_and!; try done; destruct s; simpl in *; by subst.
Qed.

Lemma buf_of_ext c' b : cfg c' = cfg c -> bufctls c' = bufctls c -> buf_of c' b = buf_of c b.
Proof. intros H1 H2. unfold buf_of, hashed. by rewrite H1, H2. Qed.

Lemma ld_st m a v x : ld (st m a v) x = if decide (a = x) then v else ld m x.
Proof. unfold ld, st, memory in *. rewrite lookup_insert. by destruct (decide (a = x)). Qed.

Lemma taken_slabs_ok sp b fl s :
  F !! sp = Some (b :: fl) -> slabs c !! sp = Some s ->
  let c' := taken c sp b (hd 0 fl) s in
  forall sp' fl', <[sp := fl]> F !! sp' = Some fl' ->
    exists s', slabs c' !! sp' = Some s' /\ slab_ok c' sp' s' fl'.
Proof.
  intros HF Hs c' sp' fl' HF'.
  destruct (taken_fields sp b fl s) as (Ec & _ & Eb & _ & Es & _ & Em & _). fold c' in Ec, Eb, Es, Em.
  destruct (ci_slab _ _ _ _ I _ _ HF) as (s0 & Hs0 & Hok). rewrite Hs in Hs0; simplify_eq.
  assert (Hmem : forall x, x <> b -> ld (mem c') x = ld (mem c) x).
  { intros x Hx. rewrite Em. destruct (hashed c); [|done]. rewrite ld_st, decide_False by congruence. done. }
  rewrite Es. destruct (decide (sp' = sp)) as [->|Hne].
  - rewrite lookup_insert_eq in HF'. simplify_eq. rewrite lookup_insert_eq. eexists. split; [done|].
    destruct Hok as [Hg (_ & Hb0 & Hch) Hnd Hat Hrc Hnn Hid]. apply NoDup_cons in Hnd as [Hnb Hnd].
    apply Forall_cons in Hat as [_ Hat]. simpl in Hrc.
    apply (slab_ok_frame c); [done|by rewrite Eb| |].
    { intros x Hx. apply Hmem. set_solver. }
    constructor; simpl; try done; try lia.
    + destruct Hg as [h1 h2 h3 h4 h5 h6 h7]. by constructor.
    + rewrite <- (chain_head _ _ _ Hch). done.
  - rewrite lookup_insert_ne in HF' by done. rewrite lookup_insert_ne by done.
    destruct (ci_slab _ _ _ _ I _ _ HF') as (s' & Hs' & Hok'). exists s'. split; [done|].
    apply (slab_ok_frame c); [done|by rewrite Eb| |done].
    intros x Hx. apply Hmem. intros ->. apply Hne.
    by apply (ci_sep _ _ _ _ I _ _ _ _ b HF' HF); [|set_solver].
Qed.

(** The slabs before [sp] on the freelist are being given back. *)
Definition skipped (B1 : list Z) : Prop :=
  forall sp s, sp ∈ B1 -> slabs c !! sp = Some s -> slab_state s = SLAB_RECLAIMING.

Lemma taken_ring A B1 sp B2 b fl s :
  ring_ok c F A (B1 ++ sp :: B2) -> (fl = [] -> skipped B1) ->
  F !! sp = Some (b :: fl) -> slabs c !! sp = Some s ->
  exists A' B', ring_ok (taken c sp b (hd 0 fl) s) (<[sp := fl]> F) A' B'.
Proof.
  intros R Hsk HF Hs. destruct R as [R1 R2 R3 R4 R5 R6 R7 R8].
  destruct (taken_fields sp b fl s) as (Ec & Er & _ & _ & Es & Ef & _).
  destruct (ci_slab _ _ _ _ I _ _ HF) as (s0 & Hs0 & Hok). rewrite Hs in Hs0; simplify_eq.
  set (n := cache_nullslab (cfg c)) in *.
  assert (Hdom : forall x, is_Some (<[sp := fl]> F !! x) <-> is_Some (F !! x)).
  { intros x. rewrite lookup_insert_is_Some. destruct (decide (sp = x)) as [->|]; naive_solver. }
  assert (Hspn : sp <> n).
  { intros ->. rewrite R1 in R2. rewrite <- !app_assoc in R2. simpl in R2.
    apply NoDup_app in R2 as (_ & _ & R2). apply NoDup_app in R2 as (_ & _ & R2).
    apply NoDup_cons in R2. set_solver. }
  assert (Hnull : exists s, slabs (taken c sp b (hd 0 fl) s0) !! n = Some s /\ slab_head s = 0 /\ slab_cache s = cache_self (cfg c)).
  { rewrite Es, lookup_insert_ne by done. done. }
  destruct fl as [|b' fl].
  - (* the last buffer: the freelist moves past the slab *)
    exists (A ++ B1 ++ [sp]), B2. constructor; rewrite ?Ec, ?Er; fold n; try done.
    + rewrite R1. by rewrite <- !app_assoc.
    + rewrite Ef. simpl. apply (slab_next_app c (A ++ B1)); [|done].
      rewrite R1. by rewrite <- !app_assoc.
    + intros x. rewrite Hdom, <- R4. set_solver.
    + intros x sx flx Hx Hsx Hfx. rewrite Es in Hsx.
      destruct (decide (x = sp)) as [->|Hne]; [left; rewrite lookup_insert_eq in Hfx; by simplify_eq|].
      rewrite lookup_insert_ne in Hsx by done. rewrite lookup_insert_ne in Hfx by done.
      apply elem_of_app in Hx as [Hx|Hx]; [by eapply R5|].
      apply elem_of_app in Hx as [Hx|Hx]; [|set_solver].
      right. assert (slab_state sx = SLAB_RECLAIMING) as Hst by (by apply (Hsk eq_refl x)).
      split; [|by left]. destruct (ci_slab _ _ _ _ I _ _ Hfx) as (sx' & Hsx' & Hokx).
      rewrite Hsx in Hsx'. simplify_eq. apply (so_idle _ _ _ _ Hokx). rewrite Hst. done.
    + intros x Hx E. destruct (decide (x = sp)) as [->|Hne].
      { rewrite R1 in R2. rewrite <- !app_assoc in R2. simpl in R2.
        apply NoDup_app in R2 as (_ & _ & R2). apply NoDup_app in R2 as (_ & _ & R2).
        apply NoDup_cons in R2. set_solver. }
      rewrite lookup_insert_ne in E by done. apply (R6 x); set_solver.
  - exists A, (B1 ++ sp :: B2). constructor; rewrite ?Ec, ?Er; fold n; try done.
    + rewrite Ef. simpl. pose proof (so_bufctls _ _ _ _ Hok) as Hat.
      apply Forall_cons in Hat as [_ Hat]. apply Forall_cons in Hat as [(buf & _ & Hb0 & _) _].
      rewrite (proj2 (Z.eqb_neq b' 0) Hb0). done.
    + intros x. by rewrite Hdom.
    + intros x sx flx Hx Hsx Hfx.
      assert (x <> sp) as Hne.
      { intros ->. rewrite R1 in R2. apply NoDup_app in R2 as (_ & R2 & _). set_solver. }
      rewrite Es in Hsx. rewrite lookup_insert_ne in Hsx by done. rewrite lookup_insert_ne in Hfx by done. by eapply R5.
    + intros x Hx E. destruct (decide (x = sp)) as [->|Hne];
        [by rewrite lookup_insert_eq in E|]. rewrite lookup_insert_ne in E by done. by apply (R6 x).
Qed.

Lemma taken_live sp b fl x :
  F !! sp = Some (b :: fl) -> hashed c = true -> hash_ok c F L ->
  live (<[sp := fl]> F) (taken_table c L b) x -> live F L x.
Proof.
  intros HF Hh HO. unfold taken_table. rewrite Hh. cbn zeta.
  set (h := UMEM_HASH c (buf_of c b)).
  destruct (lookup_lt_is_Some_2 L h ltac:(by eapply hash_lt)) as [l Hl].
  intros [(sp' & fl' & HF' & Hx)|(h' & l' & Hl' & Hx)].
  - left. destruct (decide (sp' = sp)) as [->|Hne].
    + rewrite lookup_insert_eq in HF'. simplify_eq. exists sp, (b :: fl'). set_solver.
    + rewrite lookup_insert_ne in HF' by done. eauto.
  - rewrite (nth_lookup_Some _ _ _ _ Hl) in Hl'. apply list_lookup_insert_Some in Hl'
      as [(<- & <- & _)|(Hne & Hl')]; [|right; eauto].
    apply elem_of_cons in Hx as [->|Hx]; [|right; eauto]. left. exists sp, (b :: fl). set_solver.
Qed.

Lemma taken_hash sp b fl s :
  F !! sp = Some (b :: fl) -> slabs c !! sp = Some s -> hashed c = true ->
  hash_ok (taken c sp b (hd 0 fl) s) (<[sp := fl]> F) (taken_table c L b).
Proof.
  intros HF Hs Hh. pose proof (ci_hash _ _ _ _ I Hh) as HO.
  pose proof (taken_live sp b fl) as Hlive.
  destruct (taken_fields sp b fl s) as (Ec & _ & Eb & [Ek _] & Es & _ & Em & Et).
  set (c' := taken c sp b (hd 0 fl) s) in *. rewrite Hh in Em, Et.
  destruct (ci_slab _ _ _ _ I _ _ HF) as (s0 & Hs0 & Hok). rewrite Hs in Hs0; simplify_eq.
  pose proof (so_nodup _ _ _ _ Hok) as Hnd. apply NoDup_cons in Hnd as [Hnb Hnd].
  unfold taken_table in *. rewrite Hh in *. cbn zeta in *. set (h := UMEM_HASH c (buf_of c b)) in *.
  destruct (lookup_lt_is_Some_2 L h ltac:(by eapply hash_lt)) as [l Hl].
  rewrite (nth_lookup_Some _ _ _ _ Hl) in *.
  assert (Hfresh : forall h' l', L !! h' = Some l' -> b ∉ l').
  { intros h' l' Hl' Hin. apply (ho_out _ _ _ HO _ _ _ _ _ Hl' Hin HF). set_solver. }
  assert (EH : forall x, UMEM_HASH c' x = UMEM_HASH c x)
    by (intros; unfold UMEM_HASH; by rewrite Ec, Ek).
  destruct (Forall2_lookup_r _ _ _ _ _ (ho_chain _ _ _ HO) Hl) as (hd0 & Hhd & Hch0).
  pose proof (so_bufctls _ _ _ _ Hok) as Hat. apply Forall_cons in Hat as [[buf Hbuf] _].
  constructor.
  - destruct (ho_mask _ _ _ HO) as (k & ? & ? & ?). exists k. by rewrite Ek, length_insert.
  - rewrite Et. apply Forall2_insert.
    + eapply Forall2_impl; [eapply Forall2_same_length_lookup_2|].
      * by rewrite (Forall2_length _ _ _ (ho_chain _ _ _ HO)).
      * intros i x y Hx Hy. pose proof (Forall2_lookup_lr _ _ _ _ _ _ (ho_chain _ _ _ HO) Hx Hy) as Hc.
        exact (conj Hc (Hfresh _ _ Hy)).
      * intros x y [Hc Hy]. eapply chain_ext; [|done]. intros z Hz. rewrite Em, ld_st, decide_False; [done|].
        intros ->. done.
    + simpl. destruct Hbuf as (_ & Hb0 & _). split_and!; [done..|].
      rewrite Em, ld_st, decide_True, (nth_lookup_Some _ _ _ _ Hhd) by done.
      eapply chain_ext; [|done]. intros z Hz. rewrite ld_st, decide_False; [done|].
      intros ->. by apply (Hfresh _ _ Hl).
  - intros h' l' Hl'. apply list_lookup_insert_Some in Hl' as [(<- & <- & _)|(_ & Hl')];
      [|by eapply (ho_nodup _ _ _ HO)].
    apply NoDup_cons. split; [by eapply Hfresh|by eapply (ho_nodup _ _ _ HO)].
  - assert (Hold : forall h' l' x, L !! h' = Some l' -> x ∈ l' ->
      exists sp0 s1 fl0 buf0, <[sp:=fl]> F !! sp0 = Some fl0 /\ slabs c' !! sp0 = Some s1 /\
        bufctl_for c' sp0 s1 x buf0 /\ UMEM_HASH c' buf0 = h').
    { intros h' l' x Hl' Hx. destruct (ho_alloc _ _ _ HO _ _ _ Hl' Hx) as (sp1 & s1 & fl1 & buf1 & HF1 & Hs1 & Hf1 & <-).
      rewrite Es. destruct (decide (sp1 = sp)) as [->|Hne].
      - simplify_eq. eexists sp, _, fl, buf1. rewrite !lookup_insert_eq. split_and!; try done; try by rewrite EH.
        eapply bufctl_for_frame; [done|by rewrite Eb|..|done]; done.
      - exists sp1, s1, fl1, buf1. rewrite !lookup_insert_ne by done. split_and!; try done; try by rewrite EH.
        eapply bufctl_for_frame; [done|by rewrite Eb|..|done]; done. }
    intros h' l' x Hl' Hx. apply list_lookup_insert_Some in Hl' as [(<- & <- & _)|(_ & Hl')]; [|by eauto].
    apply elem_of_cons in Hx as [->|Hx]; [|by eauto].
    eexists sp, _, fl, buf. rewrite Es, !lookup_insert_eq. split_and!; try done.
    + eapply bufctl_for_frame; [done|by rewrite Eb|..|done]; done.
    + rewrite EH. unfold h. by rewrite (buf_of_for _ _ _ _ _ Hbuf).
  - intros h' l' x sp' fl' Hl' Hx HF'.
    assert (Hsub : exists fl0, F !! sp' = Some fl0 /\ (forall y, y ∈ fl' -> y ∈ fl0) /\ (sp' = sp -> b ∉ fl')).
    { destruct (decide (sp' = sp)) as [->|Hne].
      - rewrite lookup_insert_eq in HF'. simplify_eq. exists (b :: fl'). set_solver.
      - rewrite lookup_insert_ne in HF' by done. exists fl'. naive_solver. }
    destruct Hsub as (fl0 & HF0 & Hsub & Hsb).
    assert (Hout : forall h0 l0, L !! h0 = Some l0 -> x ∈ l0 -> x ∉ fl').
    { intros h0 l0 Hl0 Hx0 Hin. apply (ho_out _ _ _ HO _ _ _ _ _ Hl0 Hx0 HF0). auto. }
    apply list_lookup_insert_Some in Hl' as [(<- & <- & _)|(_ & Hl')]; [|by eauto].
    apply elem_of_cons in Hx as [->|Hx]; [|by eauto].
    intros Hin. assert (sp' = sp) as -> by (apply (ci_sep _ _ _ _ I _ _ _ _ b HF0 HF); [auto|set_solver]).
    by apply Hsb.
  - intros x x' Hx Hx' E. rewrite !(buf_of_ext c') in E by done.
    apply (ho_inj _ _ _ HO); eauto.
Qed.

(** Taking a buffer keeps the invariant. *)
Lemma taken_inv A B1 sp B2 b fl s :
  ring_ok c F A (B1 ++ sp :: B2) -> (fl = [] -> skipped B1) ->
  F !! sp = Some (b :: fl) -> slabs c !! sp = Some s ->
  cache_inv q (taken c sp b (hd 0 fl) s) (<[sp := fl]> F) (taken_table c L b).
Proof.
  intros R Hsk HF Hs. destruct (taken_fields sp b fl s) as (Ec & _ & _ & [_ Eo] & Es & _).
  constructor.
  - rewrite Ec. apply (ci_geom _ _ _ _ I).
  - eapply taken_ring; eauto.
  - by eapply taken_slabs_ok.
  - assert (Hd : forall x, is_Some (<[sp := fl]> F !! x) -> is_Some (F !! x)).
    { intros x. rewrite lookup_insert_is_Some. destruct (decide (sp = x)) as [->|]; naive_solver. }
    intros x x' sx sx' Hne Hx Hx' Hsx Hsx'. rewrite Ec. rewrite Es in Hsx, Hsx'.
    assert (Hb : forall y sy, <[sp := Slab (slab_cache s) (slab_base s) (hd 0 fl) (slab_refcnt s + 1)
                       (slab_chunks s) SLAB_ACTIVE
                       (if slab_state s =? SLAB_ACTIVE then slab_idle_time s else 0)]> (slabs c) !! y = Some sy ->
              exists sy0, slabs c !! y = Some sy0 /\ slab_base sy0 = slab_base sy).
    { intros y sy Hy. destruct (decide (y = sp)) as [->|]; [|rewrite lookup_insert_ne in Hy by done; eauto].
      rewrite lookup_insert_eq in Hy. simplify_eq. eauto. }
    destruct (Hb _ _ Hsx) as (t & Ht & E1), (Hb _ _ Hsx') as (t' & Ht' & E2).
    unfold slab_start. rewrite <- E1, <- E2. by eapply (ci_apart _ _ _ _ I x x'); auto.
  - intros x x' flx flx' y Hx Hx' Hy Hy'.
    assert (Hsub : forall z flz, <[sp := fl]> F !! z = Some flz -> y ∈ flz ->
              exists fl0, F !! z = Some fl0 /\ y ∈ fl0).
    { intros z flz Hz Hyz. destruct (decide (z = sp)) as [->|]; [|rewrite lookup_insert_ne in Hz by done; eauto].
      rewrite lookup_insert_eq in Hz. simplify_eq. exists (b :: flz). set_solver. }
    destruct (Hsub _ _ Hx Hy) as (f1 & ? & ?), (Hsub _ _ Hx' Hy') as (f2 & ? & ?).
    by eapply (ci_sep _ _ _ _ I).
  - intros Hh. apply taken_hash; try done. unfold hashed in *. by rewrite <- Ec.
  - rewrite Ec, Eo. apply (ci_color _ _ _ _ I).
Qed.

(** ** Choosing the slab *)

Lemma find_usable_skip l1 sp l2 s :
  (forall x, x ∈ l1 -> x <> cache_nullslab (cfg c) /\
     exists sx, slabs c !! x = Some sx /\ slab_state sx = SLAB_RECLAIMING) ->
  sp <> cache_nullslab (cfg c) -> slabs c !! sp = Some s ->
  slab_state s <> SLAB_RECLAIMING -> slab_head s <> 0 ->
  find_usable c (l1 ++ sp :: l2) = sp.
Proof.
  intros H1 Hn Hs Hst Hh. induction l1 as [|x l1 IH]; simpl.
  - rewrite (proj2 (Z.eqb_neq _ _) Hn), Hs.
    by rewrite (proj2 (Z.eqb_neq _ _) Hst), (proj2 (Z.eqb_neq _ _) Hh).
  - destruct (H1 x ltac:(set_solver)) as (Hx & sx & Hsx & Hr).
    rewrite (proj2 (Z.eqb_neq _ _) Hx), Hsx, Hr. simpl. apply IH. intros; apply H1. set_solver.
Qed.

(** The freelist slabs are the cache's and their heads are not NULL. *)
Lemma on_head A B sp fl :
  ring_ok c F A B -> sp ∈ B -> F !! sp = Some fl ->
  exists s, slabs c !! sp = Some s /\ slab_head s <> 0 /\ slab_cache s = cache_self (cfg c).
Proof.
  intros R Hin HF. destruct (ci_slab _ _ _ _ I _ _ HF) as (s & Hs & Hok). exists s.
  split; [done|]. destruct fl as [|b fl]; [by destruct (ro_on _ _ _ _ R sp Hin)|].
  destruct (so_chain _ _ _ _ Hok) as (-> & H & _). split; [done|]. apply (so_geom _ _ _ _ Hok).
Qed.

Lemma slab_pick_run w umflag A B1 sp B2 s :
  ring_ok c F A (B1 ++ sp :: B2) -> skipped B1 -> slabs c !! sp = Some s ->
  slab_state s <> SLAB_RECLAIMING -> slab_pick w c umflag = Ok (w, c, sp).
Proof.
  intros R Hsk Hs Hst.
  assert (Hin : forall x, x ∈ B1 ++ sp :: B2 -> x <> 0 /\ x <> cache_nullslab (cfg c) /\
            exists fl sx, F !! x = Some fl /\ slabs c !! x = Some sx /\ slab_head sx <> 0 /\
            slab_cache sx = cache_self (cfg c)).
  { intros x Hx. pose proof (ro_nonzero _ _ _ _ R) as Hz. pose proof (ro_nodup _ _ _ _ R) as Hnd.
    rewrite (ro_ring _ _ _ _ R) in Hz, Hnd. split; [set_solver|]. split.
    { intros ->. rewrite app_assoc in Hnd. apply NoDup_app in Hnd as (_ & Hnd & _).
      apply (Hnd (cache_nullslab (cfg c))); set_solver. }
    destruct (proj1 (ro_dom _ _ _ _ R x) ltac:(set_solver)) as [fl HF].
    destruct (on_head _ _ _ _ R Hx HF) as (sx & ? & ? & ?). eauto 10. }
  destruct (Hin sp ltac:(set_solver)) as (Hsp0 & Hspn & _ & s' & _ & Hs' & Hh & Hca).
  rewrite Hs in Hs'. simplify_eq. unfold slab_pick. rewrite (ro_head _ _ _ _ R).
  destruct B1 as [|x B1]; simpl hd.
  - rewrite Hs, (proj2 (Z.eqb_neq _ _) Hh), Hca, Z.eqb_refl. simpl.
    by rewrite (proj2 (Z.eqb_neq _ _) Hsp0), Hs, (proj2 (Z.eqb_neq _ _) Hst).
  - destruct (Hin x ltac:(set_solver)) as (Hx0 & Hxn & _ & sx & _ & Hsx & Hxh & Hxc).
    rewrite Hsx, (proj2 (Z.eqb_neq _ _) Hxh), Hxc, Z.eqb_refl. simpl. rewrite (proj2 (Z.eqb_neq _ _) Hx0), Hsx.
    rewrite (Hsk x sx ltac:(set_solver) Hsx). simpl.
    assert (Ea : after x (ring c) = B1 ++ sp :: (B2 ++ [cache_nullslab (cfg c)])).
    { rewrite (ro_ring _ _ _ _ R). simpl. rewrite after_app; [by rewrite <- app_assoc|].
      pose proof (ro_nodup _ _ _ _ R) as Hnd. rewrite (ro_ring _ _ _ _ R) in Hnd.
      apply NoDup_app in Hnd. set_solver. }
    rewrite Ea, (find_usable_skip _ _ _ s'); try done.
    + rewrite (proj2 (Z.eqb_neq _ _) Hspn), Hs, (proj2 (Z.eqb_neq _ _) Hh). done.
    + intros y Hy. destruct (Hin y ltac:(set_solver)) as (_ & Hyn & _ & sy & _ & Hsy & _).
      split; [done|]. exists sy. split; [done|]. apply (Hsk y); set_solver.
Qed.
End take.

(** Statistics are not part of the invariant. *)
Lemma cache_inv_stats q c F L t : cache_inv q c F L -> cache_inv q (set_stats t c) F L.
Proof.
  intros [H1 (A & B & R) H3 H4 H5 H6 H7]. constructor; try done.
  - exists A, B. by destruct R.
  - intros sp fl HF. destruct (H3 sp fl HF) as (s & Hs & Hok). exists s. split; [done|].
    by eapply (slab_ok_frame c).
  - intros Hh. destruct (H6 Hh) as [h1 h2 h3 h4 h5 h6]. by constructor.
Qed.
