(* ===== verification/SlabFree.v ===== *)
(** * The slab layer: putting buffers and slabs back

    [released] is the state after a buffer's bufctl returns to its slab; it,
    taking a slab off the ring ([slab_retire]) and giving its memory back
    ([umem_slab_destroy]) keep [cache_inv]. *)
From S2P Require Import Prelude Machine SlabModel SlabWf SlabInv.

(** No bufctl in use stands for [buf]. *)
Definition unused (c : cache) (F : gmap Z (list Z)) (L : list (list Z)) (buf : Z) : Prop :=
  (forall sp fl x, F !! sp = Some fl -> x ∈ fl -> buf_of c x <> buf) /\
  (hashed c = true -> forall h l x, L !! h = Some l -> x ∈ l -> buf_of c x <> buf).

(** The buffer is out: a chunk of a slab without a free bufctl. *)
Definition allocated (c : cache) (F : gmap Z (list Z)) (buf : Z) : Prop :=
  exists sp s fl, F !! sp = Some fl /\ slabs c !! sp = Some s /\ is_chunk (cfg c) s buf /\
    forall x, x ∈ fl -> buf_of c x <> buf.

Definition released (c : cache) (sp b : Z) (s : umem_slab) (state idle : Z) : cache :=
  let c1 := if slab_head s =? 0
            then freelist_push sp (set_ring (unlink sp (ring c)) c) else c in
  let c2 := set_link c1 b (slab_head s) in
  set_slabs (<[sp := Slab (slab_cache s) (slab_base s) b (slab_refcnt s - 1) (slab_chunks s)
                       state idle]> (slabs c2)) c2.

Lemma insert_before_app p x l1 l2 :
  p ∉ l1 -> insert_before p x (l1 ++ p :: l2) = l1 ++ x :: p :: l2.
Proof.
  induction l1 as [|y l1 IH]; simpl; intros Hp; [by rewrite decide_True|].
  rewrite decide_False by set_solver. f_equal. apply IH. set_solver.
Qed.

Section release.
Context {q : Z} {c : cache} {F : gmap Z (list Z)} {L : list (list Z)} (I : cache_inv q c F L).
Context {sp b buf : Z} {s : umem_slab} {fl : list Z}.
Hypothesis HF : F !! sp = Some fl.
Hypothesis Hs : slabs c !! sp = Some s.
Hypothesis Hb : bufctl_for c sp s b buf.
Hypothesis Hu : unused c F L buf.
Lemma release_slab : slab_ok c sp s fl.
Proof using I HF Hs. destruct (ci_slab _ _ _ _ I _ _ HF) as (s' & ? & ?). by simplify_eq. Qed.

Lemma release_fresh sp' fl' : F !! sp' = Some fl' -> b ∉ fl'.
Proof using Hb Hu.
  intros HF' Hin. apply (proj1 Hu _ _ _ HF' Hin). eapply buf_of_for, Hb.
Qed.

Lemma release_inj x x' :
  x = b \/ x ∈ fl -> x' = b \/ x' ∈ fl -> buf_of c x = buf_of c x' -> x = x'.
Proof using I HF Hs Hb Hu.
  pose proof (buf_of_for _ _ _ _ _ Hb) as Eb.
  intros [->|Hx] [->|Hx'] E; [done| | |].
  - exfalso. apply (proj1 Hu _ _ _ HF Hx'). congruence.
  - exfalso. apply (proj1 Hu _ _ _ HF Hx). congruence.
  - destruct (hashed c) eqn:Hh.
    + apply (ho_inj _ _ _ (ci_hash _ _ _ _ I Hh)); [left; eauto..|done].
    + unfold buf_of in E. rewrite Hh in E. lia.
Qed.

(** A slab without a free buffer is full, and not at the head of the freelist. *)
Lemma free_asserts :
  negb (slab_head s =? 0) || (slab_refcnt s =? slab_chunks s) = true /\
  negb (slab_head s =? 0) || negb (cache_freelist c =? sp) = true.
Proof using I HF Hs.
  clear Hb Hu. pose proof release_slab as Hok. pose proof (so_refcnt _ _ _ _ Hok) as Hr.
  destruct (Z.eqb_spec (slab_head s) 0) as [E|]; [|done]. cbn [negb orb].
  destruct fl as [|x l]; [|by destruct (so_chain _ _ _ _ Hok) as (E1 & E2 & _); rewrite <- E1, E in E2].
  simpl in Hr. split; [apply Z.eqb_eq; lia|]. apply negb_true_iff, Z.eqb_neq.
  destruct (ci_ring _ _ _ _ I) as (A & B & R). rewrite (ro_head _ _ _ _ R).
  pose proof (ro_nodup _ _ _ _ R) as Hnd. rewrite (ro_ring _ _ _ _ R) in Hnd.
  destruct B as [|y B]; simpl; intros <-; [|by apply (ro_on _ _ _ _ R y ltac:(by left))].
  rewrite app_assoc in Hnd. apply NoDup_app in Hnd as (_ & Hnd & _).
  apply (Hnd (cache_nullslab (cfg c))); [apply (ro_dom _ _ _ _ R); eauto|set_solver].
Qed.

(** The slab has a buffer out. *)
Lemma release_refcnt : 1 <= slab_refcnt s.
Proof using I HF Hs Hb Hu.
  pose proof release_slab as Hok.
  pose proof (so_refcnt _ _ _ _ Hok). pose proof (so_nodup _ _ _ _ Hok).
  assert (Z.of_nat (length (b :: fl)) <= slab_chunks s); [|simpl in *; lia].
  apply (bufctls_bound c q sp s); [apply (ci_geom _ _ _ _ I)|apply (so_geom _ _ _ _ Hok)| | |].
  - apply NoDup_cons. split; [by apply (release_fresh sp)|done].
  - apply Forall_cons. split; [by exists buf|apply (so_bufctls _ _ _ _ Hok)].
  - intros x x' Hx Hx'. apply release_inj; set_solver.
Qed.

Context {state idle : Z}.
Hypothesis Hstate : state <> SLAB_ACTIVE -> slab_refcnt s = 1.

Let c' := released c sp b s state idle.

Lemma released_fields :
  cfg c' = cfg c /\ bufctls c' = bufctls c /\ cache_hash_mask c' = cache_hash_mask c /\
  cache_hash_table c' = cache_hash_table c /\ cache_color c' = cache_color c /\
  slabs c' = <[sp := Slab (slab_cache s) (slab_base s) b (slab_refcnt s - 1) (slab_chunks s)
                       state idle]> (slabs c) /\
  mem c' = st (mem c) b (UMEM_LINK_MANGLE (cfg c) b (slab_head s)) /\
  (ring c', cache_freelist c') =
    (if slab_head s =? 0 then (insert_before (cache_freelist c) sp (unlink sp (ring c)), sp)
     else (ring c, cache_freelist c)).
Proof using. unfold c', released. by destruct (slab_head s =? 0). Qed.

Lemma released_slabs sp' fl' :
  <[sp := b :: fl]> F !! sp' = Some fl' ->
  exists s', slabs c' !! sp' = Some s' /\ slab_ok c' sp' s' fl'.
Proof using I HF Hs Hb Hu Hstate.
  destruct released_fields as (Ec & Ebc & _ & _ & _ & Es & Em & _).
  pose proof release_slab as Hok. pose proof release_refcnt as Hrc. intros HF'.
  assert (Hmem : forall x, x <> b -> ld (mem c') x = ld (mem c) x)
    by (intros x Hx; rewrite Em, ld_st, decide_False; congruence).
  rewrite Es. destruct (decide (sp' = sp)) as [->|Hne].
  - rewrite lookup_insert_eq in HF'. simplify_eq. rewrite lookup_insert_eq. eexists. split; [done|].
    pose proof (release_fresh sp fl HF) as Hnb.
    destruct (slab_ok_frame c c' sp s fl) as [Hg Hch Hnd Hat Hr Hn Hi]; try done.
    { by rewrite Ebc. }
    { intros x Hx. apply Hmem. set_solver. }
    assert (Hbf : bufctl_for c' sp s b buf) by (eapply bufctl_for_frame; eauto; by rewrite Ebc).
    constructor; simpl; try done; try lia.
    + destruct Hg as [h1 h2 h3 h4 h5 h6 h7]. by constructor.
    + split_and!; [done|by destruct Hb as (_ & ? & _)|].
      unfold link_of at 2. rewrite Em, ld_st, decide_True, Ec, mangle_mangle by done. done.
    + by apply NoDup_cons.
    + apply Forall_cons. split; [|eapply Forall_impl; [done|intros x [y Hy]]];
        eexists; [exact Hbf|exact Hy].
  - rewrite lookup_insert_ne in HF' by done. rewrite lookup_insert_ne by done.
    destruct (ci_slab _ _ _ _ I _ _ HF') as (s' & Hs' & Hok'). exists s'. split; [done|].
    apply (slab_ok_frame c); [done|by rewrite Ebc| |done].
    intros x Hx. apply Hmem. intros ->. by apply (release_fresh sp' fl').
Qed.

Lemma released_ring : exists A B, ring_ok c' (<[sp := b :: fl]> F) A B.
Proof using I HF Hs Hb Hu Hstate.
  destruct released_fields as (Ec & _ & _ & _ & _ & Es & _ & Er).
  pose proof release_slab as Hok. pose proof release_refcnt as Hrc.
  destruct (ci_ring _ _ _ _ I) as (A & B & [R1 R2 R3 R4 R5 R6 R7 R8]).
  set (n := cache_nullslab (cfg c)) in *.
  assert (Hdom : forall x, is_Some (<[sp := b :: fl]> F !! x) <-> is_Some (F !! x)).
  { intros x. rewrite lookup_insert_is_Some. destruct (decide (sp = x)) as [->|]; naive_solver. }
  assert (Hin : sp ∈ A ++ B) by (apply R4; eauto).
  assert (Hspn : sp <> n).
  { intros ->. rewrite R1, app_assoc in R2. apply NoDup_app in R2 as (_ & R2 & _).
    apply (R2 n); set_solver. }
  assert (Hnull : exists s, slabs c' !! n = Some s /\ slab_head s = 0 /\ slab_cache s = cache_self (cfg c))
    by (rewrite Es, lookup_insert_ne by done; done).
  pose proof (chain_head _ _ _ (so_chain _ _ _ _ Hok)) as Hh.
  destruct fl as [|b' fl'] eqn:Efl.
  - (* the slab was full *)
    simpl in Hh. rewrite Hh in Er. cbn [Z.eqb] in Er.
    pose proof (f_equal snd Er) as Ef. apply (f_equal fst) in Er. cbn [fst snd] in Er, Ef.
    assert (HA : sp ∈ A).
    { apply elem_of_app in Hin as [|Hin]; [done|]. by destruct (R6 sp Hin). }
    apply list_elem_of_split in HA as (A1 & A2 & ->).
    rewrite R1 in R2. rewrite <- !app_assoc in R2. simpl in R2.
    assert (HnA1 : sp ∉ A1) by (apply NoDup_app in R2 as (_ & R2 & _); set_solver).
    assert (Hperm : A1 ++ A2 ++ sp :: B ++ [n] ≡ₚ A1 ++ sp :: A2 ++ B ++ [n]) by solve_Permutation.
    assert (Er' : ring c' = (A1 ++ A2) ++ (sp :: B) ++ [n]).
    { rewrite Er, R1. rewrite <- !app_assoc. simpl. rewrite unlink_app by done.
      rewrite R3. rewrite <- Hperm in R2. destruct B as [|y B]; simpl.
      - rewrite (app_assoc A1 A2 [n]), insert_before_app; [by rewrite <- app_assoc|].
        rewrite app_assoc in R2. apply NoDup_app in R2 as (_ & R2 & _). intros Hx.
        apply (R2 n Hx). set_solver.
      - rewrite (app_assoc A1 A2), insert_before_app; [by rewrite <- app_assoc|].
        rewrite app_assoc in R2. apply NoDup_app in R2 as (_ & R2 & _). intros Hx.
        apply (R2 y Hx). set_solver. }
    exists (A1 ++ A2), (sp :: B). constructor; rewrite ?Ec; fold n; try done.
    + rewrite Er'. simpl. rewrite <- app_assoc. by rewrite Hperm.
    + intros x. rewrite Hdom, <- R4. set_solver.
    + intros x sx flx Hx Hsx Hfx. assert (x <> sp) as Hne.
      { intros ->. rewrite <- Hperm, app_assoc in R2. apply NoDup_app in R2 as (_ & R2 & _).
        apply (R2 sp Hx). set_solver. }
      rewrite Es in Hsx. rewrite lookup_insert_ne in Hsx by done.
      rewrite lookup_insert_ne in Hfx by done. eapply R5; eauto. set_solver.
    + intros x Hx E. destruct (decide (x = sp)) as [->|Hne];
        [by rewrite lookup_insert_eq in E|]. rewrite lookup_insert_ne in E by done.
      apply (R6 x); set_solver.
    + rewrite Er'. rewrite R1 in R8. set_solver.
  - simpl in Hh. pose proof (so_bufctls _ _ _ _ Hok) as Hat.
    apply Forall_cons in Hat as [(bb & _ & Hb0 & _) _].
    rewrite Hh, (proj2 (Z.eqb_neq b' 0) Hb0) in Er.
    pose proof (f_equal snd Er) as Ef. apply (f_equal fst) in Er. cbn [fst snd] in Er, Ef.
    exists A, B. constructor; rewrite ?Ec, ?Er, ?Ef; fold n; try done.
    + intros x. by rewrite Hdom.
    + intros x sx flx Hx Hsx Hfx. destruct (decide (x = sp)) as [->|Hne].
      { exfalso. destruct (R5 sp s (b' :: fl') Hx Hs HF) as [|[Hz _]]; [done|]. lia. }
      rewrite Es in Hsx. rewrite lookup_insert_ne in Hsx by done.
      rewrite lookup_insert_ne in Hfx by done. eapply R5; eauto.
    + intros x Hx E. destruct (decide (x = sp)) as [->|Hne];
        [by rewrite lookup_insert_eq in E|]. rewrite lookup_insert_ne in E by done. by apply (R6 x).
Qed.

Lemma released_live x : live (<[sp := b :: fl]> F) L x -> x = b \/ live F L x.
Proof using HF.
  intros [(sp' & fl' & HF' & Hx)|Hx]; [|by right; right].
  destruct (decide (sp' = sp)) as [->|Hne].
  - rewrite lookup_insert_eq in HF'. simplify_eq. apply elem_of_cons in Hx as [->|Hx]; [by left|].
    right. left. eauto.
  - rewrite lookup_insert_ne in HF' by done. right. left. eauto.
Qed.

Lemma released_hash : hashed c = true -> hash_ok c' (<[sp := b :: fl]> F) L.
Proof using I HF Hs Hb Hu.
  intros Hh. pose proof (ci_hash _ _ _ _ I Hh) as HO.
  destruct released_fields as (Ec & Ebc & Ek & Et & _ & Es & Em & _).
  pose proof (buf_of_for _ _ _ _ _ Hb) as Ebuf.
  assert (Hfr : forall h l, L !! h = Some l -> b ∉ l)
    by (intros h l Hl Hin; by apply (proj2 Hu Hh _ _ _ Hl Hin)).
  assert (Hlu : forall x, live F L x -> buf_of c x <> buf).
  { intros x [(? & ? & ? & ?)|(? & ? & ? & ?)]; [by eapply (proj1 Hu)|by eapply (proj2 Hu Hh)]. }
  assert (EH : forall x, UMEM_HASH c' x = UMEM_HASH c x)
    by (intros; unfold UMEM_HASH; by rewrite Ec, Ek).
  destruct HO as [h1 h2 h3 h4 h5 h6]. constructor.
  - by rewrite Ek.
  - rewrite Et. apply Forall2_same_length_lookup_2; [by apply (Forall2_length _ _ _ h2)|].
    intros i x l Hx Hl. eapply chain_ext; [|by eapply (Forall2_lookup_lr _ _ _ _ _ _ h2)].
    intros y Hy. rewrite Em, ld_st, decide_False; [done|]. intros ->. by apply (Hfr _ _ Hl).
  - done.
  - intros h l x Hl Hx. destruct (h4 h l x Hl Hx) as (sp1 & s1 & fl1 & buf1 & HF1 & Hs1 & Hf1 & <-).
    rewrite Es. destruct (decide (sp1 = sp)) as [->|Hne].
    + simplify_eq. eexists sp, _, (b :: fl), buf1. rewrite !lookup_insert_eq.
      split_and!; try done; try apply EH. eapply bufctl_for_frame; [done|by rewrite Ebc|..|done]; done.
    + exists sp1, s1, fl1, buf1. rewrite !lookup_insert_ne by done.
      split_and!; try done; try apply EH. eapply bufctl_for_frame; [done|by rewrite Ebc|..|done]; done.
  - intros h l x sp' fl' Hl Hx HF'. destruct (decide (sp' = sp)) as [->|Hne].
    + rewrite lookup_insert_eq in HF'. simplify_eq. apply not_elem_of_cons. split; [|by eapply h5].
      intros ->. by apply (Hfr _ _ Hl).
    + rewrite lookup_insert_ne in HF' by done. by eapply h5.
  - intros x x' Hx Hx' E. rewrite !(buf_of_ext c') in E by done.
    apply released_live in Hx as [->|Hx]; apply released_live in Hx' as [->|Hx']; [done| | |by apply h6].
    + exfalso. apply (Hlu x' Hx'). congruence.
    + exfalso. apply (Hlu x Hx). congruence.
Qed.

Lemma released_inv : cache_inv q c' (<[sp := b :: fl]> F) L.
Proof using I HF Hs Hb Hu Hstate.
  destruct released_fields as (Ec & _ & _ & _ & Eo & Es & _).
  constructor.
  - rewrite Ec. apply (ci_geom _ _ _ _ I).
  - apply released_ring.
  - apply released_slabs.
  - assert (Hd : forall x, is_Some (<[sp := b :: fl]> F !! x) -> is_Some (F !! x)).
    { intros x. rewrite lookup_insert_is_Some. destruct (decide (sp = x)) as [->|]; naive_solver. }
    intros x x' sx sx' Hne Hx Hx' Hsx Hsx'. rewrite Ec. rewrite Es in Hsx, Hsx'.
    assert (Hbase : forall y sy t, slab_base t = slab_base s -> <[sp := t]> (slabs c) !! y = Some sy ->
              exists sy0, slabs c !! y = Some sy0 /\ slab_base sy0 = slab_base sy).
    { intros y sy t Ht Hy. destruct (decide (y = sp)) as [->|];
        [|rewrite lookup_insert_ne in Hy by done; eauto].
      rewrite lookup_insert_eq in Hy. simplify_eq. eauto. }
    apply Hbase in Hsx as (t & Ht & E1); [|done]. apply Hbase in Hsx' as (t' & Ht' & E2); [|done].
    unfold slab_start. rewrite <- E1, <- E2. by eapply (ci_apart _ _ _ _ I x x'); auto.
  - intros x x' flx flx' y Hx Hx' Hy Hy'.
    destruct (decide (x = x')) as [|Hne]; [done|]. exfalso.
    assert (Hof : forall z flz, <[sp := b :: fl]> F !! z = Some flz -> y ∈ flz ->
              (y = b /\ z = sp) \/ exists fl0, F !! z = Some fl0 /\ y ∈ fl0).
    { intros z flz Hz Hyz. destruct (decide (z = sp)) as [->|];
        [|rewrite lookup_insert_ne in Hz by done; eauto].
      rewrite lookup_insert_eq in Hz. simplify_eq. apply elem_of_cons in Hyz as [->|]; eauto. }
    destruct (Hof _ _ Hx Hy) as [[-> ->]|(f1 & Hf1 & Hy1)], (Hof _ _ Hx' Hy') as [[E ->]|(f2 & Hf2 & Hy2)].
    + done.
    + by apply (release_fresh _ _ Hf2).
    + subst y. by apply (release_fresh _ _ Hf1).
    + apply Hne. by eapply (ci_sep _ _ _ _ I).
  - intros Hh. apply released_hash. unfold hashed in *. by rewrite <- Ec.
  - rewrite Ec, Eo. apply (ci_color _ _ _ _ I).
Qed.
End release.

(** ** Taking a slab off the ring *)

Section retire.
Context {q : Z} {c : cache} {F : gmap Z (list Z)} {L : list (list Z)} (I : cache_inv q c F L).
Context {sp : Z} {s : umem_slab} {fl : list Z}.
Hypothesis HF : F !! sp = Some fl.
Hypothesis Hs : slabs c !! sp = Some s.
Hypothesis Hz : slab_refcnt s = 0.

Lemma retire_ring_ok : exists A B, ring_ok (slab_retire sp c) (delete sp F) A B.
Proof using I HF Hs Hz.
  destruct (ci_ring _ _ _ _ I) as (A & B & [R1 R2 R3 R4 R5 R6 R7 R8]).
  set (n := cache_nullslab (cfg c)) in *.
  assert (Hin : sp ∈ A ++ B) by (apply R4; eauto).
  assert (Hnd : (sp ∉ [n]) /\ NoDup (A ++ B)).
  { rewrite R1, app_assoc in R2. apply NoDup_app in R2 as (R2 & R2' & _). split; [by apply R2'|done]. }
  destruct Hnd as [Hspn Hnd].
  assert (Hgen : forall A' B', (A ++ B) ≡ₚ (sp :: (A' ++ B')) -> (forall x, x ∈ A' -> x ∈ A) ->
    (forall x, x ∈ B' -> x ∈ B) -> ring (slab_retire sp c) = A' ++ B' ++ [n] ->
    cache_freelist (slab_retire sp c) = hd n B' ->
    ring_ok (slab_retire sp c) (delete sp F) A' B').
  { intros A' B' HP HA HB Er Ef.
    assert (Hfr : sp ∉ A' ++ B') by (rewrite HP in Hnd; by apply NoDup_cons in Hnd as [? _]).
    constructor; try done.
    - rewrite Er, app_assoc. rewrite R1, app_assoc, HP in R2. by apply NoDup_cons in R2 as [_ R2].
    - intros x. rewrite lookup_delete_is_Some. rewrite <- R4, HP. split; [|set_solver].
      intros Hx. split; [intros ->; done|set_solver].
    - intros x sx flx Hx Hsx Hfx. apply lookup_delete_Some in Hfx as [_ Hfx]. eapply R5; eauto.
    - intros x Hx E. apply lookup_delete_Some in E as [_ E]. by eapply R6; eauto.
    - rewrite Er. rewrite R1 in R8. intros H0. apply R8. rewrite !elem_of_app in H0 |- *. naive_solver. }
  assert (HR2 : NoDup (A ++ B ++ [n])) by (by rewrite <- R1).
  apply elem_of_app in Hin as [Hin|Hin].
  - apply list_elem_of_split in Hin as (A1 & A2 & ->). exists (A1 ++ A2), B.
    assert (HnA1 : sp ∉ A1) by (rewrite <- !app_assoc in HR2; apply NoDup_app in HR2 as (_ & H & _); set_solver).
    apply Hgen; [solve_Permutation|set_solver|done| |].
    + unfold slab_retire, slab_unlink. simpl. rewrite R1. rewrite <- !app_assoc. simpl. by apply unlink_app.
    + unfold slab_retire, slab_unlink. simpl. rewrite R3.
      assert (sp <> hd n B) as Hne.
      { intros E. apply NoDup_app in HR2 as (_ & H & _). apply (H sp); [set_solver|].
        rewrite E. destruct B; set_solver. }
      by rewrite (proj2 (Z.eqb_neq _ _) Hne).
  - apply list_elem_of_split in Hin as (B1 & B2 & ->). exists A, (B1 ++ B2).
    assert (HnB1 : sp ∉ A ++ B1).
    { rewrite <- !app_assoc in HR2. simpl in HR2. rewrite app_assoc in HR2.
      apply NoDup_app in HR2 as (_ & H & _). set_solver. }
    apply Hgen; [solve_Permutation|done|set_solver| |].
    + unfold slab_retire, slab_unlink. simpl. rewrite R1. rewrite <- !app_assoc. simpl.
      rewrite app_assoc, unlink_app by done. by rewrite <- app_assoc.
    + unfold slab_retire, slab_unlink. simpl. rewrite R3. destruct B1 as [|y B1]; simpl hd.
      * rewrite Z.eqb_refl. apply (slab_next_app c A); [|done]. by rewrite R1.
      * rewrite (proj2 (Z.eqb_neq sp y)) by set_solver. done.
Qed.

(** No buffer of the slab is out. *)
Lemma retire_none_out h l x :
  hashed c = true -> L !! h = Some l -> x ∈ l -> forall sp1 s1 buf1,
  slabs c !! sp1 = Some s1 -> bufctl_for c sp1 s1 x buf1 -> sp1 <> sp.
Proof using I HF Hs Hz.
  intros Hh Hl Hx sp1 s1 buf1 Hs1 Hb1 ->. rewrite Hs in Hs1. injection Hs1 as <-.
  destruct (ci_slab _ _ _ _ I _ _ HF) as (s' & Hs' & Hok). rewrite Hs in Hs'. injection Hs' as <-.
  pose proof (ci_hash _ _ _ _ I Hh) as HO.
  pose proof (ho_out _ _ _ HO _ _ _ _ _ Hl Hx HF) as Hnx.
  assert (Z.of_nat (length (x :: fl)) <= slab_chunks s); [|pose proof (so_refcnt _ _ _ _ Hok); simpl in *; lia].
  apply (bufctls_bound c q sp s); [apply (ci_geom _ _ _ _ I)|apply (so_geom _ _ _ _ Hok)|..].
  - apply NoDup_cons. split; [done|apply (so_nodup _ _ _ _ Hok)].
  - apply Forall_cons. split; [by exists buf1|apply (so_bufctls _ _ _ _ Hok)].
  - assert (Hlv : forall y, y ∈ x :: fl -> live F L y)
      by (intros y Hy; apply elem_of_cons in Hy as [->|Hy]; [right|left]; eauto).
    intros y y' Hy Hy' E. by apply (ho_inj _ _ _ HO); [apply Hlv..|].
Qed.

Lemma retire_inv : cache_inv q (slab_retire sp c) (delete sp F) L.
Proof using I HF Hs Hz.
  pose proof retire_none_out as Hout. pose proof retire_ring_ok as HR.
  destruct I as [H1 _ H3 H4 H5 H6 H7]. constructor; try done.
  - intros sp' fl' HF'. apply lookup_delete_Some in HF' as [Hne HF'].
    destruct (H3 sp' fl' HF') as (s' & Hs' & Hok). exists s'. split; [done|].
    by eapply (slab_ok_frame c).
  - intros x x' sx sx' Hne [? Hx] [? Hx'] Hsx Hsx'.
    apply lookup_delete_Some in Hx as [_ Hx]. apply lookup_delete_Some in Hx' as [_ Hx'].
    by eapply (H4 x x'); eauto.
  - intros x x' flx flx' y Hx Hx'. apply lookup_delete_Some in Hx as [_ Hx].
    apply lookup_delete_Some in Hx' as [_ Hx']. by apply H5.
  - intros Hh. destruct (H6 Hh) as [h1 h2 h3 h4 h5 h6]. constructor; try done.
    + intros h l x Hl Hx. destruct (h4 h l x Hl Hx) as (sp1 & s1 & fl1 & buf1 & HF1 & Hs1 & Hf1 & E).
      exists sp1, s1, fl1, buf1. split_and!; try done. rewrite lookup_delete_ne; [done|].
      apply not_eq_sym. by eapply (Hout h l x).
    + intros h l x sp' fl' Hl Hx HF'. apply lookup_delete_Some in HF' as [_ HF']. by eapply h5.
    + assert (Hsub : forall y, live (delete sp F) L y -> live F L y).
      { intros y [(? & ? & Hy & ?)|?]; [|by right]. apply lookup_delete_Some in Hy as [_ Hy]. left. eauto. }
      intros x x' Hx Hx'. apply h6; auto.
Qed.
End retire.

(** ** Giving a slab's memory back *)

(** The fields a detached slab's destruction does not touch. *)
Lemma cache_inv_detached q c c' F L :
  cache_inv q c F L ->
  cfg c' = cfg c -> ring c' = ring c -> cache_freelist c' = cache_freelist c ->
  cache_hash_table c' = cache_hash_table c -> cache_hash_mask c' = cache_hash_mask c ->
  mem c' = mem c -> cache_color c' = cache_color c ->
  (forall x, is_Some (F !! x) \/ x = cache_nullslab (cfg c) -> slabs c' !! x = slabs c !! x) ->
  (forall x, live F L x -> bufctls c' !! x = bufctls c !! x) ->
  cache_inv q c' F L.
Proof.
  intros [H1 (A & B & [R1 R2 R3 R4 R5 R6 R7 R8]) H3 H4 H5 H6 H7] Ec Er Ef Et Ek Em Eo Es Eb.
  assert (EbF : forall sp fl x, F !! sp = Some fl -> x ∈ fl -> bufctls c' !! x = bufctls c !! x)
    by (intros; apply Eb; left; eauto).
  assert (EsF : forall sp fl, F !! sp = Some fl -> slabs c' !! sp = slabs c !! sp)
    by (intros; apply Es; left; eauto).
  constructor.
  - by rewrite Ec.
  - exists A, B. constructor; rewrite ?Ec, ?Er, ?Ef; try done.
    + intros sp s fl HA Hs HF. rewrite (EsF _ _ HF) in Hs. by eapply R5.
    + by rewrite Es by (by right).
  - intros sp fl HF. destruct (H3 sp fl HF) as (s & Hs & Hok). exists s. rewrite (EsF _ _ HF).
    split; [done|]. apply (slab_ok_frame c); try done; [by eauto|by rewrite Em].
  - intros x x' sx sx' Hne [fx Hx] [fx' Hx'] Hsx Hsx'. rewrite Ec.
    rewrite (EsF _ _ Hx) in Hsx. rewrite (EsF _ _ Hx') in Hsx'. by eapply (H4 x x'); eauto.
  - done.
  - intros Hh. assert (Hh' : hashed c = true) by (unfold hashed in *; by rewrite <- Ec).
    destruct (H6 Hh') as [h1 h2 h3 h4 h5 h6]. constructor; rewrite ?Ek, ?Et, ?Em; try done.
    + intros h l x Hl Hx. destruct (h4 h l x Hl Hx) as (sp1 & s1 & fl1 & buf1 & HF1 & Hs1 & Hf1 & <-).
      exists sp1, s1, fl1, buf1. rewrite (EsF _ _ HF1). split_and!; try done.
      * eapply bufctl_for_frame; [done| | | |done]; try done. apply Eb. right. eauto.
      * unfold UMEM_HASH. by rewrite Ec, Ek.
    + assert (Hbo : forall x, live F L x -> buf_of c' x = buf_of c x).
      { intros x Hx. unfold buf_of, hashed. by rewrite Ec, Eb. }
      intros x x' Hx Hx'. rewrite !Hbo by done. by apply h6.
  - by rewrite Ec, Eo.
Qed.

Section destroy.
Context {W : Type} {env : slab_env W}.

(** The bufctls of a detached slab all go back to their cache. *)
Lemma bufctls_free_run n w c sp s fl :
  slabs c !! sp = Some s -> chain (link_of c) (slab_head s) fl -> NoDup fl ->
  (length fl <= n)%nat ->
  exists c', bufctls_free n w c sp = Ok (fold_left env_bufctl_free fl w, c') /\
    cfg c' = cfg c /\ ring c' = ring c /\ cache_freelist c' = cache_freelist c /\
    cache_hash_table c' = cache_hash_table c /\ cache_hash_mask c' = cache_hash_mask c /\
    mem c' = mem c /\ cache_color c' = cache_color c /\
    (forall x, x <> sp -> slabs c' !! x = slabs c !! x) /\
    (forall x, x ∉ fl -> bufctls c' !! x = bufctls c !! x).
Proof.
  revert n w c s. induction fl as [|b fl IH]; intros n w c s Hs Hch Hnd Hn.
  - simpl in Hch. exists c. destruct n; simpl; rewrite Hs, Hch; simpl; split_and!; done.
  - destruct n as [|n]; simpl in Hn; [lia|]. simpl in Hch. destruct Hch as (Hh & Hb0 & Hch).
    apply NoDup_cons in Hnd as [Hnb Hnd].
    simpl. rewrite Hs, Hh, (proj2 (Z.eqb_neq b 0) Hb0).
    set (c1 := set_bufctls _ _).
    destruct (IH n (env_bufctl_free w b) c1 (set_head (link_of c b) s)) as (c' & Hrun & E); try done; [|lia|].
    { unfold c1, upd_slab. simpl. rewrite lookup_alter_eq, Hs. done. }
    exists c'. split; [done|]. destruct E as (? & ? & ? & ? & ? & ? & ? & Es & Eb).
    split_and!; try done.
    + intros x Hx. rewrite Es by done. unfold c1, upd_slab. simpl. by rewrite lookup_alter_ne.
    + intros x Hx. rewrite Eb by set_solver. unfold c1. simpl. rewrite lookup_delete_ne; set_solver.
Qed.

(** The world after the memory of the slab is back in the arena. *)
Definition destroyed_world (w : W) (f : slab_cfg) (sp : Z) (s : umem_slab) (fl : list Z) : W :=
  let w := if has (cache_flags f) UMF_HASH
           then env_slab_free (fold_left env_bufctl_free fl w) sp else w in
  env_vmem_free w (slab_start f s) (cache_slabsize f).

Lemma slab_destroy_run q w c F L sp s fl :
  cache_inv q c F L -> F !! sp = None -> sp <> cache_nullslab (cfg c) ->
  slabs c !! sp = Some s -> slab_ok c sp s fl ->
  (hashed c = true -> forall x, x ∈ fl -> ~ live F L x) ->
  exists c', umem_slab_destroy w c sp = Ok (destroyed_world w (cfg c) sp s fl, c') /\
    cache_inv q c' F L /\ cfg c' = cfg c /\ ring c' = ring c /\ cache_freelist c' = cache_freelist c /\
    slabs c' !! sp = None /\ mem c' = mem c /\
    (forall x, x <> sp -> slabs c' !! x = slabs c !! x) /\
    (forall x, x ∉ fl -> bufctls c' !! x = bufctls c !! x).
Proof.
  intros I HF Hn Hs Hok Hlv. unfold umem_slab_destroy, destroyed_world. rewrite Hs.
  pose proof (ci_geom _ _ _ _ I) as G. pose proof (so_geom _ _ _ _ Hok) as Hg.
  assert (Est : P2ALIGN (slab_base s) (cache_quantum (cfg c)) = slab_start (cfg c) s).
  { unfold slab_start. rewrite (geom_quantum _ _ G). pose proof (geom_q _ _ G).
    pose proof (base_pos G sp s Hg). pose proof (slab_start_le G s ltac:(lia)).
    pose proof (sg_fit _ _ _ Hg). pose proof (sg_end _ _ _ Hg). pose proof (sg_chunks _ _ _ Hg).
    pose proof (geom_chunk _ _ G). apply P2ALIGN_spec; [lia|]. unfold is_word. nia. }
  rewrite Est. fold (hashed c).
  assert (Hne : forall x, is_Some (F !! x) \/ x = cache_nullslab (cfg c) -> x <> sp).
  { intros x [[y Hy]| ->]; congruence. }
  destruct (hashed c) eqn:Hh; simpl.
  - destruct (bufctls_free_run (Z.to_nat (slab_chunks s)) w c sp s fl) as
      (c1 & Hrun & E1 & E2 & E3 & E4 & E5 & E6 & E7 & E8 & E9); try done.
    { apply (so_chain _ _ _ _ Hok). } { apply (so_nodup _ _ _ _ Hok). }
    { pose proof (so_refcnt _ _ _ _ Hok). pose proof (so_nneg _ _ _ _ Hok). lia. }
    rewrite Hrun. simpl. eexists. rewrite E1. split; [done|]. split_and!; try done.
    + apply (cache_inv_detached q c); try done.
      * intros x Hx. simpl. rewrite lookup_delete_ne by (symmetry; auto). apply E8; auto.
      * intros x Hx. simpl. apply E9. intros Hin. by apply (Hlv eq_refl x).
    + simpl. apply lookup_delete_eq.
    + intros x Hx. simpl. rewrite lookup_delete_ne by done. by apply E8.
  - eexists. split; [done|]. split_and!; try done.
    + apply (cache_inv_detached q c); try done.
      intros x Hx. simpl. rewrite lookup_delete_ne by (symmetry; auto). done.
    + simpl. apply lookup_delete_eq.
    + intros x Hx. simpl. by rewrite lookup_delete_ne.
Qed.
End destroy.
