(* ===== verification/SlabFreeOp.v ===== *)
(** * The slab layer: [umem_slab_free]

    Freeing a buffer that is out puts exactly its bufctl at the head of its
    slab's freelist, or destroys the slab that became empty. *)
From S2P Require Import Prelude Machine SlabModel SlabWf SlabInv SlabFree.

(** ** Walking and unlinking a chain *)

Lemma chain_unlink m h l1 p b l2 :
  NoDup (l1 ++ p :: b :: l2) -> chain (ld m) h (l1 ++ p :: b :: l2) ->
  chain (ld (st m p (ld m b))) h (l1 ++ p :: l2).
Proof.
  revert h. induction l1 as [|y l1 IH]; intros h Hnd; simpl.
  - intros (-> & Hp & Hpb & Hb & Hch). split_and!; try done.
    rewrite ld_st, decide_True by done. eapply chain_ext; [|done].
    intros x Hx. rewrite ld_st, decide_False; [done|]. intros ->.
    simpl in Hnd. apply NoDup_cons in Hnd as [Hnd _]. set_solver.
  - intros (-> & Hy & Hch). split_and!; try done. simpl in Hnd. apply NoDup_cons in Hnd as [Hny Hnd].
    rewrite ld_st, decide_False; [by apply IH|]. intros ->. set_solver.
Qed.

Lemma hash_walk_found n c buf prev h d l1 b l2 x :
  chain (ld (mem c)) h (l1 ++ b :: l2) -> (length l1 <= n)%nat ->
  (forall y, y ∈ l1 -> exists z, bufctls c !! y = Some z /\ bc_addr z <> buf) ->
  bufctls c !! b = Some x -> bc_addr x = buf ->
  hash_walk n c buf prev h d = (b, default prev (last l1), d + Z.of_nat (length l1)).
Proof.
  revert n prev h d. induction l1 as [|y l1 IH]; intros n prev h d Hch Hn Hy Hb Hx.
  - destruct Hch as (-> & Hb0 & _). destruct n; simpl;
      rewrite (proj2 (Z.eqb_neq _ _) Hb0), Hb, Hx, Z.eqb_refl; by rewrite Z.add_0_r.
  - destruct n as [|n]; [simpl in Hn; lia|]. destruct Hch as (-> & Hy0 & Hch).
    destruct (Hy y ltac:(set_solver)) as (z & Hz & Hza). simpl hash_walk.
    rewrite (proj2 (Z.eqb_neq _ _) Hy0), Hz, (proj2 (Z.eqb_neq _ _) Hza).
    rewrite IH; [|done|simpl in Hn; lia|set_solver..].
    f_equal; [|simpl; lia]. f_equal. destruct l1 as [|y' l1]; [done|].
    rewrite last_cons_cons. destruct (last (y' :: l1)) eqn:E; [done|].
    by apply last_None in E.
Qed.

(** Distinct keys of a map are at most as many as its entries. *)
Lemma keys_size {A} (m : gmap Z A) l :
  NoDup l -> (forall x, x ∈ l -> is_Some (m !! x)) -> (length l <= size m)%nat.
Proof.
  intros Hnd Hl. assert (l ⊆+ (map_to_list m).*1) as Hsub.
  { apply NoDup_submseteq; [done|]. intros x Hx. destruct (Hl x Hx) as [a Ha].
    apply list_elem_of_fmap. exists (x, a). split; [done|]. by apply elem_of_map_to_list. }
  apply submseteq_length in Hsub. by rewrite length_fmap, length_map_to_list in Hsub.
Qed.

(** ** A buffer that is out *)

(** [b] is the bufctl of the buffer [buf] of slab [sp], and [buf] is not free. *)
Definition is_out (c : cache) (F : gmap Z (list Z)) (L : list (list Z))
    (sp : Z) (s : umem_slab) (fl : list Z) (b buf : Z) : Prop :=
  F !! sp = Some fl /\ slabs c !! sp = Some s /\ bufctl_for c sp s b buf /\
  (if hashed c then exists l, L !! UMEM_HASH c buf = Some l /\ b ∈ l
   else forall x, x ∈ fl -> buf_of c x <> buf).

(** The table without the bufctl of [buf]. *)
Definition untabled (c : cache) (L : list (list Z)) (b buf : Z) : list (list Z) :=
  if hashed c then alter (unlink b) (UMEM_HASH c buf) L else L.

(** Changing the table to hold fewer bufctls, in chains of their own. *)
Lemma cache_inv_table q c c' F L L' :
  cache_inv q c F L -> hashed c = true ->
  cfg c' = cfg c -> ring c' = ring c -> cache_freelist c' = cache_freelist c ->
  slabs c' = slabs c -> bufctls c' = bufctls c -> cache_hash_mask c' = cache_hash_mask c ->
  cache_color c' = cache_color c ->
  (forall sp fl x, F !! sp = Some fl -> x ∈ fl -> ld (mem c') x = ld (mem c) x) ->
  Forall2 (chain (ld (mem c'))) (cache_hash_table c') L' -> length L' = length L ->
  (forall h l, L' !! h = Some l -> NoDup l /\ exists l', L !! h = Some l' /\ (forall x, x ∈ l -> x ∈ l')) ->
  cache_inv q c' F L'.
Proof.
  intros [H1 (A & B & [R1 R2 R3 R4 R5 R6 R7 R8]) H3 H4 H5 H6 H7] Hh Ec Er Ef Es Eb Ek Eo Em Ht Hlen Hsub.
  destruct (H6 Hh) as [h1 h2 h3 h4 h5 h6].
  constructor; rewrite ?Ec, ?Es, ?Eo; try done.
  - exists A, B. constructor; rewrite ?Ec, ?Er, ?Ef, ?Es; try done.
  - intros sp fl HF. destruct (H3 sp fl HF) as (s & Hs & Hok). exists s. split; [done|].
    apply (slab_ok_frame c); try done; [by rewrite Eb|]. intros x Hx. by eapply Em.
  - intros _. constructor; rewrite ?Ek, ?Hlen; try done.
    + intros h l Hl. by destruct (Hsub h l Hl).
    + intros h l x Hl Hx. destruct (Hsub h l Hl) as (_ & l' & Hl' & Hs').
      destruct (h4 h l' x Hl' (Hs' x Hx)) as (sp1 & s1 & fl1 & buf1 & HF1 & Hs1 & Hf1 & <-).
      exists sp1, s1, fl1, buf1. rewrite Es. split_and!; try done.
      * eapply bufctl_for_frame; [done| | | |done]; try done. by rewrite Eb.
      * unfold UMEM_HASH. by rewrite Ec, Ek.
    + intros h l x sp fl Hl Hx HF. destruct (Hsub h l Hl) as (_ & l' & Hl' & Hs'). eapply h5; eauto.
    + assert (Hlv : forall x, live F L' x -> live F L x).
      { intros x [?|(h & l & Hl & Hx)]; [by left|]. destruct (Hsub h l Hl) as (_ & l' & Hl' & Hs').
        right. eauto. }
      intros x x' Hx Hx' E. rewrite !(buf_of_ext (c := c) c') in E by done. apply h6; auto.
Qed.

(** A bufctl is in one bucket. *)
Lemma bucket_unique c F L h h' l l' x :
  hash_ok c F L -> hashed c = true -> L !! h = Some l -> x ∈ l -> L !! h' = Some l' -> x ∈ l' -> h = h'.
Proof.
  intros HO Hh Hl Hx Hl' Hx'.
  destruct (ho_alloc _ _ _ HO _ _ _ Hl Hx) as (sp1 & s1 & fl1 & b1 & _ & _ & Hf1 & <-).
  destruct (ho_alloc _ _ _ HO _ _ _ Hl' Hx') as (sp2 & s2 & fl2 & b2 & _ & _ & Hf2 & <-).
  apply buf_of_for in Hf1, Hf2. by rewrite <- Hf1, <- Hf2.
Qed.

Section lookup.
Context {q : Z} {c : cache} {F : gmap Z (list Z)} {L : list (list Z)} (I : cache_inv q c F L).
Context {sp b buf : Z} {s : umem_slab} {fl : list Z} (O : is_out c F L sp s fl b buf).

Lemma out_unused_raw : hashed c = false -> unused c F L buf.
Proof using I O.
  intros Hh. destruct O as (HF & Hs & Hb & Hx). rewrite Hh in Hx. split; [|by rewrite Hh].
  intros sp' fl' x HF' Hin E. destruct (decide (sp' = sp)) as [->|Hne].
  { simplify_eq. by apply (Hx x). }
  pose proof (ci_slab_at _ _ _ _ _ _ _ I HF Hs) as Hok.
  destruct (ci_slab _ _ _ _ I _ _ HF') as (s' & Hs' & Hok').
  pose proof (so_bufctls _ _ _ _ Hok') as Hat. rewrite Forall_forall in Hat.
  destruct (Hat x Hin) as [buf' Hb']. rewrite (buf_of_for _ _ _ _ _ Hb') in E. subst buf'.
  destruct Hb as ((i & Hi & Ei) & _), Hb' as ((j & Hj & Ej) & _).
  pose proof (ci_geom _ _ _ _ I) as G.
  pose proof (ci_apart _ _ _ _ I sp sp' s s' ltac:(done) ltac:(eauto) ltac:(eauto) Hs Hs') as Hd.
  pose proof (chunks_apart G sp sp' s s' i j (so_geom _ _ _ _ Hok) (so_geom _ _ _ _ Hok') Hd Hi Hj).
  pose proof (geom_chunk _ _ G). lia.
Qed.

(** The state after a hashed bufctl left its chain. *)
Lemma lookup_hashed :
  hashed c = true ->
  exists c0, slab_lookup c buf = (c0, b, sp) /\ cache_inv q c0 F (untabled c L b buf) /\
    unused c0 F (untabled c L b buf) buf /\ cfg c0 = cfg c /\ ring c0 = ring c /\
    cache_freelist c0 = cache_freelist c /\ slabs c0 = slabs c /\ bufctls c0 = bufctls c.
Proof using I O.
  intros Hh. destruct O as (HF & Hs & Hb & Hx). rewrite Hh in Hx. destruct Hx as (l & Hl & Hbl).
  pose proof (ci_hash _ _ _ _ I Hh) as HO.
  set (h := UMEM_HASH c buf) in *.
  destruct (Forall2_lookup_r _ _ _ _ _ (ho_chain _ _ _ HO) Hl) as (hd0 & Hhd & Hch).
  pose proof (ho_nodup _ _ _ HO _ _ Hl) as Hnd.
  apply list_elem_of_split in Hbl as (l1 & l2 & ->).
  assert (Hnb : b ∉ l1) by (apply NoDup_app in Hnd as (_ & Hnd & _); set_solver).
  assert (Hbb : bufctls c !! b = Some (Bufctl buf sp))
    by (destruct Hb as (_ & _ & _ & _ & Hb); by rewrite Hh in Hb).
  assert (Hent : forall y, y ∈ l1 ++ b :: l2 -> exists z, bufctls c !! y = Some z /\ bc_addr z = buf_of c y /\ y <> 0).
  { intros y Hy. destruct (ho_alloc _ _ _ HO _ _ _ Hl Hy) as (sp1 & s1 & fl1 & buf1 & _ & _ & Hf1 & _).
    pose proof (buf_of_for _ _ _ _ _ Hf1) as E. destruct Hf1 as (_ & H0 & _ & _ & Hf1). rewrite Hh in Hf1.
    eexists. split; [exact Hf1|]. simpl. by rewrite E. }
  assert (Hinj : forall y, live F L y -> buf_of c y = buf -> y = b).
  { intros y Hy E. apply (ho_inj _ _ _ HO); [done|right; exists h, (l1 ++ b :: l2); split; [done|set_solver]|].
    rewrite E. symmetry. by eapply buf_of_for. }
  assert (Hwalk : hash_walk (size (bufctls c)) c buf 0 hd0 0 = (b, default 0 (last l1), 0 + Z.of_nat (length l1))).
  { eapply hash_walk_found; [done| | |exact Hbb|done].
    - transitivity (length (l1 ++ b :: l2)); [rewrite length_app; lia|]. apply keys_size; [done|].
      intros x Hx. destruct (Hent x Hx) as (z & Hz & _). eauto.
    - intros y Hy. destruct (Hent y ltac:(set_solver)) as (z & Hz & Ez & _). exists z. split; [done|].
      rewrite Ez. intros E. apply Hnb. rewrite <- (Hinj y); [done| |done].
      right. exists h, (l1 ++ b :: l2). split; [done|set_solver]. }
  unfold slab_lookup. rewrite Hh. fold h. rewrite (nth_lookup_Some _ _ _ _ Hhd), Hwalk.
  assert (Hb0 : b <> 0) by (destruct Hb as (_ & ? & _); done).
  rewrite (proj2 (Z.eqb_neq _ _) Hb0).
  set (c1 := set_stats _ c).
  set (c0 := if default 0 (last l1) =? 0 then _ else _).
  exists c0. split; [replace (bufctls c0) with (bufctls c) by (unfold c0; by destruct (_ =? _)); by rewrite Hbb|].
  assert (E : cfg c0 = cfg c /\ ring c0 = ring c /\ cache_freelist c0 = cache_freelist c /\
              slabs c0 = slabs c /\ bufctls c0 = bufctls c /\ cache_hash_mask c0 = cache_hash_mask c /\
              cache_color c0 = cache_color c)
    by (unfold c0; by destruct (_ =? _)).
  destruct E as (Ec & Er & Ef & Es & Eb & Ek & Eo).
  set (L0 := untabled c L b buf).
  assert (EL0 : L0 = <[h := l1 ++ l2]> L).
  { unfold L0, untabled. rewrite Hh. fold h. apply list_eq. intros i.
    destruct (decide (i = h)) as [->|Hne].
    - rewrite list_lookup_alter_eq, Hl, list_lookup_insert_eq by (by eapply lookup_lt_Some).
      simpl. by rewrite unlink_app.
    - by rewrite list_lookup_alter_ne, list_lookup_insert_ne. }
  assert (Hlt : (h < length L)%nat) by (by eapply lookup_lt_Some).
  assert (HndL : NoDup (l1 ++ l2)).
  { apply NoDup_app in Hnd as (N1 & N2 & N3). apply NoDup_cons in N3 as [_ N3].
    apply NoDup_app. split_and!; [done| |done]. intros x Hx Hx2. apply (N2 x Hx). set_solver. }
  assert (Hchain : Forall2 (chain (ld (mem c0))) (cache_hash_table c0) L0 /\
            forall sp fl x, F !! sp = Some fl -> x ∈ fl -> ld (mem c0) x = ld (mem c) x).
  { rewrite EL0. destruct (last l1) as [p|] eqn:Elast.
    - apply last_Some in Elast as [l1' ->].
      assert (Hp0 : p <> 0) by (destruct (Hent p ltac:(set_solver)) as (_ & _ & _ & ?); done).
      assert (Ep : p ∈ (l1' ++ [p]) ++ b :: l2) by set_solver.
      unfold c0. simpl default. rewrite (proj2 (Z.eqb_neq _ _) Hp0). simpl. split.
      + apply Forall2_same_length_lookup_2.
        { rewrite length_insert. by apply (Forall2_length _ _ _ (ho_chain _ _ _ HO)). }
        intros i x y Hxi Hyi. apply list_lookup_insert_Some in Hyi as [(<- & <- & _)|(Hne & Hyi)].
        * simplify_eq. rewrite <- app_assoc in Hch, Hnd |- *. simpl in *. by apply chain_unlink.
        * eapply chain_ext; [|by eapply (Forall2_lookup_lr _ _ _ _ _ _ (ho_chain _ _ _ HO))].
          intros z Hz. rewrite ld_st, decide_False; [done|]. intros ->. apply Hne.
          by eapply (bucket_unique c F L).
      + intros sp' fl' x HF' Hx. rewrite ld_st, decide_False; [done|]. intros ->.
        by apply (ho_out _ _ _ HO _ _ _ _ _ Hl Ep HF').
    - apply last_None in Elast as ->. simpl in Hch. destruct Hch as (_ & _ & Hch).
      unfold c0. simpl. split; [|done]. apply Forall2_insert; [apply (ho_chain _ _ _ HO)|done]. }
  destruct Hchain as [Hchain Hmem].
  split; [|split; [|done]].
  - apply (cache_inv_table q c c0 F L L0); try done.
    + rewrite EL0. apply length_insert.
    + intros h' l' Hl'. rewrite EL0 in Hl'. apply list_lookup_insert_Some in Hl' as [(<- & <- & _)|(_ & Hl')].
      * split; [done|]. exists (l1 ++ b :: l2). split; [done|]. intros x Hx. set_solver.
      * split; [by eapply (ho_nodup _ _ _ HO)|eauto].
  - split.
    + intros sp' fl' x HF' Hx E. rewrite (buf_of_ext (c := c) c0) in E by done.
      assert (x = b) as -> by (apply Hinj; [left; eauto|done]).
      apply (ho_out _ _ _ HO h (l1 ++ b :: l2) b sp' fl'); [done|set_solver|done|done].
    + intros _ h' l' x Hl' Hx E. rewrite (buf_of_ext (c := c) c0) in E by done.
      rewrite EL0 in Hl'. apply list_lookup_insert_Some in Hl' as [(<- & <- & _)|(Hne & Hl')].
      * assert (x = b) as -> by (apply Hinj; [right; exists h, (l1 ++ b :: l2); split; [done|set_solver]|done]).
        apply NoDup_app in Hnd as (N1 & N2 & N3). apply NoDup_cons in N3 as [N3 _]. set_solver.
      * assert (x = b) as -> by (apply Hinj; [right; eauto|done]).
        destruct (ho_alloc _ _ _ HO _ _ _ Hl' Hx) as (sp1 & s1 & fl1 & buf1 & _ & _ & Hf1 & Eh).
        apply buf_of_for in Hf1. rewrite Hf1 in E. subst buf1. by apply Hne.
Qed.
End lookup.

(** ** Freeing *)

Section free.
Context {W : Type} {env : slab_env W}.
Context {q : Z} {c : cache} {F : gmap Z (list Z)} {L : list (list Z)} (I : cache_inv q c F L).
Context {sp b buf : Z} {s : umem_slab} {fl : list Z} (O : is_out c F L sp s fl b buf).

Let L0 := untabled c L b buf.

(** Lookup leaves a cache in which the buffer is nobody's. *)
Lemma lookup_out :
  exists c0, slab_lookup (set_stats (stat_free (stats c)) c) buf = (c0, b, sp) /\
    cache_inv q c0 F L0 /\ unused c0 F L0 buf /\ cfg c0 = cfg c /\ ring c0 = ring c /\
    cache_freelist c0 = cache_freelist c /\ slabs c0 = slabs c /\ bufctls c0 = bufctls c.
Proof using I O.
  pose proof (cache_inv_stats _ _ _ _ (stat_free (stats c)) I) as I'.
  destruct (hashed c) eqn:Hh; [by apply (lookup_hashed I' O)|].
  eexists. unfold slab_lookup. replace (hashed _) with false. simpl.
  destruct O as (HF & Hs & Hb & Hx). pose proof (ci_slab_at _ _ _ _ _ _ _ I HF Hs) as Hok.
  pose proof (ci_geom _ _ _ _ I) as G. pose proof (so_geom _ _ _ _ Hok) as Hg.
  pose proof Hb as (Hc & _ & _ & _ & Eb). rewrite Hh in Eb.
  rewrite (umem_slab_spec G sp s buf Hh Hg Hc), (proj1 (raw_bufctl G sp s buf Hh Hg Hc)), <- Eb.
  split; [done|]. unfold L0, untabled. rewrite Hh. split_and!; try done.
  by apply (out_unused_raw I' O).
Qed.

(** The state before the outcome depends on what is left in the slab. *)
Lemma slab_free_step w :
  exists c0, cache_inv q c0 F L0 /\ unused c0 F L0 buf /\ bufctl_for c0 sp s b buf /\
    slabs c0 !! sp = Some s /\ cfg c0 = cfg c /\ slabs c0 = slabs c /\ bufctls c0 = bufctls c /\
    umem_slab_free w c buf =
      (if slab_refcnt s - 1 =? 0
       then if umem_reclaim_enabled (cfg c)
            then Ok (w, released c0 sp b s SLAB_DIRTY 0)
            else umem_slab_destroy w
                   (slab_retire sp (released c0 sp b s (slab_state s) (slab_idle_time s))) sp
       else Ok (w, released c0 sp b s (slab_state s) (slab_idle_time s))).
Proof using I O.
  destruct lookup_out as (c0 & Hlk & I0 & Hu & Ec & Er & Ef & Es & Eb).
  pose proof O as (HF & Hs & Hb & _). exists c0.
  assert (Hb' : bufctl_for c0 sp s b buf) by (eapply bufctl_for_frame; eauto; by rewrite Eb).
  split_and!; try done; [by rewrite Es|].
  assert (Hn0 : buf <> 0).
  { destruct Hb as ((i & Hi & ->) & _).
    pose proof (chunk_word (ci_geom _ _ _ _ I) sp s i (so_geom _ _ _ _ (ci_slab_at _ _ _ _ _ _ _ I HF Hs)) Hi). lia. }
  unfold umem_slab_free. rewrite (proj2 (Z.eqb_neq _ _) Hn0). cbn [negb ASSERT res_bind]. rewrite Hlk, Es, Hs.
  pose proof (ci_slab_at _ _ _ _ _ _ _ I HF Hs) as Hok. pose proof (so_geom _ _ _ _ Hok) as Hg.
  pose proof Hb as (Hc & Hb0 & _). rewrite (proj2 (Z.eqb_neq _ _) Hb0), Ec, (sg_cache _ _ _ Hg), Z.eqb_refl.
  assert (Hw : is_word buf).
  { destruct Hc as (i & Hi & ->). pose proof (chunk_word (ci_geom _ _ _ _ I) sp s i Hg Hi). unfold is_word. lia. }
  rewrite (proj2 (slab_chunk_spec (ci_geom _ _ _ _ I) sp s buf Hg Hw) Hc). cbn [orb negb].
  assert (Hrc : 1 <= slab_refcnt s) by (by apply (release_refcnt (c := c0) (sp := sp) (b := b) (buf := buf) I0 HF); rewrite ?Es).
  destruct (free_asserts I0 HF ltac:(by rewrite Es)) as [Ha1 Ha2].
  rewrite Ha1, Ha2, (proj2 (Z.leb_le _ _) Hrc). cbn [ASSERT res_bind].
  unfold released. destruct (slab_head s =? 0); cbn -[Z.sub Z.eqb]; rewrite ?Ec, ?Es;
    destruct (slab_refcnt s - 1 =? 0), (umem_reclaim_enabled (cfg c)); done.
Qed.

Lemma slab_free_kept w :
  umem_reclaim_enabled (cfg c) = true \/ slab_refcnt s <> 1 ->
  exists c' s', umem_slab_free w c buf = Ok (w, c') /\
    cache_inv q c' (<[sp := b :: fl]> F) L0 /\ slabs c' !! sp = Some s' /\
    slab_refcnt s' = slab_refcnt s - 1 /\
    slab_state s' = (if slab_refcnt s =? 1 then SLAB_DIRTY else slab_state s).
Proof using I O.
  intros Hkeep. destruct (slab_free_step w) as (c0 & I0 & Hu & Hb & Hs0 & Ec & Es0 & _ & Hrun).
  pose proof O as (HF & Hs & _). pose proof (release_refcnt I0 HF Hs0 Hb Hu) as Hrc.
  pose proof (ci_slab_at _ _ _ _ _ _ _ I0 HF Hs0) as Hok.
  destruct (Z.eqb_spec (slab_refcnt s) 1) as [E1|E1].
  - destruct Hkeep as [Hkeep|]; [|done]. rewrite E1, Hkeep in Hrun. simpl in Hrun.
    pose proof (released_inv I0 HF Hs0 Hb Hu (state := SLAB_DIRTY) (idle := 0) ltac:(done)) as I1.
    eexists _, _. split; [exact Hrun|]. split; [exact I1|].
    destruct (released_fields (c := c0) (sp := sp) (b := b) (s := s) (state := SLAB_DIRTY) (idle := 0))
      as (_ & _ & _ & _ & _ & Es & _). rewrite Es, lookup_insert_eq. split_and!; done.
  - rewrite (proj2 (Z.eqb_neq _ _)) in Hrun by lia.
    assert (Hst : slab_state s <> SLAB_ACTIVE -> slab_refcnt s = 1).
    { intros Hn. pose proof (so_idle _ _ _ _ Hok Hn). lia. }
    pose proof (released_inv I0 HF Hs0 Hb Hu (state := slab_state s) (idle := slab_idle_time s) Hst) as I1.
    eexists _, _. split; [exact Hrun|]. split; [exact I1|].
    destruct (released_fields (c := c0) (sp := sp) (b := b) (s := s) (state := slab_state s)
      (idle := slab_idle_time s)) as (_ & _ & _ & _ & _ & Es & _).
    rewrite Es, lookup_insert_eq. split_and!; done.
Qed.

Lemma slab_free_destroyed w :
  umem_reclaim_enabled (cfg c) = false -> slab_refcnt s = 1 ->
  exists c', umem_slab_free w c buf = Ok (destroyed_world w (cfg c) sp s (b :: fl), c') /\
    cache_inv q c' (delete sp F) L0 /\ slabs c' !! sp = None /\ cfg c' = cfg c /\
    (forall x, x <> sp -> slabs c' !! x = slabs c !! x).
Proof using I O.
  intros Hre H1. destruct (slab_free_step w) as (c0 & I0 & Hu & Hb & Hs0 & Ec & Es0 & _ & Hrun).
  pose proof O as (HF & Hs & _). rewrite H1, Hre in Hrun. simpl in Hrun.
  pose proof (released_inv I0 HF Hs0 Hb Hu (state := slab_state s) (idle := slab_idle_time s)
    ltac:(done)) as I1.
  destruct (released_fields (c := c0) (sp := sp) (b := b) (s := s) (state := slab_state s)
      (idle := slab_idle_time s)) as (Ec1 & _ & _ & _ & _ & Es & _).
  set (c1 := released c0 sp b s (slab_state s) (slab_idle_time s)) in *.
  set (s1 := Slab _ _ _ _ _ _ _) in Es.
  assert (Hs1 : slabs c1 !! sp = Some s1) by (rewrite Es; apply lookup_insert_eq).
  assert (HF1 : <[sp := b :: fl]> F !! sp = Some (b :: fl)) by apply lookup_insert_eq.
  pose proof (ci_slab_at _ _ _ _ _ _ _ I1 HF1 Hs1) as Hok1.
  assert (Hz : slab_refcnt s1 = 0) by (simpl; lia).
  pose proof (retire_inv I1 HF1 Hs1 Hz) as I2. rewrite delete_insert_eq in I2.
  destruct (slab_destroy_run q w (slab_retire sp c1) (delete sp F) L0 sp s1 (b :: fl))
    as (c' & Hd & I3 & Ec' & _ & _ & Hnone & _ & Es' & _); try done.
  - apply lookup_delete_eq.
  - destruct (ci_ring _ _ _ _ I1) as (A & B & R). intros Esp.
    pose proof (ro_nodup _ _ _ _ R) as Hnd. rewrite (ro_ring _ _ _ _ R), app_assoc in Hnd.
    apply NoDup_app in Hnd as (_ & Hnd & _). apply (Hnd sp); [|rewrite Esp; set_solver].
    apply (ro_dom _ _ _ _ R). eauto.
  - by apply (slab_ok_frame c1).
  - intros Hh x Hx [(sp' & fl' & HF' & Hx')|(h & l & Hl & Hxl)].
    + apply lookup_delete_Some in HF' as [Hne HF']. apply Hne.
      eapply (ci_sep _ _ _ _ I1 sp sp'); [exact HF1|by rewrite lookup_insert_ne|exact Hx|exact Hx'].
    + by apply (ho_out _ _ _ (ci_hash _ _ _ _ I1 Hh) _ _ _ _ _ Hl Hxl HF1).
  - exists c'. rewrite Hrun, Hd. split_and!; try done.
    + unfold destroyed_world, slab_start.
      change (cfg (slab_retire sp c1)) with (cfg c1). by rewrite Ec1, Ec.
    + rewrite Ec'. change (cfg (slab_retire sp c1)) with (cfg c1). by rewrite Ec1, Ec.
    + intros x Hx. rewrite Es' by done. change (slabs (slab_retire sp c1)) with (slabs c1).
      by rewrite Es, lookup_insert_ne, Es0.
Qed.
End free.
