(* ===== verification/SlabGrow.v ===== *)
(** * The slab layer: creating a slab

    [umem_slab_create] of a raw cache (links inside the buffers) cuts a block
    of its arena into chunks that fit below the slab header, all of them on
    the new slab's freelist, and the cache stays well formed with it. *)
From S2P Require Import Prelude Machine SlabModel SlabWf SlabInv SlabFree.

(** ** What the pattern writers touch *)

Lemma copy_words_frame n p a m x :
  x < a \/ a + 8 * Z.of_nat n <= x -> ld (copy_words n p a m) x = ld m x.
Proof.
  revert a m. induction n as [|n IH]; intros a m Hx; simpl; [done|].
  rewrite IH by lia. rewrite ld_st, decide_False; [done|lia].
Qed.

Lemma nwords_bound size k : 0 <= size <= k -> (8 | k) -> 8 * Z.of_nat (nwords size) <= k.
Proof.
  intros Hs [j ->]. unfold nwords. rewrite Z2Nat.id by (apply Z.div_pos; lia).
  pose proof (Z.div_mod (size + 7) 8 ltac:(lia)). pose proof (Z.mod_pos_bound (size + 7) 8 ltac:(lia)).
  lia.
Qed.

Lemma copy_pattern_frame p m a size k x :
  0 <= size <= k -> (8 | k) -> x < a \/ a + k <= x -> ld (copy_pattern p m a size) x = ld m x.
Proof.
  intros Hs Hk Hx. apply copy_words_frame. pose proof (nwords_bound size k Hs Hk). lia.
Qed.

Lemma buftag_frame f q m buf bcp x :
  geom f q -> has (cache_flags f) UMF_BUFTAG = true ->
  0 <= buf -> buf + cache_chunksize f < 2 ^ 64 ->
  x < buf \/ buf + cache_chunksize f <= x -> ld (buftag_init f m buf bcp) x = ld m x.
Proof.
  intros G Ht Hb0 Hb Hx. destruct (geom_tag _ _ G Ht) as (H1 & H2 & H3).
  pose proof (geom_chunk8 _ _ G). unfold buftag_init, UMEM_BUFTAG. rewrite wadd_small by lia.
  destruct (has (cache_flags f) UMF_DEADBEEF).
  - rewrite (copy_pattern_frame _ _ _ _ (cache_chunksize f)) by (done || lia).
    rewrite !ld_st, !decide_False by lia. done.
  - rewrite !ld_st, !decide_False by lia. done.
Qed.

(** ** Cutting the chunks *)

(** The freelist of the first [n] chunks: the last one built comes first. *)
Fixpoint fresh_list (f : slab_cfg) (base : Z) (n : nat) : list Z :=
  match n with
  | O => []
  | S n' => (base + Z.of_nat n' * cache_chunksize f + cache_bufctl f) :: fresh_list f base n'
  end.

Lemma fresh_list_elem f base n x :
  x ∈ fresh_list f base n <->
  exists i, 0 <= i < Z.of_nat n /\ x = base + i * cache_chunksize f + cache_bufctl f.
Proof.
  induction n as [|n IH]; simpl.
  - split; [set_solver|]. intros (i & Hi & _). lia.
  - rewrite elem_of_cons, IH. split.
    + intros [->|(i & Hi & ->)]; [exists (Z.of_nat n)|exists i]; split; lia || done.
    + intros (i & Hi & ->). destruct (Z.eq_dec i (Z.of_nat n)) as [->|]; [by left|].
      right. exists i. split; [lia|done].
Qed.

Lemma fresh_list_nodup f q base n : geom f q -> NoDup (fresh_list f base n).
Proof.
  intros G. pose proof (geom_chunk _ _ G). induction n as [|n IH]; simpl; [constructor|].
  apply NoDup_cons. split; [|done]. rewrite fresh_list_elem. intros (i & Hi & E). nia.
Qed.

Lemma fresh_list_length f base n : length (fresh_list f base n) = n.
Proof. induction n; simpl; congruence. Qed.

Section build.
Context {W : Type} {env : slab_env W}.

Lemma slab_build_raw n i w c q sp s base umflag :
  geom (cfg c) q -> hashed c = false -> slabs c !! sp = Some s -> 0 < base ->
  base + (Z.of_nat i + Z.of_nat n) * cache_chunksize (cfg c) < 2 ^ 64 ->
  chain (link_of c) (slab_head s) (fresh_list (cfg c) base i) ->
  exists c', slab_build n w c sp (base + Z.of_nat i * cache_chunksize (cfg c)) umflag = (w, c', true) /\
    cfg c' = cfg c /\ ring c' = ring c /\ cache_freelist c' = cache_freelist c /\
    bufctls c' = bufctls c /\ cache_color c' = cache_color c /\ stats c' = stats c /\
    (exists h, slabs c' = <[sp := set_head h s]> (slabs c) /\
       chain (link_of c') h (fresh_list (cfg c) base (i + n))) /\
    (forall x, x < base + Z.of_nat i * cache_chunksize (cfg c) \/
       base + (Z.of_nat i + Z.of_nat n) * cache_chunksize (cfg c) <= x -> ld (mem c') x = ld (mem c) x).
Proof.
  intros G Hh. pose proof (geom_chunk _ _ G) as Hk. pose proof (geom_bufctl _ _ G) as Hbc.
  revert i c s G Hh Hk Hbc. induction n as [|n IH]; intros i c s G Hh Hk Hbc Hs Hbase Hend Hch.
  - exists c. simpl. split_and!; try done. exists (slab_head s).
    rewrite Nat.add_0_r. split; [|done]. symmetry. apply insert_id. by destruct s.
  - set (buf := base + Z.of_nat i * cache_chunksize (cfg c)) in *.
    set (b := buf + cache_bufctl (cfg c)).
    assert (Eb : UMEM_BUFCTL (cfg c) buf = b) by (unfold UMEM_BUFCTL; rewrite wadd_small; [done|unfold buf; nia]).
    simpl slab_build. unfold chunk_bufctl. rewrite Hh. cbn [andb]. rewrite Hh, Eb. cbn [andb].
    set (c1 := if has (cache_flags (cfg c)) UMF_BUFTAG then _ else c).
    assert (E1 : cfg c1 = cfg c /\ slabs c1 = slabs c /\ ring c1 = ring c /\
      cache_freelist c1 = cache_freelist c /\ bufctls c1 = bufctls c /\ cache_color c1 = cache_color c /\
      stats c1 = stats c)
      by (unfold c1; by destruct (has _ _)).
    destruct E1 as (Ec1 & Es1 & Er1 & Ef1 & Ebc1 & Eo1 & Et1).
    assert (Em1 : forall x, x < buf \/ buf + cache_chunksize (cfg c) <= x -> ld (mem c1) x = ld (mem c) x).
    { intros x Hx. unfold c1. destruct (has (cache_flags (cfg c)) UMF_BUFTAG) eqn:Ht; [|done]. simpl.
      apply (buftag_frame _ q); try done; unfold buf in *; nia. }
    rewrite Es1, Hs.
    set (c2 := upd_slab sp (set_head b) (set_link c1 b (slab_head s))).
    assert (Ec2 : cfg c2 = cfg c) by done.
    assert (Es2 : slabs c2 !! sp = Some (set_head b s)).
    { unfold c2, upd_slab. simpl. by rewrite lookup_alter_eq, Es1, Hs. }
    assert (Em2 : forall x, ld (mem c2) x = if decide (b = x) then UMEM_LINK_MANGLE (cfg c) b (slab_head s)
                                            else ld (mem c1) x).
    { intros x. unfold c2. simpl. rewrite ld_st. by rewrite Ec1. }
    assert (Hch2 : chain (link_of c2) b (fresh_list (cfg c) base (S i))).
    { simpl. split_and!; [by unfold b, buf|unfold buf; nia|]. fold buf. fold b.
      unfold link_of at 2. rewrite Em2, decide_True, Ec2, mangle_mangle by done.
      eapply chain_ext; [|done]. intros x Hx. apply fresh_list_elem in Hx as (j & Hj & ->).
      unfold link_of. rewrite Em2, decide_False, Em1, Ec2 by (unfold b, buf; nia). done. }
    replace (wadd buf (cache_chunksize (cfg c1))) with (base + Z.of_nat (S i) * cache_chunksize (cfg c2)).
    2:{ rewrite Ec1, Ec2, wadd_small by (unfold buf; nia). unfold buf. lia. }
    destruct (IH (S i) c2 (set_head b s)) as (c' & Hrun & Ec & Er & Ef & Ebc & Eo & Et & (h & Esl & Hc) & Em);
      rewrite ?Ec2; try done.
    { unfold hashed in *. by rewrite Ec2. }
    { by replace (Z.of_nat (S i) + Z.of_nat n) with (Z.of_nat i + Z.of_nat (S n)) by lia. }
    rewrite Ec2 in *. exists c'. split; [done|]. split_and!; [done|exact (eq_trans Er Er1)|exact (eq_trans Ef Ef1)|exact (eq_trans Ebc Ebc1)
      |exact (eq_trans Eo Eo1)|exact (eq_trans Et Et1)| |].
    + exists h. split; [|by rewrite Nat.add_succ_r]. rewrite Esl. unfold c2, upd_slab. simpl.
      rewrite Es1. apply map_eq. intros x. destruct (decide (x = sp)) as [->|Hne].
      * by rewrite !lookup_insert_eq.
      * by rewrite !lookup_insert_ne, lookup_alter_ne.
    + intros x Hx. rewrite !Nat2Z.inj_succ in *.
      rewrite Em by (destruct Hx; [left|right]; unfold buf in *; nia).
      rewrite Em2, decide_False by (destruct Hx; unfold b, buf in *; nia).
      apply Em1. destruct Hx; [left|right]; unfold buf in *; nia.
Qed.
End build.

(** ** A new slab *)

(** What the arena promises of a block it hands out. *)
Record fresh_block (c : cache) (F : gmap Z (list Z)) (a : Z) : Prop := FreshBlock {
  fb_align : (cache_quantum (cfg c) | a);
  fb_pos : 0 < a;
  fb_end : a + cache_slabsize (cfg c) < 2 ^ 64;
  fb_apart : forall sp s, is_Some (F !! sp) -> slabs c !! sp = Some s ->
    a + cache_slabsize (cfg c) <= slab_start (cfg c) s \/
    slab_start (cfg c) s + cache_slabsize (cfg c) <= a;
  fb_null : ~ a <= cache_nullslab (cfg c) < a + cache_slabsize (cfg c);
}.

(** The colour of the next slab. *)
Definition next_color (c : cache) : Z :=
  if cache_maxcolor (cfg c) <? cache_color c + cache_align (cfg c)
  then cache_mincolor (cfg c) else cache_color c + cache_align (cfg c).

Definition new_chunks (c : cache) : Z :=
  (cache_slabsize (cfg c) - sizeof_slab - next_color c) / cache_chunksize (cfg c).

Definition new_slab (c : cache) (a : Z) : umem_slab :=
  Slab (cache_self (cfg c)) (a + next_color c) 0 0 (new_chunks c) SLAB_ACTIVE 0.

Section grow.
Context {W : Type} {env : slab_env W}.
Context {q : Z} {c : cache} {F : gmap Z (list Z)} {L : list (list Z)} (I : cache_inv q c F L).
Hypothesis Hraw : hashed c = false.
Context {a : Z} (B : fresh_block c F a).

#[local] Abbreviation f := (cfg c).
#[local] Abbreviation sp := (a + cache_slabsize f - sizeof_slab).

Lemma raw_slabsize : cache_slabsize f = 2 ^ q /\ 0 < 2 ^ q.
Proof using I Hraw. split; [by apply (geom_raw _ _ (ci_geom _ _ _ _ I))|apply (slab_quantum_pos (ci_geom _ _ _ _ I))]. Qed.

Lemma next_color_ok : 0 <= next_color c <= cache_maxcolor f /\ (8 | next_color c).
Proof using I.
  pose proof (ci_geom _ _ _ _ I) as G. pose proof (ci_color _ _ _ _ I) as [H1 H2].
  pose proof (geom_color _ _ G) as (H3 & _ & H4). pose proof (geom_align _ _ G) as [H5 H6].
  unfold next_color. destruct (Z.ltb_spec (cache_maxcolor f) (cache_color c + cache_align f)).
  - split; [lia|done].
  - split; [lia|]. by apply Z.divide_add_r.
Qed.

Lemma new_chunks_pos :
  0 < new_chunks c /\ a + next_color c + new_chunks c * cache_chunksize f <= sp.
Proof using I Hraw.
  pose proof (ci_geom _ _ _ _ I) as G. pose proof next_color_ok as [H1 _].
  pose proof (geom_room _ _ G) as H2. unfold hashed in Hraw. rewrite Hraw in H2.
  pose proof (geom_chunk _ _ G) as H3. unfold new_chunks.
  pose proof (Z.div_mod (cache_slabsize f - sizeof_slab - next_color c) (cache_chunksize f) ltac:(lia)).
  pose proof (Z.mod_pos_bound (cache_slabsize f - sizeof_slab - next_color c) (cache_chunksize f) ltac:(lia)).
  split; [|nia]. apply Z.div_str_pos. lia.
Qed.

Lemma new_start : slab_start f (new_slab c a) = a.
Proof using I B.
  pose proof (ci_geom _ _ _ _ I) as G. pose proof next_color_ok as [H1 _].
  pose proof (geom_color _ _ G) as (_ & H2 & _). destruct (fb_align _ _ _ B) as [k Hk].
  unfold slab_start, new_slab. simpl. rewrite (geom_quantum _ _ G) in *.
  pose proof (slab_quantum_pos G). rewrite Hk.
  rewrite (Z.add_comm (k * 2 ^ q)), Z.div_add, Z.div_small by lia. lia.
Qed.

Lemma new_geom h : slab_geom f sp (set_head h (new_slab c a)).
Proof using I Hraw B.
  pose proof (ci_geom _ _ _ _ I) as G. pose proof next_color_ok as [H1 H1'].
  pose proof new_chunks_pos as [H2 H3]. pose proof (fb_pos _ _ _ B). pose proof (fb_end _ _ _ B).
  assert (Est : slab_start f (set_head h (new_slab c a)) = a) by apply new_start.
  constructor; rewrite ?Est; try done; simpl.
  - apply Z.divide_add_r; [|done]. eapply Z.divide_trans; [|apply (fb_align _ _ _ B)].
    rewrite (geom_quantum _ _ G). pose proof (geom_q _ _ G). exists (2 ^ (q - 3)).
    change 8 with (2 ^ 3). rewrite <- Z.pow_add_r by lia. f_equal. lia.
  - unfold sizeof_slab in *. lia.
Qed.

Lemma sp_fresh : F !! sp = None /\ sp <> 0 /\ sp <> cache_nullslab f.
Proof using I Hraw B.
  pose proof new_chunks_pos as [H2 H3]. pose proof next_color_ok as [H1 _].
  pose proof (fb_pos _ _ _ B). pose proof (geom_chunk _ _ (ci_geom _ _ _ _ I)).
  assert (a < sp) by nia. split_and!; [|lia|].
  - destruct (F !! sp) as [fl|] eqn:HF; [|done]. exfalso.
    destruct (ci_slab _ _ _ _ I _ _ HF) as (s & Hs & Hok).
    destruct (sg_raw _ _ _ (so_geom _ _ _ _ Hok) Hraw) as [E _].
    pose proof raw_slabsize. destruct (fb_apart _ _ _ B sp s ltac:(eauto) Hs); lia.
  - intros E. apply (fb_null _ _ _ B). rewrite <- E. unfold sizeof_slab in *. lia.
Qed.

(** The bufctls of the other slabs are outside the new block. *)
Lemma other_bufctls sp' fl' x :
  F !! sp' = Some fl' -> x ∈ fl' -> x < a \/ a + cache_slabsize f <= x.
Proof using I Hraw B.
  intros HF Hx. destruct (ci_slab _ _ _ _ I _ _ HF) as (s & Hs & Hok).
  pose proof (so_bufctls _ _ _ _ Hok) as Hat. rewrite Forall_forall in Hat.
  destruct (Hat x Hx) as (buf & (i & Hi & ->) & _ & _ & _ & Hb). rewrite Hraw in Hb.
  pose proof (ci_geom _ _ _ _ I) as G. pose proof (so_geom _ _ _ _ Hok) as Hg.
  pose proof (chunk_bounds G sp' s i Hg Hi). pose proof (base_pos G sp' s Hg).
  pose proof (slab_start_le G s ltac:(lia)). pose proof (geom_bufctl _ _ G).
  destruct (fb_apart _ _ _ B sp' s ltac:(eauto) Hs); lia.
Qed.

#[local] Abbreviation fl0 := (fresh_list f (a + next_color c) (Z.to_nat (new_chunks c))).

Lemma slab_create_raw w w' umflag :
  env_vmem_alloc w (cache_slabsize f) = (w', a) ->
  exists c1 h, umem_slab_create w c umflag = Ok (w', c1, sp) /\
    cfg c1 = f /\ ring c1 = ring c /\ cache_freelist c1 = cache_freelist c /\
    cache_color c1 = next_color c /\
    slabs c1 = <[sp := set_head h (new_slab c a)]> (slabs c) /\ chain (link_of c1) h fl0 /\
    bufctls c1 = bufctls c /\
    (forall x, x < a \/ a + cache_slabsize f <= x -> ld (mem c1) x = ld (mem c) x).
Proof using I Hraw B.
  intros Hal. pose proof (ci_geom _ _ _ _ I) as G. pose proof next_color_ok as [Hc1 Hc2].
  pose proof new_chunks_pos as [Hn1 Hn2]. pose proof sp_fresh as (Hsp1 & Hsp2 & Hsp3).
  pose proof (fb_pos _ _ _ B) as Ha. pose proof (fb_end _ _ _ B) as He.
  pose proof (geom_chunk _ _ G). pose proof (geom_align _ _ G) as [Hal1 _].
  pose proof (geom_color _ _ G) as (_ & Hmc & _). pose proof (ci_color _ _ _ _ I) as [Hco _].
  pose proof (geom_q _ _ G). assert (2 ^ q <= 2 ^ 63) by (apply Z.pow_le_mono_r; lia).
  pose proof (geom_room _ _ G) as Hroom. unfold hashed in Hraw. rewrite Hraw in Hroom.
  unfold umem_slab_create. cbn zeta. rewrite Hal.
  rewrite (wadd_small (cache_color c)) by lia.
  change (if cache_maxcolor f <? cache_color c + cache_align f then cache_mincolor f
          else cache_color c + cache_align f) with (next_color c).
  rewrite (proj2 (Z.eqb_neq a 0)) by lia.
  assert (Hph : (P2PHASE a (cache_quantum f) =? 0) = true).
  { rewrite (geom_quantum _ _ G), P2PHASE_spec by lia. apply Z.eqb_eq, Z.mod_divide; [lia|].
    rewrite <- (geom_quantum _ _ G). apply (fb_align _ _ _ B). }
  rewrite Hph. cbn [ASSERT res_bind].
  set (c0 := if negb _ && _ then _ else _).
  assert (E0 : cfg c0 = f /\ ring c0 = ring c /\ cache_freelist c0 = cache_freelist c /\
    slabs c0 = slabs c /\ bufctls c0 = bufctls c /\ cache_color c0 = next_color c)
    by (unfold c0; by destruct (negb _ && _)).
  destruct E0 as (Ec0 & Er0 & Ef0 & Es0 & Eb0 & Eo0).
  assert (Em0 : forall x, x < a \/ a + cache_slabsize f <= x -> ld (mem c0) x = ld (mem c) x).
  { intros x Hx. unfold c0. destruct (negb _ && _); [|done]. simpl.
    apply (copy_pattern_frame _ _ _ _ (cache_slabsize f)); [unfold sizeof_slab in *; lia| |lia].
    eapply Z.divide_trans; [|apply (geom_slabq _ _ G)]. exists (2 ^ (q - 3)).
    change 8 with (2 ^ 3). rewrite <- Z.pow_add_r by lia. f_equal. lia. }
  assert (Hh0 : hashed c0 = false) by (unfold hashed; by rewrite Ec0).
  rewrite Hh0. pose proof raw_slabsize as [Hss Hqp].
  assert (Esp : UMEM_SLAB f a = sp).
  { unfold UMEM_SLAB. rewrite Hss, P2END_spec by lia. destruct (fb_align _ _ _ B) as [k Hk].
    rewrite (geom_quantum _ _ G) in Hk. rewrite Hk at 1. rewrite Z.div_mul by lia.
    replace ((k + 1) * 2 ^ q) with (a + 2 ^ q) by lia.
    rewrite w64_small by (unfold is_word; lia). apply wsub_small. unfold sizeof_slab in *. lia. }
  rewrite Esp, (proj2 (Z.eqb_neq _ _) Hsp2).
  rewrite (wsub_small (cache_slabsize f)) by (unfold sizeof_slab in *; lia).
  rewrite (wsub_small (cache_slabsize f - sizeof_slab)) by (unfold sizeof_slab in *; lia).
  fold (new_chunks c). rewrite (wadd_small a) by (unfold sizeof_slab in *; lia).
  rewrite (proj2 (Z.ltb_lt 0 (new_chunks c))) by lia. cbn [ASSERT res_bind].
  set (c1 := set_slabs _ c0).
  destruct (slab_build_raw (Z.to_nat (new_chunks c)) 0 w' c1 q sp (new_slab c a) (a + next_color c) umflag)
    as (c' & Hrun & Ec & Er & Ef & Ebc & Eo & Et & (h & Es & Hch) & Em); try done.
  { change (cfg c1) with (cfg c0). by rewrite Ec0. }
  { unfold c1. simpl. rewrite Es0. by rewrite lookup_insert_eq. }
  { lia. } { change (cfg c1) with (cfg c0). rewrite Ec0, Z2Nat.id by lia. simpl. unfold sizeof_slab in *. lia. }
  change (cfg c1) with (cfg c0) in *. rewrite Ec0 in *. simpl in Hrun. rewrite Z.add_0_r in Hrun.
  rewrite Hrun. exists c', h.
  split_and!; [done|done|exact (eq_trans Er Er0)|exact (eq_trans Ef Ef0)|exact (eq_trans Eo Eo0)
    | |done|exact (eq_trans Ebc Eb0)|].
  - rewrite Es. unfold c1. simpl. rewrite Es0. apply insert_insert_eq.
  - intros x Hx. rewrite Em by (rewrite Z2Nat.id by lia; unfold sizeof_slab in *; simpl; lia). unfold c1. simpl. by apply Em0.
Qed.

(** The new slab enters the cache at the head of its freelist. *)
Lemma pushed_inv c1 h t A B0 :
  cfg c1 = f -> ring c1 = ring c -> cache_freelist c1 = cache_freelist c ->
  cache_color c1 = next_color c ->
  slabs c1 = <[sp := set_head h (new_slab c a)]> (slabs c) -> chain (link_of c1) h fl0 ->
  bufctls c1 = bufctls c ->
  (forall x, x < a \/ a + cache_slabsize f <= x -> ld (mem c1) x = ld (mem c) x) ->
  ring_ok c F A B0 ->
  let c2 := freelist_push sp (set_stats t c1) in
  cache_inv q c2 (<[sp := fl0]> F) L /\ ring_ok c2 (<[sp := fl0]> F) A (sp :: B0).
Proof using I Hraw B.
  intros Ec Er Ef Eo Es Hch Eb Em R c2.
  pose proof (ci_geom _ _ _ _ I) as G. pose proof sp_fresh as (Hsp1 & Hsp2 & Hsp3).
  pose proof new_chunks_pos as [Hn1 Hn2]. pose proof (new_geom h) as Hg.
  assert (Hlen : Z.of_nat (length fl0) = new_chunks c) by (rewrite fresh_list_length; lia).
  assert (Hother : forall x, is_Some (F !! x) \/ x = cache_nullslab f -> x <> sp).
  { intros x [[? Hx]| ->]; [congruence|done]. }
  assert (Hr : ring_ok c2 (<[sp := fl0]> F) A (sp :: B0)).
  { destruct R as [R1 R2 R3 R4 R5 R6 R7 R8]. set (n := cache_nullslab f) in *.
    assert (Hnin : sp ∉ ring c).
    { rewrite R1. intros Hin. rewrite app_assoc in Hin. apply elem_of_app in Hin as [Hin|Hin].
      - apply R4 in Hin. rewrite Hsp1 in Hin. by destruct Hin.
      - set_solver. }
    assert (Er2 : ring c2 = A ++ (sp :: B0) ++ [n]).
    { unfold c2, freelist_push. simpl. rewrite Er, Ef, R3, R1. rewrite R1 in R2.
      destruct B0 as [|y B0]; simpl; apply insert_before_app;
        apply NoDup_app in R2 as (_ & R2 & _); intros Hx; apply (R2 _ Hx); set_solver. }
    constructor; change (cfg c2) with (cfg c1); change (slabs c2) with (slabs c1); rewrite ?Ec, ?Es;
      fold n; try done.
    - rewrite Er2. rewrite R1 in R2, Hnin.
      assert (HP : A ++ (sp :: B0) ++ [n] ≡ₚ (sp :: A ++ B0 ++ [n])) by solve_Permutation.
      rewrite HP. by apply NoDup_cons.
    - intros x. rewrite lookup_insert_is_Some. rewrite elem_of_app, elem_of_cons.
      specialize (R4 x). rewrite elem_of_app in R4.
      destruct (decide (sp = x)) as [->|]; naive_solver.
    - intros x sx flx Hx Hsx Hfx. assert (x <> sp).
      { apply Hother. left. apply R4. set_solver. }
      rewrite lookup_insert_ne in Hsx by done. rewrite lookup_insert_ne in Hfx by done. by eapply R5.
    - intros x Hx E. apply elem_of_cons in Hx as [->|Hx].
      + rewrite lookup_insert_eq in E. injection E as E. rewrite E in Hlen. simpl in Hlen. lia.
      + rewrite lookup_insert_ne in E; [by apply (R6 x)|]. apply not_eq_sym, Hother. left. apply R4. set_solver.
    - rewrite lookup_insert_ne by done. done.
    - rewrite Er2. rewrite R1 in R8. set_solver. }
  split; [|done]. constructor.
  - change (cfg c2) with (cfg c1). by rewrite Ec.
  - eauto.
  - intros sp' fl' HF'. change (slabs c2) with (slabs c1). rewrite Es.
    destruct (decide (sp' = sp)) as [->|Hne].
    + rewrite lookup_insert_eq in HF'. injection HF' as <-. rewrite lookup_insert_eq.
      eexists. split; [done|]. apply (slab_ok_frame c1); [done..|].
      constructor; rewrite ?Ec; try done.
      * by eapply fresh_list_nodup.
      * apply Forall_forall. intros x Hx. apply fresh_list_elem in Hx as (i & Hi & ->).
        exists (chunk f (set_head h (new_slab c a)) i).
        destruct (raw_bufctl G sp (set_head h (new_slab c a)) (chunk f (set_head h (new_slab c a)) i) Hraw Hg)
          as [_ Hb]; [exists i; split; [simpl; lia|done]|].
        eapply bufctl_for_frame; [exact Ec|by rewrite Eb|..|exact Hb]; done.
      * rewrite Hlen. simpl. lia.
    + rewrite lookup_insert_ne in HF' by done. rewrite lookup_insert_ne by done.
      destruct (ci_slab _ _ _ _ I _ _ HF') as (s' & Hs' & Hok). exists s'. split; [done|].
      apply (slab_ok_frame c); [done|by simpl; rewrite Eb| |done].
      intros x Hx. simpl. apply Em. by eapply other_bufctls.
  - assert (Hap : forall x sx, x <> sp -> is_Some (<[sp := fl0]> F !! x) ->
              <[sp := set_head h (new_slab c a)]> (slabs c) !! x = Some sx ->
              is_Some (F !! x) /\ slabs c !! x = Some sx).
    { intros x sx Hne Hx Hsx. rewrite lookup_insert_ne in Hx by done. rewrite lookup_insert_ne in Hsx by done. done. }
    assert (Est : slab_start f (set_head h (new_slab c a)) = a) by apply new_start.
    intros x x' sx sx' Hne Hx Hx'. change (cfg c2) with (cfg c1). change (slabs c2) with (slabs c1).
    rewrite Es, Ec. intros Hsx Hsx'.
    destruct (decide (x = sp)) as [->|Hx1], (decide (x' = sp)) as [->|Hx2]; [done| | |].
    + rewrite lookup_insert_eq in Hsx. injection Hsx as <-. rewrite Est.
      destruct (Hap _ _ Hx2 Hx' Hsx') as [? ?]. by eapply (fb_apart _ _ _ B).
    + rewrite lookup_insert_eq in Hsx'. injection Hsx' as <-. rewrite Est.
      destruct (Hap _ _ Hx1 Hx Hsx) as [? ?]. apply or_comm. by eapply (fb_apart _ _ _ B).
    + destruct (Hap _ _ Hx1 Hx Hsx) as [? ?], (Hap _ _ Hx2 Hx' Hsx') as [? ?].
      by eapply (ci_apart _ _ _ _ I x x').
  - assert (Hin : forall y, y ∈ fl0 -> a <= y < a + cache_slabsize f).
    { intros y Hy. apply fresh_list_elem in Hy as (i & Hi & ->).
      pose proof (geom_bufctl _ _ G). pose proof next_color_ok as [? _]. unfold sizeof_slab in *. nia. }
    intros x x' flx flx' y Hx Hx' Hy Hy'.
    destruct (decide (x = sp)) as [->|Hx1], (decide (x' = sp)) as [->|Hx2]; [done| | |];
      rewrite ?lookup_insert_eq in Hx; rewrite ?lookup_insert_eq in Hx';
      rewrite ?lookup_insert_ne in Hx by done; rewrite ?lookup_insert_ne in Hx' by done.
    + injection Hx as <-. specialize (Hin y Hy). pose proof (other_bufctls _ _ _ Hx' Hy'). lia.
    + injection Hx' as <-. specialize (Hin y Hy'). pose proof (other_bufctls _ _ _ Hx Hy). lia.
    + by eapply (ci_sep _ _ _ _ I).
  - unfold hashed. change (cfg c2) with (cfg c1). rewrite Ec. unfold hashed in Hraw. by rewrite Hraw.
  - change (cfg c2) with (cfg c1). change (cache_color c2) with (cache_color c1). rewrite Ec, Eo. apply next_color_ok.
Qed.
End grow.
