(* ===== verification/SlabSpec.v ===== *)
(** * The slab layer: what it promises

    Seen from above, the slab layer of a cache is the set of the buffers that
    are out ([allocated]).  [umem_slab_alloc] adds one buffer that was not in
    the set or reports that memory ran out, [umem_slab_free] removes the one it
    is given.  The arena below is known by the interface [slab_source]. *)
From S2P Require Import Prelude Machine SlabModel SlabWf SlabInv SlabFree SlabFreeOp SlabGrow.

(** ** The set of buffers that are out *)

Section allocated.
Context {q : Z} {c : cache} {F : gmap Z (list Z)} {L : list (list Z)} (I : cache_inv q c F L).

(** A chunk belongs to one slab. *)
Lemma chunk_owner sp sp' s s' fl fl' buf :
  F !! sp = Some fl -> slabs c !! sp = Some s -> is_chunk (cfg c) s buf ->
  F !! sp' = Some fl' -> slabs c !! sp' = Some s' -> is_chunk (cfg c) s' buf -> sp = sp'.
Proof using I.
  intros HF Hs (i & Hi & E) HF' Hs' (j & Hj & E').
  destruct (decide (sp = sp')) as [|Hne]; [done|exfalso].
  pose proof (ci_geom _ _ _ _ I) as G. pose proof (geom_chunk _ _ G).
  pose proof (chunks_apart G sp sp' s s' i j (so_geom _ _ _ _ (ci_slab_at _ _ _ _ _ _ _ I HF Hs))
    (so_geom _ _ _ _ (ci_slab_at _ _ _ _ _ _ _ I HF' Hs'))
    (ci_apart _ _ _ _ I sp sp' s s' Hne ltac:(eauto) ltac:(eauto) Hs Hs') Hi Hj). lia.
Qed.

Lemma free_chunk sp s fl b :
  F !! sp = Some fl -> slabs c !! sp = Some s -> b ∈ fl -> is_chunk (cfg c) s (buf_of c b).
Proof using I.
  intros HF Hs Hb. pose proof (so_bufctls _ _ _ _ (ci_slab_at _ _ _ _ _ _ _ I HF Hs)) as Hat.
  rewrite Forall_forall in Hat. destruct (Hat b Hb) as [buf Hf].
  rewrite (buf_of_for _ _ _ _ _ Hf). by destruct Hf.
Qed.

Lemma free_not_allocated sp fl b : F !! sp = Some fl -> b ∈ fl -> ~ allocated c F (buf_of c b).
Proof using I.
  intros HF Hb (sp' & s' & fl' & HF' & Hs' & Hc & Hx).
  destruct (ci_slab _ _ _ _ I _ _ HF) as (s & Hs & _).
  pose proof (free_chunk _ _ _ _ HF Hs Hb) as Hc0.
  pose proof (chunk_owner _ _ _ _ _ _ _ HF Hs Hc0 HF' Hs' Hc). simplify_eq. by apply (Hx b).
Qed.

Lemma free_inj sp fl b b' :
  F !! sp = Some fl -> b ∈ fl -> b' ∈ fl -> buf_of c b = buf_of c b' -> b = b'.
Proof using I.
  intros HF Hb Hb' E. destruct (hashed c) eqn:Hh.
  - apply (ho_inj _ _ _ (ci_hash _ _ _ _ I Hh)); [left; eauto..|done].
  - unfold buf_of in E. rewrite Hh in E. lia.
Qed.
End allocated.

(** Two states with slabs of the same extent. *)
Definition same_slab (s s' : umem_slab) : Prop :=
  slab_base s = slab_base s' /\ slab_chunks s = slab_chunks s'.

Lemma is_chunk_same f s s' buf : same_slab s s' -> is_chunk f s buf -> is_chunk f s' buf.
Proof. intros [E1 E2] (i & Hi & ->). exists i. unfold chunk. by rewrite <- E1, <- E2. Qed.

Lemma allocated_taken q c F L sp b fl s x :
  cache_inv q c F L -> F !! sp = Some (b :: fl) -> slabs c !! sp = Some s ->
  allocated (taken c sp b (hd 0 fl) s) (<[sp := fl]> F) x <-> allocated c F x \/ x = buf_of c b.
Proof.
  intros I HF Hs. destruct (taken_fields (c := c) sp b fl s) as (Ec & _ & Eb & _ & Es & _).
  set (s2 := Slab _ _ _ _ _ _ _) in Es.
  assert (Ebo : forall y, buf_of (taken c sp b (hd 0 fl) s) y = buf_of c y)
    by (intros; by apply buf_of_ext).
  split.
  - intros (sp' & s' & fl' & HF' & Hs' & Hc & Hx). rewrite Es in Hs'. rewrite Ec in Hc.
    setoid_rewrite Ebo in Hx. destruct (decide (sp' = sp)) as [->|Hne].
    + rewrite lookup_insert_eq in HF'. rewrite lookup_insert_eq in Hs'. simplify_eq.
      destruct (Z.eq_dec x (buf_of c b)) as [->|Hxb]; [by right|left].
      exists sp, s, (b :: fl'). split_and!; try done.
      intros y Hy E. apply elem_of_cons in Hy as [->|Hy]; [congruence|by apply (Hx y)].
    + rewrite lookup_insert_ne in HF' by done. rewrite lookup_insert_ne in Hs' by done.
      left. by exists sp', s', fl'.
  - intros [(sp' & s' & fl' & HF' & Hs' & Hc & Hx)| ->].
    + destruct (decide (sp' = sp)) as [->|Hne].
      * simplify_eq. exists sp, s2, fl. rewrite Es, !lookup_insert_eq, Ec. setoid_rewrite Ebo.
        split_and!; try done. intros y Hy. apply Hx. set_solver.
      * exists sp', s', fl'. rewrite Es, !lookup_insert_ne, Ec by done. setoid_rewrite Ebo. done.
    + exists sp, s2, fl. rewrite Es, !lookup_insert_eq, Ec. setoid_rewrite Ebo. split_and!; try done.
      * by apply (free_chunk I sp s (b :: fl)); [..|set_solver].
      * intros y Hy E. pose proof (so_nodup _ _ _ _ (ci_slab_at _ _ _ _ _ _ _ I HF Hs)) as Hnd.
        apply NoDup_cons in Hnd as [Hnd _]. apply Hnd.
        rewrite <- (free_inj I sp (b :: fl) y b HF); [done|set_solver..|done].
Qed.

(** ** The arena below *)

(** The blocks of [slabsize] bytes the arena has given out. *)
Class slab_source (W : Type) `{slab_env W} (f : slab_cfg) := {
  src_ok : W -> list Z -> Prop;
  src_alloc : forall w bs w' a,
    src_ok w bs -> env_vmem_alloc w (cache_slabsize f) = (w', a) ->
    (a = 0 /\ src_ok w' bs) \/
    ((cache_quantum f | a) /\ 0 < a /\ a + cache_slabsize f < 2 ^ 64 /\
     ~ a <= cache_nullslab f < a + cache_slabsize f /\
     (forall x, x ∈ bs -> a + cache_slabsize f <= x \/ x + cache_slabsize f <= a) /\
     src_ok w' (a :: bs));
  src_free : forall w bs a,
    src_ok w bs -> a ∈ bs ->
    src_ok (env_vmem_free w a (cache_slabsize f)) (base.filter (fun x => x <> a) bs);
}.

(** ** Which slab serves an allocation *)

Lemma pick_split (c : cache) B :
  (exists B1 sp B2 s, B = B1 ++ sp :: B2 /\ skipped (c := c) B1 /\
     slabs c !! sp = Some s /\ slab_state s <> SLAB_RECLAIMING) \/ skipped (c := c) B.
Proof.
  induction B as [|sp B IH]; [right; intros ? ? []%elem_of_nil|].
  destruct (slabs c !! sp) as [s|] eqn:Hs.
  - destruct (Z.eq_dec (slab_state s) SLAB_RECLAIMING) as [Hst|Hst].
    + assert (Hcons : forall B', skipped (c := c) B' -> skipped (c := c) (sp :: B')).
      { intros B' H x sx Hx Hsx. apply elem_of_cons in Hx as [->|Hx]; [congruence|by eapply H]. }
      destruct IH as [(B1 & x & B2 & sx & -> & Hk & H1 & H2)|Hk]; [left|right; auto].
      exists (sp :: B1), x, B2, sx. auto.
    + left. exists [], sp, B, s. split_and!; try done. by intros ? ? []%elem_of_nil.
  - destruct IH as [(B1 & x & B2 & sx & -> & Hk & H1 & H2)|Hk]; [left|right].
    + exists (sp :: B1), x, B2, sx. split_and!; try done.
      intros y sy Hy Hsy. apply elem_of_cons in Hy as [->|Hy]; [congruence|by eapply Hk].
    + intros y sy Hy Hsy. apply elem_of_cons in Hy as [->|Hy]; [congruence|by eapply Hk].
Qed.

Lemma find_usable_none c l :
  (forall x, x ∈ l -> x <> cache_nullslab (cfg c) /\
     exists sx, slabs c !! x = Some sx /\ slab_state sx = SLAB_RECLAIMING) ->
  find_usable c (l ++ [cache_nullslab (cfg c)]) = cache_nullslab (cfg c).
Proof.
  induction l as [|x l IH]; intros H; simpl; [by rewrite Z.eqb_refl|].
  destruct (H x ltac:(set_solver)) as (Hx & sx & Hsx & Hr).
  rewrite (proj2 (Z.eqb_neq _ _) Hx), Hsx, Hr. simpl. apply IH. set_solver.
Qed.

Lemma cache_inv_color q c F L v :
  cache_inv q c F L -> 0 <= v <= cache_maxcolor (cfg c) -> (8 | v) -> cache_inv q (set_color v c) F L.
Proof.
  intros [H1 (A & B & R) H3 H4 H5 H6 H7] Hv1 Hv2. constructor; try done.
  - exists A, B. by destruct R.
  - intros sp fl HF. destruct (H3 sp fl HF) as (s & Hs & Hok). exists s. split; [done|].
    by eapply (slab_ok_frame c).
  - intros Hh. destruct (H6 Hh) as [h1 h2 h3 h4 h5 h6]. by constructor.
Qed.

(** ** The layer and its operations *)

Section layer.
Context {W : Type} {env : slab_env W} {f : slab_cfg} {src : slab_source W f}.

(** A raw cache over its arena: every slab is a block the arena gave out. *)
Record layer (q : Z) (w : W) (c : cache) (F : gmap Z (list Z)) : Prop := Layer {
  ly_cfg : cfg c = f;
  ly_inv : cache_inv q c F [];
  ly_raw : hashed c = false;
  ly_null : cache_null f = false;
  ly_src : exists bs, src_ok w bs /\
    forall sp s, is_Some (F !! sp) -> slabs c !! sp = Some s -> slab_start f s ∈ bs;
}.

Lemma layer_block q w c F w' a :
  layer q w c F -> env_vmem_alloc w (cache_slabsize f) = (w', a) -> a <> 0 ->
  fresh_block c F a /\ exists bs, src_ok w' (a :: bs) /\
    forall sp s, is_Some (F !! sp) -> slabs c !! sp = Some s -> slab_start f s ∈ bs.
Proof.
  intros [Ec I Hr Hn (bs & Hok & Hin)] Hal Ha.
  destruct (src_alloc w bs w' a Hok Hal) as [[? _]|(H1 & H2 & H3 & H4 & H5 & H6)]; [done|].
  split; [|by eauto]. constructor; rewrite ?Ec; try done.
  intros sp s HF Hs. apply H5. by eapply Hin.
Qed.

(** Growing: memory ran out, or a new slab heads the freelist. *)
Lemma layer_grow q w c F A B umflag :
  layer q w c F -> ring_ok c F A B ->
  exists w' c' sp a, slab_grow w c umflag = Ok (w', c', sp) /\ env_vmem_alloc w (cache_slabsize f) = (w', a) /\
    ((a = 0 /\ sp = 0 /\ layer q w' c' F /\ (forall x, allocated c' F x <-> allocated c F x)) \/
     (exists fl s, a <> 0 /\ slab_start f s = a /\ sp <> 0 /\ fl <> [] /\ F !! sp = None /\ layer q w' c' (<[sp := fl]> F) /\
        ring_ok c' (<[sp := fl]> F) A (sp :: B) /\ slabs c' !! sp = Some s /\
        slab_state s = SLAB_ACTIVE /\
        (forall x, allocated c' (<[sp := fl]> F) x <-> allocated c F x))).
Proof.
  intros Hly R. pose proof Hly as [Ec I Hr Hn (bs & Hok & Hin)].
  unfold slab_grow. rewrite Ec, Hn.
  destruct (env_vmem_alloc w (cache_slabsize f)) as [w' a] eqn:Hal.
  destruct (Z.eq_dec a 0) as [->|Ha].
  - (* memory ran out *)
    destruct (src_alloc w bs w' 0 Hok Hal) as [[_ Hok']|(_ & ? & _)]; [|lia].
    set (c' := set_stats (stat_fail (stats c)) (set_color (next_color c) c)).
    assert (Hrun : umem_slab_create w c umflag = Ok (w', c', 0)).
    { unfold umem_slab_create. cbn zeta. rewrite Ec, Hal, Z.eqb_refl. unfold slab_create_failed, c', next_color.
      rewrite wadd_small; [by rewrite Ec|].
      pose proof (ci_geom _ _ _ _ I) as G. pose proof (geom_align _ _ G) as [? _].
      pose proof (geom_color _ _ G) as (_ & ? & _). pose proof (ci_color _ _ _ _ I) as [? _].
      pose proof (geom_q _ _ G). assert (2 ^ q <= 2 ^ 63) by (apply Z.pow_le_mono_r; lia).
      rewrite Ec in *. lia. }
    rewrite Hrun. cbn [res_bind]. rewrite Z.eqb_refl. exists w', c', 0, 0. do 2 (split; [done|]). left.
    split_and!; try done. constructor; try done; [|by exists bs].
    apply cache_inv_stats, cache_inv_color; [done|apply (next_color_ok I)..].
  - destruct (layer_block _ _ _ _ _ _ Hly Hal Ha) as (Hfb & bs' & Hok' & Hin').
    destruct (slab_create_raw I Hr Hfb w w' umflag) as (c1 & h & Hrun & E1 & E2 & E3 & E4 & E5 & E6 & E7 & E8);
      [by rewrite Ec|]. rewrite Hrun. cbn [res_bind].
    destruct (sp_fresh I Hr Hfb) as (Hf1 & Hf2 & Hf3). rewrite (proj2 (Z.eqb_neq _ _) Hf2).
    set (sp := a + cache_slabsize (cfg c) - sizeof_slab) in *.
    set (fl := fresh_list (cfg c) (a + next_color c) (Z.to_nat (new_chunks c))) in *.
    set (t := stat_create _ _).
    destruct (pushed_inv I Hr Hfb c1 h t A B E1 E2 E3 E4 E5 E6 E7 E8 R) as [I' R'].
    fold sp in I', R'. fold fl in I', R'. set (c' := freelist_push sp (set_stats t c1)) in *.
    assert (Hs' : slabs c' !! sp = Some (set_head h (new_slab c a)))
      by (change (slabs c') with (slabs c1); rewrite E5; apply lookup_insert_eq).
    assert (Hne : forall x, is_Some (F !! x) -> x <> sp) by (intros x [? ?] ->; congruence).
    assert (Hso : forall x, x <> sp -> slabs c' !! x = slabs c !! x)
      by (intros x Hx; change (slabs c') with (slabs c1); by rewrite E5, lookup_insert_ne).
    exists w', c', sp, a. do 2 (split; [done|]). right. exists fl, (set_head h (new_slab c a)).
    pose proof (new_chunks_pos (a := a) I Hr) as [Hnc _].
    assert (Hfl : Z.of_nat (length fl) = new_chunks c).
    { unfold fl. rewrite fresh_list_length. lia. }
    split_and!; try done.
    + change (slab_start f (new_slab c a) = a). rewrite <- Ec. apply (new_start I Hfb).
    + intros E. rewrite E in Hfl. simpl in Hfl. lia.
    + constructor; try done.
      * by rewrite <- Ec, <- E1.
      * change (hashed c') with (hashed c1). unfold hashed in *. by rewrite E1.
      * exists (a :: bs'). split; [done|]. intros x sx Hx Hsx.
        destruct (decide (x = sp)) as [->|Hxn].
        -- rewrite Hs' in Hsx. injection Hsx as <-. rewrite <- Ec.
           change (slab_start (cfg c) (set_head h (new_slab c a))) with (slab_start (cfg c) (new_slab c a)).
           rewrite (new_start I Hfb). set_solver.
        -- rewrite lookup_insert_ne in Hx by done. rewrite Hso in Hsx by done.
           apply elem_of_cons. right. by eapply Hin'.
    + assert (Ebo : forall y, buf_of c' y = buf_of c y)
        by (intros; apply buf_of_ext; [exact E1|exact E7]).
      assert (Ecc : cfg c' = cfg c) by exact E1.
      intros x. split.
      * intros (x1 & s1 & fl1 & HF1 & Hs1 & Hc1 & Hx1).
        destruct (decide (x1 = sp)) as [->|Hxn].
        -- exfalso. rewrite lookup_insert_eq in HF1. injection HF1 as <-. rewrite Hs' in Hs1.
           injection Hs1 as <-. destruct Hc1 as (i & Hi & ->). simpl in Hi.
           apply (Hx1 (a + next_color c + i * cache_chunksize (cfg c) + cache_bufctl (cfg c))).
           ++ apply fresh_list_elem. exists i. split; [lia|done].
           ++ rewrite Ebo. unfold buf_of. rewrite Hr, Ecc. unfold chunk. simpl. lia.
        -- rewrite lookup_insert_ne in HF1 by done. rewrite Hso in Hs1 by done. rewrite Ecc in Hc1.
           setoid_rewrite Ebo in Hx1. by exists x1, s1, fl1.
      * intros (x1 & s1 & fl1 & HF1 & Hs1 & Hc1 & Hx1). exists x1, s1, fl1.
        assert (x1 <> sp) by (apply Hne; eauto). rewrite lookup_insert_ne, Hso, Ecc by done.
        setoid_rewrite Ebo. done.
Qed.

Lemma layer_stats q w c F t : layer q w c F -> layer q w (set_stats t c) F.
Proof. intros [H1 H2 H3 H4 H5]. constructor; try done. by apply cache_inv_stats. Qed.

(** Taking the first buffer of a freelist slab. *)
Lemma layer_take q w c F A B1 sp B2 s :
  layer q w c F -> ring_ok c F A (B1 ++ sp :: B2) -> skipped (c := c) B1 -> slabs c !! sp = Some s ->
  exists c' p F', slab_take w c sp = Ok (w, c', p) /\ layer q w c' F' /\ p <> 0 /\
    is_chunk f s p /\ dom F' = dom F /\ F !! sp <> Some [] /\ ~ allocated c F p /\ (forall x, allocated c' F' x <-> allocated c F x \/ x = p).
Proof.
  intros Hly R Hsk Hs. pose proof Hly as [Ec I Hr Hn (bs & Hok & Hin)].
  destruct (proj1 (ro_dom _ _ _ _ R sp) ltac:(set_solver)) as [fl0 HF].
  destruct fl0 as [|b fl]; [by destruct (ro_on _ _ _ _ R sp ltac:(set_solver))|].
  exists (taken c sp b (hd 0 fl) s), (buf_of c b), (<[sp := fl]> F).
  split; [by apply (slab_take_run I)|].
  destruct (taken_fields (c := c) sp b fl s) as (Ec' & _ & _ & _ & Es & _).
  pose proof (taken_inv I A B1 sp B2 b fl s R ltac:(done) HF Hs) as I'.
  unfold taken_table in I'. rewrite Hr in I'. split_and!.
  - constructor; try done; [by rewrite Ec'|unfold hashed; by rewrite Ec'|].
    exists bs. split; [done|]. intros x sx Hx Hsx. rewrite Es in Hsx.
    destruct (decide (x = sp)) as [->|Hne].
    + rewrite lookup_insert_eq in Hsx. injection Hsx as <-. apply (Hin sp s); eauto.
    + rewrite lookup_insert_ne in Hx by done. rewrite lookup_insert_ne in Hsx by done. by apply (Hin x).
  - pose proof (free_chunk I sp s (b :: fl) b HF Hs ltac:(set_solver)) as (i & Hi & ->).
    pose proof (chunk_word (ci_geom _ _ _ _ I) sp s i
      (so_geom _ _ _ _ (ci_slab_at _ _ _ _ _ _ _ I HF Hs)) Hi). lia.
  - rewrite <- Ec. by apply (free_chunk I sp s (b :: fl) b HF Hs), elem_of_cons; left.
  - rewrite dom_insert_lookup_L; [done|]. by exists (b :: fl).
  - by rewrite HF.
  - apply (free_not_allocated I sp (b :: fl)); set_solver.
  - intros x. by eapply allocated_taken.
Qed.

(** No slab can serve: each is full or has its pages being given back. *)
Definition exhausted (c : cache) (F : gmap Z (list Z)) : Prop :=
  forall sp s fl, F !! sp = Some fl -> slabs c !! sp = Some s -> fl = [] \/ dropped s.

(** The buffers out gain [p]. *)
Definition gains (c : cache) (F : gmap Z (list Z)) (c' : cache) (F' : gmap Z (list Z)) (p : Z) : Prop :=
  p <> 0 /\ ~ allocated c F p /\ forall x, allocated c' F' x <-> allocated c F x \/ x = p.

(** What an allocation comes to: a buffer of a slab with a free one; or, when
    no slab can serve, what the arena has for a new slab. *)
Definition alloc_outcome (w : W) (c : cache) (F : gmap Z (list Z)) (w' : W) (c' : cache) (p : Z)
    (F' : gmap Z (list Z)) : Prop :=
  (exists sp s fl, F !! sp = Some fl /\ fl <> [] /\ slabs c !! sp = Some s /\
     slab_state s <> SLAB_RECLAIMING /\ is_chunk f s p /\ w' = w /\ dom F' = dom F /\ gains c F c' F' p) \/
  (exhausted c F /\ env_vmem_alloc w (cache_slabsize f) = (w', 0) /\ p = 0 /\ dom F' = dom F /\
     forall x, allocated c' F' x <-> allocated c F x) \/
  (exhausted c F /\ exists a sp, env_vmem_alloc w (cache_slabsize f) = (w', a) /\ a <> 0 /\
     a <= p < a + cache_slabsize f /\ F !! sp = None /\ dom F' = {[sp]} ∪ dom F /\ gains c F c' F' p).

Lemma skipped_exhausted q c F A B :
  cache_inv q c F [] -> ring_ok c F A B -> skipped (c := c) B -> exhausted c F.
Proof using Type.
  intros I R Hsk sp s fl HF Hs.
  pose proof (proj2 (ro_dom _ _ _ _ R sp) (ex_intro _ _ HF)) as [Hin|Hin]%elem_of_app;
    [by eapply (ro_off _ _ _ _ R)|].
  right. pose proof (Hsk sp s Hin Hs) as Hst. split; [|by left].
  apply (so_idle _ _ _ _ (ci_slab_at _ _ _ _ _ _ _ I HF Hs)). by rewrite Hst.
Qed.

(** With every freelist slab passed over, the pick is a new slab. *)
Lemma pick_grows q w c F A B umflag w' c' sp :
  layer q w c F -> ring_ok c F A B -> skipped (c := c) B -> slab_grow w c umflag = Ok (w', c', sp) ->
  (sp <> 0 -> exists s, slabs c' !! sp = Some s /\ slab_state s = SLAB_ACTIVE) ->
  (do (w, c, sp) <- slab_pick w c umflag; if sp =? 0 then Ok (w, c, 0) else slab_take w c sp) =
  (if sp =? 0 then Ok (w', c', 0) else slab_take w' c' sp).
Proof using Type.
  intros Hly R Hsk Hg Hnew. pose proof (ro_nonzero _ _ _ _ R) as Hnz. rewrite (ro_ring _ _ _ _ R) in Hnz.
  unfold slab_pick. rewrite (ro_head _ _ _ _ R). destruct B as [|x B].
  - destruct (ro_null _ _ _ _ R) as (sn & Hsn & Hhn & Hcn). simpl hd. rewrite Hsn, Hhn, Hcn, !Z.eqb_refl. cbn [ASSERT res_bind]. rewrite Hg.
    cbn [res_bind]. destruct (Z.eqb_spec sp 0) as [->|Hne]; [done|].
    destruct (Hnew Hne) as (s & Hs & Hst). rewrite Hs, Hst. simpl. by rewrite (proj2 (Z.eqb_neq _ _) Hne).
  - simpl hd. destruct (proj1 (ro_dom _ _ _ _ R x) ltac:(set_solver)) as [flx HFx].
    destruct (on_head (ly_inv _ _ _ _ Hly) A (x :: B) x flx R ltac:(set_solver) HFx) as (sx & Hsx & Hhx & Hcx).
    rewrite Hsx, (proj2 (Z.eqb_neq _ _) Hhx), Hcx, Z.eqb_refl. cbn [ASSERT res_bind].
    rewrite (proj2 (Z.eqb_neq x 0)) by set_solver. rewrite Hsx, (Hsk x sx ltac:(set_solver) Hsx).
    simpl (SLAB_RECLAIMING =? SLAB_RECLAIMING).
    assert (Ea : after x (ring c) = B ++ [cache_nullslab (cfg c)]).
    { rewrite (ro_ring _ _ _ _ R). simpl. apply after_app.
      pose proof (ro_nodup _ _ _ _ R) as Hnd. rewrite (ro_ring _ _ _ _ R) in Hnd.
      apply NoDup_app in Hnd. set_solver. }
    rewrite Ea, find_usable_none, Z.eqb_refl; [cbn [negb andb]; rewrite Hg; done|].
    intros y Hy. destruct (proj1 (ro_dom _ _ _ _ R y) ltac:(set_solver)) as [fly HFy].
    destruct (ci_slab _ _ _ _ (ly_inv _ _ _ _ Hly) _ _ HFy) as (sy & Hsy & _). split.
    + intros ->. pose proof (ro_nodup _ _ _ _ R) as Hnd. rewrite (ro_ring _ _ _ _ R), app_assoc in Hnd.
      apply NoDup_app in Hnd as (_ & Hnd & _). apply (Hnd (cache_nullslab (cfg c))); set_solver.
    + exists sy. split; [done|]. apply (Hsk y); set_solver.
Qed.

Lemma layer_alloc_full q w c F umflag :
  layer q w c F ->
  exists w' c' p F', umem_slab_alloc w c umflag = Ok (w', c', p) /\ layer q w' c' F' /\
    alloc_outcome w c F w' c' p F'.
Proof.
  intros Hly. apply (layer_stats _ _ _ _ (stat_alloc (stats c))) in Hly.
  unfold umem_slab_alloc.
  change (alloc_outcome w c F) with (alloc_outcome w (set_stats (stat_alloc (stats c)) c) F).
  set (c0 := set_stats (stat_alloc (stats c)) c) in *. clearbody c0. clear c. rename c0 into c.
  destruct (ci_ring _ _ _ _ (ly_inv _ _ _ _ Hly)) as (A & B & R).
  pose proof (ro_nonzero _ _ _ _ R) as Hnz. rewrite (ro_ring _ _ _ _ R) in Hnz.
  destruct (pick_split c B) as [(B1 & sp & B2 & s & -> & Hsk & Hs & Hst)|Hsk].
  - rewrite (slab_pick_run (ly_inv _ _ _ _ Hly) w umflag A B1 sp B2 s R Hsk Hs Hst). cbn [res_bind].
    rewrite (proj2 (Z.eqb_neq sp 0)) by set_solver.
    destruct (layer_take q w c F A B1 sp B2 s Hly R Hsk Hs) as (c' & p & F' & -> & H1 & H2 & Hc & Hd & Hne & H3 & H4).
    destruct (proj1 (ro_dom _ _ _ _ R sp) ltac:(set_solver)) as [fl HF].
    exists w, c', p, F'. split; [done|]. split; [done|]. left. exists sp, s, fl. unfold gains.
    split_and!; try done. intros ->. done.
  - pose proof (skipped_exhausted q c F A B (ly_inv _ _ _ _ Hly) R Hsk) as Hex.
    destruct (layer_grow q w c F A B umflag Hly R) as (w' & c' & sp & a & Hg & Hal & Hcase).
    rewrite (pick_grows q w c F A B umflag w' c' sp Hly R Hsk Hg).
    2:{ intros Hne. destruct Hcase as [(_ & ? & _)|(fl & s & _ & _ & _ & _ & _ & _ & _ & Hs & Hst & _)]; [done|eauto]. }
    destruct Hcase as [(-> & -> & Hl & Hax)|(fl & s & Ha & Est & Hsp & Hfl & HFn & Hl & R' & Hs & Hst & Hax)].
    + exists w', c', 0, F. split; [done|]. split; [done|]. right. by left.
    + rewrite (proj2 (Z.eqb_neq _ _) Hsp).
      destruct (layer_take q w' c' _ A [] sp B s Hl R' ltac:(by intros ? ? []%elem_of_nil) Hs)
        as (c2 & p & F' & -> & H1 & H2 & Hc & Hd & _ & H3 & H4).
      exists w', c2, p, F'. split; [done|]. split; [done|]. right. right. split; [done|].
      exists a, sp. unfold gains. setoid_rewrite Hax in H4. rewrite Hax in H3.
      split_and!; try done; [..|by rewrite Hd, dom_insert_L].
      all: destruct Hc as (i & Hi & ->); pose proof (ly_inv _ _ _ _ Hl) as I';
        pose proof (so_geom _ _ _ _ (ci_slab_at _ _ _ _ _ _ _ I' (lookup_insert_eq F sp fl) Hs)) as Hsg;
        pose proof (chunk_bounds (ci_geom _ _ _ _ I') sp s i) as Hb;
        pose proof (slab_start_le (ci_geom _ _ _ _ I') s) as Hle; pose proof (base_pos (ci_geom _ _ _ _ I') sp s) as Hbp;
        pose proof (geom_chunk _ _ (ci_geom _ _ _ _ I')); rewrite (ly_cfg _ _ _ _ Hl) in *;
        specialize (Hb Hsg Hi); specialize (Hbp Hsg); lia.
Qed.

Lemma layer_alloc q w c F umflag :
  layer q w c F ->
  exists w' c' p F', umem_slab_alloc w c umflag = Ok (w', c', p) /\ layer q w' c' F' /\
    ((p = 0 /\ forall x, allocated c' F' x <-> allocated c F x) \/ gains c F c' F' p).
Proof.
  intros Hly. destruct (layer_alloc_full q w c F umflag Hly) as (w' & c' & p & F' & E & Hl & Ho).
  exists w', c', p, F'. split_and!; [done..|].
  destruct Ho as [(? & ? & ? & _ & _ & _ & _ & _ & _ & _ & H)|[(_ & _ & ? & _ & ?)|(_ & ? & ? & _ & _ & _ & _ & _ & H)]];
    [by right|by left|by right].
Qed.

Lemma layer_out q w c F buf :
  layer q w c F -> allocated c F buf ->
  exists sp s fl, is_out c F [] sp s fl (buf + cache_bufctl f) buf.
Proof.
  intros [Ec I Hr _ _] (sp & s & fl & HF & Hs & Hc & Hx). exists sp, s, fl.
  split_and!; try done; [|by rewrite Hr].
  destruct (raw_bufctl (ci_geom _ _ _ _ I) sp s buf Hr
    (so_geom _ _ _ _ (ci_slab_at _ _ _ _ _ _ _ I HF Hs)) Hc) as [_ Hb]. by rewrite <- Ec.
Qed.

(** The other buffers of a slab after one of them came back. *)
Lemma allocated_released q c c0 F sp s fl b buf state idle x :
  cache_inv q c F [] -> hashed c = false -> is_out c F [] sp s fl b buf ->
  cfg c0 = cfg c -> slabs c0 = slabs c -> bufctls c0 = bufctls c ->
  allocated (released c0 sp b s state idle) (<[sp := b :: fl]> F) x <-> allocated c F x /\ x <> buf.
Proof.
  intros I Hr (HF & Hs & Hb & Hx) Ec Es Eb.
  pose proof (buf_of_for _ _ _ _ _ Hb) as Ebuf. pose proof Hb as (Hc & _).
  destruct (released_fields (c := c0) (sp := sp) (b := b) (s := s) (state := state) (idle := idle))
    as (Ec1 & Eb1 & _ & _ & _ & Es1 & _).
  set (c1 := released c0 sp b s state idle) in *. set (s1 := Slab _ _ _ _ _ _ _) in Es1.
  assert (Ebo : forall y, buf_of c1 y = buf_of c y) by (intros; apply buf_of_ext; congruence).
  split.
  - intros (sp' & s' & fl' & HF' & Hs' & Hc' & Hx'). rewrite Es1, Es in Hs'. rewrite Ec1, Ec in Hc'.
    setoid_rewrite Ebo in Hx'. destruct (decide (sp' = sp)) as [->|Hne].
    + rewrite lookup_insert_eq in HF'. injection HF' as <-. rewrite lookup_insert_eq in Hs'. injection Hs' as <-.
      split; [|intros ->; by apply (Hx' b); [set_solver|]].
      exists sp, s, fl. split_and!; try done. intros y Hy. apply Hx'. set_solver.
    + rewrite lookup_insert_ne in HF' by done. rewrite lookup_insert_ne in Hs' by done.
      split; [by exists sp', s', fl'|]. intros ->. apply Hne. symmetry.
      by eapply (chunk_owner I sp sp').
  - intros ((sp' & s' & fl' & HF' & Hs' & Hc' & Hx') & Hxb). destruct (decide (sp' = sp)) as [->|Hne].
    + simplify_eq. exists sp, s1, (b :: fl). rewrite Es1, !lookup_insert_eq, Ec1, Ec. setoid_rewrite Ebo.
      split_and!; try done. intros y Hy. apply elem_of_cons in Hy as [->|Hy]; [congruence|by apply Hx'].
    + exists sp', s', fl'. rewrite Es1, Es, !lookup_insert_ne, Ec1, Ec by done. by setoid_rewrite Ebo.
Qed.

(** A slab with one buffer out has no other. *)
Lemma last_out q c F sp s fl b buf x :
  cache_inv q c F [] -> hashed c = false -> is_out c F [] sp s fl b buf -> slab_refcnt s = 1 ->
  is_chunk (cfg c) s x -> (forall y, y ∈ fl -> buf_of c y <> x) -> x = buf.
Proof.
  intros I Hr (HF & Hs & Hb & Hx) H1 Hcx Hfx. rewrite Hr in Hx.
  destruct (Z.eq_dec x buf) as [|Hne]; [done|exfalso].
  pose proof (ci_slab_at _ _ _ _ _ _ _ I HF Hs) as Hok. pose proof (ci_geom _ _ _ _ I) as G.
  pose proof (so_geom _ _ _ _ Hok) as Hg. destruct (raw_bufctl G sp s x Hr Hg Hcx) as [_ Hbx].
  set (bx := x + cache_bufctl (cfg c)) in *.
  pose proof (buf_of_for _ _ _ _ _ Hb) as E1. pose proof (buf_of_for _ _ _ _ _ Hbx) as E2.
  assert (Z.of_nat (length (bx :: b :: fl)) <= slab_chunks s);
    [|pose proof (so_refcnt _ _ _ _ Hok); simpl in *; lia].
  apply (bufctls_bound c q sp s); try done.
  - rewrite !NoDup_cons. split_and!; [| |apply (so_nodup _ _ _ _ Hok)].
    + rewrite elem_of_cons. intros [E|Hin]; [congruence|by apply (Hfx bx)].
    + intros Hin. by apply (Hx b).
  - rewrite !Forall_cons. split_and!; [by exists x|by exists buf|apply (so_bufctls _ _ _ _ Hok)].
  - intros y y' _ _ E. unfold buf_of in E. rewrite Hr in E. lia.
Qed.

(** What freeing the buffer [buf] does to its slab: a slab with other buffers
    out loses a reference; one that becomes empty is marked dirty and kept when
    reclaiming is enabled, and otherwise leaves the cache, its block going back
    to the arena. *)
Definition free_outcome (w : W) (c : cache) (F : gmap Z (list Z)) (buf : Z) (w' : W) (c' : cache)
    (F' : gmap Z (list Z)) : Prop :=
  exists sp s fl, F !! sp = Some fl /\ slabs c !! sp = Some s /\ is_chunk f s buf /\
    (slab_refcnt s = 1 -> forall x, is_chunk f s x -> allocated c F x -> x = buf) /\
    if slab_refcnt s =? 1 then
      if umem_reclaim_enabled f then
        w' = w /\ dom F' = dom F /\ exists s', slabs c' !! sp = Some s' /\
          slab_refcnt s' = 0 /\ slab_state s' = SLAB_DIRTY /\ slab_idle_time s' = 0
      else
        w' = env_vmem_free w (slab_start f s) (cache_slabsize f) /\ slabs c' !! sp = None /\
        dom F' = dom F ∖ {[sp]}
    else
      w' = w /\ dom F' = dom F /\ exists s', slabs c' !! sp = Some s' /\
        slab_refcnt s' = slab_refcnt s - 1 /\ slab_state s' = slab_state s.

Lemma free_last q c F sp s fl b buf :
  cache_inv q c F [] -> hashed c = false -> is_out c F [] sp s fl b buf -> slab_refcnt s = 1 ->
  forall x, is_chunk (cfg c) s x -> allocated c F x -> x = buf.
Proof using Type.
  intros I Hr O H1 x Hcx (sp' & s' & fl' & HF' & Hs' & Hc' & Hx'). pose proof O as (HF & Hs & _).
  pose proof (chunk_owner I sp sp' s s' fl fl' x HF Hs Hcx HF' Hs' Hc') as <-. simplify_eq.
  by eapply (last_out q c F sp).
Qed.

Lemma layer_free_full q w c F buf :
  layer q w c F -> allocated c F buf ->
  exists w' c' F', umem_slab_free w c buf = Ok (w', c') /\ layer q w' c' F' /\
    (forall x, allocated c' F' x <-> allocated c F x /\ x <> buf) /\ free_outcome w c F buf w' c' F'.
Proof.
  intros Hly Hal. destruct (layer_out _ _ _ _ _ Hly Hal) as (sp & s & fl & O).
  pose proof Hly as [Ec I Hr Hn (bs & Hok & Hin)]. set (b := buf + cache_bufctl f) in *.
  pose proof O as (HF & Hs & _).
  destruct (slab_free_step I O w) as (c0 & I0 & Hu & Hb & Hs0 & Ec0 & Es0 & Eb0 & Hrun).
  unfold untabled in I0, Hu. rewrite Hr in I0, Hu.
  pose proof (release_refcnt I0 HF Hs0 Hb Hu) as Hrc.
  assert (Hdom : dom (<[sp := b :: fl]> F) = dom F) by (apply dom_insert_lookup_L; by exists fl).
  assert (Hout : forall w' c' F',
    (if slab_refcnt s =? 1 then
       if umem_reclaim_enabled f then
         w' = w /\ dom F' = dom F /\ exists s', slabs c' !! sp = Some s' /\
           slab_refcnt s' = 0 /\ slab_state s' = SLAB_DIRTY /\ slab_idle_time s' = 0
       else w' = env_vmem_free w (slab_start f s) (cache_slabsize f) /\ slabs c' !! sp = None /\
         dom F' = dom F ∖ {[sp]}
     else w' = w /\ dom F' = dom F /\ exists s', slabs c' !! sp = Some s' /\
         slab_refcnt s' = slab_refcnt s - 1 /\ slab_state s' = slab_state s) ->
    free_outcome w c F buf w' c' F').
  { intros w' c' F' H. exists sp, s, fl. rewrite <- Ec in H |- *. split_and!; try done.
    { by destruct O as (_ & _ & (Hcb & _) & _). }
    by apply (free_last q c F sp s fl b). }
  assert (Hkeep : forall state idle, (state <> SLAB_ACTIVE -> slab_refcnt s = 1) ->
    layer q w (released c0 sp b s state idle) (<[sp := b :: fl]> F) /\
    forall x, allocated (released c0 sp b s state idle) (<[sp := b :: fl]> F) x <->
              allocated c F x /\ x <> buf).
  { intros state idle Hst. pose proof (released_inv I0 HF Hs0 Hb Hu (idle := idle) Hst) as I1.
    destruct (released_fields (c := c0) (sp := sp) (b := b) (s := s) (state := state) (idle := idle))
      as (Ec1 & _ & _ & _ & _ & Es1 & _).
    split; [|intros x; by apply (allocated_released q)].
    constructor; try done; [by rewrite Ec1, Ec0|unfold hashed in *; by rewrite Ec1, Ec0|].
    exists bs. split; [done|]. intros x sx Hx Hsx. rewrite Es1, Es0 in Hsx.
    destruct (decide (x = sp)) as [->|Hne].
    - rewrite lookup_insert_eq in Hsx. injection Hsx as <-. apply (Hin sp s); eauto.
    - rewrite lookup_insert_ne in Hx by done. rewrite lookup_insert_ne in Hsx by done. by apply (Hin x). }
  destruct (Z.eqb_spec (slab_refcnt s - 1) 0) as [E1|E1].
  - destruct (umem_reclaim_enabled (cfg c)) eqn:Hre.
    + destruct (Hkeep SLAB_DIRTY 0 ltac:(lia)) as [H1 H2]. eexists _, _, _. split; [exact Hrun|].
      do 2 (split; [done|]). apply Hout. rewrite <- Ec, Hre, (proj2 (Z.eqb_eq _ 1)) by lia.
      split_and!; try done. eexists. split; [unfold released; simpl; by rewrite lookup_insert_eq|]. by rewrite <- E1.
    + destruct (slab_free_destroyed I O w Hre ltac:(lia)) as (c' & Hd & I' & Hnone & Ec' & Es').
      unfold untabled in I'. rewrite Hr in I'.
      exists (destroyed_world w (cfg c) sp s (b :: fl)), c', (delete sp F). split; [done|]. split_and!.
      * constructor; try done; [by rewrite Ec'|unfold hashed in *; by rewrite Ec'|].
        exists (base.filter (fun x => x <> slab_start f s) bs). split.
        -- unfold destroyed_world. unfold hashed in Hr. rewrite Hr, Ec.
           apply src_free; [done|]. apply (Hin sp s); eauto.
        -- intros x sx Hx Hsx. destruct (decide (x = sp)) as [->|Hne]; [by rewrite lookup_delete_eq in Hx; destruct Hx|].
           rewrite lookup_delete_ne in Hx by done. rewrite Es' in Hsx by done.
           apply list_elem_of_filter. split; [|by apply (Hin x)].
           pose proof (ci_apart _ _ _ _ I x sp sx s Hne Hx ltac:(eauto) Hsx Hs) as Hd'.
           pose proof (geom_slab _ _ (ci_geom _ _ _ _ I)). pose proof (geom_chunk _ _ (ci_geom _ _ _ _ I)).
           rewrite Ec in *. lia.
      * intros x. split.
        -- intros (sp' & s' & fl' & HF' & Hs' & Hc' & Hx').
           apply lookup_delete_Some in HF' as [Hne HF']. rewrite Es' in Hs' by done.
           rewrite Ec' in Hc'. split.
           ++ exists sp', s', fl'. split_and!; try done. intros y Hy.
              specialize (Hx' y Hy). unfold buf_of, hashed in *. by rewrite Ec', Hr in Hx'; rewrite Hr.
           ++ intros ->. apply Hne. destruct O as (_ & _ & (Hcb & _) & _).
              by eapply (chunk_owner I sp sp').
        -- intros ((sp' & s' & fl' & HF' & Hs' & Hc' & Hx') & Hxb).
           destruct (decide (sp' = sp)) as [->|Hne].
           ++ exfalso. simplify_eq. apply Hxb. eapply (last_out q c F sp); try done. lia.
           ++ exists sp', s', fl'. rewrite lookup_delete_ne, Es', Ec' by done. split_and!; try done.
              intros y Hy. specialize (Hx' y Hy). unfold buf_of, hashed in *. rewrite Ec', Hr. by rewrite Hr in Hx'.
      * apply Hout. rewrite <- Ec, Hre, (proj2 (Z.eqb_eq _ 1)) by lia.
        split_and!; [|done|by rewrite dom_delete_L]. unfold destroyed_world. unfold hashed in Hr. by rewrite Hr.
  - destruct (Hkeep (slab_state s) (slab_idle_time s)) as [H1 H2].
    { intros Hst. pose proof (so_idle _ _ _ _ (ci_slab_at _ _ _ _ _ _ _ I HF Hs) Hst). lia. }
    eexists _, _, _. split; [exact Hrun|]. do 2 (split; [done|]).
    apply Hout. rewrite (proj2 (Z.eqb_neq _ 1)) by lia. split_and!; try done.
    eexists. by split; [unfold released; simpl; by rewrite lookup_insert_eq|].
Qed.

Lemma layer_free q w c F buf :
  layer q w c F -> allocated c F buf ->
  exists w' c' F', umem_slab_free w c buf = Ok (w', c') /\ layer q w' c' F' /\
    (forall x, allocated c' F' x <-> allocated c F x /\ x <> buf).
Proof.
  intros Hly Hal. destruct (layer_free_full q w c F buf Hly Hal) as (w' & c' & F' & ? & ? & ? & _).
  by exists w', c', F'.
Qed.
End layer.
