(* ===== verification/SlabProps.v ===== *)
(** * The slab layer: properties

    The claims about the slab layer, with witnesses on a cache of 512-byte
    objects over an arena that hands out pages in order. *)
From S2P Require Import Prelude Machine SlabModel SlabWf SlabInv SlabFree SlabFreeOp SlabGrow SlabSpec.

(** ** A concrete cache *)

(** An arena that hands out addresses in order up to a limit, and keeps what
    is given back. *)
Definition page_limit : Z := 0x100000.
#[export] Instance page_env : slab_env Z := {|
  env_vmem_alloc w n := if w + n <=? page_limit then (w + n, w) else (w, 0);
  env_vmem_free w a n := w;
  env_slab_alloc w fl := (w + 4096, w);
  env_slab_free w sp := w;
  env_bufctl_alloc w fl := (w + 4096, w);
  env_bufctl_free w b := w;
  env_table_alloc w n := (w, 8);
  env_table_free w t n := w;
  env_decommit w a n := w;
  env_error w e buf := Ok w;
|}.

Definition demo_scfg (flags : Z) : slab_cfg :=
  SlabCfg 64 128 false 512 16 512 4096 504 512 0 0 0 0 9 flags 0 4096 0x5a5a5a5a5a5a5a5b true 30 10.
Definition null_slab : umem_slab := Slab 64 0 0 (-1) 0 0 0.
Definition demo_cache (flags : Z) : cache :=
  Cache (demo_scfg flags) 0 {[128 := null_slab]} [128] 128 0 (replicate 64 0) 63 ∅ ∅
    (Stats 0 0 0 0 0 0 0 0 0).

Lemma demo_geom flags :
  has flags UMF_BUFTAG = false -> has flags UMF_HASH = false -> geom (demo_scfg flags) 12.
Proof.
  intros Ht Hh. constructor; simpl; try done; try lia; rewrite ?Hh.
  - by exists 64.
  - by exists 63.
  - by rewrite Ht.
  - split; [lia|]. by exists 2.
  - split; [lia|]. split; [lia|]. by exists 0.
  - done.
Qed.

Lemma demo_cache_inv : cache_inv 12 (demo_cache 0) ∅ [].
Proof.
  constructor.
  - by apply demo_geom.
  - exists [], []. constructor; simpl; try done; try set_solver.
    + repeat constructor; set_solver.
    + intros sp. split; [set_solver|]. by intros [? ?].
  - done.
  - intros ? ? ? ? ? [? ?]. done.
  - done.
  - done.
  - simpl. split; [lia|]. by exists 0.
Qed.

#[export] Instance page_source flags : slab_source Z (demo_scfg flags).
Proof.
  refine {| src_ok w bs := 4096 <= w /\ (4096 | w) /\ forall x, x ∈ bs -> x + 4096 <= w |}; simpl.
  - intros w bs w' a (H1 & H2 & H3). destruct (Z.leb_spec (w + 4096) page_limit) as [Hle|Hgt];
      intros [= <- <-]; [right|left; done].
    unfold page_limit in Hle. split_and!; try lia; [done|..|].
    + intros x Hx. right. by apply H3.
    + apply Z.divide_add_r; [done|]. by exists 1.
    + intros x Hx. apply elem_of_cons in Hx as [->|Hx]; [lia|]. specialize (H3 x Hx). lia.
  - intros w bs a (H1 & H2 & H3) Ha. split_and!; try done. intros x Hx. apply H3.
    by apply list_elem_of_filter in Hx as [_ Hx].
Defined.

Lemma demo_layer : layer (f := demo_scfg 0) 12 4096 (demo_cache 0) ∅.
Proof.
  constructor; try done; [apply demo_cache_inv|].
  exists []. split; [|by intros ? ? [? ?]]. simpl. split_and!; [lia|by exists 1|set_solver].
Qed.

(** ** Refinement *)

(** C6: Allocating from the slab layer of a raw cache, over any arena that
    honours [slab_source], ends and keeps the layer well formed, with one of
    three outcomes.  A slab with a free buffer whose pages are not being given
    back serves: the arena is not asked, no slab appears, and the buffers out
    gain exactly one of that slab's chunks, which was not out.  Otherwise every
    slab is full or waits for its pages to be given back, and the arena is asked
    for one block: when it has none the answer is NULL and the buffers out are
    as before; when it gives a block, the cache gains exactly one slab and the
    buffers out exactly one buffer, which lies in that block. *)
Theorem slab_alloc_refines {W} {env : slab_env W} {f : slab_cfg} {src : slab_source W f}
    (q : Z) (w : W) (c : cache) (F : gmap Z (list Z)) (umflag : Z) :
  layer q w c F ->
  exists w' c' p F', umem_slab_alloc w c umflag = Ok (w', c', p) /\ layer q w' c' F' /\
    alloc_outcome (f := f) w c F w' c' p F'.
Proof. apply layer_alloc_full. Qed.

(** The empty cache grows while the arena has a block, and answers NULL when it
    has none. *)
Lemma demo_layer_at w : 4096 <= w -> (4096 | w) -> layer (f := demo_scfg 0) 12 w (demo_cache 0) ∅.
Proof.
  intros H1 H2. constructor; try done; [apply demo_cache_inv|].
  exists []. split; [|by intros ? ? [? ?]]. simpl. split_and!; [done|done|set_solver].
Qed.

Lemma slab_alloc_refines_witness :
  (exists w' c' p F', umem_slab_alloc 4096 (demo_cache 0) 0 = Ok (w', c', p) /\
    layer (f := demo_scfg 0) 12 w' c' F' /\ alloc_outcome (f := demo_scfg 0) 4096 (demo_cache 0) ∅ w' c' p F') /\
  (exists w' c' p F', umem_slab_alloc page_limit (demo_cache 0) 0 = Ok (w', c', p) /\
    layer (f := demo_scfg 0) 12 w' c' F' /\ alloc_outcome (f := demo_scfg 0) page_limit (demo_cache 0) ∅ w' c' p F') /\
  match umem_slab_alloc 4096 (demo_cache 0) 0, umem_slab_alloc page_limit (demo_cache 0) 0 with
  | Ok (_, _, p), Ok (_, _, p') => (p, p') | _, _ => (0, 0) end = (4096 + 6 * 512, 0).
Proof.
  split; [|split].
  - exact (slab_alloc_refines 12 4096 (demo_cache 0) ∅ 0 demo_layer).
  - apply (slab_alloc_refines 12 page_limit (demo_cache 0) ∅ 0). apply demo_layer_at.
    + unfold page_limit. lia.
    + exists 256. reflexivity.
  - by vm_compute.
Defined.

(** The demo cache after one allocation: arena, cache and buffer. *)
Definition demo_out : Z * cache * Z :=
  match umem_slab_alloc 4096 (demo_cache 0) 0 with
  | Ok r => r | Panic _ => (0, demo_cache 0, 0) end.

Lemma demo_out_layer :
  exists F, layer (f := demo_scfg 0) 12 demo_out.1.1 demo_out.1.2 F /\
    allocated demo_out.1.2 F demo_out.2.
Proof.
  assert (Hp : demo_out.2 <> 0) by (by vm_compute).
  destruct (layer_alloc (f := demo_scfg 0) 12 4096 (demo_cache 0) ∅ 0 demo_layer)
    as (w' & c' & p & F' & E & Hl & Hc).
  assert (Ed : demo_out = (w', c', p)) by (unfold demo_out; rewrite E; reflexivity).
  rewrite Ed in Hp |- *. cbn [fst snd] in Hp |- *. clear E Ed.
  destruct Hc as [[H0 _]|(_ & _ & Hx)]; [destruct (Hp H0)|].
  exists F'. split; [exact Hl|]. apply Hx. right. reflexivity.
Qed.

(** C7: Freeing a buffer that is out ends, keeps the layer well formed and
    removes exactly that buffer from the set of buffers that are out.  Its slab
    loses one reference; when it was the last buffer out of the slab, the slab
    is marked dirty and kept, the arena untouched, if reclaiming is enabled, and
    otherwise the slab leaves the cache and its whole block is returned to the
    arena. *)
Theorem slab_free_refines {W} {env : slab_env W} {f : slab_cfg} {src : slab_source W f}
    (q : Z) (w : W) (c : cache) (F : gmap Z (list Z)) (buf : Z) :
  layer q w c F -> allocated c F buf ->
  exists w' c' F', umem_slab_free w c buf = Ok (w', c') /\ layer q w' c' F' /\
    (forall x, allocated c' F' x <-> allocated c F x /\ x <> buf) /\
    free_outcome (f := f) w c F buf w' c' F'.
Proof. apply layer_free_full. Qed.

Lemma slab_free_refines_witness :
  exists F, allocated demo_out.1.2 F demo_out.2 /\
  exists w' c' F', umem_slab_free demo_out.1.1 demo_out.1.2 demo_out.2 = Ok (w', c') /\
    layer (f := demo_scfg 0) 12 w' c' F' /\
    (forall x, allocated c' F' x <-> allocated demo_out.1.2 F x /\ x <> demo_out.2) /\
    free_outcome (f := demo_scfg 0) demo_out.1.1 demo_out.1.2 F demo_out.2 w' c' F'.
Proof.
  destruct demo_out_layer as (F & Hl & Ha). exists F. split; [exact Ha|].
  exact (slab_free_refines 12 _ _ F _ Hl Ha).
Defined.

(** ** Corrupted links *)

Lemma link_word c b :
  is_word (umem_link_cookie (cfg c)) -> is_word b -> is_word (ld (mem c) b) -> is_word (link_of c b).
Proof.
  intros H1 H2 H3. unfold link_of, UMEM_LINK_MANGLE. apply lxor_word; [by apply lxor_word|].
  unfold is_word in *. rewrite Z.shiftr_div_pow2 by lia. split; [apply Z.div_pos; lia|].
  apply Z.div_lt_upper_bound; lia.
Qed.

(** Whatever the client wrote over the free buffers of a raw cache, the
    slab layer hands out the start of a chunk of the slab or reports the
    corruption and hands out nothing, and the head it leaves in the slab is
    NULL or the link of one of the slab's own chunks: a forged link never
    becomes an allocation elsewhere.  A link that reads as NULL in a slab with
    more free buffers stops the program at the assertion that the slab is full. *)
Theorem slab_links_safe {W} {env : slab_env W} (q : Z) (w : W) (c : cache) (sp : Z) (s : umem_slab) :
  geom (cfg c) q -> hashed c = false -> slab_geom (cfg c) sp s -> slabs c !! sp = Some s ->
  bufctl_at c sp s (slab_head s) -> is_word (umem_link_cookie (cfg c)) ->
  (forall a, is_word (ld (mem c) a)) -> slab_refcnt s < slab_chunks s ->
  (exists badbuf, is_chunk (cfg c) s badbuf /\
     slab_take w c sp = (do w' <- env_error w UMERR_BADADDR badbuf;
       Ok (w', set_freelist (slab_next c sp)
                 (upd_slab sp (fun s => set_head 0 (set_state SLAB_ACTIVE
                    (if slab_state s =? SLAB_ACTIVE then slab_idle_time s else 0) s)) c), 0))) \/
  (exists c' p s', slab_take w c sp = Ok (w, c', p) /\ is_chunk (cfg c) s p /\
     slabs c' !! sp = Some s' /\ (slab_head s' = 0 \/ bufctl_at c sp s (slab_head s'))) \/
  (link_of c (slab_head s) = 0 /\ slab_refcnt s + 1 <> slab_chunks s /\
     slab_take w c sp = Panic "sp->slab_refcnt == sp->slab_chunks").
Proof.
  intros G Hr Hg Hs [buf Hb] Hck Hmem Hrc. unfold slab_take. rewrite Hs.
  set (s1 := if slab_state s =? SLAB_ACTIVE then s else _).
  assert (E1 : slab_head s1 = slab_head s) by (unfold s1; by destruct (_ =? _)).
  assert (E3 : slab_refcnt s1 = slab_refcnt s /\ slab_chunks s1 = slab_chunks s /\ slab_base s1 = slab_base s)
    by (unfold s1; by destruct (_ =? _)). destruct E3 as (E3 & E4 & E5).
  rewrite E1, E3, E4, (proj2 (Z.leb_le _ _)) by lia. cbn [ASSERT res_bind].
  pose proof Hb as (Hc & _ & _ & Hbw & _).
  assert (Hbuf : UMEM_BUF (cfg c) (slab_head s) = buf) by (by apply (raw_buf G sp s)).
  assert (Hv : umem_slab_link_valid (cfg c) s1 (link_of c (slab_head s)) =
               umem_slab_link_valid (cfg c) s (link_of c (slab_head s))).
  { unfold umem_slab_link_valid, UMEM_SLAB_CHUNK, UMEM_SLAB_MEMBER, s1. by destruct (_ =? _). }
  rewrite Hv. destruct (umem_slab_link_valid _ s _) eqn:Hval; cbn [negb].
  - right. apply (link_valid_raw G sp s) in Hval; [|done..|by apply link_word].
    set (s2 := set_head (link_of c (slab_head s)) (set_refcnt (slab_refcnt s + 1) s1)).
    change (slab_refcnt s2) with (slab_refcnt s + 1). change (slab_chunks s2) with (slab_chunks s1).
    set (c2 := if _ =? 0 then _ else _).
    assert (E2 : cfg c2 = cfg c /\ slabs c2 = <[sp := s2]> (slabs c))
      by (unfold c2; destruct (link_of c (slab_head s) =? 0); done).
    destruct E2 as [Ec2 Es2]. replace (hashed c2) with false by (unfold hashed in *; by rewrite Ec2).
    assert (Hm : UMEM_SLAB_MEMBER (cfg c) s2 buf = true).
    { transitivity (UMEM_SLAB_MEMBER (cfg c) s buf); [unfold UMEM_SLAB_MEMBER; simpl; by rewrite E4, E5|].
      by apply (chunk_member G sp). }
    rewrite E4, Ec2, Hbuf, Hm. unfold c2.
    destruct (Z.eqb_spec (link_of c (slab_head s)) 0) as [El|El]; cbn [negb orb].
    { destruct (Z.eqb_spec (slab_refcnt s + 1) (slab_chunks s)) as [|Hne]; [|by right].
      left. cbn [ASSERT res_bind]. eexists _, buf, s2.
      split_and!; [done..|by apply lookup_insert_eq|by left]. }
    left. cbn [ASSERT res_bind]. eexists _, buf, s2. split_and!; [done..|by apply lookup_insert_eq|done].
  - left. exists buf. split; [done|]. rewrite Hr, Hbuf.
    replace (<[sp := set_head 0 s1]> (slabs c)) with
      (alter (fun s => set_head 0 (set_state SLAB_ACTIVE
         (if slab_state s =? SLAB_ACTIVE then slab_idle_time s else 0) s)) sp (slabs c)).
    + done.
    + apply map_eq. intros x. destruct (decide (x = sp)) as [->|Hne].
      * rewrite lookup_alter_eq, lookup_insert_eq, Hs. simpl. unfold s1.
        destruct (Z.eqb_spec (slab_state s) SLAB_ACTIVE) as [Ha|]; [|done].
        f_equal. destruct s; simpl in *. by subst.
      * by rewrite lookup_alter_ne, lookup_insert_ne.
Qed.

(** The demo cache after a write over the link word of the next free buffer. *)
Definition forged : cache :=
  set_mem (st (mem demo_out.1.2) (4096 + 5 * 512 + 504) 0xdead) demo_out.1.2.

(** A memory whose cells all hold words. *)
Lemma mem_words (m : memory) :
  forallb (fun p => (0 <=? p.2) && (p.2 <? 2 ^ 64)) (map_to_list (m : gmap Z Z)) = true ->
  forall a, is_word (ld m a).
Proof.
  intros Hall a. unfold ld, memory in *. destruct (m !! a) as [v|] eqn:E; [|by split].
  rewrite forallb_forall in Hall. specialize (Hall (a, v)). simpl in Hall.
  apply andb_prop in Hall as [H1 H2]; [simpl; unfold is_word; lia|].
  apply list_elem_of_In, elem_of_map_to_list. exact E.
Qed.

Lemma forged_cfg : cfg forged = demo_scfg 0.
Proof. vm_compute. reflexivity. Qed.

Lemma slab_links_safe_witness :
  (exists badbuf c', is_word badbuf /\ slab_take 8192 forged (8192 - 72) = Ok (8192, c', 0)) /\
  ((exists badbuf, is_chunk (cfg forged) (Slab 64 4096 (4096 + 5 * 512 + 504) 1 7 0 0) badbuf /\
     slab_take 8192 forged (8192 - 72) = (do w' <- env_error 8192 UMERR_BADADDR badbuf;
       Ok (w', set_freelist (slab_next forged (8192 - 72))
                 (upd_slab (8192 - 72) (fun s => set_head 0 (set_state SLAB_ACTIVE
                    (if slab_state s =? SLAB_ACTIVE then slab_idle_time s else 0) s)) forged), 0))) \/
  (exists c' p s', slab_take 8192 forged (8192 - 72) = Ok (8192, c', p) /\
     is_chunk (cfg forged) (Slab 64 4096 (4096 + 5 * 512 + 504) 1 7 0 0) p /\
     slabs c' !! (8192 - 72) = Some s' /\
     (slab_head s' = 0 \/
      bufctl_at forged (8192 - 72) (Slab 64 4096 (4096 + 5 * 512 + 504) 1 7 0 0) (slab_head s'))) \/
  (link_of forged (slab_head (Slab 64 4096 (4096 + 5 * 512 + 504) 1 7 0 0)) = 0 /\
     slab_refcnt (Slab 64 4096 (4096 + 5 * 512 + 504) 1 7 0 0) + 1 <>
       slab_chunks (Slab 64 4096 (4096 + 5 * 512 + 504) 1 7 0 0) /\
     slab_take 8192 forged (8192 - 72) = Panic "sp->slab_refcnt == sp->slab_chunks")).
Proof.
  split; [exists 0; eexists; split; [split; [lia|reflexivity]|vm_compute; reflexivity]|].
  apply (slab_links_safe 12 8192 forged (8192 - 72)).
  - rewrite forged_cfg. apply demo_geom; reflexivity.
  - unfold hashed. rewrite forged_cfg. reflexivity.
  - rewrite forged_cfg. constructor; vm_compute; (lia || (intros; split; [reflexivity|discriminate]) ||
      (exists 512; reflexivity) || discriminate || reflexivity).
  - vm_compute. reflexivity.
  - exists (4096 + 5 * 512). unfold bufctl_for, is_chunk, hashed. rewrite forged_cfg.
    split; [exists 5; vm_compute; split; [split; [discriminate|reflexivity]|reflexivity]|].
    split; [discriminate|]. split; [exists 895; reflexivity|].
    split; [split; [discriminate|reflexivity]|reflexivity].
  - rewrite forged_cfg. split; [discriminate|reflexivity].
  - apply mem_words. vm_compute. reflexivity.
  - simpl. lia.
Defined.

(** A slab whose freelist was cut at a corrupted link has no free buffer left
    and is not full: the next free of one of its buffers stops the program at
    the assertion that a slab without a free buffer is full. *)
Theorem truncated_slab_free {W} {env : slab_env W} (q : Z) (w : W) (c : cache) (sp buf : Z) (s : umem_slab) :
  geom (cfg c) q -> hashed c = false -> slab_geom (cfg c) sp s -> slabs c !! sp = Some s ->
  is_chunk (cfg c) s buf -> slab_head s = 0 -> slab_refcnt s <> slab_chunks s ->
  umem_slab_free w c buf = Panic "sp->slab_refcnt == sp->slab_chunks".
Proof.
  intros G Hr Hg Hs Hc Hh Hrc. pose proof Hc as (i & Hi & E). pose proof (chunk_word G sp s i Hg Hi) as Hw.
  destruct (raw_bufctl G sp s buf Hr Hg Hc) as [Eb (_ & Hb0 & _)].
  unfold umem_slab_free. rewrite (proj2 (Z.eqb_neq buf 0)) by (subst buf; lia). cbn [negb ASSERT res_bind].
  unfold slab_lookup. replace (hashed (set_stats _ c)) with false by done. cbn -[Z.eqb].
  rewrite (umem_slab_spec G sp s buf Hr Hg Hc), Hs, Eb, (proj2 (Z.eqb_neq _ _) Hb0).
  rewrite (sg_cache _ _ _ Hg), Z.eqb_refl.
  rewrite (proj2 (slab_chunk_spec G sp s buf Hg ltac:(unfold is_word; subst buf; lia)) Hc). cbn [negb orb].
  by rewrite Hh, (proj2 (Z.eqb_neq _ _) Hrc).
Qed.

(** It happens: a buffer of the demo cache is out when the corrupted link is
    reported, and its free stops the program. *)
Theorem truncated_slab_stops :
  match slab_take 8192 forged (8192 - 72) with
  | Ok (w, c, p) => p = 0 /\ umem_slab_free w c 0x1c00 = Panic "sp->slab_refcnt == sp->slab_chunks"
  | Panic _ => False
  end.
Proof. vm_compute. split; reflexivity. Qed.
