(* ===== verification/SlabReclaim.v ===== *)
(** * The slab layer: giving idle slabs back

    The passes of the update thread ([umem_cache_reclaim_pages]) and of
    [umem_cache_destroy] ([umem_cache_drain_slabs]).  Both walk the ring once,
    unlink the slabs they will destroy and destroy them after the walk; between
    the two the detached slabs [D] are the business of the pass alone. *)
From S2P Require Import Prelude Machine SlabModel SlabWf SlabInv SlabFree SlabFreeOp SlabSpec.

(** ** Detached slabs *)

(** The cache is well formed on [F]; the slabs of [D] are off the ring, idle,
    and share no bufctl with it or with one another. *)
Record detached (q : Z) (c : cache) (F : gmap Z (list Z)) (L : list (list Z))
    (D : gmap Z (list Z)) : Prop := Detached {
  dt_inv : cache_inv q c F L;
  dt_off : forall sp fl, D !! sp = Some fl -> F !! sp = None /\ sp <> cache_nullslab (cfg c);
  dt_slab : forall sp fl, D !! sp = Some fl ->
    exists s, slabs c !! sp = Some s /\ slab_ok c sp s fl;
  dt_dead : hashed c = true -> forall sp fl x, D !! sp = Some fl -> x ∈ fl -> ~ live F L x;
  dt_sep : forall sp sp' fl fl' x, D !! sp = Some fl -> D !! sp' = Some fl' ->
    x ∈ fl -> x ∈ fl' -> sp = sp';
}.

Lemma live_delete sp F L x : live (delete sp F) L x -> live F L x.
Proof.
  intros [(? & ? & Hy & ?)|?]; [|by right]. apply lookup_delete_Some in Hy as [_ Hy]. left. eauto.
Qed.

Lemma ring_not_null q c F L sp fl : cache_inv q c F L -> F !! sp = Some fl -> sp <> cache_nullslab (cfg c).
Proof.
  intros I HF ->. destruct (ci_ring _ _ _ _ I) as (A & B & R).
  pose proof (proj2 (ro_dom _ _ _ _ R _) (ex_intro _ _ HF)) as Hin.
  pose proof (ro_nodup _ _ _ _ R) as Hnd. rewrite (ro_ring _ _ _ _ R), app_assoc in Hnd.
  apply NoDup_app in Hnd as (_ & Hnd & _). apply (Hnd _ Hin). set_solver.
Qed.

(** Ageing an idle slab: only its state and idle time change. *)
Lemma state_inv q c F L sp s fl v idle :
  cache_inv q c F L -> F !! sp = Some fl -> slabs c !! sp = Some s -> slab_refcnt s = 0 ->
  (dropped s -> v = SLAB_RECLAIMING \/ v = SLAB_CLEAN) ->
  cache_inv q (upd_slab sp (set_state v idle) c) F L.
Proof.
  intros I HF Hs Hz Hv. pose proof (ring_not_null _ _ _ _ _ _ I HF) as Hn.
  assert (Hsl : forall x sx, slabs (upd_slab sp (set_state v idle) c) !! x = Some sx ->
    exists sx0, slabs c !! x = Some sx0 /\ slab_base sx = slab_base sx0 /\ slab_chunks sx = slab_chunks sx0 /\
      (x <> sp -> sx = sx0) /\ (x = sp -> sx = set_state v idle sx0)).
  { intros x sx. unfold upd_slab. simpl. destruct (decide (x = sp)) as [->|Hne].
    - rewrite lookup_alter_eq, Hs. simpl. intros [= <-]. exists s. by split_and!.
    - rewrite lookup_alter_ne by done. intros H. exists sx. by split_and!. }
  destruct I as [H1 (A & B & [R1 R2 R3 R4 R5 R6 R7 R8]) H3 H4 H5 H6 H7]. constructor; try done.
  - exists A, B. constructor; try done.
    + intros x sx flx HA Hsx HFx. destruct (Hsl _ _ Hsx) as (s0 & Hs0 & _ & _ & E1 & E2).
      destruct (R5 x s0 flx HA Hs0 HFx) as [|Hd]; [by left|right].
      destruct (decide (x = sp)) as [->|Hne]; [|by rewrite (E1 Hne)].
      rewrite (E2 eq_refl). rewrite Hs0 in Hs. injection Hs as <-. by split; [|apply Hv].
    + destruct R7 as (sn & Hsn & Hh & Hcn). exists sn. split; [|done]. unfold upd_slab. simpl.
      by rewrite lookup_alter_ne by done.
  - intros x flx HFx. destruct (H3 x flx HFx) as (s0 & Hs0 & Hok).
    destruct (decide (x = sp)) as [->|Hne].
    + exists (set_state v idle s0). unfold upd_slab. simpl. rewrite lookup_alter_eq, Hs0. split; [done|].
      rewrite Hs0 in Hs. injection Hs as <-. destruct Hok as [[? ? ? ? ? ? ?] ? ? K1 ? ? ?]. by constructor.
    + exists s0. unfold upd_slab. simpl. rewrite lookup_alter_ne by done. split; [done|].
      by eapply (slab_ok_frame c).
  - intros x x' sx sx' Hne Hx Hx' Hsx Hsx'.
    destruct (Hsl _ _ Hsx) as (s0 & Hs0 & Eb & _), (Hsl _ _ Hsx') as (s0' & Hs0' & Eb' & _).
    unfold slab_start. rewrite Eb, Eb'. by apply (H4 x x').
  - intros Hh. destruct (H6 Hh) as [h1 h2 h3 h4 h5 h6]. constructor; try done.
    intros h l b Hl Hb. destruct (h4 h l b Hl Hb) as (sp1 & s1 & fl1 & buf1 & HF1 & Hs1 & Hf1 & E).
    destruct (decide (sp1 = sp)) as [->|Hne].
    + exists sp, (set_state v idle s1), fl1, buf1. unfold upd_slab. simpl. rewrite lookup_alter_eq, Hs1. done.
    + exists sp1, s1, fl1, buf1. unfold upd_slab. simpl. rewrite lookup_alter_ne by done. done.
Qed.

Section detached.
Context {q : Z} {c : cache} {F : gmap Z (list Z)} {L : list (list Z)} {D : gmap Z (list Z)}.
Hypothesis HD : detached q c F L D.
Context {sp : Z} {s : umem_slab} {fl : list Z}.

Lemma detached_state v idle :
  F !! sp = Some fl -> slabs c !! sp = Some s -> slab_refcnt s = 0 ->
  (dropped s -> v = SLAB_RECLAIMING \/ v = SLAB_CLEAN) ->
  detached q (upd_slab sp (set_state v idle) c) F L D.
Proof using HD.
  intros HF Hs Hz Hv. destruct HD as [I D1 D2 D3 D4]. constructor; try done.
  - by eapply state_inv.
  - intros x flx Hx. destruct (D2 x flx Hx) as (sx & Hsx & Hok). exists sx.
    assert (x <> sp) by (intros ->; destruct (D1 _ _ Hx); congruence).
    unfold upd_slab. simpl. rewrite lookup_alter_ne by done. split; [done|]. by eapply (slab_ok_frame c).
Qed.

(** Unlinking an idle slab detaches it. *)
Lemma detached_retire :
  F !! sp = Some fl -> slabs c !! sp = Some s -> slab_refcnt s = 0 ->
  detached q (slab_retire sp c) (delete sp F) L (<[sp := fl]> D).
Proof using HD.
  intros HF Hs Hz. destruct HD as [I D1 D2 D3 D4].
  pose proof (ci_slab_at _ _ _ _ _ _ _ I HF Hs) as Hok.
  assert (Hfr : forall x sx flx, slab_ok c x sx flx -> slab_ok (slab_retire sp c) x sx flx)
    by (intros; by eapply (slab_ok_frame c)).
  constructor.
  - by eapply retire_inv.
  - intros x flx Hx. apply lookup_insert_Some in Hx as [[<- <-]|[Hne Hx]].
    + split; [apply lookup_delete_eq|]. exact (ring_not_null _ _ _ _ _ _ I HF).
    + destruct (D1 _ _ Hx). rewrite lookup_delete_ne by done. done.
  - intros x flx Hx. apply lookup_insert_Some in Hx as [[<- <-]|[Hne Hx]]; [by eauto|].
    destruct (D2 _ _ Hx) as (sx & Hsx & ?). exists sx. eauto.
  - intros Hh x flx b Hx Hb Hlv. apply lookup_insert_Some in Hx as [[<- <-]|[Hne Hx]].
    + destruct Hlv as [(x' & flx' & Hx' & Hb')|(h & l & Hl & Hb')].
      * apply lookup_delete_Some in Hx' as [Hne Hx']. apply Hne.
        by eapply (ci_sep _ _ _ _ I).
      * by apply (ho_out _ _ _ (ci_hash _ _ _ _ I Hh) _ _ _ _ _ Hl Hb' HF).
    + apply (D3 Hh _ _ _ Hx Hb). by eapply live_delete.
  - assert (Hcross : forall x flx b, D !! x = Some flx -> b ∈ flx -> b ∈ fl -> hashed c = false -> x = sp).
    { intros x flx b Hx Hb Hb' Hh. destruct (D2 _ _ Hx) as (sx & Hsx & Hokx).
      pose proof (so_bufctls _ _ _ _ Hokx) as Ax. pose proof (so_bufctls _ _ _ _ Hok) as As.
      rewrite Forall_forall in Ax, As. destruct (Ax b Hb) as [bx Hbx], (As b Hb') as [bs Hbs].
      pose proof (buf_of_for _ _ _ _ _ Hbx) as E1. pose proof (buf_of_for _ _ _ _ _ Hbs) as E2.
      rewrite E1 in E2. subst bs. pose proof (ci_geom _ _ _ _ I) as G.
      rewrite <- (umem_slab_spec G x sx bx Hh (so_geom _ _ _ _ Hokx) (proj1 Hbx)).
      by rewrite (umem_slab_spec G sp s bx Hh (so_geom _ _ _ _ Hok) (proj1 Hbs)). }
    intros x x' flx flx' b Hx Hx' Hb Hb'.
    apply lookup_insert_Some in Hx as [[<- <-]|[Hne Hx]], Hx' as [[<- <-]|[Hne' Hx']]; [done| | |by eauto].
    + destruct (hashed c) eqn:Hh; [|by symmetry; eapply Hcross]. exfalso. apply (D3 eq_refl _ _ _ Hx' Hb'). left. eauto.
    + destruct (hashed c) eqn:Hh; [|by eapply Hcross]. exfalso. apply (D3 eq_refl _ _ _ Hx Hb). left. eauto.
Qed.
End detached.

(** ** Destroying what was detached *)

Section destroy.
Context {W : Type} {env : slab_env W}.

(** The world after the slabs of [dl] went back to their sources, in order. *)
Definition destroyed_all (f : slab_cfg) (m : gmap Z umem_slab) (D : gmap Z (list Z)) (dl : list Z) (w : W) : W :=
  foldl (fun w sp => match m !! sp, D !! sp with
                     | Some s, Some fl => destroyed_world w f sp s fl
                     | _, _ => w
                     end) w dl.

Lemma destroyed_all_ext f m m' D D' dl w :
  (forall x, x ∈ dl -> m !! x = m' !! x /\ D !! x = D' !! x) ->
  destroyed_all f m D dl w = destroyed_all f m' D' dl w.
Proof.
  revert w. induction dl as [|x dl IH]; intros w H; simpl; [done|].
  destruct (H x ltac:(set_solver)) as [-> ->]. apply IH. set_solver.
Qed.

Lemma detached_destroy q w c F L D sp fl s :
  detached q c F L D -> D !! sp = Some fl -> slabs c !! sp = Some s ->
  exists c', umem_slab_destroy w c sp = Ok (destroyed_world w (cfg c) sp s fl, c') /\
    detached q c' F L (delete sp D) /\ cfg c' = cfg c /\ ring c' = ring c /\ cache_freelist c' = cache_freelist c /\
    slabs c' !! sp = None /\ (forall x, x <> sp -> slabs c' !! x = slabs c !! x) /\
    (forall x, x ∉ fl -> bufctls c' !! x = bufctls c !! x).
Proof.
  intros [I D1 D2 D3 D4] HD Hs. destruct (D1 _ _ HD) as [HF Hn].
  destruct (D2 _ _ HD) as (s' & Hs' & Hok). rewrite Hs in Hs'. injection Hs' as <-.
  destruct (slab_destroy_run q w c F L sp s fl I HF Hn Hs Hok) as
    (c' & Hrun & I' & Ec & Er & Ef & Hnone & Em & Es & Eb); [intros Hh x Hx; by eapply D3|].
  exists c'. split; [done|]. split_and!; try done. constructor; try done.
  - intros x flx Hx. apply lookup_delete_Some in Hx as [_ Hx]. rewrite Ec. by eapply D1.
  - intros x flx Hx. apply lookup_delete_Some in Hx as [Hne Hx].
    destruct (D2 _ _ Hx) as (sx & Hsx & Hokx). exists sx. rewrite Es by done. split; [done|].
    apply (slab_ok_frame c); try done; [|by rewrite Em].
    intros b Hb. apply Eb. intros Hb'. apply Hne. by eapply D4.
  - unfold hashed. rewrite Ec. intros Hh x flx b Hx. apply lookup_delete_Some in Hx as [_ Hx]. by eapply D3.
  - intros x x' flx flx' b Hx Hx'. apply lookup_delete_Some in Hx as [_ Hx]. apply lookup_delete_Some in Hx' as [_ Hx'].
    by eapply D4.
Qed.

Lemma slabs_destroy_run q dl w c F L D :
  detached q c F L D -> NoDup dl -> (forall x, x ∈ dl <-> is_Some (D !! x)) ->
  exists c', slabs_destroy dl w c = Ok (destroyed_all (cfg c) (slabs c) D dl w, c') /\
    cache_inv q c' F L /\ cfg c' = cfg c /\ ring c' = ring c /\ cache_freelist c' = cache_freelist c /\
    (forall x, x ∉ dl -> slabs c' !! x = slabs c !! x) /\
    (forall x, x ∈ dl -> slabs c' !! x = None) /\
    (forall sp fl x, F !! sp = Some fl -> x ∈ fl -> buf_of c' x = buf_of c x).
Proof.
  revert w c D. induction dl as [|sp dl IH]; intros w c D HD Hnd Hdl; simpl.
  - exists c. split; [done|]. split; [by destruct HD|]. split_and!; try done. set_solver.
  - apply NoDup_cons in Hnd as [Hsp Hnd]. destruct (proj1 (Hdl sp) ltac:(set_solver)) as [fl HDs].
    destruct (dt_slab _ _ _ _ _ HD _ _ HDs) as (s & Hs & Hok).
    destruct (detached_destroy q w c F L D sp fl s HD HDs Hs) as
      (c1 & -> & HD1 & Ec & Er & Ef & Hnone & Es & Eb). cbn [res_bind].
    destruct (IH (destroyed_world w (cfg c) sp s fl) c1 (delete sp D) HD1 Hnd) as
      (c' & Hrun & I' & Ec' & Er' & Ef' & Es' & Hn' & Ebo).
    { intros x. rewrite lookup_delete_is_Some, <- Hdl. set_solver. }
    exists c'. split.
    { rewrite Hrun, HDs, Hs, Ec. f_equal. f_equal. apply destroyed_all_ext.
      intros x Hx. assert (x <> sp) by congruence. split; [by apply Es|]. by rewrite lookup_delete_ne. }
    split_and!; try congruence.
    + intros x Hx. rewrite Es' by set_solver. apply Es. set_solver.
    + intros x Hx. apply elem_of_cons in Hx as [->|Hx]; [|by apply Hn']. by rewrite Es' by done.
    + intros x flx b Hx Hb. rewrite (Ebo x flx b Hx Hb). unfold buf_of, hashed. rewrite Ec.
      destruct (has _ UMF_HASH) eqn:Hh; [|done]. rewrite Eb; [done|]. intros Hin.
      apply (dt_dead _ _ _ _ _ HD Hh _ _ _ HDs Hin). left. eauto.
Qed.
End destroy.

(** ** The buffers that are out *)

(** Dropping idle slabs and ageing the others loses no buffer. *)
Lemma allocated_idle q c c' F F' L x :
  cache_inv q c F L -> cfg c' = cfg c ->
  (forall sp s fl, F !! sp = Some fl -> slabs c !! sp = Some s ->
     (F' !! sp = None /\ slab_refcnt s = 0) \/
     (F' !! sp = Some fl /\ exists s', slabs c' !! sp = Some s' /\ same_slab s s')) ->
  (forall sp, F !! sp = None -> F' !! sp = None) ->
  (forall sp fl y, F' !! sp = Some fl -> y ∈ fl -> buf_of c' y = buf_of c y) ->
  allocated c' F' x <-> allocated c F x.
Proof.
  intros I Ec Hsl Hd Hbo. split.
  - intros (sp & s' & fl & HF' & Hs' & Hc & Hx).
    destruct (F !! sp) as [fl0|] eqn:HF; [|rewrite Hd in HF'; done].
    destruct (ci_slab _ _ _ _ I _ _ HF) as (s & Hs & _).
    destruct (Hsl _ _ _ HF Hs) as [[E _]|(E & s1 & Hs1 & [E1 E2])]; [congruence|].
    rewrite HF' in E. injection E as <-. rewrite Hs' in Hs1. injection Hs1 as <-.
    exists sp, s, fl. split_and!; try done.
    + rewrite Ec in Hc. by eapply is_chunk_same, Hc.
    + intros y Hy. rewrite <- (Hbo sp fl y HF' Hy). by apply Hx.
  - intros (sp & s & fl & HF & Hs & Hc & Hx).
    destruct (Hsl _ _ _ HF Hs) as [[_ Hz]|(HF' & s' & Hs' & E)].
    + destruct (idle_all_free c q sp s fl x) as (b & Hb & Eb); try done.
      * apply (ci_geom _ _ _ _ I).
      * by eapply ci_slab_at.
      * intros b b' Hb Hb'. by eapply (free_inj I).
      * by destruct (Hx b Hb).
    + exists sp, s', fl. split_and!; try done.
      * rewrite Ec. by eapply is_chunk_same, Hc.
      * intros y Hy. rewrite (Hbo sp fl y HF' Hy). by apply Hx.
Qed.

(** ** The pass of the update thread *)

(** What the pass does with a slab: dirty for long enough, its pages are given
    back; clean for long enough, it is destroyed. *)
Definition idle_next (f : slab_cfg) (s : umem_slab) : Z := w32 (slab_idle_time s + umem_reap_interval f).
Definition ripe (f : slab_cfg) (s : umem_slab) : bool :=
  (slab_refcnt s =? 0) && (slab_state s =? SLAB_DIRTY) && (umem_reclaim_delay f <=? idle_next f s).
Definition expired (f : slab_cfg) (s : umem_slab) : bool :=
  (slab_refcnt s =? 0) && (slab_state s =? SLAB_CLEAN) && (w32 (umem_reclaim_delay f * 2) <=? idle_next f s).
Definition aged (f : slab_cfg) (s : umem_slab) : umem_slab :=
  if (slab_refcnt s =? 0) && ((slab_state s =? SLAB_DIRTY) || (slab_state s =? SLAB_CLEAN))
  then set_state (slab_state s) (idle_next f s) s else s.
Definition walk_state (f : slab_cfg) (s : umem_slab) : umem_slab :=
  if ripe f s then set_state SLAB_RECLAIMING (idle_next f s) s else aged f s.
(** The slab after the pass, if it is still there. *)
Definition fate (f : slab_cfg) (s : umem_slab) : option umem_slab :=
  if expired f s then None
  else Some (if ripe f s then set_state SLAB_CLEAN (idle_next f s) s else aged f s).

Definition sel (p : umem_slab -> bool) (m : gmap Z umem_slab) (l : list Z) : list Z :=
  List.filter (fun x => match m !! x with Some s => p s | None => false end) l.

Lemma elem_of_sel p m l x : x ∈ sel p m l <-> x ∈ l /\ exists s, m !! x = Some s /\ p s = true.
Proof.
  unfold sel. rewrite !list_elem_of_In, filter_In. destruct (m !! x) as [s|]; naive_solver.
Qed.
Lemma sel_ext p m m' l : (forall x, x ∈ l -> m !! x = m' !! x) -> sel p m l = sel p m' l.
Proof. intros H. apply filter_ext_in. intros x Hx. by rewrite (H x) by by apply list_elem_of_In. Qed.
Lemma NoDup_sel p m l : NoDup l -> NoDup (sel p m l).
Proof. rewrite !NoDup_ListNoDup. apply List.NoDup_filter. Qed.

(** One step of the walk, by what the slab is. *)
Lemma reclaim_one_run q c F L D rl dl sp s fl :
  detached q c F L D -> F !! sp = Some fl -> slabs c !! sp = Some s ->
  exists c', reclaim_one c rl dl sp =
      (c', if ripe (cfg c) s then sp :: rl else rl, if expired (cfg c) s then sp :: dl else dl) /\
    detached q c' (if expired (cfg c) s then delete sp F else F) L
      (if expired (cfg c) s then <[sp := fl]> D else D) /\
    cfg c' = cfg c /\ bufctls c' = bufctls c /\
    slabs c' !! sp = Some (walk_state (cfg c) s) /\ (forall x, x <> sp -> slabs c' !! x = slabs c !! x).
Proof.
  intros HD HF Hs.
  assert (Hup : forall v, slabs (upd_slab sp (set_state v (idle_next (cfg c) s)) c) !! sp =
                            Some (set_state v (idle_next (cfg c) s) s) /\
    forall x, x <> sp -> slabs (upd_slab sp (set_state v (idle_next (cfg c) s)) c) !! x = slabs c !! x).
  { intros v. unfold upd_slab. simpl. rewrite lookup_alter_eq, Hs. split; [done|].
    intros x Hx. by rewrite lookup_alter_ne. }
  unfold reclaim_one, walk_state, aged, ripe, expired. rewrite Hs. fold (idle_next (cfg c) s).
  destruct (Z.eqb_spec (slab_refcnt s) 0) as [Hz|Hz]; cbn [negb andb]; [|by exists c].
  destruct (Z.eqb_spec (slab_state s) SLAB_DIRTY) as [Hd|Hd]; cbn [orb andb].
  - rewrite Hd. cbn [Z.eqb SLAB_DIRTY SLAB_CLEAN Pos.eqb andb orb].
    assert (Hdd : forall v, dropped s -> v = SLAB_RECLAIMING \/ v = SLAB_CLEAN) by (intros v [_ [E|E]]; rewrite Hd in E; done).
    destruct (_ <=? _); eexists; (split; [reflexivity|]); (split; [eapply detached_state; eauto|]); split_and!; try apply Hup; done.
  - destruct (Z.eqb_spec (slab_state s) SLAB_CLEAN) as [Hc|Hc]; cbn [orb andb]; [|by exists c].
    rewrite Hc. change (cfg (upd_slab sp _ c)) with (cfg c).
    set (c1 := upd_slab sp (set_state SLAB_CLEAN _) c).
    assert (HD1 : detached q c1 F L D) by (eapply detached_state; eauto).
    destruct (Hup SLAB_CLEAN) as [H1 H2]. fold c1 in H1, H2.
    destruct (_ <=? _); (eexists; split; [reflexivity|]); [|by split_and!].
    split; [by eapply detached_retire|]. by split_and!.
Qed.

Lemma reclaim_walk_run q l c F L D rl dl :
  detached q c F L D -> NoDup l -> (forall x, x ∈ l -> is_Some (F !! x)) ->
  exists c' F' D', reclaim_walk l c rl dl =
      (c', reverse (sel (ripe (cfg c)) (slabs c) l) ++ rl, reverse (sel (expired (cfg c)) (slabs c) l) ++ dl) /\
    detached q c' F' L D' /\ cfg c' = cfg c /\ bufctls c' = bufctls c /\
    (forall x, x ∉ l -> slabs c' !! x = slabs c !! x /\ F' !! x = F !! x /\ D' !! x = D !! x) /\
    (forall x s fl, x ∈ l -> F !! x = Some fl -> slabs c !! x = Some s ->
       slabs c' !! x = Some (walk_state (cfg c) s) /\
       if expired (cfg c) s then F' !! x = None /\ D' !! x = Some fl
       else F' !! x = Some fl /\ D' !! x = D !! x).
Proof.
  revert c F D rl dl. induction l as [|sp l IH]; intros c F D rl dl HD Hnd HF; simpl.
  - exists c, F, D. split; [done|]. split_and!; try done. set_solver.
  - apply NoDup_cons in Hnd as [Hsp Hnd]. destruct (HF sp ltac:(set_solver)) as [fl HFs].
    destruct (ci_slab _ _ _ _ (dt_inv _ _ _ _ _ HD) _ _ HFs) as (s & Hs & _).
    destruct (reclaim_one_run q c F L D rl dl sp s fl HD HFs Hs) as (c1 & -> & HD1 & Ec & Eb & Es & Eo).
    assert (Hl : forall x, x ∈ l -> x <> sp) by (intros x Hx ->; done).
    destruct (IH c1 _ _ (if ripe (cfg c) s then sp :: rl else rl) (if expired (cfg c) s then sp :: dl else dl) HD1 Hnd)
      as (c' & F' & D' & -> & HD' & Ec' & Eb' & Hout & Hin).
    { intros x Hx. destruct (expired _ s); [|apply HF; set_solver]. rewrite lookup_delete_ne by (symmetry; by apply Hl).
      apply HF. set_solver. }
    rewrite Ec, !(sel_ext _ (slabs c1) (slabs c)) by (intros x Hx; apply Eo; auto).
    exists c', F', D'. split.
    { rewrite Hs. destruct (ripe (cfg c) s), (expired (cfg c) s); rewrite ?reverse_cons, <- ?app_assoc; done. }
    split_and!; try congruence.
    + intros x Hx. apply not_elem_of_cons in Hx as [Hne Hx]. destruct (Hout x Hx) as (E1 & E2 & E3).
      rewrite E1, E2, E3, Eo by done. destruct (expired _ s); [|done].
      by rewrite lookup_delete_ne, lookup_insert_ne by done.
    + intros x sx flx Hx HFx Hsx. apply elem_of_cons in Hx as [->|Hx].
      * destruct (Hout sp Hsp) as (E1 & E2 & E3). rewrite E1, E2, E3, Es. rewrite Hs in Hsx. injection Hsx as <-.
        rewrite HFs in HFx. injection HFx as <-. split; [done|].
        destruct (expired _ s); [|done]. by rewrite lookup_delete_eq, lookup_insert_eq.
      * specialize (Hl x Hx). rewrite <- (Eo x Hl) in Hsx.
        assert (HFx' : (if expired (cfg c) s then delete sp F else F) !! x = Some flx)
          by (destruct (expired _ s); [by rewrite lookup_delete_ne|done]).
        pose proof (Hin x sx flx Hx HFx' Hsx) as [E1 E2]. rewrite Ec in E1, E2. split; [done|].
        destruct (expired _ sx); [done|]. destruct E2 as [E2 E3]. split; [done|].
        rewrite E3. destruct (expired _ s); [by rewrite lookup_insert_ne|done].
Qed.

Lemma reclaim_clean_run q l c F L :
  cache_inv q c F L -> NoDup l ->
  (forall x, x ∈ l -> is_Some (F !! x) /\ exists s, slabs c !! x = Some s /\
     slab_state s = SLAB_RECLAIMING /\ slab_refcnt s = 0) ->
  exists c', reclaim_clean l c = Ok c' /\ cache_inv q c' F L /\ cfg c' = cfg c /\ bufctls c' = bufctls c /\
    (forall x, x ∉ l -> slabs c' !! x = slabs c !! x) /\
    (forall x s, x ∈ l -> slabs c !! x = Some s ->
       slabs c' !! x = Some (set_state SLAB_CLEAN (slab_idle_time s) s)).
Proof.
  revert c. induction l as [|sp l IH]; intros c I Hnd Hl; simpl.
  - exists c. split_and!; try done. set_solver.
  - apply NoDup_cons in Hnd as [Hsp Hnd]. destruct (Hl sp ltac:(set_solver)) as ([fl HF] & s & Hs & Hst & Hz).
    rewrite Hs, Hst, Hz. cbn [Z.eqb andb SLAB_RECLAIMING Pos.eqb].
    assert (Eup : upd_slab sp (fun s => set_state SLAB_CLEAN (slab_idle_time s) s) c =
                  upd_slab sp (set_state SLAB_CLEAN (slab_idle_time s)) c).
    { unfold upd_slab. f_equal. apply alter_ext. intros s0 E. congruence. }
    rewrite Eup. clear Eup. set (c1 := upd_slab sp _ c).
    assert (E1 : slabs c1 !! sp = Some (set_state SLAB_CLEAN (slab_idle_time s) s))
      by (unfold c1, upd_slab; simpl; by rewrite lookup_alter_eq, Hs).
    assert (E2 : forall x, x <> sp -> slabs c1 !! x = slabs c !! x)
      by (intros x Hx; unfold c1, upd_slab; simpl; by rewrite lookup_alter_ne).
    destruct (IH c1) as (c' & -> & I' & Ec & Eb & Eo & Ein).
    { eapply state_inv; eauto. } { done. }
    { intros x Hx. destruct (Hl x ltac:(set_solver)) as (H1 & H2). split; [done|]. rewrite E2; [done|]. intros ->. done. }
    exists c'. split; [done|]. split_and!; try done.
    + intros x Hx. rewrite Eo by set_solver. apply E2. set_solver.
    + intros x sx Hx Hsx. apply elem_of_cons in Hx as [->|Hx].
      * rewrite Eo, E1 by done. congruence.
      * apply Ein; [done|]. rewrite E2; [done|]. intros ->. done.
Qed.

(** The slabs of a cache, as both passes list them. *)
Lemma ring_slabs q c F L :
  cache_inv q c F L ->
  NoDup (removelast (ring c)) /\ forall x, x ∈ removelast (ring c) <-> is_Some (F !! x).
Proof.
  intros I. destruct (ci_ring _ _ _ _ I) as (A & B & [R1 R2 _ R4 _ _ _ _]).
  rewrite R1, app_assoc in *. rewrite removelast_last. split; [|done].
  by apply NoDup_app in R2 as [? _].
Qed.

Lemma detached_none q c F L : cache_inv q c F L -> detached q c F L ∅.
Proof. intros I. constructor; try done; intros *; rewrite lookup_empty; done. Qed.

Section passes.
Context {W : Type} {env : slab_env W}.

Lemma reclaim_pages_run pagesize q w c F L :
  cache_inv q c F L ->
  exists w' c' F', umem_cache_reclaim_pages pagesize w c = Ok (w', c') /\
    cache_inv q c' F' L /\ cfg c' = cfg c /\
    (forall x, allocated c' F' x <-> allocated c F x) /\
    (forall sp s fl, F !! sp = Some fl -> slabs c !! sp = Some s ->
       slabs c' !! sp = fate (cfg c) s /\ F' !! sp = (if expired (cfg c) s then None else Some fl)).
Proof.
  intros I. destruct (ring_slabs _ _ _ _ I) as [Hnd Hin]. unfold umem_cache_reclaim_pages.
  set (l := reverse (removelast (ring c))).
  assert (Hnl : NoDup l) by (unfold l; by rewrite reverse_Permutation).
  assert (Hl : forall x, x ∈ l <-> is_Some (F !! x)) by (intros x; unfold l; by rewrite elem_of_reverse).
  destruct (reclaim_walk_run q l c F L ∅ [] [] (detached_none _ _ _ _ I) Hnl (fun x => proj1 (Hl x)))
    as (c1 & F1 & D1 & -> & HD & Ec1 & Eb1 & Hout & Hw). rewrite !app_nil_r.
  set (rl := reverse (sel (ripe _) _ l)). set (dl := reverse (sel (expired _) _ l)).
  assert (Hrl : forall x, x ∈ rl <-> x ∈ l /\ exists s, slabs c !! x = Some s /\ ripe (cfg c) s = true)
    by (intros x; unfold rl; by rewrite elem_of_reverse, elem_of_sel).
  assert (Hdl : forall x, x ∈ dl <-> x ∈ l /\ exists s, slabs c !! x = Some s /\ expired (cfg c) s = true)
    by (intros x; unfold dl; by rewrite elem_of_reverse, elem_of_sel).
  assert (Hex : forall s, ripe (cfg c) s = true -> expired (cfg c) s = false).
  { intros s. unfold ripe, expired. destruct (_ =? 0); [|done]. destruct (Z.eqb_spec (slab_state s) SLAB_DIRTY) as [->|]; done. }
  assert (Hno : forall x, F !! x = None -> F1 !! x = None).
  { intros x Hx. destruct (Hout x) as (_ & -> & _); [|done]. rewrite Hl, Hx. by intros []. }
  set (w1 := reclaim_advise pagesize rl w c1). clearbody w1.
  destruct (slabs_destroy_run q dl w1 c1 F1 L D1 HD) as (c2 & -> & I2 & Ec2 & _ & _ & Es2 & Hn2 & Ebo).
  { unfold dl. rewrite reverse_Permutation. by apply NoDup_sel. }
  { intros x. rewrite Hdl. split.
    - intros (Hx & s & Hs & He). destruct (proj1 (Hl x) Hx) as [fl HF].
      destruct (Hw x s fl Hx HF Hs) as [_ H]. rewrite He in H. destruct H as [_ ->]. eauto.
    - intros [fl HDx]. destruct (decide (x ∈ l)) as [Hx|Hx].
      + destruct (proj1 (Hl x) Hx) as [fl' HF]. destruct (ci_slab _ _ _ _ I _ _ HF) as (s & Hs & _).
        destruct (Hw x s fl' Hx HF Hs) as [_ H]. destruct (expired (cfg c) s) eqn:He; [by eauto|].
        destruct H as [_ H]. rewrite H in HDx. done.
      + destruct (Hout x Hx) as (_ & _ & H). rewrite H in HDx. done. }
  cbn [res_bind].
  assert (Hnd2 : forall x s, slabs c !! x = Some s -> expired (cfg c) s = false -> x ∉ dl).
  { intros x s Hs He Hx. apply Hdl in Hx as (_ & s' & Hs' & He'). congruence. }
  destruct (reclaim_clean_run q rl c2 F1 L I2) as (c3 & -> & I3 & Ec3 & Eb3 & Es3 & Hin3).
  { unfold rl. rewrite reverse_Permutation. by apply NoDup_sel. }
  { intros x Hx. apply Hrl in Hx as (Hx & s & Hs & Hr). destruct (proj1 (Hl x) Hx) as [fl HF].
    destruct (Hw x s fl Hx HF Hs) as [H1 H2]. rewrite (Hex s Hr) in H2. destruct H2 as [-> _].
    split; [by eauto|]. exists (walk_state (cfg c) s). rewrite Es2 by eauto. split; [done|].
    unfold walk_state. rewrite Hr. split; [done|]. simpl. unfold ripe in Hr. by destruct (Z.eqb_spec (slab_refcnt s) 0). }
  cbn [res_bind]. assert (Hpt : forall sp s fl, F !! sp = Some fl -> slabs c !! sp = Some s ->
    slabs c3 !! sp = fate (cfg c) s /\ F1 !! sp = (if expired (cfg c) s then None else Some fl)).
  { intros x s fl HF Hs. assert (Hx : x ∈ l) by (apply Hl; eauto).
    destruct (Hw x s fl Hx HF Hs) as [H1 H2]. unfold fate. destruct (expired (cfg c) s) eqn:He.
    - split; [|by destruct H2]. rewrite Es3; [apply Hn2, Hdl; eauto|].
      intros Hin'. apply Hrl in Hin' as (_ & s' & Hs' & Hr). rewrite Hs in Hs'. injection Hs' as <-.
      by rewrite (Hex _ Hr) in He.
    - split; [|by destruct H2]. unfold walk_state in H1. rewrite <- (Es2 x) in H1 by eauto.
      destruct (ripe (cfg c) s) eqn:Hr.
      + rewrite (Hin3 x _ ltac:(apply Hrl; eauto) H1). done.
      + rewrite Es3; [done|]. intros Hin'. apply Hrl in Hin' as (_ & s' & Hs' & Hr'). congruence. }
  exists (destroyed_all (cfg c1) (slabs c1) D1 dl w1), c3, F1. split; [done|]. split; [done|].
  split; [congruence|]. split; [|done].
  intros x. apply (allocated_idle q _ _ _ _ L); try done; [congruence| |].
  - intros sp s fl HF Hs. destruct (Hpt sp s fl HF Hs) as [H1 ->]. unfold fate in H1.
    destruct (expired (cfg c) s) eqn:He; [left|right].
    + split; [done|]. unfold expired in He. by destruct (Z.eqb_spec (slab_refcnt s) 0).
    + split; [done|]. eexists. split; [exact H1|]. destruct (ripe (cfg c) s); [done|]. unfold aged. by case_match.
  - intros sp fl y HF Hy. assert (E : buf_of c3 y = buf_of c2 y) by (apply buf_of_ext; congruence).
    rewrite E, (Ebo sp fl y HF Hy). by apply buf_of_ext.
Qed.

(** ** Draining a cache that is being destroyed *)

Definition idle (s : umem_slab) : bool := slab_refcnt s =? 0.
(** The buffers out of the slabs of a list. *)
Definition refs (m : gmap Z umem_slab) (l : list Z) : Z :=
  foldr (fun x n => match m !! x with Some s => slab_refcnt s | None => 0 end + n) 0 l.

Lemma refs_ext m m' l : (forall x, x ∈ l -> m !! x = m' !! x) -> refs m l = refs m' l.
Proof.
  induction l as [|x l IH]; intros H; simpl; [done|]. rewrite (H x), IH by set_solver. done.
Qed.

Lemma drain_walk_run q l c F L D dl out :
  detached q c F L D -> NoDup l -> (forall x, x ∈ l -> is_Some (F !! x)) ->
  exists c' F' D', drain_walk l c dl out = (c', reverse (sel idle (slabs c) l) ++ dl, out + refs (slabs c) l) /\
    detached q c' F' L D' /\ cfg c' = cfg c /\ bufctls c' = bufctls c /\ slabs c' = slabs c /\
    (forall x, x ∉ l -> F' !! x = F !! x /\ D' !! x = D !! x) /\
    (forall x s fl, x ∈ l -> F !! x = Some fl -> slabs c !! x = Some s ->
       if idle s then F' !! x = None /\ D' !! x = Some fl else F' !! x = Some fl /\ D' !! x = D !! x).
Proof.
  revert c F D dl out. induction l as [|sp l IH]; intros c F D dl out HD Hnd HF; simpl.
  - exists c, F, D. rewrite Z.add_0_r. split; [done|]. split_and!; try done. set_solver.
  - apply NoDup_cons in Hnd as [Hsp Hnd]. destruct (HF sp ltac:(set_solver)) as [fl HFs].
    destruct (ci_slab _ _ _ _ (dt_inv _ _ _ _ _ HD) _ _ HFs) as (s & Hs & _). rewrite Hs.
    assert (Hl : forall x, x ∈ l -> x <> sp) by (intros x Hx ->; done).
    unfold idle at 1. destruct (Z.eqb_spec (slab_refcnt s) 0) as [Hz|Hz]; cbn [negb].
    + pose proof (detached_retire HD HFs Hs Hz) as HD1.
      destruct (IH (slab_retire sp c) _ _ (sp :: dl) out HD1 Hnd) as (c' & F' & D' & -> & HD' & Ec & Eb & Es & Hout & Hin).
      { intros x Hx. rewrite lookup_delete_ne by (symmetry; by apply Hl). apply HF. set_solver. }
      change (slabs (slab_retire sp c)) with (slabs c) in *.
      exists c', F', D'. rewrite reverse_cons, <- app_assoc, Hz. split; [f_equal; lia|]. split_and!; try done.
      * intros x Hx. apply not_elem_of_cons in Hx as [Hne Hx]. destruct (Hout x Hx) as [-> ->].
        by rewrite lookup_delete_ne, lookup_insert_ne by done.
      * intros x sx flx Hx HFx Hsx. apply elem_of_cons in Hx as [->|Hx].
        -- destruct (Hout sp Hsp) as [-> ->]. rewrite lookup_delete_eq, lookup_insert_eq.
           unfold idle. by simplify_eq; rewrite Hz.
        -- specialize (Hin x sx flx Hx). rewrite lookup_delete_ne in Hin by (symmetry; by apply Hl).
           specialize (Hin HFx Hsx). destruct (idle sx); [done|]. destruct Hin as [-> ->].
           by rewrite lookup_insert_ne by (symmetry; by apply Hl).
    + destruct (IH c F D dl (out + slab_refcnt s) HD Hnd) as (c' & F' & D' & -> & HD' & Ec & Eb & Es & Hout & Hin);
        [intros x Hx; apply HF; set_solver|].
      exists c', F', D'. split; [f_equal; lia|]. split_and!; try done.
      * intros x Hx. apply Hout. set_solver.
      * intros x sx flx Hx HFx Hsx. apply elem_of_cons in Hx as [->|Hx]; [|by apply Hin].
        destruct (Hout sp Hsp) as [-> ->]. unfold idle. simplify_eq.
        by rewrite (proj2 (Z.eqb_neq _ _) Hz).
Qed.

(** A slab with buffers out has a chunk without a free bufctl. *)
Lemma busy_chunk_out q c F L sp s fl :
  cache_inv q c F L -> F !! sp = Some fl -> slabs c !! sp = Some s -> slab_refcnt s <> 0 ->
  exists buf, allocated c F buf.
Proof.
  intros I HF Hs Hz. pose proof (ci_slab_at _ _ _ _ _ _ _ I HF Hs) as Hok.
  pose proof (so_refcnt _ _ _ _ Hok). pose proof (so_nneg _ _ _ _ Hok). pose proof (ci_geom _ _ _ _ I) as G.
  set (n := Z.to_nat (slab_chunks s)).
  destruct (base.filter (fun i => i ∉ chunk_index c s <$> fl) (seq 0 n)) as [|i r] eqn:E.
  - exfalso. assert (Hsub : seq 0 n ⊆+ chunk_index c s <$> fl).
    { apply NoDup_submseteq; [apply NoDup_seq|]. intros i Hi.
      destruct (decide (i ∈ chunk_index c s <$> fl)) as [|Hni]; [done|exfalso].
      assert (Hi' : i ∈ base.filter (fun i => i ∉ chunk_index c s <$> fl) (seq 0 n)) by (by apply list_elem_of_filter).
      rewrite E in Hi'. by apply elem_of_nil in Hi'. }
    apply submseteq_length in Hsub. rewrite length_fmap, length_seq in Hsub. lia.
  - assert (Hi : i ∈ base.filter (fun i => i ∉ chunk_index c s <$> fl) (seq 0 n)) by (rewrite E; set_solver).
    apply list_elem_of_filter in Hi as [Hni Hi]. apply elem_of_seq in Hi.
    exists (chunk (cfg c) s (Z.of_nat i)), sp, s, fl. split_and!; try done; [exists (Z.of_nat i); split; [lia|done]|].
    intros b Hb Eb. apply Hni, list_elem_of_fmap. exists b. split; [|done].
    unfold chunk_index. rewrite Eb. unfold chunk. pose proof (geom_chunk _ _ G).
    replace (slab_base s + Z.of_nat i * cache_chunksize (cfg c) - slab_base s)
      with (Z.of_nat i * cache_chunksize (cfg c)) by lia. rewrite Z.div_mul by lia. lia.
Qed.

Lemma refs_zero q c F L l :
  cache_inv q c F L -> (forall x, x ∈ l -> is_Some (F !! x)) ->
  0 <= refs (slabs c) l /\ (refs (slabs c) l = 0 <-> forall x s, x ∈ l -> slabs c !! x = Some s -> slab_refcnt s = 0).
Proof.
  intros I. induction l as [|x l IH]; intros Hl; simpl; [split; [done|]; set_solver|].
  destruct (IH ltac:(set_solver)) as [H1 H2]. destruct (Hl x ltac:(set_solver)) as [fl HF].
  destruct (ci_slab _ _ _ _ I _ _ HF) as (s & Hs & Hok). rewrite Hs. pose proof (so_nneg _ _ _ _ Hok).
  split; [lia|]. split.
  - intros Hz y sy Hy Hsy. apply elem_of_cons in Hy as [->|Hy]; [simplify_eq; lia|].
    apply (proj1 H2 ltac:(lia) y sy Hy Hsy).
  - intros Hz. rewrite (Hz x s ltac:(set_solver) Hs). apply H2. intros y sy Hy. apply Hz. set_solver.
Qed.

Lemma drain_slabs_run q w c F L :
  cache_inv q c F L ->
  exists w' c' F' n, umem_cache_drain_slabs w c = Ok (w', c', n) /\
    cache_inv q c' F' L /\ cfg c' = cfg c /\
    (forall x, allocated c' F' x <-> allocated c F x) /\
    (forall sp s fl, F !! sp = Some fl -> slabs c !! sp = Some s ->
       (slabs c' !! sp, F' !! sp) = (if idle s then (None, None) else (Some s, Some fl))) /\
    0 <= n /\ (n = 0 <-> forall x, ~ allocated c F x).
Proof.
  intros I. destruct (ring_slabs _ _ _ _ I) as [Hnd Hl]. unfold umem_cache_drain_slabs.
  set (l := removelast (ring c)) in *.
  destruct (drain_walk_run q l c F L ∅ [] 0 (detached_none _ _ _ _ I) Hnd (fun x => proj1 (Hl x)))
    as (c1 & F1 & D1 & -> & HD & Ec1 & Eb1 & Es1 & Hout & Hw). rewrite app_nil_r.
  set (dl := reverse (sel idle _ l)).
  assert (Hdl : forall x, x ∈ dl <-> x ∈ l /\ exists s, slabs c !! x = Some s /\ idle s = true)
    by (intros x; unfold dl; by rewrite elem_of_reverse, elem_of_sel).
  destruct (slabs_destroy_run q dl w c1 F1 L D1 HD) as (c2 & -> & I2 & Ec2 & _ & _ & Es2 & Hn2 & Ebo).
  { unfold dl. rewrite reverse_Permutation. by apply NoDup_sel. }
  { intros x. rewrite Hdl. split.
    - intros (Hx & s & Hs & He). destruct (proj1 (Hl x) Hx) as [fl HF].
      specialize (Hw x s fl Hx HF Hs). rewrite He in Hw. destruct Hw as [_ ->]. eauto.
    - intros [fl HDx]. destruct (decide (x ∈ l)) as [Hx|Hx].
      + destruct (proj1 (Hl x) Hx) as [fl' HF]. destruct (ci_slab _ _ _ _ I _ _ HF) as (s & Hs & _).
        specialize (Hw x s fl' Hx HF Hs). destruct (idle s) eqn:He; [by eauto|].
        destruct Hw as [_ H]. rewrite H in HDx. done.
      + destruct (Hout x Hx) as [_ H]. rewrite H in HDx. done. }
  cbn [res_bind].
  assert (Hpt : forall sp s fl, F !! sp = Some fl -> slabs c !! sp = Some s ->
       (slabs c2 !! sp, F1 !! sp) = (if idle s then (None, None) else (Some s, Some fl))).
  { intros x s fl HF Hs. assert (Hx : x ∈ l) by (apply Hl; eauto). specialize (Hw x s fl Hx HF Hs).
    destruct (idle s) eqn:He.
    - destruct Hw as [-> _]. rewrite Hn2; [done|]. apply Hdl. eauto.
    - destruct Hw as [-> _]. rewrite Es2, Es1, Hs; [done|]. rewrite Hdl. intros (_ & s' & Hs' & He'). congruence. }
  destruct (refs_zero q c F L l I (fun x => proj1 (Hl x))) as [Hr0 Hr].
  eexists _, c2, F1, _. split; [reflexivity|]. split_and!; try done; try congruence; rewrite ?Z.add_0_l.
  - intros x. apply (allocated_idle q _ _ _ _ L); try done; [congruence|..].
    + intros sp s fl HF Hs. specialize (Hpt sp s fl HF Hs). unfold idle in Hpt.
      destruct (Z.eqb_spec (slab_refcnt s) 0); injection Hpt as H1 H2; [by left|right]. rewrite H2. split; [done|]. exists s. by split.
    + intros sp Hx. destruct (Hout sp) as [-> _]; [|done]. rewrite Hl, Hx. by intros [].
    + intros sp fl y HF Hy. rewrite (Ebo sp fl y HF Hy). by apply buf_of_ext.
  - rewrite Hr. split.
    + intros Hz x (sp & s & fl & HF & Hs & Hc & Hx).
      destruct (idle_all_free c q sp s fl x) as (b & Hb & Eb); try done.
      * apply (ci_geom _ _ _ _ I).
      * by eapply ci_slab_at.
      * apply (Hz sp s); [apply Hl; eauto|done].
      * intros b b' Hb Hb'. by eapply (free_inj I).
      * by destruct (Hx b Hb).
    + intros Hno x s Hx Hs. destruct (Z.eq_dec (slab_refcnt s) 0) as [|Hz]; [done|exfalso].
      destruct (proj1 (Hl x) Hx) as [fl HF]. destruct (busy_chunk_out _ _ _ _ _ _ _ I HF Hs Hz) as [b Hb].
      by apply (Hno b).
Qed.
End passes.
