(* ===== verification/ReclaimProps.v ===== *)
(** * The slab layer: properties of the idle-slab passes

    The claims about [umem_cache_reclaim_pages], [umem_cache_drain_slabs] and
    [umem_slab_reclaim], with witnesses on the cache of [SlabProps]. *)
From S2P Require Import Prelude Machine SlabModel SlabWf SlabInv SlabFree SlabFreeOp SlabGrow SlabSpec SlabProps SlabReclaim.

(** ** The range whose pages are given back *)

(** [P2END] rounds up within the block whether or not the alignment is a power
    of two. *)
Lemma P2END_block x size q :
  0 <= q -> 0 < x -> 0 < size -> (2 ^ q | size) -> x / 2 ^ q * 2 ^ q + size < 2 ^ 64 ->
  0 < P2END x size <= x / 2 ^ q * 2 ^ q + size.
Proof.
  intros Hq Hx Hs [k Hk] Hlt. assert (H2 : 0 < 2 ^ q) by lia. unfold P2END.
  change (wnot x) with (w64 (Z.lnot x)). change (wneg size) with (w64 (- size)).
  rewrite land_w64, wneg_w64. set (u := Z.lnot x). set (v := - size).
  pose proof (Z.add_lor_land u v) as Hsum.
  assert (Hu : u < 0) by (unfold u, Z.lnot; lia). assert (Hv : v < 0) by (unfold v; lia).
  assert (Hl : Z.land u v < 0) by (by apply Z.land_neg).
  assert (Ho : Z.lor u v < 0) by (apply Z.lor_neg; by left).
  assert (Hlow : Z.lor u v mod 2 ^ q = u mod 2 ^ q).
  { rewrite <- !Z.land_ones by lia. apply Z.bits_inj'; intros b Hb. rewrite !Z.land_spec, Z.lor_spec.
    destruct (Z.lt_ge_cases b q) as [Hbq|Hbq].
    - replace (Z.testbit v b) with false; [by rewrite orb_false_r|]. unfold v. rewrite Hk, <- Z.mul_opp_l.
      by rewrite Z.mul_pow2_bits_low.
    - rewrite Z.ones_spec_high by lia. by rewrite !andb_false_r. }
  pose proof (Z.div_mod x (2 ^ q) ltac:(lia)) as E1. pose proof (Z.mod_pos_bound x (2 ^ q) ltac:(lia)) as E2.
  assert (Hum : u mod 2 ^ q = 2 ^ q - 1 - x mod 2 ^ q).
  { symmetry. apply Z.mod_unique with (- (x / 2 ^ q) - 1); [lia|]. unfold u, Z.lnot. lia. }
  pose proof (Z.div_mod (Z.lor u v) (2 ^ q) ltac:(lia)) as E3.
  assert (Z.lor u v / 2 ^ q < 0) by (apply Z.div_lt_upper_bound; lia).
  assert (Z.lor u v <= -1 - x mod 2 ^ q) by nia.
  rewrite w64_small; unfold is_word, u, v, Z.lnot in *; lia.
Qed.

(** The pages [umem_slab_reclaim] gives back to the system are whole pages
    of the slab's own chunk area, for a cache that keeps its bufctls elsewhere
    and no tags in its buffers: no byte outside the slab and no metadata is
    ever discarded, whatever the slab size (it need not be a power of two, as
    [P2END] wants). *)
Theorem reclaim_range {W} {env : slab_env W} (w : W) (f : slab_cfg) (q p sp : Z) (s : umem_slab) :
  geom f q -> slab_geom f sp s -> 0 <= p <= q ->
  umem_slab_reclaim (2 ^ p) w f s = w \/
  exists a n, umem_slab_reclaim (2 ^ p) w f s = env_decommit w a n /\
    has (cache_flags f) UMF_HASH = true /\ has (cache_flags f) UMF_BUFTAG = false /\
    (2 ^ p | a) /\ (2 ^ p | n) /\ 0 < n /\ slab_base s <= a /\
    a + n <= slab_start f s + cache_slabsize f.
Proof.
  intros G Hs Hp. unfold umem_slab_reclaim, umem_slab_keeps_metadata.
  destruct (has (cache_flags f) UMF_HASH); [|by left]. destruct (has (cache_flags f) UMF_BUFTAG); [by left|].
  cbn [negb orb]. pose proof (geom_q _ _ G). pose proof (base_pos G sp s Hs) as Hb.
  pose proof (slab_start_le G s ltac:(lia)) as Hst. pose proof (geom_slab _ _ G). pose proof (geom_chunk _ _ G).
  pose proof (sg_end _ _ _ Hs) as He. pose proof (sg_fit _ _ _ Hs). pose proof (sg_chunks _ _ _ Hs).
  pose proof (geom_slabq _ _ G) as Hsq. unfold slab_start in *. rewrite (geom_quantum _ _ G) in *.
  set (e := slab_base s / 2 ^ q * 2 ^ q + cache_slabsize f) in *.
  assert (Hbe : slab_base s < e) by nia.
  destruct (P2END_block (slab_base s) (cache_slabsize f) q) as [L1 L2]; try done; [lia..|]. fold e in L2.
  assert (Hpq : (2 ^ p | 2 ^ q)) by (exists (2 ^ (q - p)); rewrite <- Z.pow_add_r by lia; f_equal; lia).
  assert (Hpe : (2 ^ p | e)).
  { apply Z.divide_add_r; [|by eapply Z.divide_trans]. by apply Z.divide_mul_r. }
  assert (H2p : 0 < 2 ^ p) by lia.
  pose proof (roundup_spec (slab_base s) (2 ^ p) H2p) as [[R1 _] R3].
  pose proof (roundup_least (slab_base s) (2 ^ p) e H2p Hpe ltac:(lia)) as R2.
  rewrite P2ROUNDUP_spec, w64_small, P2ALIGN_spec by (unfold is_word; lia).
  set (lim := P2END _ _) in *. pose proof (Z.div_mod lim (2 ^ p) ltac:(lia)).
  pose proof (Z.mod_pos_bound lim (2 ^ p) H2p).
  destruct (Z.leb_spec (lim / 2 ^ p * 2 ^ p) (roundup (slab_base s) (2 ^ p))) as [|Hgt]; [by left|right].
  eexists _, _. split; [reflexivity|]. rewrite wsub_small by lia. split_and!; try done; try lia.
  apply Z.divide_sub_r; [by exists (lim / 2 ^ p)|done].
Qed.

(** A hashed cache with slabs of six pages, which are neither aligned to their
    size nor a power of two long. *)
Definition sixpage_cfg : slab_cfg :=
  SlabCfg 64 128 false 1536 16 1536 0x6000 1528 0 0 0 0 0 9 UMF_HASH 0 4096 7 true 30 10.
Definition sixpage_slab (base : Z) : umem_slab := Slab 64 base 0 0 16 SLAB_RECLAIMING 0.

Definition log_decommit : slab_env (list (Z * Z)) := {|
  env_vmem_alloc w n := (w, 0); env_vmem_free w a n := w; env_slab_alloc w fl := (w, 0);
  env_slab_free w sp := w; env_bufctl_alloc w fl := (w, 0); env_bufctl_free w b := w;
  env_table_alloc w n := (w, 0); env_table_free w t n := w;
  env_decommit w a n := (a, n) :: w; env_error w e buf := Ok w |}.

Lemma reclaim_range_witness :
  umem_slab_reclaim (env := log_decommit) (2 ^ 12) [] sixpage_cfg (sixpage_slab 0x12000) = [(0x12000, 0x6000)] /\
  (umem_slab_reclaim (env := log_decommit) (2 ^ 12) [] sixpage_cfg (sixpage_slab 0x12000) = [] \/
   exists a n, umem_slab_reclaim (env := log_decommit) (2 ^ 12) [] sixpage_cfg (sixpage_slab 0x12000) = [(a, n)] /\
    has (cache_flags sixpage_cfg) UMF_HASH = true /\ has (cache_flags sixpage_cfg) UMF_BUFTAG = false /\
    (2 ^ 12 | a) /\ (2 ^ 12 | n) /\ 0 < n /\ 0x12000 <= a /\ a + n <= 0x18000).
Proof.
  split; [vm_compute; reflexivity|].
  apply (reclaim_range (env := log_decommit) [] sixpage_cfg 12 12 0x99 (sixpage_slab 0x12000)); [| |lia].
  - constructor; simpl; try lia; try done; try (intros H; vm_compute in H; discriminate H).
    + by exists 192.
    + by exists 6.
    + by exists 191.
    + split; [lia|by exists 2].
    + split_and!; [lia..|by exists 0].
  - constructor; try done. by exists 9216.
Defined.

(** The range can be far too small: for slabs of six pages, the end
    computed by [P2END] is the end of the slab only at some addresses; at
    others a single page of the six is given back, because the macro rounds to
    the slab size as if slabs were aligned to it and the size a power of two. *)
Theorem reclaim_misses_pages :
  umem_slab_reclaim (env := log_decommit) (2 ^ 12) [] sixpage_cfg (sixpage_slab 0x15000) = [(0x15000, 0x1000)] /\
  slab_start sixpage_cfg (sixpage_slab 0x15000) + cache_slabsize sixpage_cfg = 0x1b000.
Proof. split; vm_compute; reflexivity. Qed.

(** ** The passes *)

(** A pass of the update thread over any well-formed cache ends and keeps
    it well formed.  It gives back no buffer a client holds, and does with
    every slab exactly what [fate] says: a slab in use is untouched, a dirty
    slab idle for the delay becomes clean, a clean one idle for twice the delay
    is destroyed, the others age. *)
Theorem reclaim_pages_fate {W} {env : slab_env W} (pagesize q : Z) (w : W) (c : cache)
    (F : gmap Z (list Z)) (L : list (list Z)) :
  cache_inv q c F L ->
  exists w' c' F', umem_cache_reclaim_pages pagesize w c = Ok (w', c') /\
    cache_inv q c' F' L /\ cfg c' = cfg c /\
    (forall x, allocated c' F' x <-> allocated c F x) /\
    (forall sp s fl, F !! sp = Some fl -> slabs c !! sp = Some s ->
       slabs c' !! sp = fate (cfg c) s /\ F' !! sp = (if expired (cfg c) s then None else Some fl)).
Proof. apply reclaim_pages_run. Qed.

Lemma reclaim_pages_fate_witness :
  exists F, allocated demo_out.1.2 F demo_out.2 /\
  exists w' c' F', umem_cache_reclaim_pages 4096 demo_out.1.1 demo_out.1.2 = Ok (w', c') /\
    cache_inv 12 c' F' [] /\ cfg c' = cfg demo_out.1.2 /\
    (forall x, allocated c' F' x <-> allocated demo_out.1.2 F x) /\
    (forall sp s fl, F !! sp = Some fl -> slabs demo_out.1.2 !! sp = Some s ->
       slabs c' !! sp = fate (cfg demo_out.1.2) s /\
       F' !! sp = (if expired (cfg demo_out.1.2) s then None else Some fl)).
Proof.
  destruct demo_out_layer as (F & Hl & Ha). exists F. split; [exact Ha|].
  exact (reclaim_pages_fate 4096 12 _ _ F [] (ly_inv _ _ _ _ Hl)).
Defined.

(** Draining a cache that is being destroyed returns exactly the slabs
    without a buffer out, keeps the others and the buffers in them, and reports
    a positive number of outstanding buffers exactly when some buffer is still
    out. *)
Theorem drain_reports_leaks {W} {env : slab_env W} (q : Z) (w : W) (c : cache)
    (F : gmap Z (list Z)) (L : list (list Z)) :
  cache_inv q c F L ->
  exists w' c' F' n, umem_cache_drain_slabs w c = Ok (w', c', n) /\
    cache_inv q c' F' L /\ cfg c' = cfg c /\
    (forall x, allocated c' F' x <-> allocated c F x) /\
    (forall sp s fl, F !! sp = Some fl -> slabs c !! sp = Some s ->
       (slabs c' !! sp, F' !! sp) = (if idle s then (None, None) else (Some s, Some fl))) /\
    0 <= n /\ (n = 0 <-> forall x, ~ allocated c F x).
Proof. apply drain_slabs_run. Qed.

Lemma drain_reports_leaks_witness :
  exists F, allocated demo_out.1.2 F demo_out.2 /\
  exists w' c' F' n, umem_cache_drain_slabs demo_out.1.1 demo_out.1.2 = Ok (w', c', n) /\
    cache_inv 12 c' F' [] /\ cfg c' = cfg demo_out.1.2 /\
    (forall x, allocated c' F' x <-> allocated demo_out.1.2 F x) /\
    (forall sp s fl, F !! sp = Some fl -> slabs demo_out.1.2 !! sp = Some s ->
       (slabs c' !! sp, F' !! sp) = (if idle s then (None, None) else (Some s, Some fl))) /\
    0 <= n /\ (n = 0 <-> forall x, ~ allocated demo_out.1.2 F x).
Proof.
  destruct demo_out_layer as (F & Hl & Ha). exists F. split; [exact Ha|].
  exact (drain_reports_leaks 12 _ _ F [] (ly_inv _ _ _ _ Hl)).
Defined.

(** ** A slab lost to the freelist *)

Fixpoint allocs (n : nat) (w : Z) (c : cache) : result (Z * cache * list Z) :=
  match n with
  | O => Ok (w, c, [])
  | S n' => do (w, c, p) <- umem_slab_alloc w c 0; do (w, c, ps) <- allocs n' w c; Ok (w, c, p :: ps)
  end.
Fixpoint frees (l : list Z) (w : Z) (c : cache) : result (Z * cache) :=
  match l with
  | [] => Ok (w, c)
  | p :: l' => do (w, c) <- umem_slab_free w c p; frees l' w c
  end.
(** The first locked section of the pass, [n] allocations by others while the
    lock is dropped, and its last locked section. *)
Definition interleaved_pass (n : nat) (w : Z) (c : cache) : result (Z * cache * list Z) :=
  let '(c, rl, dl) := reclaim_walk (reverse (removelast (ring c))) c [] [] in
  do (w, c, ps) <- allocs n w c;
  do c <- reclaim_clean rl c;
  Ok (w, c, ps).
(** Seven buffers fill a slab, an eighth comes from a second one, the seven are
    freed and two passes age their slab. *)
Definition aged_demo : result (Z * cache) :=
  do (w, c, ps) <- allocs 8 4096 (demo_cache 0);
  do (w, c) <- frees (take 7 ps) w c;
  do (w, c) <- umem_cache_reclaim_pages 4096 w c;
  umem_cache_reclaim_pages 4096 w c.

(** A slab whose pages are being given back can be lost to the freelist:
    when the slab after it runs out of buffers meanwhile, the freelist moves
    past both.  The next allocation creates a third slab although all seven
    buffers of the first are free. *)
Theorem reclaiming_slab_lost :
  (do (w, c) <- aged_demo; do (w, c, _) <- interleaved_pass 6 w c;
   do (w, c, p) <- umem_slab_alloc w c 0;
   Ok (Z.div p 4096, (fun s => (slab_refcnt s, slab_state s)) <$> slabs c !! (8192 - 72))) =
  Ok (3, Some (0, SLAB_CLEAN)) /\
  (do (w, c) <- aged_demo; do (w, c, _) <- interleaved_pass 0 w c;
   do (w, c, ps) <- allocs 7 w c; Ok ((fun p => Z.div p 4096) <$> ps)) = Ok [1; 1; 1; 1; 1; 1; 1].
Proof. split; vm_compute; reflexivity. Qed.
