(* ===== verification/CacheCreate.v ===== *)
(** * Creating a cache: flags, chunk size and slab size

    The arithmetic of [umem_cache_create] (umem.c): which debugging features a
    cache gets, where its bufctls and buffer tags go, how large its chunks and
    slabs are and which colours they use.  The theorem of the file is the
    contract with the slab layer: every configuration that is accepted
    satisfies [geom]. *)
From S2P Require Import Prelude Machine SlabModel SlabWf.

(** ** The tunables and arguments it reads *)

Record umem_tunables := Tunables {
  umem_flags : Z;
  umem_lite_minsize : Z;
  umem_lite_maxalign : Z;
  umem_minfirewall : Z;
  umem_maxverify : Z;
  umem_content_maxsave : Z;
  umem_firewall_quantum : option Z;   (* vm_quantum of umem_firewall_arena *)
}.

Record create_args := CreateArgs {
  ca_named : bool;                    (* name != NULL *)
  ca_bufsize : Z;
  ca_align : Z;
  ca_cflags : Z;
  ca_default : bool;                  (* vmp == umem_default_arena *)
  ca_quantum : Z;                     (* vmp->vm_quantum *)
  ca_qcache_max : Z;                  (* vmp->vm_qcache_max *)
}.

Inductive create_errno : Type := EINVAL | ENOMEM | EAGAIN.

Definition UMEM_SECOND_ALIGN : Z := 16.
Definition UMEM_VOID_FRACTION : Z := 8.
Definition UMEM_MIN_SLAB_OBJECTS : Z := 16.
Definition UMEM_MIN_SLAB_CEILING : Z := 64 * 1024.
Definition UMEM_MIN_QCACHE_SLAB : Z := 4 * 1024 * 1024.
Definition LONG_MAX : Z := 2 ^ 63 - 1.
(** [sizeof (umem_buftag_t)]. *)
Definition sizeof_buftag : Z := 24.

(** Clear the bits of a mask. *)
Definition without (flags m : Z) : Z := Z.land flags (Z.lnot m).

(** ** Argument checks and alignment *)

Definition create_check (a : create_args) : bool :=
  (Z.land (ca_align a) (wsub (ca_align a) 1) =? 0) && (ca_align a <=? ca_quantum a) &&
  negb (has (ca_cflags a) UMC_NOHASH && has (ca_cflags a) UMC_NOTOUCH) &&
  ca_named a && negb (ca_bufsize a =? 0).

Definition create_align (a : create_args) : Z :=
  if ca_align a =? 0 then
    if UMEM_SECOND_ALIGN <=? P2ROUNDUP (ca_bufsize a) UMEM_ALIGN then UMEM_SECOND_ALIGN else UMEM_ALIGN
  else if (ca_align a <? UMEM_ALIGN) && negb (has (ca_cflags a) UMC_NOTOUCH) then UMEM_ALIGN
  else ca_align a.

(** ** Flags *)

(** One step of [UMF_RANDOMIZE]: count through the random flags. *)
Definition randomize_flags (fl : Z) : Z :=
  if has fl UMF_RANDOMIZE
  then Z.lor (Z.land (Z.lor fl (Z.lnot UMF_RANDOM) + 1) UMF_RANDOM) UMF_RANDOMIZE
  else fl.

(** The flags of the cache, and whether it uses the firewall arena. *)
Definition create_flags (t : umem_tunables) (a : create_args) (align : Z) : Z * bool :=
  let cf := ca_cflags a in
  let fl := Z.lor (randomize_flags (umem_flags t)) (Z.land cf UMF_DEBUG) in
  let fl :=
    if has fl UMF_LITE then
      if (umem_lite_minsize t <=? ca_bufsize a) && (align <=? umem_lite_maxalign t) &&
         negb (P2PHASE (ca_bufsize a) (umem_lite_maxalign t) =? 0)
      then without (Z.lor fl UMF_BUFTAG) (Z.lor UMF_AUDIT UMF_FIREWALL)
      else without fl UMF_DEBUG
    else fl in
  let fl := if has cf UMC_QCACHE && has fl UMF_AUDIT then Z.lor fl UMF_NOMAGAZINE else fl in
  let fl := if has cf UMC_NODEBUG then without fl UMF_DEBUG else fl in
  let fl := if has cf UMC_NOTOUCH then without fl UMF_TOUCH else fl in
  let fl := if has cf UMC_NOHASH then without fl (Z.lor UMF_AUDIT UMF_FIREWALL) else fl in
  let fl := if has cf UMC_NOMAGAZINE then Z.lor fl UMF_NOMAGAZINE else fl in
  let fl := if has fl UMF_AUDIT && negb (has cf UMC_NOTOUCH) then Z.lor fl UMF_REDZONE else fl in
  let fl := if has fl UMF_BUFTAG && (umem_minfirewall t <=? ca_bufsize a) &&
               negb (has fl UMF_LITE) && negb (has cf UMC_NOHASH)
            then Z.lor fl UMF_FIREWALL else fl in
  let fl := if negb (ca_default a) || bool_decide (umem_firewall_quantum t = None)
            then without fl UMF_FIREWALL else fl in
  if has fl UMF_FIREWALL
  then (Z.lor (without fl UMF_BUFTAG) UMF_NOMAGAZINE, true)
  else (fl, false).

(** ** Chunk size *)

Record chunk_layout := ChunkLayout {
  cl_chunksize : Z;
  cl_bufctl : Z;
  cl_buftag : Z;
  cl_verify : Z;
  cl_contents : Z;
}.

Definition create_chunk (t : umem_tunables) (bufsize align fl : Z) : chunk_layout :=
  let '(chunksize, bufctl) :=
    if UMEM_ALIGN <=? align
    then let c := P2ROUNDUP bufsize UMEM_ALIGN in (c, wsub c UMEM_ALIGN)
    else (bufsize, 0) in
  let '(chunksize, bufctl, buftag) :=
    if has fl UMF_BUFTAG then (wadd chunksize sizeof_buftag, chunksize, chunksize)
    else (chunksize, bufctl, 0) in
  let verify :=
    if has fl UMF_DEADBEEF then
      let v := Z.min buftag (umem_maxverify t) in
      if has fl UMF_LITE then Z.min v UMEM_ALIGN else v
    else 0 in
  ChunkLayout (P2ROUNDUP chunksize align) bufctl buftag verify
    (Z.min bufctl (umem_content_maxsave t)).

(** ** Slab size *)

(** The best-fit loop: [chunks] is the loop variable, [minwaste] and [bestfit]
    what it found so far.  [None] is the overflow exit.  Each turn at least
    increments [chunks], so [UMEM_VOID_FRACTION] turns are enough. *)
Fixpoint bestfit_loop (n : nat) (chunksize quantum chunks minwaste bestfit : Z) : option Z :=
  if UMEM_VOID_FRACTION <? chunks then Some bestfit
  else match n with
       | O => None
       | S n' =>
           let slabsize := P2ROUNDUP (w64 (chunksize * chunks)) quantum in
           if slabsize / chunks <? chunksize then None
           else
             let chunks := slabsize / chunksize in
             let waste := (slabsize mod chunksize) / chunks in
             if waste <? minwaste
             then bestfit_loop n' chunksize quantum (chunks + 1) waste slabsize
             else bestfit_loop n' chunksize quantum (chunks + 1) minwaste bestfit
       end.

(** The slab size of a hashed cache.  [1 << highbit (...)] is a shift of an
    [int]; the model has its value where the shift is defined, for quantum
    caches of less than a third of 2^30 bytes. *)
Definition hashed_slabsize (a : create_args) (chunksize : Z) : option Z :=
  match bestfit_loop 8 chunksize (ca_quantum a) 1 LONG_MAX 0 with
  | None => None
  | Some bestfit =>
      if has (ca_cflags a) UMC_QCACHE then
        let b := Z.max (Z.shiftl 1 (highbit (w64 (3 * ca_qcache_max a)))) 64 in
        Some (if b <? UMEM_MIN_QCACHE_SLAB then UMEM_MIN_QCACHE_SLAB else b)
      else if bestfit / chunksize <? UMEM_MIN_SLAB_OBJECTS then
        let want := P2ROUNDUP (w64 (chunksize * UMEM_MIN_SLAB_OBJECTS)) (ca_quantum a) in
        if (UMEM_MIN_SLAB_OBJECTS <=? want / chunksize) && (want <=? UMEM_MIN_SLAB_CEILING)
        then Some want else Some bestfit
      else Some bestfit
  end.

Record slab_layout := SlabLayout {
  sl_slabsize : Z;
  sl_mincolor : Z;
  sl_maxcolor : Z;
  sl_hash : bool;
}.

(** The slab size, colours and whether bufctls are outside the buffers. *)
Definition create_slab (a : create_args) (fl : Z) (firewall : option Z) (chunksize : Z) :
    create_errno + slab_layout :=
  match firewall with
  | Some q =>
      let slabsize := P2ROUNDUP chunksize q in
      inr (SlabLayout slabsize (wsub slabsize chunksize) (wsub slabsize chunksize) true)
  | None =>
      if has (ca_cflags a) UMC_NOHASH ||
         (negb (has (ca_cflags a) UMC_NOTOUCH) && negb (has fl UMF_AUDIT) &&
          (chunksize <? ca_quantum a / UMEM_VOID_FRACTION))
      then
        if ca_quantum a <? wadd chunksize sizeof_slab then inl EINVAL
        else inr (SlabLayout (ca_quantum a) 0 (wsub (ca_quantum a) sizeof_slab mod chunksize) false)
      else
        match hashed_slabsize a chunksize with
        | None => inl ENOMEM
        | Some s => inr (SlabLayout s 0 (s mod chunksize) true)
        end
  end.

(** The whole computation, up to the configuration the slab layer runs on;
    [self] and [null] are the addresses of the descriptor and its null slab. *)
Definition create_cfg (t : umem_tunables) (a : create_args) (self null cookie : Z)
    (reclaim : bool) (delay interval : Z) : create_errno + slab_cfg :=
  if negb (create_check a) then inl EINVAL
  else
    let align := create_align a in
    let '(fl, fw) := create_flags t a align in
    let cl := create_chunk t (ca_bufsize a) align fl in
    let chunksize := cl_chunksize cl in
    if chunksize <? ca_bufsize a then inl ENOMEM
    else
      let fwq := if fw then umem_firewall_quantum t else None in
      match create_slab a fl fwq chunksize with
      | inl e => inl e
      | inr sl =>
          let quantum := match fwq with Some q => q | None => ca_quantum a end in
          let fl := if sl_hash sl then Z.lor fl UMF_HASH else fl in
          let maxcolor := if quantum <=? sl_maxcolor sl then wsub quantum 1 else sl_maxcolor sl in
          let shift := if sl_hash sl then highbit chunksize - 1 else 0 in
          inr (SlabCfg self null false (ca_bufsize a) align chunksize (sl_slabsize sl)
                 (cl_bufctl cl) (cl_buftag cl) (cl_verify cl) (cl_contents cl)
                 (sl_mincolor sl) maxcolor shift fl (ca_cflags a) quantum
                 cookie reclaim delay interval)
      end.

(** ** Rounding without wrap-around *)

Lemma roundup_le_top x k : 0 <= k <= 64 -> x <= 2 ^ 64 -> roundup x (2 ^ k) <= 2 ^ 64.
Proof.
  intros Hk Hx. apply roundup_least; [lia| |done]. exists (2 ^ (64 - k)).
  rewrite <- Z.pow_add_r by lia. f_equal. lia.
Qed.

(** A rounded word that did not get smaller did not wrap. *)
Lemma P2ROUNDUP_exact x k :
  0 <= k <= 64 -> 0 < x < 2 ^ 64 -> x <= P2ROUNDUP x (2 ^ k) ->
  P2ROUNDUP x (2 ^ k) = roundup x (2 ^ k) /\ roundup x (2 ^ k) < 2 ^ 64.
Proof.
  intros Hk Hx Hge. rewrite P2ROUNDUP_spec in * by lia.
  pose proof (roundup_spec x (2 ^ k) ltac:(lia)) as [[H1 H2] _].
  pose proof (roundup_le_top x k Hk ltac:(lia)).
  destruct (Z.eq_dec (roundup x (2 ^ k)) (2 ^ 64)) as [E|].
  - rewrite E in Hge. change (w64 (2 ^ 64)) with 0 in Hge. lia.
  - rewrite w64_small by (unfold is_word; lia). lia.
Qed.

(** ** The best-fit loop *)

(** The slab for [i] chunks and its waste per object. *)
Definition fit_size (chunksize k i : Z) : Z := roundup (chunksize * i) (2 ^ k).
Definition fit_waste (chunksize s : Z) : Z := (s mod chunksize) / (s / chunksize).

Section bestfit.
Context {chunksize k : Z}.
Hypothesis Hc : 0 < chunksize < 2 ^ 63.
Hypothesis Hk : 0 <= k < 63.

Lemma fit_size_spec i : 1 <= i -> chunksize * i <= fit_size chunksize k i /\ (2 ^ k | fit_size chunksize k i).
Proof using Hc Hk. intros Hi. unfold fit_size. pose proof (roundup_spec (chunksize * i) (2 ^ k) ltac:(lia)). naive_solver. Qed.

(** The wrapped computation of the source is exact or is caught. *)
Lemma fit_step i :
  1 <= i <= 8 ->
  let s := P2ROUNDUP (w64 (chunksize * i)) (2 ^ k) in
  (s / i <? chunksize) = (2 ^ 64 <=? fit_size chunksize k i) /\
  (fit_size chunksize k i < 2 ^ 64 -> s = fit_size chunksize k i).
Proof using Hc Hk.
  intros Hi s. pose proof (fit_size_spec i ltac:(lia)) as [Hf _].
  assert (Hs : 0 <= s < 2 ^ 64).
  { unfold s. rewrite P2ROUNDUP_spec by lia. apply w64_range. }
  assert (Hex : fit_size chunksize k i < 2 ^ 64 -> s = fit_size chunksize k i).
  { intros Hlt. unfold s. rewrite w64_small by (unfold is_word; nia).
    rewrite P2ROUNDUP_spec by lia. apply w64_small. unfold is_word. fold (fit_size chunksize k i). nia. }
  split; [|done]. apply Bool.eq_iff_eq_true. rewrite Z.ltb_lt, Z.leb_le. split.
  - intros Hlt. destruct (Z.lt_ge_cases (fit_size chunksize k i) (2 ^ 64)) as [H|]; [|done].
    rewrite (Hex H) in Hlt. assert (chunksize <= fit_size chunksize k i / i); [|lia].
    apply Z.div_le_lower_bound; lia.
  - intros Hge. apply Z.div_lt_upper_bound; [lia|].
    destruct (Z.lt_ge_cases (chunksize * i) (2 ^ 64)) as [Hw|Hw]; [|lia].
    assert (E : s = 0).
    { unfold s. rewrite w64_small by (unfold is_word; nia). rewrite P2ROUNDUP_spec by lia.
      fold (fit_size chunksize k i). pose proof (roundup_le_top (chunksize * i) k ltac:(lia) ltac:(lia)).
      unfold fit_size in *. replace (roundup (chunksize * i) (2 ^ k)) with (2 ^ 64) by lia. done. }
    nia.
Qed.

(** The sizes skipped by a turn are the size it took. *)
Lemma fit_size_same i j :
  1 <= i <= j -> chunksize * j <= fit_size chunksize k i -> fit_size chunksize k j = fit_size chunksize k i.
Proof using Hc Hk.
  intros Hij Hj. pose proof (fit_size_spec i ltac:(lia)) as [_ Hd].
  pose proof (fit_size_spec j ltac:(lia)) as [Hjj Hdj].
  unfold fit_size in *. apply Z.le_antisymm.
  - apply roundup_least; [lia|done|done].
  - apply roundup_least; [lia|done|]. nia.
Qed.

Lemma waste_bound s : chunksize <= s -> 0 <= fit_waste chunksize s < chunksize.
Proof using Hc.
  intros Hs. unfold fit_waste. pose proof (Z.mod_pos_bound s chunksize ltac:(lia)).
  assert (1 <= s / chunksize) by (apply Z.div_le_lower_bound; lia).
  split; [apply Z.div_pos; lia|]. apply Z.div_lt_upper_bound; nia.
Qed.

(** What the loop has established before it looks at [i] chunks. *)
Definition fit_inv (i minwaste best : Z) : Prop :=
  (i = 1 /\ minwaste = LONG_MAX) \/
  (1 < i /\ (exists j, 1 <= j <= 8 /\ best = fit_size chunksize k j) /\
   minwaste = fit_waste chunksize best /\
   forall j, 1 <= j < i -> fit_waste chunksize best <= fit_waste chunksize (fit_size chunksize k j)).

Lemma bestfit_loop_spec n i minwaste best :
  1 <= i -> 9 - i <= Z.of_nat n -> fit_inv i minwaste best ->
  (forall j, 1 <= j <= 8 -> fit_size chunksize k j < 2 ^ 64) ->
  exists b, bestfit_loop n chunksize (2 ^ k) i minwaste best = Some b /\
    (exists j, 1 <= j <= 8 /\ b = fit_size chunksize k j) /\
    forall j, 1 <= j <= 8 -> fit_waste chunksize b <= fit_waste chunksize (fit_size chunksize k j).
Proof using Hc Hk.
  revert i minwaste best. induction n as [|n IH]; intros i mw best Hi Hn Hinv Hlt.
  - simpl. unfold UMEM_VOID_FRACTION. rewrite (proj2 (Z.ltb_lt 8 i)) by lia.
    destruct Hinv as [[? _]|(_ & Hj & _ & Hmin)]; [lia|]. exists best. split; [done|]. split; [done|].
    intros j Hj'. apply Hmin. lia.
  - simpl. unfold UMEM_VOID_FRACTION. destruct (Z.ltb_spec 8 i) as [H8|H8].
    { destruct Hinv as [[? _]|(_ & Hj & _ & Hmin)]; [lia|]. exists best. split; [done|]. split; [done|].
      intros j Hj'. apply Hmin. lia. }
    destruct (fit_step i ltac:(lia)) as [-> Hs]. specialize (Hs (Hlt i ltac:(lia))).
    rewrite (proj2 (Z.leb_gt _ _) (Hlt i ltac:(lia))), Hs. set (s := fit_size chunksize k i) in *.
    pose proof (fit_size_spec i ltac:(lia)) as [Hf Hd]. fold s in Hf, Hd.
    assert (Hcnt : i <= s / chunksize) by (apply Z.div_le_lower_bound; lia).
    assert (Hcs : chunksize <= s) by nia.
    pose proof (waste_bound s Hcs) as Hwb. fold (fit_waste chunksize s).
    assert (Hnew : forall j, i <= j < s / chunksize + 1 -> fit_size chunksize k j = s).
    { intros j Hj. apply fit_size_same; [lia|]. fold s.
      pose proof (Z.mul_div_le s chunksize ltac:(lia)). nia. }
    destruct (Z.ltb_spec (fit_waste chunksize s) mw) as [Hw|Hw]; apply IH; try done; try lia.
    + right. split; [lia|]. split; [exists i; split; [lia|done]|]. split; [done|].
      intros j Hj. destruct (Z.lt_ge_cases j i) as [Hji|Hji]; [|rewrite Hnew by lia; lia].
      destruct Hinv as [[-> _]|(_ & _ & Emw & Hmin)]; [lia|]. specialize (Hmin j ltac:(lia)). lia.
    + destruct Hinv as [[-> Emw]|(H1 & Hj & Emw & Hmin)]; [unfold LONG_MAX in Emw; lia|].
      right. split; [lia|]. split; [done|]. split; [done|]. intros j Hjj.
      destruct (Z.lt_ge_cases j i) as [Hji|Hji]; [by apply Hmin; lia|rewrite Hnew by lia; lia].
Qed.

(** Whatever it returns is one of the candidates, exactly computed. *)
Lemma bestfit_loop_sound n i minwaste best b :
  1 <= i ->
  (i = 1 /\ minwaste = LONG_MAX \/
   1 < i /\ exists j, 1 <= j <= 8 /\ best = fit_size chunksize k j /\ best < 2 ^ 64) ->
  bestfit_loop n chunksize (2 ^ k) i minwaste best = Some b ->
  exists j, 1 <= j <= 8 /\ b = fit_size chunksize k j /\ b < 2 ^ 64.
Proof using Hc Hk.
  revert i minwaste best. induction n as [|n IH]; intros i mw best Hi Hinv; simpl; unfold UMEM_VOID_FRACTION;
    (destruct (Z.ltb_spec 8 i) as [H8|H8]; [intros [= <-]; destruct Hinv as [[? _]|[_ ?]]; [lia|done]|]); [done|].
  destruct (fit_step i ltac:(lia)) as [-> Hs]. destruct (Z.leb_spec (2 ^ 64) (fit_size chunksize k i)) as [|Hlt]; [done|].
  rewrite (Hs Hlt). set (s := fit_size chunksize k i) in *.
  pose proof (fit_size_spec i ltac:(lia)) as [Hf _]. fold s in Hf.
  assert (Hcnt : i <= s / chunksize) by (apply Z.div_le_lower_bound; lia).
  assert (Hcs : chunksize <= s) by nia. pose proof (waste_bound s Hcs) as Hwb. fold (fit_waste chunksize s).
  destruct (Z.ltb_spec (fit_waste chunksize s) mw) as [Hw|Hw]; apply IH; try lia.
  - right. split; [lia|]. exists i. split; [lia|done].
  - right. split; [lia|]. destruct Hinv as [[_ E]|[_ ?]]; [unfold LONG_MAX in E; lia|done].
Qed.
End bestfit.

(** ** The configuration and the slab layer *)

Lemma has_lor a b m : has (Z.lor a b) m = has a m || has b m.
Proof.
  unfold has. rewrite Z.land_comm, Z.land_lor_distr_r, (Z.land_comm m a), (Z.land_comm m b).
  rewrite <- negb_andb. f_equal. apply Bool.eq_iff_eq_true.
  rewrite andb_true_iff, !Z.eqb_eq, Z.lor_eq_0_iff. done.
Qed.

Lemma create_align_pow2 a :
  create_check a = true -> 0 <= ca_align a < 2 ^ 64 -> ca_quantum a <= 2 ^ 62 ->
  UMEM_ALIGN <= create_align a ->
  exists k, 3 <= k <= 62 /\ create_align a = 2 ^ k.
Proof.
  intros Hck Ha Hq Hal. unfold create_check in Hck.
  apply andb_prop in Hck as [Hck _]. apply andb_prop in Hck as [Hck _].
  apply andb_prop in Hck as [Hck _]. apply andb_prop in Hck as [H1 H2].
  apply Z.eqb_eq in H1. apply Z.leb_le in H2. unfold create_align, UMEM_ALIGN in *.
  destruct (Z.eqb_spec (ca_align a) 0) as [E|E].
  { destruct (_ <=? _); [exists 4|exists 3]; split; lia || done. }
  destruct ((ca_align a <? 8) && _) eqn:Hs; [exists 3; split; [lia|done]|].
  pose proof (pow2_of_land (ca_align a) ltac:(lia) H1) as E2. pose proof (Z.log2_nonneg (ca_align a)) as Hk.
  set (k := Z.log2 (ca_align a)) in *.
  exists k. split; [|done]. split.
  - destruct (Z.le_gt_cases 3 k) as [|H]; [done|]. assert (2 ^ k < 2 ^ 3) by (apply Z.pow_lt_mono_r; lia). lia.
  - destruct (Z.le_gt_cases k 62) as [|H]; [done|]. assert (2 ^ 62 < 2 ^ k) by (apply Z.pow_lt_mono_r; lia). lia.
Qed.

(** The chunk holds the buffer, its link and its tag. *)
Lemma create_chunk_ok t bufsize k fl :
  3 <= k <= 62 -> 0 < bufsize <= 2 ^ 61 -> 0 <= umem_maxverify t ->
  let cl := create_chunk t bufsize (2 ^ k) fl in
  8 <= cl_chunksize cl < 2 ^ 63 /\ (8 | cl_chunksize cl) /\ bufsize <= cl_chunksize cl /\
  0 <= cl_bufctl cl /\ cl_bufctl cl + 8 <= cl_chunksize cl /\ (8 | cl_bufctl cl) /\
  (2 ^ k | cl_chunksize cl) /\
  (if has fl UMF_BUFTAG then bufsize <= cl_buftag cl /\ cl_buftag cl + 24 <= cl_chunksize cl /\
     cl_bufctl cl = cl_buftag cl /\ 0 <= cl_verify cl <= cl_buftag cl
   else cl_bufctl cl + 8 = roundup bufsize 8 /\ cl_verify cl <= 0).
Proof.
  intros Hk Hb Hv. unfold create_chunk.
  assert (H8 : 8 <= 2 ^ k) by (change 8 with (2 ^ 3); apply Z.pow_le_mono_r; lia).
  assert (Hk2 : 2 ^ k <= 2 ^ 62) by (apply Z.pow_le_mono_r; lia).
  assert (Hd8 : (8 | 2 ^ k)).
  { exists (2 ^ (k - 3)). change 8 with (2 ^ 3). rewrite <- Z.pow_add_r by lia. f_equal. lia. }
  unfold UMEM_ALIGN. rewrite (proj2 (Z.leb_le 8 (2 ^ k))) by done.
  change 8 with (2 ^ 3). rewrite (P2ROUNDUP_small bufsize 3) by lia. change (2 ^ 3) with 8 in *.
  pose proof (roundup_spec bufsize 8 ltac:(lia)) as [[R1 R2] R3]. set (c0 := roundup bufsize 8) in *.
  assert (Hc0 : 8 <= c0) by (apply Z.divide_pos_le; [lia|done]).
  rewrite wsub_small by lia. set (tagged := has fl UMF_BUFTAG).
  assert (Hc1 : exists c1 bc bt, (if tagged then (wadd c0 sizeof_buftag, c0, c0) else (c0, c0 - 8, 0)) = (c1, bc, bt) /\
    c0 <= c1 <= c0 + 24 /\ (8 | c1) /\ 0 <= bc /\ bc + 8 <= c1 /\ (8 | bc) /\ 0 <= bt <= c1 /\
    (if tagged then bt = c0 /\ bt + 24 <= c1 /\ bc = bt else bc + 8 = c0 /\ bt = 0)).
  { unfold sizeof_buftag. destruct tagged.
    - exists (c0 + 24), c0, c0. rewrite wadd_small by lia. split; [done|]. split_and!; try lia; try done.
      apply Z.divide_add_r; [done|]. by exists 3.
    - exists c0, (c0 - 8), 0. split; [done|]. split_and!; try lia; try done.
      apply Z.divide_sub_r; [done|]. by exists 1. }
  destruct Hc1 as (c1 & bc & bt & -> & H1 & H2 & H3 & H4 & H5 & H6 & H7).
  cbn [cl_chunksize cl_bufctl cl_buftag cl_verify cl_contents].
  rewrite P2ROUNDUP_small by lia.
  pose proof (roundup_spec c1 (2 ^ k) ltac:(lia)) as [[R4 R5] R6].
  split_and!; try lia; try done; [exact (Z.divide_trans _ _ _ Hd8 R6)|].
  destruct tagged; (split_and!; try lia); destruct (has fl UMF_DEADBEEF); try lia;
    destruct (has fl UMF_LITE); unfold UMEM_ALIGN; lia.
Qed.

Lemma hashed_slabsize_ok a chunksize q s :
  ca_quantum a = 2 ^ q -> 0 <= q <= 62 -> 0 < chunksize < 2 ^ 63 ->
  has (ca_cflags a) UMC_QCACHE = false -> hashed_slabsize a chunksize = Some s ->
  chunksize <= s < 2 ^ 64 /\ (2 ^ q | s).
Proof.
  intros Hq Hq2 Hc Hqc. unfold hashed_slabsize. rewrite Hq, Hqc.
  destruct (bestfit_loop 8 chunksize (2 ^ q) 1 LONG_MAX 0) as [b|] eqn:Hb; [|done].
  apply (bestfit_loop_sound (k := q)) in Hb as (j & Hj & -> & Hlt); [|done|lia|lia|by left].
  pose proof (fit_size_spec (k := q) Hc ltac:(lia) j ltac:(lia)) as [Hf Hd].
  assert (Hok : chunksize <= fit_size chunksize q j < 2 ^ 64 /\ (2 ^ q | fit_size chunksize q j)) by (split; [nia|done]).
  destruct (_ <? UMEM_MIN_SLAB_OBJECTS); [|by intros [= <-]].
  set (want := P2ROUNDUP _ _). destruct ((UMEM_MIN_SLAB_OBJECTS <=? _) && _) eqn:Hw; [|by intros [= <-]].
  intros [= <-]. apply andb_prop in Hw as [Hw1 Hw2]. apply Z.leb_le in Hw1, Hw2.
  unfold UMEM_MIN_SLAB_OBJECTS, UMEM_MIN_SLAB_CEILING in *.
  pose proof (Z.mul_div_le want chunksize ltac:(lia)). split; [nia|].
  unfold want. rewrite P2ROUNDUP_spec by lia. unfold w64 at 1.
  assert (Hdw : forall x, (2 ^ q | roundup x (2 ^ q) mod 2 ^ 64)).
  { intros x. pose proof (roundup_spec x (2 ^ q) ltac:(lia)) as [_ Hr].
    rewrite Z.mod_eq by lia. apply Z.divide_sub_r; [done|]. apply Z.divide_mul_l.
    exists (2 ^ (64 - q)). rewrite <- Z.pow_add_r by lia. f_equal. lia. }
  apply Hdw.
Qed.

(** The contract with the slab layer. *)
Lemma create_slab_ok a fl fwq chunksize sl q :
  (match fwq with Some x => x | None => ca_quantum a end) = 2 ^ q -> 3 <= q <= 62 ->
  8 <= chunksize < 2 ^ 63 -> (8 | chunksize) -> has (ca_cflags a) UMC_QCACHE = false ->
  create_slab a fl fwq chunksize = inr sl ->
  chunksize <= sl_slabsize sl < 2 ^ 64 /\ (2 ^ q | sl_slabsize sl) /\
  0 <= sl_mincolor sl <= sl_maxcolor sl /\ (8 | sl_mincolor sl) /\
  (sl_mincolor sl < 2 ^ q) /\
  (sl_hash sl = false -> sl_slabsize sl = 2 ^ q) /\
  sl_maxcolor sl + chunksize + (if sl_hash sl then 0 else sizeof_slab) <= sl_slabsize sl.
Proof.
  intros Hq Hq2 Hc Hc8 Hqc. unfold create_slab.
  assert (H8 : 8 <= 2 ^ q) by (change 8 with (2 ^ 3); apply Z.pow_le_mono_r; lia).
  assert (Hq3 : 2 ^ q <= 2 ^ 62) by (apply Z.pow_le_mono_r; lia).
  assert (Hd8 : (8 | 2 ^ q)).
  { exists (2 ^ (q - 3)). change 8 with (2 ^ 3). rewrite <- Z.pow_add_r by lia. f_equal. lia. }
  destruct fwq as [x|].
  - intros [= <-]. subst x. cbn [sl_slabsize sl_mincolor sl_maxcolor sl_hash].
    rewrite P2ROUNDUP_small by lia. pose proof (roundup_spec chunksize (2 ^ q) ltac:(lia)) as [[R1 R2] R3].
    rewrite wsub_small by lia. split_and!; try lia; try done.
    apply Z.divide_sub_r; [|done]. exact (Z.divide_trans _ _ _ Hd8 R3).
  - destruct (_ || _).
    + unfold sizeof_slab. rewrite wadd_small by lia.
      destruct (Z.ltb_spec (ca_quantum a) (chunksize + 72)) as [|Hle]; [done|].
      intros [= <-]. cbn [sl_slabsize sl_mincolor sl_maxcolor sl_hash]. rewrite Hq in *.
      rewrite wsub_small by lia. pose proof (Z.mod_pos_bound (2 ^ q - 72) chunksize ltac:(lia)).
      pose proof (Z.div_mod (2 ^ q - 72) chunksize ltac:(lia)).
      assert (1 <= (2 ^ q - 72) / chunksize) by (apply Z.div_le_lower_bound; lia).
      split_and!; try lia; try done; [by exists 0|]. unfold sizeof_slab. nia.
    + destruct (hashed_slabsize a chunksize) as [s|] eqn:Hs; [|done]. intros [= <-].
      cbn [sl_slabsize sl_mincolor sl_maxcolor sl_hash].
      apply (hashed_slabsize_ok _ _ q) in Hs as [H1 H2]; [|done|lia|lia|done].
      pose proof (Z.mod_pos_bound s chunksize ltac:(lia)). pose proof (Z.div_mod s chunksize ltac:(lia)).
      assert (1 <= s / chunksize) by (apply Z.div_le_lower_bound; lia).
      split_and!; try lia; try done; [by exists 0|]. nia.
Qed.

(** What the library's arenas and tunables look like. *)
Record tunables_ok (t : umem_tunables) : Prop := TunablesOk {
  to_verify : 0 <= umem_maxverify t;
  to_firewall : forall x, umem_firewall_quantum t = Some x -> exists k, 3 <= k <= 62 /\ x = 2 ^ k;
}.

(** C33: Every configuration [umem_cache_create] accepts, quantum caches
    ([UMC_QCACHE], whose slab size the arena dictates) and alignments below 8
    (possible only with [UMC_NOTOUCH]) apart, is one the slab layer can run on:
    chunks are multiples of the alignment and hold the buffer; the tag of a
    tagged cache lies after the buffer, inside the chunk, with the freelist link
    as its first word and beyond what is verified; the link of an untagged cache
    is the last word of the buffer rounded to 8 bytes; at least one chunk and,
    for a raw cache, the slab header fit in a slab at every colour; slab sizes
    are multiples of the arena's quantum and colours stay within it. *)
Theorem create_geom (t : umem_tunables) (a : create_args) (self null cookie : Z)
    (reclaim : bool) (delay interval : Z) (q : Z) (f : slab_cfg) :
  tunables_ok t -> ca_quantum a = 2 ^ q -> 3 <= q <= 62 ->
  0 <= ca_bufsize a <= 2 ^ 61 -> 0 <= ca_align a < 2 ^ 64 -> UMEM_ALIGN <= create_align a ->
  has (ca_cflags a) UMC_QCACHE = false ->
  create_cfg t a self null cookie reclaim delay interval = inr f ->
  (exists q', geom f q') /\ ca_bufsize a <= cache_chunksize f /\ (cache_align f | cache_chunksize f) /\
  (if has (cache_flags f) UMF_BUFTAG then
     ca_bufsize a <= cache_buftag f /\ cache_buftag f + sizeof_buftag <= cache_chunksize f /\
     cache_bufctl f = cache_buftag f /\ 0 <= cache_verify f <= cache_buftag f
   else cache_bufctl f + 8 = roundup (ca_bufsize a) 8 /\ cache_verify f <= 0).
Proof.
  intros [Hv Hfw] Hq Hq2 Hb Ha Hal Hqc Hcfg. unfold create_cfg in Hcfg.
  destruct (create_check a) eqn:Hck; [|done]. cbn [negb] in Hcfg.
  assert (Hq3 : 2 ^ q <= 2 ^ 62) by (apply Z.pow_le_mono_r; lia).
  destruct (create_align_pow2 a Hck Ha ltac:(lia) Hal) as (k & Hk & Ek). rewrite Ek in *.
  assert (Hb0 : ca_bufsize a <> 0).
  { unfold create_check in Hck. apply andb_prop in Hck as [_ H]. intros E. by rewrite E in H. }
  destruct (create_flags t a (2 ^ k)) as [fl fw] eqn:Hfl.
  pose proof (create_chunk_ok t (ca_bufsize a) k fl Hk ltac:(lia) Hv) as (C1 & C2 & C3 & C4 & C5 & C6 & C8 & C7).
  set (cl := create_chunk t (ca_bufsize a) (2 ^ k) fl) in *.
  destruct (_ <? ca_bufsize a); [done|].
  set (fwq := if fw then umem_firewall_quantum t else None) in *.
  assert (Hquant : exists q', 3 <= q' <= 62 /\ (match fwq with Some x => x | None => ca_quantum a end) = 2 ^ q').
  { unfold fwq. destruct fw; [|eauto]. destruct (umem_firewall_quantum t) eqn:E; [|eauto].
    destruct (Hfw z eq_refl) as (k' & ? & ->). eauto. }
  destruct Hquant as (q' & Hq' & Eq').
  destruct (create_slab a fl fwq (cl_chunksize cl)) as [|sl] eqn:Hsl; [done|].
  destruct (create_slab_ok _ _ _ _ _ _ Eq' Hq' C1 C2 Hqc Hsl) as (S1 & S2 & S3 & S4 & S5 & S6 & S7).
  rewrite Eq' in Hcfg. injection Hcfg as <-.
  assert (H2q : 0 < 2 ^ q') by lia. assert (Hk3 : 2 ^ k <= 2 ^ 62) by (apply Z.pow_le_mono_r; lia).
  assert (Hmc : sl_mincolor sl <= (if 2 ^ q' <=? sl_maxcolor sl then wsub (2 ^ q') 1 else sl_maxcolor sl) /\
    (if 2 ^ q' <=? sl_maxcolor sl then wsub (2 ^ q') 1 else sl_maxcolor sl) <= sl_maxcolor sl /\
    (if 2 ^ q' <=? sl_maxcolor sl then wsub (2 ^ q') 1 else sl_maxcolor sl) < 2 ^ q').
  { destruct (Z.leb_spec (2 ^ q') (sl_maxcolor sl)); [|lia].
    assert (2 ^ q' <= 2 ^ 62) by (apply Z.pow_le_mono_r; lia). rewrite wsub_small by lia. lia. }
  assert (Hhash : has (if sl_hash sl then Z.lor fl UMF_HASH else fl) UMF_HASH = false -> sl_hash sl = false).
  { destruct (sl_hash sl); [|done]. rewrite has_lor, orb_comm. done. }
  assert (Htag : has (if sl_hash sl then Z.lor fl UMF_HASH else fl) UMF_BUFTAG = has fl UMF_BUFTAG).
  { destruct (sl_hash sl); [|done]. rewrite has_lor, orb_comm. done. }
  cbn [cache_chunksize cache_align cache_flags cache_buftag cache_bufctl cache_verify].
  split; [|split_and!; [exact C3|exact C8|by rewrite Htag]].
  exists q'. constructor; simpl; try done; try lia.
  - intros Hh. by apply S6, Hhash.
  - rewrite Htag. intros Ht. rewrite Ht in C7. lia.
  - split; [lia|]. exists (2 ^ (k - 3)). change 8 with (2 ^ 3). rewrite <- Z.pow_add_r by lia. f_equal. lia.
  - split_and!; done || lia.
  - destruct (has (if sl_hash sl then _ else _) UMF_HASH) eqn:Hh.
    + destruct (sl_hash sl); unfold sizeof_slab in *; lia.
    + rewrite (Hhash eq_refl) in S7. lia.
Qed.

Definition demo_tunables : umem_tunables := Tunables 0 0 1024 4096 4096 256 None.
Definition demo_args : create_args := CreateArgs true 100 0 0 true 4096 0.

Definition demo_tunables_tag : umem_tunables := Tunables UMF_BUFTAG 0 1024 4096 4096 256 None.

(** An untagged and a tagged cache for objects of 100 bytes. *)
Definition demo_plain_cfg : slab_cfg :=
  SlabCfg 64 128 false 100 16 112 4096 96 0 0 96 0 104 0 0 0 4096 5 true 30 10.
Definition demo_tagged_cfg : slab_cfg :=
  SlabCfg 64 128 false 100 16 128 4096 104 104 104 104 0 56 0 UMF_BUFTAG 0 4096 5 true 30 10.

Lemma create_geom_witness :
  create_cfg demo_tunables demo_args 64 128 5 true 30 10 = inr demo_plain_cfg /\
  (exists q', geom demo_plain_cfg q') /\ cache_bufctl demo_plain_cfg + 8 = roundup 100 8 /\
  create_cfg demo_tunables_tag demo_args 64 128 5 true 30 10 = inr demo_tagged_cfg /\
  (exists q', geom demo_tagged_cfg q') /\ 100 <= cache_buftag demo_tagged_cfg.
Proof.
  assert (E1 : create_cfg demo_tunables demo_args 64 128 5 true 30 10 = inr demo_plain_cfg) by (vm_compute; reflexivity).
  assert (E2 : create_cfg demo_tunables_tag demo_args 64 128 5 true 30 10 = inr demo_tagged_cfg) by (vm_compute; reflexivity).
  assert (Hb : 0 <= ca_bufsize demo_args <= 2 ^ 61) by (split; vm_compute; discriminate).
  assert (Ha : 0 <= ca_align demo_args < 2 ^ 64) by (split; vm_compute; [discriminate|reflexivity]).
  assert (Hl : UMEM_ALIGN <= create_align demo_args) by (vm_compute; discriminate).
  assert (T1 : tunables_ok demo_tunables) by (split; [vm_compute; discriminate|discriminate]).
  assert (T2 : tunables_ok demo_tunables_tag) by (split; [vm_compute; discriminate|discriminate]).
  assert (Hq : ca_quantum demo_args = 2 ^ 12) by (vm_compute; reflexivity).
  pose proof (create_geom _ _ _ _ _ _ _ _ 12 _ T1 Hq ltac:(lia) Hb Ha Hl eq_refl E1) as (H1 & _ & _ & H2).
  pose proof (create_geom _ _ _ _ _ _ _ _ 12 _ T2 Hq ltac:(lia) Hb Ha Hl eq_refl E2) as (H3 & _ & _ & H4).
  assert (F1 : has (cache_flags demo_plain_cfg) UMF_BUFTAG = false) by (vm_compute; reflexivity).
  assert (F2 : has (cache_flags demo_tagged_cfg) UMF_BUFTAG = true) by (vm_compute; reflexivity).
  rewrite F1 in H2. rewrite F2 in H4. destruct H2 as [H2 _]. destruct H4 as [H4 _].
  split; [exact E1|]. split; [exact H1|]. split; [exact H2|]. split; [exact E2|]. split; [exact H3|exact H4].
Defined.

(** The best-fit loop ends within its eight turns and returns a slab size
    whose waste per object is least among the slabs for one to eight objects;
    the turns it skips would have tried sizes it already tried. *)
Theorem bestfit_least_waste (chunksize k : Z) :
  0 < chunksize < 2 ^ 63 -> 0 <= k < 63 ->
  (forall i, 1 <= i <= 8 -> fit_size chunksize k i < 2 ^ 64) ->
  exists b, bestfit_loop 8 chunksize (2 ^ k) 1 LONG_MAX 0 = Some b /\
    (exists j, 1 <= j <= 8 /\ b = fit_size chunksize k j) /\
    forall j, 1 <= j <= 8 -> fit_waste chunksize b <= fit_waste chunksize (fit_size chunksize k j).
Proof.
  intros Hc Hk Hlt. apply bestfit_loop_spec; try done. by left.
Qed.

Lemma bestfit_least_waste_witness :
  bestfit_loop 8 1536 (2 ^ 12) 1 LONG_MAX 0 = Some 12288 /\
  exists b, bestfit_loop 8 1536 (2 ^ 12) 1 LONG_MAX 0 = Some b /\
    (exists j, 1 <= j <= 8 /\ b = fit_size 1536 12 j) /\
    forall j, 1 <= j <= 8 -> fit_waste 1536 b <= fit_waste 1536 (fit_size 1536 12 j).
Proof.
  split; [vm_compute; reflexivity|]. apply (bestfit_least_waste 1536 12); [lia|lia|].
  intros i Hi. unfold fit_size. pose proof (roundup_spec (1536 * i) (2 ^ 12) ltac:(lia)). lia.
Defined.
