(* ===== verification/AllocSizes.v ===== *)
(** * Size classes of umem_alloc

    The table of cache sizes ([umem_alloc_sizes], changed by the size_add,
    size_remove and size_clear options before initialisation) and the table
    [umem_alloc_table] that maps a request to its cache, as [umem_cache_init]
    fills it. *)
From Stdlib Require Import Sorting.Sorted.
From S2P Require Import Prelude Machine SlabModel.

Definition UMEM_MAXBUF : Z := 131072.
Definition UMEM_ALIGN_SHIFT : Z := 3.

(** ** The table of sizes *)

Definition umem_alloc_sizes : list Z :=
  [8; 16; 32; 48; 64; 80; 96; 112; 128; 160; 192; 224; 256; 320; 384; 448; 512; 640; 768; 896; 1024;
   1280; 1536; 1792; 2048; 2560; 3072; 3584; 4096; 5120; 6144; 7168; 8192; 10240; 12288; 14336; 16384;
   20480; 24576; 32768; 40960; 49152; 57344; 65536; 73728; 81920; 98304; 114688; UMEM_MAXBUF]
  ++ replicate 16 0.

Definition umem_alloc_sizes_clear (t : list Z) : list Z :=
  UMEM_MAXBUF :: replicate (length t - 1) 0.

(** The scan of [umem_alloc_sizes_add]: the first slot with a larger size, or
    [None] when the size is already there. *)
Fixpoint size_slot (size : Z) (t : list Z) : option nat :=
  match t with
  | [] => Some 0%nat
  | cur :: t' =>
      if cur =? size then None
      else if size <? cur then Some 0%nat
      else S <$> size_slot size t'
  end.

Definition umem_alloc_sizes_add (t : list Z) (size_arg : Z) : result (list Z) :=
  if size_arg =? 0 then Ok t
  else if UMEM_MAXBUF <? size_arg then Ok t
  else if negb (t !!! (length t - 1)%nat =? 0) then Ok t
  else
    let size := if P2PHASE size_arg UMEM_ALIGN =? 0 then size_arg else P2ROUNDUP size_arg UMEM_ALIGN in
    match size_slot size t with
    | None => Ok t
    | Some i =>
        if decide (i < length t)%nat then Ok (<[i := size]> (shift_up (length t - 1 - i) i t))
        else Panic "umem_alloc_sizes_add: store past the table"
    end.

(** The scan of [umem_alloc_sizes_remove]: where the size is (the length when
    the loop runs off the table), or [None] when it is reported missing. *)
Fixpoint size_index (size : Z) (t : list Z) : option nat :=
  match t with
  | [] => Some 0%nat
  | cur :: t' =>
      if cur =? size then Some 0%nat
      else if (size <? cur) || (cur =? 0) then None
      else S <$> size_index size t'
  end.

Definition umem_alloc_sizes_remove (t : list Z) (size : Z) : result (list Z) :=
  if size =? UMEM_MAXBUF then Ok t
  else match size_index size t with
       | None => Ok t
       | Some i =>
           let t := shift_down (length t - 1 - i) i t in
           let i := Nat.max i (length t - 1) in
           if decide (i < length t)%nat then Ok (<[i := 0]> t)
           else Panic "umem_alloc_sizes_remove: store past the table"
       end.

(** The options, in the order they are given. *)
Inductive size_op : Type :=
| SizeClear
| SizeAdd (size : Z)
| SizeRemove (size : Z).

Definition size_step (t : list Z) (o : size_op) : result (list Z) :=
  match o with
  | SizeClear => Ok (umem_alloc_sizes_clear t)
  | SizeAdd n => umem_alloc_sizes_add t n
  | SizeRemove n => umem_alloc_sizes_remove t n
  end.

Fixpoint size_run (t : list Z) (os : list size_op) : result (list Z) :=
  match os with
  | [] => Ok t
  | o :: os' => do t <- size_step t o; size_run t os'
  end.

(** ** The map from requests to caches *)

(** [while (size <= cache_size)]: the caches are told apart by [cp]; the fuel
    is the length of the table. *)
Fixpoint fill_class (fuel : nat) (table : list Z) (cp size cache_size : Z) : list Z * Z :=
  match fuel with
  | O => (table, size)
  | S n =>
      if size <=? cache_size
      then fill_class n (<[Z.to_nat (Z.shiftr (wsub size 1) UMEM_ALIGN_SHIFT) := cp]> table) cp
             (wadd size UMEM_ALIGN) cache_size
      else (table, size)
  end.

Fixpoint fill_table (sizes caches : list Z) (table : list Z) (size : Z) : list Z * Z :=
  match sizes, caches with
  | cs :: sizes', cp :: caches' =>
      if cs =? 0 then (table, size)
      else
        let '(table, size) := fill_class (length table) table cp size cs in
        fill_table sizes' caches' table size
  | _, _ => (table, size)
  end.

(** [umem_alloc_table] after initialisation; [null] is [&umem_null_cache]. *)
Definition umem_alloc_table (sizes caches : list Z) (null : Z) : list Z * Z :=
  fill_table sizes caches
    (replicate (Z.to_nat (Z.shiftr UMEM_MAXBUF UMEM_ALIGN_SHIFT)) null) UMEM_ALIGN.

(** Which cache [_umem_alloc] and [_umem_free] turn to for a request. *)
Inductive alloc_class : Type :=
| ClassNone                  (* size 0 *)
| ClassCache (cp : Z)
| ClassOversize.

Definition size_class (table : list Z) (size : Z) : alloc_class :=
  let index := Z.shiftr (wsub size 1) UMEM_ALIGN_SHIFT in
  if index <? Z.shiftr UMEM_MAXBUF UMEM_ALIGN_SHIFT then ClassCache (table !!! Z.to_nat index)
  else if size =? 0 then ClassNone
  else ClassOversize.

(** ** The invariant of the table of sizes *)

Definition size_ok (x : Z) : Prop := 0 < x /\ (8 | x).

(** The sizes in use, increasing up to the largest, then the free slots. *)
Record sizes_ok (t l : list Z) (k : nat) : Prop := SizesOk {
  sz_split : t = l ++ replicate k 0;
  sz_sorted : StronglySorted Z.lt l;
  sz_each : Forall size_ok l;
  sz_last : last l = Some UMEM_MAXBUF;
}.

Lemma sorted_last l m x : StronglySorted Z.lt l -> last l = Some m -> x ∈ l -> x <= m.
Proof.
  revert x. induction l as [|a l IH]; intros x Hs Hl Hx; [by apply elem_of_nil in Hx|].
  apply StronglySorted_inv in Hs as [Hs Ha]. destruct l as [|b l].
  - injection Hl as <-. apply list_elem_of_singleton in Hx as ->. lia.
  - change (last (b :: l) = Some m) in Hl. apply elem_of_cons in Hx as [->|Hx]; [|by apply IH].
    pose proof (IH b Hs Hl ltac:(set_solver)). rewrite Forall_forall in Ha.
    specialize (Ha b ltac:(set_solver)). simpl in Ha. lia.
Qed.

Lemma insert_at {A} (l1 l2 : list A) x y : <[length l1 := x]> (l1 ++ y :: l2) = l1 ++ x :: l2.
Proof. rewrite insert_app_r_alt by done. by rewrite Nat.sub_diag. Qed.

Lemma last_split (l : list Z) m : last l = Some m -> exists l0, l = l0 ++ [m].
Proof. rewrite last_Some. by intros [l0 ->]; eauto. Qed.

Lemma umem_alloc_sizes_ok :
  sizes_ok umem_alloc_sizes (take 49 umem_alloc_sizes) 16.
Proof.
  constructor; [reflexivity| | |reflexivity].
  - assert (Hd : Sorted Z.lt (take 49 umem_alloc_sizes)) by (vm_compute; repeat constructor).
    apply Sorted_StronglySorted; [intros x y z; lia|done].
  - assert (Hb : forallb (fun x => (0 <? x) && (x mod 8 =? 0)) (take 49 umem_alloc_sizes) = true) by (vm_compute; reflexivity).
    apply Forall_forall. intros x Hx. rewrite forallb_forall in Hb. apply list_elem_of_In in Hx.
    specialize (Hb x Hx). apply andb_prop in Hb as [H1 H2]. apply Z.ltb_lt in H1. apply Z.eqb_eq in H2.
    split; [done|]. apply Z.mod_divide; lia.
Qed.

Lemma clear_ok t l k : sizes_ok t l k -> sizes_ok (umem_alloc_sizes_clear t) [UMEM_MAXBUF] (length t - 1).
Proof.
  intros _. constructor; try done; [by repeat constructor|].
  apply Forall_singleton. split; [done|by exists 16384].
Qed.

Lemma size_slot_spec size l r m :
  StronglySorted Z.lt l -> m ∈ l -> size <= m ->
  (size ∈ l /\ size_slot size (l ++ r) = None) \/
  (exists l1 x l2, l = l1 ++ x :: l2 /\ Forall (fun y => y < size) l1 /\ size < x /\
     size_slot size (l ++ r) = Some (length l1)).
Proof.
  induction l as [|a l IH]; intros Hs Hm Hle; [by apply elem_of_nil in Hm|]. simpl.
  apply StronglySorted_inv in Hs as [Hs Ha]. destruct (Z.eqb_spec a size) as [->|Hne]; [left; split; [set_solver|done]|].
  destruct (Z.ltb_spec size a) as [Hlt|Hge]; [right; exists [], a, l; split_and!; try done|].
  apply elem_of_cons in Hm as [->|Hm]; [lia|].
  destruct (IH Hs Hm Hle) as [[Hin ->]|(l1 & x & l2 & -> & Hf & Hx & ->)]; [left; split; [set_solver|done]|right].
  exists (a :: l1), x, l2. split_and!; try done. constructor; [lia|done].
Qed.

Lemma size_index_spec size l r :
  StronglySorted Z.lt l -> Forall size_ok l ->
  (exists l1 l2, l = l1 ++ size :: l2 /\ size_index size (l ++ r) = Some (length l1)) \/
  ((size ∉ l) /\ (exists m, m ∈ l /\ size < m) /\ size_index size (l ++ r) = None) \/
  ((forall x, x ∈ l -> x < size) /\ size_index size (l ++ r) = (Nat.add (length l) <$> size_index size r)).
Proof.
  induction l as [|a l IH]; intros Hs Hf; simpl.
  { right; right. split; [intros x Hx; by apply elem_of_nil in Hx|]. by destruct (size_index size r). }
  apply StronglySorted_inv in Hs as [Hs Ha]. apply Forall_cons in Hf as [[Ha0 _] Hf].
  destruct (Z.eqb_spec a size) as [->|Hne]; [left; by exists [], l|].
  rewrite (proj2 (Z.eqb_neq a 0)) by lia. rewrite orb_false_r.
  destruct (Z.ltb_spec size a) as [Hlt|Hge].
  - right; left. split; [|split; [exists a; split; [set_solver|done]|done]].
    rewrite Forall_forall in Ha. intros Hin. apply elem_of_cons in Hin as [->|Hin]; [done|].
    specialize (Ha _ Hin). simpl in Ha. lia.
  - destruct (IH Hs Hf) as [(l1 & l2 & -> & ->)|[(Hni & (m & Hm & Hlt) & ->)|(Hall & ->)]].
    + left. by exists (a :: l1), l2.
    + right; left. split_and!; [set_solver|exists m; split; [set_solver|done]|done].
    + right; right. split; [|by destruct (size_index size r)].
      intros x Hx. apply elem_of_cons in Hx as [->|Hx]; [lia|auto].
Qed.

(** The size an accepted request stands for. *)
Lemma add_rounds size :
  0 < size <= UMEM_MAXBUF ->
  (if P2PHASE size UMEM_ALIGN =? 0 then size else P2ROUNDUP size UMEM_ALIGN) = roundup size 8.
Proof.
  intros Hs. unfold UMEM_MAXBUF in *. change UMEM_ALIGN with (2 ^ 3).
  rewrite P2PHASE_spec, P2ROUNDUP_small by lia. change (2 ^ 3) with 8.
  destruct (Z.eqb_spec (size mod 8) 0) as [E|]; [|done].
  symmetry. apply roundup_id; [lia|]. by apply Z.mod_divide.
Qed.

Lemma sorted_insert_mid size l1 x l2 :
  StronglySorted Z.lt (l1 ++ x :: l2) -> Forall (fun y => y < size) l1 -> size < x ->
  StronglySorted Z.lt (l1 ++ size :: x :: l2).
Proof.
  induction l1 as [|a l1 IH]; simpl; intros Hs Hf Hx.
  - constructor; [done|]. apply StronglySorted_inv in Hs as [_ Hs]. constructor; [done|].
    eapply Forall_impl; [exact Hs|]. simpl. lia.
  - apply StronglySorted_inv in Hs as [Hs Ha]. apply Forall_cons in Hf as [Ha' Hf].
    constructor; [by apply IH|]. rewrite Forall_app in Ha |- *. destruct Ha as [H1 H2]. split; [done|].
    by constructor.
Qed.

Lemma sorted_delete_mid size l1 l2 :
  StronglySorted Z.lt (l1 ++ size :: l2) -> StronglySorted Z.lt (l1 ++ l2).
Proof.
  induction l1 as [|a l1 IH]; simpl; intros Hs; apply StronglySorted_inv in Hs as [Hs Ha]; [done|].
  constructor; [by apply IH|]. rewrite Forall_app in Ha |- *. destruct Ha as [H1 H2].
  apply Forall_cons in H2 as [_ H2]. done.
Qed.

Lemma full_iff t l k : sizes_ok t l k -> negb (t !!! (length t - 1)%nat =? 0) = (k =? 0)%nat.
Proof.
  intros [-> _ _ Hl]. assert (E : last (l ++ replicate k 0) = Some (if (k =? 0)%nat then UMEM_MAXBUF else 0)).
  { destruct k as [|k]; simpl; [by rewrite app_nil_r|]. rewrite replicate_cons_app, app_assoc. apply last_snoc. }
  rewrite last_lookup in E. rewrite Nat.sub_1_r.
  rewrite (list_lookup_total_correct _ _ _ E). destruct k; reflexivity.
Qed.

Lemma add_ok t l k size :
  sizes_ok t l k -> 0 <= size < 2 ^ 64 ->
  exists t' l' k', umem_alloc_sizes_add t size = Ok t' /\ sizes_ok t' l' k' /\ length t' = length t /\
    forall x, x ∈ l' <-> x ∈ l \/ (x = roundup size 8 /\ 0 < size <= UMEM_MAXBUF /\ k <> 0%nat).
Proof.
  intros Hok Hsz. pose proof (full_iff _ _ _ Hok) as Hfull. pose proof Hok as [Ht Hs He Hl].
  unfold umem_alloc_sizes_add.
  destruct (Z.eqb_spec size 0) as [->|H0]; [exists t, l, k; split_and!; try done; intros x; naive_solver lia|].
  destruct (Z.ltb_spec UMEM_MAXBUF size) as [Hgt|Hle]; [exists t, l, k; split_and!; try done; intros x; naive_solver lia|].
  rewrite Hfull. destruct k as [|k]; [exists t, l, 0%nat; split_and!; try done; intros x; naive_solver lia|]. cbn [Nat.eqb].
  rewrite add_rounds by lia. pose proof (roundup_spec size 8 ltac:(lia)) as [[R1 R2] R3].
  assert (Rm : roundup size 8 <= UMEM_MAXBUF) by (apply roundup_least; [lia|by exists 16384|done]).
  assert (Hm : UMEM_MAXBUF ∈ l) by (destruct (last_split _ _ Hl) as [l0 ->]; set_solver).
  destruct (size_slot_spec (roundup size 8) l (replicate (S k) 0) UMEM_MAXBUF Hs Hm Rm)
    as [[Hin E]|(l1 & x & l2 & El & Hf & Hx & E)]; rewrite <- Ht in E; rewrite E.
  - exists t, l, (S k). split_and!; try done. intros x. split; [by left|]. intros [?|(-> & _)]; done.
  - assert (Ht2 : t = l1 ++ ((x :: l2) ++ replicate k 0) ++ 0 :: []).
    { rewrite Ht, El, replicate_S_end. by rewrite <- !app_assoc. }
    assert (Hlen : length t = (length l1 + S (length l2) + k + 1)%nat).
    { rewrite Ht2, !length_app, length_replicate. simpl. lia. }
    rewrite decide_True by lia.
    destruct (shift_up_spec (length t - 1 - length l1) l1 ((x :: l2) ++ replicate k 0) [] 0) as [y Hy].
    { rewrite length_app, length_replicate. simpl. lia. }
    rewrite <- Ht2 in Hy. rewrite Hy. rewrite insert_at, app_nil_r.
    exists (l1 ++ roundup size 8 :: (x :: l2) ++ replicate k 0), (l1 ++ roundup size 8 :: x :: l2), k.
    split; [done|]. split; [|split].
    + constructor; [by rewrite <- app_assoc|subst l; by apply sorted_insert_mid| |].
      * subst l. rewrite Forall_app in He |- *. destruct He as [He1 He2]. split; [done|].
        constructor; [split; [lia|done]|done].
      * subst l. rewrite <- Hl. rewrite !last_app. simpl. by destruct l2.
    + rewrite Hlen, length_app. simpl. rewrite length_app, length_replicate. lia.
    + intros z. subst l. rewrite !elem_of_app, !elem_of_cons. naive_solver lia.
Qed.

Lemma remove_ok t l k size :
  sizes_ok t l k -> 0 <= size -> (size <= UMEM_MAXBUF \/ k <> 0%nat) ->
  exists t' l' k', umem_alloc_sizes_remove t size = Ok t' /\ sizes_ok t' l' k' /\ length t' = length t /\
    forall x, x ∈ l' <-> x ∈ l /\ (x <> size \/ x = UMEM_MAXBUF).
Proof.
  intros Hok Hsz Hk. pose proof Hok as [Ht Hs He Hl]. unfold umem_alloc_sizes_remove.
  destruct (Z.eqb_spec size UMEM_MAXBUF) as [->|Hm]; [exists t, l, k; split_and!; try done; intros x; destruct (Z.eq_dec x UMEM_MAXBUF); naive_solver|].
  assert (Hin : UMEM_MAXBUF ∈ l) by (destruct (last_split _ _ Hl) as [l0 ->]; set_solver).
  destruct (size_index_spec size l (replicate k 0) Hs He) as [(l1 & l2 & El & E)|[(Hni & _ & E)|(Hall & E)]];
    rewrite <- Ht in E; rewrite E.
  - assert (Ht2 : t = l1 ++ size :: (l2 ++ replicate k 0) ++ []) by (rewrite Ht, El, app_nil_r, <- app_assoc; done).
    assert (Hlen : length t = (length l1 + 1 + length l2 + k)%nat).
    { rewrite Ht2, length_app. simpl. rewrite !length_app, length_replicate. simpl. lia. }
    destruct (shift_down_spec (length t - 1 - length l1) l1 (l2 ++ replicate k 0) [] size) as [y Hy].
    { rewrite length_app, length_replicate. lia. }
    rewrite <- Ht2 in Hy. rewrite Hy. rewrite decide_True by (rewrite !length_app, length_replicate; simpl; lia).
    assert (Emax : Nat.max (length l1) (length (l1 ++ (l2 ++ replicate k 0) ++ [y]) - 1) = length (l1 ++ l2 ++ replicate k 0))
      by (rewrite !length_app, length_replicate; simpl; lia).
    rewrite Emax. replace (l1 ++ (l2 ++ replicate k 0) ++ [y]) with ((l1 ++ l2 ++ replicate k 0) ++ y :: [])
      by (by rewrite <- !app_assoc). rewrite insert_at.
    assert (Hl2 : l2 <> []) by (intros ->; subst l; rewrite last_snoc in Hl; congruence).
    exists ((l1 ++ l2 ++ replicate k 0) ++ [0]), (l1 ++ l2), (S k). split; [done|]. split; [|split].
    + constructor; [by rewrite replicate_S_end, <- !app_assoc|subst l; by eapply sorted_delete_mid| |].
      * subst l. rewrite Forall_app in He |- *. destruct He as [? He2]. by apply Forall_cons in He2 as [_ ?].
      * subst l. rewrite <- Hl, !last_app. destruct l2; [done|]. simpl. by destruct (last (_ :: _)).
    + rewrite !length_app, length_replicate. simpl. lia.
    + intros z. subst l. rewrite !elem_of_app, !elem_of_cons.
      assert (Hnd : NoDup (l1 ++ size :: l2)).
      { clear - Hs. induction (l1 ++ size :: l2) as [|a r IH]; [constructor|]. apply StronglySorted_inv in Hs as [Hs Ha].
        constructor; [|by apply IH]. intros Hin. rewrite Forall_forall in Ha. specialize (Ha a Hin). simpl in Ha. lia. }
      apply NoDup_app in Hnd as (_ & Hnd1 & Hnd2). apply NoDup_cons in Hnd2 as [Hnd2 _].
      split; [intros [H|H]; (split; [tauto|left; intros ->; by (apply (Hnd1 size); set_solver) || done])|].
      intros [[H|[->|H]] Hx]; try tauto.
  - exists t, l, k. split_and!; try done. intros x. split; [|tauto]. intros H. split; [done|left; congruence].
  - specialize (Hall _ Hin). destruct Hk as [?|Hk]; [lia|]. destruct k as [|k]; [done|]. cbn [replicate size_index].
    assert (Hs0 : 0 < size) by (unfold UMEM_MAXBUF in *; lia).
    rewrite (proj2 (Z.eqb_neq 0 size)), orb_true_r by lia. simpl.
    exists t, l, (S k). split_and!; try done. intros x. split; [|tauto]. intros H. split; [done|left].
    intros ->. pose proof (sorted_last _ _ _ Hs Hl H). unfold UMEM_MAXBUF in *. lia.
Qed.

(** ** Filling the map *)

Lemma table_index size : 0 < size <= UMEM_MAXBUF -> Z.shiftr (wsub size 1) UMEM_ALIGN_SHIFT = (size - 1) / 8.
Proof.
  intros Hs. unfold UMEM_MAXBUF in Hs. rewrite wsub_small by lia. rewrite Z.shiftr_div_pow2 by done. done.
Qed.

(** The loop for one cache writes the slots of the sizes it serves. *)
Lemma fill_class_run n table cp a b :
  0 <= a <= b -> b <= 16384 -> b - a <= Z.of_nat n ->
  Z.of_nat (length table) = 16384 ->
  exists table', fill_class n table cp (8 * a + 8) (8 * b) = (table', 8 * b + 8) /\
    Z.of_nat (length table') = 16384 /\
    (forall j, a <= j < b -> table' !! Z.to_nat j = Some cp) /\
    (forall j, 0 <= j < a -> table' !! Z.to_nat j = table !! Z.to_nat j).
Proof.
  revert table a. induction n as [|n IH]; intros table a Ha Hb Hn Hlen; simpl.
  - assert (a = b) as -> by lia. exists table. split_and!; try done; intros; lia.
  - destruct (Z.leb_spec (8 * a + 8) (8 * b)) as [Hle|Hgt].
    2:{ assert (a = b) as -> by lia. exists table. split_and!; try done; intros; lia. }
    rewrite table_index by (unfold UMEM_MAXBUF; lia).
    assert (E : (8 * a + 8 - 1) / 8 = a).
    { symmetry. apply Z.div_unique with 7; lia. }
    rewrite E. rewrite wadd_small by (unfold UMEM_ALIGN; lia). unfold UMEM_ALIGN.
    replace (8 * a + 8 + 8) with (8 * (a + 1) + 8) by lia.
    destruct (IH (<[Z.to_nat a := cp]> table) (a + 1)) as (t' & -> & Hl' & H1 & H2); try lia; [by rewrite length_insert|].
    exists t'. split_and!; try done.
    + intros j Hj. destruct (Z.eq_dec j a) as [->|]; [|apply H1; lia].
      rewrite H2 by lia. apply list_lookup_insert_eq. lia.
    + intros j Hj. rewrite H2 by lia. apply list_lookup_insert_ne. lia.
Qed.

(** The cache of the least size that holds the request. *)
Definition serves (sizes caches : list Z) (r cp : Z) : Prop :=
  exists i s, sizes !! i = Some s /\ caches !! i = Some cp /\ r <= s /\
    forall i' s', sizes !! i' = Some s' -> r <= s' -> s <= s'.

Lemma fill_table_run l k caches table b :
  StronglySorted Z.lt l -> Forall size_ok l -> (forall x, x ∈ l -> x <= UMEM_MAXBUF) ->
  (length l <= length caches)%nat -> Z.of_nat (length table) = 16384 ->
  0 <= b -> (forall x, x ∈ l -> 8 * b < x) ->
  exists table', fill_table (l ++ replicate k 0) caches table (8 * b + 8) =
      (table', default (8 * b) (last l) + 8) /\ Z.of_nat (length table') = 16384 /\
    (forall j, 0 <= j < b -> table' !! Z.to_nat j = table !! Z.to_nat j) /\
    (forall r, 8 * b < r -> (exists x, x ∈ l /\ r <= x) ->
       exists cp, table' !! Z.to_nat ((r - 1) / 8) = Some cp /\ serves l caches r cp).
Proof.
  revert caches table b. induction l as [|s l IH]; intros caches table b Hs He Hmax Hc Hlen Hb Hlt.
  - exists table. split; [by destruct k, caches|]. split_and!; try done. intros r _ (x & Hx & _). by apply elem_of_nil in Hx.
  - destruct caches as [|cp caches]; [simpl in Hc; lia|]. simpl.
    apply StronglySorted_inv in Hs as [Hs Ha]. apply Forall_cons in He as [[Hs0 [a Hsa]] He].
    rewrite (proj2 (Z.eqb_neq s 0)) by lia. rewrite Forall_forall in Ha.
    pose proof (Hmax s ltac:(set_solver)) as Hsm. pose proof (Hlt s ltac:(set_solver)) as Hsb.
    unfold UMEM_MAXBUF in Hsm. replace s with (8 * a) by lia.
    destruct (fill_class_run (length table) table cp b a) as (t1 & -> & Hl1 & H1 & H2); try lia.
    destruct (IH caches t1 a) as (t2 & E2 & Hl2 & H3 & H4); try done; try lia.
    { intros x Hx. apply Hmax. set_solver. } { simpl in Hc. lia. }
    { intros x Hx. specialize (Ha x Hx). simpl in Ha. lia. }
    exists t2. split.
    { rewrite E2. f_equal. destruct l; [simpl; lia|]. change (last (8 * a :: z :: l)) with (last (z :: l)).
      destruct (last (z :: l)) eqn:El; [done|]. by apply last_None in El. }
    split_and!; try done.
    + intros j Hj. rewrite H3, H2 by lia. done.
    + intros r Hr (x & Hx & Hrx). destruct (Z.le_gt_cases r (8 * a)) as [Hra|Hra].
      * assert (Hj : b <= (r - 1) / 8 < a) by (split; [apply Z.div_le_lower_bound; lia|apply Z.div_lt_upper_bound; lia]).
        exists cp. split; [rewrite H3, H1 by lia; done|].
        exists 0%nat, (8 * a). split_and!; try done. intros [|i'] s' Hi'; simpl in Hi'; [injection Hi' as <-; lia|].
        apply list_elem_of_lookup_2 in Hi'. specialize (Ha _ Hi'). simpl in Ha. lia.
      * destruct (H4 r ltac:(lia)) as (cp' & E' & i & s' & Hi1 & Hi2 & Hi3 & Hi4).
        { exists x. apply elem_of_cons in Hx as [->|Hx]; [lia|done]. }
        exists cp'. split; [done|]. exists (S i), s'. split_and!; try done.
        intros [|i'] s'' Hi'; simpl in Hi'; [injection Hi' as <-; lia|by eapply Hi4].
Qed.

Lemma alloc_table_run sizes l k caches null :
  sizes_ok sizes l k -> (length l <= length caches)%nat ->
  exists table, umem_alloc_table sizes caches null = (table, UMEM_MAXBUF + UMEM_ALIGN) /\
    Z.of_nat (length table) = 16384 /\
    forall r, 0 < r <= UMEM_MAXBUF -> exists cp, table !! Z.to_nat ((r - 1) / 8) = Some cp /\ serves l caches r cp.
Proof.
  intros [-> Hs He Hl] Hc. unfold umem_alloc_table.
  set (t0 := replicate _ null).
  assert (Ht0 : Z.of_nat (length t0) = 16384) by (unfold t0; rewrite length_replicate; reflexivity).
  clearbody t0.
  destruct (fill_table_run l k caches t0 0) as (t & E & Hlen & _ & H); try done.
  { intros x Hx. by eapply sorted_last. }
  { intros x Hx. rewrite Forall_forall in He. destruct (He x Hx). lia. }
  rewrite Hl in E. exists t. split; [exact E|split; [done|]].
  intros r Hr. apply H; [lia|]. exists UMEM_MAXBUF. split; [|lia].
  destruct (last_split _ _ Hl) as [l0 ->]. set_solver.
Qed.

(** ** Properties *)

(** What an option asks of the set of sizes [l], with [k] slots free. *)
Definition size_effect (o : size_op) (l : list Z) (k : nat) (x : Z) : Prop :=
  match o with
  | SizeClear => x = UMEM_MAXBUF
  | SizeAdd n => x ∈ l \/ (x = roundup n 8 /\ 0 < n <= UMEM_MAXBUF /\ k <> 0%nat)
  | SizeRemove n => x ∈ l /\ (x <> n \/ x = UMEM_MAXBUF)
  end.
(** Sizes are 64-bit; removing one beyond the largest needs a free slot. *)
Definition size_arg_ok (o : size_op) (k : nat) : Prop :=
  match o with
  | SizeClear => True
  | SizeAdd n => 0 <= n < 2 ^ 64
  | SizeRemove n => 0 <= n < 2 ^ 64 /\ (n <= UMEM_MAXBUF \/ k <> 0%nat)
  end.

(** Every size option keeps the table of cache sizes strictly increasing,
    made of multiples of 8, ending in [UMEM_MAXBUF] and padded with zeros, and
    changes the set of sizes exactly as the option says: an added size is
    rounded up to 8 and ignored when it is zero, too large or the table is
    full; a removed one disappears unless it is the largest; clearing leaves
    the largest alone. *)
Theorem size_options_refine (t l : list Z) (k : nat) (o : size_op) :
  sizes_ok t l k -> size_arg_ok o k ->
  exists t' l' k', size_step t o = Ok t' /\ sizes_ok t' l' k' /\
    forall x, x ∈ l' <-> size_effect o l k x.
Proof.
  intros Hok Ha. destruct o as [|n|n]; simpl in *.
  - exists (umem_alloc_sizes_clear t), [UMEM_MAXBUF], (length t - 1)%nat. split; [done|].
    split; [by eapply clear_ok|]. intros x. apply list_elem_of_singleton.
  - destruct (add_ok t l k n Hok Ha) as (t' & l' & k' & ? & ? & _ & ?). eauto 10.
  - destruct Ha as [Ha Hk]. destruct (remove_ok t l k n Hok ltac:(lia) Hk) as (t' & l' & k' & ? & ? & _ & ?). eauto 10.
Qed.

Lemma size_options_refine_witness :
  (do t <- size_step umem_alloc_sizes (SizeAdd 1000); Ok (t !! 20%nat)) = Ok (Some 1000) /\
  exists t' l' k', size_step umem_alloc_sizes (SizeAdd 1000) = Ok t' /\ sizes_ok t' l' k' /\
    forall x, x ∈ l' <-> size_effect (SizeAdd 1000) (take 49 umem_alloc_sizes) 16 x.
Proof.
  split; [vm_compute; reflexivity|].
  apply (size_options_refine umem_alloc_sizes (take 49 umem_alloc_sizes) 16 (SizeAdd 1000)); [apply umem_alloc_sizes_ok|].
  simpl. lia.
Defined.

(** C25: Filling the map of requests to caches ends with every slot written (the
    assertion at its end holds), and [umem_alloc] and [umem_free] turn a
    request of 1 to [UMEM_MAXBUF] bytes to the cache of the least size that
    holds it, larger ones to the oversize arena and zero to neither. *)
Theorem size_class_least (sizes l : list Z) (k : nat) (caches : list Z) (null r : Z) :
  sizes_ok sizes l k -> (length l <= length caches)%nat -> 0 <= r < 2 ^ 64 ->
  exists table, umem_alloc_table sizes caches null = (table, UMEM_MAXBUF + UMEM_ALIGN) /\
    (r = 0 -> size_class table r = ClassNone) /\
    (0 < r <= UMEM_MAXBUF -> exists cp, size_class table r = ClassCache cp /\ serves l caches r cp) /\
    (UMEM_MAXBUF < r -> size_class table r = ClassOversize).
Proof.
  intros Hok Hc Hr. destruct (alloc_table_run sizes l k caches null Hok Hc) as (t & E & Hlen & H).
  exists t. split; [done|]. unfold size_class. replace (Z.shiftr UMEM_MAXBUF UMEM_ALIGN_SHIFT) with 16384 by done.
  split_and!.
  - intros ->. reflexivity.
  - intros Hm. rewrite table_index by done. unfold UMEM_MAXBUF in Hm.
    rewrite (proj2 (Z.ltb_lt ((r - 1) / 8) 16384)) by (apply Z.div_lt_upper_bound; lia).
    destruct (H r Hm) as (cp & Ecp & Hs). exists cp. split; [|done]. f_equal. by apply list_lookup_total_correct.
  - intros Hm. unfold UMEM_MAXBUF in Hm. rewrite wsub_small, Z.shiftr_div_pow2 by (unfold UMEM_ALIGN_SHIFT; lia). change (2 ^ UMEM_ALIGN_SHIFT) with 8.
    rewrite (proj2 (Z.ltb_ge ((r - 1) / 8) 16384)) by (apply Z.div_le_lower_bound; lia).
    by rewrite (proj2 (Z.eqb_neq r 0)) by lia.
Qed.

Lemma size_class_least_witness :
  exists table, umem_alloc_table umem_alloc_sizes umem_alloc_sizes (-1) = (table, UMEM_MAXBUF + UMEM_ALIGN) /\
    exists cp, size_class table 100 = ClassCache cp /\ serves (take 49 umem_alloc_sizes) umem_alloc_sizes 100 cp.
Proof.
  destruct (size_class_least umem_alloc_sizes (take 49 umem_alloc_sizes) 16 umem_alloc_sizes (-1) 100)
    as (table & E & _ & H & _); [apply umem_alloc_sizes_ok|vm_compute; lia|lia|].
  exists table. split; [exact E|]. apply H. unfold UMEM_MAXBUF. lia.
Defined.

(** [umem_alloc_sizes_remove] stores past the end of its table when the
    table is full and the size is beyond [UMEM_MAXBUF]: nothing stops its scan,
    and the final store of a zero goes to the slot after the last. *)
Theorem size_remove_overruns :
  (do t <- size_run umem_alloc_sizes (SizeAdd <$> [24; 40; 56; 72; 88; 104; 120; 136; 144; 152; 168; 176; 184; 200; 208; 216]);
   size_step t (SizeRemove 200000)) = Panic "umem_alloc_sizes_remove: store past the table".
Proof. vm_compute. reflexivity. Qed.
