(* ===== verification/CacheDebug.v ===== *)
(** * Debugging checks on buffers

    The buftag behind every buffer of a [UMF_BUFTAG] cache: the state word, the
    redzone and the free pattern ([umem_cache_alloc_debug],
    [umem_cache_free_debug]), the size encoded by [umem_alloc] and checked by
    [umem_free] ([umem_free_redzone_ok]), and how [umem_error] classifies what
    it is told.  Memory is the word memory of [SlabModel]; bytes and 32-bit
    fields are parts of its words, little endian. *)
From S2P Require Import Prelude Machine SlabModel SlabWf SlabInv AllocSizes.

(** ** Fields of a word *)

Definition getf (w s n : Z) : Z := Z.land (Z.shiftr w s) (Z.ones n).
Definition setf (w s n v : Z) : Z :=
  Z.lor (Z.ldiff w (Z.shiftl (Z.ones n) s)) (Z.shiftl (Z.land v (Z.ones n)) s).

Definition word_of (a : Z) : Z := a - a mod 8.
Definition ld8 (m : memory) (a : Z) : Z := getf (ld m (word_of a)) (8 * (a mod 8)) 8.
Definition st8 (m : memory) (a v : Z) : memory :=
  st m (word_of a) (setf (ld m (word_of a)) (8 * (a mod 8)) 8 v).
Definition ld32 (m : memory) (a : Z) : Z := getf (ld m (word_of a)) (8 * (a mod 8)) 32.
Definition st32 (m : memory) (a v : Z) : memory :=
  st m (word_of a) (setf (ld m (word_of a)) (8 * (a mod 8)) 32 v).

(** ** The checks *)

Definition UMEM_SIZE_ENCODE (x : Z) : Z := 251 * x + 1.
Definition UMEM_SIZE_DECODE (x : Z) : Z := x / 251.
Definition UMEM_SIZE_VALID (x : Z) : bool := x mod 251 =? 1.

(** What the client's callbacks do to memory; a constructor may fail. *)
Record callbacks := Callbacks {
  cache_constructor : option (memory -> Z -> memory * bool);
  cache_destructor : option (memory -> Z -> memory);
}.

Section debug.
Context {W : Type} {env : slab_env W}.

(** [bcp->bc_addr != buf] for a hashed cache; the tag's bufctl must be one. *)
Definition bufctl_names (c : cache) (bcp buf : Z) : result bool :=
  match bufctls c !! bcp with
  | Some b => Ok (bc_addr b =? buf)
  | None => Panic "buftag: bufctl"
  end.

(** [fail]: the induced failure of [umem_mtbf] struck.  [true] is success. *)
Definition umem_cache_alloc_debug (cb : callbacks) (fail : bool) (w : W) (c : cache) (buf : Z) : result (W * cache * bool) :=
  let f := cfg c in
  let bt := UMEM_BUFTAG f buf in
  let bcp := ld (mem c) (bt + 8) in
  if negb (ld (mem c) (bt + 16) =? Z.lxor bcp UMEM_BUFTAG_FREE) then
    do w <- env_error w UMERR_BADBUFTAG buf; Ok (w, c, false)
  else
    let c := set_mem (st (mem c) (bt + 16) (Z.lxor bcp UMEM_BUFTAG_ALLOC)) c in
    do named <- (if hashed c then bufctl_names c bcp buf else Ok true);
    if negb named then do w <- env_error w UMERR_BADBUFCTL buf; Ok (w, c, false)
    else
      let c := set_mem (st (mem c) bt UMEM_REDZONE_PATTERN) c in
      let '(m, bad) :=
        if has (cache_flags f) UMF_DEADBEEF
        then verify_and_copy_pattern UMEM_FREE_PATTERN UMEM_UNINITIALIZED_PATTERN (mem c) buf (cache_verify f)
        else (mem c, 0) in
      let c := set_mem m c in
      if negb (bad =? 0) then do w <- env_error w UMERR_MODIFIED buf; Ok (w, c, false)
      else
        let '(m, failed) :=
          if fail then (mem c, true)
          else match cache_constructor cb with
               | Some ctor => ctor (mem c) buf
               | None => (mem c, false)
               end in
        let c := set_mem m c in
        if failed then
          let c := set_stats (stat_fail (stats c)) c in
          let m := st (mem c) (bt + 16) (Z.lxor bcp UMEM_BUFTAG_FREE) in
          let c := set_mem (copy_pattern UMEM_FREE_PATTERN m buf (cache_verify f)) c in
          do (w, c) <- umem_slab_free w c buf;
          Ok (w, c, false)
        else Ok (w, c, true).

Definition umem_cache_free_debug (cb : callbacks) (w : W) (c : cache) (buf : Z) : result (W * cache * bool) :=
  let f := cfg c in
  let bt := UMEM_BUFTAG f buf in
  let bcp := ld (mem c) (bt + 8) in
  let stat := ld (mem c) (bt + 16) in
  if negb (stat =? Z.lxor bcp UMEM_BUFTAG_ALLOC) then
    if stat =? Z.lxor bcp UMEM_BUFTAG_FREE then
      do w <- env_error w UMERR_DUPFREE buf; Ok (w, c, false)
    else
      let sp := umem_findslab c buf in
      let owned := match slabs c !! sp with
                   | Some s => negb (sp =? 0) && (slab_cache s =? cache_self f)
                   | None => false
                   end in
      do w <- env_error w (if owned then UMERR_REDZONE else UMERR_BADADDR) buf; Ok (w, c, false)
  else
    let c := set_mem (st (mem c) (bt + 16) (Z.lxor bcp UMEM_BUFTAG_FREE)) c in
    do named <- (if hashed c then bufctl_names c bcp buf else Ok true);
    if negb named then do w <- env_error w UMERR_BADBUFCTL buf; Ok (w, c, false)
    else if negb (ld (mem c) bt =? UMEM_REDZONE_PATTERN) then
      do w <- env_error w UMERR_REDZONE buf; Ok (w, c, false)
    else
      let m := match cache_destructor cb with Some dtor => dtor (mem c) buf | None => mem c end in
      let m := if has (cache_flags f) UMF_DEADBEEF
               then copy_pattern UMEM_FREE_PATTERN m buf (cache_verify f) else m in
      Ok (w, set_mem m c, true).

(** What [_umem_alloc] writes behind a buffer of a tagged cache. *)
Definition umem_alloc_tag (f : slab_cfg) (m : memory) (buf size : Z) : memory :=
  let m := st8 m (buf + size) UMEM_REDZONE_BYTE in
  st32 m (UMEM_BUFTAG f buf + 4) (UMEM_SIZE_ENCODE size).

(** [None] is success; the state after a report is the state reported. *)
Definition umem_free_redzone_ok (f : slab_cfg) (m : memory) (buf size : Z) : memory * option umerr :=
  let bt := UMEM_BUFTAG f buf in
  let ip1 := ld32 m (bt + 4) in
  if negb (ip1 =? UMEM_SIZE_ENCODE size) then
    if ld m buf =? UMEM_FREE_PATTERN then (m, Some UMERR_DUPFREE)
    else if UMEM_SIZE_VALID ip1 then (st32 m bt (UMEM_SIZE_ENCODE size), Some UMERR_BADSIZE)
    else (m, Some UMERR_REDZONE)
  else if negb (ld8 m (buf + size) =? UMEM_REDZONE_BYTE) then (m, Some UMERR_REDZONE)
  else (st m bt UMEM_REDZONE_PATTERN, None).
End debug.

(** ** The report of umem_error *)

(** The cache whose slab holds the address: the one named, else the first of
    the list of all caches, searched from its end. *)
Fixpoint owner_scan (cs : list cache) (buf : Z) : option (cache * Z) :=
  match cs with
  | [] => None
  | c :: cs' => let sp := umem_findslab c buf in
                if sp =? 0 then owner_scan cs' buf else Some (c, sp)
  end.

(** The bufctl reported for a hashed cache, 0 when it is not credible.
    [known] tells whether the cache of bufctls owns an address. *)
Definition error_bufctl (known : Z -> bool) (c : cache) (buf : Z) : Z :=
  let '(found, _, _) := hash_walk (size (bufctls c)) c buf 0 (nth (UMEM_HASH c buf) (cache_hash_table c) 0) 0 in
  let bcp := if (found =? 0) && has (cache_flags (cfg c)) UMF_BUFTAG
             then ld (mem c) (UMEM_BUFTAG (cfg c) buf + 8) else found in
  if negb (known bcp) || negb (P2PHASE bcp UMEM_ALIGN =? 0) ||
     negb (match bufctls c !! bcp with Some b => bc_addr b =? buf | None => false end)
  then 0 else bcp.

(** The error, real buffer and real cache recorded in [umem_abort_info]. *)
Definition umem_error_info (known : Z -> bool) (cparg : cache) (all : list cache) (error : umerr) (bufarg : Z) :
    umerr * Z * option cache :=
  let sp := umem_findslab cparg bufarg in
  match (if sp =? 0 then owner_scan all bufarg else Some (cparg, sp)) with
  | None => (UMERR_BADADDR, bufarg, None)
  | Some (c, sp) =>
      let own := cache_self (cfg c) =? cache_self (cfg cparg) in
      let base := match slabs c !! sp with Some s => slab_base s | None => 0 end in
      let error := if own then error else UMERR_BADCACHE in
      let buf := if own then wsub bufarg (wsub bufarg base mod cache_chunksize (cfg c)) else bufarg in
      let error := if buf =? bufarg then error else UMERR_BADBASE in
      let error := if hashed c && (error_bufctl known c buf =? 0) then UMERR_BADBUFCTL else error in
      (error, buf, Some c)
  end.
