(* ===== verification/DebugProps.v ===== *)
(** * Debugging checks: properties

    A buffer goes round from free to allocated and back through the checks when
    nobody misuses it; double frees, writes after free, writes past the end and
    frees of the wrong size are each reported as what they are. *)
From S2P Require Import Prelude Machine SlabModel SlabWf SlabInv SlabFree SlabGrow SlabSpec SlabProps AllocSizes CacheDebug.

(** ** Fields *)

Lemma getf_bits w s n b : 0 <= s -> 0 <= n -> 0 <= b -> Z.testbit (getf w s n) b = (b <? n) && Z.testbit w (b + s).
Proof.
  intros Hs Hn Hb. unfold getf. rewrite Z.land_spec, Z.shiftr_spec by lia.
  destruct (Z.ltb_spec b n); [rewrite Z.ones_spec_low by lia|rewrite Z.ones_spec_high by lia]; by destruct (Z.testbit w (b + s)).
Qed.

Lemma setf_bits w s n v b : 0 <= s -> 0 <= n -> 0 <= b ->
  Z.testbit (setf w s n v) b = if (s <=? b) && (b <? s + n) then Z.testbit v (b - s) else Z.testbit w b.
Proof.
  intros Hs Hn Hb. unfold setf. rewrite Z.lor_spec, Z.ldiff_spec, !Z.shiftl_spec, Z.land_spec by lia.
  destruct (Z.leb_spec s b), (Z.ltb_spec b (s + n)); simpl.
  - rewrite Z.ones_spec_low by lia. by destruct (Z.testbit w b), (Z.testbit v (b - s)).
  - rewrite Z.ones_spec_high by lia. by destruct (Z.testbit w b), (Z.testbit v (b - s)).
  - rewrite !(Z.testbit_neg_r _ (b - s)) by lia. by destruct (Z.testbit w b).
  - lia.
Qed.

Lemma getf_setf w s n v : 0 <= s -> 0 <= n -> getf (setf w s n v) s n = Z.land v (Z.ones n).
Proof.
  intros Hs Hn. apply Z.bits_inj'; intros b Hb. rewrite getf_bits, setf_bits, Z.land_spec by lia.
  destruct (Z.ltb_spec b n).
  - rewrite (proj2 (Z.leb_le s (b + s))), (proj2 (Z.ltb_lt (b + s) (s + n))) by lia.
    rewrite Z.ones_spec_low by lia. replace (b + s - s) with b by lia. simpl. by rewrite andb_true_r.
  - rewrite Z.ones_spec_high by lia. by rewrite andb_false_r.
Qed.

Lemma getf_setf_other w s n v s' n' :
  0 <= s -> 0 <= n -> 0 <= s' -> 0 <= n' -> s + n <= s' \/ s' + n' <= s ->
  getf (setf w s n v) s' n' = getf w s' n'.
Proof.
  intros Hs Hn Hs' Hn' Hd. apply Z.bits_inj'; intros b Hb. rewrite !getf_bits, setf_bits by lia.
  destruct (Z.ltb_spec b n'); [|done].
  destruct (Z.leb_spec s (b + s')), (Z.ltb_spec (b + s') (s + n)); simpl; done || lia.
Qed.

Lemma word_of_split a : a = word_of a + a mod 8 /\ 0 <= a mod 8 < 8 /\ (8 | word_of a).
Proof.
  unfold word_of. pose proof (Z.mod_pos_bound a 8 ltac:(lia)). split_and!; try lia.
  exists (a / 8). pose proof (Z.div_mod a 8 ltac:(lia)). lia.
Qed.

Lemma word_of_at a i : (8 | a) -> 0 <= i < 8 -> word_of (a + i) = a /\ (a + i) mod 8 = i.
Proof.
  intros [k ->] Hi. unfold word_of. assert (E : (k * 8 + i) mod 8 = i).
  { rewrite Z.add_comm, Z.mod_add by lia. by apply Z.mod_small. }
  rewrite E. split; lia.
Qed.

(** ** The size and the redzone byte *)

(** Tags start at a word and cover the checked bytes. *)
Record tag_geom (f : slab_cfg) : Prop := TagGeom {
  tg_tag8 : (8 | cache_buftag f);
  tg_verify : 0 <= cache_verify f <= cache_buftag f;
}.

(** A buffer of the cache, with its tag. *)
Record tagged_buf (f : slab_cfg) (buf : Z) : Prop := TaggedBuf {
  tb_8 : (8 | buf);
  tb_pos : 0 < buf;
  tb_end : buf + cache_buftag f + 24 < 2 ^ 64;
}.

Lemma tag_at f buf : tag_geom f -> tagged_buf f buf -> UMEM_BUFTAG f buf = buf + cache_buftag f /\ (8 | buf + cache_buftag f).
Proof.
  intros [T8 Tv] [B8 Bp Be]. split; [apply wadd_small; lia|]. by apply Z.divide_add_r.
Qed.

Lemma alloc_tag_fields f m buf size :
  tag_geom f -> tagged_buf f buf -> 0 <= size <= cache_buftag f -> size <= UMEM_MAXBUF ->
  ld32 (umem_alloc_tag f m buf size) (UMEM_BUFTAG f buf + 4) = UMEM_SIZE_ENCODE size /\
  ld8 (umem_alloc_tag f m buf size) (buf + size) = UMEM_REDZONE_BYTE.
Proof.
  intros Tg Tb Hs Hm. destruct (tag_at f buf Tg Tb) as [-> T8]. unfold umem_alloc_tag.
  destruct (tag_at f buf Tg Tb) as [-> _]. set (bt := buf + cache_buftag f) in *.
  destruct (word_of_at bt 4 T8 ltac:(lia)) as [E1 E2]. unfold ld32, st32. rewrite E1, E2, ld_st, decide_True by done.
  split.
  - rewrite getf_setf, Z.land_ones by lia. apply Z.mod_small. unfold UMEM_SIZE_ENCODE, UMEM_MAXBUF in *. lia.
  - set (p := buf + size). destruct (word_of_split p) as (P1 & P2 & P3). unfold ld8. rewrite ld_st.
    destruct (decide (bt = word_of p)) as [Ep|Ep].
    + assert (p mod 8 = 0) as P0 by (unfold p in *; lia). rewrite P0, getf_setf_other by lia.
      unfold st8. rewrite <- Ep, P0, ld_st, decide_True by done. by rewrite getf_setf by lia.
    + unfold st8. rewrite ld_st, decide_True by done. by rewrite getf_setf by lia.
Qed.

(** The size check of [umem_free] is exact.  If the size field still holds
    what [umem_alloc] wrote for [size], then freeing with that size succeeds
    exactly when the byte after the buffer is intact (and restores the redzone
    word), an overwritten byte is reported as a redzone violation, and freeing
    with any other size is reported as a double free when the buffer starts
    with the free pattern and as a bad size otherwise. *)
Theorem redzone_exact (f : slab_cfg) (m m2 : memory) (buf size size' : Z) :
  tag_geom f -> tagged_buf f buf -> 0 <= size <= cache_buftag f -> size <= UMEM_MAXBUF -> 0 <= size' ->
  ld32 m2 (UMEM_BUFTAG f buf + 4) = ld32 (umem_alloc_tag f m buf size) (UMEM_BUFTAG f buf + 4) ->
  umem_free_redzone_ok f m2 buf size' =
    (if size' =? size then
       if ld8 m2 (buf + size) =? ld8 (umem_alloc_tag f m buf size) (buf + size)
       then (st m2 (UMEM_BUFTAG f buf) UMEM_REDZONE_PATTERN, None) else (m2, Some UMERR_REDZONE)
     else if ld m2 buf =? UMEM_FREE_PATTERN then (m2, Some UMERR_DUPFREE)
     else (st32 m2 (UMEM_BUFTAG f buf) (UMEM_SIZE_ENCODE size'), Some UMERR_BADSIZE)).
Proof.
  intros Tg Tb Hs Hm Hs' Hf. destruct (alloc_tag_fields f m buf size Tg Tb Hs Hm) as [E1 E2].
  rewrite E1 in Hf. rewrite E2. unfold umem_free_redzone_ok. rewrite Hf. unfold UMEM_SIZE_ENCODE.
  destruct (Z.eqb_spec size' size) as [->|Hne].
  - rewrite Z.eqb_refl. cbn [negb]. by destruct (ld8 m2 (buf + size) =? UMEM_REDZONE_BYTE).
  - rewrite (proj2 (Z.eqb_neq (251 * size + 1) (251 * size' + 1))) by lia. cbn [negb].
    destruct (ld m2 buf =? UMEM_FREE_PATTERN); [done|]. unfold UMEM_SIZE_VALID.
    rewrite Z.add_comm, Z.mul_comm, Z.mod_add by lia. done.
Qed.

Definition tag_cfg : slab_cfg :=
  SlabCfg 64 128 false 40 8 64 4096 40 40 40 0 0 0 6 (Z.lor UMF_REDZONE UMF_DEADBEEF) 0 4096 7 true 30 10.

Lemma tag_cfg_geom : tag_geom tag_cfg.
Proof. constructor; simpl; [by exists 5|lia]. Qed.

Lemma redzone_exact_witness :
  umem_free_redzone_ok tag_cfg (umem_alloc_tag tag_cfg ∅ 4096 33) 4096 33 =
    (st (umem_alloc_tag tag_cfg ∅ 4096 33) 4136 UMEM_REDZONE_PATTERN, None) /\
  umem_free_redzone_ok tag_cfg (st8 (umem_alloc_tag tag_cfg ∅ 4096 33) 4129 0) 4096 33 =
    (if 33 =? 33 then
       if ld8 (st8 (umem_alloc_tag tag_cfg ∅ 4096 33) 4129 0) (4096 + 33) =? ld8 (umem_alloc_tag tag_cfg ∅ 4096 33) (4096 + 33)
       then (st (st8 (umem_alloc_tag tag_cfg ∅ 4096 33) 4129 0) (UMEM_BUFTAG tag_cfg 4096) UMEM_REDZONE_PATTERN, None)
       else (st8 (umem_alloc_tag tag_cfg ∅ 4096 33) 4129 0, Some UMERR_REDZONE)
     else if ld (st8 (umem_alloc_tag tag_cfg ∅ 4096 33) 4129 0) 4096 =? UMEM_FREE_PATTERN
     then (st8 (umem_alloc_tag tag_cfg ∅ 4096 33) 4129 0, Some UMERR_DUPFREE)
     else (st32 (st8 (umem_alloc_tag tag_cfg ∅ 4096 33) 4129 0) (UMEM_BUFTAG tag_cfg 4096) (UMEM_SIZE_ENCODE 33), Some UMERR_BADSIZE)).
Proof.
  split; [vm_compute; reflexivity|].
  apply (redzone_exact tag_cfg ∅ (st8 (umem_alloc_tag tag_cfg ∅ 4096 33) 4129 0) 4096 33 33); [apply tag_cfg_geom| | | | |].
  - constructor; simpl; [by exists 512|lia|lia].
  - simpl. lia.
  - unfold UMEM_MAXBUF. lia.
  - lia.
  - vm_compute. reflexivity.
Defined.

(** ** Patterns *)

Lemma copy_words_in n p a m i : 0 <= i < Z.of_nat n -> ld (copy_words n p a m) (a + 8 * i) = p.
Proof.
  revert a m i. induction n as [|n IH]; intros a m i Hi; simpl; [lia|].
  destruct (Z.eq_dec i 0) as [->|].
  - rewrite copy_words_frame by lia. replace (a + 8 * 0) with a by lia. by rewrite ld_st, decide_True.
  - replace (a + 8 * i) with (a + 8 + 8 * (i - 1)) by lia. apply IH. lia.
Qed.

Lemma vcopy_ok n old new buf0 a m :
  (forall i, 0 <= i < Z.of_nat n -> ld m (a + 8 * i) = old) ->
  exists m', vcopy_words n old new buf0 a m = (m', 0) /\
    forall x, x < a \/ a + 8 * Z.of_nat n <= x -> ld m' x = ld m x.
Proof.
  revert a m. induction n as [|n IH]; intros a m Hold; simpl; [by exists m|].
  assert (E : ld m a = old) by (rewrite <- (Hold 0) by lia; f_equal; lia). rewrite E, Z.eqb_refl.
  destruct (IH (a + 8) (st m a new)) as (m' & -> & H).
  - intros i Hi. rewrite ld_st, decide_False by lia. rewrite <- (Hold (i + 1)) by lia. f_equal. lia.
  - exists m'. split; [done|]. intros x Hx. rewrite H by lia. rewrite ld_st, decide_False; [done|lia].
Qed.

(** A modified word stops the walk and what it had overwritten is put back. *)
Lemma vcopy_bad n old new buf0 j m m0 k :
  (forall i, 0 <= i < j -> ld m0 (buf0 + 8 * i) = old) ->
  (forall x, x < buf0 \/ buf0 + 8 * j <= x -> ld m x = ld m0 x) ->
  (forall x, buf0 <= x < buf0 + 8 * j -> (x - buf0) mod 8 <> 0 -> ld m x = ld m0 x) ->
  0 <= j <= k -> k < j + Z.of_nat n -> 0 < buf0 -> ld m0 (buf0 + 8 * k) <> old ->
  exists m' a, vcopy_words n old new buf0 (buf0 + 8 * j) m = (m', a) /\ a <> 0 /\ forall x, ld m' x = ld m0 x.
Proof.
  revert j m. induction n as [|n IH]; intros j m Hold Hout Hodd Hj Hk Hb Hbad; simpl; [lia|].
  rewrite (Hout (buf0 + 8 * j)) by lia. destruct (Z.eqb_spec (ld m0 (buf0 + 8 * j)) old) as [E|E].
  - replace (buf0 + 8 * j + 8) with (buf0 + 8 * (j + 1)) by lia. apply IH; try done; [| | |destruct (Z.eq_dec j k); [congruence|lia]|lia].
    + intros i Hi. destruct (Z.eq_dec i j) as [->|]; [done|apply Hold; lia].
    + intros x Hx. rewrite ld_st, decide_False by lia. apply Hout. lia.
    + intros x Hx Hm. rewrite ld_st, decide_False.
      * destruct (Z.lt_ge_cases x (buf0 + 8 * j)); [apply Hodd; [lia|done]|apply Hout; lia].
      * intros <-. apply Hm. replace (buf0 + 8 * j - buf0) with (j * 8) by lia. by apply Z.mod_mul.
  - eexists _, _. split; [reflexivity|]. split; [lia|]. intros x.
    replace (buf0 + 8 * j - buf0) with (8 * j) by lia.
    assert (En : Z.of_nat (nwords (8 * j)) = j).
    { unfold nwords. rewrite Z2Nat.id by (apply Z.div_pos; lia). symmetry. apply Z.div_unique with 7; lia. }
    unfold copy_pattern. destruct (Z.lt_ge_cases x buf0); [rewrite copy_words_frame by lia; apply Hout; lia|].
    destruct (Z.lt_ge_cases x (buf0 + 8 * j)) as [Hx|Hx]; [|rewrite copy_words_frame by lia; apply Hout; lia].
    destruct (Z.eq_dec ((x - buf0) mod 8) 0) as [Hm|Hm].
    + pose proof (Z.div_mod (x - buf0) 8 ltac:(lia)) as Ed. rewrite Hm in Ed.
      replace x with (buf0 + 8 * ((x - buf0) / 8)) by lia.
      rewrite copy_words_in by lia. symmetry. apply Hold. lia.
    + rewrite <- (Hodd x) by done. clear -Hm. generalize (nwords (8 * j)) as n. intros n.
      assert (G : forall n a m, (x - a) mod 8 <> 0 -> ld (copy_words n old a m) x = ld m x).
      { clear. induction n as [|n IH]; intros a m Hm; simpl; [done|]. rewrite IH.
        - rewrite ld_st, decide_False; [done|]. intros ->. rewrite Z.sub_diag in Hm. by apply Hm.
        - intros E. apply Hm. replace (x - a) with (x - (a + 8) + 1 * 8) by lia. by rewrite Z.mod_add. }
      by apply G.
Qed.

(** ** The life of a buffer *)

Definition named (c : cache) (bcp buf : Z) : Prop :=
  hashed c = true -> exists b, bufctls c !! bcp = Some b /\ bc_addr b = buf.

(** A buffer as it lies free: tagged free, filled with the free pattern. *)
Record free_buf (c : cache) (buf bcp : Z) : Prop := FreeBuf {
  fb_bufctl : ld (mem c) (UMEM_BUFTAG (cfg c) buf + 8) = bcp;
  fb_stat : ld (mem c) (UMEM_BUFTAG (cfg c) buf + 16) = Z.lxor bcp UMEM_BUFTAG_FREE;
  fb_pattern : has (cache_flags (cfg c)) UMF_DEADBEEF = true ->
    forall i, 0 <= i < Z.of_nat (nwords (cache_verify (cfg c))) -> ld (mem c) (buf + 8 * i) = UMEM_FREE_PATTERN;
  fb_named : named c bcp buf;
}.
(** A buffer in the client's hands. *)
Record alloc_buf (c : cache) (buf bcp : Z) : Prop := AllocBuf {
  ab_redzone : ld (mem c) (UMEM_BUFTAG (cfg c) buf) = UMEM_REDZONE_PATTERN;
  ab_bufctl : ld (mem c) (UMEM_BUFTAG (cfg c) buf + 8) = bcp;
  ab_stat : ld (mem c) (UMEM_BUFTAG (cfg c) buf + 16) = Z.lxor bcp UMEM_BUFTAG_ALLOC;
  ab_named : named c bcp buf;
}.

(** The callbacks touch the buffer alone, and the constructor succeeds. *)
Record callbacks_ok (cb : callbacks) (f : slab_cfg) (buf : Z) : Prop := CallbacksOk {
  cb_ctor : forall ctor m, cache_constructor cb = Some ctor -> exists m', ctor m buf = (m', false) /\
    forall a, a < buf \/ buf + cache_buftag f <= a -> ld m' a = ld m a;
  cb_dtor : forall dtor m a, cache_destructor cb = Some dtor ->
    a < buf \/ buf + cache_buftag f <= a -> ld (dtor m buf) a = ld m a;
}.

Lemma mem_set_mem m c : mem (set_mem m c) = m.
Proof. reflexivity. Qed.
Lemma cfg_set_mem m c : cfg (set_mem m c) = cfg c.
Proof. reflexivity. Qed.

Section life.
Context {W : Type} {env : slab_env W} (w : W) (c : cache) (buf bcp : Z).
Hypothesis Tg : tag_geom (cfg c).
Hypothesis Tb : tagged_buf (cfg c) buf.

Lemma names_ok : named c bcp buf -> (if hashed c then bufctl_names c bcp buf else Ok true) = Ok true.
Proof using Tb.
  intros Hn. unfold bufctl_names. destruct (hashed c) eqn:Hh; [|done].
  destruct (Hn Hh) as (b & -> & <-). by rewrite Z.eqb_refl.
Qed.

Lemma pattern_end : buf + 8 * Z.of_nat (nwords (cache_verify (cfg c))) <= UMEM_BUFTAG (cfg c) buf.
Proof using Tg Tb.
  destruct (tag_at _ _ Tg Tb) as [-> _]. pose proof (nwords_bound _ _ (tg_verify _ Tg) (tg_tag8 _ Tg)). lia.
Qed.

(** The state before the pattern is looked at. *)
Definition stamped : memory :=
  st (st (mem c) (UMEM_BUFTAG (cfg c) buf + 16) (Z.lxor bcp UMEM_BUFTAG_ALLOC)) (UMEM_BUFTAG (cfg c) buf) UMEM_REDZONE_PATTERN.

Lemma stamped_frame x : x < UMEM_BUFTAG (cfg c) buf -> ld stamped x = ld (mem c) x.
Proof using. clear Tg Tb. intros Hx. unfold stamped. rewrite !ld_st, !decide_False; [done|lia|lia]. Qed.

Lemma alloc_debug_ok cb :
  free_buf c buf bcp -> callbacks_ok cb (cfg c) buf ->
  exists m1, umem_cache_alloc_debug cb false w c buf = Ok (w, set_mem m1 c, true) /\
    alloc_buf (set_mem m1 c) buf bcp /\
    forall a, a < buf \/ UMEM_BUFTAG (cfg c) buf + 24 <= a -> ld m1 a = ld (mem c) a.
Proof using Tg Tb.
  intros [F1 F2 F3 F4] [Cc _]. pose proof pattern_end as Hpe. destruct (tag_at _ _ Tg Tb) as [Et _].
  unfold umem_cache_alloc_debug. rewrite F1, F2, Z.eqb_refl. cbn [negb]. cbn zeta.
  change (hashed (set_mem _ c)) with (hashed c). change (bufctl_names (set_mem _ c)) with (bufctl_names c).
  rewrite names_ok by done. cbn [res_bind negb]. rewrite !mem_set_mem. fold stamped.
  set (bt := UMEM_BUFTAG (cfg c) buf) in *. pose proof (tg_verify _ Tg).
  assert (Hv : exists m2, (if has (cache_flags (cfg c)) UMF_DEADBEEF
      then verify_and_copy_pattern UMEM_FREE_PATTERN UMEM_UNINITIALIZED_PATTERN stamped buf (cache_verify (cfg c))
      else (stamped, 0)) = (m2, 0) /\ forall x, x < buf \/ bt <= x -> ld m2 x = ld stamped x).
  { destruct (has (cache_flags (cfg c)) UMF_DEADBEEF) eqn:Hd; [|by exists stamped].
    unfold verify_and_copy_pattern.
    destruct (vcopy_ok (nwords (cache_verify (cfg c))) UMEM_FREE_PATTERN UMEM_UNINITIALIZED_PATTERN buf buf stamped)
      as (m2 & -> & H2); [|exists m2; split; [done|]; intros x Hx; apply H2; lia].
    intros i Hi. rewrite stamped_frame by (fold bt; lia). by apply F3. }
  destruct Hv as (m2 & -> & H2). cbn [Z.eqb negb].
  assert (Hc : exists m3, (match cache_constructor cb with Some ctor => ctor m2 buf | None => (m2, false) end) = (m3, false) /\
    forall x, x < buf \/ bt <= x -> ld m3 x = ld m2 x).
  { destruct (cache_constructor cb) as [ctor|]; [|by exists m2]. destruct (Cc ctor m2 eq_refl) as (m3 & -> & H3).
    exists m3. split; [done|]. intros x Hx. apply H3. lia. }
  destruct Hc as (m3 & E3 & H3). rewrite !mem_set_mem, E3.
  exists m3. split; [done|]. split.
  - constructor; try done; rewrite ?mem_set_mem, ?cfg_set_mem; fold bt;
      rewrite H3, H2 by lia; unfold stamped; fold bt; rewrite !ld_st, ?decide_True by done; try done.
    + rewrite decide_False by lia. by rewrite decide_False by lia.
    + rewrite decide_False by lia. by rewrite decide_True.
  - intros a Ha. rewrite H3, H2 by lia. unfold stamped. fold bt. rewrite !ld_st, !decide_False; [done|lia|lia].
Qed.

Lemma free_debug_ok cb :
  alloc_buf c buf bcp -> callbacks_ok cb (cfg c) buf ->
  exists m1, umem_cache_free_debug cb w c buf = Ok (w, set_mem m1 c, true) /\
    free_buf (set_mem m1 c) buf bcp /\
    forall a, a < buf \/ UMEM_BUFTAG (cfg c) buf + 24 <= a -> ld m1 a = ld (mem c) a.
Proof using Tg Tb.
  intros [A1 A2 A3 A4] [_ Cd]. pose proof pattern_end as Hpe. destruct (tag_at _ _ Tg Tb) as [Et _].
  unfold umem_cache_free_debug. rewrite A2, A3, Z.eqb_refl. cbn [negb]. cbn zeta.
  change (hashed (set_mem _ c)) with (hashed c). change (bufctl_names (set_mem _ c)) with (bufctl_names c).
  rewrite names_ok by done. cbn [res_bind negb]. rewrite !mem_set_mem.
  set (bt := UMEM_BUFTAG (cfg c) buf) in *. pose proof (tg_verify _ Tg).
  set (m0 := st (mem c) (bt + 16) (Z.lxor bcp UMEM_BUFTAG_FREE)).
  assert (E0 : ld m0 bt = UMEM_REDZONE_PATTERN) by (unfold m0; rewrite ld_st, decide_False by lia; done).
  rewrite E0, Z.eqb_refl. cbn [negb].
  set (m2 := match cache_destructor cb with Some dtor => dtor m0 buf | None => m0 end).
  assert (H2 : forall x, x < buf \/ bt <= x -> ld m2 x = ld m0 x).
  { intros x Hx. unfold m2. destruct (cache_destructor cb) as [dtor|]; [|done]. apply Cd; [done|lia]. }
  set (m3 := if has _ UMF_DEADBEEF then _ else m2).
  assert (H3 : forall x, x < buf \/ bt <= x -> ld m3 x = ld m2 x).
  { intros x Hx. unfold m3. destruct (has _ UMF_DEADBEEF); [|done].
    apply copy_words_frame. lia. }
  exists m3. split; [done|]. split.
  - constructor; try done; rewrite ?mem_set_mem, ?cfg_set_mem; fold bt.
    + rewrite H3, H2 by lia. unfold m0. by rewrite ld_st, decide_False by lia.
    + rewrite H3, H2 by lia. unfold m0. by rewrite ld_st, decide_True.
    + intros Hd i Hi. unfold m3. rewrite Hd. by apply copy_words_in.
  - intros a Ha. rewrite H3, H2 by lia. unfold m0. by rewrite ld_st, decide_False by lia.
Qed.
End life.

(** C31: A buffer that is used correctly passes every check and comes back as it
    was.  Allocation of a free buffer succeeds and leaves it tagged allocated,
    whatever it then holds; freeing it succeeds if its tag is as allocation
    left it, and leaves it tagged free and filled with the free pattern; no
    word outside the buffer and its tag changes.  The callbacks are the
    client's and may write the buffer; the constructor is taken to succeed. *)
Theorem debug_cycle {W} {env : slab_env W} (cb : callbacks) (w : W) (c : cache) (buf bcp : Z) :
  tag_geom (cfg c) -> tagged_buf (cfg c) buf -> callbacks_ok cb (cfg c) buf -> free_buf c buf bcp ->
  exists m1, umem_cache_alloc_debug cb false w c buf = Ok (w, set_mem m1 c, true) /\
    alloc_buf (set_mem m1 c) buf bcp /\
    (forall a, a < buf \/ UMEM_BUFTAG (cfg c) buf + 24 <= a -> ld m1 a = ld (mem c) a) /\
    forall m2, (forall a, UMEM_BUFTAG (cfg c) buf <= a < UMEM_BUFTAG (cfg c) buf + 24 -> ld m2 a = ld m1 a) ->
    exists m3, umem_cache_free_debug cb w (set_mem m2 c) buf = Ok (w, set_mem m3 c, true) /\
      free_buf (set_mem m3 c) buf bcp /\
      forall a, a < buf \/ UMEM_BUFTAG (cfg c) buf + 24 <= a -> ld m3 a = ld m2 a.
Proof.
  intros Tg Tb Hcb Hf. destruct (alloc_debug_ok w c buf bcp Tg Tb cb Hf Hcb) as (m1 & E1 & Ha & Hfr).
  exists m1. split; [done|]. split; [done|]. split; [done|]. intros m2 H2.
  assert (Ha2 : alloc_buf (set_mem m2 c) buf bcp).
  { destruct Ha as [A1 A2 A3 A4]. rewrite mem_set_mem, cfg_set_mem in *.
    constructor; try done; rewrite mem_set_mem, cfg_set_mem, H2 by lia; done. }
  exact (free_debug_ok w (set_mem m2 c) buf bcp Tg Tb cb Ha2 Hcb).
Qed.

(** One buffer of [tag_cfg] at 4096, free. *)
Definition tag_cache : cache :=
  Cache tag_cfg 0 {[128 := Slab 64 0 0 (-1) 0 0 0]} [128] 128 0 [] 0 ∅
    (buftag_init tag_cfg ∅ 4096 4136) (Stats 0 0 0 0 0 0 0 0 0).

Lemma tag_cache_free : tagged_buf (cfg tag_cache) 4096 /\ free_buf tag_cache 4096 4136.
Proof.
  split; [constructor; simpl; [by exists 512|lia|lia]|].
  constructor; [vm_compute; reflexivity|vm_compute; reflexivity| |by intros Hh; vm_compute in Hh].
  intros _ i Hi. change (Z.of_nat _) with 5 in Hi.
  assert (i = 0 \/ i = 1 \/ i = 2 \/ i = 3 \/ i = 4) as [->|[->|[->|[->| ->]]]] by lia; vm_compute; reflexivity.
Qed.

Definition no_callbacks : callbacks := Callbacks None None.
Lemma no_callbacks_ok f buf : callbacks_ok no_callbacks f buf.
Proof. by constructor. Qed.

Definition nop_env : slab_env (list (umerr * Z)) := {|
  env_vmem_alloc w n := (w, 0); env_vmem_free w a n := w; env_slab_alloc w fl := (w, 0);
  env_slab_free w sp := w; env_bufctl_alloc w fl := (w, 0); env_bufctl_free w b := w;
  env_table_alloc w n := (w, 0); env_table_free w t n := w;
  env_decommit w a n := w; env_error w e buf := Ok ((e, buf) :: w) |}.

Lemma debug_cycle_witness :
  exists m1, umem_cache_alloc_debug (env := nop_env) no_callbacks false [] tag_cache 4096 = Ok ([], set_mem m1 tag_cache, true) /\
    alloc_buf (set_mem m1 tag_cache) 4096 4136 /\
    (forall a, a < 4096 \/ UMEM_BUFTAG (cfg tag_cache) 4096 + 24 <= a -> ld m1 a = ld (mem tag_cache) a) /\
    forall m2, (forall a, UMEM_BUFTAG (cfg tag_cache) 4096 <= a < UMEM_BUFTAG (cfg tag_cache) 4096 + 24 -> ld m2 a = ld m1 a) ->
    exists m3, umem_cache_free_debug (env := nop_env) no_callbacks [] (set_mem m2 tag_cache) 4096 = Ok ([], set_mem m3 tag_cache, true) /\
      free_buf (set_mem m3 tag_cache) 4096 4136 /\
      forall a, a < 4096 \/ UMEM_BUFTAG (cfg tag_cache) 4096 + 24 <= a -> ld m3 a = ld m2 a.
Proof.
  destruct tag_cache_free as [Tb Hf].
  exact (debug_cycle (env := nop_env) no_callbacks [] tag_cache 4096 4136 tag_cfg_geom Tb (no_callbacks_ok _ _) Hf).
Defined.

(** C32: Misuse is reported as what it is, and the buffer is not handed on.  A
    free buffer freed again is a duplicate free; a buffer whose redzone word
    was overwritten is a redzone violation when freed; a free buffer written to
    within the checked bytes is reported modified when it is next allocated,
    with its contents put back as they were found, so that the report shows the
    write. *)
Theorem debug_detects {W} {env : slab_env W} (cb : callbacks) (fail : bool) (w : W) (c : cache) (buf bcp : Z) :
  tag_geom (cfg c) -> tagged_buf (cfg c) buf -> named c bcp buf ->
  ld (mem c) (UMEM_BUFTAG (cfg c) buf + 8) = bcp ->
  (ld (mem c) (UMEM_BUFTAG (cfg c) buf + 16) = Z.lxor bcp UMEM_BUFTAG_FREE ->
     umem_cache_free_debug cb w c buf = (do w <- env_error w UMERR_DUPFREE buf; Ok (w, c, false))) /\
  (ld (mem c) (UMEM_BUFTAG (cfg c) buf + 16) = Z.lxor bcp UMEM_BUFTAG_ALLOC ->
   ld (mem c) (UMEM_BUFTAG (cfg c) buf) <> UMEM_REDZONE_PATTERN ->
     exists c', umem_cache_free_debug cb w c buf = (do w <- env_error w UMERR_REDZONE buf; Ok (w, c', false))) /\
  (ld (mem c) (UMEM_BUFTAG (cfg c) buf + 16) = Z.lxor bcp UMEM_BUFTAG_FREE ->
   has (cache_flags (cfg c)) UMF_DEADBEEF = true ->
   (exists k, 0 <= k < Z.of_nat (nwords (cache_verify (cfg c))) /\ ld (mem c) (buf + 8 * k) <> UMEM_FREE_PATTERN) ->
     exists c', umem_cache_alloc_debug cb fail w c buf = (do w <- env_error w UMERR_MODIFIED buf; Ok (w, c', false)) /\
       forall a, a < UMEM_BUFTAG (cfg c) buf -> ld (mem c') a = ld (mem c) a).
Proof.
  intros Tg Tb Hn Hb. split_and!.
  - intros Hs. unfold umem_cache_free_debug. rewrite Hb, Hs.
    rewrite (proj2 (Z.eqb_neq (Z.lxor bcp UMEM_BUFTAG_FREE) (Z.lxor bcp UMEM_BUFTAG_ALLOC))).
    + cbn [negb]. by rewrite Z.eqb_refl.
    + intros E. apply (f_equal (Z.lxor bcp)) in E. rewrite <- !Z.lxor_assoc, Z.lxor_nilpotent, !Z.lxor_0_l in E. done.
  - intros Hs Hr. unfold umem_cache_free_debug. rewrite Hb, Hs, Z.eqb_refl. cbn [negb]. cbn zeta.
    change (hashed (set_mem _ c)) with (hashed c). change (bufctl_names (set_mem _ c)) with (bufctl_names c).
    rewrite names_ok by done. cbn [res_bind negb]. rewrite mem_set_mem, ld_st, decide_False by lia.
    rewrite (proj2 (Z.eqb_neq _ _) Hr). eexists. reflexivity.
  - intros Hs Hd (k & Hk & Hbad). unfold umem_cache_alloc_debug. rewrite Hb, Hs, Z.eqb_refl. cbn [negb]. cbn zeta.
    change (hashed (set_mem _ c)) with (hashed c). change (bufctl_names (set_mem _ c)) with (bufctl_names c).
    rewrite names_ok by done. cbn [res_bind negb]. rewrite !mem_set_mem, Hd. fold (stamped c buf bcp).
    pose proof (pattern_end c buf Tg Tb) as Hpe. unfold verify_and_copy_pattern.
    destruct (vcopy_bad (nwords (cache_verify (cfg c))) UMEM_FREE_PATTERN UMEM_UNINITIALIZED_PATTERN buf 0
      (stamped c buf bcp) (stamped c buf bcp) k) as (m' & a & E & Ha & Hm); try done; try lia.
    { apply (tb_pos _ _ Tb). }
    { rewrite (stamped_frame c buf bcp) by lia. done. }
    replace (buf + 8 * 0) with buf in E by lia. rewrite E, (proj2 (Z.eqb_neq a 0) Ha). cbn [negb].
    eexists. split; [reflexivity|]. intros x Hx. rewrite mem_set_mem, Hm. by apply (stamped_frame c buf bcp).
Qed.

(** The buffer of [tag_cache] written to after it was freed. *)
Definition scribbled : cache := set_mem (st (mem tag_cache) 4112 1) tag_cache.

Lemma debug_detects_witness :
  umem_cache_free_debug (env := nop_env) no_callbacks [] scribbled 4096 = Ok ([(UMERR_DUPFREE, 4096)], scribbled, false) /\
  exists c', umem_cache_alloc_debug (env := nop_env) no_callbacks false [] scribbled 4096 = Ok ([(UMERR_MODIFIED, 4096)], c', false) /\
    forall a, a < UMEM_BUFTAG (cfg scribbled) 4096 -> ld (mem c') a = ld (mem scribbled) a.
Proof.
  destruct tag_cache_free as [Tb Hf].
  destruct (debug_detects (env := nop_env) no_callbacks false [] scribbled 4096 4136 tag_cfg_geom Tb) as (H1 & _ & H3).
  - intros Hh. vm_compute in Hh. discriminate Hh.
  - vm_compute. reflexivity.
  - split; [apply H1; vm_compute; reflexivity|]. apply H3; [vm_compute; reflexivity..|].
    exists 2. split; [change (Z.of_nat _) with 5; lia|]. vm_compute. discriminate.
Defined.

(** ** Which slab, which buffer *)

Definition in_slab (f : slab_cfg) (s : umem_slab) (a : Z) : Prop :=
  slab_base s <= a < slab_base s + slab_chunks s * cache_chunksize f.

Lemma slab_member_spec f q sp s a :
  geom f q -> slab_geom f sp s -> is_word a -> UMEM_SLAB_MEMBER f s a = true <-> in_slab f s a.
Proof.
  intros G Hs Ha. unfold UMEM_SLAB_MEMBER, in_slab, is_word in *. pose proof (base_pos G sp s Hs).
  pose proof (sg_fit _ _ _ Hs). pose proof (sg_end _ _ _ Hs). pose proof (sg_chunks _ _ _ Hs). pose proof (geom_chunk _ _ G).
  rewrite (w64_small (slab_chunks s * cache_chunksize f)) by (unfold is_word; nia). rewrite Z.ltb_lt.
  destruct (Z.le_gt_cases (slab_base s) a) as [Hle|Hgt]; [rewrite wsub_small by lia; lia|].
  unfold wsub, w64. replace (a - slab_base s) with (a - slab_base s + 2 ^ 64 + (-1) * 2 ^ 64) by lia.
  rewrite Z.mod_add, Z.mod_small by lia. lia.
Qed.

Lemma findslab_spec q c F L a :
  cache_inv q c F L -> is_word a ->
  (umem_findslab c a = 0 /\
     forall sp s, is_Some (F !! sp) -> slabs c !! sp = Some s -> ~ in_slab (cfg c) s a) \/
  (exists sp s fl, umem_findslab c a = sp /\ sp <> 0 /\ F !! sp = Some fl /\ slabs c !! sp = Some s /\ in_slab (cfg c) s a).
Proof.
  intros I Ha. destruct (ci_ring _ _ _ _ I) as (A & B & R). unfold umem_findslab.
  pose proof (ro_ring _ _ _ _ R) as Er. pose proof (ro_nodup _ _ _ _ R) as Hnd. pose proof (ro_nonzero _ _ _ _ R) as Hz.
  rewrite app_assoc in Er. rewrite Er in *. pose proof (ro_dom _ _ _ _ R) as Hdom. set (n := cache_nullslab (cfg c)) in *.
  assert (Hn : n ∉ A ++ B). { apply NoDup_app in Hnd as (_ & Hnd & _). intros Hin. apply (Hnd n Hin). set_solver. }
  assert (Hgen : forall l, (forall x, x ∈ l -> x ∈ A ++ B) ->
    (findslab_scan c (l ++ [n]) a = 0 /\ forall sp s, sp ∈ l -> slabs c !! sp = Some s -> ~ in_slab (cfg c) s a) \/
    (exists sp s fl, findslab_scan c (l ++ [n]) a = sp /\ sp <> 0 /\ F !! sp = Some fl /\ slabs c !! sp = Some s /\ in_slab (cfg c) s a)).
  { induction l as [|x l IH]; intros Hl; simpl; fold n.
    - left. rewrite Z.eqb_refl. split; [done|]. intros sp s Hin. by apply elem_of_nil in Hin.
    - pose proof (Hl x ltac:(set_solver)) as Hx. rewrite (proj2 (Z.eqb_neq x n)) by congruence.
      destruct (proj1 (Hdom x) Hx) as [fl HF]. destruct (ci_slab _ _ _ _ I _ _ HF) as (s & Hs & Hok). rewrite Hs.
      destruct (slab_member_spec (cfg c) q x s a (ci_geom _ _ _ _ I) (so_geom _ _ _ _ Hok) Ha) as [M1 M2].
      destruct (UMEM_SLAB_MEMBER (cfg c) s a).
      + right. exists x, s, fl. split_and!; try done; [|by apply M1]. intros ->. apply Hz. set_solver.
      + destruct (IH ltac:(set_solver)) as [[E Hno]|H]; [left|by right]. split; [done|].
        intros sp s' Hin Hs'. apply elem_of_cons in Hin as [->|Hin]; [|by apply (Hno sp)].
        rewrite Hs in Hs'. injection Hs' as <-. intros Hi. by specialize (M2 Hi). }
  destruct (Hgen (A ++ B) ltac:(done)) as [[E Hno]|H]; [left|by right]. split; [done|].
  intros sp s HF. apply (Hno sp). by apply Hdom.
Qed.

(** The chunk that holds an address. *)
Definition chunk_holding (f : slab_cfg) (s : umem_slab) (a : Z) : Z :=
  slab_base s + (a - slab_base s) / cache_chunksize f * cache_chunksize f.

(** [umem_error] attributes an address correctly.  An address in a slab of
    the raw cache named is traced to the chunk that holds it and reported as a
    bad base address exactly when it is not that chunk's start; one that only
    another raw cache owns is reported as freed to the wrong cache; one in no
    slab of any cache is a bad address. *)
Theorem error_attributed (known : Z -> bool) (q : Z) (c : cache) (F : gmap Z (list Z)) (L : list (list Z))
    (all : list cache) (error : umerr) (a : Z) :
  cache_inv q c F L -> hashed c = false -> is_word a ->
  (forall sp s, is_Some (F !! sp) -> slabs c !! sp = Some s -> in_slab (cfg c) s a ->
     umem_error_info known c all error a =
       (if chunk_holding (cfg c) s a =? a then error else UMERR_BADBASE, chunk_holding (cfg c) s a, Some c) /\
     is_chunk (cfg c) s (chunk_holding (cfg c) s a)) /\
  ((forall sp s, is_Some (F !! sp) -> slabs c !! sp = Some s -> ~ in_slab (cfg c) s a) ->
     (forall c', c' ∈ all -> umem_findslab c' a = 0) -> umem_error_info known c all error a = (UMERR_BADADDR, a, None)) /\
  (forall l1 c' l2, (forall sp s, is_Some (F !! sp) -> slabs c !! sp = Some s -> ~ in_slab (cfg c) s a) ->
     all = l1 ++ c' :: l2 -> (forall x, x ∈ l1 -> umem_findslab x a = 0) -> umem_findslab c' a <> 0 ->
     hashed c' = false -> cache_self (cfg c') <> cache_self (cfg c) ->
     umem_error_info known c all error a = (UMERR_BADCACHE, a, Some c')).
Proof.
  intros I Hr Ha. pose proof (ci_geom _ _ _ _ I) as G. pose proof (geom_chunk _ _ G) as Hck. unfold umem_error_info.
  destruct (findslab_spec q c F L a I Ha) as [[E Hno]|(sp0 & s0 & fl0 & E & Hz & HF0 & Hs0 & Hin0)]; rewrite E; split_and!.
  - intros sp s HF Hs Hin. by destruct (Hno sp s HF Hs).
  - intros _ Hall. rewrite Z.eqb_refl. assert (Hsc : owner_scan all a = None).
    { clear -Hall. induction all as [|x l IH]; [done|]. simpl. rewrite (Hall x) by set_solver. simpl. apply IH. set_solver. }
    by rewrite Hsc.
  - intros l1 c' l2 _ -> Hl1 Hc' Hr' Hself. rewrite Z.eqb_refl.
    assert (Hsc : owner_scan (l1 ++ c' :: l2) a = Some (c', umem_findslab c' a)).
    { clear -Hl1 Hc'. induction l1 as [|x l IH]; simpl; [by rewrite (proj2 (Z.eqb_neq _ _) Hc')|].
      rewrite (Hl1 x) by set_solver. simpl. apply IH. set_solver. }
    rewrite Hsc, (proj2 (Z.eqb_neq _ _) Hself), Z.eqb_refl. by rewrite Hr'.
  - intros sp s [fl HF] Hs Hin.
    assert (sp = sp0) as ->.
    { destruct (decide (sp = sp0)) as [|Hne]; [done|exfalso].
      pose proof (ci_apart _ _ _ _ I sp sp0 s s0 Hne ltac:(eauto) ltac:(eauto) Hs Hs0) as Hap.
      pose proof (so_geom _ _ _ _ (ci_slab_at _ _ _ _ _ _ _ I HF Hs)) as G1.
      pose proof (so_geom _ _ _ _ (ci_slab_at _ _ _ _ _ _ _ I HF0 Hs0)) as G2.
      pose proof (slab_start_le G s ltac:(pose proof (base_pos G _ _ G1); lia)).
      pose proof (slab_start_le G s0 ltac:(pose proof (base_pos G _ _ G2); lia)).
      pose proof (sg_fit _ _ _ G1). pose proof (sg_fit _ _ _ G2). unfold in_slab in *. lia. }
    rewrite Hs in Hs0. injection Hs0 as <-.
    rewrite (proj2 (Z.eqb_neq sp0 0) Hz), Z.eqb_refl, Hs. unfold hashed in Hr. unfold hashed. rewrite Hr. cbn [andb].
    pose proof (base_pos G sp0 s (so_geom _ _ _ _ (ci_slab_at _ _ _ _ _ _ _ I HF Hs))) as Hbp. unfold in_slab, is_word in *.
    pose proof (Z.div_mod (a - slab_base s) (cache_chunksize (cfg c)) ltac:(lia)) as Ed.
    pose proof (Z.mod_pos_bound (a - slab_base s) (cache_chunksize (cfg c)) ltac:(lia)) as Em.
    assert (Hd0 : 0 <= (a - slab_base s) / cache_chunksize (cfg c)) by (apply Z.div_pos; lia).
    rewrite (wsub_small a (slab_base s)) by lia. rewrite wsub_small by (split; nia).
    assert (Ech : a - (a - slab_base s) mod cache_chunksize (cfg c) = chunk_holding (cfg c) s a) by (unfold chunk_holding; lia).
    rewrite Ech. split; [done|]. exists ((a - slab_base s) / cache_chunksize (cfg c)). split; [|done].
    split; [done|]. apply Z.div_lt_upper_bound; lia.
  - intros Hno. by destruct (Hno sp0 s0 ltac:(eauto) Hs0).
  - intros l1 c' l2 Hno. by destruct (Hno sp0 s0 ltac:(eauto) Hs0).
Qed.

Lemma error_attributed_witness :
  umem_error_info (fun _ => false) demo_out.1.2 [] UMERR_DUPFREE (demo_out.2 + 3) =
    (UMERR_BADBASE, demo_out.2, Some demo_out.1.2) /\
  exists F : gmap Z (list Z),
  (forall sp s, is_Some (F !! sp) -> slabs demo_out.1.2 !! sp = Some s -> in_slab (cfg demo_out.1.2) s (demo_out.2 + 3) ->
     umem_error_info (fun _ => false) demo_out.1.2 [] UMERR_DUPFREE (demo_out.2 + 3) =
       (if chunk_holding (cfg demo_out.1.2) s (demo_out.2 + 3) =? demo_out.2 + 3 then UMERR_DUPFREE else UMERR_BADBASE,
        chunk_holding (cfg demo_out.1.2) s (demo_out.2 + 3), Some demo_out.1.2) /\
     is_chunk (cfg demo_out.1.2) s (chunk_holding (cfg demo_out.1.2) s (demo_out.2 + 3))) /\
  ((forall sp s, is_Some (F !! sp) -> slabs demo_out.1.2 !! sp = Some s -> ~ in_slab (cfg demo_out.1.2) s (demo_out.2 + 3)) ->
     (forall c', c' ∈ [] -> umem_findslab c' (demo_out.2 + 3) = 0) ->
     umem_error_info (fun _ => false) demo_out.1.2 [] UMERR_DUPFREE (demo_out.2 + 3) = (UMERR_BADADDR, demo_out.2 + 3, None)) /\
  (forall l1 c' l2, (forall sp s, is_Some (F !! sp) -> slabs demo_out.1.2 !! sp = Some s -> ~ in_slab (cfg demo_out.1.2) s (demo_out.2 + 3)) ->
     [] = l1 ++ c' :: l2 -> (forall x, x ∈ l1 -> umem_findslab x (demo_out.2 + 3) = 0) -> umem_findslab c' (demo_out.2 + 3) <> 0 ->
     hashed c' = false -> cache_self (cfg c') <> cache_self (cfg demo_out.1.2) ->
     umem_error_info (fun _ => false) demo_out.1.2 [] UMERR_DUPFREE (demo_out.2 + 3) = (UMERR_BADCACHE, demo_out.2 + 3, Some c')).
Proof.
  split; [vm_compute; reflexivity|]. destruct demo_out_layer as (F & Hl & _). exists F.
  exact (error_attributed (fun _ => false) 12 demo_out.1.2 F [] [] UMERR_DUPFREE (demo_out.2 + 3)
    (ly_inv _ _ _ _ Hl) (ly_raw _ _ _ _ Hl) ltac:(vm_compute; split; [discriminate|reflexivity])).
Defined.
