(* ===== verification/MagModel.v ===== *)
(** * The magazine layer of a cache: model

    The per-CPU magazines and the depot of umem.c: [_umem_cache_alloc] and
    [_umem_cache_free] with their batch forms, the depot lists with stealing,
    stale magazines after a resize, working-set reaping, purge, enable and
    resize.

    A magazine shell is owned by one place at a time (a CPU, a depot list or
    the code that moves it), so a shell is a value that moves: its address, the
    magazine cache it came from and its rounds, stored mangled.  The slab
    layer, the magazine caches, the client's constructor and destructor, the
    debugging checks, the scheduler (which CPU a thread runs on, whether a lock
    is contended) are the environment [mag_env].  The restartable-sequence path
    (assembly) is not in the build modelled. *)
From S2P Require Import Prelude Machine SlabModel AllocSizes.

(** ** Magazines *)

Record umem_magtype_t := MagType { mt_magsize : Z; mt_align : Z; mt_minbuf : Z; mt_maxbuf : Z }.
#[global] Instance magtype_inhabited : Inhabited umem_magtype_t := populate (MagType 0 0 0 0).

Definition umem_magtype : list umem_magtype_t :=
  [MagType 1 8 65536 UMEM_MAXBUF; MagType 3 16 16384 65536; MagType 7 32 8192 16384;
   MagType 63 64 1024 8192; MagType 127 64 256 1024; MagType 255 64 0 256].

Definition magsize_of (t : nat) : Z := mt_magsize (umem_magtype !!! t).

Record umem_magazine := Mag {
  mag_addr : Z;
  mag_source : nat;               (* index of the magazine cache it came from *)
  mag_round : list Z;             (* mangled *)
}.

Definition UMEM_SLOT_MANGLE (cookie slot v : Z) : Z := Z.lxor (Z.lxor v cookie) (Z.shiftr slot 12).

(** [&mp->mag_round[i]]. *)
Definition slot_addr (mp : umem_magazine) (i : nat) : Z := mag_addr mp + 8 + 8 * Z.of_nat i.
Definition demangled (cookie : Z) (mp : umem_magazine) (i : nat) : Z :=
  UMEM_SLOT_MANGLE cookie (slot_addr mp i) (mag_round mp !!! i).

(** A slot read or written past the end of the shell is out of bounds. *)
Definition round_load (cookie : Z) (mp : umem_magazine) (i : nat) : result Z :=
  if (i <? length (mag_round mp))%nat then Ok (demangled cookie mp i) else Panic "magazine overrun".
Definition round_put (cookie : Z) (mp : umem_magazine) (i : nat) (v : Z) : umem_magazine :=
  Mag (mag_addr mp) (mag_source mp) (<[i := UMEM_SLOT_MANGLE cookie (slot_addr mp i) v]> (mag_round mp)).
Definition round_store (cookie : Z) (mp : umem_magazine) (i : nat) (v : Z) : result umem_magazine :=
  if (i <? length (mag_round mp))%nat then Ok (round_put cookie mp i v) else Panic "magazine overrun".

(** [cache_bufsize / sizeof (void * ) - 1] of the source cache, whose buffers
    are [(magsize + 1) * sizeof (void * )] bytes. *)
Definition umem_mag_capacity (mp : umem_magazine) : Z := ((magsize_of (mag_source mp) + 1) * 8) / 8 - 1.

(** [memset (array, 0, count * sizeof (void * ))]. *)
Definition umem_mag_init_fast (mp : umem_magazine) (count : Z) : umem_magazine :=
  Mag (mag_addr mp) (mag_source mp)
    (replicate (Z.to_nat count) 0 ++ drop (Z.to_nat count) (mag_round mp)).
Definition umem_mag_scan_notnull (mp : umem_magazine) (count : Z) : bool :=
  existsb (fun v => negb (v =? 0)) (take (Z.to_nat count) (mag_round mp)).

(** ** State *)

Record umem_cpu_cache := CpuCache {
  cc_rounds : Z;
  cc_prounds : Z;
  cc_loaded : option umem_magazine;
  cc_ploaded : option umem_magazine;
  cc_magsize : Z;
  cc_flags : Z;
  cc_alloc : Z;
  cc_free : Z;
}.

Record umem_maglist := MagList {
  ml_list : list umem_magazine;
  ml_total : Z;
  ml_min : Z;
  ml_reaplimit : Z;
  ml_alloc : Z;
}.

(** What does not change while the cache lives. *)
Record mag_cfg := MagCfg {
  mc_flags : Z;                   (* cache_flags *)
  mc_cookie : Z;                  (* umem_link_cookie *)
  mc_cpu_mask : Z;                (* cache_cpu_mask *)
  mc_null : bool;                 (* cp == &umem_null_cache *)
  mc_node : Z -> Z;               (* umem_cpu_node *)
  mc_ctor : bool;                 (* cache_constructor != NULL *)
  mc_dtor : bool;                 (* cache_destructor != NULL *)
  mc_chunksize : Z;
  mc_steal_max : Z;               (* umem_depot_steal_max *)
}.

Record mag_stats := MagStats {
  depot_contention : Z;
  depot_contention_prev : Z;
  depot_local : Z;
  depot_remote : Z;
  depot_cross_node : Z;
  mag_total : Z;
  alloc_fail : Z;
}.

Record mags := Mags {
  mcfg : mag_cfg;
  cache_cpu : list umem_cpu_cache;
  cache_full : umem_maglist;
  cache_empty : umem_maglist;
  cache_depot_full : list umem_maglist;
  cache_depot_empty : list umem_maglist;
  cache_magtype : nat;            (* index into umem_magtype *)
  cached_cpu_hint : Z;            (* of the running thread; -1 is none *)
  mstats : mag_stats;
}.

Definition set_cpus v (s : mags) : mags :=
  Mags (mcfg s) v (cache_full s) (cache_empty s) (cache_depot_full s) (cache_depot_empty s)
    (cache_magtype s) (cached_cpu_hint s) (mstats s).
Definition set_full v (s : mags) : mags :=
  Mags (mcfg s) (cache_cpu s) v (cache_empty s) (cache_depot_full s) (cache_depot_empty s)
    (cache_magtype s) (cached_cpu_hint s) (mstats s).
Definition set_empty v (s : mags) : mags :=
  Mags (mcfg s) (cache_cpu s) (cache_full s) v (cache_depot_full s) (cache_depot_empty s)
    (cache_magtype s) (cached_cpu_hint s) (mstats s).
Definition set_dfull v (s : mags) : mags :=
  Mags (mcfg s) (cache_cpu s) (cache_full s) (cache_empty s) v (cache_depot_empty s)
    (cache_magtype s) (cached_cpu_hint s) (mstats s).
Definition set_dempty v (s : mags) : mags :=
  Mags (mcfg s) (cache_cpu s) (cache_full s) (cache_empty s) (cache_depot_full s) v
    (cache_magtype s) (cached_cpu_hint s) (mstats s).
Definition set_magtype v (s : mags) : mags :=
  Mags (mcfg s) (cache_cpu s) (cache_full s) (cache_empty s) (cache_depot_full s) (cache_depot_empty s)
    v (cached_cpu_hint s) (mstats s).
Definition set_hint v (s : mags) : mags :=
  Mags (mcfg s) (cache_cpu s) (cache_full s) (cache_empty s) (cache_depot_full s) (cache_depot_empty s)
    (cache_magtype s) v (mstats s).
Definition set_mstats v (s : mags) : mags :=
  Mags (mcfg s) (cache_cpu s) (cache_full s) (cache_empty s) (cache_depot_full s) (cache_depot_empty s)
    (cache_magtype s) (cached_cpu_hint s) v.

Definition count_contention (s : mags) : mags :=
  let t := mstats s in
  set_mstats (MagStats (wadd (depot_contention t) 1) (depot_contention_prev t) (depot_local t)
    (depot_remote t) (depot_cross_node t) (mag_total t) (alloc_fail t)) s.
Definition set_contention_prev v (s : mags) : mags :=
  let t := mstats s in
  set_mstats (MagStats (depot_contention t) v (depot_local t) (depot_remote t)
    (depot_cross_node t) (mag_total t) (alloc_fail t)) s.
Definition count_local (s : mags) : mags :=
  let t := mstats s in
  set_mstats (MagStats (depot_contention t) (depot_contention_prev t) (wadd (depot_local t) 1)
    (depot_remote t) (depot_cross_node t) (mag_total t) (alloc_fail t)) s.
Definition count_remote (s : mags) : mags :=
  let t := mstats s in
  set_mstats (MagStats (depot_contention t) (depot_contention_prev t) (depot_local t)
    (wadd (depot_remote t) 1) (depot_cross_node t) (mag_total t) (alloc_fail t)) s.
Definition count_cross (s : mags) : mags :=
  let t := mstats s in
  set_mstats (MagStats (depot_contention t) (depot_contention_prev t) (depot_local t)
    (depot_remote t) (wadd (depot_cross_node t) 1) (mag_total t) (alloc_fail t)) s.
Definition add_mag_total (d : Z) (s : mags) : mags :=
  let t := mstats s in
  set_mstats (MagStats (depot_contention t) (depot_contention_prev t) (depot_local t)
    (depot_remote t) (depot_cross_node t) (wadd (mag_total t) d) (alloc_fail t)) s.
Definition count_fail (s : mags) : mags :=
  let t := mstats s in
  set_mstats (MagStats (depot_contention t) (depot_contention_prev t) (depot_local t)
    (depot_remote t) (depot_cross_node t) (mag_total t) (wadd (alloc_fail t) 1)) s.

(** ** The environment *)

Class mag_env (W : Type) := {
  env_slab_take : W -> Z -> result (W * Z);           (* umem_slab_alloc; 0 is NULL *)
  env_slab_give : W -> Z -> result W;                 (* umem_slab_free *)
  env_construct : W -> Z -> W * bool;                 (* true: the constructor failed *)
  env_destruct : W -> Z -> W;
  env_alloc_debug : W -> Z -> result (W * bool);      (* umem_cache_alloc_debug; true is success *)
  env_free_debug : W -> Z -> result (W * bool);
  env_verify : W -> Z -> bool;                        (* verify_pattern found nothing *)
  env_report : W -> umerr -> Z -> result W;           (* umem_error *)
  env_hook_alloc : W -> Z -> W;                       (* the events of umem_hook_alloc *)
  env_hook_free : W -> Z -> W;
  env_init : W -> W * bool;                           (* umem_init *)
  env_checknull : W -> result W;                      (* umem_err_recoverable under UMF_CHECKNULL *)
  env_nofail : W -> W * option Z;                     (* the nofail callback, if one is set *)
  env_reclaim : W -> W;                               (* cache_reclaim *)
  env_shell_reap : W -> nat -> W;                     (* working-set reap of a magazine cache *)
  env_shell_alloc : W -> nat -> W * option umem_magazine;
  env_shell_free : W -> umem_magazine -> W;
  env_getcpu : W -> W * Z;
  env_trylock : W -> W * bool;                        (* true: acquired at once *)
}.

(** Which of the depot's lists: [&cp->cache_full] or [&cp->cache_empty], global
    or a CPU's. *)
Inductive mlkind : Type := MLFull | MLEmpty.
Definition is_full (k : mlkind) : bool := match k with MLFull => true | MLEmpty => false end.

#[global] Instance maglist_inhabited : Inhabited umem_maglist := populate (MagList [] 0 0 0 0).
Definition depot_ncpus (s : mags) : Z := Z.of_nat (length (cache_depot_full s)).
Definition get_ml (s : mags) (k : mlkind) (i : option nat) : umem_maglist :=
  match k, i with
  | MLFull, None => cache_full s
  | MLEmpty, None => cache_empty s
  | MLFull, Some n => cache_depot_full s !!! n
  | MLEmpty, Some n => cache_depot_empty s !!! n
  end.
Definition set_ml (s : mags) (k : mlkind) (i : option nat) (ml : umem_maglist) : mags :=
  match k, i with
  | MLFull, None => set_full ml s
  | MLEmpty, None => set_empty ml s
  | MLFull, Some n => set_dfull (<[n := ml]> (cache_depot_full s)) s
  | MLEmpty, Some n => set_dempty (<[n := ml]> (cache_depot_empty s)) s
  end.

(** [UMEM_MAGAZINE_VALID]. *)
Definition magazine_valid (s : mags) (mp : umem_magazine) : bool :=
  (mag_source mp =? cache_magtype s)%nat.

Section ops.
Context {W : Type} {env : mag_env W}.

Definition get_cached_cpu_hint (w : W) (s : mags) : W * mags * Z :=
  if cached_cpu_hint s =? -1 then
    let '(w, hint) := env_getcpu w in (w, set_hint hint s, hint)
  else (w, s, cached_cpu_hint s).

(** ** The depot *)

(** The locked part of the pops, on a list that is not empty. *)
Definition ml_pop (mp : umem_magazine) (rest : list umem_magazine) (ml : umem_maglist) : umem_maglist :=
  let total := ml_total ml - 1 in
  MagList rest total (if total <? ml_min ml then total else ml_min ml) (ml_reaplimit ml) (wadd (ml_alloc ml) 1).

Definition umem_depot_pop (w : W) (s : mags) (k : mlkind) (i : option nat) : W * mags * option umem_magazine :=
  match ml_list (get_ml s k i) with
  | [] => (w, s, None)
  | mp :: rest =>
      let '(w, got) := env_trylock w in
      let s := if got then s else count_contention s in
      (w, set_ml s k i (ml_pop mp rest (get_ml s k i)), Some mp)
  end.

Definition umem_depot_pop_trylock (w : W) (s : mags) (k : mlkind) (i : option nat) : W * mags * option umem_magazine :=
  match ml_list (get_ml s k i) with
  | [] => (w, s, None)
  | mp :: rest =>
      let '(w, got) := env_trylock w in
      if got then (w, set_ml s k i (ml_pop mp rest (get_ml s k i)), Some mp) else (w, s, None)
  end.

Definition umem_depot_push (s : mags) (k : mlkind) (i : option nat) (mp : umem_magazine) : mags :=
  let ml := get_ml s k i in
  set_ml s k i (MagList (mp :: ml_list ml) (ml_total ml + 1) (ml_min ml) (ml_reaplimit ml) (ml_alloc ml)).

Definition umem_depot_push_trylock (w : W) (s : mags) (k : mlkind) (i : option nat) (mp : umem_magazine) : W * mags * bool :=
  let '(w, got) := env_trylock w in
  if got then (w, umem_depot_push s k i mp, true) else (w, s, false).

(** Free the rounds [r .. r + n) of a magazine with [give], leaving NULLs. *)
Fixpoint drain_rounds (give : W -> mags -> Z -> result (W * mags)) (n r : nat) (w : W) (s : mags) (mp : umem_magazine) :
    result (W * mags * umem_magazine) :=
  match n with
  | O => Ok (w, s, mp)
  | S n' =>
      do buf <- round_load (mc_cookie (mcfg s)) mp r;
      do mp <- round_store (mc_cookie (mcfg s)) mp r 0;
      do (w, s) <- (if buf =? 0 then Ok (w, s) else give w s buf);
      drain_rounds give n' (S r) w s mp
  end.

Definition slab_give (w : W) (s : mags) (buf : Z) : result (W * mags) :=
  do w <- env_slab_give w buf; Ok (w, s).

Definition umem_depot_destroy_stale (w : W) (s : mags) (full : bool) (mp : umem_magazine) : result (W * mags) :=
  do (w, s, mp) <- (if full then drain_rounds slab_give (Z.to_nat (umem_mag_capacity mp)) 0 w s mp else Ok (w, s, mp));
  Ok (env_shell_free w mp, add_mag_total (-1) s).

(** The stealing loops: the stripes to visit, in order; [count] is the
    statistic of a hit. *)
Fixpoint depot_steal (others : list nat) (count : mags -> mags) (w : W) (s : mags) (k : mlkind) :
    result (W * mags * option umem_magazine) :=
  match others with
  | [] => Ok (w, s, None)
  | o :: others' =>
      let '(w, s, got) := umem_depot_pop_trylock w s k (Some o) in
      match got with
      | None => depot_steal others' count w s k
      | Some mp =>
          if magazine_valid s mp then Ok (w, count s, Some mp)
          else do (w, s) <- umem_depot_destroy_stale w s (is_full k) mp; depot_steal others' count w s k
      end
  end.

(** [(cpu + i) & (ncpus - 1)] for [i] in [1 .. n). *)
Definition stripes (ncpus cpu n : Z) : list nat :=
  (fun i => Z.to_nat (Z.land (cpu + Z.of_nat i) (ncpus - 1))) <$> seq 1 (Z.to_nat (n - 1)).

(** The local stripe: a valid magazine, or none (a stale one is destroyed). *)
Definition depot_local_pop (pop : W -> mags -> mlkind -> option nat -> W * mags * option umem_magazine)
    (w : W) (s : mags) (k : mlkind) (cpu : Z) : result (W * mags * option umem_magazine) :=
  let '(w, s, got) := pop w s k (Some (Z.to_nat cpu)) in
  match got with
  | None => Ok (w, s, None)
  | Some mp =>
      if magazine_valid s mp then Ok (w, count_local s, Some mp)
      else do (w, s) <- umem_depot_destroy_stale w s (is_full k) mp; Ok (w, s, None)
  end.

(** The global list. *)
Definition depot_global_pop (pop : W -> mags -> mlkind -> option nat -> W * mags * option umem_magazine)
    (w : W) (s : mags) (k : mlkind) : result (W * mags * option umem_magazine) :=
  let '(w, s, got) := pop w s k None in
  match got with
  | None => Ok (w, s, None)
  | Some mp =>
      if magazine_valid s mp then Ok (w, s, Some mp)
      else do (w, s) <- umem_depot_destroy_stale w s (is_full k) mp; Ok (w, s, None)
  end.

(** A source that found nothing leaves the next one to try. *)
Definition or_else (r : W * mags * option umem_magazine)
    (next : W -> mags -> result (W * mags * option umem_magazine)) : result (W * mags * option umem_magazine) :=
  let '(w, s, got) := r in
  match got with
  | Some mp => Ok (w, s, Some mp)
  | None => next w s
  end.

Definition umem_depot_alloc_trylock (w : W) (s : mags) (k : mlkind) : result (W * mags * option umem_magazine) :=
  let ncpus := depot_ncpus s in
  do r <-
    (if 0 <? ncpus then
       let '(w, s, hint) := get_cached_cpu_hint w s in
       let cpu := Z.land hint (ncpus - 1) in
       do r <- depot_local_pop umem_depot_pop_trylock w s k cpu;
       or_else r (fun w s =>
         depot_steal (stripes ncpus cpu (Z.min ncpus (mc_steal_max (mcfg s)))) count_remote w s k)
     else Ok (w, s, None));
  or_else r (fun w s => depot_global_pop umem_depot_pop_trylock w s k).

Definition umem_depot_alloc (w : W) (s : mags) (k : mlkind) : result (W * mags * option umem_magazine) :=
  let ncpus := depot_ncpus s in
  do r <-
    (if 0 <? ncpus then
       let '(w, s, hint) := get_cached_cpu_hint w s in
       let cpu := Z.land hint (ncpus - 1) in
       let near (o : nat) := mc_node (mcfg s) (Z.of_nat o) =? mc_node (mcfg s) cpu in
       let others := stripes ncpus cpu ncpus in
       do r <- depot_local_pop umem_depot_pop w s k cpu;
       or_else r (fun w s =>
         do r <- depot_steal (List.filter near others) count_remote w s k;
         or_else r (fun w s =>
           depot_steal (List.filter (fun o => negb (near o)) others) count_cross w s k))
     else Ok (w, s, None));
  or_else r (fun w s => depot_global_pop umem_depot_pop w s k).

Definition umem_depot_free (w : W) (s : mags) (k : mlkind) (mp : umem_magazine) : W * mags :=
  let ncpus := depot_ncpus s in
  if 0 <? ncpus then
    let '(w, s, hint) := get_cached_cpu_hint w s in
    (w, umem_depot_push s k (Some (Z.to_nat (Z.land hint (ncpus - 1)))) mp)
  else (w, umem_depot_push s k None mp).

Fixpoint depot_push_any (others : list nat) (w : W) (s : mags) (k : mlkind) (mp : umem_magazine) : W * mags * bool :=
  match others with
  | [] => (w, s, false)
  | o :: others' =>
      let '(w, s, done) := umem_depot_push_trylock w s k (Some o) mp in
      if done then (w, s, true) else depot_push_any others' w s k mp
  end.

Definition umem_depot_free_trylock (w : W) (s : mags) (k : mlkind) (mp : umem_magazine) : W * mags :=
  let ncpus := depot_ncpus s in
  let '(w, s, done) :=
    if 0 <? ncpus then
      let '(w, s, hint) := get_cached_cpu_hint w s in
      let cpu := Z.land hint (ncpus - 1) in
      depot_push_any (Z.to_nat cpu :: stripes ncpus cpu ncpus) w s k mp
    else (w, s, false) in
  if done then (w, s) else (w, umem_depot_push s k None mp).
End ops.
