(* ===== verification/MagOps.v ===== *)
(** * The magazine layer of a cache: operations

    [_umem_cache_alloc], [_umem_cache_free] and their batch forms over the
    CPU magazines and the depot of [MagModel]; the magazines of the per-thread
    caches going back to the depot; working-set reaping, purge, enable and
    resize. *)
From S2P Require Import Prelude Machine SlabModel AllocSizes MagModel.

#[global] Instance cpu_cache_inhabited : Inhabited umem_cpu_cache :=
  populate (CpuCache (-1) (-1) None None 0 0 0 0).

Definition UMEM_NOFAIL : Z := 0x100.
Definition UMEM_CALLBACK_RETRY : Z := 0.
Definition UMEM_CALLBACK_EXIT (status : Z) : Z := Z.lor 0x100 (Z.land status 0xff).
Definition INT_MAX : Z := 2147483647.
Definition UMEM_DEPOT_PERCPU_MAX : Z := 8.

Definition cpu_of (s : mags) (i : nat) : umem_cpu_cache := cache_cpu s !!! i.
Definition set_cpu (i : nat) (c : umem_cpu_cache) (s : mags) : mags := set_cpus (<[i := c]> (cache_cpu s)) s.

(** Rounds taken from or put into the loaded magazine; the counters are
    32 bits wide. *)
Definition cpu_took (c : umem_cpu_cache) (n : Z) : umem_cpu_cache :=
  CpuCache (cc_rounds c - n) (cc_prounds c) (cc_loaded c) (cc_ploaded c) (cc_magsize c) (cc_flags c)
    ((cc_alloc c + n) mod 2 ^ 32) (cc_free c).
Definition cpu_put (c : umem_cpu_cache) (mp : umem_magazine) (n : Z) : umem_cpu_cache :=
  CpuCache (cc_rounds c + n) (cc_prounds c) (Some mp) (cc_ploaded c) (cc_magsize c) (cc_flags c)
    (cc_alloc c) ((cc_free c + n) mod 2 ^ 32).
Definition cpu_emptied (c : umem_cpu_cache) : umem_cpu_cache :=
  CpuCache (-1) (-1) None None 0 (cc_flags c) (cc_alloc c) (cc_free c).
Definition cpu_sized (m : Z) (c : umem_cpu_cache) : umem_cpu_cache :=
  CpuCache (cc_rounds c) (cc_prounds c) (cc_loaded c) (cc_ploaded c) m (cc_flags c) (cc_alloc c) (cc_free c).

(** [(cc_loaded == NULL && rounds == -1) || (cc_loaded && rounds + new == magsize)],
    [magsize > 0]. *)
Definition reload_assert (c : umem_cpu_cache) (rounds : Z) : bool :=
  match cc_loaded c with
  | None => cc_rounds c =? -1
  | Some _ => cc_rounds c + rounds =? cc_magsize c
  end && (0 <? cc_magsize c).
Definition umem_cpu_reload (s : mags) (i : nat) (mp : option umem_magazine) (rounds : Z) : result mags :=
  let c := cpu_of s i in
  if reload_assert c rounds then
    Ok (set_hint (-1) (set_cpu i (CpuCache rounds (cc_rounds c) mp (cc_loaded c) (cc_magsize c) (cc_flags c)
          (cc_alloc c) (cc_free c)) s))
  else Panic "umem_cpu_reload: assertion".

Section ops.
Context {W : Type} {env : mag_env W}.

(** [CPU_CACHED (cp->cache_cpu_mask)]. *)
Definition CPU_CACHED (w : W) (s : mags) : W * mags * nat :=
  let '(w, s, hint) := get_cached_cpu_hint w s in
  (w, s, Z.to_nat (Z.land hint (mc_cpu_mask (mcfg s)))).

(** [exit] ends the run. *)
Definition umem_alloc_retry (w : W) (null_cache : bool) (umf umflag : Z) : result (W * bool) :=
  let '(w, inited) := if null_cache then env_init w else (w, false) in
  if inited then Ok (w, true) else
  do w <- (if has umf UMF_CHECKNULL then env_checknull w else Ok w);
  if has umflag UMEM_NOFAIL then
    let '(w, callback) := env_nofail w in
    let result := default (UMEM_CALLBACK_EXIT 255) callback in
    if result =? UMEM_CALLBACK_RETRY then Ok (w, true) else Panic "exit"
  else Ok (w, false).

(** ** Allocation *)

Definition push_some (w : W) (s : mags) (k : mlkind) (mp : option umem_magazine) : W * mags :=
  match mp with Some mp => umem_depot_free w s k mp | None => (w, s) end.

(** The loaded magazine is empty: exchange it with a full previous one, or with
    a full one of the depot; [false] is the [break] to the slab layer. *)
Definition cpu_refill (w : W) (s : mags) (i : nat) : result (W * mags * bool) :=
  let c := cpu_of s i in
  if 0 <? cc_prounds c then
    do s <- umem_cpu_reload s i (cc_ploaded c) (cc_prounds c); Ok (w, s, true)
  else if cc_magsize c =? 0 then Ok (w, s, false)
  else
    do (w, s, fmp) <- umem_depot_alloc w s MLFull;
    match fmp with
    | None => Ok (w, s, false)
    | Some fmp =>
        let '(w, s) := push_some w s MLEmpty (cc_ploaded c) in
        do s <- umem_cpu_reload s i (Some fmp) (cc_magsize c); Ok (w, s, true)
    end.

(** The loop of [_umem_cache_alloc] under [cc_lock]: an object, or none when
    the slab layer has to serve. *)
Fixpoint cpu_alloc_loop (fuel : nat) (w : W) (s : mags) (i : nat) : result (W * mags * option Z) :=
  match fuel with
  | O => Panic "cpu_alloc_loop: fuel"
  | S fuel =>
      let c := cpu_of s i in
      if 0 <? cc_rounds c then
        match cc_loaded c with
        | None => Panic "null magazine"
        | Some mp =>
            do buf <- round_load (mc_cookie (mcfg s)) mp (Z.to_nat (cc_rounds c - 1));
            Ok (w, set_cpu i (cpu_took c 1) s, Some buf)
        end
      else
        do (w, s, again) <- cpu_refill w s i;
        if again : bool then cpu_alloc_loop fuel w s i else Ok (w, s, None)
  end.

(** The hook reports the event and returns the buffer. *)
Definition umem_hook_alloc (w : W) (buf : Z) : W * Z := (env_hook_alloc w buf, buf).
Definition hooked_return (c : umem_cpu_cache) (w : W) (s : mags) (buf : Z) : result (W * mags * Z) :=
  if has (cc_flags c) UMF_HOOKED then
    let '(w, buf) := umem_hook_alloc w buf in Ok (w, s, buf)
  else Ok (w, s, buf).

(** One pass from the label [retry]; [retry w s] is the failure path that asks
    [umem_alloc_retry] whether to start over. *)
Definition alloc_pass (retry : W -> mags -> result (W * mags * Z)) (w : W) (s : mags) (umflag : Z) :
    result (W * mags * Z) :=
  let '(w, s, i) := CPU_CACHED w s in
  do (w, s, got) <- cpu_alloc_loop 3 w s i;
  match got with
  | Some buf =>
      if has (cc_flags (cpu_of s i)) UMF_BUFTAG then
        do (w, good) <- env_alloc_debug w buf;
        if good : bool then hooked_return (cpu_of s i) w s buf else retry w s
      else hooked_return (cpu_of s i) w s buf
  | None =>
      do (w, buf) <- env_slab_take w umflag;
      if buf =? 0 then
        if mc_null (mcfg s) then Ok (w, s, 0) else retry w s
      else if has (mc_flags (mcfg s)) UMF_BUFTAG then
        do (w, good) <- env_alloc_debug w buf;
        if good : bool then hooked_return (cpu_of s 0) w s buf else retry w s
      else
        let '(w, failed) := if mc_ctor (mcfg s) then env_construct w buf else (w, false) in
        if failed : bool then
          do w <- env_slab_give w buf;
          retry w (count_fail s)
        else hooked_return (cpu_of s 0) w s buf
  end.

(** [fuel] bounds the number of passes: another one is made when the nofail
    callback asks for it. *)
Fixpoint _umem_cache_alloc (fuel : nat) (umf : Z) (w : W) (s : mags) (umflag : Z) : result (W * mags * Z) :=
  match fuel with
  | O => Panic "_umem_cache_alloc: fuel"
  | S fuel =>
      alloc_pass (fun w s =>
        do (w, again) <- umem_alloc_retry w (mc_null (mcfg s)) umf umflag;
        if again : bool then _umem_cache_alloc fuel umf w s umflag else Ok (w, s, 0)) w s umflag
  end.

(** ** Batch allocation *)

(** The inner loop: [n] rounds of the loaded magazine, from the top down. *)
Fixpoint take_rounds (cookie : Z) (mp : umem_magazine) (n rounds : nat) : result (list Z) :=
  match n with
  | O => Ok []
  | S n' =>
      do buf <- round_load cookie mp (rounds - 1)%nat;
      do bufs <- take_rounds cookie mp n' (rounds - 1)%nat;
      Ok (buf :: bufs)
  end.

(** [want] objects are still wanted. *)
Fixpoint batch_alloc_loop (fuel : nat) (w : W) (s : mags) (i : nat) (want : Z) : result (W * mags * list Z) :=
  match fuel with
  | O => Panic "batch_alloc_loop: fuel"
  | S fuel =>
      let c := cpu_of s i in
      if want <=? 0 then Ok (w, s, [])
      else if 0 <? cc_rounds c then
        match cc_loaded c with
        | None => Panic "null magazine"
        | Some mp =>
            let avail := Z.min (cc_rounds c) want in
            do bufs <- take_rounds (mc_cookie (mcfg s)) mp (Z.to_nat avail) (Z.to_nat (cc_rounds c));
            do (w, s, more) <- batch_alloc_loop fuel w (set_cpu i (cpu_took c avail) s) i (want - avail);
            Ok (w, s, bufs ++ more)
        end
      else
        do (w, s, again) <- cpu_refill w s i;
        if again : bool then batch_alloc_loop fuel w s i want else Ok (w, s, [])
  end.

(** The fallback loop, [want] times at most. *)
Fixpoint batch_slab_loop (want : nat) (w : W) (s : mags) (umflag : Z) : result (W * mags * list Z) :=
  match want with
  | O => Ok (w, s, [])
  | S want =>
      do (w, buf) <- env_slab_take w umflag;
      if buf =? 0 then Ok (w, s, [])
      else
        let '(w, failed) := if mc_ctor (mcfg s) then env_construct w buf else (w, false) in
        if failed : bool then
          do w <- env_slab_give w buf; Ok (w, count_fail s, [])
        else
          do (w, s, more) <- batch_slab_loop want w s umflag;
          Ok (w, s, buf :: more)
  end.

(** The objects of [bufs[0 .. returned)]. *)
Definition umem_cache_alloc_batch (w : W) (s : mags) (count umflag : Z) : result (W * mags * list Z) :=
  if count <=? 0 then Ok (w, s, []) else
  let '(w, s, i) := CPU_CACHED w s in
  do (w, s, bufs) <- batch_alloc_loop (S (3 * Z.to_nat count)) w s i count;
  do (w, s, more) <- batch_slab_loop (Z.to_nat count - length bufs) w s umflag;
  let bufs := bufs ++ more in
  Ok (if has (cc_flags (cpu_of s i)) UMF_HOOKED then foldl env_hook_alloc w bufs else w, s, bufs).

(** ** Free *)

(** No empty magazine in the depot: a new shell for the depot, or none. *)
Definition new_empty (w : W) (s : mags) (i : nat) : W * mags * bool :=
  let mtp := cache_magtype s in
  let '(w, emp) := env_shell_alloc w mtp in
  match emp with
  | None => (w, s, false)
  | Some emp =>
      let s := add_mag_total 1 s in
      let emp := umem_mag_init_fast emp (magsize_of mtp) in
      if cc_magsize (cpu_of s i) =? magsize_of mtp then
        let '(w, s) := umem_depot_free w s MLEmpty emp in (w, s, true)
      else (env_shell_free w emp, add_mag_total (-1) s, true)
  end.

(** [(uint_t)rounds < magsize]. *)
Definition has_room (c : umem_cpu_cache) : bool := cc_rounds c mod 2 ^ 32 <? cc_magsize c.

(** The loaded magazine is full: exchange it with an empty previous one, or
    with an empty one of the depot, or give the depot a new one; [false] is the
    [break] to the slab layer. *)
Definition cpu_make_room (w : W) (s : mags) (i : nat) : result (W * mags * bool) :=
  let c := cpu_of s i in
  if cc_prounds c =? 0 then
    do s <- umem_cpu_reload s i (cc_ploaded c) (cc_prounds c); Ok (w, s, true)
  else if cc_magsize c =? 0 then Ok (w, s, false)
  else
    do (w, s, emp) <- umem_depot_alloc w s MLEmpty;
    match emp with
    | Some emp =>
        let '(w, s) := push_some w s MLFull (cc_ploaded c) in
        do s <- umem_cpu_reload s i (Some emp) 0; Ok (w, s, true)
    | None => Ok (new_empty w s i)
    end.

(** The loop of [_umem_cache_free] under [cc_lock]: whether the object was
    stored. *)
Fixpoint cpu_free_loop (fuel : nat) (w : W) (s : mags) (i : nat) (buf : Z) : result (W * mags * bool) :=
  match fuel with
  | O => Panic "cpu_free_loop: fuel"
  | S fuel =>
      let c := cpu_of s i in
      if has_room c then
        match cc_loaded c with
        | None => Panic "null magazine"
        | Some mp =>
            do mp <- round_store (mc_cookie (mcfg s)) mp (Z.to_nat (cc_rounds c)) buf;
            Ok (w, set_cpu i (cpu_put c mp 1) s, true)
        end
      else
        do (w, s, again) <- cpu_make_room w s i;
        if again : bool then cpu_free_loop fuel w s i buf else Ok (w, s, false)
  end.

Definition destruct_give (w : W) (s : mags) (buf : Z) : result W :=
  let w := if negb (has (mc_flags (mcfg s)) UMF_BUFTAG) && mc_dtor (mcfg s) then env_destruct w buf else w in
  env_slab_give w buf.

Definition _umem_cache_free (w : W) (s : mags) (buf : Z) : result (W * mags) :=
  let '(w, s, i) := CPU_CACHED w s in
  if buf =? 0 then Ok (w, s) else
  let fl := cc_flags (cpu_of s i) in
  do (w, good) <- (if has fl UMF_BUFTAG then env_free_debug w buf else Ok (w, true));
  if negb good then Ok (w, s) else
  let w := if has fl UMF_HOOKED then env_hook_free w buf else w in
  do (w, s, stored) <- cpu_free_loop 4 w s i buf;
  if stored : bool then Ok (w, s)
  else do w <- destruct_give w s buf; Ok (w, s).

(** ** Batch free *)

Fixpoint put_rounds (cookie : Z) (mp : umem_magazine) (rounds : nat) (bufs : list Z) : result umem_magazine :=
  match bufs with
  | [] => Ok mp
  | buf :: bufs =>
      do mp <- round_store cookie mp rounds buf;
      put_rounds cookie mp (S rounds) bufs
  end.

(** What is left of [bufs] when the magazine layer has no more room. *)
Fixpoint batch_free_loop (fuel : nat) (w : W) (s : mags) (i : nat) (bufs : list Z) : result (W * mags * list Z) :=
  match fuel with
  | O => Panic "batch_free_loop: fuel"
  | S fuel =>
      let c := cpu_of s i in
      if (length bufs =? 0)%nat then Ok (w, s, [])
      else if has_room c then
        match cc_loaded c with
        | None => Panic "null magazine"
        | Some mp =>
            let space := Z.min (cc_magsize c - cc_rounds c) (Z.of_nat (length bufs)) in
            do mp <- put_rounds (mc_cookie (mcfg s)) mp (Z.to_nat (cc_rounds c)) (take (Z.to_nat space) bufs);
            batch_free_loop fuel w (set_cpu i (cpu_put c mp space) s) i (drop (Z.to_nat space) bufs)
        end
      else
        do (w, s, again) <- cpu_make_room w s i;
        if again : bool then batch_free_loop fuel w s i bufs else Ok (w, s, bufs)
  end.

Fixpoint batch_give_loop (w : W) (s : mags) (bufs : list Z) : result W :=
  match bufs with
  | [] => Ok w
  | buf :: bufs =>
      let w := if mc_dtor (mcfg s) then env_destruct w buf else w in
      do w <- env_slab_give w buf;
      batch_give_loop w s bufs
  end.

(** The number of objects freed is [count] in every run. *)
Definition umem_cache_free_batch (w : W) (s : mags) (bufs : list Z) : result (W * mags * Z) :=
  if (length bufs =? 0)%nat then Ok (w, s, 0) else
  let '(w, s, i) := CPU_CACHED w s in
  let w := if has (cc_flags (cpu_of s i)) UMF_HOOKED then foldl env_hook_free w bufs else w in
  do (w, s, rest) <- batch_free_loop (S (4 * length bufs)) w s i bufs;
  do w <- batch_give_loop w s rest;
  Ok (w, s, Z.of_nat (length bufs)).

(** ** Magazines of the per-thread caches *)

Definition umem_mag_drain (w : W) (s : mags) (mp : umem_magazine) (rounds cap : Z) :
    result (W * mags * umem_magazine) :=
  drain_rounds _umem_cache_free (Z.to_nat (if cap <? rounds then cap else rounds)) 0 w s mp.

Definition umem_ptc_mag_return_by (push : W -> mags -> mlkind -> umem_magazine -> W * mags)
    (w : W) (s : mags) (k : mlkind) (mp : umem_magazine) (rounds : Z) : result (W * mags) :=
  let cap := umem_mag_capacity mp in
  if negb (magazine_valid s mp) then
    do (w, s, mp) <- umem_mag_drain w s mp rounds cap;
    Ok (env_shell_free w mp, add_mag_total (-1) s)
  else
    do (w, s, mp, k) <-
      (if negb (is_full k) || negb (rounds =? cap) then
         do (w, s, mp) <- umem_mag_drain w s mp rounds cap; Ok (w, s, mp, MLEmpty)
       else Ok (w, s, mp, k));
    Ok (push w s k mp).
Definition umem_ptc_mag_return := umem_ptc_mag_return_by umem_depot_free.
Definition umem_ptc_mag_return_trylock := umem_ptc_mag_return_by umem_depot_free_trylock.

Definition umem_ptc_mag_prime (w : W) (s : mags) : W * mags * option umem_magazine :=
  let '(w, emp) := env_shell_alloc w (cache_magtype s) in
  match emp with
  | None => (w, s, None)
  | Some emp => (w, add_mag_total 1 s, Some (umem_mag_init_fast emp (umem_mag_capacity emp)))
  end.

(** ** Destroying magazines *)

Fixpoint destroy_rounds (n r : nat) (w : W) (s : mags) (mp : umem_magazine) : result W :=
  match n with
  | O => Ok w
  | S n' =>
      do buf <- round_load (mc_cookie (mcfg s)) mp r;
      do w <- (if has (mc_flags (mcfg s)) UMF_DEADBEEF && negb (env_verify w buf)
               then env_report w UMERR_MODIFIED buf
               else destruct_give w s buf);
      destroy_rounds n' (S r) w s mp
  end.

Definition umem_magazine_destroy (w : W) (s : mags) (mp : umem_magazine) (nrounds : Z) : result (W * mags) :=
  do w <- (if (0 <? nrounds) && negb (umem_mag_scan_notnull mp nrounds) then Ok w
           else destroy_rounds (Z.to_nat nrounds) 0 w s mp);
  Ok (env_shell_free w mp, add_mag_total (-1) s).

(** ** Working sets *)

Definition umem_maglist_ws_update (ml : umem_maglist) : umem_maglist :=
  MagList (ml_list ml) (ml_total ml) (ml_total ml) (ml_min ml) (ml_alloc ml).

Definition beyond_ws (ml : umem_maglist) : bool := 0 <? Z.min (ml_reaplimit ml) (ml_min ml).
Definition umem_depot_ws_excess (s : mags) : bool :=
  beyond_ws (cache_full s) || beyond_ws (cache_empty s) ||
  existsb (fun '(f, e) => beyond_ws f || beyond_ws e) (zip (cache_depot_full s) (cache_depot_empty s)).

Definition umem_depot_ws_update (s : mags) : mags :=
  let s := set_empty (umem_maglist_ws_update (cache_empty s)) (set_full (umem_maglist_ws_update (cache_full s)) s) in
  set_dempty (umem_maglist_ws_update <$> cache_depot_empty s)
    (set_dfull (umem_maglist_ws_update <$> cache_depot_full s) s).

Definition umem_depot_reap_pop (ml : umem_maglist) : option (umem_magazine * umem_maglist) :=
  match ml_list ml with
  | [] => None
  | mp :: rest => Some (mp, MagList rest (ml_total ml - 1) (ml_min ml) (ml_reaplimit ml) (wadd (ml_alloc ml) 1))
  end.

(** The magazines to destroy are chained in reverse. *)
Fixpoint reap_collect (reap : nat) (ml : umem_maglist) (destroy_list : list umem_magazine) :
    umem_maglist * list umem_magazine :=
  match reap with
  | O => (ml, destroy_list)
  | S reap =>
      match umem_depot_reap_pop ml with
      | None => (ml, destroy_list)
      | Some (mp, ml) => reap_collect reap ml (mp :: destroy_list)
      end
  end.

Fixpoint destroy_all (mps : list umem_magazine) (w : W) (s : mags) (full_rounds : Z) : result (W * mags) :=
  match mps with
  | [] => Ok (w, s)
  | mp :: mps =>
      do (w, s) <- (if negb (magazine_valid s mp) then umem_depot_destroy_stale w s (0 <? full_rounds) mp
                    else umem_magazine_destroy w s mp full_rounds);
      destroy_all mps w s full_rounds
  end.

Definition umem_maglist_ws_reap (w : W) (s : mags) (k : mlkind) (i : option nat) (full_rounds : Z) : result (W * mags) :=
  let ml := get_ml s k i in
  let '(ml, mps) := reap_collect (Z.to_nat (Z.min (ml_reaplimit ml) (ml_min ml))) ml [] in
  destroy_all mps w (set_ml s k i ml) full_rounds.

Definition umem_maglist_mark_excess (ml : umem_maglist) : umem_maglist :=
  if UMEM_DEPOT_PERCPU_MAX <? ml_total ml then
    let excess := ml_total ml - UMEM_DEPOT_PERCPU_MAX in
    MagList (ml_list ml) (ml_total ml) (ml_min ml)
      (if ml_reaplimit ml <? excess then excess else ml_reaplimit ml) (ml_alloc ml)
  else ml.

Fixpoint reap_stripes (stripes : list nat) (w : W) (s : mags) (magsize : Z) : result (W * mags) :=
  match stripes with
  | [] => Ok (w, s)
  | i :: stripes =>
      do (w, s) <- umem_maglist_ws_reap w s MLFull (Some i) magsize;
      do (w, s) <- umem_maglist_ws_reap w s MLEmpty (Some i) 0;
      let s := set_ml s MLFull (Some i) (umem_maglist_mark_excess (get_ml s MLFull (Some i))) in
      let s := set_ml s MLEmpty (Some i) (umem_maglist_mark_excess (get_ml s MLEmpty (Some i))) in
      reap_stripes stripes w s magsize
  end.

Definition umem_depot_ws_reap (w : W) (s : mags) : result (W * mags) :=
  let magsize := magsize_of (cache_magtype s) in
  do (w, s) <- umem_maglist_ws_reap w s MLFull None magsize;
  do (w, s) <- umem_maglist_ws_reap w s MLEmpty None 0;
  reap_stripes (seq 0 (length (cache_depot_full s))) w s magsize.

Definition umem_cache_reap (w : W) (s : mags) : result (W * mags) :=
  let w := env_reclaim w in
  do (w, s) <- umem_depot_ws_reap w s;
  Ok (env_shell_reap w (cache_magtype s), s).

(** ** Purge, enable, resize *)

Definition destroy_some (w : W) (s : mags) (mp : option umem_magazine) (rounds : Z) : result (W * mags) :=
  match mp with Some mp => umem_magazine_destroy w s mp rounds | None => Ok (w, s) end.

Fixpoint purge_cpus (cpus : list nat) (w : W) (s : mags) : result (W * mags) :=
  match cpus with
  | [] => Ok (w, s)
  | i :: cpus =>
      let c := cpu_of s i in
      let s := set_cpu i (cpu_emptied c) s in
      do (w, s) <- destroy_some w s (cc_loaded c) (cc_rounds c);
      do (w, s) <- destroy_some w s (cc_ploaded c) (cc_prounds c);
      purge_cpus cpus w s
  end.

Definition umem_cache_magazine_purge (w : W) (s : mags) : result (W * mags) :=
  do (w, s) <- purge_cpus (seq 0 (length (cache_cpu s))) w s;
  umem_depot_ws_reap w (umem_depot_ws_update (umem_depot_ws_update s)).

Definition umem_cache_magazine_enable (s : mags) : mags :=
  if has (mc_flags (mcfg s)) UMF_NOMAGAZINE then s
  else set_cpus (cpu_sized (magsize_of (cache_magtype s)) <$> cache_cpu s) s.

Definition umem_cache_magazine_resize (w : W) (s : mags) : result (W * mags) :=
  let mtp := cache_magtype s in
  if (mtp <? length umem_magtype - 1)%nat && (mc_chunksize (mcfg s) <? mt_maxbuf (umem_magtype !!! mtp)) then
    do (w, s) <- umem_cache_magazine_purge w s;
    let s := set_magtype (S mtp) s in
    let s := set_contention_prev (wadd (depot_contention (mstats s)) INT_MAX) s in
    Ok (w, umem_cache_magazine_enable s)
  else Ok (w, s).
End ops.
