(* ===== verification/MagInv.v ===== *)
(** * The magazine layer: what a cache's magazines hold

    The objects in the CPU magazines and in the depot, the well-formedness of
    that state, the interface a magazine layer needs of its environment (the
    slab layer below it, the magazine caches beside it), and the depot
    operations against that interface: a magazine that moves takes its objects
    with it, and a stale one gives them back to the slab layer. *)
From S2P Require Import Prelude Machine SlabModel AllocSizes MagModel MagOps.
From AAC_tactics Require Import AAC.
From AAC_tactics Require Instances.
Import Instances.Lists.

(** Permutations are decided by associativity and commutativity of [++]. *)
#[export] Instance perm_lift {A} : AAC_lift (≡ₚ@{A}) (≡ₚ@{A}).
Proof. split; apply _. Defined.

(** ** Held objects *)

(** The objects in the first [n] rounds. *)
Definition contents (cookie : Z) (mp : umem_magazine) (n : Z) : list Z :=
  demangled cookie mp <$> seq 0 (Z.to_nat n).
Definition held_mag (cookie : Z) (mp : option umem_magazine) (n : Z) : list Z :=
  match mp with Some mp => contents cookie mp n | None => [] end.
Definition held_cpu (cookie : Z) (c : umem_cpu_cache) : list Z :=
  held_mag cookie (cc_loaded c) (cc_rounds c) ++ held_mag cookie (cc_ploaded c) (cc_prounds c).
Definition full_of (cookie : Z) (mp : umem_magazine) : list Z :=
  contents cookie mp (umem_mag_capacity mp).
Definition held_ml (cookie : Z) (ml : umem_maglist) : list Z := ml_list ml ≫= full_of cookie.
Definition held (s : mags) : list Z :=
  let ck := mc_cookie (mcfg s) in
  (cache_cpu s ≫= held_cpu ck) ++ held_ml ck (cache_full s) ++ (cache_depot_full s ≫= held_ml ck).

(** ** Well-formed state *)

(** A shell has the rounds of its magazine cache. *)
Definition mag_ok (mp : umem_magazine) : Prop :=
  (mag_source mp < length umem_magtype)%nat /\ Z.of_nat (length (mag_round mp)) = magsize_of (mag_source mp).

(** A loaded magazine is of the CPU's size and holds between none and all of
    its rounds; a previously loaded one holds none or all. *)
Definition loaded_ok (magsize : Z) (mp : option umem_magazine) (rounds : Z) : Prop :=
  match mp with
  | None => rounds = -1
  | Some mp => mag_ok mp /\ umem_mag_capacity mp = magsize /\ 0 < magsize /\ 0 <= rounds <= magsize
  end.
Record cpu_ok (t : nat) (c : umem_cpu_cache) : Prop := {
  co_size : cc_magsize c = 0 \/ cc_magsize c = magsize_of t;
  co_loaded : loaded_ok (cc_magsize c) (cc_loaded c) (cc_rounds c);
  co_ploaded : loaded_ok (cc_magsize c) (cc_ploaded c) (cc_prounds c);
  co_full : cc_prounds c = -1 \/ cc_prounds c = 0 \/ cc_prounds c = cc_magsize c;
  co_first : cc_loaded c = None -> cc_ploaded c = None;
}.
Definition ml_ok (ml : umem_maglist) : Prop :=
  Forall mag_ok (ml_list ml) /\ ml_total ml = Z.of_nat (length (ml_list ml)).
Record mags_ok (s : mags) : Prop := {
  mo_type : (cache_magtype s < length umem_magtype)%nat;
  mo_mask : 0 <= mc_cpu_mask (mcfg s);
  mo_cpus : Z.of_nat (length (cache_cpu s)) = mc_cpu_mask (mcfg s) + 1;
  mo_cpu : Forall (cpu_ok (cache_magtype s)) (cache_cpu s);
  mo_full : ml_ok (cache_full s);
  mo_empty : ml_ok (cache_empty s);
  mo_dfull : Forall ml_ok (cache_depot_full s);
  mo_dempty : Forall ml_ok (cache_depot_empty s);
  mo_stripes : length (cache_depot_empty s) = length (cache_depot_full s);
}.

(** What the depot operations leave alone. *)
Definition depot_only (s s' : mags) : Prop :=
  mcfg s' = mcfg s /\ cache_cpu s' = cache_cpu s /\ cache_magtype s' = cache_magtype s /\
  length (cache_depot_full s') = length (cache_depot_full s).

(** ** The interface

    [ok w A]: in the environment [w] the objects [A] of the slab layer are
    allocated to this cache's magazines and clients.  Taking adds one object
    that was not there, giving removes one, and nothing else the layer calls
    changes them. *)
Class mag_source_laws (W : Type) {env : mag_env W} (ok : W -> list Z -> Prop) := {
  ms_perm w A B : A ≡ₚ B -> ok w A -> ok w B;
  ms_nodup w A : ok w A -> NoDup A;
  ms_nonzero w A : ok w A -> 0 ∉ A;
  ms_take w A umflag : ok w A ->
    exists w' b, env_slab_take w umflag = Ok (w', b) /\ ((b = 0 /\ ok w' A) \/ (b <> 0 /\ ok w' (b :: A)));
  ms_give w A b : ok w (b :: A) -> exists w', env_slab_give w b = Ok w' /\ ok w' A;
  ms_construct w A b : ok w A -> ok (env_construct w b).1 A;
  ms_destruct w A b : ok w A -> ok (env_destruct w b) A;
  ms_hook_alloc w A b : ok w A -> ok (env_hook_alloc w b) A;
  ms_hook_free w A b : ok w A -> ok (env_hook_free w b) A;
  ms_nofail w A : ok w A -> ok (env_nofail w).1 A;
  ms_reclaim w A : ok w A -> ok (env_reclaim w) A;
  ms_shell_reap w A t : ok w A -> ok (env_shell_reap w t) A;
  ms_shell_free w A mp : ok w A -> ok (env_shell_free w mp) A;
  ms_shell_alloc w A t : (t < length umem_magtype)%nat -> ok w A -> ok (env_shell_alloc w t).1 A;
  ms_shell_new w t mp : (t < length umem_magtype)%nat -> (env_shell_alloc w t).2 = Some mp ->
    mag_source mp = t /\ Z.of_nat (length (mag_round mp)) = magsize_of t;
  ms_getcpu w A : ok w A -> ok (env_getcpu w).1 A;
  ms_cpu w : 0 <= (env_getcpu w).2;
  ms_trylock w A : ok w A -> ok (env_trylock w).1 A;
}.

(** The objects are a multiset. *)
#[export] Instance ok_proper {W} {env : mag_env W} {ok} {laws : mag_source_laws W ok} w :
  Proper ((≡ₚ) ==> iff) (ok w).
Proof. intros A B E. split; apply ms_perm; by rewrite E. Qed.

(** ** Facts about magazines *)

Lemma magsize_pos t : (t < length umem_magtype)%nat -> 0 < magsize_of t <= 255.
Proof. intros Ht. do 6 (destruct t as [|t]; [vm_compute; split; congruence|]). simpl in Ht. lia. Qed.

Lemma capacity_magsize mp : mag_ok mp -> umem_mag_capacity mp = magsize_of (mag_source mp).
Proof.
  intros [Hs _]. unfold umem_mag_capacity. pose proof (magsize_pos _ Hs).
  rewrite Z.div_mul by lia. lia.
Qed.

Lemma capacity_length mp : mag_ok mp -> umem_mag_capacity mp = Z.of_nat (length (mag_round mp)).
Proof. intros H. rewrite capacity_magsize by done. by destruct H. Qed.

Lemma demangle_put cookie mp i v :
  (i < length (mag_round mp))%nat -> demangled cookie (round_put cookie mp i v) i = v.
Proof.
  intros Hi. unfold demangled, round_put, slot_addr. simpl.
  rewrite list_lookup_total_insert_eq by done. unfold UMEM_SLOT_MANGLE.
  set (k := Z.shiftr _ _). rewrite !Z.lxor_assoc, (Z.lxor_comm k), !Z.lxor_assoc.
  rewrite Z.lxor_nilpotent, Z.lxor_0_r, Z.lxor_nilpotent. apply Z.lxor_0_r.
Qed.

Lemma demangle_put_ne cookie mp i j v :
  i <> j -> demangled cookie (round_put cookie mp i v) j = demangled cookie mp j.
Proof.
  intros Hij. unfold demangled, round_put, slot_addr. simpl. by rewrite list_lookup_total_insert_ne.
Qed.

Lemma mag_ok_put cookie mp i v : mag_ok mp -> mag_ok (round_put cookie mp i v).
Proof. intros [H1 H2]. split; simpl; [done|]. by rewrite length_insert. Qed.

Lemma contents_ext ck mp mp' n :
  (forall i, (i < Z.to_nat n)%nat -> demangled ck mp' i = demangled ck mp i) ->
  contents ck mp' n = contents ck mp n.
Proof.
  intros H. unfold contents. apply list_fmap_ext. intros j x Hx.
  apply lookup_seq in Hx as [-> ?]. by apply H.
Qed.

Lemma contents_snoc ck mp n :
  0 <= n -> contents ck mp (n + 1) = contents ck mp n ++ [demangled ck mp (Z.to_nat n)].
Proof.
  intros Hn. unfold contents. replace (Z.to_nat (n + 1)) with (S (Z.to_nat n)) by lia.
  by rewrite seq_S, fmap_app.
Qed.

Lemma contents_le0 ck mp n : n <= 0 -> contents ck mp n = [].
Proof. intros Hn. unfold contents. by replace (Z.to_nat n) with 0%nat by lia. Qed.

(** ** Held objects, one place at a time *)

Lemma bind_at {A B} (g : A -> list B) (l : list A) i x :
  l !! i = Some x -> exists R, forall y, <[i := y]> l ≫= g ≡ₚ g y ++ R.
Proof.
  intros Hi. exists ((take i l ++ drop (S i) l) ≫= g). intros y.
  pose proof (lookup_lt_Some _ _ _ Hi). rewrite insert_take_drop by done.
  rewrite !bind_app, bind_cons. aac_reflexivity.
Qed.

Lemma held_cpu_at s i c :
  cache_cpu s !! i = Some c ->
  exists R, held s ≡ₚ held_cpu (mc_cookie (mcfg s)) c ++ R /\
    forall c', held (set_cpu i c' s) ≡ₚ held_cpu (mc_cookie (mcfg s)) c' ++ R.
Proof.
  intros Hc. destruct (bind_at (held_cpu (mc_cookie (mcfg s))) _ _ _ Hc) as [R HR].
  exists (R ++ held_ml (mc_cookie (mcfg s)) (cache_full s) ++
          (cache_depot_full s ≫= held_ml (mc_cookie (mcfg s)))).
  split.
  - unfold held. rewrite <- (list_insert_id _ _ _ Hc) at 1. rewrite HR. aac_reflexivity.
  - intros c'. unfold held. simpl. rewrite HR. aac_reflexivity.
Qed.

(** The index of a stripe, or the global list. *)
Definition ml_index (s : mags) (i : option nat) : Prop :=
  match i with None => True | Some n => (n < length (cache_depot_full s))%nat end.

Lemma held_full_at s i :
  ml_index s i ->
  exists R, held s ≡ₚ held_ml (mc_cookie (mcfg s)) (get_ml s MLFull i) ++ R /\
    forall ml, held (set_ml s MLFull i ml) ≡ₚ held_ml (mc_cookie (mcfg s)) ml ++ R.
Proof.
  destruct i as [n|]; simpl; intros Hn.
  - destruct (lookup_lt_is_Some_2 _ _ Hn) as [ml Hml].
    destruct (bind_at (held_ml (mc_cookie (mcfg s))) _ _ _ Hml) as [R HR].
    rewrite (list_lookup_total_correct _ _ _ Hml).
    exists (R ++ (cache_cpu s ≫= held_cpu (mc_cookie (mcfg s))) ++ held_ml (mc_cookie (mcfg s)) (cache_full s)).
    split.
    + unfold held. rewrite <- (list_insert_id _ _ _ Hml) at 1. rewrite HR. aac_reflexivity.
    + intros ml'. unfold held. simpl. rewrite HR. aac_reflexivity.
  - exists ((cache_cpu s ≫= held_cpu (mc_cookie (mcfg s))) ++ (cache_depot_full s ≫= held_ml (mc_cookie (mcfg s)))).
    split; [|intros ml]; unfold held; simpl; aac_reflexivity.
Qed.

Lemma held_empty_ml s i ml : held (set_ml s MLEmpty i ml) = held s.
Proof. by destruct i. Qed.

(** The objects that travel with a magazine of a list. *)
Definition load (s : mags) (k : mlkind) (mp : umem_magazine) : list Z :=
  if is_full k then full_of (mc_cookie (mcfg s)) mp else [].

Lemma get_ml_ok s k i : mags_ok s -> ml_index s i -> ml_ok (get_ml s k i).
Proof.
  intros H Hi. destruct k, i as [n|]; simpl in *; try apply H.
  - destruct (lookup_lt_is_Some_2 _ _ Hi) as [ml Hml]. rewrite (list_lookup_total_correct _ _ _ Hml).
    eapply Forall_lookup_1; [apply (mo_dfull _ H)|done].
  - rewrite <- (mo_stripes _ H) in Hi.
    destruct (lookup_lt_is_Some_2 _ _ Hi) as [ml Hml]. rewrite (list_lookup_total_correct _ _ _ Hml).
    eapply Forall_lookup_1; [apply (mo_dempty _ H)|done].
Qed.

Lemma set_ml_ok s k i ml : mags_ok s -> ml_ok ml -> mags_ok (set_ml s k i ml).
Proof.
  intros [] Hml. destruct k, i as [n|]; simpl; split; simpl; rewrite ?length_insert; try done;
    by apply Forall_insert.
Qed.

Lemma set_ml_depot s k i ml : depot_only s (set_ml s k i ml).
Proof. destruct k, i as [n|]; repeat split; simpl; by rewrite ?length_insert. Qed.

Lemma depot_only_refl s : depot_only s s.
Proof. done. Qed.
Lemma depot_only_trans s1 s2 s3 : depot_only s1 s2 -> depot_only s2 s3 -> depot_only s1 s3.
Proof. intros (? & ? & ? & ?) (? & ? & ? & ?). repeat split; congruence. Qed.

Lemma valid_depot s s' mp : depot_only s s' -> magazine_valid s' mp = magazine_valid s mp.
Proof. intros (_ & _ & H & _). unfold magazine_valid. by rewrite H. Qed.
Lemma load_depot s s' k mp : depot_only s s' -> load s' k mp = load s k mp.
Proof. intros (H & _). unfold load. by rewrite H. Qed.

(** States that differ in statistics and the CPU hint hold the same. *)
Definition mags_eqv (s s' : mags) : Prop :=
  mcfg s' = mcfg s /\ cache_cpu s' = cache_cpu s /\ cache_full s' = cache_full s /\
  cache_empty s' = cache_empty s /\ cache_depot_full s' = cache_depot_full s /\
  cache_depot_empty s' = cache_depot_empty s /\ cache_magtype s' = cache_magtype s.
Lemma eqv_ok s s' : mags_eqv s s' -> mags_ok s -> mags_ok s'.
Proof. intros (E1 & E2 & E3 & E4 & E5 & E6 & E7) []. split; by rewrite ?E1, ?E2, ?E3, ?E4, ?E5, ?E6, ?E7. Qed.
Lemma eqv_held s s' : mags_eqv s s' -> held s' = held s.
Proof. intros (E1 & E2 & E3 & E4 & E5 & E6 & E7). unfold held. by rewrite E1, E2, E3, E5. Qed.
Lemma eqv_depot s s' : mags_eqv s s' -> depot_only s s'.
Proof. intros (E1 & E2 & E3 & E4 & E5 & E6 & E7). repeat split; congruence. Qed.

#[export] Hint Resolve depot_only_refl set_ml_depot eqv_depot : umem.

(** ** The depot operations *)

Lemma land_mask x m : 0 <= m -> 0 <= Z.land x m <= m.
Proof.
  intros Hm. apply Z.ldiff_le; [done|]. apply Z.bits_inj'. intros n Hn.
  rewrite Z.ldiff_spec, Z.land_spec, Z.bits_0. by destruct (Z.testbit x n), (Z.testbit m n).
Qed.

Lemma stripe_index s x : 0 < depot_ncpus s -> ml_index s (Some (Z.to_nat (Z.land x (depot_ncpus s - 1)))).
Proof. intros H. pose proof (land_mask x (depot_ncpus s - 1) ltac:(lia)). unfold depot_ncpus in *. simpl. lia. Qed.

Lemma stripes_index s cpu n :
  0 < depot_ncpus s -> Forall (fun o => ml_index s (Some o)) (stripes (depot_ncpus s) cpu n).
Proof.
  intros H. apply Forall_fmap, Forall_forall. intros i _. by apply stripe_index.
Qed.

Lemma ml_index_depot s s' i : depot_only s s' -> ml_index s i -> ml_index s' i.
Proof. intros (_ & _ & _ & E). destruct i; simpl; by rewrite ?E. Qed.

Lemma ml_pop_ok mp rest ml :
  ml_list ml = mp :: rest -> ml_ok ml -> mag_ok mp /\ ml_ok (ml_pop mp rest ml).
Proof.
  intros E [H1 H2]. rewrite E in *. apply Forall_cons in H1 as [??]. split; [done|].
  split; [done|]. simpl in *. lia.
Qed.

Lemma ml_push_ok mp ml :
  mag_ok mp -> ml_ok ml ->
  ml_ok (MagList (mp :: ml_list ml) (ml_total ml + 1) (ml_min ml) (ml_reaplimit ml) (ml_alloc ml)).
Proof. intros ? [??]. split; simpl; [by constructor|lia]. Qed.

(** Taking the head of a list takes what it holds. *)
Lemma pop_held s k i mp rest :
  ml_index s i -> ml_list (get_ml s k i) = mp :: rest ->
  held s ≡ₚ held (set_ml s k i (ml_pop mp rest (get_ml s k i))) ++ load s k mp.
Proof.
  intros Hi E. destruct k; unfold load; cbn [is_full].
  - destruct (held_full_at s i Hi) as (R & -> & ->). unfold held_ml at 1 2. rewrite E, bind_cons. cbn [ml_list ml_pop].
    aac_reflexivity.
  - by rewrite held_empty_ml, app_nil_r.
Qed.

Lemma push_held s k i mp :
  ml_index s i -> held (umem_depot_push s k i mp) ≡ₚ load s k mp ++ held s.
Proof.
  intros Hi. unfold umem_depot_push, load. destruct k; cbn [is_full].
  - destruct (held_full_at s i Hi) as (R & -> & ->). unfold held_ml. cbn [ml_list]. rewrite bind_cons.
    aac_reflexivity.
  - by rewrite held_empty_ml.
Qed.

Section depot.
Context {W : Type} {env : mag_env W} {ok : W -> list Z -> Prop} {laws : mag_source_laws W ok}.

(** The magazine a depot operation returns, and what it leaves behind; [X] is
    what is outside the magazines. *)
Definition popped (X : list Z) (k : mlkind) (s : mags) (w' : W) (s' : mags) (got : option umem_magazine) : Prop :=
  mags_ok s' /\ depot_only s s' /\
  match got with
  | None => ok w' (held s' ++ X)
  | Some mp => mag_ok mp /\ ok w' (held s' ++ load s k mp ++ X)
  end.
Definition pop_spec (pop : W -> mags -> mlkind -> option nat -> W * mags * option umem_magazine) : Prop :=
  forall w s k i X, mags_ok s -> ml_index s i -> ok w (held s ++ X) ->
    exists w' s' got, pop w s k i = (w', s', got) /\ popped X k s w' s' got.

Lemma hint_run w s A :
  ok w A ->
  exists w' s' h, get_cached_cpu_hint w s = (w', s', h) /\ ok w' A /\ mags_eqv s s' /\
    cached_cpu_hint s' = h /\ h <> -1.
Proof.
  intros Hok. unfold get_cached_cpu_hint. destruct (Z.eqb_spec (cached_cpu_hint s) (-1)).
  - pose proof (ms_getcpu w A Hok) as H1. pose proof (ms_cpu w) as H2.
    destruct (env_getcpu w) as [w' h]. exists w', (set_hint h s), h.
    repeat split; simpl in *; try done. lia.
  - by exists w, s, (cached_cpu_hint s).
Qed.

Lemma trylock_run w A : ok w A -> exists w' got, env_trylock w = (w', got) /\ ok w' A.
Proof. intros H%ms_trylock. destruct (env_trylock w) as [w' got]. by exists w', got. Qed.

Lemma popped_head X k s i w mp rest :
  mags_ok s -> ml_index s i -> ml_list (get_ml s k i) = mp :: rest -> ok w (held s ++ X) ->
  popped X k s w (set_ml s k i (ml_pop mp rest (get_ml s k i))) (Some mp).
Proof.
  intros Hs Hi E Hok. destruct (ml_pop_ok _ _ _ E (get_ml_ok s k i Hs Hi)) as [Hmp Hml].
  split; [by apply set_ml_ok|]. split; [frame|]. split; [done|].
  eapply ms_perm; [|done]. rewrite (pop_held s k i mp rest) by done. aac_reflexivity.
Qed.

Lemma depot_pop_spec : pop_spec umem_depot_pop.
Proof.
  intros w s k i X Hs Hi Hok. unfold umem_depot_pop.
  destruct (ml_list (get_ml s k i)) as [|mp rest] eqn:E; [by eexists _, _, _|].
  destruct (trylock_run _ _ Hok) as (w' & got & -> & Hok').
  set (s1 := if got then s else count_contention s).
  assert (Hq : mags_eqv s s1) by (by destruct got).
  assert (Eg : get_ml s1 k i = get_ml s k i) by (by destruct got).
  eexists _, _, _. split; [done|].
  destruct (popped_head X k s1 i w' mp rest) as (H1 & H2 & H3).
  - by eapply eqv_ok.
  - eapply ml_index_depot; [by apply eqv_depot|done].
  - by rewrite Eg.
  - by rewrite (eqv_held _ _ Hq).
  - split; [done|]. split; [by eapply depot_only_trans; [apply eqv_depot|]|].
    by rewrite (load_depot s s1) in H3 by (by apply eqv_depot).
Qed.

Lemma depot_pop_trylock_spec : pop_spec umem_depot_pop_trylock.
Proof.
  intros w s k i X Hs Hi Hok. unfold umem_depot_pop_trylock.
  destruct (ml_list (get_ml s k i)) as [|mp rest] eqn:E; [by eexists _, _, _|].
  destruct (trylock_run _ _ Hok) as (w' & got & -> & Hok'). destruct got; [|by eexists _, _, _].
  eexists _, _, _. split; [done|]. by apply popped_head.
Qed.

(** Draining rounds, for any way of giving one object away. *)
Lemma drain_run (Inv : W -> mags -> list Z -> Prop) give
    (Hnz : forall w s Y, Inv w s Y -> 0 ∉ Y)
    (Hgive : forall w s b Y, Inv w s (b :: Y) -> b <> 0 ->
       exists w' s', give w s b = Ok (w', s') /\ Inv w' s' Y /\ mcfg s' = mcfg s) n r w s mp Y :
  mag_ok mp -> (r + n <= length (mag_round mp))%nat ->
  Inv w s ((demangled (mc_cookie (mcfg s)) mp <$> seq r n) ++ Y) ->
  exists w' s' mp', drain_rounds give n r w s mp = Ok (w', s', mp') /\ Inv w' s' Y /\
    mag_ok mp' /\ mag_source mp' = mag_source mp.
Proof using Type.
  revert r w s mp. induction n as [|n IH]; intros r w s mp Hmp Hr HI; simpl.
  - by exists w, s, mp.
  - unfold round_load, round_store. rewrite (proj2 (Nat.ltb_lt _ _)) by lia. simpl.
    assert (Hb : demangled (mc_cookie (mcfg s)) mp r <> 0).
    { intros E. apply (Hnz _ _ _ HI). simpl. rewrite E. left. }
    rewrite (proj2 (Z.eqb_neq _ _)) by done.
    destruct (Hgive _ _ _ _ HI Hb) as (w1 & s1 & -> & HI1 & Ec). simpl. rewrite <- Ec in *.
    destruct (IH (S r) w1 s1 (round_put (mc_cookie (mcfg s1)) mp r 0)) as (w' & s' & mp' & E & H1 & H2 & H3).
    + by apply mag_ok_put.
    + simpl. rewrite length_insert. lia.
    + erewrite list_fmap_ext; [exact HI1|]. intros j x Hx. apply lookup_seq in Hx as [-> _].
      rewrite demangle_put_ne by lia. done.
    + by exists w', s', mp'.
Qed.

Lemma full_of_seq ck mp : mag_ok mp -> full_of ck mp = demangled ck mp <$> seq 0 (length (mag_round mp)).
Proof. intros H. unfold full_of, contents. rewrite capacity_length by done. by rewrite Nat2Z.id. Qed.

Lemma destroy_stale_any w s k mp Y :
  mag_ok mp -> ok w (load s k mp ++ Y) ->
  exists w' s', umem_depot_destroy_stale w s (is_full k) mp = Ok (w', s') /\ mags_eqv s s' /\ ok w' Y.
Proof.
  intros Hmp Hok. unfold umem_depot_destroy_stale.
  assert (exists w1 mp1, (if is_full k then drain_rounds slab_give (Z.to_nat (umem_mag_capacity mp)) 0 w s mp
            else Ok (w, s, mp)) = Ok (w1, s, mp1) /\ ok w1 Y) as (w1 & mp1 & -> & H1).
  { unfold load in Hok. destruct (is_full k); [|by exists w, mp].
    destruct (drain_run (fun w1 s1 Y => s1 = s /\ ok w1 Y) slab_give) with
      (n := length (mag_round mp)) (r := 0%nat) (w := w) (s := s) (mp := mp) (Y := Y)
      as (w1 & s1 & mp1 & E & [-> H1] & _).
    - intros ??? [_ H]. by eapply ms_nonzero.
    - intros w1 s1 b Y1 [-> H] _. apply ms_give in H as (w2 & E & H2).
      exists w2, s. unfold slab_give. by rewrite E.
    - done.
    - lia.
    - split; [done|]. by rewrite <- full_of_seq.
    - exists w1, mp1. rewrite capacity_length by done. rewrite Nat2Z.id. done. }
  simpl. eexists _, _. do 2 (split; [done|]). by apply ms_shell_free.
Qed.

Lemma destroy_stale_run w s k mp X :
  mags_ok s -> mag_ok mp -> ok w (held s ++ load s k mp ++ X) ->
  exists w' s', umem_depot_destroy_stale w s (is_full k) mp = Ok (w', s') /\ mags_eqv s s' /\
    ok w' (held s' ++ X).
Proof.
  intros Hs Hmp Hok. destruct (destroy_stale_any w s k mp (held s ++ X) Hmp) as (w' & s' & E & Hq & H).
  - eapply ms_perm; [|exact Hok]. aac_reflexivity.
  - exists w', s'. by rewrite (eqv_held _ _ Hq).
Qed.
End depot.
