(* ===== verification/MagSpec.v ===== *)
(** * The magazine layer against its interface

    Depot allocation and free, the loops of [_umem_cache_alloc] and
    [_umem_cache_free], and the operations themselves, for any environment
    that satisfies [mag_source_laws]: they return, no assertion of
    [umem_cpu_reload] fires, no slot outside a shell is touched, and every
    object is held in one place. *)
From S2P Require Import Prelude Machine SlabModel AllocSizes MagModel MagOps MagInv.
From AAC_tactics Require Import AAC.
From AAC_tactics Require Instances.
Import Instances.Lists.

Section spec.
Context {W : Type} {env : mag_env W} {ok : W -> list Z -> Prop} {laws : mag_source_laws W ok}.

(** ** Depot *)

Definition found (X : list Z) (k : mlkind) (s : mags) (w' : W) (s' : mags) (got : option umem_magazine) : Prop :=
  mags_ok s' /\ depot_only s s' /\
  match got with
  | None => ok w' (held s' ++ X)
  | Some mp => mag_ok mp /\ magazine_valid s mp = true /\ ok w' (held s' ++ load s k mp ++ X)
  end.

Lemma found_after X k s s1 w' s' got :
  depot_only s s1 -> found X k s1 w' s' got -> found X k s w' s' got.
Proof using Type.
  intros Hd (H1 & H2 & H3). split; [done|]. split; [by eapply depot_only_trans|].
  destruct got; [|done]. by rewrite (valid_depot _ _ _ Hd), (load_depot _ _ _ _ Hd) in H3.
Qed.

Lemma found_counted X k s w' s' s'' got :
  mags_eqv s' s'' -> found X k s w' s' got -> found X k s w' s'' got.
Proof using Type.
  intros Hq (H1 & H2 & H3). split; [by eapply eqv_ok|].
  split; [by eapply depot_only_trans; [|apply eqv_depot]|]. by rewrite (eqv_held _ _ Hq).
Qed.

(** A popped magazine is kept when it is valid and destroyed when it is stale. *)
Lemma keep_or_destroy w s1 s X k mp :
  mags_ok s1 -> depot_only s s1 -> mag_ok mp -> ok w (held s1 ++ load s k mp ++ X) ->
  if magazine_valid s1 mp then found X k s w s1 (Some mp)
  else exists w' s', umem_depot_destroy_stale w s1 (is_full k) mp = Ok (w', s') /\ found X k s w' s' None.
Proof.
  intros Hs Hd Hmp Hok. destruct (magazine_valid s1 mp) eqn:Ev.
  - rewrite (valid_depot _ _ _ Hd) in Ev. done.
  - rewrite <- (load_depot _ _ _ _ Hd) in Hok.
    destruct (destroy_stale_run w s1 k mp X Hs Hmp Hok) as (w' & s' & E & Hq & Hok').
    exists w', s'. split; [done|]. split; [by eapply eqv_ok|]. split; [|done].
    by eapply depot_only_trans; [|apply eqv_depot].
Qed.

Lemma depot_steal_run others count w s k X :
  (forall s, mags_eqv s (count s)) ->
  mags_ok s -> Forall (fun o => ml_index s (Some o)) others -> ok w (held s ++ X) ->
  exists w' s' got, depot_steal others count w s k = Ok (w', s', got) /\ found X k s w' s' got.
Proof.
  intros Hcount. revert w s. induction others as [|o others IH]; intros w s Hs Hf Hok; simpl.
  - eexists _, _, _. do 2 (split; [done|]). split; [frame|done].
  - apply Forall_cons in Hf as [Ho Hf].
    destruct (depot_pop_trylock_spec w s k (Some o) X Hs Ho Hok) as (w1 & s1 & got & -> & H1 & H2 & H3).
    assert (Hnext : forall w2 s2, found X k s w2 s2 None ->
      exists w' s' got, depot_steal others count w2 s2 k = Ok (w', s', got) /\ found X k s w' s' got).
    { intros w2 s2 (F1 & F2 & F3). destruct (IH w2 s2 F1) as (w' & s' & got' & E & F); [|done|].
      - eapply Forall_impl; [exact Hf|]. intros o'. by apply ml_index_depot.
      - exists w', s', got'. split; [done|]. by eapply found_after. }
    destruct got as [mp|]; [|by apply Hnext].
    destruct H3 as [Hmp Hok1]. pose proof (keep_or_destroy w1 s1 s X k mp H1 H2 Hmp Hok1) as Hk.
    destruct (magazine_valid s1 mp).
    + eexists _, _, _. split; [done|]. by eapply found_counted.
    + destruct Hk as (w2 & s2 & -> & Hf2). by apply Hnext.
Qed.

(** The local and the global pop. *)
Lemma pop_keep pop count w s k i X :
  pop_spec (ok := ok) pop -> (forall s, mags_eqv s (count s)) ->
  mags_ok s -> ml_index s i -> ok w (held s ++ X) ->
  exists w' s' got,
    (let '(w, s, got) := pop w s k i in
     match got with
     | None => Ok (w, s, None)
     | Some mp =>
         if magazine_valid s mp then Ok (w, count s, Some mp)
         else do (w, s) <- umem_depot_destroy_stale w s (is_full k) mp; Ok (w, s, None)
     end) = Ok (w', s', got) /\ found X k s w' s' got.
Proof.
  intros Hpop Hcount Hs Hi Hok. destruct (Hpop w s k i X Hs Hi Hok) as (w1 & s1 & got & -> & H1 & H2 & H3).
  destruct got as [mp|]; [|by eexists _, _, _].
  destruct H3 as [Hmp Hok1]. pose proof (keep_or_destroy w1 s1 s X k mp H1 H2 Hmp Hok1) as Hk.
  destruct (magazine_valid s1 mp).
  - eexists _, _, _. split; [done|]. by eapply found_counted.
  - destruct Hk as (w2 & s2 & -> & Hf2). by eexists _, _, _.
Qed.

(** Try one source, then the next. *)
Lemma found_then X k s w1 s1 got1 (next : W -> mags -> result (W * mags * option umem_magazine)) :
  found X k s w1 s1 got1 ->
  (forall w2 s2, mags_ok s2 -> depot_only s s2 -> ok w2 (held s2 ++ X) ->
     exists w' s' got, next w2 s2 = Ok (w', s', got) /\ found X k s2 w' s' got) ->
  exists w' s' got,
    or_else (w1, s1, got1) next = Ok (w', s', got) /\ found X k s w' s' got.
Proof using Type.
  intros F Hn. unfold or_else. destruct got1 as [mp|]; [by eexists _, _, _|].
  destruct F as (F1 & F2 & F3). destruct (Hn w1 s1 F1 F2 F3) as (w' & s' & got & E & F).
  exists w', s', got. split; [done|]. by eapply found_after.
Qed.

Lemma Forall_filter {A} (P : A -> Prop) (f : A -> bool) l : Forall P l -> Forall P (List.filter f l).
Proof using Type. induction 1; simpl; [done|]. destruct (f x); [by constructor|done]. Qed.

Lemma forall_stripes s s2 l :
  depot_only s s2 -> Forall (fun o => ml_index s (Some o)) l -> Forall (fun o => ml_index s2 (Some o)) l.
Proof using Type. intros Hd Hl. eapply Forall_impl; [exact Hl|]. intros o. by apply ml_index_depot. Qed.

Lemma depot_alloc_run w s k X :
  mags_ok s -> ok w (held s ++ X) ->
  exists w' s' got, umem_depot_alloc w s k = Ok (w', s', got) /\ found X k s w' s' got.
Proof.
  intros Hs Hok. unfold umem_depot_alloc.
  assert (Hglobal : forall w2 s2, mags_ok s2 -> depot_only s s2 -> ok w2 (held s2 ++ X) ->
    exists w' s' got, depot_global_pop umem_depot_pop w2 s2 k = Ok (w', s', got) /\ found X k s2 w' s' got).
  { intros w2 s2 F1 F2 F3. by apply (pop_keep umem_depot_pop (fun s => s)); [apply depot_pop_spec|..]. }
  destruct (Z.ltb_spec 0 (depot_ncpus s)) as [Hn|Hn].
  2:{ simpl. apply Hglobal; [done|frame|done]. }
  destruct (hint_run w s _ Hok) as (w1 & s1 & h & -> & Hok1 & Hq & _ & _).
  pose proof (eqv_ok _ _ Hq Hs) as Hs1. rewrite <- (eqv_held _ _ Hq) in Hok1.
  assert (Ei : depot_ncpus s1 = depot_ncpus s) by (unfold depot_ncpus; by destruct Hq as (_&_&_&_&->&_)).
  pose proof (stripes_index s1 (Z.land h (depot_ncpus s - 1)) (depot_ncpus s)) as Hst. rewrite Ei in Hst.
  pose proof (stripe_index s1 h) as Hi. rewrite Ei in Hi. specialize (Hi Hn). specialize (Hst Hn).
  set (cpu := Z.land h (depot_ncpus s - 1)) in *.
  destruct (pop_keep umem_depot_pop count_local w1 s1 k (Some (Z.to_nat cpu)) X) as (w2 & s2 & g2 & E2 & F2);
    [apply depot_pop_spec|done..|].
  unfold depot_local_pop. rewrite E2. cbn [res_bind].
  match goal with |- context [or_else _ ?n] =>
    destruct (found_then X k s1 w2 s2 g2 n F2) as (w3 & s3 & g3 & E3 & F3) end.
  - intros w4 s4 G1 G2 G3.
    edestruct (depot_steal_run (List.filter
        (fun o => mc_node (mcfg s1) (Z.of_nat o) =? mc_node (mcfg s1) cpu)
        (stripes (depot_ncpus s) cpu (depot_ncpus s))) count_remote w4 s4 k X) as (w5 & s5 & g5 & E5 & F5);
      [done|done|by eapply forall_stripes, Forall_filter|done|].
    rewrite E5. cbn [res_bind]. eapply found_then; [exact F5|].
    intros w6 s6 K1 K2 K3. apply depot_steal_run; [done..| |done].
    eapply forall_stripes, Forall_filter; [|exact Hst]. by eapply depot_only_trans.
  - rewrite E3. cbn [res_bind]. apply (found_after X k s s1) in F3; [|frame].
    eapply found_then; [exact F3|]. intros. by apply Hglobal.
Qed.

(** ** Giving a magazine to the depot *)

Lemma push_ok s k i mp : mags_ok s -> ml_index s i -> mag_ok mp -> mags_ok (umem_depot_push s k i mp).
Proof using Type. intros Hs Hi Hmp. apply set_ml_ok; [done|]. apply ml_push_ok; [done|]. by apply get_ml_ok. Qed.

(** The list at which the next depot allocation of this thread looks first
    starts with [mp]. *)
Definition first_in (s : mags) (k : mlkind) (mp : umem_magazine) : Prop :=
  if 0 <? depot_ncpus s then
    cached_cpu_hint s <> -1 /\
    exists rest, ml_list (get_ml s k (Some (Z.to_nat (Z.land (cached_cpu_hint s) (depot_ncpus s - 1))))) = mp :: rest
  else exists rest, ml_list (get_ml s k None) = mp :: rest.

Lemma push_first s k i mp : mags_ok s -> ml_index s i -> exists rest, ml_list (get_ml (umem_depot_push s k i mp) k i) = mp :: rest.
Proof using Type.
  intros Hs Hi. unfold umem_depot_push. destruct k, i as [n|]; simpl in *.
  - rewrite list_lookup_total_insert_eq by done. by eexists.
  - by eexists.
  - rewrite list_lookup_total_insert_eq by (by rewrite (mo_stripes _ Hs)). by eexists.
  - by eexists.
Qed.

Lemma push_hint s k i mp : cached_cpu_hint (umem_depot_push s k i mp) = cached_cpu_hint s.
Proof using Type. by destruct k, i. Qed.
Lemma push_ncpus s k i mp : depot_ncpus (umem_depot_push s k i mp) = depot_ncpus s.
Proof using Type. unfold depot_ncpus. f_equal. apply set_ml_depot. Qed.

Lemma depot_free_run w s k mp A :
  mags_ok s -> mag_ok mp -> ok w A ->
  exists w' s', umem_depot_free w s k mp = (w', s') /\ mags_ok s' /\ depot_only s s' /\
    ok w' A /\ held s' ≡ₚ load s k mp ++ held s /\ first_in s' k mp.
Proof.
  intros Hs Hmp Hok. unfold umem_depot_free.
  destruct (Z.ltb_spec 0 (depot_ncpus s)) as [Hn|Hn].
  - destruct (hint_run w s _ Hok) as (w1 & s1 & h & -> & Hok1 & Hq & Eh & Hh).
    assert (Ei : depot_ncpus s1 = depot_ncpus s) by (unfold depot_ncpus; by destruct Hq as (_&_&_&_&->&_)).
    pose proof (stripe_index s1 h) as Hi. rewrite Ei in Hi. specialize (Hi Hn).
    pose proof (eqv_ok _ _ Hq Hs) as Hs1.
    eexists _, _. split; [done|]. split; [by apply push_ok|].
    split; [eapply depot_only_trans; [by apply eqv_depot|apply set_ml_depot]|]. split; [done|]. split.
    + rewrite push_held by done. rewrite (eqv_held _ _ Hq).
      by rewrite (load_depot _ _ _ _ (eqv_depot _ _ Hq)).
    + unfold first_in. rewrite push_ncpus, push_hint, Ei, Eh. rewrite (proj2 (Z.ltb_lt _ _)) by done.
      split; [done|]. by apply push_first.
  - eexists _, _. split; [done|]. split; [by apply push_ok|]. split; [frame|]. split; [done|]. split.
    + by apply push_held.
    + unfold first_in. rewrite push_ncpus. rewrite (proj2 (Z.ltb_ge _ _)) by done. by apply push_first.
Qed.

Lemma pop_first w s k i mp rest :
  ml_list (get_ml s k i) = mp :: rest -> exists w' s', umem_depot_pop w s k i = (w', s', Some mp) /\
    cache_magtype s' = cache_magtype s.
Proof using Type.
  intros E. unfold umem_depot_pop. rewrite E. destruct (env_trylock w) as [w' got].
  eexists _, _. split; [done|]. destruct got; by destruct k, i.
Qed.

(** A valid magazine just given to the depot is found again. *)
Lemma depot_alloc_first w s k mp :
  first_in s k mp -> magazine_valid s mp = true ->
  exists w' s', umem_depot_alloc w s k = Ok (w', s', Some mp).
Proof using Type.
  unfold first_in, umem_depot_alloc. intros Hf Hv.
  destruct (0 <? depot_ncpus s).
  - destruct Hf as (Hh & rest & E). unfold get_cached_cpu_hint. rewrite (proj2 (Z.eqb_neq _ _) Hh).
    unfold depot_local_pop. destruct (pop_first w _ _ _ _ _ E) as (w' & s' & -> & Em).
    unfold magazine_valid in *. rewrite Em, Hv. simpl. by eexists _, _.
  - destruct Hf as (rest & E). simpl. unfold depot_global_pop.
    destruct (pop_first w _ _ _ _ _ E) as (w' & s' & -> & Em).
    unfold magazine_valid in *. rewrite Em, Hv. by eexists _, _.
Qed.
End spec.
