(* ===== verification/MagLoops.v ===== *)
(** * The magazine layer: the loops under [cc_lock]

    Exchanging the CPU's magazines with each other and with the depot: what a
    reload, a refill and a making of room do to the held objects, and that the
    loops of [_umem_cache_alloc] and [_umem_cache_free] end within the fuel
    given. *)
From S2P Require Import Prelude Machine SlabModel AllocSizes MagModel MagOps MagInv MagSpec.
From AAC_tactics Require Import AAC.
From AAC_tactics Require Instances.
Import Instances.Lists.

(** What the loops leave alone. *)
Definition keep (s s' : mags) : Prop :=
  mcfg s' = mcfg s /\ cache_magtype s' = cache_magtype s /\ cc_flags <$> cache_cpu s' = cc_flags <$> cache_cpu s.
Lemma keep_refl s : keep s s.
Proof. done. Qed.
Lemma keep_trans s1 s2 s3 : keep s1 s2 -> keep s2 s3 -> keep s1 s3.
Proof. intros (?&?&?) (?&?&?). repeat split; congruence. Qed.
Lemma keep_depot s s' : depot_only s s' -> keep s s'.
Proof. intros (E1 & E2 & E3 & _). repeat split; congruence. Qed.
Lemma keep_eqv s s' : mags_eqv s s' -> keep s s'.
Proof. intros H. by apply keep_depot, eqv_depot. Qed.
Lemma keep_cpus s s' : keep s s' -> length (cache_cpu s') = length (cache_cpu s).
Proof. intros (_ & _ & E). by rewrite <- (length_fmap cc_flags), E, length_fmap. Qed.
Lemma keep_index s s' i : keep s s' -> (i < length (cache_cpu s))%nat -> (i < length (cache_cpu s'))%nat.
Proof. intros H. by rewrite (keep_cpus _ _ H). Qed.

#[export] Hint Resolve keep_refl keep_depot keep_eqv keep_trans : umem.

Lemma cpu_lookup s i : (i < length (cache_cpu s))%nat -> cache_cpu s !! i = Some (cpu_of s i).
Proof. intros Hi. unfold cpu_of. by apply list_lookup_lookup_total_lt. Qed.
Lemma cpu_of_ok s i : mags_ok s -> (i < length (cache_cpu s))%nat -> cpu_ok (cache_magtype s) (cpu_of s i).
Proof. intros H Hi. eapply Forall_lookup_1; [apply (mo_cpu _ H)|by apply cpu_lookup]. Qed.
Lemma set_cpu_ok s i c : mags_ok s -> cpu_ok (cache_magtype s) c -> mags_ok (set_cpu i c s).
Proof. intros [] Hc. split; simpl; rewrite ?length_insert; try done. by apply Forall_insert. Qed.
Lemma set_cpu_keep s i c :
  (i < length (cache_cpu s))%nat -> cc_flags c = cc_flags (cpu_of s i) -> keep s (set_cpu i c s).
Proof.
  intros Hi E. repeat split; simpl. rewrite list_fmap_insert, E. apply list_insert_id.
  by rewrite list_lookup_fmap, cpu_lookup.
Qed.
Lemma cpu_of_set s i c : (i < length (cache_cpu s))%nat -> cpu_of (set_cpu i c s) i = c.
Proof. intros Hi. unfold cpu_of. simpl. by apply list_lookup_total_insert_eq. Qed.
Lemma cpu_of_depot s s' i : depot_only s s' -> cpu_of s' i = cpu_of s i.
Proof. intros (_ & E & _). unfold cpu_of. by rewrite E. Qed.

Lemma has_room_spec t c :
  (t < length umem_magtype)%nat -> cpu_ok t c ->
  has_room c = true <-> 0 <= cc_rounds c < cc_magsize c.
Proof.
  intros Ht Hc. unfold has_room. rewrite Z.ltb_lt. pose proof (magsize_pos t Ht) as Hp.
  pose proof (co_loaded _ _ Hc) as Hl. pose proof (co_size _ _ Hc) as Hsz.
  destruct (cc_loaded c); simpl in Hl.
  - destruct Hl as (_ & _ & ? & ?). rewrite Z.mod_small; lia.
  - rewrite Hl. change (-1 mod 2 ^ 32) with 4294967295. lia.
Qed.

(** ** Reload *)

Definition reloaded (c : umem_cpu_cache) (mp : umem_magazine) (rounds : Z) : umem_cpu_cache :=
  CpuCache rounds (cc_rounds c) (Some mp) (cc_loaded c) (cc_magsize c) (cc_flags c) (cc_alloc c) (cc_free c).

Lemma reload_run s i mp rounds :
  let c := cpu_of s i in
  mags_ok s -> (i < length (cache_cpu s))%nat -> 0 < cc_magsize c ->
  loaded_ok (cc_magsize c) (Some mp) rounds ->
  cc_loaded c = None \/ cc_rounds c + rounds = cc_magsize c ->
  cc_rounds c = -1 \/ cc_rounds c = 0 \/ cc_rounds c = cc_magsize c ->
  exists s', umem_cpu_reload s i (Some mp) rounds = Ok s' /\ mags_ok s' /\ keep s s' /\
    cpu_of s' i = reloaded c mp rounds /\
    exists Q, held s ≡ₚ held_mag (mc_cookie (mcfg s)) (cc_ploaded c) (cc_prounds c) ++ Q /\
              held s' ≡ₚ contents (mc_cookie (mcfg s)) mp rounds ++ Q.
Proof.
  intros c Hs Hi Hm Hmp Hsum Hr. pose proof (cpu_of_ok s i Hs Hi) as Hc.
  unfold umem_cpu_reload. fold c in Hc |- *.
  assert (Ha : reload_assert c rounds = true).
  { unfold reload_assert. rewrite (proj2 (Z.ltb_lt _ _)) by done. rewrite andb_true_r.
    pose proof (co_loaded _ _ Hc) as Hl. destruct (cc_loaded c); simpl in Hl.
    - destruct Hsum as [?|E]; [done|]. by apply Z.eqb_eq.
    - by rewrite Hl. }
  rewrite Ha. eexists. split; [done|]. fold (reloaded c mp rounds).
  destruct (held_cpu_at s i c (cpu_lookup s i Hi)) as (R & HR & HR').
  split; [|split; [|split]].
  - apply (eqv_ok (set_cpu i (reloaded c mp rounds) s)); [done|]. apply set_cpu_ok; [done|].
    split; simpl; [apply Hc|done|apply Hc|done|done].
  - apply set_cpu_keep; done.
  - by apply (cpu_of_set s i).
  - exists (held_mag (mc_cookie (mcfg s)) (cc_loaded c) (cc_rounds c) ++ R). split.
    + rewrite HR. unfold held_cpu. aac_reflexivity.
    + change (held (set_hint (-1) ?x)) with (held x). rewrite HR'. unfold held_cpu, reloaded. simpl. aac_reflexivity.
Qed.

Lemma loaded_mag_ok m mp r : loaded_ok m mp r -> match mp with Some mp => mag_ok mp | None => True end.
Proof. destruct mp; [by intros [? _]|done]. Qed.

Section loops.
Context {W : Type} {env : mag_env W} {ok : W -> list Z -> Prop} {laws : mag_source_laws W ok}.

Lemma push_some_run w s k mp A :
  mags_ok s -> match mp with Some mp => mag_ok mp | None => True end -> ok w A ->
  exists w' s', push_some w s k mp = (w', s') /\ mags_ok s' /\ depot_only s s' /\ ok w' A /\
    held s' ≡ₚ match mp with Some mp => load s k mp | None => [] end ++ held s.
Proof.
  intros Hs Hmp Hok. destruct mp as [mp|]; simpl in *; [|by exists w, s].
  destruct (depot_free_run w s k mp A Hs Hmp Hok) as (w' & s' & ? & ? & ? & ? & ? & ?). by exists w', s'.
Qed.

(** A depot magazine that is valid has the size of an enabled CPU. *)
Lemma valid_size s c mp :
  mag_ok mp -> magazine_valid s mp = true -> cpu_ok (cache_magtype s) c -> cc_magsize c <> 0 ->
  umem_mag_capacity mp = cc_magsize c /\ 0 < cc_magsize c.
Proof using Type.
  intros Hmp Hv Hc Hm. unfold magazine_valid in Hv. apply Nat.eqb_eq in Hv.
  rewrite capacity_magsize by done. destruct (co_size _ _ Hc) as [?|E]; [done|].
  rewrite Hv, E. split; [done|]. rewrite <- Hv. apply magsize_pos. apply Hmp.
Qed.

(** ** Refill *)

Definition refilled (s : mags) (i : nat) (again : bool) (s' : mags) : Prop :=
  again = true -> 0 < cc_rounds (cpu_of s' i).

Lemma swap_run w s i X rounds :
  let c := cpu_of s i in
  mags_ok s -> (i < length (cache_cpu s))%nat -> ok w (held s ++ X) ->
  cc_prounds c = rounds -> 0 <= rounds -> cc_rounds c + rounds = cc_magsize c ->
  exists s', umem_cpu_reload s i (cc_ploaded c) rounds = Ok s' /\ mags_ok s' /\ keep s s' /\
    cc_rounds (cpu_of s' i) = rounds /\ cc_magsize (cpu_of s' i) = cc_magsize c /\ ok w (held s' ++ X).
Proof.
  intros c Hs Hi Hok Hp H0 Hsum. pose proof (cpu_of_ok s i Hs Hi) as Hc. fold c in Hc.
  pose proof (co_ploaded _ _ Hc) as Hpl. pose proof (co_loaded _ _ Hc) as Hl.
  destruct (cc_ploaded c) as [mp|] eqn:Epl; simpl in Hpl; [|lia].
  assert (Hm : 0 < cc_magsize c) by apply Hpl.
  destruct (cc_loaded c) as [lp|] eqn:Elo; [|rewrite (co_first _ _ Hc Elo) in Epl; done].
  destruct (reload_run s i mp rounds) as (s' & E & H1 & H2 & H3 & Q & Q1 & Q2); fold c; try done.
  - rewrite <- Hp. done.
  - by right.
  - pose proof (co_full _ _ Hc). lia.
  - exists s'. rewrite H3. do 5 (split; [done|]).
    eapply ms_perm; [|exact Hok]. rewrite Q1, Q2. fold c. rewrite Epl, Hp. simpl. aac_reflexivity.
Qed.

Lemma refill_run w s i X :
  mags_ok s -> (i < length (cache_cpu s))%nat -> ok w (held s ++ X) -> cc_rounds (cpu_of s i) <= 0 ->
  exists w' s' again, cpu_refill w s i = Ok (w', s', again) /\ mags_ok s' /\ keep s s' /\
    ok w' (held s' ++ X) /\ refilled s i again s'.
Proof.
  intros Hs Hi Hok Hr. pose proof (cpu_of_ok s i Hs Hi) as Hc. unfold cpu_refill.
  set (c := cpu_of s i) in *.
  pose proof (co_loaded _ _ Hc) as Hl. pose proof (co_ploaded _ _ Hc) as Hpl. pose proof (co_full _ _ Hc) as Hfu.
  destruct (Z.ltb_spec 0 (cc_prounds c)) as [Hp|Hp].
  { assert (cc_rounds c = 0).
    { destruct (cc_loaded c) as [lp|] eqn:Elo; simpl in Hl; [lia|].
      rewrite (co_first _ _ Hc Elo) in Hpl. simpl in Hpl. lia. }
    destruct (swap_run w s i X (cc_prounds c)) as (s' & E & H1 & H2 & H3 & _ & H4); fold c; try done; [lia..|].
    fold c in E. rewrite E. simpl. eexists _, _, _. split; [done|]. repeat (split; [done|]).
    unfold refilled. lia. }
  destruct (Z.eqb_spec (cc_magsize c) 0) as [Hm|Hm]; [by eexists _, _, _|].
  destruct (depot_alloc_run w s MLFull X Hs Hok) as (w1 & s1 & got & -> & H1 & H2 & H3). cbn [res_bind].
  destruct got as [fmp|]; [|exists w1, s1, false; by pose proof (keep_depot _ _ H2)].
  destruct H3 as (Hmp & Hv & Hok1). destruct (valid_size s c fmp Hmp Hv Hc Hm) as [Ecap Hm0].
  destruct (push_some_run w1 s1 MLEmpty (cc_ploaded c) _ H1 (loaded_mag_ok _ _ _ Hpl) Hok1)
    as (w2 & s2 & E2 & P1 & P2 & P3 & P4).
  rewrite E2. pose proof (depot_only_trans _ _ _ H2 P2) as Hd. pose proof (cpu_of_depot _ _ i Hd) as Ec. fold c in Ec.
  destruct (reload_run s2 i fmp (cc_magsize c)) as (s' & E & K1 & K2 & K3 & Q & Q1 & Q2); rewrite ?Ec; try done.
  - by eapply keep_index; [apply keep_depot|].
  - simpl. rewrite Ecap. repeat split; lia || apply Hmp.
  - destruct (cc_loaded c); simpl in Hl; [right; lia|by left].
  - destruct (cc_loaded c); simpl in Hl; lia.
  - rewrite E. simpl. eexists _, _, _. do 2 (split; [done|]).
    split; [eapply keep_trans; [apply keep_depot; exact Hd|done]|]. split.
    + eapply ms_perm; [|exact P3]. assert (P5 : held s2 ≡ₚ held s1) by (by destruct (cc_ploaded c)).
      rewrite <- P5, Q1, Q2, Ec. unfold load. simpl.
      replace (mcfg s2) with (mcfg s) by (by destruct Hd). unfold full_of. rewrite Ecap.
      assert (Ep : held_mag (mc_cookie (mcfg s)) (cc_ploaded c) (cc_prounds c) = []).
      { destruct (cc_ploaded c); simpl; [|done]. apply contents_le0. lia. }
      rewrite Ep. simpl. aac_reflexivity.
    + intros _. rewrite K3. done.
Qed.

(** ** The loop of [_umem_cache_alloc] *)

Lemma take_run s i n :
  let c := cpu_of s i in
  mags_ok s -> (i < length (cache_cpu s))%nat -> 0 <= n <= cc_rounds c ->
  let s' := set_cpu i (cpu_took c n) s in
  mags_ok s' /\ keep s s' /\
  exists Q, held s ≡ₚ held_mag (mc_cookie (mcfg s)) (cc_loaded c) (cc_rounds c) ++ Q /\
            held s' ≡ₚ held_mag (mc_cookie (mcfg s)) (cc_loaded c) (cc_rounds c - n) ++ Q.
Proof using Type.
  intros c Hs Hi Hn s'. pose proof (cpu_of_ok s i Hs Hi) as Hc. fold c in Hc.
  split; [|split].
  - apply set_cpu_ok; [done|]. destruct Hc as [C1 C2 C3 C4 C5]. split; simpl; try done.
    destruct (cc_loaded c); simpl in *; [|lia]. destruct C2 as (?&?&?&?). repeat split; lia || done || apply H.
  - by apply set_cpu_keep.
  - destruct (held_cpu_at s i c (cpu_lookup s i Hi)) as (R & HR & HR').
    exists (held_mag (mc_cookie (mcfg s)) (cc_ploaded c) (cc_prounds c) ++ R). split.
    + rewrite HR. unfold held_cpu. aac_reflexivity.
    + unfold s'. rewrite HR'. unfold held_cpu. simpl. aac_reflexivity.
Qed.

Lemma loaded_some t c :
  cpu_ok t c -> 0 <= cc_rounds c ->
  exists mp, cc_loaded c = Some mp /\ mag_ok mp /\ cc_magsize c = Z.of_nat (length (mag_round mp)) /\
    cc_rounds c <= cc_magsize c.
Proof using Type.
  intros Hc Hr. pose proof (co_loaded _ _ Hc) as Hl. destruct (cc_loaded c) as [mp|]; simpl in Hl; [|lia].
  destruct Hl as (H1 & H2 & H3 & H4). exists mp. rewrite <- capacity_length by done. repeat split; try done; lia || apply H1.
Qed.

Lemma alloc_loop_hit fuel w s i X :
  mags_ok s -> (i < length (cache_cpu s))%nat -> ok w (held s ++ X) -> 0 < cc_rounds (cpu_of s i) ->
  exists s' b, cpu_alloc_loop (S fuel) w s i = Ok (w, s', Some b) /\ mags_ok s' /\ keep s s' /\
    ok w (held s' ++ b :: X).
Proof.
  intros Hs Hi Hok Hr. cbn [cpu_alloc_loop]. rewrite (proj2 (Z.ltb_lt _ _)) by done.
  destruct (loaded_some _ _ (cpu_of_ok s i Hs Hi)) as (mp & El & Hmp & Hsz & Hle); [lia|].
  destruct (take_run s i 1 Hs Hi) as (H1 & H2 & Q & Q1 & Q2); [lia|]. rewrite El in *.
  unfold round_load. rewrite (proj2 (Nat.ltb_lt _ _)) by lia. cbn [res_bind].
  eexists _, _. do 3 (split; [done|]). eapply ms_perm; [|exact Hok].
  rewrite Q1, Q2. simpl. set (r := cc_rounds (cpu_of s i)) in *.
  replace r with (r - 1 + 1) at 1 by lia. rewrite contents_snoc by lia.
  change (?b :: X) with ([b] ++ X). aac_reflexivity.
Qed.

Lemma alloc_loop_run w s i X :
  mags_ok s -> (i < length (cache_cpu s))%nat -> ok w (held s ++ X) ->
  exists w' s' got, cpu_alloc_loop 3 w s i = Ok (w', s', got) /\ mags_ok s' /\ keep s s' /\
    match got with None => ok w' (held s' ++ X) | Some b => ok w' (held s' ++ b :: X) end.
Proof.
  intros Hs Hi Hok. destruct (Z.ltb_spec 0 (cc_rounds (cpu_of s i))) as [Hr|Hr].
  { destruct (alloc_loop_hit 2 w s i X) as (s' & b & E & H1 & H2 & H3); try done. by eexists _, _, _. }
  cbn [cpu_alloc_loop]. rewrite (proj2 (Z.ltb_ge _ _)) by done.
  destruct (refill_run w s i X Hs Hi Hok Hr) as (w1 & s1 & again & -> & H1 & H2 & H3 & H4).
  cbn [res_bind]. destruct again; [|by eexists _, _, _].
  destruct (alloc_loop_hit 1 w1 s1 i X) as (s' & b & E & K1 & K2 & K3); try done;
    [by eapply keep_index|by apply H4|].
  eexists _, _, _. split; [exact E|]. split; [done|]. split; [frame|done].
Qed.

(** ** Making room *)

(** A new empty magazine waits where the next depot allocation looks first. *)
Definition staged (s : mags) (i : nat) : Prop :=
  cc_prounds (cpu_of s i) <> 0 /\ cc_magsize (cpu_of s i) <> 0 /\
  exists emp, first_in s MLEmpty emp /\ magazine_valid s emp = true.

Definition made_room (s : mags) (i : nat) (again : bool) (s' : mags) : Prop :=
  (again = true -> has_room (cpu_of s' i) = true \/ staged s' i) /\
  (staged s i -> again = true /\ has_room (cpu_of s' i) = true).

Lemma init_fast_ok t mp :
  (t < length umem_magtype)%nat -> mag_source mp = t -> Z.of_nat (length (mag_round mp)) = magsize_of t ->
  mag_ok (umem_mag_init_fast mp (magsize_of t)).
Proof using Type.
  intros Ht E El. pose proof (magsize_pos t Ht). split; simpl; [by rewrite E|].
  rewrite E, length_app, length_replicate, length_drop. lia.
Qed.

Lemma new_empty_run w s i X :
  mags_ok s -> (i < length (cache_cpu s))%nat -> ok w (held s ++ X) ->
  cc_magsize (cpu_of s i) <> 0 -> cc_prounds (cpu_of s i) <> 0 ->
  exists w' s' again, new_empty w s i = (w', s', again) /\ mags_ok s' /\ keep s s' /\
    ok w' (held s' ++ X) /\ (again = true -> staged s' i).
Proof.
  intros Hs Hi Hok Hm Hp. unfold new_empty. pose proof (mo_type _ Hs) as Ht.
  pose proof (ms_shell_alloc w _ _ Ht Hok) as Hok1.
  pose proof (ms_shell_new w (cache_magtype s)) as Hnew.
  destruct (env_shell_alloc w (cache_magtype s)) as [w1 [emp|]]; simpl in *; [|by eexists _, _, _].
  destruct (Hnew emp Ht eq_refl) as [Esrc Elen].
  pose proof (cpu_of_ok s i Hs Hi) as Hc. change (cpu_of (add_mag_total 1 s) i) with (cpu_of s i).
  destruct (co_size _ _ Hc) as [?|Esz]; [done|]. rewrite (proj2 (Z.eqb_eq _ _) Esz).
  set (e := umem_mag_init_fast emp _). assert (He : mag_ok e) by (by apply init_fast_ok).
  assert (Hs1 : mags_ok (add_mag_total 1 s)) by (by apply (eqv_ok s)).
  destruct (depot_free_run w1 (add_mag_total 1 s) MLEmpty e _ Hs1 He Hok1)
    as (w2 & s2 & -> & P1 & P2 & P3 & P4 & P5).
  eexists _, _, _. do 2 (split; [done|]).
  split; [eapply keep_trans; [|by apply keep_depot]; done|]. split.
  - eapply ms_perm; [|exact P3]. rewrite P4. done.
  - intros _. unfold staged. rewrite (cpu_of_depot _ _ i P2). do 2 (split; [done|]).
    exists e. split; [done|]. rewrite (valid_depot _ _ _ P2). unfold magazine_valid. simpl.
    rewrite Esrc. apply Nat.eqb_refl.
Qed.

(** No room: the loaded magazine is missing or full. *)
Lemma no_room t c :
  (t < length umem_magtype)%nat -> cpu_ok t c -> has_room c = false ->
  cc_rounds c = cc_magsize c \/ (cc_loaded c = None /\ cc_rounds c = -1).
Proof using Type.
  intros Ht Hc Hn. pose proof (has_room_spec t c Ht Hc) as Hs. rewrite Hn in Hs.
  pose proof (co_loaded _ _ Hc) as Hl. destruct (cc_loaded c); simpl in Hl; [|by right].
  left. destruct (decide (cc_rounds c = cc_magsize c)); [done|].
  enough (false = true) by done. apply Hs. lia.
Qed.

Lemma make_room_run w s i X :
  mags_ok s -> (i < length (cache_cpu s))%nat -> ok w (held s ++ X) -> has_room (cpu_of s i) = false ->
  exists w' s' again, cpu_make_room w s i = Ok (w', s', again) /\ mags_ok s' /\ keep s s' /\
    ok w' (held s' ++ X) /\ made_room s i again s'.
Proof.
  intros Hs Hi Hok Hr. pose proof (cpu_of_ok s i Hs Hi) as Hc. pose proof (mo_type _ Hs) as Ht.
  pose proof (no_room _ _ Ht Hc Hr) as Hfull. unfold cpu_make_room.
  set (c := cpu_of s i) in *.
  pose proof (co_loaded _ _ Hc) as Hl. pose proof (co_ploaded _ _ Hc) as Hpl. pose proof (co_full _ _ Hc) as Hfu.
  destruct (Z.eqb_spec (cc_prounds c) 0) as [Hp|Hp].
  { assert (cc_rounds c = cc_magsize c /\ 0 < cc_magsize c) as [? ?].
    { destruct (cc_ploaded c) eqn:Epl; simpl in Hpl; [|lia]. split; [|apply Hpl].
      destruct Hfull as [?|[El _]]; [done|]. rewrite (co_first _ _ Hc El) in Epl. done. }
    destruct (swap_run w s i X (cc_prounds c)) as (s' & E & H1 & H2 & H3 & H5 & H4); fold c; try done; [lia..|].
    fold c in E. rewrite E. simpl. eexists _, _, _. split; [done|]. repeat (split; [done|]).
    split; [|unfold staged; fold c; tauto]. intros _. left.
    apply (has_room_spec (cache_magtype s')); [apply H1|apply cpu_of_ok; [done|by eapply keep_index]|].
    rewrite H3, H5. fold c. lia. }
  destruct (Z.eqb_spec (cc_magsize c) 0) as [Hm|Hm].
  { eexists _, _, _. do 2 (split; [done|]). split; [frame|]. split; [done|].
    split; [done|]. unfold staged. fold c. tauto. }
  destruct (depot_alloc_run w s MLEmpty X Hs Hok) as (w1 & s1 & got & Ed & H1 & H2 & H3). rewrite Ed. cbn [res_bind].
  destruct got as [emp|].
  2:{ pose proof (cpu_of_depot _ _ i H2) as Ec. fold c in Ec.
      destruct (new_empty_run w1 s1 i X) as (w2 & s2 & again & -> & P1 & P2 & P3 & P4); rewrite ?Ec; try done.
      { by eapply keep_index; [apply keep_depot|]. }
      eexists _, _, _. do 2 (split; [done|]).
      split; [eapply keep_trans; [by apply keep_depot|done]|]. split; [done|].
      split; [by right; apply P4|]. intros (_ & _ & e & He & Hev).
      destruct (depot_alloc_first w s MLEmpty e He Hev) as (? & ? & Ed'). congruence. }
  destruct H3 as (Hmp & Hv & Hok1). destruct (valid_size s c emp Hmp Hv Hc Hm) as [Ecap Hm0].
  destruct (push_some_run w1 s1 MLFull (cc_ploaded c) _ H1 (loaded_mag_ok _ _ _ Hpl) Hok1)
    as (w2 & s2 & E2 & P1 & P2 & P3 & P4).
  rewrite E2. pose proof (depot_only_trans _ _ _ H2 P2) as Hd. pose proof (cpu_of_depot _ _ i Hd) as Ec. fold c in Ec.
  destruct (reload_run s2 i emp 0) as (s' & E & K1 & K2 & K3 & Q & Q1 & Q2); rewrite ?Ec; try done.
  - by eapply keep_index; [apply keep_depot|].
  - simpl. rewrite Ecap. repeat split; lia || apply Hmp.
  - destruct Hfull as [?|[? _]]; [right; lia|by left].
  - destruct Hfull as [?|[_ ?]]; lia.
  - rewrite E. simpl. eexists _, _, _. do 2 (split; [done|]).
    split; [eapply keep_trans; [apply keep_depot; exact Hd|done]|].
    assert (Hroom : has_room (cpu_of s' i) = true).
    { apply (has_room_spec (cache_magtype s')); [apply K1|apply cpu_of_ok; [done|]|rewrite K3, Ec; simpl; lia].
      eapply keep_index; [exact K2|]. by eapply keep_index; [apply keep_depot; exact Hd|]. }
    split; [|split; [by left|by intros _]].
    eapply ms_perm; [|exact P3]. rewrite Q1, Ec in P4. rewrite Q2.
    replace (mcfg s2) with (mcfg s) in * by (by destruct Hd).
    assert (Epl : match cc_ploaded c with Some mp => load s1 MLFull mp | None => [] end =
                  held_mag (mc_cookie (mcfg s)) (cc_ploaded c) (cc_prounds c)).
    { destruct (cc_ploaded c) as [pm|]; simpl; [|done]. rewrite (load_depot _ _ _ _ H2). unfold load, full_of.
      simpl. destruct Hpl as (? & Epc & ? & ?). rewrite Epc. f_equal. lia. }
    rewrite Epl in P4. apply Permutation_app_inv_l in P4. rewrite <- P4.
    unfold contents, load. simpl. done.
Qed.

(** ** The loop of [_umem_cache_free] *)

Lemma put_run s i mp n :
  let c := cpu_of s i in
  mags_ok s -> (i < length (cache_cpu s))%nat -> 0 <= cc_rounds c -> 0 <= n -> cc_rounds c + n <= cc_magsize c ->
  mag_ok mp -> umem_mag_capacity mp = cc_magsize c ->
  let s' := set_cpu i (cpu_put c mp n) s in
  mags_ok s' /\ keep s s' /\
  exists Q, held s ≡ₚ held_mag (mc_cookie (mcfg s)) (cc_loaded c) (cc_rounds c) ++ Q /\
            held s' ≡ₚ contents (mc_cookie (mcfg s)) mp (cc_rounds c + n) ++ Q.
Proof using Type.
  intros c Hs Hi H0 Hn Hle Hmp Hcap s'. pose proof (cpu_of_ok s i Hs Hi) as Hc. fold c in Hc.
  destruct (loaded_some _ _ Hc H0) as (lp & El & _ & Hsz & _).
  split; [|split].
  - apply set_cpu_ok; [done|]. destruct Hc as [C1 C2 C3 C4 C5]. split; simpl; try done.
    rewrite El in C2. destruct C2 as (?&?&?&?). repeat split; try lia; apply Hmp.
  - by apply set_cpu_keep.
  - destruct (held_cpu_at s i c (cpu_lookup s i Hi)) as (R & HR & HR').
    exists (held_mag (mc_cookie (mcfg s)) (cc_ploaded c) (cc_prounds c) ++ R). split.
    + rewrite HR. unfold held_cpu. aac_reflexivity.
    + unfold s'. rewrite HR'. unfold held_cpu. simpl. aac_reflexivity.
Qed.

Lemma free_loop_hit fuel w s i b X :
  mags_ok s -> (i < length (cache_cpu s))%nat -> ok w (held s ++ b :: X) -> has_room (cpu_of s i) = true ->
  exists s', cpu_free_loop (S fuel) w s i b = Ok (w, s', true) /\ mags_ok s' /\ keep s s' /\ ok w (held s' ++ X).
Proof.
  intros Hs Hi Hok Hr. cbn [cpu_free_loop]. rewrite Hr. pose proof (cpu_of_ok s i Hs Hi) as Hc.
  apply (has_room_spec _ _ (mo_type _ Hs) Hc) in Hr.
  destruct (loaded_some _ _ Hc) as (mp & El & Hmp & Hsz & Hle); [lia|]. rewrite El.
  unfold round_store. rewrite (proj2 (Nat.ltb_lt _ _)) by lia. cbn [res_bind].
  set (ck := mc_cookie (mcfg s)). set (r := cc_rounds (cpu_of s i)) in *.
  set (mp' := round_put ck mp (Z.to_nat r) b). assert (Hmp' : mag_ok mp') by (by apply mag_ok_put).
  destruct (put_run s i mp' 1 Hs Hi) as (H1 & H2 & Q & Q1 & Q2); [lia..|done| |].
  { rewrite capacity_length by done. unfold mp'. simpl. by rewrite length_insert. }
  eexists. do 3 (split; [done|]). eapply ms_perm; [|exact Hok].
  rewrite Q1, Q2. fold ck r. rewrite El. simpl. rewrite contents_snoc by lia.
  unfold mp' at 2. rewrite demangle_put by lia.
  rewrite (contents_ext ck mp mp' r) by (intros; apply demangle_put_ne; lia).
  change (b :: X) with ([b] ++ X). aac_reflexivity.
Qed.

Lemma free_loop_step fuel w s i b :
  has_room (cpu_of s i) = false ->
  cpu_free_loop (S fuel) w s i b =
  (do (w, s, again) <- cpu_make_room w s i;
   if again : bool then cpu_free_loop fuel w s i b else Ok (w, s, false)).
Proof using Type. intros Hr. cbn [cpu_free_loop]. by rewrite Hr. Qed.

Lemma free_loop_run w s i b X :
  mags_ok s -> (i < length (cache_cpu s))%nat -> ok w (held s ++ b :: X) ->
  exists w' s' stored, cpu_free_loop 4 w s i b = Ok (w', s', stored) /\ mags_ok s' /\ keep s s' /\
    ok w' (held s' ++ if stored : bool then X else b :: X).
Proof.
  intros Hs Hi Hok. destruct (has_room (cpu_of s i)) eqn:Hr.
  { destruct (free_loop_hit 3 w s i b X) as (s' & E & H1 & H2 & H3); try done. by eexists _, _, _. }
  rewrite free_loop_step by done.
  destruct (make_room_run w s i (b :: X) Hs Hi Hok Hr) as (w1 & s1 & again & -> & H1 & H2 & H3 & H4 & _).
  cbn [res_bind]. destruct again; [|by eexists _, _, _]. pose proof (keep_index _ _ _ H2 Hi) as Hi1.
  destruct (has_room (cpu_of s1 i)) eqn:Hr1.
  { destruct (free_loop_hit 2 w1 s1 i b X) as (s' & E & K1 & K2 & K3); try done.
    eexists _, _, _. split; [exact E|]. split; [done|]. split; [frame|done]. }
  destruct (H4 eq_refl) as [?|Hst]; [congruence|]. rewrite free_loop_step by done.
  destruct (make_room_run w1 s1 i (b :: X) H1 Hi1 H3 Hr1) as (w2 & s2 & again & -> & K1 & K2 & K3 & _ & K4).
  destruct (K4 Hst) as [-> Hr2]. cbn [res_bind].
  destruct (free_loop_hit 1 w2 s2 i b X) as (s' & E & J1 & J2 & J3); try done; [by eapply keep_index|].
  eexists _, _, _. split; [exact E|]. split; [done|]. split; [by eapply keep_trans; [|eapply keep_trans]|done].
Qed.
End loops.
