(* ===== verification/MagRefine.v ===== *)
(** * The magazine layer: conservation of objects

    The invariant [magazines w s out]: the objects the slab layer has handed to
    the cache are exactly those in its magazines and those its clients hold,
    [out].  Allocation moves one object from the magazines (or the slab layer)
    to the clients, free moves it back, and the batch forms do the same for
    many. *)
From S2P Require Import Prelude Machine SlabModel AllocSizes MagModel MagOps MagInv MagSpec MagLoops.
From AAC_tactics Require Import AAC.
From AAC_tactics Require Instances.
Import Instances.Lists.

(** A cache without buftags: the debugging paths are the subject of
    [DebugProps]. *)
Definition untagged (s : mags) : Prop :=
  has (mc_flags (mcfg s)) UMF_BUFTAG = false /\
  Forall (fun fl => has fl UMF_BUFTAG = false) (cc_flags <$> cache_cpu s).
Lemma untagged_keep s s' : keep s s' -> untagged s -> untagged s'.
Proof. intros (E1 & _ & E2) [??]. split; by rewrite ?E1, ?E2. Qed.
Lemma untagged_cpu s i : untagged s -> (i < length (cache_cpu s))%nat -> has (cc_flags (cpu_of s i)) UMF_BUFTAG = false.
Proof.
  intros [_ H] Hi. rewrite Forall_lookup in H. apply (H i). by rewrite list_lookup_fmap, cpu_lookup.
Qed.

Section refine.
Context {W : Type} {env : mag_env W} (ok : W -> list Z -> Prop) {laws : mag_source_laws W ok}.

Definition magazines (w : W) (s : mags) (out : list Z) : Prop :=
  mags_ok s /\ untagged s /\ ok w (held s ++ out).

Lemma magazines_keep w s w' s' out out' :
  magazines w s out -> mags_ok s' -> keep s s' -> ok w' (held s' ++ out') -> magazines w' s' out'.
Proof using Type. intros (H1 & H2 & H3) ???. split; [done|]. split; [by eapply untagged_keep|done]. Qed.

Lemma magazines_out w s out1 out2 : out1 ≡ₚ out2 -> magazines w s out1 -> magazines w s out2.
Proof. intros E (H1 & H2 & H3). do 2 (split; [done|]). eapply ms_perm; [|done]. by rewrite E. Qed.

Lemma magazines_fresh w s b out : magazines w s (b :: out) -> (b ∉ out) /\ (b ∉ held s) /\ b <> 0.
Proof.
  intros (_ & _ & H). pose proof (ms_nodup _ _ H) as Hn. pose proof (ms_nonzero _ _ H) as Hz.
  apply NoDup_app in Hn as (_ & Hd & Hc). apply NoDup_cons in Hc as [Hb _]. split; [done|]. split.
  - intros Hin. apply (Hd b); [done|left].
  - intros ->. apply Hz, elem_of_app. right. left.
Qed.

Lemma magazines_w w w' s out : magazines w s out -> (forall A, ok w A -> ok w' A) -> magazines w' s out.
Proof using Type. intros (H1 & H2 & H3) Hw. do 2 (split; [done|]). by apply Hw. Qed.

Lemma magazines_cpu w s out :
  magazines w s out ->
  exists w' s' i, CPU_CACHED w s = (w', s', i) /\ magazines w' s' out /\ keep s s' /\ (i < length (cache_cpu s'))%nat.
Proof.
  intros Hm. pose proof Hm as (H1 & H2 & H3). unfold CPU_CACHED.
  destruct (hint_run w s _ H3) as (w1 & s1 & h & -> & Hok1 & Hq & _ & _).
  eexists _, _, _. split; [done|]. pose proof (eqv_ok _ _ Hq H1) as Hs1.
  split; [|split; [frame|]].
  - eapply magazines_keep; [exact Hm|done|frame|]. by rewrite (eqv_held _ _ Hq).
  - pose proof (land_mask h (mc_cpu_mask (mcfg s1)) (mo_mask _ Hs1)). pose proof (mo_cpus _ Hs1). lia.
Qed.

Lemma hooked_run c w s buf out :
  magazines w s out -> exists w', hooked_return c w s buf = Ok (w', s, buf) /\ magazines w' s out.
Proof.
  intros Hm. unfold hooked_return, umem_hook_alloc. destruct (has _ _); eexists; (split; [done|]); [|done].
  eapply magazines_w; [done|]. intros. by apply ms_hook_alloc.
Qed.

(** ** Allocation *)

(** What a call gave: an object that was nowhere else, or NULL, or the end of
    the process when the request may not fail. *)
Definition alloc_outcome (fuel : nat) (umflag : Z) (s : mags) (out : list Z) (r : result (W * mags * Z)) : Prop :=
  match r with
  | Ok (w', s', b) =>
      keep s s' /\
      ((b = 0 /\ has umflag UMEM_NOFAIL = false /\ magazines w' s' out) \/ (b <> 0 /\ magazines w' s' (b :: out)))
  | Panic _ => fuel = 0%nat \/ has umflag UMEM_NOFAIL = true
  end.

Lemma outcome_keep fuel umflag s s1 out r :
  keep s s1 -> alloc_outcome fuel umflag s1 out r -> alloc_outcome fuel umflag s out r.
Proof using Type.
  intros Hk. destruct r as [[[w' s'] b]|]; simpl; [|done]. intros [??]. split; [frame|done].
Qed.

Lemma outcome_hooked fuel umflag c w s buf out :
  magazines w s (buf :: out) -> alloc_outcome fuel umflag s out (hooked_return c w s buf).
Proof.
  intros Hm. destruct (hooked_run c w s buf _ Hm) as (w' & -> & Hm'). split; [frame|].
  right. split; [|done]. by destruct (magazines_fresh _ _ _ _ Hm') as (_ & _ & ?).
Qed.

Lemma alloc_cases fuel umf w s umflag out :
  mc_null (mcfg s) = false -> has umf UMF_CHECKNULL = false -> magazines w s out ->
  alloc_outcome fuel umflag s out (_umem_cache_alloc fuel umf w s umflag).
Proof.
  intros Hnull Hchk. revert w s Hnull. induction fuel as [|fuel IH]; intros w s Hnull Hm; [by left|].
  cbn [_umem_cache_alloc].
  match goal with |- context [alloc_pass ?r] => set (retry := r) end.
  assert (Hretry : forall w1 s1, keep s s1 -> magazines w1 s1 out ->
    alloc_outcome (S fuel) umflag s out (retry w1 s1)).
  { intros w1 s1 Hk Hm1. assert (Hnull1 : mc_null (mcfg s1) = false) by (destruct Hk as (-> & _); done).
    unfold retry, umem_alloc_retry. rewrite Hnull1, Hchk. cbn [res_bind].
    destruct (has umflag UMEM_NOFAIL) eqn:Hnf; cbn [res_bind].
    - assert (Hmn : magazines (env_nofail w1).1 s1 out).
      { eapply magazines_w; [done|]. intros. by apply ms_nofail. }
      destruct (env_nofail w1) as [w2 cb]. simpl in Hmn. destruct (_ =? _); [|by right]. cbn [res_bind].
      specialize (IH w2 s1 Hnull1 Hmn). eapply outcome_keep; [exact Hk|].
      destruct (_umem_cache_alloc fuel umf w2 s1 umflag) as [[[w3 s3] b]|]; [done|]. by right.
    - split; [done|]. by left. }
  clearbody retry. clear IH. unfold alloc_pass.
  destruct (magazines_cpu w s out Hm) as (w1 & s1 & i & -> & Hm1 & Hk1 & Hi).
  pose proof Hm1 as (Hs1 & Hu1 & Hok1).
  destruct (alloc_loop_run w1 s1 i out Hs1 Hi Hok1) as (w2 & s2 & got & -> & Hs2 & Hk2 & Hok2). cbn [res_bind].
  pose proof (keep_trans _ _ _ Hk1 Hk2) as Hk. pose proof (untagged_keep _ _ Hk2 Hu1) as Hu2.
  destruct got as [buf|].
  - rewrite (untagged_cpu s2 i Hu2) by (by eapply keep_index; [exact Hk2|]).
    eapply outcome_keep; [exact Hk|]. apply outcome_hooked. done.
  - destruct (ms_take w2 _ umflag Hok2) as (w3 & buf & -> & Hb). cbn [res_bind].
    replace (mc_null (mcfg s2)) with false by (destruct Hk as (-> & _); done).
    rewrite (proj1 Hu2). destruct Hb as [[-> Hok3]|[Hb Hok3]].
    + simpl. by apply Hretry.
    + rewrite (proj2 (Z.eqb_neq _ _)) by done.
      assert (Hm3 : magazines w3 s2 (buf :: out)).
      { do 2 (split; [done|]). eapply ms_perm; [|exact Hok3]. by rewrite Permutation_middle. }
      assert (Hm4 : magazines (if mc_ctor (mcfg s2) then env_construct w3 buf else (w3, false)).1 s2 (buf :: out)).
      { destruct (mc_ctor _); [|done]. eapply magazines_w; [done|]. intros. by apply ms_construct. }
      destruct (if mc_ctor (mcfg s2) then _ else _) as [w4 [|]]; simpl in Hm4.
      * destruct Hm4 as (_ & _ & Hok4). rewrite <- Permutation_middle in Hok4.
        apply ms_give in Hok4 as (w5 & -> & Hok5). cbn [res_bind]. apply Hretry; [done|].
        eapply (magazines_keep w3 s2); [done|by apply (eqv_ok s2)|done|done].
      * eapply outcome_keep; [exact Hk|]. by apply outcome_hooked.
Qed.

(** ** Free *)

Lemma destruct_give_run w s b X :
  ok w (b :: X) -> exists w', destruct_give w s b = Ok w' /\ ok w' X.
Proof.
  intros H. unfold destruct_give. apply ms_give. destruct (_ && _); [by apply ms_destruct|done].
Qed.

Lemma free_run w s b out :
  magazines w s (b :: out) ->
  exists w' s', _umem_cache_free w s b = Ok (w', s') /\ magazines w' s' out /\ keep s s'.
Proof.
  intros Hm. unfold _umem_cache_free.
  destruct (magazines_cpu w s _ Hm) as (w1 & s1 & i & -> & Hm1 & Hk1 & Hi).
  destruct (magazines_fresh _ _ _ _ Hm1) as (_ & _ & Hb). rewrite (proj2 (Z.eqb_neq _ _)) by done.
  rewrite untagged_cpu by (done || apply Hm1). cbn [res_bind negb].
  set (w2 := if has _ _ then _ else _).
  assert (Hm2 : magazines w2 s1 (b :: out)).
  { eapply magazines_w; [exact Hm1|]. intros A HA. unfold w2. destruct (has _ _); [by apply ms_hook_free|done]. }
  clearbody w2. pose proof Hm2 as (Hs2 & Hu2 & Hok2).
  destruct (free_loop_run w2 s1 i b out Hs2 Hi Hok2) as (w3 & s3 & stored & -> & Hs3 & Hk3 & Hok3).
  cbn [res_bind]. pose proof (keep_trans _ _ _ Hk1 Hk3) as Hk. destruct stored.
  - eexists _, _. split; [done|]. split; [|done]. by eapply magazines_keep.
  - rewrite <- Permutation_middle in Hok3. destruct (destruct_give_run w3 s3 b _ Hok3) as (w4 & -> & Hok4).
    cbn [res_bind]. eexists _, _. split; [done|]. split; [|done]. by eapply magazines_keep.
Qed.
End refine.
