(* ===== verification/MagBatch.v ===== *)
(** * The magazine layer: batches and per-thread magazines

    The batch forms of allocation and free move whole runs of rounds under one
    lock; a magazine handed back by a per-thread cache is drained unless it is
    exactly full, and its shell goes to the depot or to the cache it came
    from.  Both conserve objects. *)
From S2P Require Import Prelude Machine SlabModel AllocSizes MagModel MagOps MagInv MagSpec MagLoops MagRefine.
From AAC_tactics Require Import AAC.
From AAC_tactics Require Instances.
Import Instances.Lists.

(** ** Runs of rounds *)

Lemma take_rounds_run ck mp n r :
  (n <= r <= length (mag_round mp))%nat ->
  exists bufs, take_rounds ck mp n r = Ok bufs /\ length bufs = n /\
    contents ck mp (Z.of_nat r) ≡ₚ bufs ++ contents ck mp (Z.of_nat r - Z.of_nat n).
Proof.
  revert r. induction n as [|n IH]; intros r Hr; cbn [take_rounds].
  - exists []. do 2 (split; [done|]). by rewrite Z.sub_0_r.
  - unfold round_load. rewrite (proj2 (Nat.ltb_lt _ _)) by lia. cbn [res_bind].
    destruct (IH (r - 1)%nat) as (bufs & -> & El & Hp); [lia|]. cbn [res_bind].
    eexists. split; [done|]. split; [simpl; lia|].
    replace (Z.of_nat r) with (Z.of_nat (r - 1) + 1) at 1 by lia. rewrite contents_snoc by lia.
    rewrite Hp. replace (Z.of_nat r - Z.of_nat (S n)) with (Z.of_nat (r - 1) - Z.of_nat n) by lia.
    rewrite Nat2Z.id. change (?b :: bufs) with ([b] ++ bufs). aac_reflexivity.
Qed.

Lemma put_rounds_run ck mp r bufs :
  mag_ok mp -> (r + length bufs <= length (mag_round mp))%nat ->
  exists mp', put_rounds ck mp r bufs = Ok mp' /\ mag_ok mp' /\ mag_source mp' = mag_source mp /\
    contents ck mp' (Z.of_nat r + Z.of_nat (length bufs)) ≡ₚ contents ck mp (Z.of_nat r) ++ bufs.
Proof.
  revert mp r. induction bufs as [|b bufs IH]; intros mp r Hmp Hr; cbn [put_rounds].
  - exists mp. do 3 (split; [done|]). simpl. by rewrite Z.add_0_r, app_nil_r.
  - unfold round_store. simpl in Hr. rewrite (proj2 (Nat.ltb_lt _ _)) by lia. cbn [res_bind].
    destruct (IH (round_put ck mp r b) (S r)) as (mp' & -> & Hmp' & Es & Hp).
    { by apply mag_ok_put. } { simpl. rewrite length_insert. lia. }
    exists mp'. do 3 (split; [done|]).
    replace (Z.of_nat r + Z.of_nat (length (b :: bufs))) with (Z.of_nat (S r) + Z.of_nat (length bufs)) by (simpl; lia).
    rewrite Hp. replace (Z.of_nat (S r)) with (Z.of_nat r + 1) by lia. rewrite contents_snoc, Nat2Z.id by lia.
    rewrite demangle_put by lia.
    rewrite (contents_ext ck mp (round_put ck mp r b)) by (intros; apply demangle_put_ne; lia).
    change (b :: bufs) with ([b] ++ bufs). aac_reflexivity.
Qed.

Section batch.
Context {W : Type} {env : mag_env W} {ok : W -> list Z -> Prop} {laws : mag_source_laws W ok}.

(** ** Batch allocation *)

(** At most [want] objects, each now outside the magazines. *)
Definition batch_got (X : list Z) (s : mags) (want : Z) (r : result (W * mags * list Z)) : Prop :=
  exists w' s' bufs, r = Ok (w', s', bufs) /\ mags_ok s' /\ keep s s' /\
    Z.of_nat (length bufs) <= Z.max 0 want /\ ok w' (held s' ++ bufs ++ X).

Lemma batch_take_step fuel w s i want X :
  mags_ok s -> (i < length (cache_cpu s))%nat -> ok w (held s ++ X) -> 0 < cc_rounds (cpu_of s i) -> 0 < want ->
  (forall s1 want1 X1, mags_ok s1 -> (i < length (cache_cpu s1))%nat -> ok w (held s1 ++ X1) ->
     0 <= want1 < want -> batch_got X1 s1 want1 (batch_alloc_loop fuel w s1 i want1)) ->
  batch_got X s want (batch_alloc_loop (S fuel) w s i want).
Proof.
  intros Hs Hi Hok Hr Hw IH. cbn [batch_alloc_loop]. rewrite (proj2 (Z.leb_gt _ _)) by done.
  rewrite (proj2 (Z.ltb_lt _ _)) by done.
  destruct (loaded_some _ _ (cpu_of_ok s i Hs Hi)) as (mp & El & Hmp & Hsz & Hle); [lia|]. rewrite El.
  set (c := cpu_of s i) in *. set (avail := Z.min (cc_rounds c) want).
  destruct (take_run s i avail Hs Hi) as (H1 & H2 & Q & Q1 & Q2); [fold c; lia|].
  fold c in H1, H2, Q1, Q2. rewrite El in Q1, Q2.
  destruct (take_rounds_run (mc_cookie (mcfg s)) mp (Z.to_nat avail) (Z.to_nat (cc_rounds c)))
    as (bufs & -> & Elen & Hp); [lia|]. cbn [res_bind].
  rewrite !Z2Nat.id in Hp by lia. simpl in Q1, Q2.
  destruct (IH (set_cpu i (cpu_took c avail) s) (want - avail) (bufs ++ X))
    as (w' & s' & more & -> & K1 & K2 & K3 & K4).
  - done.
  - by eapply keep_index.
  - eapply ms_perm; [|exact Hok]. rewrite Q1, Q2, Hp. aac_reflexivity.
  - lia.
  - cbn [res_bind]. eexists _, _, _. do 2 (split; [done|]). split; [frame|].
    split; [rewrite length_app; lia|]. eapply ms_perm; [|exact K4]. aac_reflexivity.
Qed.

Lemma batch_alloc_loop_run fuel w s i want X :
  mags_ok s -> (i < length (cache_cpu s))%nat -> ok w (held s ++ X) -> 0 <= want ->
  (2 * Z.to_nat want + 1 <= fuel)%nat ->
  batch_got X s want (batch_alloc_loop fuel w s i want).
Proof.
  revert w s want X. induction fuel as [fuel IH] using lt_wf_ind. intros w s want X Hs Hi Hok Hw Hf.
  destruct fuel as [|fuel]; [lia|].
  destruct (Z.leb_spec want 0) as [?|Hw1].
  { cbn [batch_alloc_loop]. rewrite (proj2 (Z.leb_le _ _)) by done.
    exists w, s, []. do 2 (split; [done|]). split; [frame|]. split; [simpl; lia|done]. }
  destruct (Z.ltb_spec 0 (cc_rounds (cpu_of s i))) as [Hr|Hr].
  { apply batch_take_step; try done. intros. apply IH; try done; lia. }
  cbn [batch_alloc_loop]. rewrite (proj2 (Z.leb_gt _ _)), (proj2 (Z.ltb_ge _ _)) by done.
  destruct (refill_run w s i X Hs Hi Hok Hr) as (w1 & s1 & again & -> & H1 & H2 & H3 & H4). cbn [res_bind].
  destruct again; [|exists w1, s1, []; split; [done|]; split; [done|]; split; [done|]; split; [simpl; lia|done]].
  destruct fuel as [|fuel]; [lia|].
  destruct (batch_take_step fuel w1 s1 i want X) as (w' & s' & bufs & E & K1 & K2 & K3 & K4); try done.
  - by eapply keep_index.
  - by apply H4.
  - intros. apply IH; try done; lia.
  - exists w', s', bufs. split; [exact E|]. split; [done|]. split; [frame|done].
Qed.

Lemma batch_slab_loop_run n w s umflag X :
  mags_ok s -> ok w (held s ++ X) -> batch_got X s (Z.of_nat n) (batch_slab_loop n w s umflag).
Proof.
  revert w s X. induction n as [|n IH]; intros w s X Hs Hok; cbn [batch_slab_loop].
  { exists w, s, []. do 2 (split; [done|]). split; [frame|]. split; [simpl; lia|done]. }
  destruct (ms_take w _ umflag Hok) as (w1 & b & -> & Hb). cbn [res_bind].
  destruct Hb as [[-> Hok1]|[Hb Hok1]]; simpl.
  { exists w1, s, []. do 2 (split; [done|]). split; [frame|]. split; [simpl; lia|done]. }
  rewrite (proj2 (Z.eqb_neq _ _)) by done.
  assert (Hok2 : ok (if mc_ctor (mcfg s) then env_construct w1 b else (w1, false)).1 (b :: held s ++ X)).
  { destruct (mc_ctor _); [by apply ms_construct|done]. }
  destruct (if mc_ctor (mcfg s) then _ else _) as [w2 [|]]; simpl in Hok2.
  - apply ms_give in Hok2 as (w3 & -> & Hok3). cbn [res_bind].
    exists w3, (count_fail s), []. split; [done|]. split; [by apply (eqv_ok s)|]. split; [done|]. split; [simpl; lia|done].
  - destruct (IH w2 s (b :: X) Hs) as (w' & s' & bufs & -> & K1 & K2 & K3 & K4).
    { by rewrite <- Permutation_middle. }
    cbn [res_bind]. exists w', s', (b :: bufs). do 3 (split; [done|]).
    split; [simpl; lia|]. eapply ms_perm; [|exact K4]. simpl. by rewrite (Permutation_middle bufs).
Qed.

Lemma hooks_ok (f : W -> Z -> W) bufs w A :
  (forall w b A, ok w A -> ok (f w b) A) -> ok w A -> ok (foldl f w bufs) A.
Proof using Type. intros Hf. revert w. induction bufs as [|b bufs IH]; intros w Hok; simpl; [done|]. by apply IH, Hf. Qed.

Lemma alloc_batch_run w s count umflag out :
  magazines ok w s out ->
  exists w' s' bufs, umem_cache_alloc_batch w s count umflag = Ok (w', s', bufs) /\
    Z.of_nat (length bufs) <= Z.max 0 count /\ magazines ok w' s' (bufs ++ out).
Proof.
  intros Hm. unfold umem_cache_alloc_batch. destruct (Z.leb_spec count 0) as [Hc|Hc].
  { exists w, s, []. split; [done|]. split; [simpl; lia|done]. }
  destruct (magazines_cpu ok w s out Hm) as (w1 & s1 & i & -> & Hm1 & Hk1 & Hi).
  pose proof Hm1 as (Hs1 & Hu1 & Hok1).
  destruct (batch_alloc_loop_run (S (3 * Z.to_nat count)) w1 s1 i count out Hs1 Hi Hok1)
    as (w2 & s2 & bufs & -> & H1 & H2 & H3 & H4); [lia..|]. cbn [res_bind].
  destruct (batch_slab_loop_run (Z.to_nat count - length bufs) w2 s2 umflag (bufs ++ out) H1 H4)
    as (w3 & s3 & more & -> & K1 & K2 & K3 & K4). cbn [res_bind].
  eexists _, _, _. split; [done|]. split; [rewrite length_app; lia|].
  eapply magazines_keep; [exact Hm1|done|frame|].
  assert (Hok3 : ok w3 (held s3 ++ (bufs ++ more) ++ out)).
  { eapply ms_perm; [|exact K4]. aac_reflexivity. }
  destruct (has _ _); [|done]. apply hooks_ok; [|done]. intros. by apply ms_hook_alloc.
Qed.

(** ** Batch free *)

(** What is left of [bufs] is still outside the magazines. *)
Definition batch_freed (X : list Z) (s : mags) (r : result (W * mags * list Z)) : Prop :=
  exists w' s' rest, r = Ok (w', s', rest) /\ mags_ok s' /\ keep s s' /\ ok w' (held s' ++ rest ++ X).

Lemma batch_put_step fuel w s i bufs X :
  mags_ok s -> (i < length (cache_cpu s))%nat -> ok w (held s ++ bufs ++ X) ->
  has_room (cpu_of s i) = true -> bufs <> [] ->
  (forall s1 bufs1, mags_ok s1 -> (i < length (cache_cpu s1))%nat -> ok w (held s1 ++ bufs1 ++ X) ->
     (length bufs1 < length bufs)%nat -> batch_freed X s1 (batch_free_loop fuel w s1 i bufs1)) ->
  batch_freed X s (batch_free_loop (S fuel) w s i bufs).
Proof.
  intros Hs Hi Hok Hr Hb IH. cbn [batch_free_loop].
  assert (Hl : (0 < length bufs)%nat) by (destruct bufs; simpl; [done|lia]).
  rewrite (proj2 (Nat.eqb_neq _ _)) by lia. rewrite Hr. pose proof (cpu_of_ok s i Hs Hi) as Hc.
  apply (has_room_spec _ _ (mo_type _ Hs) Hc) in Hr.
  destruct (loaded_some _ _ Hc) as (mp & El & Hmp & Hsz & Hle); [lia|]. rewrite El.
  set (c := cpu_of s i) in *. set (space := Z.min _ _). set (now := take (Z.to_nat space) bufs).
  assert (Hnow : Z.of_nat (length now) = space) by (unfold now; rewrite length_take; lia).
  destruct (put_rounds_run (mc_cookie (mcfg s)) mp (Z.to_nat (cc_rounds c)) now) as (mp' & -> & Hmp' & Es & Hp).
  { done. } { lia. }
  cbn [res_bind]. rewrite Z2Nat.id in Hp by lia. rewrite Hnow in Hp.
  destruct (put_run s i mp' space Hs Hi) as (H1 & H2 & Q & Q1 & Q2); fold c; [lia..|done| |fold c in H1, H2, Q1, Q2].
  { rewrite (capacity_magsize mp'), Es, <- (capacity_magsize mp), capacity_length by done. done. }
  rewrite El in Q1. simpl in Q1.
  destruct (IH (set_cpu i (cpu_put c mp' space) s) (drop (Z.to_nat space) bufs)) as (w' & s' & rest & -> & K1 & K2 & K3).
  - done.
  - by eapply keep_index.
  - eapply ms_perm; [|exact Hok]. rewrite Q1, Q2, Hp.
    rewrite <- (take_drop (Z.to_nat space) bufs) at 1. fold now. aac_reflexivity.
  - rewrite length_drop. lia.
  - eexists _, _, _. do 2 (split; [done|]). split; [frame|done].
Qed.

Lemma batch_free_step fuel w s i bufs :
  has_room (cpu_of s i) = false -> bufs <> [] ->
  batch_free_loop (S fuel) w s i bufs =
  (do (w, s, again) <- cpu_make_room w s i;
   if again : bool then batch_free_loop fuel w s i bufs else Ok (w, s, bufs)).
Proof using Type. intros Hr Hb. cbn [batch_free_loop]. destruct bufs; [done|]. by rewrite Hr. Qed.

Lemma batch_free_loop_run fuel w s i bufs X :
  mags_ok s -> (i < length (cache_cpu s))%nat -> ok w (held s ++ bufs ++ X) ->
  (3 * length bufs + 1 <= fuel)%nat -> batch_freed X s (batch_free_loop fuel w s i bufs).
Proof.
  revert w s bufs. induction fuel as [fuel IH] using lt_wf_ind. intros w s bufs Hs Hi Hok Hf.
  destruct fuel as [|fuel]; [lia|].
  destruct (decide (bufs = [])) as [->|Hb]; [by exists w, s, []|].
  assert (Hl : (0 < length bufs)%nat) by (destruct bufs; simpl; [done|lia]).
  assert (Hstep : forall f w1 s1, (f <= fuel)%nat -> (3 * length bufs - 1 <= S f)%nat -> keep s s1 -> mags_ok s1 ->
    ok w1 (held s1 ++ bufs ++ X) -> has_room (cpu_of s1 i) = true ->
    batch_freed X s (batch_free_loop (S f) w1 s1 i bufs)).
  { intros f w1 s1 Hf1 Hf2 Hk1 Hs1 Hok1 Hr1.
    destruct (batch_put_step f w1 s1 i bufs X) as (w' & s' & rest & E & K1 & K2 & K3); try done.
    - by eapply keep_index.
    - intros. apply IH; try done; lia.
    - exists w', s', rest. split; [exact E|]. split; [done|]. split; [frame|done]. }
  destruct (has_room (cpu_of s i)) eqn:Hr; [apply Hstep; try done; lia|].
  rewrite batch_free_step by done.
  destruct (make_room_run w s i (bufs ++ X) Hs Hi Hok Hr) as (w1 & s1 & again & -> & H1 & H2 & H3 & H4 & _).
  cbn [res_bind]. destruct again; [|by exists w1, s1, bufs].
  destruct fuel as [|fuel]; [lia|]. pose proof (keep_index _ _ _ H2 Hi) as Hi1.
  destruct (has_room (cpu_of s1 i)) eqn:Hr1; [apply Hstep; try done; lia|].
  destruct (H4 eq_refl) as [?|Hst]; [congruence|]. rewrite batch_free_step by done.
  destruct (make_room_run w1 s1 i (bufs ++ X) H1 Hi1 H3 Hr1) as (w2 & s2 & again & -> & K1 & K2 & K3 & _ & K4).
  destruct (K4 Hst) as [-> Hr2]. cbn [res_bind]. destruct fuel as [|fuel]; [lia|].
  apply Hstep; try done; [lia..|]. by eapply keep_trans.
Qed.

Lemma batch_give_run w s bufs X :
  ok w (bufs ++ X) -> exists w', batch_give_loop w s bufs = Ok w' /\ ok w' X.
Proof.
  revert w. induction bufs as [|b bufs IH]; intros w Hok; cbn [batch_give_loop]; [by exists w|].
  set (w1 := if mc_dtor (mcfg s) then _ else _).
  assert (Hok1 : ok w1 (b :: bufs ++ X)) by (unfold w1; destruct (mc_dtor _); [by apply ms_destruct|done]).
  apply ms_give in Hok1 as (w2 & -> & Hok2). cbn [res_bind]. by apply IH.
Qed.

Lemma free_batch_run w s bufs out :
  magazines ok w s (bufs ++ out) ->
  exists w' s', umem_cache_free_batch w s bufs = Ok (w', s', Z.of_nat (length bufs)) /\ magazines ok w' s' out /\ keep s s'.
Proof.
  intros Hm. unfold umem_cache_free_batch. destruct (Nat.eqb_spec (length bufs) 0) as [Hl|Hl].
  { destruct bufs; [|done]. exists w, s. by split_and!. }
  destruct (magazines_cpu ok w s _ Hm) as (w1 & s1 & i & -> & Hm1 & Hk1 & Hi). pose proof Hm1 as (Hs1 & Hu1 & Hok1).
  set (w2 := if has _ _ then _ else _).
  assert (Hok2 : ok w2 (held s1 ++ bufs ++ out)).
  { unfold w2. destruct (has _ _); [|done]. apply hooks_ok; [|done]. intros. by apply ms_hook_free. }
  clearbody w2.
  destruct (batch_free_loop_run (S (4 * length bufs)) w2 s1 i bufs out Hs1 Hi Hok2)
    as (w3 & s3 & rest & -> & H1 & H2 & H3); [lia|]. cbn [res_bind].
  destruct (batch_give_run w3 s3 rest (held s3 ++ out)) as (w4 & -> & Hok4).
  { eapply ms_perm; [|exact H3]. aac_reflexivity. }
  cbn [res_bind]. eexists _, _. split; [done|]. split; [by eapply magazines_keep|by eapply keep_trans].
Qed.

(** ** Per-thread magazines *)

Definition push_spec (push : W -> mags -> mlkind -> umem_magazine -> W * mags) : Prop :=
  forall w s k mp A, mags_ok s -> mag_ok mp -> ok w A ->
    exists w' s', push w s k mp = (w', s') /\ mags_ok s' /\ depot_only s s' /\ ok w' A /\
      held s' ≡ₚ load s k mp ++ held s.

Lemma depot_free_push : push_spec umem_depot_free.
Proof.
  intros w s k mp A Hs Hmp Hok.
  destruct (depot_free_run w s k mp A Hs Hmp Hok) as (w' & s' & ? & ? & ? & ? & ? & _). by exists w', s'.
Qed.

Lemma push_any_run others w s k mp A :
  mags_ok s -> mag_ok mp -> ok w A -> Forall (fun o => ml_index s (Some o)) others ->
  exists w' s' (placed : bool), depot_push_any others w s k mp = (w', s', placed) /\ ok w' A /\
    if placed then mags_ok s' /\ depot_only s s' /\ held s' ≡ₚ load s k mp ++ held s else s' = s.
Proof.
  intros Hs Hmp. revert w. induction others as [|o others IH]; intros w Hok Ho; simpl; [by exists w, s, false|].
  apply Forall_cons in Ho as [Ho1 Ho2]. unfold umem_depot_push_trylock.
  destruct (trylock_run _ _ Hok) as (w1 & got & -> & Hok1). destruct got; [|by apply IH].
  exists w1, (umem_depot_push s k (Some o) mp), true. do 2 (split; [done|]).
  split; [by apply push_ok|]. split; [frame|by apply push_held].
Qed.

Lemma depot_free_trylock_push : push_spec umem_depot_free_trylock.
Proof.
  intros w s k mp A Hs Hmp Hok. unfold umem_depot_free_trylock.
  assert (Hglobal : forall w1 s1, ok w1 A -> mags_eqv s s1 -> exists w' s',
    (w1, umem_depot_push s1 k None mp) = (w', s') /\ mags_ok s' /\ depot_only s s' /\ ok w' A /\
    held s' ≡ₚ load s k mp ++ held s).
  { intros w1 s1 Hok1 Hq. eexists _, _. split; [done|]. split; [apply push_ok; [by eapply eqv_ok|done..]|].
    split; [eapply depot_only_trans; [by apply eqv_depot|apply set_ml_depot]|]. split; [done|].
    rewrite push_held by done. by rewrite (eqv_held _ _ Hq), (load_depot _ _ _ _ (eqv_depot _ _ Hq)). }
  destruct (Z.ltb_spec 0 (depot_ncpus s)) as [Hn|Hn]; [|by apply Hglobal].
  destruct (hint_run w s _ Hok) as (w1 & s1 & h & -> & Hok1 & Hq & _).
  assert (Ei : depot_ncpus s1 = depot_ncpus s) by (unfold depot_ncpus; by destruct Hq as (_&_&_&_&->&_)).
  destruct (push_any_run (Z.to_nat (Z.land h (depot_ncpus s - 1)) ::
      stripes (depot_ncpus s) (Z.land h (depot_ncpus s - 1)) (depot_ncpus s)) w1 s1 k mp A)
    as (w2 & s2 & placed & -> & Hok2 & Hpl).
  { by eapply eqv_ok. } { done. } { done. }
  { rewrite <- Ei in *. constructor; [by apply stripe_index|by apply stripes_index]. }
  destruct placed; [|subst s2; by apply Hglobal]. destruct Hpl as (P1 & P2 & P3).
  eexists _, _. do 2 (split; [done|]).
  split; [eapply depot_only_trans; [by apply eqv_depot|done]|]. split; [done|].
  by rewrite P3, (eqv_held _ _ Hq), (load_depot _ _ _ _ (eqv_depot _ _ Hq)).
Qed.

(** The rounds a hand-off counts, at most the magazine's own capacity. *)
Definition counted (mp : umem_magazine) (rounds : Z) : Z := Z.min rounds (umem_mag_capacity mp).

Lemma mag_drain_run w s mp rounds out :
  mag_ok mp -> magazines ok w s (contents (mc_cookie (mcfg s)) mp (counted mp rounds) ++ out) ->
  exists w' s' mp', umem_mag_drain w s mp rounds (umem_mag_capacity mp) = Ok (w', s', mp') /\
    magazines ok w' s' out /\ keep s s' /\ mag_ok mp' /\ mag_source mp' = mag_source mp.
Proof.
  intros Hmp Hm. unfold umem_mag_drain.
  replace (if umem_mag_capacity mp <? rounds then _ else _) with (counted mp rounds)
    by (unfold counted; destruct (Z.ltb_spec (umem_mag_capacity mp) rounds); lia).
  pose proof (capacity_length mp Hmp) as Hcap.
  destruct (drain_run (fun w1 s1 Y => magazines ok w1 s1 Y /\ keep s s1) _umem_cache_free) with
    (n := Z.to_nat (counted mp rounds)) (r := 0%nat) (w := w) (s := s) (mp := mp) (Y := out)
    as (w' & s' & mp' & E & [H1 H2] & H3 & H4).
  - intros w1 s1 Y [(_ & _ & H) _]. apply ms_nonzero in H. intros Hin. apply H, elem_of_app. by right.
  - intros w1 s1 b Y [H1 H2] _. destruct (free_run ok w1 s1 b Y H1) as (w2 & s2 & E & K1 & K2).
    exists w2, s2. split; [done|]. split; [|by destruct K2]. split; [done|frame].
  - done.
  - unfold counted. lia.
  - split; [done|frame].
  - by exists w', s', mp'.
Qed.

Lemma ptc_return_run push w s k mp rounds out :
  push_spec push -> mag_ok mp ->
  magazines ok w s (contents (mc_cookie (mcfg s)) mp (counted mp rounds) ++ out) ->
  exists w' s', umem_ptc_mag_return_by push w s k mp rounds = Ok (w', s') /\ magazines ok w' s' out /\ keep s s'.
Proof.
  intros Hpush Hmp Hm. unfold umem_ptc_mag_return_by.
  assert (Hgive : forall w1 s1 mp1 k1 out1, magazines ok w1 s1 (load s1 k1 mp1 ++ out1) -> mag_ok mp1 -> keep s s1 ->
    exists w' s', Ok (push w1 s1 k1 mp1) = Ok (w', s') /\ magazines ok w' s' out1 /\ keep s s').
  { intros w1 s1 mp1 k1 out1 Hm1 Hmp1 Hk1. pose proof Hm1 as (G1 & _ & G3).
    destruct (Hpush w1 s1 k1 mp1 _ G1 Hmp1 G3) as (w' & s' & E & P1 & P2 & P3 & P4). rewrite E.
    eexists _, _. split; [done|]. split; [|eapply keep_trans; [exact Hk1|by apply keep_depot]].
    eapply magazines_keep; [exact Hm1|done|frame|].
    eapply ms_perm; [|exact P3]. rewrite P4. aac_reflexivity. }
  destruct (magazine_valid s mp) eqn:Hv; simpl negb; cbn [negb].
  - destruct (negb (is_full k) || negb (rounds =? umem_mag_capacity mp)) eqn:Ek.
    + destruct (mag_drain_run w s mp rounds out Hmp Hm) as (w1 & s1 & mp1 & -> & H1 & H2 & H3 & _).
      cbn [res_bind]. by apply Hgive.
    + cbn [res_bind]. apply orb_false_iff in Ek as [Ek1 Ek2].
      apply negb_false_iff in Ek1, Ek2. apply Z.eqb_eq in Ek2. apply Hgive; [|done|apply keep_refl].
      unfold load. rewrite Ek1. unfold full_of. replace (umem_mag_capacity mp) with (counted mp rounds); [done|].
      unfold counted. lia.
  - destruct (mag_drain_run w s mp rounds out Hmp Hm) as (w1 & s1 & mp1 & -> & H1 & H2 & H3 & _).
    cbn [res_bind]. eexists _, _. split; [done|]. pose proof H1 as (G1 & _ & G3). split; [|exact H2].
    eapply magazines_keep; [exact H1|by apply (eqv_ok s1)|done|]. by apply ms_shell_free.
Qed.
End batch.
