(* ===== verification/MagPurge.v ===== *)
(** * The magazine layer: reaping, purge and resize

    Magazines beyond the working set are destroyed and their objects go back
    to the slab layer; a purge does so with every magazine, and a resize is a
    purge followed by the next magazine type. *)
From S2P Require Import Prelude Machine SlabModel AllocSizes CacheCreate MagModel MagOps MagInv MagSpec MagLoops MagRefine.
From AAC_tactics Require Import AAC.
From AAC_tactics Require Instances.
Import Instances.Lists.

(** [umem_magazine_destroy] skips a magazine whose stored words are all zero:
    the scan sees the [n] rounds unless each object is the mangling mask of its
    slot. *)
Definition visible (mp : umem_magazine) (n : Z) : Prop := n <= 0 \/ umem_mag_scan_notnull mp n = true.
Definition visible_opt (mp : option umem_magazine) (n : Z) : Prop :=
  match mp with Some mp => visible mp n | None => True end.
Definition cpu_visible (c : umem_cpu_cache) : Prop :=
  visible_opt (cc_loaded c) (cc_rounds c) /\ visible_opt (cc_ploaded c) (cc_prounds c).
Definition depot_visible (s : mags) : Prop :=
  forall i mp, ml_index s i -> mp ∈ ml_list (get_ml s MLFull i) -> visible mp (umem_mag_capacity mp).
Definition all_visible (s : mags) : Prop := Forall cpu_visible (cache_cpu s) /\ depot_visible s.

(** ** Lists that shrink *)

(** A list that lost magazines from its head; the working-set limits do not
    fall. *)
Definition reaped (ml ml' : umem_maglist) : Prop :=
  ml_list ml' `suffix_of` ml_list ml /\ ml_reaplimit ml <= ml_reaplimit ml' /\ ml_min ml' = ml_min ml.
(** The whole list is beyond the working set. *)
Definition purgeable (ml : umem_maglist) : Prop :=
  Z.of_nat (length (ml_list ml)) <= Z.min (ml_reaplimit ml) (ml_min ml).
Definition shrunk (s s' : mags) : Prop := depot_only s s' /\ forall k i, reaped (get_ml s k i) (get_ml s' k i).

Lemma reaped_refl ml : reaped ml ml.
Proof. by split; [|split]. Qed.
Lemma reaped_trans m1 m2 m3 : reaped m1 m2 -> reaped m2 m3 -> reaped m1 m3.
Proof. intros (A1&A2&A3) (B1&B2&B3). split; [by etrans|]. split; [lia|congruence]. Qed.
Lemma reaped_nil m1 m2 : reaped m1 m2 -> ml_list m1 = [] -> ml_list m2 = [].
Proof. intros (A1&_) E. rewrite E in A1. by apply suffix_nil_inv. Qed.
Lemma reaped_purgeable m1 m2 : reaped m1 m2 -> purgeable m1 -> purgeable m2.
Proof. intros (A1&A2&A3) H. apply suffix_length in A1. unfold purgeable in *. lia. Qed.

Lemma shrunk_refl s : shrunk s s.
Proof. split; [frame|]. intros. apply reaped_refl. Qed.
Lemma shrunk_trans s1 s2 s3 : shrunk s1 s2 -> shrunk s2 s3 -> shrunk s1 s3.
Proof. intros [A1 A2] [B1 B2]. split; [by eapply depot_only_trans|]. intros. by eapply reaped_trans. Qed.
Lemma shrunk_eqv s s' : mags_eqv s s' -> shrunk s s'.
Proof.
  intros Hq. split; [frame|]. destruct Hq as (_&_&E3&E4&E5&E6&_).
  intros k i. destruct k, i; simpl; rewrite ?E3, ?E4, ?E5, ?E6; apply reaped_refl.
Qed.
#[export] Hint Resolve shrunk_refl shrunk_eqv : umem.

Lemma shrunk_set s k i ml : reaped (get_ml s k i) ml -> shrunk s (set_ml s k i ml).
Proof.
  intros Hr. split; [frame|]. intros k' j.
  destruct k, i as [n|], k', j as [m|]; simpl in *; try done; try apply reaped_refl;
    (destruct (decide (n = m)) as [->|]; [|by rewrite list_lookup_total_insert_ne; [apply reaped_refl|]]);
    rewrite list_lookup_total_insert; (case_decide; [done|apply reaped_refl]).
Qed.
Lemma shrunk_visible s s' : shrunk s s' -> depot_visible s -> depot_visible s'.
Proof.
  intros [Hd Hr] Hv i mp Hi Hin. apply (Hv i).
  - destruct Hd as (_&_&_&E). destruct i; simpl in *; by rewrite <- ?E.
  - destruct (Hr MLFull i) as ([l ->] & _). apply elem_of_app. by right.
Qed.
Lemma untagged_eqv s s' : mags_eqv s s' -> untagged s -> untagged s'.
Proof. intros H. by apply untagged_keep, keep_eqv. Qed.

Lemma has_deadbeef fl : has fl UMF_BUFTAG = false -> has fl UMF_DEADBEEF = false.
Proof.
  unfold has, UMF_BUFTAG. intros H. apply negb_false_iff, Z.eqb_eq in H. apply negb_false_iff, Z.eqb_eq.
  rewrite Z.land_lor_distr_r in H. by apply Z.lor_eq_0_iff in H as [? _].
Qed.

Lemma reap_collect_eq n ml acc :
  exists ml', reap_collect n ml acc = (ml', reverse (take n (ml_list ml)) ++ acc) /\
    ml_list ml' = drop n (ml_list ml) /\ ml_min ml' = ml_min ml /\ ml_reaplimit ml' = ml_reaplimit ml /\
    ml_total ml' = ml_total ml - Z.of_nat (length (ml_list ml)) + Z.of_nat (length (drop n (ml_list ml))).
Proof.
  revert ml acc. induction n as [|n IH]; intros ml acc; simpl.
  { exists ml. rewrite drop_0. do 4 (split; [done|]). lia. }
  unfold umem_depot_reap_pop. destruct (ml_list ml) as [|mp rest] eqn:E; simpl.
  { exists ml. rewrite E. do 4 (split; [done|]). simpl. lia. }
  destruct (IH (MagList rest (ml_total ml - 1) (ml_min ml) (ml_reaplimit ml) (wadd (ml_alloc ml) 1)) (mp :: acc))
    as (ml' & E' & H1 & H2 & H3 & H4). simpl in *. exists ml'. rewrite E'. rewrite reverse_cons, <- app_assoc.
  split; [done|]. repeat (split; [done|]). lia.
Qed.

Lemma loads_depot s s1 k mps : depot_only s s1 -> mps ≫= load s1 k = mps ≫= load s k.
Proof. intros Hd. apply list_bind_ext; [|done]. intros mp. by apply load_depot. Qed.

Section purge.
Context {W : Type} {env : mag_env W} {ok : W -> list Z -> Prop} {laws : mag_source_laws W ok}.

(** ** Destroying *)

Lemma destroy_rounds_run n r w s mp Y :
  has (mc_flags (mcfg s)) UMF_BUFTAG = false -> (r + n <= length (mag_round mp))%nat ->
  ok w ((demangled (mc_cookie (mcfg s)) mp <$> seq r n) ++ Y) ->
  exists w', destroy_rounds n r w s mp = Ok w' /\ ok w' Y.
Proof.
  intros Hf. revert r w. induction n as [|n IH]; intros r w Hr Hok; cbn [destroy_rounds]; [by exists w|].
  unfold round_load. rewrite (proj2 (Nat.ltb_lt _ _)) by lia. cbn [res_bind].
  rewrite has_deadbeef by done. cbn [andb]. simpl in Hok.
  destruct (destruct_give_run ok w s _ _ Hok) as (w1 & -> & Hok1). cbn [res_bind]. apply IH; [lia|done].
Qed.

Lemma magazine_destroy_run w s mp n Y :
  has (mc_flags (mcfg s)) UMF_BUFTAG = false -> mag_ok mp -> n <= umem_mag_capacity mp -> visible mp n ->
  ok w (contents (mc_cookie (mcfg s)) mp n ++ Y) ->
  exists w', umem_magazine_destroy w s mp n = Ok (w', add_mag_total (-1) s) /\ ok w' Y.
Proof.
  intros Hf Hmp Hn Hv Hok. unfold umem_magazine_destroy.
  replace ((0 <? n) && negb (umem_mag_scan_notnull mp n)) with false.
  2:{ symmetry. destruct Hv as [?| ->]; [by rewrite (proj2 (Z.ltb_ge _ _))|by rewrite andb_false_r]. }
  rewrite capacity_length in Hn by done.
  destruct (destroy_rounds_run (Z.to_nat n) 0 w s mp Y Hf) as (w1 & -> & Hok1); [lia|done|].
  cbn [res_bind]. eexists. split; [done|]. by apply ms_shell_free.
Qed.

Lemma destroy_all_run mps w s k Y :
  has (mc_flags (mcfg s)) UMF_BUFTAG = false -> (cache_magtype s < length umem_magtype)%nat ->
  Forall mag_ok mps -> (is_full k = true -> Forall (fun mp => visible mp (umem_mag_capacity mp)) mps) ->
  ok w ((mps ≫= load s k) ++ Y) ->
  exists w' s', destroy_all mps w s (if is_full k then magsize_of (cache_magtype s) else 0) = Ok (w', s') /\
    mags_eqv s s' /\ ok w' Y.
Proof.
  intros Hf Ht. revert w s Hf Ht. induction mps as [|mp mps IH]; intros w s Hf Ht Hmps Hvis Hok; cbn [destroy_all];
    [by eexists _, _|].
  apply Forall_cons in Hmps as [Hmp Hmps]. rewrite bind_cons, <- app_assoc in Hok.
  set (fr := if is_full k then magsize_of (cache_magtype s) else 0).
  assert (exists w1 s1, (if negb (magazine_valid s mp) then umem_depot_destroy_stale w s (0 <? fr) mp
      else umem_magazine_destroy w s mp fr) = Ok (w1, s1) /\ mags_eqv s s1 /\ ok w1 ((mps ≫= load s k) ++ Y))
    as (w1 & s1 & -> & Hq & Hok1).
  { destruct (magazine_valid s mp) eqn:Hv; cbn [negb].
    - unfold magazine_valid in Hv. apply Nat.eqb_eq in Hv.
      assert (Hcap : umem_mag_capacity mp = magsize_of (cache_magtype s)) by (by rewrite capacity_magsize, Hv).
      destruct (magazine_destroy_run w s mp fr ((mps ≫= load s k) ++ Y) Hf Hmp) as (w1 & -> & Hok1).
      + unfold fr. pose proof (magsize_pos _ Ht). destruct (is_full k); lia.
      + unfold fr. destruct (is_full k) eqn:Ek; [|by left]. rewrite <- Hcap.
        specialize (Hvis eq_refl). by apply Forall_cons in Hvis as [? _].
      + unfold load at 1 in Hok. unfold fr. destruct (is_full k); [|done]. unfold full_of in Hok. by rewrite Hcap in Hok.
      + by eexists _, _.
    - replace (0 <? fr) with (is_full k).
      2:{ unfold fr. pose proof (magsize_pos _ Ht). destruct (is_full k); symmetry; [apply Z.ltb_lt; lia|done]. }
      by apply destroy_stale_any. }
  cbn [res_bind]. pose proof (eqv_depot _ _ Hq) as Hd.
  destruct (IH w1 s1) as (w' & s' & E & K1 & K2).
  - by destruct Hq as (-> & _).
  - by destruct Hq as (_&_&_&_&_&_&->).
  - done.
  - intros Ek. specialize (Hvis Ek). by apply Forall_cons in Hvis as [_ ?].
  - by rewrite (loads_depot s s1).
  - replace fr with (if is_full k then magsize_of (cache_magtype s1) else 0)
      by (unfold fr; by destruct Hq as (_&_&_&_&_&_&->)).
    exists w', s'. split; [done|]. split; [|done]. destruct Hq as (?&?&?&?&?&?&?), K1 as (?&?&?&?&?&?&?).
    repeat split; congruence.
Qed.

(** ** Reaping one list *)

Lemma drop_held s k i n ml' :
  ml_index s i -> ml_list ml' = drop n (ml_list (get_ml s k i)) ->
  held s ≡ₚ (reverse (take n (ml_list (get_ml s k i))) ≫= load s k) ++ held (set_ml s k i ml').
Proof using Type.
  intros Hi E. destruct k.
  - destruct (held_full_at s i Hi) as (R & -> & ->). unfold held_ml. rewrite E.
    rewrite <- (take_drop n (ml_list (get_ml s MLFull i))) at 1. rewrite bind_app.
    rewrite reverse_Permutation. change (load s MLFull) with (full_of (mc_cookie (mcfg s))). aac_reflexivity.
  - rewrite held_empty_ml. unfold load. cbn [is_full].
    replace (reverse _ ≫= _) with (@nil Z); [done|]. generalize (reverse (take n (ml_list (get_ml s MLEmpty i)))).
    intros l. by induction l.
Qed.

Definition reap_ok (X : list Z) (s : mags) (w' : W) (s' : mags) : Prop :=
  mags_ok s' /\ shrunk s s' /\ ok w' (held s' ++ X).

Lemma ws_reap_run w s k i X :
  mags_ok s -> untagged s -> depot_visible s -> ml_index s i -> ok w (held s ++ X) ->
  exists w' s',
    umem_maglist_ws_reap w s k i (if is_full k then magsize_of (cache_magtype s) else 0) = Ok (w', s') /\
    reap_ok X s w' s' /\ (purgeable (get_ml s k i) -> ml_list (get_ml s' k i) = []).
Proof.
  intros Hs Hu Hv Hi Hok. unfold umem_maglist_ws_reap.
  set (n := Z.to_nat (Z.min (ml_reaplimit (get_ml s k i)) (ml_min (get_ml s k i)))).
  destruct (reap_collect_eq n (get_ml s k i) []) as (ml' & -> & E1 & E2 & E3 & E4). rewrite app_nil_r.
  pose proof (get_ml_ok s k i Hs Hi) as [Hmags Htot].
  assert (Hml' : ml_ok ml').
  { split; [rewrite E1; by apply Forall_drop|]. rewrite E4, E1, Htot. lia. }
  set (s1 := set_ml s k i ml'). assert (Hs1 : mags_ok s1) by (by apply set_ml_ok).
  pose proof (set_ml_depot s k i ml') as Hd. fold s1 in Hd. pose proof Hd as (C1 & _ & C3 & _).
  assert (Hsh : shrunk s s1).
  { apply shrunk_set. split; [rewrite E1; apply suffix_drop|]. rewrite E2, E3. split; [lia|done]. }
  destruct (destroy_all_run (reverse (take n (ml_list (get_ml s k i)))) w s1 k (held s1 ++ X))
    as (w' & s' & E & Hq & Hok').
  - rewrite C1. apply Hu.
  - rewrite C3. apply Hs.
  - by apply Forall_reverse, Forall_take.
  - intros Ek. apply Forall_reverse, Forall_forall. intros mp Hin. apply (Hv i); [done|].
    destruct k; [|done].
    rewrite <- (take_drop n (ml_list (get_ml s MLFull i))). apply elem_of_app. by left.
  - eapply ms_perm; [|exact Hok]. rewrite (drop_held s k i n ml') by done. fold s1.
    rewrite (loads_depot s s1) by done. aac_reflexivity.
  - rewrite C3 in E. exists w', s'. split; [done|]. split.
    + split; [by eapply eqv_ok|]. split; [by eapply shrunk_trans; [|apply shrunk_eqv]|].
      by rewrite (eqv_held _ _ Hq).
    + intros Hp. eapply reaped_nil; [apply (shrunk_eqv _ _ Hq)|].
      assert (E5 : ml_list ml' = []) by (rewrite E1; apply drop_ge; unfold purgeable in Hp; lia).
      unfold s1. destruct k, i as [m|]; simpl in *; try done.
      * by rewrite list_lookup_total_insert_eq.
      * by rewrite list_lookup_total_insert_eq by (by rewrite (mo_stripes _ Hs)).
Qed.

(** ** Reaping the depot *)

Lemma mark_excess_reaped ml : reaped ml (umem_maglist_mark_excess ml).
Proof using Type.
  unfold umem_maglist_mark_excess. destruct (_ <? ml_total ml); [|apply reaped_refl].
  split; [done|]. split; [|done]. simpl. destruct (Z.ltb_spec (ml_reaplimit ml) (ml_total ml - UMEM_DEPOT_PERCPU_MAX)); lia.
Qed.

Lemma mark_excess_ok ml : ml_ok ml -> ml_ok (umem_maglist_mark_excess ml).
Proof using Type. unfold umem_maglist_mark_excess. by destruct (_ <? ml_total ml). Qed.

Lemma mark_excess_list ml : ml_list (umem_maglist_mark_excess ml) = ml_list ml.
Proof using Type. unfold umem_maglist_mark_excess. by destruct (_ <? ml_total ml). Qed.

Lemma mark_run s k i X w :
  mags_ok s -> ml_index s i -> ok w (held s ++ X) ->
  reap_ok X s w (set_ml s k i (umem_maglist_mark_excess (get_ml s k i))).
Proof.
  intros Hs Hi Hok. split; [by apply set_ml_ok, mark_excess_ok, get_ml_ok|].
  split; [apply shrunk_set, mark_excess_reaped|]. destruct k.
  - destruct (held_full_at s i Hi) as (R & HR & HR').
    rewrite HR'. unfold held_ml. rewrite mark_excess_list. eapply ms_perm; [|exact Hok]. by rewrite HR.
  - by rewrite held_empty_ml.
Qed.

Lemma reap_ok_trans X s s1 w' s' : shrunk s s1 -> reap_ok X s1 w' s' -> reap_ok X s w' s'.
Proof using Type. intros H (A & B & C). split; [done|]. split; [by eapply shrunk_trans|done]. Qed.

(** One list of the depot, with what later lists need. *)
Lemma ws_reap_next w s0 s k i X :
  reap_ok X s0 w s -> untagged s0 -> depot_visible s0 -> ml_index s0 i ->
  exists w' s',
    umem_maglist_ws_reap w s k i (if is_full k then magsize_of (cache_magtype s0) else 0) = Ok (w', s') /\
    reap_ok X s0 w' s' /\ shrunk s s' /\ (purgeable (get_ml s0 k i) -> ml_list (get_ml s' k i) = []).
Proof.
  intros (H1 & H2 & H3) Hu Hv Hi. pose proof H2 as [Hd Hr].
  destruct (ws_reap_run w s k i X H1) as (w' & s' & E & K1 & K2).
  - eapply untagged_keep; [by apply keep_depot|done].
  - by eapply shrunk_visible.
  - by eapply ml_index_depot.
  - done.
  - replace (cache_magtype s) with (cache_magtype s0) in E by (by destruct Hd as (_&_&->&_)).
    exists w', s'. split; [done|]. split; [by eapply reap_ok_trans|]. split; [by destruct K1 as (_&?&_)|].
    intros Hp. apply K2. by eapply reaped_purgeable.
Qed.

Lemma reap_stripes_run l w s0 s X :
  reap_ok X s0 w s -> untagged s0 -> depot_visible s0 -> Forall (fun j => ml_index s0 (Some j)) l ->
  exists w' s', reap_stripes l w s (magsize_of (cache_magtype s0)) = Ok (w', s') /\ reap_ok X s0 w' s' /\
    shrunk s s' /\
    forall j k, j ∈ l -> purgeable (get_ml s0 k (Some j)) -> ml_list (get_ml s' k (Some j)) = [].
Proof.
  intros Hr Hu Hv. revert w s Hr. induction l as [|i l IH]; intros w s Hr Hl; cbn [reap_stripes].
  { exists w, s. do 2 (split; [done|]). split; [frame|]. intros j k Hj. by apply elem_of_nil in Hj. }
  apply Forall_cons in Hl as [Hi Hl].
  destruct (ws_reap_next w s0 s MLFull (Some i) X Hr Hu Hv Hi) as (w1 & s1 & E1 & A1 & A2 & A3).
  cbn [is_full] in E1. rewrite E1. cbn [res_bind].
  destruct (ws_reap_next w1 s0 s1 MLEmpty (Some i) X A1 Hu Hv Hi) as (w2 & s2 & E2 & B1 & B2 & B3).
  cbn [is_full] in E2. rewrite E2. cbn [res_bind].
  set (s3 := set_ml s2 MLFull _ _). set (s4 := set_ml s3 MLEmpty _ _).
  assert (H3 : reap_ok X s2 w2 s3).
  { apply mark_run; [apply B1| |apply B1]. eapply ml_index_depot; [|exact Hi]. apply B1. }
  assert (H4 : reap_ok X s3 w2 s4).
  { apply mark_run; [apply H3| |apply H3]. eapply ml_index_depot; [|exact Hi].
    eapply depot_only_trans; [apply B1|apply H3]. }
  assert (Hr4 : reap_ok X s0 w2 s4).
  { eapply reap_ok_trans; [apply B1|]. eapply reap_ok_trans; [apply H3|done]. }
  assert (S24 : shrunk s2 s4) by (eapply shrunk_trans; [apply H3|apply H4]).
  destruct (IH w2 s4 Hr4 Hl) as (w' & s' & E & K1 & K2 & K3).
  exists w', s'. do 2 (split; [done|]). split.
  { eapply shrunk_trans; [exact A2|]. eapply shrunk_trans; [exact B2|]. by eapply shrunk_trans. }
  assert (S2 : shrunk s2 s') by (by eapply shrunk_trans).
  intros j k Hj Hp. apply elem_of_cons in Hj as [->|Hj]; [|by apply K3].
  destruct k.
  - eapply reaped_nil; [apply (shrunk_trans _ _ _ B2 S2)|]. by apply A3.
  - eapply reaped_nil; [apply S2|]. by apply B3.
Qed.

Lemma depot_ws_reap_run w s X :
  mags_ok s -> untagged s -> depot_visible s -> ok w (held s ++ X) ->
  exists w' s', umem_depot_ws_reap w s = Ok (w', s') /\ reap_ok X s w' s' /\
    ((forall k i, ml_index s i -> purgeable (get_ml s k i)) ->
     forall k i, ml_index s i -> ml_list (get_ml s' k i) = []).
Proof.
  intros Hs Hu Hv Hok. unfold umem_depot_ws_reap.
  assert (Hr : reap_ok X s w s) by (split; [done|]; split; [frame|done]).
  destruct (ws_reap_next w s s MLFull None X Hr Hu Hv I) as (w1 & s1 & E1 & A1 & A2 & A3).
  cbn [is_full] in E1. rewrite E1. cbn [res_bind].
  destruct (ws_reap_next w1 s s1 MLEmpty None X A1 Hu Hv I) as (w2 & s2 & E2 & B1 & B2 & B3).
  cbn [is_full] in E2. rewrite E2. cbn [res_bind].
  assert (Elen : length (cache_depot_full s2) = length (cache_depot_full s)) by apply B1.
  destruct (reap_stripes_run (seq 0 (length (cache_depot_full s2))) w2 s s2 X B1 Hu Hv)
    as (w' & s' & E & K1 & K2 & K3).
  { apply Forall_forall. intros j Hj. apply elem_of_seq in Hj. simpl. lia. }
  exists w', s'. do 2 (split; [done|]). intros Hp k i Hi. destruct i as [j|].
  - apply K3; [|by apply Hp]. apply elem_of_seq. simpl in Hi. lia.
  - destruct k.
    + eapply reaped_nil; [apply (shrunk_trans _ _ _ B2 K2)|]. by apply A3, Hp.
    + eapply reaped_nil; [apply K2|]. by apply B3, Hp.
Qed.

(** ** Purging the CPUs *)

Definition cleared (c : umem_cpu_cache) : Prop :=
  cc_loaded c = None /\ cc_ploaded c = None /\ cc_rounds c = -1 /\ cc_prounds c = -1 /\ cc_magsize c = 0.

Lemma cleared_ok t c : cleared c -> cpu_ok t c.
Proof using Type.
  intros (E1 & E2 & E3 & E4 & E5). split; rewrite ?E1, ?E2, ?E3, ?E4, ?E5; simpl; auto.
Qed.

Lemma destroy_some_run w s m mp n Y :
  has (mc_flags (mcfg s)) UMF_BUFTAG = false -> loaded_ok m mp n -> visible_opt mp n ->
  ok w (held_mag (mc_cookie (mcfg s)) mp n ++ Y) ->
  exists w' s', destroy_some w s mp n = Ok (w', s') /\ mags_eqv s s' /\ ok w' Y.
Proof.
  intros Hf Hl Hv Hok. destruct mp as [mp|]; simpl in *; [|by exists w, s].
  destruct Hl as (H1 & H2 & H3 & H4).
  destruct (magazine_destroy_run w s mp n Y) as (w' & -> & Hok'); try done; [lia|].
  by exists w', (add_mag_total (-1) s).
Qed.

(** The depot is not touched. *)
Definition same_depot (s s' : mags) : Prop := keep s s' /\ forall k i, get_ml s' k i = get_ml s k i.

Lemma same_depot_trans s1 s2 s3 : same_depot s1 s2 -> same_depot s2 s3 -> same_depot s1 s3.
Proof using Type. intros [A1 A2] [B1 B2]. split; [frame|]. intros. by rewrite B2, A2. Qed.

Lemma eqv_same s s' : mags_eqv s s' -> same_depot s s'.
Proof using Type.
  intros Hq. split; [frame|]. destruct Hq as (_&_&E3&E4&E5&E6&_).
  intros [] [i|]; simpl; by rewrite ?E3, ?E4, ?E5, ?E6.
Qed.

Lemma eqv_cpu s s' j : mags_eqv s s' -> cpu_of s' j = cpu_of s j.
Proof using Type. intros (_ & E & _). unfold cpu_of. by rewrite E. Qed.

Lemma purge_cpu_run w s i X :
  mags_ok s -> untagged s -> cpu_visible (cpu_of s i) -> (i < length (cache_cpu s))%nat -> ok w (held s ++ X) ->
  let c := cpu_of s i in
  exists w' s',
    (do (w, s) <- destroy_some w (set_cpu i (cpu_emptied c) s) (cc_loaded c) (cc_rounds c);
     destroy_some w s (cc_ploaded c) (cc_prounds c)) = Ok (w', s') /\
    mags_ok s' /\ same_depot s s' /\ length (cache_depot_full s') = length (cache_depot_full s) /\
    ok w' (held s' ++ X) /\
    cleared (cpu_of s' i) /\ forall j, i <> j -> cpu_of s' j = cpu_of s j.
Proof.
  intros Hs Hu [Hv1 Hv2] Hi Hok c. pose proof (cpu_of_ok s i Hs Hi) as Hc. fold c in Hc.
  set (s1 := set_cpu i (cpu_emptied c) s).
  destruct (held_cpu_at s i c (cpu_lookup s i Hi)) as (R & HR & HR').
  assert (Hs1 : mags_ok s1) by (apply set_cpu_ok; [done|by apply cleared_ok]).
  assert (Hsd : same_depot s s1) by (split; [by apply set_cpu_keep|by intros [] []]).
  destruct (destroy_some_run w s1 (cc_magsize c) (cc_loaded c) (cc_rounds c)
    (held_mag (mc_cookie (mcfg s)) (cc_ploaded c) (cc_prounds c) ++ R ++ X)) as (w2 & s2 & E2 & Hq2 & Hok2).
  { apply Hu. } { apply Hc. } { done. }
  { eapply ms_perm; [|exact Hok]. rewrite HR. unfold held_cpu. simpl. aac_reflexivity. }
  rewrite E2. cbn [res_bind].
  assert (Ecfg : mcfg s2 = mcfg s) by (by destruct Hq2 as (-> & _)).
  destruct (destroy_some_run w2 s2 (cc_magsize c) (cc_ploaded c) (cc_prounds c) (R ++ X)) as (w3 & s3 & E3 & Hq3 & Hok3).
  { rewrite Ecfg. apply Hu. } { apply Hc. } { done. } { by rewrite Ecfg. }
  exists w3, s3. split; [done|]. split; [by eapply eqv_ok; [|eapply eqv_ok]|].
  split; [eapply same_depot_trans; [exact Hsd|]; eapply same_depot_trans; by apply eqv_same|].
  split; [by destruct Hq2 as (_&_&_&_&E&_), Hq3 as (_&_&_&_&->&_); rewrite E|]. split; [|split].
  - rewrite (eqv_held _ _ Hq3), (eqv_held _ _ Hq2). unfold s1. rewrite HR'. done.
  - rewrite (eqv_cpu _ _ _ Hq3), (eqv_cpu _ _ _ Hq2). unfold s1. by rewrite cpu_of_set.
  - intros j Hj. rewrite (eqv_cpu _ _ _ Hq3), (eqv_cpu _ _ _ Hq2). unfold cpu_of. simpl.
    by rewrite list_lookup_total_insert_ne.
Qed.

Lemma cleared_visible c : cleared c -> cpu_visible c.
Proof using Type. intros (E1 & E2 & _). split; by rewrite ?E1, ?E2. Qed.

Lemma purge_cpus_step i l w s :
  purge_cpus (i :: l) w s =
  (let c := cpu_of s i in
   do (w, s) <- (do (w, s) <- destroy_some w (set_cpu i (cpu_emptied c) s) (cc_loaded c) (cc_rounds c);
                 destroy_some w s (cc_ploaded c) (cc_prounds c));
   purge_cpus l w s).
Proof using Type.
  cbn [purge_cpus]. destruct (destroy_some w _ _ _) as [[w1 s1]|]; [|done]. cbn [res_bind].
  by destruct (destroy_some w1 s1 _ _) as [[w2 s2]|].
Qed.

Lemma purge_cpus_run l w s X :
  mags_ok s -> untagged s -> (forall j, (j < length (cache_cpu s))%nat -> cpu_visible (cpu_of s j)) ->
  Forall (fun i => (i < length (cache_cpu s))%nat) l -> ok w (held s ++ X) ->
  exists w' s', purge_cpus l w s = Ok (w', s') /\ mags_ok s' /\ same_depot s s' /\
    length (cache_depot_full s') = length (cache_depot_full s) /\ ok w' (held s' ++ X) /\
    forall j, j ∈ l \/ cleared (cpu_of s j) -> cleared (cpu_of s' j).
Proof.
  revert w s. induction l as [|i l IH]; intros w s Hs Hu Hv Hl Hok.
  { exists w, s. do 2 (split; [done|]). split; [by split; [frame|]|]. do 2 (split; [done|]).
    intros j [Hj|Hj]; [by apply elem_of_nil in Hj|done]. }
  apply Forall_cons in Hl as [Hi Hl]. rewrite purge_cpus_step. cbv zeta.
  destruct (purge_cpu_run w s i X Hs Hu (Hv i Hi) Hi Hok) as (w1 & s1 & -> & A1 & A2 & A3 & A4 & A5 & A6).
  cbn [res_bind]. pose proof (keep_cpus _ _ (proj1 A2)) as Elen.
  destruct (IH w1 s1) as (w' & s' & E & K1 & K2 & K3 & K4 & K5).
  - done.
  - eapply untagged_keep; [apply A2|done].
  - intros j Hj. destruct (decide (i = j)) as [->|Hne]; [by apply cleared_visible|].
    rewrite A6 by done. apply Hv. lia.
  - by rewrite Elen.
  - done.
  - exists w', s'. do 2 (split; [done|]). split; [by eapply same_depot_trans|].
    split; [congruence|]. split; [done|]. intros j Hj. apply K5.
    destruct (decide (i = j)) as [->|Hne]; [by right|]. rewrite A6 by done.
    destruct Hj as [Hj|?]; [|by right]. apply elem_of_cons in Hj as [->|?]; [done|by left].
Qed.

(** ** Purge *)

Lemma ws_update_get s k i :
  ml_index s i -> length (cache_depot_empty s) = length (cache_depot_full s) ->
  get_ml (umem_depot_ws_update s) k i = umem_maglist_ws_update (get_ml s k i).
Proof using Type.
  intros Hi El. destruct k, i as [j|]; simpl in *; try done.
  - destruct (lookup_lt_is_Some_2 _ _ Hi) as [ml E].
    rewrite (list_lookup_total_correct _ _ _ E). apply list_lookup_total_correct. by rewrite list_lookup_fmap, E.
  - rewrite <- El in Hi. destruct (lookup_lt_is_Some_2 _ _ Hi) as [ml E].
    rewrite (list_lookup_total_correct _ _ _ E). apply list_lookup_total_correct. by rewrite list_lookup_fmap, E.
Qed.

Lemma ws_update_ok s : mags_ok s -> mags_ok (umem_depot_ws_update s).
Proof using Type.
  intros [? ? ? ? ? ? H1 H2 ?]. split; simpl; rewrite ?length_fmap; try done.
  - apply Forall_fmap. eapply Forall_impl; [exact H1|]. done.
  - apply Forall_fmap. eapply Forall_impl; [exact H2|]. done.
Qed.

Lemma ws_update_held s : held (umem_depot_ws_update s) = held s.
Proof using Type.
  unfold held. simpl. f_equal. f_equal. set (ck := mc_cookie (mcfg s)).
  induction (cache_depot_full s) as [|ml l IH]; simpl; [done|]. by f_equal.
Qed.

Lemma ws_update_index s i : ml_index s i -> ml_index (umem_depot_ws_update s) i.
Proof using Type. destruct i; simpl; by rewrite ?length_fmap. Qed.

Lemma ws_update_index_inv s i : ml_index (umem_depot_ws_update s) i -> ml_index s i.
Proof using Type. destruct i; simpl; by rewrite ?length_fmap. Qed.

(** Two updates in a row leave no working set. *)
Lemma ws_update_twice s k i :
  mags_ok s -> ml_index s i -> purgeable (get_ml (umem_depot_ws_update (umem_depot_ws_update s)) k i).
Proof using Type.
  intros Hs Hi. pose proof (ws_update_ok s Hs) as Hs1.
  rewrite ws_update_get by (apply (mo_stripes _ Hs1) || by apply ws_update_index).
  rewrite ws_update_get by (done || apply (mo_stripes _ Hs)).
  destruct (get_ml_ok s k i Hs Hi) as [_ E]. unfold purgeable. simpl. lia.
Qed.

Lemma held_nothing s :
  Forall cleared (cache_cpu s) -> (forall k i, ml_index s i -> ml_list (get_ml s k i) = []) -> held s = [].
Proof using Type.
  intros Hc Hd. unfold held. set (ck := mc_cookie (mcfg s)).
  assert (E1 : cache_cpu s ≫= held_cpu ck = []).
  { induction Hc as [|c l (E1 & E2 & _)]; [done|]. rewrite bind_cons. unfold held_cpu at 1. by rewrite E1, E2. }
  assert (E2 : held_ml ck (cache_full s) = []) by (unfold held_ml; by rewrite (Hd MLFull None I : ml_list (cache_full s) = [])).
  rewrite E1, E2. simpl.
  assert (Hl : Forall (fun ml => ml_list ml = []) (cache_depot_full s)).
  { apply Forall_lookup. intros i ml Hi. specialize (Hd MLFull (Some i)). simpl in Hd.
    rewrite (list_lookup_total_correct _ _ _ Hi) in Hd. apply Hd. by eapply lookup_lt_Some. }
  induction Hl as [|ml l E]; [done|]. rewrite bind_cons. unfold held_ml at 1. by rewrite E.
Qed.

Lemma purge_run w s out :
  magazines ok w s out -> all_visible s ->
  exists w' s', umem_cache_magazine_purge w s = Ok (w', s') /\ magazines ok w' s' out /\
    cache_magtype s' = cache_magtype s /\ mcfg s' = mcfg s /\
    Forall cleared (cache_cpu s') /\ (forall k i, ml_index s' i -> ml_list (get_ml s' k i) = []) /\ held s' = [].
Proof.
  intros Hm [Hv1 Hv2]. pose proof Hm as (Hs & Hu & Hok). unfold umem_cache_magazine_purge.
  destruct (purge_cpus_run (seq 0 (length (cache_cpu s))) w s out Hs Hu) as (w1 & s1 & -> & A1 & A2 & A3 & A4 & A5).
  { intros j Hj. eapply Forall_lookup_1; [exact Hv1|by apply cpu_lookup]. }
  { apply Forall_forall. intros j Hj. apply elem_of_seq in Hj. lia. } { done. }
  cbn [res_bind]. set (s2 := umem_depot_ws_update (umem_depot_ws_update s1)).
  assert (Hs2 : mags_ok s2) by (by apply ws_update_ok, ws_update_ok).
  assert (Hu2 : untagged s2) by (eapply (untagged_keep s); [apply A2|done]).
  assert (Eh2 : held s2 = held s1) by (unfold s2; by rewrite !ws_update_held).
  assert (Hi2 : forall i, ml_index s2 i -> ml_index s1 i) by (intros i Hi; by apply ws_update_index_inv, ws_update_index_inv).
  destruct (depot_ws_reap_run w1 s2 out) as (w' & s' & E & (K1 & K2 & K3) & K4).
  { done. } { done. }
  { intros i mp Hi Hin. apply (Hv2 i).
    - apply Hi2 in Hi. destruct i; simpl in *; congruence.
    - rewrite <- (proj2 A2). unfold s2 in Hin. apply Hi2 in Hi.
      rewrite !ws_update_get in Hin; [exact Hin|done|apply A1|by apply ws_update_index|apply (mo_stripes _ (ws_update_ok _ A1))]. }
  { by rewrite Eh2. }
  exists w', s'. destruct K2 as [Kd _].
  assert (Ek : keep s s'). { eapply keep_trans; [apply A2|]. by apply (keep_depot s2). }
  assert (Hcl : Forall cleared (cache_cpu s')).
  { destruct Kd as (_ & -> & _). apply Forall_lookup. intros j c Hj. change (cache_cpu s2) with (cache_cpu s1) in Hj.
    pose proof (lookup_lt_Some _ _ _ Hj) as Hlt. rewrite (cpu_lookup s1 j) in Hj by done. injection Hj as <-.
    apply A5. left. apply elem_of_seq. rewrite (keep_cpus _ _ (proj1 A2)) in Hlt. lia. }
  assert (Hem : forall k i, ml_index s' i -> ml_list (get_ml s' k i) = []).
  { intros k i Hi. apply K4.
    - intros k' i' Hi'. apply ws_update_twice; [done|by apply Hi2].
    - destruct Kd as (_&_&_&El). destruct i; simpl in *; [by rewrite <- El|done]. }
  split; [done|]. split; [by eapply magazines_keep|]. split; [apply Ek|]. split; [apply Ek|].
  do 2 (split; [done|]). by apply held_nothing.
Qed.

(** ** Resize *)

Lemma sized_ok t c : cleared c -> cpu_ok t (cpu_sized (magsize_of t) c).
Proof using Type.
  intros (E1 & E2 & E3 & E4 & E5). split; simpl; rewrite ?E1, ?E2, ?E3, ?E4; simpl; auto.
Qed.

Lemma resize_run w s out :
  magazines ok w s out -> all_visible s ->
  exists w' s', umem_cache_magazine_resize w s = Ok (w', s') /\ magazines ok w' s' out /\
    (cache_magtype s' = cache_magtype s \/
     cache_magtype s' = S (cache_magtype s) /\ held s' = [] /\
     (has (mc_flags (mcfg s)) UMF_NOMAGAZINE = false ->
      Forall (fun c => cc_magsize c = magsize_of (cache_magtype s')) (cache_cpu s'))).
Proof.
  intros Hm Hv. unfold umem_cache_magazine_resize.
  destruct (_ && _) eqn:Eg; [|exists w, s; auto].
  apply andb_true_iff in Eg as [Eg _]. apply Nat.ltb_lt in Eg.
  destruct (purge_run w s out Hm Hv) as (w1 & s1 & -> & (P1 & P2 & P3) & P4 & P5 & P6 & P7 & P8). cbn [res_bind].
  eexists _, _. split; [done|]. set (t := S (cache_magtype s)).
  assert (Ht : (t < length umem_magtype)%nat) by (unfold t; lia).
  unfold umem_cache_magazine_enable. simpl mcfg. rewrite P5.
  assert (Hh : forall s2 : mags, mcfg s2 = mcfg s1 -> cache_full s2 = cache_full s1 -> cache_depot_full s2 = cache_depot_full s1 ->
     Forall (fun c => cc_loaded c = None /\ cc_ploaded c = None) (cache_cpu s2) -> held s2 = []).
  { intros s2 E1 E2 E3 Hc. unfold held. rewrite E2, E3.
    assert (E4 : cache_cpu s2 ≫= held_cpu (mc_cookie (mcfg s2)) = []).
    { induction Hc as [|c l (F1 & F2)]; [done|]. rewrite bind_cons. unfold held_cpu at 1. by rewrite F1, F2. }
    rewrite E4, E1. unfold held in P8. by apply app_eq_nil in P8 as [_ ->]. }
  destruct (has (mc_flags (mcfg s)) UMF_NOMAGAZINE) eqn:Hno.
  - split; [|right]; [|split; [done|]; split; [|done]].
    + split; [|split; [done|done]]. destruct P1. split; simpl; try done.
      eapply Forall_impl; [exact P6|]. intros c Hc. by apply cleared_ok.
    + done.
  - assert (Hh2 : Forall (fun c => cc_loaded c = None /\ cc_ploaded c = None)
        (cpu_sized (magsize_of t) <$> cache_cpu s1)).
    { apply Forall_fmap. eapply Forall_impl; [exact P6|]. by intros c (F1 & F2 & _). }
    split; [|right]; [|split; [done|]; split].
    + split; [|split].
      * destruct P1. split; simpl; rewrite ?length_fmap; try done.
        apply Forall_fmap. eapply Forall_impl; [exact P6|]. intros c Hc. by apply sized_ok.
      * destruct P2 as [U1 U2]. split; [done|]. simpl. rewrite <- list_fmap_compose. exact U2.
      * rewrite (Hh _) by done. by rewrite P8 in P3.
    + by apply Hh.
    + intros _. simpl. apply Forall_fmap, Forall_forall. done.
Qed.
End purge.
