(* ===== verification/MagProps.v ===== *)
(** * The magazine layer: properties

    The claims about the per-CPU magazines and the depot: against the interface
    [mag_source_laws], and the proof that the slab layer of [SlabSpec]
    discharges it, so that the two layers compose.  The witnesses run a cache
    of 512-byte objects on two CPUs over the arena of [SlabProps]. *)
From S2P Require Import Prelude Machine SlabModel SlabWf SlabInv SlabFree SlabFreeOp SlabGrow SlabSpec SlabProps AllocSizes.
From S2P Require Import MagModel MagOps MagInv MagSpec MagLoops MagRefine MagBatch MagPurge.

(** ** The slab layer below the magazines *)

(** What the magazine layer calls beside the slab layer: client callbacks, the
    magazine caches, the scheduler. *)
Class mag_outer (V : Type) := {
  out_construct : V -> Z -> V * bool;
  out_destruct : V -> Z -> V;
  out_hook_alloc : V -> Z -> V;
  out_hook_free : V -> Z -> V;
  out_init : V -> V * bool;
  out_checknull : V -> result V;
  out_nofail : V -> V * option Z;
  out_reclaim : V -> V;
  out_shell_reap : V -> nat -> V;
  out_shell_alloc : V -> nat -> V * option umem_magazine;
  out_shell_free : V -> umem_magazine -> V;
  out_getcpu : V -> V * Z;
  out_trylock : V -> V * bool;
  out_shell_new v t mp : (t < length umem_magtype)%nat -> (out_shell_alloc v t).2 = Some mp ->
    mag_source mp = t /\ Z.of_nat (length (mag_round mp)) = magsize_of t;
  out_cpu v : 0 <= (out_getcpu v).2;
}.

Section compose.
Context {W V : Type} {senv : slab_env W} {f : slab_cfg} {src : slab_source W f} {outer : mag_outer V}.

(** The environment of the magazine layer of a cache: the arena, the cache's
    slab layer and the rest. *)
Definition below : Type := W * cache * V.
Definition on_outer (w : below) (v : V) : below := (w.1, v).

#[export] Instance below_env : mag_env below := {|
  env_slab_take w umflag :=
    do (a, c, p) <- umem_slab_alloc w.1.1 w.1.2 umflag; Ok ((a, c, w.2), p);
  env_slab_give w buf :=
    do (a, c) <- umem_slab_free w.1.1 w.1.2 buf; Ok (a, c, w.2);
  env_construct w b := let '(v, bad) := out_construct w.2 b in (on_outer w v, bad);
  env_destruct w b := on_outer w (out_destruct w.2 b);
  env_alloc_debug w b := Panic "no buftags";
  env_free_debug w b := Panic "no buftags";
  env_verify w b := true;
  env_report w e b := do a <- env_error w.1.1 e b; Ok (a, w.1.2, w.2);
  env_hook_alloc w b := on_outer w (out_hook_alloc w.2 b);
  env_hook_free w b := on_outer w (out_hook_free w.2 b);
  env_init w := let '(v, r) := out_init w.2 in (on_outer w v, r);
  env_checknull w := do v <- out_checknull w.2; Ok (on_outer w v);
  env_nofail w := let '(v, r) := out_nofail w.2 in (on_outer w v, r);
  env_reclaim w := on_outer w (out_reclaim w.2);
  env_shell_reap w t := on_outer w (out_shell_reap w.2 t);
  env_shell_alloc w t := let '(v, mp) := out_shell_alloc w.2 t in (on_outer w v, mp);
  env_shell_free w mp := on_outer w (out_shell_free w.2 mp);
  env_getcpu w := let '(v, cpu) := out_getcpu w.2 in (on_outer w v, cpu);
  env_trylock w := let '(v, got) := out_trylock w.2 in (on_outer w v, got);
|}.

(** The slab layer is well formed and exactly [A] is allocated from it. *)
Definition slab_out (q : Z) (w : below) (A : list Z) : Prop :=
  NoDup A /\ (0 ∉ A) /\ exists F, layer (f := f) q w.1.1 w.1.2 F /\ forall x, x ∈ A <-> allocated w.1.2 F x.

Lemma slab_out_outer q w A v : slab_out q w A -> slab_out q (on_outer w v) A.
Proof using Type. done. Qed.

Lemma slab_out_take q w A umflag :
  slab_out q w A ->
  exists w' b, env_slab_take w umflag = Ok (w', b) /\
    ((b = 0 /\ slab_out q w' A) \/ (b <> 0 /\ slab_out q w' (b :: A))).
Proof using Type.
  destruct w as [[a c] v]. intros (Hn & Hz & F & Hl & HA). cbn [fst snd] in *.
  destruct (layer_alloc q a c F umflag Hl) as (a' & c' & p & F' & E & Hl' & Hp).
  exists (a', c', v), p. cbn [env_slab_take below_env fst snd]. rewrite E. split; [done|].
  destruct Hp as [[-> Hx]|(Hp & Hnew & Hx)]; [left|right]; (split; [done|]).
  - do 2 (split; [done|]). exists F'. split; [done|]. intros x. by rewrite HA, <- Hx.
  - split; [constructor; [by rewrite HA|done]|]. split; [set_solver|].
    exists F'. split; [done|]. intros x. rewrite elem_of_cons, HA. cbn [fst snd]. rewrite Hx. tauto.
Qed.

Lemma slab_out_give q w A b :
  slab_out q w (b :: A) -> exists w', env_slab_give w b = Ok w' /\ slab_out q w' A.
Proof using Type.
  destruct w as [[a c] v]. intros (Hn & Hz & F & Hl & HA). cbn [fst snd] in *.
  assert (Hb : allocated c F b) by (apply HA; left).
  destruct (layer_free q a c F b Hl Hb) as (a' & c' & F' & E & Hl' & Hx).
  exists (a', c', v). cbn [env_slab_give below_env fst snd]. rewrite E. split; [done|].
  apply NoDup_cons in Hn as [Hb' Hn]. split; [done|]. split; [set_solver|].
  exists F'. split; [done|]. intros x. cbn [fst snd]. rewrite Hx, <- HA, elem_of_cons.
  split; [|tauto]. intros Hin. split; [by right|]. by intros ->.
Qed.

#[export] Instance below_laws (q : Z) : mag_source_laws below (slab_out q).
Proof using Type.
  split.
  - intros w A B E (Hn & Hz & F & Hl & HA). split; [by rewrite <- E|]. split; [by rewrite <- E|].
    exists F. split; [done|]. intros x. by rewrite <- E.
  - by intros w A (? & _).
  - by intros w A (_ & ? & _).
  - intros. by apply slab_out_take.
  - intros. by apply slab_out_give.
  - intros w A b H. simpl. destruct (out_construct _ _). by apply slab_out_outer.
  - intros. by apply slab_out_outer.
  - intros. by apply slab_out_outer.
  - intros. by apply slab_out_outer.
  - intros w A H. simpl. destruct (out_nofail _). by apply slab_out_outer.
  - intros. by apply slab_out_outer.
  - intros. by apply slab_out_outer.
  - intros. by apply slab_out_outer.
  - intros w A t _ H. simpl. destruct (out_shell_alloc _ _). by apply slab_out_outer.
  - intros w t mp Ht. simpl. pose proof (out_shell_new w.2 t mp Ht) as H. by destruct (out_shell_alloc _ _).
  - intros w A H. simpl. destruct (out_getcpu _). by apply slab_out_outer.
  - intros w. simpl. pose proof (out_cpu w.2) as H. by destruct (out_getcpu _).
  - intros w A H. simpl. destruct (out_trylock _). by apply slab_out_outer.
Qed.
(** C8: The slab layer is a source for the magazine layer: with it below, and any
    client callbacks, magazine caches and scheduler beside it, every law the
    magazine layer relies on holds, where the allocated objects are exactly the
    buffers the slab layer has out.  The theorems about magazines therefore
    hold of the two layers put together. *)
Theorem slab_layer_serves (q : Z) : mag_source_laws below (slab_out q).
Proof using Type. apply below_laws. Qed.
End compose.

(** ** A concrete environment *)

(** One CPU number for ever, locks that are free, shells at successive pages,
    a log of the destructor's calls. *)
Record demo_outer := DemoOuter { do_cpu : Z; do_shell : Z; do_log : list Z }.
#[export] Instance demo_mag_outer : mag_outer demo_outer.
Proof.
  refine {|
    out_construct v b := (v, false);
    out_destruct v b := DemoOuter (do_cpu v) (do_shell v) (b :: do_log v);
    out_hook_alloc v b := v; out_hook_free v b := v;
    out_init v := (v, false); out_checknull v := Ok v; out_nofail v := (v, None);
    out_reclaim v := v; out_shell_reap v t := v;
    out_shell_alloc v t := (DemoOuter (do_cpu v) (do_shell v + 4096) (do_log v),
      Some (Mag (do_shell v) t (replicate (Z.to_nat (magsize_of t)) 7)));
    out_shell_free v mp := v;
    out_getcpu v := (v, Z.abs (do_cpu v)); out_trylock v := (v, true) |}.
  - intros v t mp Ht [= <-]. simpl. rewrite length_replicate. pose proof (magsize_pos t Ht). lia.
  - intros v. simpl. lia.
Defined.

Definition demo_below : below := ((4096 : Z, demo_cache 0), DemoOuter 1 0x200000 []).
Definition demo_mcfg : mag_cfg := MagCfg 0 0x5a5a5a5a5a5a5a5a 1 false (fun _ => 0) false true 512 4.
Definition demo_cpu : umem_cpu_cache := CpuCache (-1) (-1) None None 3 0 0 0.
Definition no_mags : umem_maglist := MagList [] 0 0 0 0.
Definition demo_mags : mags :=
  Mags demo_mcfg [demo_cpu; demo_cpu] no_mags no_mags [no_mags; no_mags] [no_mags; no_mags] 1 (-1)
    (MagStats 0 0 0 0 0 0 0).
Abbreviation demo_ok := (slab_out (f := demo_scfg 0) (V := demo_outer) 12).

Lemma demo_slab_out : demo_ok demo_below [].
Proof.
  split; [constructor|]. split; [set_solver|]. exists ∅. split; [apply demo_layer|].
  intros x. split; [by intros ?%elem_of_nil|]. intros (sp & s & fl & HF & _). by rewrite lookup_empty in HF.
Qed.

Lemma demo_magazines : magazines demo_ok demo_below demo_mags [].
Proof.
  assert (Hml : ml_ok no_mags) by (split; [constructor|done]).
  assert (Hc : cpu_ok 1 demo_cpu) by (split; simpl; auto).
  split; [|split; [by split; [|repeat constructor]|exact demo_slab_out]].
  split; simpl; try done; try lia; by repeat constructor.
Qed.

(** ** Allocation and free *)

Section claims.
Context {W : Type} {env : mag_env W} (ok : W -> list Z -> Prop) {laws : mag_source_laws W ok}.

(** C3: An allocation that may fail ends, on the first pass: it returns NULL and
    the clients hold what they held, or an object that was in no magazine and
    with no client, and the slab layer's allocated objects are still exactly
    those in magazines and those with clients.  No assertion of the magazine
    exchange fires and no slot outside a magazine is read, whatever the state of
    the CPU's magazines and of the depot (magazines left over from a resize
    included). *)
Theorem mag_alloc_conserves (fuel : nat) (umf umflag : Z) (w : W) (s : mags) (out : list Z) :
  magazines ok w s out -> mc_null (mcfg s) = false -> has umf UMF_CHECKNULL = false ->
  has umflag UMEM_NOFAIL = false ->
  exists w' s' b, _umem_cache_alloc (S fuel) umf w s umflag = Ok (w', s', b) /\
    ((b = 0 /\ magazines ok w' s' out) \/
     (b <> 0 /\ (b ∉ out) /\ (b ∉ held s') /\ magazines ok w' s' (b :: out))).
Proof.
  intros Hm Hnull Hchk Hnf. pose proof (alloc_cases ok (S fuel) umf w s umflag out Hnull Hchk Hm) as H.
  destruct (_umem_cache_alloc (S fuel) umf w s umflag) as [[[w' s'] b]|]; simpl in H; [|destruct H; congruence].
  exists w', s', b. split; [done|]. destruct H as [_ [(-> & _ & H)|[Hb H]]]; [by left|right].
  destruct (magazines_fresh ok _ _ _ _ H) as (H1 & H2 & _). auto.
Qed.

(** A request with UMEM_NOFAIL never returns NULL: it returns a fresh object,
    after as many retries as the nofail callback asks for, or the process
    exits. *)
Theorem nofail_never_null (fuel : nat) (umf umflag : Z) (w w' : W) (s s' : mags) (b : Z) (out : list Z) :
  magazines ok w s out -> mc_null (mcfg s) = false -> has umf UMF_CHECKNULL = false ->
  has umflag UMEM_NOFAIL = true -> _umem_cache_alloc fuel umf w s umflag = Ok (w', s', b) ->
  b <> 0 /\ (b ∉ out) /\ magazines ok w' s' (b :: out).
Proof.
  intros Hm Hnull Hchk Hnf E. pose proof (alloc_cases ok fuel umf w s umflag out Hnull Hchk Hm) as H.
  rewrite E in H. destruct H as [_ [(_ & H & _)|[Hb H]]]; [congruence|].
  destruct (magazines_fresh ok _ _ _ _ H) as (H1 & _ & _). auto.
Qed.

(** C4: Freeing an object a client holds ends, within four turns of the loop: the
    object is in a magazine or back in the slab layer, the client no longer
    holds it, and nothing else moved out of reach. *)
Theorem mag_free_conserves (w : W) (s : mags) (b : Z) (out : list Z) :
  magazines ok w s (b :: out) ->
  exists w' s', _umem_cache_free w s b = Ok (w', s') /\ magazines ok w' s' out.
Proof. intros Hm. destruct (free_run ok w s b out Hm) as (w' & s' & E & H & _). by exists w', s'. Qed.

(** The batch forms do what as many single calls would: a batch of [count]
    gives at most [count] different objects, none held by a client before, and
    freeing a batch takes back all of it. *)
Theorem mag_batch_conserves (w : W) (s : mags) (count umflag : Z) (out : list Z) :
  magazines ok w s out ->
  exists w1 s1 bufs, umem_cache_alloc_batch w s count umflag = Ok (w1, s1, bufs) /\
    Z.of_nat (length bufs) <= Z.max 0 count /\ NoDup (bufs ++ out) /\ magazines ok w1 s1 (bufs ++ out) /\
    exists w2 s2, umem_cache_free_batch w1 s1 bufs = Ok (w2, s2, Z.of_nat (length bufs)) /\ magazines ok w2 s2 out.
Proof.
  intros Hm. destruct (alloc_batch_run w s count umflag out Hm) as (w1 & s1 & bufs & E & Hl & Hm1).
  exists w1, s1, bufs. do 2 (split; [done|]). split; [|split; [done|]].
  - destruct Hm1 as (_ & _ & H%ms_nodup). by apply NoDup_app in H as (_ & _ & ?).
  - destruct (free_batch_run w1 s1 bufs out) as (w2 & s2 & ? & ? & _); [done|by eauto].
Qed.

(** A magazine a per-thread cache hands back is never discarded with objects
    in it, by the blocking and by the non-blocking return: whether it is full,
    partial, empty or of a type the cache has since left, the objects its count
    names (at most its own capacity) stop being the thread's and are again in
    magazines or in the slab layer. *)
Theorem ptc_return_conserves (w : W) (s : mags) (k : mlkind) (mp : umem_magazine) (rounds : Z) (out : list Z) :
  mag_ok mp -> magazines ok w s (contents (mc_cookie (mcfg s)) mp (counted mp rounds) ++ out) ->
  (exists w' s', umem_ptc_mag_return w s k mp rounds = Ok (w', s') /\ magazines ok w' s' out) /\
  (exists w' s', umem_ptc_mag_return_trylock w s k mp rounds = Ok (w', s') /\ magazines ok w' s' out).
Proof.
  intros Hmp Hm. split.
  - destruct (ptc_return_run umem_depot_free w s k mp rounds out) as (w' & s' & ? & ? & _); [apply depot_free_push|done..|by eauto].
  - destruct (ptc_return_run umem_depot_free_trylock w s k mp rounds out) as (w' & s' & ? & ? & _);
      [apply depot_free_trylock_push|done..|by eauto].
Qed.

(** C23: In a cache without buftags in which no magazine's objects are hidden
    by the mangling (each magazine with objects has a stored word that is not
    zero, [all_visible]; [masked_object_skipped] shows what happens otherwise), a
    purge empties every magazine: no CPU has one, the depot's lists are empty,
    and the objects allocated from the slab layer are exactly those the clients
    hold. *)
Theorem purge_returns_all (w : W) (s : mags) (out : list Z) :
  magazines ok w s out -> all_visible s ->
  exists w' s', umem_cache_magazine_purge w s = Ok (w', s') /\ mags_ok s' /\ held s' = [] /\ ok w' out /\
    Forall cleared (cache_cpu s') /\ forall k i, ml_index s' i -> ml_list (get_ml s' k i) = [].
Proof.
  intros Hm Hv. destruct (purge_run w s out Hm Hv) as (w' & s' & E & (H1 & H2 & H3) & _ & _ & H4 & H5 & H6).
  exists w', s'. rewrite H6 in H3. auto 10.
Qed.

(** A resize keeps the magazine layer consistent and loses nothing: it leaves
    the magazine type alone or moves to the next one with every magazine purged
    and every CPU set to the new size. *)
Theorem resize_conserves (w : W) (s : mags) (out : list Z) :
  magazines ok w s out -> all_visible s ->
  exists w' s', umem_cache_magazine_resize w s = Ok (w', s') /\ magazines ok w' s' out /\
    (cache_magtype s' = cache_magtype s \/
     cache_magtype s' = S (cache_magtype s) /\ held s' = [] /\
     (has (mc_flags (mcfg s)) UMF_NOMAGAZINE = false ->
      Forall (fun c => cc_magsize c = magsize_of (cache_magtype s')) (cache_cpu s'))).
Proof. apply resize_run. Qed.
End claims.

(** ** Witnesses *)

(** The cache after one allocation: environment, magazines, object. *)
Definition demo_got : below * mags * Z :=
  match _umem_cache_alloc 1 0 demo_below demo_mags 0 with
  | Ok r => r | Panic _ => (demo_below, demo_mags, 0) end.

Lemma demo_got_magazines : magazines demo_ok demo_got.1.1 demo_got.1.2 [demo_got.2].
Proof.
  assert (Hb : demo_got.2 <> 0) by (by vm_compute).
  pose proof (alloc_cases demo_ok 1 0 demo_below demo_mags 0 [] eq_refl eq_refl demo_magazines) as H.
  assert (E : _umem_cache_alloc 1 0 demo_below demo_mags 0 = Ok demo_got) by (vm_compute; reflexivity).
  rewrite E in H. destruct demo_got as [[w s] b]. cbn [fst snd alloc_outcome] in *.
  destruct H as [_ [(H0 & _)|[_ H]]]; [destruct (Hb H0)|exact H].
Qed.

Lemma slab_layer_serves_witness :
  mag_source_laws (below (W := Z) (V := demo_outer)) demo_ok /\ demo_ok demo_below [].
Proof. split; [exact (slab_layer_serves 12)|exact demo_slab_out]. Defined.

Lemma mag_alloc_conserves_witness :
  (exists w' s' b, _umem_cache_alloc 1 0 demo_below demo_mags 0 = Ok (w', s', b) /\
    ((b = 0 /\ magazines demo_ok w' s' []) \/
     (b <> 0 /\ (b ∉ []) /\ (b ∉ held s') /\ magazines demo_ok w' s' [b]))) /\ demo_got.2 = 0x1c00.
Proof.
  split; [|vm_compute; reflexivity].
  exact (mag_alloc_conserves demo_ok 0 0 0 demo_below demo_mags [] demo_magazines eq_refl eq_refl eq_refl).
Defined.

Lemma nofail_never_null_witness :
  exists w' s', _umem_cache_alloc 2 0 demo_below demo_mags UMEM_NOFAIL = Ok (w', s', 0x1c00) /\
    0x1c00 <> 0 /\ (0x1c00 ∉ []) /\ magazines demo_ok w' s' [0x1c00].
Proof.
  destruct (_umem_cache_alloc 2 0 demo_below demo_mags UMEM_NOFAIL) as [[[w' s'] b]|why] eqn:E.
  - assert (Hb : b = 0x1c00).
    { enough (H : match _umem_cache_alloc 2 0 demo_below demo_mags UMEM_NOFAIL with Ok r => r.2 | _ => 0 end = 0x1c00)
        by (rewrite E in H; exact H). vm_compute. reflexivity. }
    subst b. exists w', s'. split; [reflexivity|].
    exact (nofail_never_null demo_ok 2 0 UMEM_NOFAIL demo_below w' demo_mags s' _ [] demo_magazines eq_refl eq_refl eq_refl E).
  - exfalso. enough (H : match _umem_cache_alloc 2 0 demo_below demo_mags UMEM_NOFAIL with Ok _ => True | _ => False end)
      by (rewrite E in H; exact H). vm_compute. exact I.
Defined.

(** The freed object is the one round of CPU 1's new magazine. *)
Lemma mag_free_conserves_witness :
  (exists w' s', _umem_cache_free demo_got.1.1 demo_got.1.2 demo_got.2 = Ok (w', s') /\ magazines demo_ok w' s' []) /\
  match _umem_cache_free demo_got.1.1 demo_got.1.2 demo_got.2 with
  | Ok (_, s') => held s' | Panic _ => [] end = [0x1c00].
Proof.
  split; [|vm_compute; reflexivity].
  exact (mag_free_conserves demo_ok demo_got.1.1 demo_got.1.2 demo_got.2 [] demo_got_magazines).
Defined.

Lemma mag_batch_conserves_witness :
  (exists w1 s1 bufs, umem_cache_alloc_batch demo_below demo_mags 9 0 = Ok (w1, s1, bufs) /\
    Z.of_nat (length bufs) <= Z.max 0 9 /\ NoDup (bufs ++ []) /\ magazines demo_ok w1 s1 (bufs ++ []) /\
    exists w2 s2, umem_cache_free_batch w1 s1 bufs = Ok (w2, s2, Z.of_nat (length bufs)) /\ magazines demo_ok w2 s2 []) /\
  match umem_cache_alloc_batch demo_below demo_mags 9 0 with
  | Ok (_, _, bufs) => length bufs | Panic _ => 0%nat end = 9%nat.
Proof.
  split; [|vm_compute; reflexivity].
  exact (mag_batch_conserves demo_ok demo_below demo_mags 9 0 [] demo_magazines).
Defined.

(** A shell of three rounds of which the first is the object. *)
Definition demo_ptc : umem_magazine :=
  round_put 0x5a5a5a5a5a5a5a5a (Mag 0x300000 1 (replicate 3 0)) 0 demo_got.2.

Lemma demo_ptc_ok : mag_ok demo_ptc.
Proof. split; vm_compute; [lia|reflexivity]. Qed.

Lemma ptc_return_conserves_witness :
  (exists w' s', umem_ptc_mag_return demo_got.1.1 demo_got.1.2 MLFull demo_ptc 1 = Ok (w', s') /\
     magazines demo_ok w' s' []) /\
  (exists w' s', umem_ptc_mag_return_trylock demo_got.1.1 demo_got.1.2 MLFull demo_ptc 1 = Ok (w', s') /\
     magazines demo_ok w' s' []).
Proof.
  apply (ptc_return_conserves demo_ok demo_got.1.1 demo_got.1.2 MLFull demo_ptc 1 []); [exact demo_ptc_ok|].
  assert (E : contents (mc_cookie (mcfg demo_got.1.2)) demo_ptc (counted demo_ptc 1) ++ [] = [demo_got.2])
    by (vm_compute; reflexivity).
  rewrite E. exact demo_got_magazines.
Defined.

(** The magazines after the object was freed: CPU 1 has one with one round. *)
Definition demo_back : below * mags :=
  match _umem_cache_free demo_got.1.1 demo_got.1.2 demo_got.2 with
  | Ok r => r | Panic _ => (demo_below, demo_mags) end.

Lemma demo_back_magazines : magazines demo_ok demo_back.1 demo_back.2 [].
Proof.
  destruct (free_run demo_ok demo_got.1.1 demo_got.1.2 demo_got.2 [] demo_got_magazines) as (w' & s' & E & H & _).
  unfold demo_back. rewrite E. exact H.
Qed.

Lemma demo_back_visible : all_visible demo_back.2.
Proof.
  split.
  - apply Forall_forall. intros c Hc. split.
    + revert c Hc. apply Forall_forall. vm_compute. constructor; [exact I|]. constructor; [right; reflexivity|constructor].
    + revert c Hc. apply Forall_forall. vm_compute. constructor; [exact I|]. constructor; [exact I|constructor].
  - intros i mp _ Hin. exfalso. revert Hin. destruct i as [[|[|i]]|]; vm_compute; intros Hin; inversion Hin.
Qed.

Lemma purge_returns_all_witness :
  exists w' s', umem_cache_magazine_purge demo_back.1 demo_back.2 = Ok (w', s') /\ mags_ok s' /\ held s' = [] /\
    demo_ok w' [] /\ Forall cleared (cache_cpu s') /\ forall k i, ml_index s' i -> ml_list (get_ml s' k i) = [].
Proof. exact (purge_returns_all demo_ok demo_back.1 demo_back.2 [] demo_back_magazines demo_back_visible). Defined.

Lemma resize_conserves_witness :
  (exists w' s', umem_cache_magazine_resize demo_back.1 demo_back.2 = Ok (w', s') /\ magazines demo_ok w' s' [] /\
    (cache_magtype s' = cache_magtype demo_back.2 \/
     cache_magtype s' = S (cache_magtype demo_back.2) /\ held s' = [] /\
     (has (mc_flags (mcfg demo_back.2)) UMF_NOMAGAZINE = false ->
      Forall (fun c => cc_magsize c = magsize_of (cache_magtype s')) (cache_cpu s')))) /\
  match umem_cache_magazine_resize demo_back.1 demo_back.2 with
  | Ok (w', s') => (cache_magtype s', cc_magsize <$> cache_cpu s', do_log w'.2)
  | Panic _ => (0%nat, [], []) end = (2%nat, [7; 7], [0x1c00]).
Proof.
  split; [|vm_compute; reflexivity].
  exact (resize_conserves demo_ok demo_back.1 demo_back.2 [] demo_back_magazines demo_back_visible).
Defined.

(** ** Destructors *)

Section destructors.
Context {W : Type} {senv : slab_env W} {f : slab_cfg} {src : slab_source W f}.
Abbreviation logged := (below (W := W) (V := demo_outer)).

(** Every round destroyed with its magazine was destructed first. *)
Lemma destroy_rounds_log q n r (w : logged) s mp Y :
  has (mc_flags (mcfg s)) UMF_BUFTAG = false -> mc_dtor (mcfg s) = true -> (r + n <= length (mag_round mp))%nat ->
  slab_out (f := f) q w ((demangled (mc_cookie (mcfg s)) mp <$> seq r n) ++ Y) ->
  exists w', destroy_rounds n r w s mp = Ok w' /\ slab_out (f := f) q w' Y /\
    do_log w'.2 = reverse (demangled (mc_cookie (mcfg s)) mp <$> seq r n) ++ do_log w.2.
Proof using Type.
  intros Hf Hd. revert r w. induction n as [|n IH]; intros r w Hr Hok; cbn [destroy_rounds]; [by exists w|].
  unfold round_load. rewrite (proj2 (Nat.ltb_lt _ _)) by lia. cbn [res_bind].
  rewrite has_deadbeef by done. cbn [andb]. unfold destruct_give. rewrite Hf, Hd. cbn [negb andb].
  rewrite <- cons_seq in *. rewrite fmap_cons in *. set (b := demangled _ _ r) in *.
  apply (slab_out_outer q w _ (out_destruct w.2 b)) in Hok.
  destruct (slab_out_give (f := f) q (on_outer w (out_destruct w.2 b)) _ b Hok) as (w1 & E1 & Hok1).
  change (env_destruct w b) with (on_outer w (out_destruct w.2 b)). rewrite E1. cbn [res_bind].
  assert (El : do_log w1.2 = b :: do_log w.2).
  { cbn [env_slab_give below_env] in E1. destruct (umem_slab_free _ _ _) as [[a' c']|]; [|done].
    injection E1 as <-. done. }
  destruct (IH (S r) w1) as (w' & E & H1 & H2); [lia|exact Hok1|].
  exists w'. split; [exact E|]. split; [exact H1|]. rewrite H2, El, reverse_cons, <- app_assoc. done.
Qed.

(** Which destructor calls a magazine's end makes depends on how it ends: a
    full magazine that [umem_magazine_destroy] takes apart has the destructor
    run on each of its objects before the slab layer gets it; the same magazine,
    once a resize has made it stale, is taken apart by
    [umem_depot_destroy_stale], which gives the constructed objects to the slab
    layer with no destructor call at all. *)
Theorem stale_skips_destructor (q : Z) (w : logged) (s : mags) (mp : umem_magazine) (Y : list Z) :
  has (mc_flags (mcfg s)) UMF_BUFTAG = false -> mc_dtor (mcfg s) = true -> mag_ok mp ->
  visible mp (umem_mag_capacity mp) -> slab_out (f := f) q w (full_of (mc_cookie (mcfg s)) mp ++ Y) ->
  (exists w1 s1, umem_magazine_destroy w s mp (umem_mag_capacity mp) = Ok (w1, s1) /\ slab_out (f := f) q w1 Y /\
     do_log w1.2 = reverse (full_of (mc_cookie (mcfg s)) mp) ++ do_log w.2) /\
  (exists w2 s2, umem_depot_destroy_stale w s true mp = Ok (w2, s2) /\ slab_out (f := f) q w2 Y /\
     do_log w2.2 = do_log w.2).
Proof using Type.
  intros Hf Hd Hmp Hv Hok. rewrite full_of_seq in * by done. split.
  - unfold umem_magazine_destroy. rewrite capacity_length in * by done. rewrite Nat2Z.id.
    replace ((0 <? _) && negb _) with false.
    2:{ symmetry. destruct Hv as [?| ->]; [by rewrite (proj2 (Z.ltb_ge _ _))|by rewrite andb_false_r]. }
    destruct (destroy_rounds_log q (length (mag_round mp)) 0 w s mp Y Hf Hd) as (w1 & E & H1 & H2); [lia|done|].
    rewrite E. cbn [res_bind]. eexists _, _. split; [reflexivity|]. by split.
  - unfold umem_depot_destroy_stale. rewrite capacity_length, Nat2Z.id by done.
    destruct (drain_run (fun (w1 : logged) s1 Y1 => s1 = s /\ slab_out (f := f) q w1 Y1 /\ do_log w1.2 = do_log w.2) slab_give)
      with (n := length (mag_round mp)) (r := 0%nat) (w := w) (s := s) (mp := mp) (Y := Y)
      as (w1 & s1 & mp1 & E & (-> & H1 & H2) & _).
    + intros ??? (_ & H & _). apply H.
    + intros w1 s1 b Y1 (-> & H & Hl) _. destruct (slab_out_give (f := f) q w1 Y1 b H) as (w2 & E2 & H2).
      exists w2, s. unfold slab_give. rewrite E2. cbn [res_bind]. split; [done|]. split; [|done].
      do 2 (split; [done|]). cbn [env_slab_give below_env] in E2.
      destruct (umem_slab_free _ _ _) as [[a' c']|]; [|done]. injection E2 as <-. done.
    + done.
    + lia.
    + done.
    + rewrite E. cbn [res_bind]. eexists _, _. split; [reflexivity|]. by split.
Qed.
End destructors.

(** A shell of one round that holds the object. *)
Definition demo_one : umem_magazine := round_put 0x5a5a5a5a5a5a5a5a (Mag 0x300000 0 [0]) 0 demo_got.2.

Lemma stale_skips_destructor_witness :
  (exists w1 s1, umem_magazine_destroy demo_got.1.1 demo_mags demo_one (umem_mag_capacity demo_one) = Ok (w1, s1) /\
     demo_ok w1 [] /\
     do_log w1.2 = reverse (full_of (mc_cookie (mcfg demo_mags)) demo_one) ++ do_log demo_got.1.1.2) /\
  (exists w2 s2, umem_depot_destroy_stale demo_got.1.1 demo_mags true demo_one = Ok (w2, s2) /\ demo_ok w2 [] /\
     do_log w2.2 = do_log demo_got.1.1.2) /\
  full_of (mc_cookie (mcfg demo_mags)) demo_one = [0x1c00].
Proof.
  assert (E : full_of (mc_cookie (mcfg demo_mags)) demo_one = [demo_got.2]) by (vm_compute; reflexivity).
  destruct (stale_skips_destructor (f := demo_scfg 0) 12 demo_got.1.1 demo_mags demo_one []) as [H1 H2].
  - reflexivity.
  - reflexivity.
  - split; vm_compute; [lia|reflexivity].
  - right. vm_compute. reflexivity.
  - rewrite E. destruct demo_got_magazines as (_ & _ & H).
    replace (held demo_got.1.2) with (@nil Z) in H by (vm_compute; reflexivity). exact H.
  - split; [exact H1|]. split; [exact H2|]. vm_compute. reflexivity.
Defined.

(** The scan that [umem_magazine_destroy] starts with is not exact: an object
    that equals the mask of its slot is stored as zero, and the magazine is freed
    with the object in it. *)
Theorem masked_object_skipped {W} {env : mag_env W} (w : W) (s : mags) (addr : Z) :
  let ck := mc_cookie (mcfg s) in
  let mp := Mag addr 0 [0] in
  let buf := Z.lxor ck (Z.shiftr (slot_addr mp 0) 12) in
  round_store ck mp 0 buf = Ok mp /\ contents ck mp 1 = [buf] /\
  umem_magazine_destroy w s mp 1 = Ok (env_shell_free w mp, add_mag_total (-1) s).
Proof.
  intros ck mp buf. split; [|split; [|reflexivity]].
  - unfold round_store, round_put, buf, UMEM_SLOT_MANGLE. simpl. unfold mp at 2. f_equal. f_equal. f_equal.
    set (k := Z.shiftr _ _). rewrite (Z.lxor_comm (Z.lxor ck k) ck), <- Z.lxor_assoc, Z.lxor_nilpotent, Z.lxor_0_l.
    apply Z.lxor_nilpotent.
  - unfold contents, demangled, UMEM_SLOT_MANGLE. simpl. by rewrite Z.lxor_0_l.
Qed.
