(* ===== verification/UpdateModel.v ===== *)
(** * The update list: model

    Asynchronous requests for maintenance work on caches (umem.c section 4):
    [umem_add_update], [umem_updateall], [umem_remove_updates],
    [umem_process_updates] and the reset of this state in the child of a fork
    (umem_fork.c), as a step relation.  The update list, linked through
    [cache_unext] and [cache_uprev] and rooted at the null cache, is the list of
    its caches: [cache_unext != NULL] is membership.

    All of the state is protected by [umem_update_lock].  The worker (the update
    thread, or the thread in [umem_st_update]) holds the lock except while it
    works on a cache, so the steps of other threads are taken when the worker is
    idle or in the middle of work. *)
From S2P Require Import Prelude Machine SlabModel.

Definition UMU_MAGAZINE_RESIZE : Z := 0x1.
Definition UMU_HASH_RESCALE : Z := 0x2.
Definition UMU_REAP : Z := 0x4.
Definition UMU_NOTIFY : Z := 0x08000000.
Definition UMU_ACTIVE : Z := 0x80000000.

Inductive work : Type := DoRescale | DoResize | DoReap.
#[export] Instance work_eq_dec : EqDecision work.
Proof. solve_decision. Defined.

(** Where [umem_process_updates] is. *)
Inductive wstate : Type :=
| WIdle                                              (* not running; the lock is free *)
| WHead                                              (* at the outer loop, lock held *)
| WCheck (cp : Z) (notify : bool)                    (* at the inner loop, lock held *)
| WRun (cp uflags : Z) (todo : list work) (notify : bool).  (* working; the lock is free *)

Record upd := Upd {
  uflags : gmap Z Z;            (* cache_uflags *)
  ulist : list Z;               (* the update list *)
  worker : wstate;
  waits : gmap Z bool;          (* threads in cond_wait for a cache; true: woken *)
}.

Definition uf (st : upd) (cp : Z) : Z := default 0 (uflags st !! cp).
Definition set_uf (cp f : Z) (st : upd) : upd := Upd (<[cp := f]> (uflags st)) (ulist st) (worker st) (waits st).
Definition set_ulist l (st : upd) : upd := Upd (uflags st) l (worker st) (waits st).
Definition set_worker w (st : upd) : upd := Upd (uflags st) (ulist st) w (waits st).
Definition set_waits w (st : upd) : upd := Upd (uflags st) (ulist st) (worker st) w.

Definition lock_free (st : upd) : bool :=
  match worker st with WIdle | WRun _ _ _ _ => true | _ => false end.

(** [cond_broadcast (&umem_update_cv)]. *)
Definition broadcast (st : upd) : upd := set_waits ((fun _ => true) <$> waits st) st.

Definition umem_add_update_unlocked (st : upd) (cp flags : Z) : result upd :=
  let flags := Z.land flags (Z.lnot UMU_ACTIVE) in
  if flags =? 0 then Ok st
  else if has (uf st cp) UMU_ACTIVE then Ok (set_uf cp (Z.lor (uf st cp) flags) st)
  else if decide (cp ∈ ulist st) then
    if uf st cp =? 0 then Panic "umem_add_update: cache_uflags != 0"
    else Ok (set_uf cp (Z.lor (uf st cp) flags) st)
  else if uf st cp =? 0 then Ok (set_ulist (ulist st ++ [cp]) (set_uf cp flags st))
  else Panic "umem_add_update: cache_uflags == 0".

Definition umem_add_update (in_update : bool) (st : upd) (cp flags : Z) : result upd :=
  do st <- umem_add_update_unlocked st cp flags;
  Ok (if in_update then st else broadcast st).

Fixpoint add_all (caches : list Z) (st : upd) (flags : Z) : result upd :=
  match caches with
  | [] => Ok st
  | cp :: caches => do st <- umem_add_update_unlocked st cp flags; add_all caches st flags
  end.
Definition umem_updateall (in_update : bool) (caches : list Z) (st : upd) (flags : Z) : result upd :=
  do st <- add_all caches st flags;
  Ok (if in_update then st else broadcast st).

(** [umem_remove_updates] from the head of its loop: [false] when it goes to
    sleep until the worker is done with the cache, [true] when it returns;
    [in_update] says whether the caller is the worker.  A worker that is not idle
    is the thread in [umem_update_thr] or in [umem_st_update_thr], so that the
    first assertion before the sleep is made in the stronger form that there is
    a worker at work. *)
Definition umem_remove_updates (in_update : bool) (st : upd) (cp : Z) : result (upd * bool) :=
  if has (uf st cp) UMU_ACTIVE then
    if decide (cp ∈ ulist st) then Panic "umem_remove_updates: cache_unext == NULL"
    else
      let st := set_uf cp (Z.lor (uf st cp) UMU_NOTIFY) st in
      match worker st with
      | WIdle => Panic "umem_remove_updates: umem_update_thr != 0 || umem_st_update_thr != 0"
      | _ =>
          if in_update then Panic "umem_remove_updates: called by the worker"
          else Ok (set_waits (<[cp := false]> (waits st)) st, false)
      end
  else
    let st := if decide (cp ∈ ulist st) then set_uf cp 0 (set_ulist (unlink cp (ulist st)) st) else st in
    if decide (cp ∈ ulist st) then Panic "umem_remove_updates: cache_unext == NULL"
    else if uf st cp =? 0 then Ok (set_waits (delete cp (waits st)) st, true)
    else Panic "umem_remove_updates: cache_uflags == 0".

(** The work of one pass, in the order of the code. *)
Definition works (f : Z) : list work :=
  (if has f UMU_HASH_RESCALE then [DoRescale] else []) ++
  (if has f UMU_MAGAZINE_RESIZE then [DoResize] else []) ++
  (if has f UMU_REAP then [DoReap] else []).

Inductive label : Type :=
| LStart | LDone
| LTake (cp : Z)
| LBegin (cp f : Z)             (* a pass over the cache for the flags [f] *)
| LWork (cp : Z) (w : work)
| LEnd (cp : Z)
| LFinish (cp : Z)
| LAdd (cp flags : Z)
| LAll (flags : Z)
| LRemoved (cp : Z)             (* umem_remove_updates returned *)
| LWait (cp : Z)
| LFork.

(** One step of [umem_process_updates]. *)
Definition process_step (st : upd) : option (result (label * upd)) :=
  match worker st with
  | WIdle => None
  | WHead =>
      match ulist st with
      | [] => Some (Ok (LDone, set_worker WIdle st))
      | cp :: rest =>
          Some (if has (uf st cp) UMU_ACTIVE then Panic "umem_process_updates: UMU_ACTIVE"
                else Ok (LTake cp, set_worker (WCheck cp false) (set_ulist rest st)))
      end
  | WCheck cp notify =>
      if uf st cp =? 0 then
        Some (Ok (LFinish cp, set_worker WHead (if notify then broadcast st else st)))
      else
        let f := Z.lor (uf st cp) UMU_ACTIVE in
        Some (Ok (LBegin cp f, set_worker (WRun cp f (works f) notify) (set_uf cp f st)))
  | WRun cp f (w :: todo) notify => Some (Ok (LWork cp w, set_worker (WRun cp f todo notify) st))
  | WRun cp f [] notify =>
      let '(f, notify) := if has (uf st cp) UMU_NOTIFY then (Z.lor f UMU_NOTIFY, true) else (f, notify) in
      Some (Ok (LEnd cp, set_worker (WCheck cp notify) (set_uf cp (Z.land (uf st cp) (Z.lnot f)) st)))
  end.

(** A run of [n] steps of [umem_process_updates] with no other thread in
    between. *)
Fixpoint process_iter (n : nat) (st : upd) : result (list label * upd) :=
  match n with
  | O => Ok ([], st)
  | S n =>
      match process_step st with
      | None => Ok ([], st)
      | Some r =>
          do (l, st) <- r;
          do (ls, st) <- process_iter n st;
          Ok (l :: ls, st)
      end
  end.
Definition umem_process_updates (n : nat) (st : upd) : result (list label * upd) :=
  process_iter n (set_worker WHead st).

(** The child of a fork: active caches go back to the list.  The code does this
    unless both [umem_update_thr] and [umem_st_update_thr] are the forking
    thread, that is, always. *)
Definition release_one (st : upd) (cp : Z) : result upd :=
  let st := if has (uf st cp) UMU_NOTIFY then set_uf cp (Z.land (uf st cp) (Z.lnot UMU_NOTIFY)) st else st in
  if has (uf st cp) UMU_ACTIVE then
    if decide (cp ∈ ulist st) then Panic "umem_do_release: cache_unext == NULL"
    else Ok (set_ulist (ulist st ++ [cp]) (set_uf cp (Z.land (uf st cp) (Z.lnot UMU_ACTIVE)) st))
  else Ok st.
Fixpoint release_all (caches : list Z) (st : upd) : result upd :=
  match caches with
  | [] => Ok st
  | cp :: caches => do st <- release_one st cp; release_all caches st
  end.
(** [by_worker]: the forking thread is the worker, as when a reclaim callback
    forks; it then carries on in the child.  Any other worker is gone. *)
Definition umem_do_release (by_worker : bool) (caches : list Z) (st : upd) : result upd :=
  do st <- release_all caches st;
  Ok (set_waits ∅ (if by_worker then st else set_worker WIdle st)).

(** The callers ask for these three kinds of work. *)
Definition work_flags (f : Z) : Prop :=
  Z.land f (Z.lor UMU_MAGAZINE_RESIZE (Z.lor UMU_HASH_RESCALE UMU_REAP)) = f.

(** The forks among the steps are those of threads other than the worker; what a
    fork by the worker does is shown apart, in [worker_fork_breaks]. *)
Section steps.
Context (caches : list Z).      (* the global list of caches *)

Inductive ustep : upd -> label -> upd -> Prop :=
| SProcess st l st' : process_step st = Some (Ok (l, st')) -> ustep st l st'
| SStart st : worker st = WIdle -> ustep st LStart (set_worker WHead st)
| SAdd st in_update cp flags st' :
    lock_free st = true -> work_flags flags -> cp ∈ caches ->
    umem_add_update in_update st cp flags = Ok st' -> ustep st (LAdd cp flags) st'
| SAll st in_update flags st' :
    lock_free st = true -> work_flags flags ->
    umem_updateall in_update caches st flags = Ok st' -> ustep st (LAll flags) st'
| SRemove st in_update cp st' done :
    lock_free st = true -> waits st !! cp <> Some false -> cp ∈ caches ->
    umem_remove_updates in_update st cp = Ok (st', done) ->
    ustep st (if done : bool then LRemoved cp else LWait cp) st'
| SFork st st' :
    lock_free st = true -> umem_do_release false caches st = Ok st' -> ustep st LFork st'.

Inductive usteps : upd -> list label -> upd -> Prop :=
| usteps_refl st : usteps st [] st
| usteps_step st1 l st2 ls st3 : ustep st1 l st2 -> usteps st2 ls st3 -> usteps st1 (l :: ls) st3.

Definition upd0 : upd := Upd ∅ [] WIdle ∅.
End steps.
