(* ===== verification/UpdateInv.v ===== *)
(** * The update list: invariant

    The three states of a cache with respect to updates as an invariant of the
    step relation, kept by every step; every operation runs from a state that
    satisfies it, so no assertion of the update code can fail; a request stays
    pending until a pass takes it on. *)
From S2P Require Import Prelude Machine SlabModel UpdateModel.

#[local] Arguments Z.testbit : simpl never.
#[local] Arguments Z.lor : simpl never.
#[local] Arguments Z.land : simpl never.
#[local] Arguments Z.lnot : simpl never.

(** ** Flags as bits *)

Lemma has_bit f k : 0 <= k -> has f (2 ^ k) = Z.testbit f k.
Proof.
  intros Hk. unfold has. apply Bool.eq_iff_eq_true. rewrite negb_true_iff, Z.eqb_neq. split.
  - intros H. destruct (Z.testbit f k) eqn:E; [done|]. exfalso. apply H. apply Z.bits_inj'. intros n Hn.
    rewrite Z.land_spec, Z.bits_0, Z.pow2_bits_eqb by lia. destruct (Z.eqb_spec k n) as [->|]; [by rewrite E|apply andb_false_r].
  - intros H E. assert (Hb : Z.testbit (Z.land f (2 ^ k)) k = true) by (by rewrite Z.land_spec, H, Z.pow2_bits_true).
    by rewrite E, Z.bits_0 in Hb.
Qed.

Lemma has_active f : has f UMU_ACTIVE = Z.testbit f 31.
Proof. by rewrite <- has_bit. Qed.
Lemma has_notify f : has f UMU_NOTIFY = Z.testbit f 27.
Proof. by rewrite <- has_bit. Qed.

Lemma bit_active k : 0 <= k -> Z.testbit UMU_ACTIVE k = (31 =? k).
Proof. intros. change UMU_ACTIVE with (2 ^ 31). by rewrite Z.pow2_bits_eqb. Qed.
Lemma bit_notify k : 0 <= k -> Z.testbit UMU_NOTIFY k = (27 =? k).
Proof. intros. change UMU_NOTIFY with (2 ^ 27). by rewrite Z.pow2_bits_eqb. Qed.

(** The bits of a kind of work, and all bits in use. *)
Definition work_bit (k : Z) : Prop := k = 0 \/ k = 1 \/ k = 2.
Definition used_bit (k : Z) : Prop := work_bit k \/ k = 27 \/ k = 31.
Definition used (f : Z) : Prop := forall k, 0 <= k -> Z.testbit f k = true -> used_bit k.
Definition some_work (f : Z) : Prop := exists k, work_bit k /\ Z.testbit f k = true.

Lemma work_flags_bits f k : work_flags f -> 0 <= k -> Z.testbit f k = true -> work_bit k.
Proof.
  intros H Hk Hb. unfold work_flags in H. rewrite <- H, Z.land_spec in Hb. apply andb_true_iff in Hb as [_ Hb].
  change (Z.lor _ _) with 7 in Hb. unfold work_bit.
  destruct (Z.le_gt_cases 3 k); [|lia]. by rewrite Z.bits_above_log2 in Hb by (simpl; lia).
Qed.

(** Flags without the two marks are zero or ask for work. *)
Lemma used_work f : used f -> Z.testbit f 27 = false -> Z.testbit f 31 = false -> f <> 0 -> some_work f.
Proof.
  intros Hu H27 H31 Hf.
  destruct (Z.testbit f 0) eqn:E0; [exists 0; unfold work_bit; auto|].
  destruct (Z.testbit f 1) eqn:E1; [exists 1; unfold work_bit; auto|].
  destruct (Z.testbit f 2) eqn:E2; [exists 2; unfold work_bit; auto|].
  exfalso. apply Hf. apply Z.bits_inj'. intros n Hn. rewrite Z.bits_0.
  destruct (Z.testbit f n) eqn:E; [|done]. destruct (Hu n Hn E) as [[->|[->| ->]]|[->| ->]]; congruence.
Qed.

Lemma some_work_nonzero f : some_work f -> f <> 0.
Proof. intros (k & _ & H) ->. by rewrite Z.bits_0 in H. Qed.

(** Clearing and setting, bit by bit. *)
Lemma bit_clear f g k : 0 <= k -> Z.testbit (Z.land f (Z.lnot g)) k = Z.testbit f k && negb (Z.testbit g k).
Proof. intros. by rewrite Z.land_spec, Z.lnot_spec. Qed.

Lemma add_flags_bits flags k :
  work_flags flags -> 0 <= k -> Z.testbit (Z.land flags (Z.lnot UMU_ACTIVE)) k = Z.testbit flags k.
Proof.
  intros Hw Hk. rewrite bit_clear, bit_active by done. destruct (Z.testbit flags k) eqn:E; [|done].
  apply work_flags_bits in E; try done. rewrite andb_true_l. apply negb_true_iff, Z.eqb_neq. unfold work_bit in E. lia.
Qed.
Lemma add_flags_eq flags : work_flags flags -> Z.land flags (Z.lnot UMU_ACTIVE) = flags.
Proof. intros Hw. apply Z.bits_inj'. intros k Hk. by apply add_flags_bits. Qed.

Lemma works_bit f k :
  work_bit k -> Z.testbit f k = true ->
  (if k =? 0 then DoResize else if k =? 1 then DoRescale else DoReap) ∈ works f.
Proof.
  intros Hk Hb. unfold works.
  change UMU_HASH_RESCALE with (2 ^ 1). change UMU_MAGAZINE_RESIZE with (2 ^ 0). change UMU_REAP with (2 ^ 2).
  rewrite !has_bit by lia. destruct Hk as [->|[->| ->]]; rewrite Hb; cbn [Z.eqb];
    repeat (destruct (Z.testbit f _)); set_solver.
Qed.

(** ** Lookups *)

Lemma uf_set_eq st cp f : uf (set_uf cp f st) cp = f.
Proof. unfold uf. simpl. by rewrite lookup_insert_eq. Qed.
Lemma uf_set_ne st cp cp' f : cp <> cp' -> uf (set_uf cp f st) cp' = uf st cp'.
Proof. intros H. unfold uf. simpl. by rewrite lookup_insert_ne. Qed.
Lemma uf_set st cp cp' f : uf (set_uf cp f st) cp' = if decide (cp = cp') then f else uf st cp'.
Proof. case_decide as E; [rewrite E; apply uf_set_eq|by apply uf_set_ne]. Qed.
Lemma waits_broadcast st cp : waits (broadcast st) !! cp <> Some false.
Proof. simpl. rewrite lookup_fmap. by destruct (waits st !! cp). Qed.

Section updates.
Context (caches : list Z).

(** ** The three states *)

(** The cache the worker is on. *)
Definition current (st : upd) : option Z :=
  match worker st with WCheck cp _ | WRun cp _ _ _ => Some cp | _ => None end.

Definition worker_ok (st : upd) : Prop :=
  match worker st with
  | WCheck cp _ => Z.testbit (uf st cp) 27 = false /\ Z.testbit (uf st cp) 31 = false
  | WRun cp f _ _ =>
      (forall k, 0 <= k -> Z.testbit f k = true -> Z.testbit (uf st cp) k = true) /\
      Z.testbit f 31 = true /\ Z.testbit f 27 = false /\ some_work f
  | _ => True
  end.
(** A sleeping remover waits for the cache the worker is on, and the worker
    knows or will see that it has to wake it. *)
Definition waits_ok (st : upd) : Prop :=
  forall cp, waits st !! cp = Some false ->
    match worker st with
    | WCheck c notify => c = cp /\ notify = true
    | WRun c _ _ notify => c = cp /\ (notify = true \/ Z.testbit (uf st cp) 27 = true)
    | _ => False
    end.

Record uinv (st : upd) : Prop := {
  ui_nodup : NoDup (ulist st);
  ui_used : forall cp, used (uf st cp);
  ui_known : forall cp, uf st cp <> 0 -> cp ∈ caches;
  (* Work Requested *)
  ui_listed : forall cp, cp ∈ ulist st ->
    uf st cp <> 0 /\ Z.testbit (uf st cp) 27 = false /\ Z.testbit (uf st cp) 31 = false /\ current st <> Some cp;
  (* Inactive *)
  ui_unlisted : forall cp, cp ∉ ulist st -> current st <> Some cp -> uf st cp = 0;
  (* Active *)
  ui_worker : worker_ok st;
  ui_waits : waits_ok st;
}.

Lemma uinv0 : uinv upd0.
Proof using Type.
  split; simpl; try done.
  - constructor.
  - intros cp k _ H. unfold uf in H. simpl in H. by rewrite lookup_empty, Z.bits_0 in H.
  - intros cp Hin. by apply elem_of_nil in Hin.
Qed.

Lemma active_current st cp : uinv st -> lock_free st = true -> has (uf st cp) UMU_ACTIVE = true ->
  exists f todo n, worker st = WRun cp f todo n.
Proof using Type.
  intros HI Hl Ha. rewrite has_active in Ha.
  assert (Hn : uf st cp <> 0) by (intros E; rewrite E, Z.bits_0 in Ha; done).
  destruct (decide (cp ∈ ulist st)) as [Hin|Hin].
  - destruct (ui_listed _ HI cp Hin) as (_ & _ & H & _). congruence.
  - destruct (decide (current st = Some cp)) as [Hc|Hc].
    + unfold current, lock_free in *. destruct (worker st) as [| |c n|c f todo n]; try done. injection Hc as ->. eauto.
    + destruct Hn. by apply (ui_unlisted _ HI).
Qed.

Lemma listed_not_active st cp : uinv st -> cp ∈ ulist st -> has (uf st cp) UMU_ACTIVE = false.
Proof using Type. intros HI Hin. rewrite has_active. apply (ui_listed _ HI cp Hin). Qed.

Lemma inactive_zero st cp :
  uinv st -> lock_free st = true -> has (uf st cp) UMU_ACTIVE = false -> cp ∉ ulist st -> uf st cp = 0.
Proof using Type.
  intros HI Hl Ha Hin. apply (ui_unlisted _ HI cp Hin). intros Hc.
  pose proof (ui_worker _ HI) as Hw. unfold current, lock_free, worker_ok in *.
  destruct (worker st) as [| |c n|c f todo n]; try done. injection Hc as ->.
  destruct Hw as (Hsub & H31 & _). rewrite has_active in Ha. by rewrite (Hsub 31) in Ha.
Qed.

Lemma uinv_broadcast st : uinv st -> uinv (broadcast st).
Proof using Type.
  intros [H1 H2 H3 H4 H5 H6 H7]. split; try done. intros cp Hcp. by apply waits_broadcast in Hcp.
Qed.

(** ** Requests *)

Lemma used_lor f g : used f -> used g -> used (Z.lor f g).
Proof using Type. intros Hf Hg k Hk H. rewrite Z.lor_spec in H. apply orb_true_iff in H as [H|H]; auto. Qed.
Lemma used_flags flags : work_flags flags -> used flags.
Proof using Type. intros Hw k Hk H. left. by eapply work_flags_bits. Qed.
Lemma used_clear f g : used f -> used (Z.land f (Z.lnot g)).
Proof using Type. intros Hf k Hk H. rewrite bit_clear in H by done. apply andb_true_iff in H as [H _]. by apply Hf. Qed.
Lemma flags_no_mark flags k : work_flags flags -> 3 <= k -> Z.testbit flags k = false.
Proof using Type.
  intros Hw Hk. destruct (Z.testbit flags k) eqn:E; [|done]. apply work_flags_bits in E; try done; [|lia].
  unfold work_bit in E. lia.
Qed.
Lemma lor_nonzero f g : f <> 0 -> Z.lor f g <> 0.
Proof using Type. intros Hf E. by apply Z.lor_eq_0_iff in E as [? _]. Qed.

(** More work for a cache that is listed or active. *)
Lemma uinv_more st cp flags :
  uinv st -> work_flags flags -> uf st cp <> 0 -> uinv (set_uf cp (Z.lor (uf st cp) flags) st).
Proof using Type.
  intros [H1 H2 H3 H4 H5 H6 H7] Hw Hn. split; try done.
  - intros c. rewrite uf_set. case_decide; [|done]. apply used_lor; [done|by apply used_flags].
  - intros c. rewrite uf_set. case_decide as E; [subst c|]; auto.
  - intros c Hc. destruct (H4 c Hc) as (A1 & A2 & A3 & A4). rewrite uf_set. case_decide as E; [subst c|done].
    rewrite !Z.lor_spec, A2, A3, !(flags_no_mark flags) by (done || lia). split; [by apply lor_nonzero|done].
  - intros c Hc Hcur. specialize (H5 c Hc Hcur). rewrite uf_set. case_decide; [subst c; congruence|done].
  - unfold worker_ok in *. simpl. destruct (worker st) as [| |c n|c f todo n]; try done; rewrite uf_set; case_decide as E; try done; subst c.
    + by rewrite !Z.lor_spec, !(flags_no_mark flags), !orb_false_r by (done || lia).
    + destruct H6 as (B1 & B2). split; [|done]. intros k Hk Hb. by rewrite Z.lor_spec, B1.
  - intros c Hc. specialize (H7 c Hc). simpl in *. destruct (worker st); try done.
    destruct H7 as [-> B]. split; [done|]. destruct B as [B|B]; [by left|right].
    rewrite uf_set. case_decide as E; [|done]. subst c. by rewrite Z.lor_spec, B.
Qed.

(** A first request. *)
Lemma uinv_enlist st cp flags :
  uinv st -> work_flags flags -> flags <> 0 -> cp ∈ caches -> uf st cp = 0 -> cp ∉ ulist st -> current st <> Some cp ->
  uinv (set_ulist (ulist st ++ [cp]) (set_uf cp flags st)).
Proof using Type.
  intros [H1 H2 H3 H4 H5 H6 H7] Hw Hf Hc0 Hz Hnin Hcur.
  assert (Eu : forall c, uf (set_ulist (ulist st ++ [cp]) (set_uf cp flags st)) c = uf (set_uf cp flags st) c) by done.
  split.
  - simpl. apply NoDup_app. split; [done|]. split; [|apply NoDup_singleton]. set_solver.
  - intros c. rewrite Eu, uf_set. case_decide; [by apply used_flags|done].
  - intros c. rewrite Eu, uf_set. case_decide as E; [by subst c|auto].
  - intros c Hc. simpl in Hc. rewrite Eu, uf_set. case_decide as E.
    + subst c. rewrite !(flags_no_mark flags) by (done || lia). done.
    + apply H4. set_solver.
  - intros c Hc Hcur'. simpl in Hc. rewrite Eu, uf_set. case_decide as E; [set_solver|]. apply H5; [set_solver|done].
  - unfold worker_ok, current in *. simpl. destruct (worker st) as [| |c n|c f todo n]; try done;
      rewrite Eu, uf_set, decide_False by (intros E; subst; done); done.
  - intros c Hc. specialize (H7 c Hc). unfold current in Hcur. simpl in *. destruct (worker st); try done.
    destruct H7 as [-> B]. rewrite Eu, uf_set, decide_False by (intros E; subst; done). done.
Qed.

Lemma add_unlocked_run st cp flags :
  uinv st -> lock_free st = true -> work_flags flags -> cp ∈ caches ->
  exists st', umem_add_update_unlocked st cp flags = Ok st' /\ uinv st' /\ worker st' = worker st /\
    waits st' = waits st /\ forall c, uf st' c = if decide (cp = c) then Z.lor (uf st cp) flags else uf st c.
Proof using Type.
  intros HI Hl Hw Hc. unfold umem_add_update_unlocked. rewrite add_flags_eq by done.
  destruct (Z.eqb_spec flags 0) as [->|Hf].
  { exists st. do 4 (split; [done|]).
    intros c. case_decide; [subst c; by rewrite Z.lor_0_r|done]. }
  destruct (has (uf st cp) UMU_ACTIVE) eqn:Ha.
  { eexists. split; [done|]. split; [|split; [done|split; [done|intros c; apply uf_set]]].
    apply uinv_more; try done. intros E. rewrite has_active, E, Z.bits_0 in Ha. done. }
  destruct (decide (cp ∈ ulist st)) as [Hin|Hin].
  - destruct (ui_listed _ HI cp Hin) as (Hn & _). rewrite (proj2 (Z.eqb_neq _ _)) by done.
    eexists. split; [done|]. split; [by apply uinv_more|]. do 2 (split; [done|]). intros c. apply uf_set.
  - pose proof (inactive_zero _ _ HI Hl Ha Hin) as Hz. rewrite Hz. simpl.
    assert (Hcur : current st <> Some cp).
    { intros E. unfold current, lock_free in *. pose proof (ui_worker _ HI) as Hwk. unfold worker_ok in Hwk.
      destruct (worker st) as [| |c n|c f todo n]; try done. injection E as ->. destruct Hwk as (Hsub & H31 & _).
      specialize (Hsub 31 ltac:(lia) H31). by rewrite Hz, Z.bits_0 in Hsub. }
    eexists. split; [done|]. split; [by apply uinv_enlist|]. do 2 (split; [done|]). intros c. apply uf_set.
Qed.

Lemma lock_free_worker st st' : worker st' = worker st -> lock_free st = true -> lock_free st' = true.
Proof using Type. intros E. unfold lock_free. by rewrite E. Qed.

Lemma add_all_run l st flags :
  uinv st -> lock_free st = true -> work_flags flags -> (forall c, c ∈ l -> c ∈ caches) ->
  exists st', add_all l st flags = Ok st' /\ uinv st' /\ worker st' = worker st /\ waits st' = waits st /\
    forall c, uf st' c = uf st c \/ uf st' c = Z.lor (uf st c) flags.
Proof using Type.
  revert st. induction l as [|cp l IH]; intros st HI Hl Hw Hc; cbn [add_all]; [eauto 10|].
  destruct (add_unlocked_run st cp flags HI Hl Hw) as (st1 & -> & HI1 & W1 & T1 & U1); [set_solver|]. cbn [res_bind].
  destruct (IH st1) as (st' & E & HI' & W' & T' & U'); try done; [by eapply lock_free_worker|set_solver|].
  exists st'. do 2 (split; [done|]). split; [congruence|]. split; [congruence|].
  intros c. destruct (U' c) as [->| ->]; rewrite U1; case_decide; subst; auto.
  right. by rewrite <- Z.lor_assoc, Z.lor_diag.
Qed.

(** ** Removal *)

Lemma unlink_elem (x : Z) l y : NoDup l -> y ∈ unlink x l <-> y ∈ l /\ y <> x.
Proof using Type.
  intros Hn. destruct (decide (x ∈ l)) as [Hin|Hin].
  - apply list_elem_of_split in Hin as (l1 & l2 & ->). apply NoDup_app in Hn as (_ & Hd & Hn).
    apply NoDup_cons in Hn as [Hx _]. rewrite unlink_app by (intros H; apply (Hd _ H); left).
    rewrite !elem_of_app, elem_of_cons. split; [|tauto]. intros [H|H]; split; auto; intros ->; [|done].
    apply (Hd _ H). left.
  - assert (E : unlink x l = l).
    { clear Hn. induction l as [|z l IH]; simpl; [done|]. rewrite decide_False by set_solver. f_equal. set_solver. }
    rewrite E. split; [|tauto]. intros H. split; [done|]. intros ->. done.
Qed.
Lemma unlink_nodup (x : Z) l : NoDup l -> NoDup (unlink x l).
Proof using Type.
  induction l as [|z l IH]; intros Hn; simpl; [constructor|]. apply NoDup_cons in Hn as [Hz Hn].
  case_decide; [done|]. constructor; [|by apply IH]. rewrite unlink_elem by done. tauto.
Qed.

Lemma uinv_unwait st cp : uinv st -> uinv (set_waits (delete cp (waits st)) st).
Proof using Type.
  intros [H1 H2 H3 H4 H5 H6 H7]. split; try done. intros c Hc. simpl in Hc.
  apply lookup_delete_Some in Hc as [_ Hc]. by apply H7.
Qed.

Lemma uinv_delist st cp :
  uinv st -> cp ∈ ulist st -> uinv (set_uf cp 0 (set_ulist (unlink cp (ulist st)) st)).
Proof using Type.
  intros HI Hin. destruct (ui_listed _ HI cp Hin) as (_ & _ & _ & Hcur). destruct HI as [H1 H2 H3 H4 H5 H6 H7].
  set (st1 := set_ulist (unlink cp (ulist st)) st). assert (Eu : forall c, uf st1 c = uf st c) by done.
  split.
  - by apply unlink_nodup.
  - intros c. rewrite uf_set. case_decide; [|by rewrite Eu]. intros k _ Hb. by rewrite Z.bits_0 in Hb.
  - intros c. rewrite uf_set. case_decide; [done|]. rewrite Eu. apply H3.
  - intros c Hc. apply unlink_elem in Hc as [Hc Hne]; [|done]. rewrite uf_set, decide_False by done. by apply H4.
  - intros c Hc Hcur'. rewrite uf_set. case_decide; [done|]. rewrite Eu. apply H5; [|done].
    intros Hc'. apply Hc. apply unlink_elem; [done|]. split; [done|]. congruence.
  - unfold worker_ok, current in *. simpl. destruct (worker st) as [| |c n|c f todo n]; try done;
      rewrite uf_set, decide_False by (intros E; subst; done); done.
  - intros c Hc. specialize (H7 c Hc). unfold current in Hcur. simpl in *. destruct (worker st); try done.
    destruct H7 as [-> B]. rewrite uf_set, decide_False by (intros E; subst; done). done.
Qed.

Lemma uinv_notify st cp f todo n :
  uinv st -> worker st = WRun cp f todo n ->
  uinv (set_waits (<[cp := false]> (waits st)) (set_uf cp (Z.lor (uf st cp) UMU_NOTIFY) st)).
Proof using Type.
  intros HI Ew. pose proof (ui_worker _ HI) as Hw. unfold worker_ok in Hw. rewrite Ew in Hw.
  destruct Hw as (Hsub & H31 & H27 & Hsw).
  assert (Hn : uf st cp <> 0) by (intros E; specialize (Hsub 31 ltac:(lia) H31); by rewrite E, Z.bits_0 in Hsub).
  assert (Hcur : current st = Some cp) by (unfold current; by rewrite Ew).
  destruct HI as [H1 H2 H3 H4 H5 H6 H7].
  assert (Eu : forall c, uf (set_waits (<[cp := false]> (waits st)) (set_uf cp (Z.lor (uf st cp) UMU_NOTIFY) st)) c =
    uf (set_uf cp (Z.lor (uf st cp) UMU_NOTIFY) st) c) by done.
  split; try done.
  - intros c. rewrite Eu, uf_set. case_decide; [|done]. apply used_lor; [done|].
    intros k Hk Hb. rewrite bit_notify in Hb by done. right. left. apply Z.eqb_eq in Hb. lia.
  - intros c. rewrite Eu, uf_set. case_decide; [subst c; auto|auto].
  - intros c Hc. rewrite Eu, uf_set. case_decide as E; [|by apply H4]. subst c. destruct (H4 cp Hc) as (_ & _ & _ & ?). done.
  - intros c Hc Hcur'. rewrite Eu, uf_set. case_decide as E; [by subst c|]. by apply H5.
  - unfold worker_ok. simpl. rewrite Ew, Eu, uf_set_eq. split; [|done]. intros k Hk Hb. by rewrite Z.lor_spec, Hsub.
  - intros c Hc. simpl in Hc |- *. rewrite Ew. apply lookup_insert_Some in Hc as [[-> _]|[Hne Hc]].
    + split; [done|]. right. rewrite Eu, uf_set_eq, Z.lor_spec, bit_notify by lia. apply orb_true_r.
    + specialize (H7 c Hc). rewrite Ew in H7. by destruct H7 as [-> _].
Qed.

(** The worker is refused or treated like any other thread. *)
Lemma remove_in_update iu st cp x : umem_remove_updates iu st cp = Ok x -> umem_remove_updates false st cp = Ok x.
Proof using Type.
  unfold umem_remove_updates. destruct (has _ _); [|done]. destruct (decide _); [done|].
  destruct (worker _); [done|..]; by destruct iu.
Qed.
Lemma remove_not_current iu st cp :
  uinv st -> lock_free st = true -> current st <> Some cp ->
  umem_remove_updates iu st cp = umem_remove_updates false st cp.
Proof using Type.
  intros HI Hl Hc. unfold umem_remove_updates. destruct (has (uf st cp) UMU_ACTIVE) eqn:Ha; [|done].
  destruct (active_current _ _ HI Hl Ha) as (f & todo & n & Ew). unfold current in Hc. by rewrite Ew in Hc.
Qed.

Lemma remove_run st cp :
  uinv st -> lock_free st = true ->
  exists st' (r : bool), umem_remove_updates false st cp = Ok (st', r) /\ uinv st' /\ worker st' = worker st /\
    (forall c, cp <> c -> uf st' c = uf st c) /\
    if r then uf st' cp = 0 /\ (cp ∉ ulist st') /\ current st' <> Some cp
    else waits st' !! cp = Some false /\ uf st' cp = Z.lor (uf st cp) UMU_NOTIFY.
Proof using Type.
  intros HI Hl. unfold umem_remove_updates. destruct (has (uf st cp) UMU_ACTIVE) eqn:Ha.
  - destruct (active_current _ _ HI Hl Ha) as (f & todo & n & Ew).
    rewrite decide_False by (intros Hin; rewrite (listed_not_active _ _ HI Hin) in Ha; done).
    cbv zeta. change (worker (set_uf cp (Z.lor (uf st cp) UMU_NOTIFY) st)) with (worker st). rewrite Ew.
    exists (set_waits (<[cp := false]> (waits st)) (set_uf cp (Z.lor (uf st cp) UMU_NOTIFY) st)), false. split; [done|]. split; [by eapply uinv_notify|]. split; [exact Ew|].
    split; [intros c Hne; by apply (uf_set_ne st)|]. simpl. split; [apply lookup_insert_eq|apply (uf_set_eq st)].
  - assert (Hnc : forall s, worker s = worker st -> uf st cp = 0 \/ cp ∈ ulist st -> current s <> Some cp).
    { intros s Es Hz E. assert (E' : current st = Some cp) by (unfold current in *; by rewrite Es in E).
      destruct Hz as [Hz|Hz]; [|by destruct (ui_listed _ HI cp Hz) as (_ & _ & _ & ?)].
      pose proof (ui_worker _ HI) as Hw. unfold current, worker_ok, lock_free in *.
      destruct (worker st) as [| |c n|c f todo n]; try done. injection E' as ->. destruct Hw as (Hsub & H31 & _).
      specialize (Hsub 31 ltac:(lia) H31). by rewrite Hz, Z.bits_0 in Hsub. }
    destruct (decide (cp ∈ ulist st)) as [Hin|Hin]; cbv zeta.
    + set (st1 := set_uf cp 0 (set_ulist (unlink cp (ulist st)) st)).
      assert (Hout : cp ∉ ulist st1) by (simpl; rewrite unlink_elem by apply HI; tauto).
      rewrite decide_False by done.
      assert (Ez : uf st1 cp = 0) by apply uf_set_eq. rewrite Ez. simpl.
      eexists _, true. split; [done|]. split; [apply (uinv_unwait st1); by apply uinv_delist|]. split; [done|].
      split; [intros c Hne; by apply (uf_set_ne (set_ulist (unlink cp (ulist st)) st))|].
      do 2 (split; [done|]). apply Hnc; auto.
    + pose proof (inactive_zero _ _ HI Hl Ha Hin) as Hz. rewrite decide_False by done. rewrite Hz. simpl.
      eexists _, true. split; [done|]. split; [by apply uinv_unwait|]. do 2 (split; [done|]).
      do 2 (split; [done|]). apply Hnc; auto.
Qed.

(** ** The worker *)

Lemma uinv_worker st st' :
  uflags st' = uflags st -> ulist st' = ulist st ->
  (forall c, current st' = Some c <-> current st = Some c) ->
  uinv st -> worker_ok st' -> waits_ok st' -> uinv st'.
Proof using Type.
  intros E1 E2 E3 [H1 H2 H3 H4 H5 H6 H7] Hw Hs. assert (Eu : forall c, uf st' c = uf st c) by (intros; unfold uf; by rewrite E1).
  split; rewrite ?E2; try done.
  - intros c. rewrite Eu. apply H2.
  - intros c. rewrite Eu. apply H3.
  - intros c Hc. rewrite Eu. destruct (H4 c Hc) as (?&?&?&Hc'). rewrite <- E3 in Hc'. done.
  - intros c Hc. rewrite Eu, E3. by apply H5.
Qed.

Lemma take_step st cp rest :
  uinv st -> worker st = WHead -> ulist st = cp :: rest ->
  uinv (set_worker (WCheck cp false) (set_ulist rest st)).
Proof using Type.
  intros [H1 H2 H3 H4 H5 H6 H7] Ew El.
  assert (Eu : forall c, uf (set_worker (WCheck cp false) (set_ulist rest st)) c = uf st c) by done.
  assert (Hcur : current st = None) by (unfold current; by rewrite Ew).
  rewrite El in *. apply NoDup_cons in H1 as [Hcp H1]. split; try done.
  - intros c Hc. rewrite Eu. destruct (H4 c) as (?&?&?&?); [by right|]. do 3 (split; [done|]).
    simpl. intros [= ->]. done.
  - intros c Hc Hne. rewrite Eu. apply H5; [|by rewrite Hcur]. intros [->|?]%elem_of_cons; [by destruct Hne|done].
  - unfold worker_ok. simpl. rewrite Eu. destruct (H4 cp) as (?&?&?&?); [left|done].
  - intros c Hc. specialize (H7 c Hc). by rewrite Ew in H7.
Qed.

Lemma begin_step st cp n :
  uinv st -> worker st = WCheck cp n -> uf st cp <> 0 ->
  let f := Z.lor (uf st cp) UMU_ACTIVE in
  uinv (set_worker (WRun cp f (works f) n) (set_uf cp f st)).
Proof using Type.
  intros [H1 H2 H3 H4 H5 H6 H7] Ew Hn f. unfold worker_ok in H6. rewrite Ew in H6. destruct H6 as [H27 H31].
  assert (Hcur : current st = Some cp) by (unfold current; by rewrite Ew).
  assert (Eu : forall c, uf (set_worker (WRun cp f (works f) n) (set_uf cp f st)) c = uf (set_uf cp f st) c) by done.
  split; try done.
  - intros c. rewrite Eu, uf_set. case_decide; [|done]. apply used_lor; [done|].
    intros k Hk Hb. rewrite bit_active in Hb by done. apply Z.eqb_eq in Hb. right. right. lia.
  - intros c. rewrite Eu, uf_set. case_decide; [subst c; auto|auto].
  - intros c Hc. destruct (H4 c Hc) as (?&?&?&Hc'). rewrite Eu, uf_set, decide_False; [|congruence].
    do 3 (split; [done|]). intros [= E]. congruence.
  - intros c Hc Hcur'. assert (Hne : cp <> c) by (intros ->; by apply Hcur'). rewrite Eu, uf_set_ne by done. apply H5; [done|congruence].
  - unfold worker_ok. simpl. rewrite Eu, uf_set_eq. split; [done|]. unfold f. rewrite !Z.lor_spec, !bit_active, H27 by lia.
    split; [apply orb_true_r|]. split; [done|].
    destruct (used_work _ (H2 cp) H27 H31 Hn) as (k & Hk & Hb). exists k. by rewrite Z.lor_spec, Hb.
  - intros c Hc. specialize (H7 c Hc). simpl in Hc |- *. rewrite Ew in H7. destruct H7 as [-> ->]. auto.
Qed.

Lemma end_step st cp f n :
  uinv st -> worker st = WRun cp f [] n ->
  let notified := has (uf st cp) UMU_NOTIFY in
  let g := if notified then Z.lor f UMU_NOTIFY else f in
  uinv (set_worker (WCheck cp (notified || n)) (set_uf cp (Z.land (uf st cp) (Z.lnot g)) st)).
Proof using Type.
  intros HI Ew notified g. pose proof (ui_worker _ HI) as H6. unfold worker_ok in H6. rewrite Ew in H6.
  destruct H6 as (Hsub & F31 & F27 & _). destruct HI as [H1 H2 H3 H4 H5 _ H7].
  assert (Hcur : current st = Some cp) by (unfold current; by rewrite Ew).
  set (v := Z.land (uf st cp) (Z.lnot g)).
  assert (Eu : forall c, uf (set_worker (WCheck cp (notified || n)) (set_uf cp v st)) c = uf (set_uf cp v st) c) by done.
  assert (G31 : Z.testbit g 31 = true) by (unfold g; destruct notified; [by rewrite Z.lor_spec, F31|done]).
  assert (G27 : Z.testbit v 27 = false).
  { unfold v. rewrite bit_clear by lia. unfold g, notified. rewrite has_notify. destruct (Z.testbit (uf st cp) 27); [|done].
    rewrite Z.lor_spec, bit_notify by lia. simpl. rewrite orb_true_r. done. }
  split; try done.
  - intros c. rewrite Eu, uf_set. case_decide; [by apply used_clear|done].
  - intros c. rewrite Eu, uf_set. case_decide as E; [|auto]. subst c. intros Hv. apply H3. intros E. apply Hv. unfold v. by rewrite E.
  - intros c Hc. destruct (H4 c Hc) as (?&?&?&Hc'). rewrite Eu, uf_set, decide_False; [|congruence].
    do 3 (split; [done|]). intros [= E]. congruence.
  - intros c Hc Hcur'. assert (Hne : cp <> c) by (intros ->; by apply Hcur'). rewrite Eu, uf_set_ne by done. apply H5; [done|congruence].
  - unfold worker_ok. simpl. rewrite Eu, uf_set_eq. split; [done|]. unfold v. rewrite bit_clear, G31 by lia. apply andb_false_r.
  - intros c Hc. specialize (H7 c Hc). simpl in Hc |- *. rewrite Ew in H7. destruct H7 as [-> H7]. split; [done|].
    destruct H7 as [->|H7]; [apply orb_true_r|]. unfold notified. by rewrite has_notify, H7.
Qed.

Lemma process_run st r :
  uinv st -> process_step st = Some r -> exists l st', r = Ok (l, st') /\ uinv st'.
Proof using Type.
  intros HI. unfold process_step. destruct (worker st) as [| |cp n|cp f todo n] eqn:Ew; [done|..].
  - destruct (ulist st) as [|cp rest] eqn:El; intros [= <-].
    + eexists _, _. split; [done|]. eapply (uinv_worker st); try done.
      * unfold current. simpl. rewrite Ew. done.
      * intros c Hc. pose proof (ui_waits _ HI c Hc) as H. by rewrite Ew in H.
    + rewrite (listed_not_active st cp HI) by (rewrite El; left).
      eexists _, _. split; [done|]. by apply take_step.
  - destruct (Z.eqb_spec (uf st cp) 0) as [Hz|Hz]; intros [= <-]; eexists _, _; (split; [done|]).
    + set (st1 := if n then broadcast st else st).
      assert (Hb : forall c, waits st1 !! c <> Some false).
      { intros c Hc. destruct n; [by apply waits_broadcast in Hc|]. pose proof (ui_waits _ HI c Hc) as H. rewrite Ew in H. by destruct H. }
      assert (E1 : uflags st1 = uflags st /\ ulist st1 = ulist st) by (by destruct n). destruct E1 as [E1 E2].
      destruct HI as [H1 H2 H3 H4 H5 H6 H7].
      assert (Eu : forall c, uf (set_worker WHead st1) c = uf st c) by (intros; unfold uf; simpl; by rewrite E1).
      split; simpl; rewrite ?E2; try done.
      * intros c. rewrite Eu. apply H2.
      * intros c. rewrite Eu. apply H3.
      * intros c Hc. rewrite Eu. destruct (H4 c Hc) as (?&?&?&_). done.
      * intros c Hc _. rewrite Eu. destruct (decide (c = cp)) as [->|Hne]; [done|]. apply H5; [done|].
        unfold current. rewrite Ew. congruence.
    + by apply begin_step.
  - destruct todo as [|wk todo]; intros Hr.
    + pose proof (end_step st cp f n HI Ew) as H. cbv zeta in H.
      destruct (has (uf st cp) UMU_NOTIFY); injection Hr as <-; eexists _, _; (split; [done|exact H]).
    + injection Hr as <-. eexists _, _. split; [done|]. eapply (uinv_worker st); try done.
      * unfold current. simpl. by rewrite Ew.
      * pose proof (ui_worker _ HI) as H. unfold worker_ok in *. rewrite Ew in H. done.
      * intros c Hc. pose proof (ui_waits _ HI c Hc) as H. rewrite Ew in H. done.
Qed.

(** ** The child of a fork *)

(** No cache is active: what the child starts from. *)
Definition reset (st : upd) : upd := set_waits ∅ (set_worker WIdle st).
Definition same_work (st st' : upd) : Prop :=
  forall c k, work_bit k -> Z.testbit (uf st' c) k = Z.testbit (uf st c) k.

Lemma clean_bits st c :
  uinv (reset st) -> Z.testbit (uf st c) 27 = false /\ Z.testbit (uf st c) 31 = false.
Proof using Type.
  intros HI. destruct (decide (c ∈ ulist st)) as [Hin|Hin].
  - by destruct (ui_listed _ HI c Hin) as (_ & ? & ? & _).
  - assert (E : uf st c = 0) by (by apply (ui_unlisted _ HI)). by rewrite E, !Z.bits_0.
Qed.

Lemma release_clean st c : uinv (reset st) -> release_one st c = Ok st.
Proof using Type.
  intros HI. destruct (clean_bits st c HI) as [H27 H31]. unfold release_one.
  by rewrite has_notify, H27, has_active, H31.
Qed.

Lemma release_other st c : uinv st -> lock_free st = true -> current st <> Some c -> release_one st c = Ok st.
Proof using Type.
  intros HI Hl Hc. assert (H : Z.testbit (uf st c) 27 = false /\ Z.testbit (uf st c) 31 = false).
  { destruct (decide (c ∈ ulist st)) as [Hin|Hin].
    - by destruct (ui_listed _ HI c Hin) as (_ & ? & ? & _).
    - by rewrite (ui_unlisted _ HI c Hin Hc), !Z.bits_0. }
  destruct H as [H27 H31]. unfold release_one. by rewrite has_notify, H27, has_active, H31.
Qed.

Lemma release_current st cp f todo n :
  uinv st -> worker st = WRun cp f todo n ->
  exists st', release_one st cp = Ok st' /\ uinv (reset st') /\ same_work st st'.
Proof using Type.
  intros HI Ew. pose proof (ui_worker _ HI) as Hw. unfold worker_ok in Hw. rewrite Ew in Hw.
  destruct Hw as (Hsub & F31 & F27 & k0 & Hk0 & Hb0).
  assert (Hnin : cp ∉ ulist st).
  { intros Hin. destruct (ui_listed _ HI cp Hin) as (_ & _ & _ & H). apply H. unfold current. by rewrite Ew. }
  unfold release_one. set (st1 := if has (uf st cp) UMU_NOTIFY then _ else st).
  assert (E1 : ulist st1 = ulist st) by (unfold st1; by destruct (has _ _)).
  assert (U1 : uf st1 cp = Z.land (uf st cp) (Z.lnot UMU_NOTIFY)).
  { unfold st1. rewrite has_notify. destruct (Z.testbit (uf st cp) 27) eqn:E; [apply uf_set_eq|].
    apply Z.bits_inj'. intros k Hk. rewrite bit_clear, bit_notify by done.
    destruct (Z.eqb_spec 27 k) as [<-|]; [by rewrite E|by rewrite andb_true_r]. }
  assert (U2 : forall c, cp <> c -> uf st1 c = uf st c).
  { intros c Hne. unfold st1. destruct (has _ _); [by apply uf_set_ne|done]. }
  rewrite has_active, U1, bit_clear, bit_notify, (Hsub 31 ltac:(lia) F31) by lia. simpl.
  rewrite decide_False by (by rewrite E1). eexists. split; [done|].
  set (v := Z.land _ (Z.lnot UMU_ACTIVE)).
  assert (V : forall k, 0 <= k -> Z.testbit v k = Z.testbit (uf st cp) k && negb (27 =? k) && negb (31 =? k)).
  { intros k Hk. unfold v. by rewrite !bit_clear, bit_notify, bit_active by done. }
  assert (Hv : v <> 0).
  { apply some_work_nonzero. exists k0. split; [done|]. rewrite V by (unfold work_bit in Hk0; lia).
    rewrite (Hsub k0) by (done || unfold work_bit in Hk0; lia). destruct Hk0 as [->|[->| ->]]; done. }
  assert (Eu : forall c, uf (set_ulist (ulist st1 ++ [cp]) (set_uf cp v st1)) c = if decide (cp = c) then v else uf st c).
  { intros c. change (uf (set_uf cp v st1) c = if decide (cp = c) then v else uf st c). rewrite uf_set.
    case_decide; [done|by apply U2]. }
  destruct HI as [H1 H2 H3 H4 H5 _ _]. split.
  - split; simpl; rewrite ?E1; try done.
    + apply NoDup_app. split; [done|]. split; [|apply NoDup_singleton]. set_solver.
    + intros c. change (uf (reset ?s) c) with (uf s c). rewrite <- E1, Eu. case_decide; [|done].
      intros k Hk Hb. rewrite V in Hb by done. apply (H2 cp k Hk). by destruct (Z.testbit (uf st cp) k).
    + intros c. change (uf (reset ?s) c) with (uf s c). rewrite <- E1, Eu. case_decide as E; [subst c|auto].
      intros _. apply H3. intros E. specialize (Hsub 31 ltac:(lia) F31). by rewrite E, Z.bits_0 in Hsub.
    + intros c Hc. change (uf (reset ?s) c) with (uf s c). rewrite <- E1, Eu. case_decide as E.
      * rewrite !V by lia. simpl. rewrite !andb_false_r. done.
      * destruct (H4 c) as (?&?&?&_); [set_solver|]. done.
    + intros c Hc _. change (uf (reset ?s) c) with (uf s c). rewrite <- E1, Eu. case_decide as E; [set_solver|].
      apply H5; [set_solver|]. unfold current. rewrite Ew. congruence.
  - intros c k Hk. rewrite Eu. case_decide as E; [subst c|done]. rewrite V by (unfold work_bit in Hk; lia).
    destruct Hk as [->|[->| ->]]; simpl; by rewrite !andb_true_r.
Qed.

Lemma idle_reset st : uinv st -> current st = None -> uinv (reset st).
Proof using Type. intros [H1 H2 H3 H4 H5 H6 H7] Hc. split; try done. intros c Hin. by destruct (H4 c Hin) as (?&?&?&_).
  intros c Hin _. apply H5; [done|]. by rewrite Hc.
Qed.

Lemma release_all_run l st :
  uinv (reset st) \/ (uinv st /\ lock_free st = true) ->
  exists st', release_all l st = Ok st' /\ same_work st st' /\
    (uinv (reset st') \/ (st' = st /\ forall c, current st = Some c -> c ∉ l)).
Proof using Type.
  revert st. induction l as [|c l IH]; intros st H; cbn [release_all].
  { exists st. do 2 (split; [done|]). destruct H; [by left|right]. split; [done|]. intros. apply not_elem_of_nil. }
  destruct H as [H|[HI Hl]].
  { rewrite release_clean by done. cbn [res_bind]. destruct (IH st (or_introl H)) as (st' & E & Hs & [K|[-> _]]); eauto. }
  destruct (decide (current st = Some c)) as [Hc|Hc].
  - assert (Ew : exists f todo n, worker st = WRun c f todo n).
    { unfold current, lock_free in *. destruct (worker st) as [| |c' n|c' f todo n]; try done. injection Hc as ->. eauto. }
    destruct Ew as (f & todo & n & Ew).
    destruct (release_current st c f todo n HI Ew) as (st1 & -> & H1 & S1). cbn [res_bind].
    destruct (IH st1 (or_introl H1)) as (st' & E & S2 & K). exists st'. split; [done|]. split.
    { intros c' k Hk. by rewrite S2, S1. }
    left. destruct K as [K|[-> _]]; done.
  - rewrite release_other by done. cbn [res_bind]. destruct (IH st (or_intror (conj HI Hl))) as (st' & E & S2 & K).
    exists st'. do 2 (split; [done|]). destruct K as [K|[-> K]]; [by left|right]. split; [done|].
    intros c' Hc'. rewrite not_elem_of_cons. split; [congruence|by apply K].
Qed.

Lemma do_release_run st :
  uinv st -> lock_free st = true ->
  exists st', umem_do_release false caches st = Ok st' /\ uinv st' /\ same_work st st' /\ worker st' = WIdle.
Proof using Type.
  intros HI Hl. unfold umem_do_release.
  destruct (release_all_run caches st (or_intror (conj HI Hl))) as (st1 & -> & S1 & K). cbn [res_bind].
  exists (reset st1). split; [done|]. split; [|done]. destruct K as [K|[-> K]]; [done|].
  apply idle_reset; [done|]. destruct (current st) as [c|] eqn:Hc; [|done]. destruct (K c eq_refl).
  apply (ui_known _ HI). pose proof (ui_worker _ HI) as Hw. unfold current, worker_ok, lock_free in *.
  destruct (worker st) as [| |c' n|c' f todo n]; try done. injection Hc as ->. destruct Hw as (Hsub & F31 & _).
  intros E. specialize (Hsub 31 ltac:(lia) F31). by rewrite E, Z.bits_0 in Hsub.
Qed.

(** ** Every step *)

Lemma updateall_run in_update st flags :
  uinv st -> lock_free st = true -> work_flags flags ->
  exists st', umem_updateall in_update caches st flags = Ok st' /\ uinv st' /\ worker st' = worker st /\
    forall c, uf st' c = uf st c \/ uf st' c = Z.lor (uf st c) flags.
Proof using Type.
  intros HI Hl Hw. unfold umem_updateall.
  destruct (add_all_run caches st flags HI Hl Hw) as (st1 & -> & HI1 & W1 & _ & U1); [done|]. cbn [res_bind].
  eexists. split; [done|]. destruct in_update; [done|]. split; [by apply uinv_broadcast|done].
Qed.

Lemma add_update_run in_update st cp flags :
  uinv st -> lock_free st = true -> work_flags flags -> cp ∈ caches ->
  exists st', umem_add_update in_update st cp flags = Ok st' /\ uinv st' /\ worker st' = worker st /\
    forall c, uf st' c = if decide (cp = c) then Z.lor (uf st cp) flags else uf st c.
Proof using Type.
  intros HI Hl Hw Hc. unfold umem_add_update.
  destruct (add_unlocked_run st cp flags HI Hl Hw Hc) as (st1 & -> & HI1 & W1 & _ & U1). cbn [res_bind].
  eexists. split; [done|]. destruct in_update; [done|]. split; [by apply uinv_broadcast|done].
Qed.

Lemma start_run st : uinv st -> worker st = WIdle -> uinv (set_worker WHead st).
Proof using Type.
  intros HI Ew. eapply (uinv_worker st); try done.
  - unfold current. simpl. by rewrite Ew.
  - intros c Hc. pose proof (ui_waits _ HI c Hc) as H. by rewrite Ew in H.
Qed.

Lemma ustep_inv st l st' : ustep caches st l st' -> uinv st -> uinv st'.
Proof using Type.
  intros Hs HI. destruct Hs as [st l st' E|st Ew|st iu cp flags st' Hl Hw Hc E|st iu flags st' Hl Hw E|st iu cp st' d Hl Hwt Hc E|st st' Hl E].
  - destruct (process_run st _ HI E) as (l' & st'' & [= <- <-] & H). done.
  - by apply start_run.
  - destruct (add_update_run iu st cp flags HI Hl Hw Hc) as (s & E' & H & _). congruence.
  - destruct (updateall_run iu st flags HI Hl Hw) as (s & E' & H & _). congruence.
  - apply remove_in_update in E. destruct (remove_run st cp HI Hl) as (s & r & E' & H & _). congruence.
  - destruct (do_release_run st HI Hl) as (s & E' & H & _). congruence.
Qed.

Lemma usteps_inv st ls st' : usteps caches st ls st' -> uinv st -> uinv st'.
Proof using Type. induction 1; [done|]. intros HI. apply IHusteps. by eapply ustep_inv. Qed.

(** ** Requests are carried out *)

(** The work is asked for and no pass that has begun covers it. *)
Definition pending (k cp : Z) (st : upd) : Prop :=
  Z.testbit (uf st cp) k = true /\ forall f todo n, worker st = WRun cp f todo n -> Z.testbit f k = false.

Lemma pending_process k cp st l st' :
  work_bit k -> uinv st -> process_step st = Some (Ok (l, st')) -> pending k cp st ->
  pending k cp st' \/ exists f, l = LBegin cp f /\ Z.testbit f k = true.
Proof using Type.
  intros Hk HI E [Hb Hp]. unfold process_step in E. destruct (worker st) as [| |c n|c f todo n] eqn:Ew; [done|..].
  - left. destruct (ulist st) as [|c rest]; [by injection E as <- <-|].
    destruct (has _ _); [done|]. by injection E as <- <-.
  - destruct (Z.eqb_spec (uf st c) 0) as [Hz|Hz]; injection E as <- <-.
    + left. split; [|done]. by destruct n.
    + destruct (decide (c = cp)) as [->|Hne].
      * right. eexists. split; [done|]. by rewrite Z.lor_spec, Hb.
      * left. split; [|intros f todo m [= ? _ _ _]; done].
        change (Z.testbit (uf (set_uf c (Z.lor (uf st c) UMU_ACTIVE) st) cp) k = true). by rewrite uf_set_ne.
  - destruct todo as [|wk todo].
    + left. split; [|intros ? ? ? ?; by destruct (has _ _); injection E as <- <-].
      destruct (decide (c = cp)) as [->|Hne].
      * specialize (Hp f [] n eq_refl).
        assert (Hg : forall g, Z.testbit g k = false -> Z.testbit (Z.land (uf st cp) (Z.lnot g)) k = true).
        { intros g Hg. rewrite bit_clear, Hb, Hg by (unfold work_bit in Hk; lia). done. }
        destruct (has _ _); injection E as <- <-.
        -- change (Z.testbit (uf (set_uf cp (Z.land (uf st cp) (Z.lnot (Z.lor f UMU_NOTIFY))) st) cp) k = true).
           rewrite uf_set_eq. apply Hg. rewrite Z.lor_spec, Hp, bit_notify by (unfold work_bit in Hk; lia).
           destruct Hk as [->|[->| ->]]; done.
        -- change (Z.testbit (uf (set_uf cp (Z.land (uf st cp) (Z.lnot f)) st) cp) k = true).
           rewrite uf_set_eq. by apply Hg.
      * destruct (has _ _); injection E as <- <-.
        -- change (Z.testbit (uf (set_uf c (Z.land (uf st c) (Z.lnot (Z.lor f UMU_NOTIFY))) st) cp) k = true). by rewrite uf_set_ne.
        -- change (Z.testbit (uf (set_uf c (Z.land (uf st c) (Z.lnot f)) st) cp) k = true). by rewrite uf_set_ne.
    + left. injection E as <- <-. split; [done|]. intros f' todo' n' [= -> -> -> ->]. by eapply Hp.
Qed.

Lemma pending_more k cp st st' :
  worker st' = worker st -> (Z.testbit (uf st cp) k = true -> Z.testbit (uf st' cp) k = true) ->
  pending k cp st -> pending k cp st'.
Proof using Type. intros Ew Hu [Hb Hp]. split; [by apply Hu|]. by rewrite Ew. Qed.

Lemma pending_step k cp st l st' :
  work_bit k -> uinv st -> ustep caches st l st' -> pending k cp st ->
  pending k cp st' \/ (exists f, l = LBegin cp f /\ Z.testbit f k = true) \/ l = LRemoved cp.
Proof using Type.
  intros Hk HI Hs Hp. destruct Hs as [st l st' E|st Ew|st iu c flags st' Hl Hw Hc E|st iu flags st' Hl Hw E|st iu c st' d Hl Hwt Hc E|st st' Hl E].
  - destruct (pending_process k cp st l st' Hk HI E Hp); auto.
  - left. by destruct Hp.
  - left. destruct (add_update_run iu st c flags HI Hl Hw Hc) as (s & E' & _ & W & U). rewrite E in E'. injection E' as <-.
    eapply pending_more; [done| |done]. intros H. rewrite U. case_decide; [subst; by rewrite Z.lor_spec, H|done].
  - left. destruct (updateall_run iu st flags HI Hl Hw) as (s & E' & _ & W & U). rewrite E in E'. injection E' as <-.
    eapply pending_more; [done| |done]. intros H. destruct (U cp) as [->| ->]; [done|by rewrite Z.lor_spec, H].
  - apply remove_in_update in E. destruct (remove_run st c HI Hl) as (s & r & E' & _ & W & U & R). rewrite E in E'. injection E' as <- <-.
    destruct (decide (c = cp)) as [->|Hne].
    + destruct d; [by right; right|left]. eapply pending_more; [done| |done]. intros H. destruct R as [_ ->].
      by rewrite Z.lor_spec, H.
    + left. eapply pending_more; [done| |done]. by rewrite U.
  - left. destruct (do_release_run st HI Hl) as (s & E' & _ & S & W). rewrite E in E'. injection E' as <-.
    split; [by rewrite S; [destruct Hp|]|]. by rewrite W.
Qed.

Lemma pending_trace k cp st ls st' :
  work_bit k -> uinv st -> usteps caches st ls st' -> pending k cp st ->
  pending k cp st' \/ (exists f, LBegin cp f ∈ ls /\ Z.testbit f k = true) \/ LRemoved cp ∈ ls.
Proof using Type.
  intros Hk HI Hs. revert HI. induction Hs as [st|st1 l st2 ls st3 Hst Hs IH]; intros HI Hp; [by left|].
  destruct (pending_step k cp st1 l st2 Hk HI Hst Hp) as [Hp2|[(f & -> & Hf)| ->]].
  - destruct (IH (ustep_inv _ _ _ Hst HI) Hp2) as [?|[(f & Hin & Hf)|?]]; [by left| |].
    + right. left. exists f. split; [by right|done].
    + right. right. by right.
  - right. left. exists f. split; [left|done].
  - right. right. left.
Qed.

Lemma quiet_zero st cp : uinv st -> worker st = WIdle -> ulist st = [] -> uf st cp = 0.
Proof using Type.
  intros HI Ew El. apply (ui_unlisted _ HI); [rewrite El; apply not_elem_of_nil|]. unfold current. by rewrite Ew.
Qed.
End updates.
