(* ===== verification/UpdateProps.v ===== *)
(** * The update list: properties

    The claims about the update list: its states and assertions, that requests
    are carried out, that [umem_remove_updates] neither returns early nor sleeps
    for ever, and what an undisturbed run of [umem_process_updates] does. *)
From S2P Require Import Prelude Machine SlabModel UpdateModel UpdateInv.

#[local] Arguments Z.testbit : simpl never.
#[local] Arguments Z.lor : simpl never.
#[local] Arguments Z.land : simpl never.
#[local] Arguments Z.lnot : simpl never.

(** ** Runs of the worker *)

Lemma iter_app n m st ls st1 ls' st2 :
  length ls = n -> process_iter n st = Ok (ls, st1) -> process_iter m st1 = Ok (ls', st2) ->
  process_iter (n + m) st = Ok (ls ++ ls', st2).
Proof.
  revert st ls. induction n as [|n IH]; intros st ls Hl; simpl.
  - destruct ls; [|done]. intros [= <-]. done.
  - destruct (process_step st) as [[[l st']|]|]; simpl; [|done|by intros [= <- <-]].
    destruct (process_iter n st') as [[ls1 st1']|] eqn:E; simpl; [|done]. intros [= <- ->] Hm.
    rewrite (IH st' ls1); [done| |done|done]. simpl in Hl. lia.
Qed.

Lemma iter_one st l st' : process_step st = Some (Ok (l, st')) -> process_iter 1 st = Ok ([l], st').
Proof. intros E. simpl. by rewrite E. Qed.

Lemma iter_works cp f todo n st :
  worker st = WRun cp f todo n ->
  process_iter (length todo) st = Ok (LWork cp <$> todo, set_worker (WRun cp f [] n) st).
Proof.
  revert st. induction todo as [|wk todo IH]; intros st Ew; simpl; [by destruct st; simpl in *; subst|].
  unfold process_step. rewrite Ew. cbn [res_bind]. rewrite IH by done. done.
Qed.

(** ** Inversion of steps *)

(** The labels of the worker. *)
Definition worker_label (l : label) : bool :=
  match l with LDone | LTake _ | LBegin _ _ | LWork _ _ | LEnd _ | LFinish _ => true | _ => false end.

Lemma process_label st l st' :
  process_step st = Some (Ok (l, st')) ->
  worker_label l = true /\ (forall cp, l = LFinish cp -> worker st' = WHead).
Proof.
  unfold process_step. intros E. destruct (worker st) as [| |c n|c f [|wk todo] n]; try done.
  - destruct (ulist st) as [|c rest]; [by injection E as <- <-|]. destruct (has _ _); [done|]. by injection E as <- <-.
  - destruct (_ =? _); by injection E as <- <-.
  - destruct (has _ _); by injection E as <- <-.
  - by injection E as <- <-.
Qed.

Lemma ladd_inv caches st cp flags st' :
  ustep caches st (LAdd cp flags) st' ->
  exists in_update, lock_free st = true /\ work_flags flags /\ cp ∈ caches /\
    umem_add_update in_update st cp flags = Ok st'.
Proof.
  remember (LAdd cp flags) as l eqn:El. intros Hst.
  destruct Hst as [st l st' E| |st iu c fl st' Hl Hw Hc E| |st iu' c st' d Hl Hwt Hc E|]; try done.
  - subst l. by destruct (process_label _ _ _ E).
  - injection El as -> ->. eauto.
  - by destruct d.
Qed.

Lemma lremoved_inv caches st cp st' :
  ustep caches st (LRemoved cp) st' -> lock_free st = true /\ umem_remove_updates false st cp = Ok (st', true).
Proof.
  remember (LRemoved cp) as l eqn:El. intros Hst.
  destruct Hst as [st l st' E| | | |st iu' c st' d Hl Hwt Hc E|]; try done.
  - subst l. by destruct (process_label _ _ _ E).
  - destruct d; [|done]. injection El as ->. split; [done|]. by apply remove_in_update in E.
Qed.

Lemma lfinish_inv caches st cp st' : ustep caches st (LFinish cp) st' -> worker st' = WHead.
Proof.
  remember (LFinish cp) as l eqn:El. intros Hst.
  destruct Hst as [st l st' E| | | |st iu' c st' d Hl Hwt Hc E|]; try done.
  - destruct (process_label _ _ _ E) as [_ H]. by apply (H cp).
  - by destruct d.
Qed.

Section updates.
Context (caches : list Z).
Abbreviation uinv := (uinv caches).

(** The pass over one cache: taken off the list, worked on for the flags it had,
    done. *)
Definition pass (st : upd) (cp : Z) : list label :=
  let f := Z.lor (uf st cp) UMU_ACTIVE in
  [LTake cp; LBegin cp f] ++ (LWork cp <$> works f) ++ [LEnd cp; LFinish cp].

Lemma pass_run st cp rest :
  uinv st -> worker st = WHead -> ulist st = cp :: rest ->
  exists st', process_iter (length (pass st cp)) st = Ok (pass st cp, st') /\ uinv st' /\
    worker st' = WHead /\ ulist st' = rest /\ forall c, cp <> c -> uf st' c = uf st c.
Proof using Type.
  intros HI Ew El.
  destruct (ui_listed _ _ HI cp) as (Hn & H27 & H31 & _); [rewrite El; left|].
  set (f := Z.lor (uf st cp) UMU_ACTIVE).
  set (st1 := set_worker (WCheck cp false) (set_ulist rest st)).
  set (st2 := set_worker (WRun cp f (works f) false) (set_uf cp f st1)).
  set (st3 := set_worker (WRun cp f [] false) st2).
  set (st4 := set_worker (WCheck cp false) (set_uf cp 0 st3)).
  set (st5 := set_worker WHead st4).
  assert (S1 : process_step st = Some (Ok (LTake cp, st1))).
  { unfold process_step. rewrite Ew, El, has_active, H31. done. }
  assert (S2 : process_step st1 = Some (Ok (LBegin cp f, st2))).
  { unfold process_step. cbn [worker st1 set_worker]. change (uf st1 cp) with (uf st cp).
    by rewrite (proj2 (Z.eqb_neq _ _)). }
  assert (U3 : uf st3 cp = f) by (change (uf (set_uf cp f st1) cp = f); apply uf_set_eq).
  assert (Hf27 : Z.testbit f 27 = false) by (unfold f; by rewrite Z.lor_spec, H27, bit_active by lia).
  assert (S4 : process_step st3 = Some (Ok (LEnd cp, st4))).
  { unfold process_step. cbn [worker st3 set_worker]. rewrite U3, has_notify, Hf27. unfold st4.
    by rewrite Z.land_lnot_diag. }
  assert (S5 : process_step st4 = Some (Ok (LFinish cp, st5))).
  { unfold process_step. cbn [worker st4 set_worker].
    assert (E : uf st4 cp = 0) by (change (uf (set_uf cp 0 st3) cp = 0); apply uf_set_eq). by rewrite E. }
  assert (I1 : uinv st1) by (by apply take_step).
  exists st5. split; [|split; [|split; [done|split; [done|]]]].
  - unfold pass. fold f.
    assert (E12 : process_iter 2 st = Ok ([LTake cp; LBegin cp f], st2)).
    { change 2%nat with (1 + 1)%nat. apply (iter_app 1 1 st [LTake cp] st1 [LBegin cp f]); [done| |]; by apply iter_one. }
    assert (E45 : process_iter 2 st3 = Ok ([LEnd cp; LFinish cp], st5)).
    { change 2%nat with (1 + 1)%nat. apply (iter_app 1 1 st3 [LEnd cp] st4 [LFinish cp]); [done| |]; by apply iter_one. }
    rewrite !length_app, length_fmap. apply (iter_app 2 _ st _ st2); [done|exact E12|].
    apply (iter_app (length (works f)) 2 st2 _ st3); [by rewrite length_fmap|by apply iter_works|exact E45].
  - assert (I2 : uinv st2) by (apply (begin_step _ st1 cp false I1); done).
    assert (Hwk : forall todo s, uinv s -> worker s = WRun cp f todo false -> uinv (set_worker (WRun cp f [] false) s)).
    { induction todo as [|wk todo IH]; intros s Hs Es; [by destruct s; simpl in *; subst|].
      assert (E : process_step s = Some (Ok (LWork cp wk, set_worker (WRun cp f todo false) s)))
        by (unfold process_step; by rewrite Es).
      destruct (process_run _ s _ Hs E) as (l & s' & [= <- <-] & Hs').
      apply (IH (set_worker (WRun cp f todo false) s) Hs' eq_refl). }
    pose proof (Hwk _ st2 I2 eq_refl) as I3. fold st3 in I3.
    destruct (process_run _ _ _ I3 S4) as (l4 & s4 & [= <- <-] & I4).
    destruct (process_run _ _ _ I4 S5) as (l5 & s5 & [= <- <-] & I5). exact I5.
  - intros c Hne. change (uf (set_uf cp 0 (set_worker (WRun cp f [] false) (set_worker (WRun cp f (works f) false) (set_uf cp f st1)))) c = uf st c).
    rewrite uf_set_ne by done. change (uf (set_uf cp f st1) c = uf st c). by rewrite uf_set_ne.
Qed.

(** All passes of a run, in the order of the list. *)
Definition passes (st : upd) (l : list Z) : list label := l ≫= pass st.

Lemma passes_run l st :
  uinv st -> worker st = WHead -> ulist st = l ->
  exists st', process_iter (length (passes st l)) st = Ok (passes st l, st') /\ uinv st' /\
    worker st' = WHead /\ ulist st' = [].
Proof using Type.
  revert st. induction l as [|cp l IH]; intros st HI Ew El; [by exists st|].
  destruct (pass_run st cp l HI Ew El) as (st1 & E1 & I1 & W1 & L1 & U1).
  destruct (IH st1 I1 W1 L1) as (st' & E2 & I2 & W2 & L2). exists st'. split; [|done].
  assert (Ep : passes st1 l = passes st l).
  { pose proof (ui_nodup _ _ HI) as Hn. rewrite El in Hn. apply NoDup_cons in Hn as [Hcp _].
    unfold passes. clear -Hcp U1. induction l as [|c l IH]; [done|]. rewrite !bind_cons. f_equal; [|apply IH; set_solver].
    unfold pass. by rewrite U1 by set_solver. }
  rewrite Ep in E2. unfold passes. rewrite bind_cons, length_app.
  eapply iter_app; [done|exact E1|exact E2].
Qed.

(** ** Claims *)

(** C21: In every state of the update machinery that is reachable by requests,
    removals, passes of the worker and forks by threads other than the worker, a
    cache is Inactive (no flags, not on the list), Work Requested (on the list
    once, with work and without the active mark) or Active (off the list,
    marked, and the one cache the worker is working on), and no assertion of the
    code can fail: every operation a thread may start in that state returns, the
    child of such a fork included, with one exception, a worker that removes the
    very cache it is working on. *)
Theorem update_states (ls : list label) (st : upd) :
  usteps caches upd0 ls st ->
  NoDup (ulist st) /\
  (forall cp, lock_free st = true ->
     (uf st cp = 0 /\ (cp ∉ ulist st) /\ current st <> Some cp) \/
     (uf st cp <> 0 /\ cp ∈ ulist st /\ has (uf st cp) UMU_ACTIVE = false /\ current st <> Some cp) \/
     (has (uf st cp) UMU_ACTIVE = true /\ (cp ∉ ulist st) /\ current st = Some cp)) /\
  (forall r, process_step st = Some r -> exists l st', r = Ok (l, st')) /\
  (lock_free st = true -> forall in_update cp flags, work_flags flags -> cp ∈ caches ->
     (exists st', umem_add_update in_update st cp flags = Ok st') /\
     (exists st', umem_updateall in_update caches st flags = Ok st') /\
     (in_update = false \/ current st <> Some cp -> exists st' r, umem_remove_updates in_update st cp = Ok (st', r)) /\
     (exists st', umem_do_release false caches st = Ok st')).
Proof using Type.
  intros Hs. pose proof (usteps_inv _ _ _ _ Hs (uinv0 _)) as HI. split; [apply HI|]. split; [|split].
  - intros cp Hl. destruct (has (uf st cp) UMU_ACTIVE) eqn:Ha.
    + right. right. destruct (active_current _ _ _ HI Hl Ha) as (f & todo & n & Ew).
      split; [done|]. split; [|unfold current; by rewrite Ew].
      intros Hin. by rewrite (listed_not_active _ _ _ HI Hin) in Ha.
    + destruct (decide (cp ∈ ulist st)) as [Hin|Hin].
      * right. left. by destruct (ui_listed _ _ HI cp Hin) as (? & _ & _ & ?).
      * left. split; [by eapply inactive_zero|]. split; [done|]. intros Hc.
        pose proof (ui_worker _ _ HI) as Hw. unfold current, worker_ok, lock_free in *.
        destruct (worker st) as [| |c n|c f todo n]; try done. injection Hc as ->. destruct Hw as (Hsub & F31 & _).
        rewrite has_active in Ha. by rewrite (Hsub 31) in Ha.
  - intros r E. destruct (process_run _ st r HI E) as (l & st' & -> & _). eauto.
  - intros Hl iu cp flags Hw Hc. split_and!.
    + destruct (add_update_run _ iu st cp flags HI Hl Hw Hc) as (st' & ? & _). eauto.
    + destruct (updateall_run _ iu st flags HI Hl Hw) as (st' & ? & _). eauto.
    + destruct (remove_run _ st cp HI Hl) as (st' & r & ? & _).
      intros [->|Hne]; [eauto|]. rewrite (remove_not_current _ iu st cp HI Hl Hne). eauto.
    + destruct (do_release_run _ st HI Hl) as (st' & ? & _). eauto.
Qed.

(** C22: No request is lost: once the list has been worked off, a kind of work that
    umem_add_update asked for a cache has been taken on by a pass that began after the
    request, or the cache's updates were removed, or the request came while a
    pass over that cache had already taken on that kind of work. *)
Theorem requests_carried_out (k cp flags : Z) (ls1 ls2 : list label) (st1 st2 st3 : upd) :
  work_bit k -> Z.testbit flags k = true ->
  usteps caches upd0 ls1 st1 -> ustep caches st1 (LAdd cp flags) st2 -> usteps caches st2 ls2 st3 ->
  worker st3 = WIdle -> ulist st3 = [] ->
  (exists f, LBegin cp f ∈ ls2 /\ Z.testbit f k = true) \/ LRemoved cp ∈ ls2 \/
  (exists f todo n, worker st1 = WRun cp f todo n /\ Z.testbit f k = true).
Proof using Type.
  intros Hk Hf Hs1 Hst Hs2 Ew El. pose proof (usteps_inv _ _ _ _ Hs1 (uinv0 _)) as HI1.
  pose proof (ustep_inv _ _ _ _ Hst HI1) as HI2. pose proof (usteps_inv _ _ _ _ Hs2 HI2) as HI3.
  assert (Hadd : worker st2 = worker st1 /\ Z.testbit (uf st2 cp) k = true).
  { destruct (ladd_inv _ _ _ _ _ Hst) as (iu & Hl & Hw & Hc & E).
    destruct (add_update_run _ iu st1 cp flags HI1 Hl Hw Hc) as (s & E' & _ & W & U). rewrite E in E'. injection E' as <-.
    split; [done|]. rewrite U, decide_True by done. by rewrite Z.lor_spec, Hf, orb_true_r. }
  destruct Hadd as [Ew2 Hb].
  destruct (worker st1) as [| |c n|c f todo n] eqn:Ew1.
  1-3: destruct (pending_trace _ k cp st2 ls2 st3 Hk HI2 Hs2) as [[H _]|[?|?]]; auto;
       [by split; [|rewrite Ew2]|rewrite (quiet_zero _ _ cp HI3 Ew El), Z.bits_0 in H; done].
  destruct (decide (c = cp /\ Z.testbit f k = true)) as [[-> Hfk]|Hno]; [by eauto 10|].
  destruct (pending_trace _ k cp st2 ls2 st3 Hk HI2 Hs2) as [[H _]|[?|?]]; auto.
  - split; [done|]. intros f' todo' n' E. rewrite Ew2 in E. injection E as -> -> -> ->.
    destruct (Z.testbit f' k) eqn:E'; [|done]. destruct Hno. done.
  - by rewrite (quiet_zero _ _ cp HI3 Ew El), Z.bits_0 in H.
Qed.

(** [umem_remove_updates] returns only when the cache is Inactive and the
    worker is not on it, and its sleep ends: while it sleeps the worker is on
    that cache and has its request to be woken, and when the worker is done with
    the cache no thread is left asleep. *)
Theorem remove_waits_for_worker (cp : Z) (ls : list label) (st : upd) :
  usteps caches upd0 ls st ->
  (forall st', ustep caches st (LRemoved cp) st' -> uf st' cp = 0 /\ (cp ∉ ulist st') /\ current st' <> Some cp) /\
  (waits st !! cp = Some false -> current st = Some cp) /\
  (forall st', ustep caches st (LFinish cp) st' -> forall c, waits st' !! c <> Some false).
Proof using Type.
  intros Hs. pose proof (usteps_inv _ _ _ _ Hs (uinv0 _)) as HI. split_and!.
  - intros st' Hst. destruct (lremoved_inv _ _ _ _ Hst) as [Hl E].
    destruct (remove_run _ st cp HI Hl) as (s & r & E' & _ & _ & _ & R). rewrite E in E'. by injection E' as <- <-.
  - intros Hw. pose proof (ui_waits _ _ HI cp Hw) as H. unfold current. destruct (worker st); try done; by destruct H as [-> _].
  - intros st' Hst c Hc. pose proof (ustep_inv _ _ _ _ Hst HI) as HI'.
    pose proof (ui_waits _ _ HI' c Hc) as H.
    by rewrite (lfinish_inv _ _ _ _ Hst) in H.
Qed.

(** What is asked for: for each listed cache, in the order of the list, the
    kinds of work whose flag is set, the rescale of the hash table before the
    resize of the magazines before the reap. *)
Definition flag_of (w : work) : Z :=
  match w with DoResize => UMU_MAGAZINE_RESIZE | DoRescale => UMU_HASH_RESCALE | DoReap => UMU_REAP end.
Definition wanted (f : Z) : list work :=
  filter (fun w => Z.land f (flag_of w) <> 0) [DoRescale; DoResize; DoReap].
Definition requested (st : upd) : list (Z * work) :=
  ulist st ≫= fun cp => (fun w => (cp, w)) <$> wanted (uf st cp).

(** The work done in a run. *)
Definition work_of (l : label) : option (Z * work) := match l with LWork cp w => Some (cp, w) | _ => None end.

Lemma wanted_works f : wanted f = works (Z.lor f UMU_ACTIVE).
Proof using Type.
  assert (E : forall m, Z.land UMU_ACTIVE m = 0 -> has (Z.lor f UMU_ACTIVE) m = negb (Z.land f m =? 0)).
  { intros m Hm. unfold has. by rewrite Z.land_lor_distr_l, Hm, Z.lor_0_r. }
  unfold wanted, works. rewrite !E by reflexivity. rewrite !filter_cons, filter_nil. unfold flag_of.
  destruct (Z.eqb_spec (Z.land f UMU_HASH_RESCALE) 0), (Z.eqb_spec (Z.land f UMU_MAGAZINE_RESIZE) 0),
    (Z.eqb_spec (Z.land f UMU_REAP) 0); repeat (case_decide; try done).
Qed.

Lemma passes_work st l :
  omap work_of (passes st l) = l ≫= (fun cp => (fun w => (cp, w)) <$> wanted (uf st cp)).
Proof using Type.
  induction l as [|cp l IH]; [done|]. unfold passes in *. rewrite !bind_cons, omap_app, IH. f_equal.
  unfold pass. rewrite !omap_app, wanted_works. simpl. rewrite app_nil_r.
  induction (works _) as [|w ws IHw]; [done|]. simpl. by f_equal.
Qed.

Lemma passes_bound st l : (length (passes st l) <= 7 * length l)%nat.
Proof using Type.
  induction l as [|cp l IH]; [done|]. unfold passes in *. rewrite bind_cons, length_app. unfold pass at 1.
  rewrite !length_app, length_fmap. simpl length.
  assert ((length (works (Z.lor (uf st cp) UMU_ACTIVE)) <= 3)%nat)
    by (unfold works; rewrite !length_app; by repeat (destruct (has _ _)); simpl; lia).
  lia.
Qed.

Lemma iter_idle n st : worker st = WIdle -> process_iter n st = Ok ([], st).
Proof using Type. intros Ew. destruct n; [done|]. simpl. unfold process_step. by rewrite Ew. Qed.

(** C40: Left alone, [umem_process_updates] ends, after at most seven steps for
    each listed cache and one more, with an empty list and every cache Inactive;
    the work it has done is exactly the work asked for: for the listed caches in
    the order of the list, each once, the kinds of work whose flags were set, the
    hash rescale before the magazine resize before the reap. *)
Theorem process_updates_run (ls : list label) (st : upd) :
  usteps caches upd0 ls st -> worker st = WIdle ->
  exists done st', omap work_of done = requested st /\
    (forall n, (7 * length (ulist st) + 1 <= n)%nat -> umem_process_updates n st = Ok (done, st')) /\
    worker st' = WIdle /\ ulist st' = [] /\ forall cp, uf st' cp = 0.
Proof using Type.
  intros Hs Ew. pose proof (usteps_inv _ _ _ _ Hs (uinv0 _)) as HI. pose proof (start_run _ st HI Ew) as HI1.
  destruct (passes_run (ulist st) (set_worker WHead st) HI1 eq_refl eq_refl) as (st1 & E & I1 & W1 & L1).
  change (passes (set_worker WHead st)) with (passes st) in E.
  exists (passes st (ulist st) ++ [LDone]), (set_worker WIdle st1).
  assert (Ed : process_step st1 = Some (Ok (LDone, set_worker WIdle st1))) by (unfold process_step; by rewrite W1, L1).
  split; [by rewrite omap_app, passes_work; simpl; rewrite app_nil_r|].
  split; [|split; [done|split; [done|]]].
  - intros n Hn. pose proof (passes_bound st (ulist st)). unfold umem_process_updates.
    replace n with (length (passes st (ulist st)) + (1 + (n - length (passes st (ulist st)) - 1)))%nat by lia.
    eapply iter_app; [done|exact E|]. rewrite <- (app_nil_r [LDone]).
    eapply iter_app; [done|by apply iter_one|by apply iter_idle].
  - destruct (process_run _ _ _ I1 Ed) as (l & s & [= <- <-] & I2). intros cp. by apply (quiet_zero _ _ cp I2).
Qed.
End updates.

(** ** Witnesses *)

Lemma iter_usteps caches n st ls st' : process_iter n st = Ok (ls, st') -> usteps caches st ls st'.
Proof.
  revert st ls. induction n as [|n IH]; intros st ls; simpl; [intros [= <- <-]; constructor|].
  destruct (process_step st) as [[[l st1]|]|] eqn:E; simpl; [|done|intros [= <- <-]; constructor].
  destruct (process_iter n st1) as [[ls1 st2]|] eqn:E1; simpl; [|done]. intros [= <- <-].
  econstructor; [by apply SProcess|by apply IH].
Qed.

Lemma usteps_app caches st1 ls1 st2 ls2 st3 :
  usteps caches st1 ls1 st2 -> usteps caches st2 ls2 st3 -> usteps caches st1 (ls1 ++ ls2) st3.
Proof. induction 1; intros; simpl; [done|]. econstructor; eauto. Qed.

Definition ok_or {A} (d : A) (r : result A) : A := match r with Ok a => a | Panic _ => d end.

(** Two caches; a reap and a rescale are asked for the first, a resize for the
    second. *)
Definition two : list Z := [10; 20].
Definition asked1 : upd := ok_or upd0 (umem_add_update false upd0 10 6).
Definition asked2 : upd := ok_or upd0 (umem_add_update false asked1 20 1).

Lemma asked1_step : ustep two upd0 (LAdd 10 6) asked1.
Proof. apply (SAdd two upd0 false 10 6); [reflexivity|reflexivity|left|vm_compute; reflexivity]. Qed.
Lemma asked2_step : ustep two asked1 (LAdd 20 1) asked2.
Proof. apply (SAdd two asked1 false 20 1); [reflexivity|reflexivity|right; left|vm_compute; reflexivity]. Qed.
Lemma asked2_reached : usteps two upd0 [LAdd 10 6; LAdd 20 1] asked2.
Proof. econstructor; [exact asked1_step|]. econstructor; [exact asked2_step|constructor]. Qed.

(** The worker in the middle of the pass over the first cache. *)
Definition mid : upd := (ok_or ([], upd0) (umem_process_updates 3 asked2)).2.
Lemma mid_reached : usteps two upd0 ([LAdd 10 6; LAdd 20 1] ++ [LStart; LTake 10; LBegin 10 0x80000006; LWork 10 DoRescale]) mid.
Proof.
  apply (usteps_app _ _ _ asked2); [exact asked2_reached|]. econstructor; [by apply SStart|].
  apply (iter_usteps _ 3). vm_compute. reflexivity.
Qed.

Lemma update_states_witness :
  usteps two upd0 ([LAdd 10 6; LAdd 20 1] ++ [LStart; LTake 10; LBegin 10 0x80000006; LWork 10 DoRescale]) mid /\
  NoDup (ulist mid) /\ has (uf mid 10) UMU_ACTIVE = true /\ ulist mid = [20].
Proof.
  split; [exact mid_reached|].
  destruct (update_states two _ mid mid_reached) as (H & _). split; [exact H|]. split; vm_compute; reflexivity.
Defined.

Lemma process_updates_run_witness :
  requested asked2 = [(10, DoRescale); (10, DoReap); (20, DoResize)] /\
  exists done st', omap work_of done = requested asked2 /\
    (forall n, (7 * length (ulist asked2) + 1 <= n)%nat -> umem_process_updates n asked2 = Ok (done, st')) /\
    worker st' = WIdle /\ ulist st' = [] /\ forall cp, uf st' cp = 0.
Proof. split; [vm_compute; reflexivity|]. exact (process_updates_run two _ asked2 asked2_reached eq_refl). Defined.

(** The rest of the run after the first request. *)
Definition drained : upd := (ok_or ([], upd0) (umem_process_updates 7 asked1)).2.
Lemma drained_steps :
  usteps two asked1 [LStart; LTake 10; LBegin 10 0x80000006; LWork 10 DoRescale; LWork 10 DoReap; LEnd 10; LFinish 10; LDone] drained.
Proof. econstructor; [by apply SStart|]. apply (iter_usteps _ 7). vm_compute. reflexivity. Qed.

Lemma requests_carried_out_witness :
  (exists f, LBegin 10 f ∈ [LStart; LTake 10; LBegin 10 0x80000006; LWork 10 DoRescale; LWork 10 DoReap; LEnd 10; LFinish 10; LDone] /\
     Z.testbit f 2 = true) \/
  LRemoved 10 ∈ [LStart; LTake 10; LBegin 10 0x80000006; LWork 10 DoRescale; LWork 10 DoReap; LEnd 10; LFinish 10; LDone] \/
  (exists f todo n, worker upd0 = WRun 10 f todo n /\ Z.testbit f 2 = true).
Proof.
  apply (requests_carried_out two 2 10 6 [] _ upd0 asked1 drained).
  - right. right. reflexivity.
  - vm_compute. reflexivity.
  - constructor.
  - exact asked1_step.
  - exact drained_steps.
  - vm_compute. reflexivity.
  - vm_compute. reflexivity.
Defined.

Lemma remove_waits_for_worker_witness :
  (forall st', ustep two mid (LRemoved 20) st' -> uf st' 20 = 0 /\ (20 ∉ ulist st') /\ current st' <> Some 20) /\
  (exists st', ustep two mid (LRemoved 20) st').
Proof.
  split; [exact (proj1 (remove_waits_for_worker two 20 _ mid mid_reached))|].
  eexists. apply (SRemove two mid false 20 _ true).
  - vm_compute. reflexivity.
  - vm_compute. discriminate.
  - right. left.
  - vm_compute. reflexivity.
Defined.

(** ** A request that comes too late

    A reap asked for after the worker has done the reap of the pass it is in is
    not carried out: the end of the pass clears the flag. *)
Definition reaped_once : upd := (ok_or ([], upd0) (umem_process_updates 4 asked1)).2.
Definition asked_again : upd := ok_or upd0 (umem_add_update false reaped_once 10 UMU_REAP).

Theorem late_request_dropped :
  usteps two upd0 [LAdd 10 6; LStart; LTake 10; LBegin 10 0x80000006; LWork 10 DoRescale; LWork 10 DoReap] reaped_once /\
  ustep two reaped_once (LAdd 10 UMU_REAP) asked_again /\
  exists st', usteps two asked_again [LEnd 10; LFinish 10; LDone] st' /\ worker st' = WIdle /\ ulist st' = [].
Proof.
  split; [|split].
  - econstructor; [exact asked1_step|]. econstructor; [by apply SStart|]. apply (iter_usteps _ 4). vm_compute. reflexivity.
  - apply (SAdd two reaped_once false 10 UMU_REAP); [vm_compute; reflexivity|reflexivity|left|vm_compute; reflexivity].
  - eexists. split; [apply (iter_usteps _ 3); vm_compute; reflexivity|]. split; vm_compute; reflexivity.
Qed.

(** ** A fork by the worker

    The worker forks in the middle of a pass (a reclaim callback may).  In the
    child the cache it is on goes back to the list although it carries on with
    it; a request that comes before the pass ends makes it begin another one,
    with the cache marked active and on the list at once, and the assertion of
    [umem_remove_updates] fails for a thread that destroys the cache. *)
Definition forked : upd := ok_or upd0 (umem_do_release true two reaped_once).
Definition forked_asked : upd := ok_or upd0 (umem_add_update true forked 10 UMU_MAGAZINE_RESIZE).
Definition forked_again : upd := (ok_or ([], upd0) (process_iter 2 forked_asked)).2.

Theorem worker_fork_breaks :
  umem_do_release true two reaped_once = Ok forked /\ worker forked = worker reaped_once /\ ulist forked = [10] /\
  umem_add_update true forked 10 UMU_MAGAZINE_RESIZE = Ok forked_asked /\
  process_iter 2 forked_asked = Ok ([LEnd 10; LBegin 10 (Z.lor UMU_MAGAZINE_RESIZE UMU_ACTIVE)], forked_again) /\
  has (uf forked_again 10) UMU_ACTIVE = true /\ ulist forked_again = [10] /\
  umem_remove_updates false forked_again 10 = Panic "umem_remove_updates: cache_unext == NULL".
Proof. split_and!; vm_compute; reflexivity. Qed.
