(* ===== verification/ByteMem.v ===== *)
(** * Byte memory

    Memory as a map from addresses to bytes, with little-endian loads and
    stores of [n] bytes, [memset] and [memcpy].  The malloc interface reads
    headers at addresses a caller chose, so it needs every byte to have an
    address of its own. *)
From S2P Require Import Prelude Machine.

Definition bytes : Type := gmap Z Z.

Definition ldb (m : bytes) (a : Z) : Z := default 0 (m !! a) mod 256.
Definition stb (m : bytes) (a v : Z) : bytes := <[a := v mod 256]> m.

Fixpoint ldn (n : nat) (m : bytes) (a : Z) : Z :=
  match n with
  | O => 0
  | S n' => ldb m a + 256 * ldn n' m (a + 1)
  end.

Fixpoint stn (n : nat) (m : bytes) (a v : Z) : bytes :=
  match n with
  | O => m
  | S n' => stn n' (stb m a v) (a + 1) (v / 256)
  end.

Definition ldw (m : bytes) (a : Z) : Z := ldn 4 m a.
Definition stw (m : bytes) (a v : Z) : bytes := stn 4 m a v.
Definition ldq (m : bytes) (a : Z) : Z := ldn 8 m a.
Definition stq (m : bytes) (a v : Z) : bytes := stn 8 m a v.

Fixpoint memset (n : nat) (m : bytes) (a v : Z) : bytes :=
  match n with
  | O => m
  | S n' => memset n' (stb m a v) (a + 1) v
  end.

(** [memcpy] of regions that do not overlap: [src] is read from the memory as
    it is when each byte is written. *)
Fixpoint memcpy (n : nat) (m : bytes) (dst src : Z) : bytes :=
  match n with
  | O => m
  | S n' => memcpy n' (stb m dst (ldb m src)) (dst + 1) (src + 1)
  end.

(** ** Agreement of two memories on a range *)

Definition same_on (lo hi : Z) (m m' : bytes) : Prop := forall a, lo <= a < hi -> ldb m' a = ldb m a.

#[global] Instance same_on_equiv lo hi : Equivalence (same_on lo hi).
Proof.
  split; [by intros m a|intros m m' H a Ha; by rewrite H|].
  intros m1 m2 m3 H1 H2 a Ha. by rewrite H2, H1.
Qed.

Lemma same_on_sub lo hi lo' hi' m m' :
  same_on lo hi m m' -> lo <= lo' -> hi' <= hi -> same_on lo' hi' m m'.
Proof. intros H ?? a Ha. apply H. lia. Qed.

Lemma ldb_range m a : 0 <= ldb m a < 256.
Proof. unfold ldb. apply Z.mod_pos_bound. lia. Qed.

Lemma ldb_stb m a v x : ldb (stb m a v) x = if decide (a = x) then v mod 256 else ldb m x.
Proof.
  unfold ldb, stb, bytes in *. case_decide as E.
  - subst. rewrite lookup_insert_eq. simpl. by rewrite Z.mod_mod by lia.
  - by rewrite lookup_insert_ne.
Qed.

Lemma stn_out n m a v x : x < a \/ a + Z.of_nat n <= x -> ldb (stn n m a v) x = ldb m x.
Proof.
  revert m a v. induction n as [|n IH]; intros m a v Hx; [done|]. simpl.
  rewrite IH by lia. rewrite ldb_stb, decide_False by lia. done.
Qed.

Lemma stn_same n m a v lo hi : hi <= a \/ a + Z.of_nat n <= lo -> same_on lo hi m (stn n m a v).
Proof. intros H x Hx. apply stn_out. lia. Qed.

Lemma ldn_same n m m' a : same_on a (a + Z.of_nat n) m m' -> ldn n m' a = ldn n m a.
Proof.
  revert a. induction n as [|n IH]; intros a H; [done|]. simpl.
  rewrite H by lia. rewrite IH; [done|]. eapply same_on_sub; [done|lia|lia].
Qed.

Lemma ldn_range n m a : 0 <= ldn n m a < 2 ^ (8 * Z.of_nat n).
Proof.
  revert a. induction n as [|n IH]; intros a; simpl; [lia|].
  pose proof (ldb_range m a). specialize (IH (a + 1)).
  replace (8 * Z.of_nat (S n)) with (8 + 8 * Z.of_nat n) by lia.
  rewrite Z.pow_add_r by lia. change (2 ^ 8) with 256. lia.
Qed.

Lemma ldn_stn n m a v : ldn n (stn n m a v) a = v mod 2 ^ (8 * Z.of_nat n).
Proof.
  revert m a v. induction n as [|n IH]; intros m a v; simpl ldn; simpl stn.
  - by rewrite Z.mod_1_r.
  - rewrite stn_out by lia. rewrite ldb_stb, decide_True by done.
    rewrite IH. replace (8 * Z.of_nat (S n)) with (8 + 8 * Z.of_nat n) by lia.
    rewrite Z.pow_add_r by lia. change (2 ^ 8) with 256. symmetry. apply Z.rem_mul_r; lia.
Qed.

Lemma ldn_stn_out n k m a v x :
  x + Z.of_nat k <= a \/ a + Z.of_nat n <= x -> ldn k (stn n m a v) x = ldn k m x.
Proof. intros H. apply ldn_same, stn_same. lia. Qed.

(** ** Fills and copies *)

Lemma memset_out n m a v x : x < a \/ a + Z.of_nat n <= x -> ldb (memset n m a v) x = ldb m x.
Proof.
  revert m a. induction n as [|n IH]; intros m a Hx; [done|]. simpl.
  rewrite IH by lia. by rewrite ldb_stb, decide_False by lia.
Qed.

Lemma memset_in n m a v x : a <= x < a + Z.of_nat n -> ldb (memset n m a v) x = v mod 256.
Proof.
  revert m a. induction n as [|n IH]; intros m a Hx; [lia|]. simpl.
  destruct (decide (x = a)) as [->|]; [|apply IH; lia].
  rewrite memset_out by lia. by rewrite ldb_stb, decide_True.
Qed.

Lemma memcpy_out n m d s x : x < d \/ d + Z.of_nat n <= x -> ldb (memcpy n m d s) x = ldb m x.
Proof.
  revert m d s. induction n as [|n IH]; intros m d s Hx; [done|]. simpl.
  rewrite IH by lia. by rewrite ldb_stb, decide_False by lia.
Qed.

Lemma memcpy_in n m d s i :
  d + Z.of_nat n <= s \/ s + Z.of_nat n <= d -> 0 <= i < Z.of_nat n ->
  ldb (memcpy n m d s) (d + i) = ldb m (s + i).
Proof.
  revert m d s i. induction n as [|n IH]; intros m d s i Hd Hi; [lia|]. simpl.
  destruct (decide (i = 0)) as [->|].
  - rewrite !Z.add_0_r, memcpy_out by lia. rewrite ldb_stb, decide_True by done.
    apply Z.mod_small, ldb_range.
  - replace (d + i) with (d + 1 + (i - 1)) by lia. rewrite IH by lia.
    replace (s + 1 + (i - 1)) with (s + i) by lia. by rewrite ldb_stb, decide_False by lia.
Qed.

#[global] Arguments ldn : simpl never.
#[global] Arguments stn : simpl never.
