(* ===== verification/MallocModel.v ===== *)
(** * The malloc interface: tagged blocks and the bootstrap allocator

    Translation of [malloc.c]: the registry of bootstrap mappings, the tags
    [umem_malloc] and [umem_memalign] put before a block, the per-thread cache
    of the last heap span, and the validation [process_free] runs before it
    believes a tag.  What lies below ([_umem_alloc], the memalign arena, the
    heap's published bounds, [mmap]) is the class [malloc_env]. *)
From S2P Require Import Prelude Machine SpanTable VmemArena ByteMem.
From S2P Require Import SlabModel AllocSizes CacheCreate.

Definition ENOMEM : Z := 12.
Definition EAGAIN : Z := 11.
Definition EINVAL : Z := 22.
Definition SIZE_MAX : Z := 2 ^ 64 - 1.
Definition UMEM_READY_STARTUP : Z := 1.
Definition UMEM_READY : Z := 3.

(** ** Tags (umem_impl.h) *)

Definition MALLOC_MAGIC : Z := 0x3a10c000.
Definition MEMALIGN_MAGIC : Z := 0x3e3a1000.
Definition MALLOC_SECOND_MAGIC : Z := 0x16ba7000.
Definition MALLOC_OVERSIZE_MAGIC : Z := 0x06e47000.
Definition UMEM_MALLOC_ENCODE (type sz : Z) : Z := (type - sz) mod 2 ^ 32.
Definition UMEM_MALLOC_DECODE (stat sz : Z) : Z := (stat + sz) mod 2 ^ 32.
Definition UMEM_FREE_PATTERN_32 : Z := UMEM_FREE_PATTERN mod 2 ^ 32.

(** [malloc_data_t]: two 32-bit fields. *)
Definition sizeof_malloc_data : Z := 8.
Definition malloc_size (m : bytes) (p : Z) : Z := ldw m p.
Definition malloc_stat (m : bytes) (p : Z) : Z := ldw m (p + 4).
Definition put_tag (m : bytes) (p sz stat : Z) : bytes := stw (stw m p sz) (p + 4) stat.
Definition put_stat (m : bytes) (p stat : Z) : bytes := stw m (p + 4) stat.

(** ** The registry of bootstrap mappings *)

Definition BOOTSTRAP_MAGIC : Z := 0xB007B007B007B007.
Definition BOOTSTRAP_MAX_DEPTH : Z := 16.
Definition sizeof_bootstrap_header : Z := 16.
Definition MAX_BOOTSTRAP_PTRS : nat := Z.to_nat 256.
Definition BOOTSTRAP_SET_SLOTS : nat := Z.to_nat 1024.

Record bootstrap := Boot {
  bootstrap_ptrs : list (Z * Z);    (* ptr (0: free) and mapping size *)
  bootstrap_pages : list Z;         (* 0 (empty) or page + 1 *)
  bootstrap_live : Z;
  bootstrap_depth : Z
}.

Definition bootstrap0 : bootstrap :=
  Boot (replicate MAX_BOOTSTRAP_PTRS (0, 0)) (replicate BOOTSTRAP_SET_SLOTS 0) 0 0.

Definition bootstrap_page_hash (page : Z) : nat :=
  Z.to_nat (Z.land (Z.shiftr (w64 (page * 0x9E3779B97F4A7C15)) 32) (Z.of_nat BOOTSTRAP_SET_SLOTS - 1)).

(** [(i + 1) & (BOOTSTRAP_SET_SLOTS - 1)] *)
Definition next_slot (i : nat) : nat :=
  Z.to_nat (Z.land (Z.of_nat i + 1) (Z.of_nat BOOTSTRAP_SET_SLOTS - 1)).

Fixpoint set_add_loop (n : nat) (pages : list Z) (page : Z) (i : nat) : list Z * bool :=
  match n with
  | O => (pages, false)
  | S n' =>
      let cur := pages !!! i in
      if cur =? page + 1 then (pages, true)
      else if cur =? 0 then (<[i := page + 1]> pages, true)
      else set_add_loop n' pages page (next_slot i)
  end.

Definition bootstrap_set_add (buf : Z) (pages : list Z) : list Z * bool :=
  let page := Z.shiftr buf 12 in
  set_add_loop BOOTSTRAP_SET_SLOTS pages page (bootstrap_page_hash page).

Fixpoint set_probe_loop (n : nat) (pages : list Z) (page : Z) (i : nat) : bool :=
  match n with
  | O => true
  | S n' =>
      let cur := pages !!! i in
      if cur =? 0 then false
      else if cur =? page + 1 then true
      else set_probe_loop n' pages page (next_slot i)
  end.

Definition bootstrap_set_may_contain (buf : Z) (pages : list Z) : bool :=
  let page := Z.shiftr buf 12 in
  set_probe_loop BOOTSTRAP_SET_SLOTS pages page (bootstrap_page_hash page).

(** The first entry of a pointer table that holds [p]. *)
Definition ptr_slot (p : Z) (tab : list (Z * Z)) : option nat :=
  fst <$> list_find (fun e => e.1 = p) tab.

Definition bootstrap_register (buf total_size : Z) (b : bootstrap) : bootstrap * bool :=
  match ptr_slot 0 (bootstrap_ptrs b) with
  | Some i =>
      let '(pages, _) := bootstrap_set_add buf (bootstrap_pages b) in
      (Boot (<[i := (buf, total_size)]> (bootstrap_ptrs b)) pages
            (bootstrap_live b + 1) (bootstrap_depth b), true)
  | None => (b, false)
  end.

(** The mapping's size, 0 when [buf] is not registered. *)
Definition bootstrap_unregister (buf : Z) (b : bootstrap) : bootstrap * Z :=
  match ptr_slot buf (bootstrap_ptrs b) with
  | Some i =>
      (Boot (<[i := (0, 0)]> (bootstrap_ptrs b)) (bootstrap_pages b)
            (bootstrap_live b) (bootstrap_depth b),
       (bootstrap_ptrs b !!! i).2)
  | None => (b, 0)
  end.

Definition bootstrap_registered (buf : Z) (b : bootstrap) : bool :=
  match ptr_slot buf (bootstrap_ptrs b) with Some _ => true | None => false end.

(** The low twelve bits, the page set, then the table. *)
Definition bootstrap_pointer_p (buf : Z) (b : bootstrap) : bool :=
  if bootstrap_live b =? 0 then false
  else if negb (Z.land buf 4095 =? sizeof_bootstrap_header) then false
  else if negb (bootstrap_set_may_contain buf (bootstrap_pages b)) then false
  else bootstrap_registered buf b.

Definition is_bootstrap_pointer (buf : Z) (b : bootstrap) : bool :=
  if buf =? 0 then false else bootstrap_pointer_p buf b.

Definition boot_depth_add (d : Z) (b : bootstrap) : bootstrap :=
  Boot (bootstrap_ptrs b) (bootstrap_pages b) (bootstrap_live b) (bootstrap_depth b + d).
Definition boot_live_add (d : Z) (b : bootstrap) : bootstrap :=
  Boot (bootstrap_ptrs b) (bootstrap_pages b) (bootstrap_live b + d) (bootstrap_depth b).

(** ** What malloc.c calls *)

Class malloc_env (W : Type) := {
  env_errno : W -> Z;                                  (* errno of this thread *)
  env_set_errno : Z -> W -> W;
  env_ready : W -> Z;                                  (* umem_ready *)
  env_abort : W -> bool;                               (* umem_abort > 0 *)
  env_heap : W -> heap_pub;                            (* vmem_heap_lo, _hi, the span table *)
  env_guard : bool;                                    (* UMEM_ENABLE_RECURSION_GUARD *)
  env_umem_alloc : Z -> W * bytes -> Z * (W * bytes);  (* _umem_alloc(size, UMEM_DEFAULT) *)
  env_umem_free : Z -> Z -> W * bytes -> result (W * bytes);
  env_memalign_arena : W -> bool;                      (* umem_memalign_arena != NULL *)
  env_umem_init : W * bytes -> bool * (W * bytes);
  env_memalign_alloc : Z -> Z -> Z -> W * bytes -> Z * (W * bytes); (* vmem_xalloc: size, align, phase *)
  env_memalign_free : Z -> Z -> W * bytes -> result (W * bytes);    (* vmem_xfree *)
  env_mmap : Z -> W * bytes -> option Z * (W * bytes);
  env_munmap : Z -> Z -> W * bytes -> W * bytes
}.

(** The last span a free landed in (thread-local). *)
Record span_cache := SpanCache { span_cache_lo : Z; span_cache_hi : Z; span_cache_gen : Z }.

(** What [umem_err_recoverable] is told: from free or realloc, the pointer, the
    message. *)
Inductive report :=
| Refused (from_free : bool) (buf : Z) (message : string)
| BadHeader (buf : Z).

Record mstate (W : Type) := MState {
  ms_w : W;
  ms_mem : bytes;
  ms_boot : bootstrap;
  ms_span : span_cache;
  ms_depth : Z;                     (* umem_malloc_recursion_depth *)
  ms_log : list report              (* newest first *)
}.
Arguments MState {W}. Arguments ms_w {W}. Arguments ms_mem {W}. Arguments ms_boot {W}.
Arguments ms_span {W}. Arguments ms_depth {W}. Arguments ms_log {W}.

(** ** Ownership tests *)

Definition hull_contains (lo hi addr len : Z) : bool :=
  let end_ := wadd addr len in
  if (addr =? 0) || (len =? 0) || (end_ <? addr) then false
  else (lo <=? addr) && (end_ <=? hi).

Definition span_owns_cached (h : heap_pub) (addr len : Z) (sc : span_cache) : bool * span_cache :=
  let gen := vmem_span_gen (vmem_heap_tab h) in
  if (gen =? span_cache_gen sc) && (span_cache_lo sc <=? addr) && (wadd addr len <=? span_cache_hi sc)
  then (true, sc)
  else
    match vmem_span_find addr len (vmem_heap_tab h) with
    | FindNo => (false, sc)
    | FindHull => (true, sc)
    | FindIn fb fe =>
        if negb (fb =? 0) && Z.even gen then (true, SpanCache fb fe gen) else (true, sc)
    end.

Definition umem_may_own (h : heap_pub) (addr len : Z) (sc : span_cache) : bool * span_cache :=
  if negb (hull_contains (vmem_heap_lo h) (vmem_heap_hi h) addr len) then (false, sc)
  else span_owns_cached h addr len sc.

(** [hl] is the pair of bounds loaded when the call began. *)
Definition MAY_READ (hl : Z * Z) (h : heap_pub) (p n : Z) : bool :=
  hull_contains hl.1 hl.2 p n || hull_contains (vmem_heap_lo h) (vmem_heap_hi h) p n.

Definition MAY_OWN (hl : Z * Z) (h : heap_pub) (p n : Z) (sc : span_cache) : bool * span_cache :=
  if hull_contains hl.1 hl.2 p n then
    match span_owns_cached h p n sc with
    | (true, sc) => (true, sc)
    | (false, sc) => umem_may_own h p n sc
    end
  else umem_may_own h p n sc.

(** ** The tag of a pointer *)

(** What the switch of [process_free_umem] sets before [validate:]. *)
Record tag := Tag {
  t_base : Z; t_size : Z; t_overhead : Z; t_data : Z;
  t_poison : Z; t_npoison : nat; t_memalign : bool
}.

(** The second tag of the two-tag layouts. *)
Definition two_tags (hl : Z * Z) (h : heap_pub) (m : bytes) (buf size magic : Z) (memalign : bool) : string + tag :=
  let buf := wsub buf sizeof_malloc_data in
  if negb (MAY_READ hl h buf sizeof_malloc_data) then inl "invalid or corrupted buffer"%string
  else
    let high_size := malloc_size m buf in
    if negb (UMEM_MALLOC_DECODE (malloc_stat m buf) high_size =? magic)
    then inl "invalid or corrupted buffer"%string
    else
      let size := wadd size (wshl high_size 32) in
      inr (Tag buf size (2 * sizeof_malloc_data) (wsub size (2 * sizeof_malloc_data)) buf 2 memalign).

(** The switch; [inl] is the message of a refusal. *)
Definition read_tag (hl : Z * Z) (h : heap_pub) (m : bytes) (buf : Z) : string + tag :=
  let size := malloc_size m buf in
  let magic := UMEM_MALLOC_DECODE (malloc_stat m buf) size in
  if magic =? MALLOC_MAGIC then
    inr (Tag buf size sizeof_malloc_data (wsub size sizeof_malloc_data) buf 1 false)
  else if magic =? MALLOC_SECOND_MAGIC then
    inr (Tag (wsub buf sizeof_malloc_data) size (2 * sizeof_malloc_data)
             (wsub size (2 * sizeof_malloc_data)) buf 1 false)
  else if magic =? MALLOC_OVERSIZE_MAGIC then two_tags hl h m buf size MALLOC_MAGIC false
  else if magic =? MEMALIGN_MAGIC then two_tags hl h m buf size MEMALIGN_MAGIC true
  else if malloc_stat m buf =? UMEM_FREE_PATTERN_32 then inl "double-free or invalid buffer"%string
  else inl "invalid or corrupted buffer"%string.

(** [for (i = 0; i < npoison; i++) poison_lo[i].malloc_stat = UMEM_FREE_PATTERN_32;] *)
Fixpoint poison (n : nat) (m : bytes) (p : Z) : bytes :=
  match n with
  | O => m
  | S n' => poison n' (put_stat m p UMEM_FREE_PATTERN_32) (p + sizeof_malloc_data)
  end.
