(* ===== verification/PtrTable.v ===== *)
(** * Tables of pointers

    The bootstrap registry and the interposer's table of libc pointers are the
    same structure: a fixed array of (pointer, size) pairs, 0 marking a free
    slot, searched from the front.  It implements a finite map. *)
From S2P Require Import Prelude Machine VmemArena ByteMem MallocModel.

Definition used (tab : list (Z * Z)) : list (Z * Z) := filter (fun e => e.1 <> 0) tab.

(** [tab] holds exactly the entries of [M], each once. *)
Record ptab (tab : list (Z * Z)) (M : gmap Z Z) : Prop := {
  pt_in p sz : p <> 0 -> (p, sz) ∈ tab <-> M !! p = Some sz;
  pt_uniq : NoDup (used tab).*1;
  pt_zero : M !! 0 = None
}.

Lemma ptr_slot_split p tab i :
  ptr_slot p tab = Some i -> exists l1 sz l2, tab = l1 ++ (p, sz) :: l2 /\ length l1 = i.
Proof.
  unfold ptr_slot. destruct (list_find _ tab) as [[j [q sz]]|] eqn:E; [|done]. intros [= <-].
  apply list_find_Some in E as (E1 & E2 & E3). simpl in E2. subst q.
  exists (take j tab), sz, (drop (S j) tab). rewrite take_drop_middle by done. split; [done|].
  pose proof (lookup_lt_Some _ _ _ E1). rewrite length_take; lia.
Qed.

Lemma ptr_slot_none p tab : ptr_slot p tab = None <-> p ∉ tab.*1.
Proof.
  unfold ptr_slot. destruct (list_find _ tab) as [[j e]|] eqn:E; simpl.
  - apply list_find_Some in E as (E1 & E2 & _). split; [done|]. intros Hn. contradict Hn.
    apply list_elem_of_fmap. exists e. split; [done|]. by eapply list_elem_of_lookup_2.
  - apply list_find_None in E. rewrite Forall_forall in E. split; [|done].
    intros _ ([q s] & -> & Hin)%list_elem_of_fmap. by apply (E _ Hin).
Qed.

Lemma used_app l1 l2 : used (l1 ++ l2) = used l1 ++ used l2.
Proof. apply list.filter_app. Qed.
Lemma used_cons_0 sz l : used ((0, sz) :: l) = used l.
Proof. unfold used. rewrite filter_cons_False; [done|]. simpl. by intros []. Qed.
Lemma used_cons_ne p sz l : p <> 0 -> used ((p, sz) :: l) = (p, sz) :: used l.
Proof. intros Hp. unfold used. by rewrite filter_cons_True. Qed.
Lemma used_replicate n : used (replicate n (0, 0)) = [].
Proof. induction n; [done|simpl; by rewrite used_cons_0]. Qed.

Lemma used_fst p l : p <> 0 -> p ∈ (used l).*1 <-> p ∈ l.*1.
Proof.
  intros Hp. rewrite !list_elem_of_fmap. split; intros (e & -> & He); exists e; (split; [done|]).
  - by apply list_elem_of_filter in He as [_ He].
  - by apply list_elem_of_filter.
Qed.

Lemma used_full l : 0 ∉ l.*1 -> used l = l.
Proof.
  induction l as [|[q z] l IH]; [done|]. intros [Hq E]%not_elem_of_cons.
  rewrite used_cons_ne by done. f_equal. by apply IH.
Qed.

Lemma used_length l : (length (used l) <= length l)%nat.
Proof. apply length_filter. Qed.

Lemma fst_in (p sz : Z) l : (p, sz) ∈ l -> p ∈ l.*1.
Proof. intros H. apply list_elem_of_fmap. by exists (p, sz). Qed.

Lemma insert_split {A} (l1 : list A) x y l2 : <[length l1 := y]> (l1 ++ x :: l2) = l1 ++ y :: l2.
Proof. replace (length l1) with (length l1 + 0)%nat by lia. by rewrite insert_app_r. Qed.

Lemma ptab_key tab M p : ptab tab M -> p <> 0 -> (p ∈ tab.*1 <-> is_Some (M !! p)).
Proof.
  intros Ht Hp. split.
  - intros ([q sz] & -> & Hin)%list_elem_of_fmap. exists sz. by apply (pt_in _ _ Ht).
  - intros [sz Hs]. apply (fst_in p sz). by apply (pt_in _ _ Ht).
Qed.

Lemma ptab_absent tab M p : ptab tab M -> p <> 0 -> M !! p = None -> ptr_slot p tab = None.
Proof. intros Ht Hp Hn. apply ptr_slot_none. rewrite (ptab_key tab M) by done. rewrite Hn. by intros []. Qed.

(** Taking a free slot. *)
Lemma ptab_insert tab M i p sz :
  ptab tab M -> ptr_slot 0 tab = Some i -> p <> 0 -> M !! p = None ->
  ptab (<[i := (p, sz)]> tab) (<[p := sz]> M) /\
  length (used (<[i := (p, sz)]> tab)) = S (length (used tab)).
Proof.
  intros Ht E Hp Hn. destruct (ptr_slot_split _ _ _ E) as (l1 & z & l2 & -> & <-).
  rewrite insert_split. pose proof (ptab_absent _ _ _ Ht Hp Hn) as Hnew.
  apply ptr_slot_none in Hnew. rewrite fmap_app in Hnew. cbn [fmap list_fmap fst] in Hnew.
  assert (N1 : p ∉ l1.*1) by (contradict Hnew; apply elem_of_app; by left).
  assert (N2 : p ∉ l2.*1) by (contradict Hnew; apply elem_of_app; right; apply elem_of_cons; by right).
  split; [split|].
  - intros q sz' Hq. rewrite elem_of_app, elem_of_cons. destruct (decide (q = p)) as [->|Hne].
    + rewrite lookup_insert_eq. split; [|intros [= <-]; auto].
      intros [Hin|[Hin|Hin]]; [by apply fst_in in Hin|by simplify_eq|by apply fst_in in Hin].
    + rewrite lookup_insert_ne by done. rewrite <- (pt_in _ _ Ht q sz' Hq), elem_of_app, elem_of_cons.
      split; intros [?|[?|?]]; auto; simplify_eq.
  - pose proof (pt_uniq _ _ Ht) as U. rewrite used_app, used_cons_0, fmap_app in U.
    rewrite used_app, used_cons_ne, fmap_app by done. cbn [fmap list_fmap fst].
    apply NoDup_app in U as (U1 & U2 & U3). apply NoDup_app. split; [done|]. split.
    + intros x Hx. rewrite elem_of_cons. intros [->|Hx2]; [|by apply (U2 x)].
      by apply (used_fst p l1 Hp) in Hx.
    + constructor; [|done]. by rewrite used_fst.
  - rewrite lookup_insert_ne by done. apply (pt_zero _ _ Ht).
  - rewrite !used_app, used_cons_0, used_cons_ne, !length_app by done. simpl. lia.
Qed.

(** Clearing the slot of a pointer. *)
Lemma ptab_delete tab M p sz :
  ptab tab M -> p <> 0 -> M !! p = Some sz ->
  exists i, ptr_slot p tab = Some i /\ (tab !!! i).2 = sz /\
    ptab (<[i := (0, 0)]> tab) (delete p M) /\ length (used tab) = S (length (used (<[i := (0, 0)]> tab))).
Proof.
  intros Ht Hp Hs. destruct (ptr_slot p tab) as [i|] eqn:E.
  2: { apply ptr_slot_none in E. contradict E. rewrite (ptab_key tab M) by done. by eexists. }
  exists i. split; [done|]. destruct (ptr_slot_split _ _ _ E) as (l1 & z & l2 & -> & <-).
  rewrite insert_split. assert (z = sz) as ->.
  { assert ((p, z) ∈ l1 ++ (p, z) :: l2) as Hin by (apply elem_of_app; right; by left).
    apply (pt_in _ _ Ht) in Hin; [congruence|done]. }
  split; [by erewrite list_lookup_total_correct by (by apply list_lookup_middle)|].
  pose proof (pt_uniq _ _ Ht) as U. rewrite used_app, used_cons_ne, fmap_app in U by done.
  apply NoDup_app in U as (U1 & U2 & U3). cbn [fmap list_fmap fst] in U2, U3. apply NoDup_cons in U3 as [U3 U4].
  split; [split|].
  - intros q sz' Hq. rewrite elem_of_app, elem_of_cons. destruct (decide (q = p)) as [->|Hne].
    + rewrite lookup_delete_eq. split; [|done]. intros [Hin|[Hin|Hin]]; [|by simplify_eq|].
      * exfalso. apply (U2 p); [|by left]. apply used_fst; [done|]. by eapply fst_in.
      * exfalso. apply U3. apply used_fst; [done|]. by eapply fst_in.
    + rewrite lookup_delete_ne by done. rewrite <- (pt_in _ _ Ht q sz' Hq), elem_of_app, elem_of_cons.
      split; intros [?|[?|?]]; auto; simplify_eq.
  - rewrite used_app, used_cons_0, fmap_app. apply NoDup_app. split; [done|]. split; [|done].
    intros x Hx Hx2. apply (U2 x Hx). by right.
  - rewrite lookup_delete_ne by done. apply (pt_zero _ _ Ht).
  - rewrite !used_app, used_cons_0, used_cons_ne, !length_app by done. simpl. lia.
Qed.

Lemma ptab_size tab M : ptab tab M -> length (used tab) = size M.
Proof.
  intros Ht.
  assert (E : M = list_to_map (used tab)).
  { apply map_eq. intros p. apply option_eq. intros sz.
    rewrite <- elem_of_list_to_map by apply (pt_uniq _ _ Ht). unfold used. rewrite list_elem_of_filter. simpl.
    destruct (decide (p = 0)) as [->|Hp]; [rewrite (pt_zero _ _ Ht); naive_solver|].
    rewrite <- (pt_in _ _ Ht) by done. tauto. }
  rewrite E at 1. by rewrite map_size_list_to_map by apply (pt_uniq _ _ Ht).
Qed.

Lemma ptab0 n : ptab (replicate n (0, 0)) ∅.
Proof.
  split; [|rewrite used_replicate; constructor|done].
  intros p sz Hp. rewrite lookup_empty, elem_of_replicate. split; [intros [? _]; congruence|done].
Qed.
