(* ===== verification/MallocOps.v ===== *)
(** * The malloc interface: operations

    [bootstrap_malloc], [bootstrap_free], [umem_malloc], [umem_memalign],
    [process_free] and [umem_malloc_free] of [malloc.c] on the state of
    [MallocModel.v].  A call to a lower layer goes through [call]; NULL is 0. *)
From S2P Require Import Prelude Machine SpanTable VmemArena ByteMem SlabModel AllocSizes CacheCreate MallocModel.

Section ops.
Context {W : Type} `{malloc_env W}.
Implicit Types (s : mstate W).

Definition set_boot (b : bootstrap) s : mstate W :=
  MState (ms_w s) (ms_mem s) b (ms_span s) (ms_depth s) (ms_log s).
Definition set_span (sc : span_cache) s : mstate W :=
  MState (ms_w s) (ms_mem s) (ms_boot s) sc (ms_depth s) (ms_log s).
Definition set_bytes (m : bytes) s : mstate W :=
  MState (ms_w s) m (ms_boot s) (ms_span s) (ms_depth s) (ms_log s).
Definition set_wm (wm : W * bytes) s : mstate W :=
  MState wm.1 wm.2 (ms_boot s) (ms_span s) (ms_depth s) (ms_log s).
Definition set_errno (e : Z) s : mstate W := set_wm (env_set_errno e (ms_w s), ms_mem s) s.
Definition depth_add (d : Z) s : mstate W :=
  MState (ms_w s) (ms_mem s) (ms_boot s) (ms_span s) (ms_depth s + d) (ms_log s).

Definition call {A} (f : W * bytes -> A * (W * bytes)) s : A * mstate W :=
  let '(r, wm) := f (ms_w s, ms_mem s) in (r, set_wm wm s).
Definition call_free (f : W * bytes -> result (W * bytes)) s : result (mstate W) :=
  do wm <- f (ms_w s, ms_mem s); Ok (set_wm wm s).

(** [umem_err_recoverable]: record the report; stop the program when told to. *)
Definition umem_err_recoverable (r : report) s : result (mstate W) :=
  let s := MState (ms_w s) (ms_mem s) (ms_boot s) (ms_span s) (ms_depth s) (r :: ms_log s) in
  if env_abort (ms_w s) then Panic "umem_do_abort" else Ok s.

(** ** malloc_guard.h *)

Definition umem_enter_malloc s : Z * mstate W :=
  if env_guard then (ms_depth s, depth_add 1 s) else (0, s).
Definition umem_exit_malloc s : mstate W := if env_guard then depth_add (-1) s else s.

(** ** The bootstrap allocator *)

Definition bootstrap_malloc (size : Z) s : result (Z * mstate W) :=
  if SIZE_MAX - sizeof_bootstrap_header <? size then Ok (0, set_errno ENOMEM s)
  else
    let total_size := size + sizeof_bootstrap_header in
    let s := set_boot (boot_depth_add 1 (ms_boot s)) s in
    if BOOTSTRAP_MAX_DEPTH <? bootstrap_depth (ms_boot s) then Panic "bootstrap malloc recursion"
    else
      let '(hdr, s) := call (env_mmap total_size) s in
      match hdr with
      | None => Ok (0, set_boot (boot_depth_add (-1) (ms_boot s)) s)
      | Some hdr =>
          let s := set_bytes (stq (ms_mem s) hdr BOOTSTRAP_MAGIC) s in
          let s := set_bytes (stq (ms_mem s) (hdr + 8) total_size) s in
          let '(b, ok) := bootstrap_register (hdr + sizeof_bootstrap_header) total_size (ms_boot s) in
          let s := set_boot b s in
          if ok then
            Ok (hdr + sizeof_bootstrap_header, set_boot (boot_depth_add (-1) (ms_boot s)) s)
          else
            let s := set_wm (env_munmap hdr total_size (ms_w s, ms_mem s)) s in
            let s := set_boot (boot_depth_add (-1) (ms_boot s)) s in
            Ok (0, set_errno ENOMEM s)
      end.

Definition bootstrap_free (buf : Z) s : result (mstate W) :=
  if buf =? 0 then Ok s
  else
    let '(b, sz) := bootstrap_unregister buf (ms_boot s) in
    let s := set_boot b s in
    if sz =? 0 then Ok s
    else
      let hdr := wsub buf sizeof_bootstrap_header in
      do s <- (if negb (ldq (ms_mem s) hdr =? BOOTSTRAP_MAGIC) || negb (ldq (ms_mem s) (hdr + 8) =? sz)
               then umem_err_recoverable (BadHeader buf) s else Ok s);
      let s := set_wm (env_munmap hdr sz (ms_w s, ms_mem s)) s in
      Ok (set_boot (boot_live_add (-1) (ms_boot s)) s).

(** ** Allocation *)

Definition umem_malloc (size_arg : Z) s : result (Z * mstate W) :=
  if negb (env_ready (ms_w s) =? UMEM_READY) then bootstrap_malloc size_arg s
  else
    let '(prev, s) := umem_enter_malloc s in
    if 0 <? prev then bootstrap_malloc size_arg (umem_exit_malloc s)
    else
      let size := wadd size_arg sizeof_malloc_data in
      let '(size, high_size) :=
        if UMEM_SECOND_ALIGN <? size
        then let size := wadd size sizeof_malloc_data in (size, Z.shiftr size 32)
        else (size, 0) in
      if size <? size_arg then Ok (0, set_errno ENOMEM (umem_exit_malloc s))
      else
        let '(ret, s) := call (env_umem_alloc size) s in
        if ret =? 0 then
          Ok (0, set_errno (if size <=? UMEM_MAXBUF then EAGAIN else ENOMEM) (umem_exit_malloc s))
        else if 0 <? high_size then
          let low_size := size mod 2 ^ 32 in
          let m := put_tag (ms_mem s) ret high_size (UMEM_MALLOC_ENCODE MALLOC_MAGIC high_size) in
          let ret := ret + sizeof_malloc_data in
          let m := put_tag m ret low_size (UMEM_MALLOC_ENCODE MALLOC_OVERSIZE_MAGIC low_size) in
          Ok (ret + sizeof_malloc_data, umem_exit_malloc (set_bytes m s))
        else if UMEM_SECOND_ALIGN <? size then
          let low_size := size mod 2 ^ 32 in
          let ret := ret + sizeof_malloc_data in
          let m := put_tag (ms_mem s) ret low_size (UMEM_MALLOC_ENCODE MALLOC_SECOND_MAGIC low_size) in
          Ok (ret + sizeof_malloc_data, umem_exit_malloc (set_bytes m s))
        else
          let m := put_tag (ms_mem s) ret size (UMEM_MALLOC_ENCODE MALLOC_MAGIC size) in
          Ok (ret + sizeof_malloc_data, umem_exit_malloc (set_bytes m s)).

Definition umem_memalign (align size_arg : Z) s : result (Z * mstate W) :=
  if (size_arg =? 0) || (align =? 0) || negb (Z.land align (wsub align 1) =? 0)
  then Ok (0, set_errno EINVAL s)
  else if (align <=? UMEM_ALIGN) || ((align <=? UMEM_SECOND_ALIGN) && (UMEM_SECOND_ALIGN <=? size_arg))
  then umem_malloc size_arg s
  else
    let overhead := 2 * sizeof_malloc_data in
    if negb (overhead <=? align) then Panic "assertion failed: overhead <= align"
    else
      let size := wadd size_arg overhead in
      let phase := align - overhead in
      let '(up, s) := if env_memalign_arena (ms_w s) then (true, s) else call env_umem_init s in
      if negb up then Ok (0, set_errno ENOMEM s)
      else if size <? size_arg then Ok (0, set_errno ENOMEM s)
      else
        let '(buf, s) := call (env_memalign_alloc size align phase) s in
        if buf =? 0 then
          Ok (0, set_errno (if wadd size_arg align <=? UMEM_MAXBUF then EAGAIN else ENOMEM) s)
        else
          let low_size := size mod 2 ^ 32 in
          let high_size := Z.shiftr size 32 in
          let m := put_tag (ms_mem s) buf high_size (UMEM_MALLOC_ENCODE MEMALIGN_MAGIC high_size) in
          let ret := buf + sizeof_malloc_data in
          let m := put_tag m ret low_size (UMEM_MALLOC_ENCODE MEMALIGN_MAGIC low_size) in
          let ret := ret + sizeof_malloc_data in
          if negb (P2PHASE ret align =? 0) then Panic "assertion failed: P2PHASE(ret, align) == 0"
          else if negb (ret - overhead =? buf) then Panic "assertion failed: ret - overhead == buf"
          else Ok (ret, set_bytes m s).

(** ** Release *)

(** Steps 2 to 5 of [process_free] with the heap bounds [hl] loaded at the
    start; the result is the return value and what is stored through
    [data_size_arg]. *)
Definition process_free_umem_at (hl : Z * Z) (buf_arg : Z) (do_free : bool) s :
    result (bool * option Z * mstate W) :=
  let old_errno := env_errno (ms_w s) in
  let buf := wsub buf_arg sizeof_malloc_data in
  if negb (MAY_READ hl (env_heap (ms_w s)) buf sizeof_malloc_data) then
    do s <- umem_err_recoverable (Refused do_free buf_arg "not a libumem allocation") s;
    Ok (false, None, set_errno old_errno s)
  else
    match read_tag hl (env_heap (ms_w s)) (ms_mem s) buf with
    | inl message =>
        do s <- umem_err_recoverable (Refused do_free buf_arg message) s;
        Ok (false, None, set_errno old_errno s)
    | inr t =>
        let '(own, s) :=
          if t_size t <? t_overhead t then (false, s)
          else let '(own, sc) := MAY_OWN hl (env_heap (ms_w s)) (t_base t) (t_size t) (ms_span s) in
               (own, set_span sc s) in
        if negb own then
          do s <- umem_err_recoverable (Refused do_free buf_arg "header claims a block that is not ours") s;
          Ok (false, None, set_errno old_errno s)
        else if do_free then
          let s := set_bytes (poison (t_npoison t) (ms_mem s) (t_poison t)) s in
          do s <- call_free (if t_memalign t then env_memalign_free (t_base t) (t_size t)
                             else env_umem_free (t_base t) (t_size t)) s;
          Ok (true, None, set_errno old_errno s)
        else Ok (true, Some (t_data t), set_errno old_errno s)
    end.

Definition heap_bounds (w : W) : Z * Z := (vmem_heap_lo (env_heap w), vmem_heap_hi (env_heap w)).

Definition process_free_umem (buf_arg : Z) (do_free : bool) s : result (bool * option Z * mstate W) :=
  process_free_umem_at (heap_bounds (ms_w s)) buf_arg do_free s.

Definition process_free (buf_arg : Z) (do_free : bool) s : result (bool * option Z * mstate W) :=
  if negb (buf_arg =? 0) && bootstrap_pointer_p buf_arg (ms_boot s) then
    let hdr := wsub buf_arg sizeof_bootstrap_header in
    Ok (true, Some (wsub (ldq (ms_mem s) (hdr + 8)) sizeof_bootstrap_header), s)
  else process_free_umem buf_arg do_free s.

(** The one-pass path of [umem_malloc_free] for the layouts with one state
    word; [None] is [goto slow]. *)
Definition free_fast (buf : Z) s : option (result (mstate W)) :=
  let hdr := wsub buf sizeof_malloc_data in
  let h := env_heap (ms_w s) in
  let '(hlo, hhi) := heap_bounds (ms_w s) in
  if negb (hull_contains hlo hhi hdr sizeof_malloc_data) then None
  else
    let size := malloc_size (ms_mem s) hdr in
    let magic := UMEM_MALLOC_DECODE (malloc_stat (ms_mem s) hdr) size in
    let go (base overhead : Z) :=
      if (size <? overhead) || negb (hull_contains hlo hhi base size) then None
      else
        let '(own, sc) := span_owns_cached h base size (ms_span s) in
        if negb own then None
        else
          let s := set_span sc s in
          let s := set_bytes (put_stat (ms_mem s) hdr UMEM_FREE_PATTERN_32) s in
          let old_errno := env_errno (ms_w s) in
          Some (do s <- call_free (env_umem_free base size) s; Ok (set_errno old_errno s)) in
    if magic =? MALLOC_MAGIC then go hdr sizeof_malloc_data
    else if magic =? MALLOC_SECOND_MAGIC then go (wsub hdr sizeof_malloc_data) (2 * sizeof_malloc_data)
    else None.

Definition umem_malloc_free (buf : Z) s : result (mstate W) :=
  if buf =? 0 then Ok s
  else if bootstrap_pointer_p buf (ms_boot s) then bootstrap_free buf s
  else
    match free_fast buf s with
    | Some r => r
    | None => do (_, s) <- process_free_umem buf true s; Ok s
    end.
End ops.
