(* ===== verification/MallocSpan.v ===== *)
(** * The cached ownership test

    [span_owns_cached] answers from the thread's last span when the table's
    generation has not moved.  Here: the answer is the table's own answer, for
    every history of fewer than 2^31 changes of the table since the span was
    cached, and the hull test in front of it refuses nothing the heap owns. *)
From S2P Require Import Prelude Machine SpanTable VmemArena ByteMem MallocModel.

(** The cache is empty, or holds a span of the table it was filled from. *)
Definition cached_at (st : span_table) (sc : span_cache) : Prop :=
  (span_cache_lo sc = 0 /\ span_cache_hi sc = 0) \/
  (span_cache_gen sc = span_seq st /\ SpanEnt (span_cache_lo sc) (span_cache_hi sc) ∈ live st).

(** What the cache may still claim of the present table. *)
Definition cache_fresh (st : span_table) (sc : span_cache) : Prop :=
  (span_cache_lo sc = 0 /\ span_cache_hi sc = 0) \/
  (span_cache_gen sc = span_seq st -> SpanEnt (span_cache_lo sc) (span_cache_hi sc) ∈ live st).

Definition span_cache0 : span_cache := SpanCache 0 0 0.

(** ** The generation counts the changes of the table *)

(** A change either moves the generation by two or leaves the spans alone. *)
Lemma span_exec_gen op st :
  (span_seq (span_exec op st) = span_seq st /\ live (span_exec op st) = live st) \/
  span_seq (span_exec op st) = (span_seq st + 2) mod 2 ^ 32.
Proof.
  assert (E : forall x, vmem_span_write_end (vmem_span_write_begin x) = (x + 2) mod 2 ^ 32).
  { intros x. unfold vmem_span_write_end, vmem_span_write_begin. rewrite Zplus_mod_idemp_l.
    f_equal. lia. }
  destruct op as [b e|b e]; cbn [span_exec].
  - destruct (decide (VMEM_SPAN_MAX <= span_cnt st)%nat).
    + left. rewrite insert_full by done. split; reflexivity.
    + right. unfold vmem_span_table_insert. rewrite decide_False by done. cbn [span_seq]. apply E.
  - unfold vmem_span_table_remove. case_decide; [by left|]. right. cbn [span_seq]. apply E.
Qed.

Lemma span_run_gen ops st :
  0 <= span_seq st < 2 ^ 32 ->
  exists k : nat, (k <= length ops)%nat /\
    span_seq (span_run ops st) = (span_seq st + 2 * Z.of_nat k) mod 2 ^ 32 /\
    (k = O -> live (span_run ops st) = live st).
Proof.
  revert st. induction ops as [|op ops IH]; intros st Hs; simpl.
  - exists O. rewrite Z.add_0_r, Z.mod_small by done. split; [lia|done].
  - fold (span_run ops (span_exec op st)). destruct (span_exec_gen op st) as [[Eg El]|Eg].
    + destruct (IH (span_exec op st)) as (k & Hk & Ek & Hl); [by rewrite Eg|].
      exists k. split; [lia|]. rewrite Eg in Ek. split; [done|]. intros Hk0. by rewrite Hl, El.
    + destruct (IH (span_exec op st)) as (k & Hk & Ek & Hl).
      { rewrite Eg. apply Z.mod_pos_bound. lia. }
      exists (S k). split; [lia|]. split; [|lia]. rewrite Ek, Eg, Zplus_mod_idemp_l. f_equal. lia.
Qed.

Lemma cached_fresh ops st sc :
  0 <= span_seq st < 2 ^ 32 -> Z.of_nat (length ops) < 2 ^ 31 -> cached_at st sc ->
  cache_fresh (span_run ops st) sc.
Proof.
  intros Hs Hn [H|[Hg Hin]]; [by left|]. right. intros Eg.
  destruct (span_run_gen ops st Hs) as (k & Hk & Ek & Hl).
  rewrite Eg in Hg. rewrite Ek in Hg.
  assert (k = O) as ->; [|by rewrite Hl].
  pose proof (Z.div_mod (span_seq st + 2 * Z.of_nat k) (2 ^ 32) ltac:(lia)) as D.
  rewrite Hg in D. nia.
Qed.

(** ** The test *)

Definition real_ptr (addr len : Z) : Prop := 0 < addr /\ real_object addr len.

Lemma owns_in st addr len e :
  span_table_wf st -> real_object addr len -> e ∈ live st -> span_covers addr len e ->
  vmem_span_owns addr len st = true.
Proof.
  intros Hwf Hobj Hin Hc. unfold vmem_span_owns. destruct (span_saturated st) eqn:Es.
  - unfold vmem_span_find. unfold wadd.
    destruct Hobj as (? & ? & ?). rewrite w64_small by (unfold is_word; lia). rewrite Es.
    by destruct (Z.ltb_spec (addr + len) addr); [lia|].
  - destruct e as [fb fe]. by rewrite (proj2 (find_unsat_spec addr len st fb fe Hwf Hobj Es)).
Qed.

Lemma find_live addr len st fb fe :
  span_table_wf st -> real_object addr len -> vmem_span_find addr len st = FindIn fb fe ->
  SpanEnt fb fe ∈ live st.
Proof.
  intros Hwf Hobj E. destruct (span_saturated st) eqn:Es.
  - unfold vmem_span_find in E. rewrite Es in E. by case_match.
  - by apply find_unsat_spec in E as [? _].
Qed.

(** The cached test gives the table's answer, and what it leaves in the cache
    is what was there or a span of this table. *)
Lemma span_owns_cached_exact h addr len sc :
  span_table_wf (vmem_heap_tab h) -> real_ptr addr len -> cache_fresh (vmem_heap_tab h) sc ->
  exists sc', span_owns_cached h addr len sc = (vmem_span_owns addr len (vmem_heap_tab h), sc') /\
    (sc' = sc \/ cached_at (vmem_heap_tab h) sc').
Proof.
  intros Hwf [Hp Hobj] Hc. unfold span_owns_cached. set (st := vmem_heap_tab h) in *.
  assert (Ew : wadd addr len = addr + len).
  { destruct Hobj as (? & ? & ?). unfold wadd. apply w64_small. unfold is_word; lia. }
  rewrite Ew. destruct (_ && _ && _) eqn:E.
  - apply andb_true_iff in E as [[Eg%Z.eqb_eq El%Z.leb_le]%andb_true_iff Eh%Z.leb_le].
    exists sc. split; [|by left]. f_equal. symmetry. destruct Hc as [[? ?]|Hc].
    + destruct Hobj as (? & ? & ?). lia.
    + eapply owns_in; [done|done|by apply Hc|]. by split.
  - unfold vmem_span_owns. destruct (vmem_span_find addr len st) as [| |fb fe] eqn:F.
    + exists sc. split; [done|by left].
    + exists sc. split; [done|by left].
    + destruct (negb (fb =? 0) && _); eexists; (split; [reflexivity|]); [right|by left].
      right. split; [done|]. by eapply find_live.
Qed.

Lemma hull_real lo hi addr len :
  is_word addr -> is_word len -> hull_contains lo hi addr len = true ->
  0 < addr /\ 0 < len /\ addr + len < 2 ^ 64 /\ lo <= addr /\ addr + len <= hi.
Proof.
  unfold hull_contains, is_word. intros Ha Hl. unfold wadd.
  destruct (Z.eqb_spec addr 0), (Z.eqb_spec len 0); simpl; try done.
  destruct (Z.ltb_spec (w64 (addr + len)) addr) as [|Hge]; [done|].
  intros [E1%Z.leb_le E2%Z.leb_le]%andb_true_iff.
  assert (w64 (addr + len) = addr + len) as Ew;
    [|pose proof (Z.mod_pos_bound (addr + len) (2 ^ 64) ltac:(lia)); unfold w64 in *; lia].
  unfold w64 in *. destruct (Z.lt_ge_cases (addr + len) (2 ^ 64)); [apply Z.mod_small; lia|].
  replace (addr + len) with (addr + len - 2 ^ 64 + 1 * 2 ^ 64) in Hge by lia.
  rewrite Z.mod_add, Z.mod_small in Hge by lia. lia.
Qed.

Lemma hull_word lo hi addr len :
  is_word addr -> is_word len -> hull_contains lo hi addr len = true -> real_ptr addr len.
Proof. intros Ha Hl Hh. apply hull_real in Hh; [|done..]. unfold real_ptr, real_object. lia. Qed.

Lemma hull_true lo hi addr len :
  0 < addr -> 0 < len -> addr + len < 2 ^ 64 -> lo <= addr -> addr + len <= hi ->
  hull_contains lo hi addr len = true.
Proof.
  intros. unfold hull_contains, wadd. rewrite w64_small by (unfold is_word; lia).
  destruct (Z.eqb_spec addr 0), (Z.eqb_spec len 0), (Z.ltb_spec (addr + len) addr); try lia. simpl.
  apply andb_true_iff. split; apply Z.leb_le; lia.
Qed.

(** ** Exactness over a history *)

(** The ownership test of free, which first consults the thread's cached
    span, answers exactly what the heap's span table answers, whatever span was
    cached and however the table changed since (fewer than 2^31 changes, after
    which the 32-bit generation repeats): a span returned to the system is never
    accepted from the cache, and no span is refused because of it.  The cache is
    afterwards as it was, or filled from the present table. *)
Theorem span_cache_exact (st : span_table) (ops : list span_op) (sc : span_cache) (lo hi addr len : Z) :
  let st' := span_run ops st in
  span_table_wf st -> span_table_wf st' -> cached_at st sc -> Z.of_nat (length ops) < 2 ^ 31 ->
  real_ptr addr len ->
  exists sc', span_owns_cached (HeapPub lo hi st') addr len sc = (vmem_span_owns addr len st', sc') /\
    (sc' = sc \/ cached_at st' sc').
Proof.
  intros st' Hwf Hwf' Hc Hn Hp. apply (span_owns_cached_exact (HeapPub lo hi st')); [done|done|].
  apply cached_fresh; [|done|done]. apply (stw_seq _ Hwf).
Qed.

Definition cache_demo0 : span_table := span_run [SpanCreate 0x10000 0x20000] span_empty.
Definition cache_demo_ops : list span_op := [SpanDestroy 0x10000 0x20000; SpanCreate 0x40000 0x50000].

Lemma span_cache_exact_witness :
  exists sc',
    span_owns_cached (HeapPub 0 0 (span_run cache_demo_ops cache_demo0)) 0x10010 0x20
      (SpanCache 0x10000 0x20000 2) =
      (vmem_span_owns 0x10010 0x20 (span_run cache_demo_ops cache_demo0), sc') /\
    (sc' = SpanCache 0x10000 0x20000 2 \/ cached_at (span_run cache_demo_ops cache_demo0) sc').
Proof.
  set (S0 := spec_run [SpanCreate 0x10000 0x20000] ∅).
  assert (H0 : span_refines cache_demo0 S0).
  { apply span_run_refines; [apply span_empty_refines|].
    simpl. split_and!; [lia|set_solver|done]. }
  assert (H1 : span_refines (span_run cache_demo_ops cache_demo0)
                 (spec_run cache_demo_ops S0)).
  { apply span_run_refines; [done|]. unfold S0. simpl. split_and!; done. }
  apply (span_cache_exact cache_demo0 cache_demo_ops (SpanCache 0x10000 0x20000 2) 0 0 0x10010 0x20).
  - apply H0.
  - apply H1.
  - right. split; [reflexivity|]. apply (sr_all _ _ H0); [reflexivity|]. unfold S0. simpl. set_solver.
  - simpl. lia.
  - unfold real_ptr, real_object. lia.
Defined.
