(* ===== verification/MallocTags.v ===== *)
(** * Tags: what malloc writes and what free believes

    The layouts of a tagged block, that [read_tag] recovers from each exactly
    the block [umem_malloc] or [umem_memalign] obtained, and that a pointer
    [process_free] refuses changes nothing. *)
From S2P Require Import Prelude Machine SpanTable VmemArena ByteMem SlabModel AllocSizes CacheCreate MallocModel MallocOps MallocSpan.

(** ** What the layers below promise *)

(** [base, base + size) is memory of the heap, as the heap publishes it. *)
Definition owned (h : heap_pub) (base size : Z) : Prop :=
  hull_contains (vmem_heap_lo h) (vmem_heap_hi h) base size = true /\
  vmem_span_owns base size (vmem_heap_tab h) = true.

Class malloc_laws (W : Type) `{malloc_env W} := {
  law_errno_get e w : env_errno (env_set_errno e w) = e;
  law_errno_same w : env_set_errno (env_errno w) w = w;
  law_errno_heap e w : env_heap (env_set_errno e w) = env_heap w;
  law_umem_alloc size wm base wm' :
    0 < size < 2 ^ 64 -> env_umem_alloc size wm = (base, wm') -> base <> 0 ->
    0 < base /\ base + size < 2 ^ 64 /\ (UMEM_ALIGN | base) /\
    (UMEM_SECOND_ALIGN <= size -> (UMEM_SECOND_ALIGN | base)) /\ owned (env_heap wm'.1) base size;
  law_memalign_alloc size align phase wm base wm' :
    0 < size < 2 ^ 64 -> (exists k, 0 <= k < 64 /\ align = 2 ^ k) -> 0 <= phase < align ->
    env_memalign_alloc size align phase wm = (base, wm') -> base <> 0 ->
    0 < base /\ base + size < 2 ^ 64 /\ (align | base - phase) /\ owned (env_heap wm'.1) base size
}.

(** ** Layouts *)

Inductive layout := Small | Second | Oversize | Aligned.

Definition overhead (l : layout) : Z := match l with Small => 8 | _ => 16 end.
Definition layout_memalign (l : layout) : bool := match l with Aligned => true | _ => false end.

(** The tag of a block of [size] bytes at [base]. *)
Definition tagged (l : layout) (m : bytes) (base size : Z) : Prop :=
  match l with
  | Small => size < 2 ^ 32 /\ malloc_size m base = size /\
             malloc_stat m base = UMEM_MALLOC_ENCODE MALLOC_MAGIC size
  | Second => size < 2 ^ 32 /\ malloc_size m (base + 8) = size /\
              malloc_stat m (base + 8) = UMEM_MALLOC_ENCODE MALLOC_SECOND_MAGIC size
  | Oversize | Aligned =>
      let magic := if layout_memalign l then MEMALIGN_MAGIC else MALLOC_MAGIC in
      let magic' := if layout_memalign l then MEMALIGN_MAGIC else MALLOC_OVERSIZE_MAGIC in
      let hi := Z.shiftr size 32 in
      let low := size mod 2 ^ 32 in
      malloc_size m base = hi /\ malloc_stat m base = UMEM_MALLOC_ENCODE magic hi /\
      malloc_size m (base + 8) = low /\ malloc_stat m (base + 8) = UMEM_MALLOC_ENCODE magic' low
  end.

Lemma decode_encode type sz : 0 <= type < 2 ^ 32 -> UMEM_MALLOC_DECODE (UMEM_MALLOC_ENCODE type sz) sz = type.
Proof.
  intros Ht. unfold UMEM_MALLOC_DECODE, UMEM_MALLOC_ENCODE. rewrite Zplus_mod_idemp_l.
  replace (type - sz + sz) with type by lia. by apply Z.mod_small.
Qed.

Lemma put_tag_here m p sz stat :
  malloc_size (put_tag m p sz stat) p = sz mod 2 ^ 32 /\ malloc_stat (put_tag m p sz stat) p = stat mod 2 ^ 32.
Proof.
  unfold malloc_size, malloc_stat, put_tag, ldw, stw. split.
  - rewrite ldn_stn_out by lia. apply (ldn_stn 4).
  - apply (ldn_stn 4).
Qed.

Lemma put_tag_out m p sz stat lo hi : hi <= p \/ p + 8 <= lo -> same_on lo hi m (put_tag m p sz stat).
Proof.
  intros Hd. unfold put_tag, stw. etransitivity; [apply stn_same|apply stn_same]; lia.
Qed.

Lemma size_same m m' p lo hi : same_on lo hi m m' -> lo <= p -> p + 8 <= hi -> malloc_size m' p = malloc_size m p.
Proof. intros Hs ??. apply ldn_same. eapply same_on_sub; [done|lia|lia]. Qed.

Lemma stat_same m m' p lo hi : same_on lo hi m m' -> lo <= p -> p + 8 <= hi -> malloc_stat m' p = malloc_stat m p.
Proof. intros Hs ??. apply ldn_same. eapply same_on_sub; [done|lia|lia]. Qed.

Lemma tagged_same l m m' base size :
  same_on base (base + overhead l) m m' -> tagged l m base size -> tagged l m' base size.
Proof.
  intros Hs. destruct l; simpl in *;
    rewrite ?(size_same m m' base _ _ Hs), ?(stat_same m m' base _ _ Hs),
            ?(size_same m m' (base + 8) _ _ Hs), ?(stat_same m m' (base + 8) _ _ Hs) by lia; done.
Qed.

Lemma encode_word type sz : UMEM_MALLOC_ENCODE type sz mod 2 ^ 32 = UMEM_MALLOC_ENCODE type sz.
Proof. unfold UMEM_MALLOC_ENCODE. by rewrite Z.mod_mod. Qed.

Lemma tag_small m base size :
  0 <= size < 2 ^ 32 -> tagged Small (put_tag m base size (UMEM_MALLOC_ENCODE MALLOC_MAGIC size)) base size.
Proof.
  intros Hs. destruct (put_tag_here m base size (UMEM_MALLOC_ENCODE MALLOC_MAGIC size)) as [E1 E2].
  simpl. rewrite E1, E2, encode_word. rewrite Z.mod_small by done. split_and!; [lia|done|done].
Qed.

Lemma tag_second m base size :
  0 <= size < 2 ^ 32 ->
  tagged Second (put_tag m (base + 8) size (UMEM_MALLOC_ENCODE MALLOC_SECOND_MAGIC size)) base size.
Proof.
  intros Hs. destruct (put_tag_here m (base + 8) size (UMEM_MALLOC_ENCODE MALLOC_SECOND_MAGIC size)) as [E1 E2].
  simpl. rewrite E1, E2, encode_word. rewrite Z.mod_small by done. split_and!; [lia|done|done].
Qed.

(** The two tags of the large and the aligned layouts. *)
Lemma tag_two l m base size :
  l = Oversize \/ l = Aligned -> 0 <= size < 2 ^ 64 ->
  let magic := if layout_memalign l then MEMALIGN_MAGIC else MALLOC_MAGIC in
  let magic' := if layout_memalign l then MEMALIGN_MAGIC else MALLOC_OVERSIZE_MAGIC in
  let hi := Z.shiftr size 32 in
  let low := size mod 2 ^ 32 in
  tagged l (put_tag (put_tag m base hi (UMEM_MALLOC_ENCODE magic hi)) (base + 8) low
                    (UMEM_MALLOC_ENCODE magic' low)) base size.
Proof.
  intros Hl Hs magic magic' hi low. set (m1 := put_tag m base hi _).
  destruct (put_tag_here m base hi (UMEM_MALLOC_ENCODE magic hi)) as [E1 E2]. fold m1 in E1, E2.
  destruct (put_tag_here m1 (base + 8) low (UMEM_MALLOC_ENCODE magic' low)) as [E3 E4].
  pose proof (put_tag_out m1 (base + 8) low (UMEM_MALLOC_ENCODE magic' low) base (base + 8) ltac:(lia)) as Ho.
  assert (hi mod 2 ^ 32 = hi).
  { unfold hi. rewrite Z.shiftr_div_pow2 by lia. apply Z.mod_small. split; [apply Z.div_pos; lia|].
    apply Z.div_lt_upper_bound; lia. }
  assert (low mod 2 ^ 32 = low) by (unfold low; by rewrite Z.mod_mod).
  rewrite encode_word in *. destruct Hl as [-> | ->]; simpl; fold magic magic' hi low;
    rewrite (size_same _ _ base _ _ Ho), (stat_same _ _ base _ _ Ho), E1, E2, E3, E4 by lia; done.
Qed.

(** ** Reading a tag back *)

Definition tag_of (l : layout) (base size : Z) : tag :=
  match l with
  | Small => Tag base size 8 (size - 8) base 1 false
  | Second => Tag base size 16 (size - 16) (base + 8) 1 false
  | Oversize | Aligned => Tag base size 16 (size - 16) base 2 (layout_memalign l)
  end.

Lemma join_halves size : 0 <= size < 2 ^ 64 -> wadd (size mod 2 ^ 32) (wshl (Z.shiftr size 32) 32) = size.
Proof.
  intros Hs. unfold wadd, wshl. rewrite Z.shiftr_div_pow2, Z.shiftl_mul_pow2 by lia.
  pose proof (Z.div_mod size (2 ^ 32) ltac:(lia)).
  assert (0 <= size / 2 ^ 32) by (apply Z.div_pos; lia).
  pose proof (Z.mod_pos_bound size (2 ^ 32) ltac:(lia)).
  rewrite (w64_small (_ * _)) by (unfold is_word; nia). rewrite w64_small by (unfold is_word; nia). lia.
Qed.

Lemma may_read_cur hl h p n :
  hull_contains (vmem_heap_lo h) (vmem_heap_hi h) p n = true -> MAY_READ hl h p n = true.
Proof. intros E. unfold MAY_READ. rewrite E. apply orb_true_r. Qed.

Lemma hull_sub lo hi a n a' n' :
  is_word a -> is_word n -> hull_contains lo hi a n = true ->
  a <= a' -> 0 < n' -> a' + n' <= a + n -> hull_contains lo hi a' n' = true.
Proof. intros Ha Hn (H1 & H2 & H3 & H4 & H5)%hull_real ???; [|done..]. apply hull_true; lia. Qed.

Lemma read_tag_two hl h m base size l :
  l = Oversize \/ l = Aligned -> 0 < base -> 16 <= size -> base + size < 2 ^ 64 ->
  owned h base size -> tagged l m base size ->
  two_tags hl h m (base + 8) (size mod 2 ^ 32) (if layout_memalign l then MEMALIGN_MAGIC else MALLOC_MAGIC)
    (layout_memalign l) = inr (tag_of l base size).
Proof.
  intros Hl Hb Hs He [Ho _] Ht. unfold two_tags, sizeof_malloc_data.
  assert (E : wsub (base + 8) 8 = base) by (rewrite wsub_small; lia). rewrite E.
  rewrite (may_read_cur hl h base 8) by (eapply hull_sub; [| |exact Ho|lia|lia|lia]; unfold is_word; lia).
  destruct Hl as [-> | ->]; simpl in Ht; destruct Ht as (-> & -> & _ & _); cbn [negb layout_memalign];
    rewrite decode_encode by (unfold MEMALIGN_MAGIC, MALLOC_MAGIC; lia); rewrite Z.eqb_refl; cbn [negb];
    rewrite join_halves by lia; (rewrite wsub_small by lia); reflexivity.
Qed.

Lemma read_tag_ok hl h m base size l :
  0 < base -> overhead l <= size -> base + size < 2 ^ 64 -> owned h base size -> tagged l m base size ->
  read_tag hl h m (base + overhead l - 8) = inr (tag_of l base size).
Proof.
  intros Hb Hs He Ho Ht. unfold read_tag. destruct l; cbn [overhead] in *.
  - replace (base + 8 - 8) with base by lia. destruct Ht as (Hlt & -> & ->).
    rewrite decode_encode by (unfold MALLOC_MAGIC; lia). rewrite Z.eqb_refl. unfold sizeof_malloc_data.
    by rewrite wsub_small by lia.
  - replace (base + 16 - 8) with (base + 8) by lia. destruct Ht as (Hlt & -> & ->).
    rewrite decode_encode by (unfold MALLOC_SECOND_MAGIC; lia). cbn [Z.eqb]. rewrite Z.eqb_refl.
    unfold sizeof_malloc_data. rewrite !wsub_small by lia. by replace (base + 8 - 8) with base by lia.
  - replace (base + 16 - 8) with (base + 8) by lia. pose proof Ht as (_ & _ & E1 & E2).
    cbn [layout_memalign] in E2. rewrite E1, E2.
    rewrite decode_encode by (unfold MALLOC_OVERSIZE_MAGIC; lia).
    apply (read_tag_two hl h m base size Oversize); try done. by left.
  - replace (base + 16 - 8) with (base + 8) by lia. pose proof Ht as (_ & _ & E1 & E2).
    cbn [layout_memalign] in E2. rewrite E1, E2. rewrite decode_encode by (unfold MEMALIGN_MAGIC; lia).
    apply (read_tag_two hl h m base size Aligned); try done. by right.
Qed.

(** ** The tag that was read *)

Lemma encode_decode magic stat sz :
  0 <= stat < 2 ^ 32 -> UMEM_MALLOC_DECODE stat sz = magic -> stat = UMEM_MALLOC_ENCODE magic sz.
Proof.
  intros Hs <-. unfold UMEM_MALLOC_DECODE, UMEM_MALLOC_ENCODE. rewrite Zminus_mod_idemp_l.
  replace (stat + sz - sz) with stat by lia. by rewrite Z.mod_small.
Qed.

Lemma tag_word_range m p : 0 <= malloc_size m p < 2 ^ 32 /\ 0 <= malloc_stat m p < 2 ^ 32.
Proof. split; apply (ldn_range 4). Qed.

Lemma split_halves hi low :
  0 <= hi < 2 ^ 32 -> 0 <= low < 2 ^ 32 ->
  let size := wadd low (wshl hi 32) in
  size = low + hi * 2 ^ 32 /\ Z.shiftr size 32 = hi /\ size mod 2 ^ 32 = low.
Proof.
  intros Hh Hl size. assert (E : size = low + hi * 2 ^ 32).
  { unfold size, wadd, wshl. rewrite Z.shiftl_mul_pow2 by lia.
    rewrite (w64_small (_ * _)) by (unfold is_word; lia). rewrite w64_small by (unfold is_word; lia). done. }
  split; [done|]. rewrite E. split.
  - rewrite Z.shiftr_div_pow2 by lia. rewrite Z.div_add, Z.div_small by lia. lia.
  - rewrite Z.mod_add by lia. by apply Z.mod_small.
Qed.

Lemma two_tags_inv hl h m p magic memalign t :
  two_tags hl h m p (malloc_size m p) magic memalign = inr t ->
  t_base t + t_overhead t = p + 8 -> t_overhead t <= t_size t ->
  t = Tag (p - 8) (t_size t) 16 (t_size t - 16) (p - 8) 2 memalign /\
  malloc_size m (p - 8) = Z.shiftr (t_size t) 32 /\
  malloc_stat m (p - 8) = UMEM_MALLOC_ENCODE magic (Z.shiftr (t_size t) 32) /\
  malloc_size m p = t_size t mod 2 ^ 32.
Proof.
  unfold two_tags, sizeof_malloc_data. destruct (negb (MAY_READ _ _ _ _)); [done|].
  destruct (Z.eqb_spec (UMEM_MALLOC_DECODE (malloc_stat m (wsub p 8)) (malloc_size m (wsub p 8))) magic)
    as [Em|]; [|done].
  cbn [negb]. intros [= <-]. cbn [t_base t_size t_overhead]. intros Eb Hs.
  assert (Ep : wsub p 8 = p - 8) by lia. rewrite Ep in *.
  destruct (tag_word_range m (p - 8)) as [R1 R2]. destruct (tag_word_range m p) as [R3 _].
  destruct (split_halves _ _ R1 R3) as (E & E1 & E2). rewrite E1, E2.
  rewrite wsub_small by lia. split_and!; try done. by apply encode_decode.
Qed.

(** An accepted tag is a tag one of the allocation functions writes. *)
Lemma read_tag_inv hl h m p t :
  read_tag hl h m p = inr t -> t_base t + t_overhead t = p + 8 -> t_overhead t <= t_size t ->
  exists l, t = tag_of l (t_base t) (t_size t) /\ tagged l m (t_base t) (t_size t).
Proof.
  unfold read_tag, sizeof_malloc_data. destruct (tag_word_range m p) as [R1 R2].
  assert (En : forall magic, UMEM_MALLOC_DECODE (malloc_stat m p) (malloc_size m p) = magic ->
    malloc_stat m p = UMEM_MALLOC_ENCODE magic (malloc_size m p)) by (intros; by apply encode_decode).
  destruct (Z.eqb_spec (UMEM_MALLOC_DECODE (malloc_stat m p) (malloc_size m p)) MALLOC_MAGIC) as [E1|_].
  { intros [= <-]. cbn [t_base t_size t_overhead]. intros _ Hs. exists Small. simpl.
    rewrite wsub_small by lia. split_and!; [done|lia|done|by apply En]. }
  destruct (Z.eqb_spec (UMEM_MALLOC_DECODE (malloc_stat m p) (malloc_size m p)) MALLOC_SECOND_MAGIC) as [E1|_].
  { intros [= <-]. cbn [t_base t_size t_overhead]. intros Eb Hs. exists Second. simpl.
    assert (Ep : wsub p 8 = p - 8) by lia. rewrite Ep. replace (p - 8 + 8) with p by lia.
    rewrite wsub_small by lia. split_and!; [done|lia|done|by apply En]. }
  destruct (Z.eqb_spec (UMEM_MALLOC_DECODE (malloc_stat m p) (malloc_size m p)) MALLOC_OVERSIZE_MAGIC) as [E1|_];
    [|destruct (Z.eqb_spec (UMEM_MALLOC_DECODE (malloc_stat m p) (malloc_size m p)) MEMALIGN_MAGIC) as [E1|_];
      [|by destruct (_ =? _)]];
    intros Et Eb Hs; destruct (two_tags_inv _ _ _ _ _ _ _ Et Eb Hs) as (E & H1 & H2 & H3);
    rewrite E; cbn [t_base t_size t_overhead].
  - exists Oversize. simpl. replace (p - 8 + 8) with p by lia. rewrite <- H3. split_and!; try done. by apply En.
  - exists Aligned. simpl. replace (p - 8 + 8) with p by lia. rewrite <- H3. split_and!; try done. by apply En.
Qed.

(** Poisoning writes only inside the tag, and marks it as freed. *)
Lemma poison_tag l m base size :
  let t := tag_of l base size in
  let m' := poison (t_npoison t) m (t_poison t) in
  (forall a, a < base \/ base + overhead l <= a -> ldb m' a = ldb m a) /\
  malloc_stat m' (base + overhead l - 8) = UMEM_FREE_PATTERN_32.
Proof.
  assert (E : UMEM_FREE_PATTERN_32 mod 2 ^ 32 = UMEM_FREE_PATTERN_32) by reflexivity.
  unfold malloc_stat, ldw, put_stat, stw. destruct l; cbn [tag_of t_npoison t_poison poison overhead];
    unfold put_stat, stw, sizeof_malloc_data; (split; [intros a Ha; rewrite ?stn_out by lia; done|]).
  - replace (base + 8 - 8 + 4) with (base + 4) by lia. by rewrite (ldn_stn 4).
  - replace (base + 16 - 8 + 4) with (base + 8 + 4) by lia. by rewrite (ldn_stn 4).
  - replace (base + 16 - 8 + 4) with (base + 8 + 4) by lia. by rewrite (ldn_stn 4).
  - replace (base + 16 - 8 + 4) with (base + 8 + 4) by lia. by rewrite (ldn_stn 4).
Qed.
