(* ===== verification/MallocDemo.v ===== *)
(** * A concrete lower layer for malloc

    One heap span of 64 KiB, blocks handed out in increasing order, aligned
    blocks at its start, bootstrap mappings above it.  It satisfies the laws of
    [MallocTags.v], so the theorems about malloc are about something. *)
From S2P Require Import Prelude Machine SpanTable VmemArena ByteMem SlabModel AllocSizes CacheCreate MallocModel MallocOps MallocSpan MallocTags.

Record demo_world := DemoW { dw_errno : Z; dw_ready : Z; dw_next : Z; dw_page : Z }.

Definition demo_tab : span_table := span_run [SpanCreate 0x10000 0x20000] span_empty.
Definition demo_heap : heap_pub := HeapPub 0x10000 0x20000 demo_tab.

Definition demo_alloc (size : Z) (wm : demo_world * bytes) : Z * (demo_world * bytes) :=
  let '(w, m) := wm in
  let base := roundup (dw_next w) 16 in
  if (0x10000 <=? base) && (0 <? size) && (base + size <=? 0x20000)
  then (base, (DemoW (dw_errno w) (dw_ready w) (base + size) (dw_page w), m))
  else (0, wm).

Definition demo_memalign (size align phase : Z) (wm : demo_world * bytes) : Z * (demo_world * bytes) :=
  if (0x10000 mod align =? 0) && (0x10000 + phase + size <=? 0x20000) then (0x10000 + phase, wm) else (0, wm).

#[global] Instance demo_malloc_env : malloc_env demo_world := {|
  env_errno := dw_errno;
  env_set_errno e w := DemoW e (dw_ready w) (dw_next w) (dw_page w);
  env_ready := dw_ready;
  env_abort _ := false;
  env_heap _ := demo_heap;
  env_guard := true;
  env_umem_alloc := demo_alloc;
  env_umem_free base size wm := Ok wm;
  env_memalign_arena _ := true;
  env_umem_init wm := (true, wm);
  env_memalign_alloc := demo_memalign;
  env_memalign_free base size wm := Ok wm;
  env_mmap n wm :=
    (Some (dw_page wm.1), (DemoW (dw_errno wm.1) (dw_ready wm.1) (dw_next wm.1)
                             (dw_page wm.1 + roundup n 4096), wm.2));
  env_munmap a n wm := wm |}.

Lemma demo_tab_refines : span_refines demo_tab (spec_run [SpanCreate 0x10000 0x20000] ∅).
Proof. apply span_run_refines; [apply span_empty_refines|]. simpl. split_and!; [lia|set_solver|done]. Qed.

Lemma demo_owned base size :
  0x10000 <= base -> 0 < size -> base + size <= 0x20000 -> owned demo_heap base size.
Proof.
  intros H1 H2 H3. split; [apply hull_true; simpl; lia|]. cbn [demo_heap vmem_heap_tab].
  apply (owns_in _ _ _ (SpanEnt 0x10000 0x20000)); [apply (sr_wf _ _ demo_tab_refines)|unfold real_object; lia| |].
  - apply (sr_all _ _ demo_tab_refines); [reflexivity|]. simpl. set_solver.
  - split; simpl; lia.
Qed.

#[global] Instance demo_malloc_laws : malloc_laws demo_world.
Proof.
  split.
  - done.
  - by intros [].
  - done.
  - intros size [w m] base wm' Hs. cbn [env_umem_alloc demo_malloc_env demo_alloc].
    pose proof (roundup_spec (dw_next w) 16 ltac:(lia)) as [_ Hd].
    destruct (Z.leb_spec 0x10000 (roundup (dw_next w) 16)), (Z.ltb_spec 0 size),
      (Z.leb_spec (roundup (dw_next w) 16 + size) 0x20000); simpl; intros [= <- <-]; try done. intros _.
    split_and!; try lia; [|intros _; done|apply demo_owned; lia].
    unfold UMEM_ALIGN. destruct Hd as [k ->]. exists (2 * k). lia.
  - intros size align phase wm base wm' Hs (k & Hk & ->) Hp. cbn [env_memalign_alloc demo_malloc_env demo_memalign].
    unfold demo_memalign.
    destruct (Z.eqb_spec (0x10000 mod 2 ^ k) 0) as [E|], (Z.leb_spec (0x10000 + phase + size) 0x20000);
      simpl; intros [= <- <-]; try done. intros _.
    split_and!; try lia; [|apply demo_owned; lia].
    replace (0x10000 + phase - phase) with 0x10000 by lia. apply Z.mod_divide; [lia|done].
Qed.

Definition demo_s0 : mstate demo_world :=
  MState (DemoW 0 UMEM_READY 0x10000 0x100000) ∅ bootstrap0 span_cache0 0 [].
