(* ===== verification/MallocProps.v ===== *)
(** * Properties of malloc and free

    The fast path of free is the slow path; a refused pointer changes nothing
    and an accepted one names memory of the heap; free gives back exactly the
    block malloc obtained. *)
From S2P Require Import Prelude Machine SpanTable VmemArena ByteMem SlabModel AllocSizes CacheCreate MallocModel MallocOps MallocSpan MallocTags MallocDemo.

(** ** Bounds loaded earlier *)

(** The heap's bounds only widen, so bounds loaded earlier are inside them. *)
Definition narrower (hl : Z * Z) (h : heap_pub) : Prop := vmem_heap_lo h <= hl.1 /\ hl.2 <= vmem_heap_hi h.

Lemma hull_widen hl h p n :
  narrower hl h -> hull_contains hl.1 hl.2 p n = true ->
  hull_contains (vmem_heap_lo h) (vmem_heap_hi h) p n = true.
Proof.
  intros [H1 H2]. unfold hull_contains. destruct (_ || _ || _); [done|].
  rewrite !andb_true_iff, !Z.leb_le. lia.
Qed.

Lemma may_read_narrow hl h p n :
  narrower hl h -> MAY_READ hl h p n = hull_contains (vmem_heap_lo h) (vmem_heap_hi h) p n.
Proof.
  intros Hn. unfold MAY_READ. destruct (hull_contains hl.1 hl.2 p n) eqn:E; [|done].
  by rewrite (hull_widen hl h p n Hn E).
Qed.

Lemma cached_false h p n sc sc' : span_owns_cached h p n sc = (false, sc') -> sc' = sc.
Proof.
  unfold span_owns_cached. destruct (_ && _ && _); [done|].
  destruct (vmem_span_find p n _); [congruence|done|]. by destruct (_ && _).
Qed.

Lemma may_own_narrow hl h p n sc : narrower hl h -> MAY_OWN hl h p n sc = umem_may_own h p n sc.
Proof.
  intros Hn. unfold MAY_OWN. destruct (hull_contains hl.1 hl.2 p n) eqn:E; [|done].
  unfold umem_may_own. rewrite (hull_widen hl h p n Hn E). cbn [negb].
  destruct (span_owns_cached h p n sc) as [[] sc'] eqn:Eo; [done|].
  pose proof (cached_false _ _ _ _ _ Eo). subst. apply Eo.
Qed.

Lemma read_tag_narrow hl hl' h m p :
  narrower hl h -> narrower hl' h -> read_tag hl h m p = read_tag hl' h m p.
Proof.
  intros H1 H2. unfold read_tag, two_tags. by rewrite !may_read_narrow by done.
Qed.

Lemma may_own_owned hl h p n sc : owned h p n -> exists sc', MAY_OWN hl h p n sc = (true, sc').
Proof.
  intros [Hh Ho].
  assert (Hc : exists sc', span_owns_cached h p n sc = (true, sc')).
  { unfold span_owns_cached. destruct (_ && _ && _); [by eexists|]. unfold vmem_span_owns in Ho.
    destruct (vmem_span_find p n _); [done|by eexists|]. destruct (_ && _); by eexists. }
  destruct Hc as [sc' Hc]. exists sc'. unfold MAY_OWN, umem_may_own. rewrite Hc, Hh.
  by destruct (hull_contains hl.1 hl.2 p n).
Qed.

Section props.
Context {W : Type} `{malloc_env W}.
Implicit Types (s : mstate W).

(** Bounds loaded at the start of a free and since widened by other threads
    decide nothing. *)
Lemma stale_bounds_harmless (hl : Z * Z) (buf : Z) (do_free : bool) s :
  narrower hl (env_heap (ms_w s)) ->
  process_free_umem_at hl buf do_free s = process_free_umem buf do_free s.
Proof.
  intros Hn. unfold process_free_umem, process_free_umem_at.
  assert (Hn' : narrower (heap_bounds (ms_w s)) (env_heap (ms_w s))) by (split; simpl; lia).
  rewrite !may_read_narrow by done. destruct (negb _); [done|].
  rewrite (read_tag_narrow hl (heap_bounds (ms_w s))) by done.
  destruct (read_tag _ _ _ _) as [message|t]; [done|].
  by rewrite !may_own_narrow by done.
Qed.

(** The one-pass path of [umem_malloc_free] is the full validation. *)
Lemma malloc_free_full (buf : Z) s :
  umem_malloc_free buf s =
    if buf =? 0 then Ok s
    else if bootstrap_pointer_p buf (ms_boot s) then bootstrap_free buf s
    else (do (_, s') <- process_free_umem buf true s; Ok s').
Proof.
  unfold umem_malloc_free. destruct (buf =? 0); [done|].
  destruct (bootstrap_pointer_p buf (ms_boot s)); [done|].
  destruct (free_fast buf s) as [r|] eqn:Ef; [|done].
  unfold free_fast in Ef. unfold process_free_umem, process_free_umem_at.
  set (hdr := wsub buf sizeof_malloc_data) in *. set (h := env_heap (ms_w s)) in *.
  assert (Hn : narrower (heap_bounds (ms_w s)) h) by (unfold h; split; simpl; lia).
  rewrite may_read_narrow by done. unfold heap_bounds in Ef. fold h in Ef.
  destruct (hull_contains (vmem_heap_lo h) (vmem_heap_hi h) hdr sizeof_malloc_data); [|done].
  cbn [negb] in *. unfold read_tag.
  set (size := malloc_size (ms_mem s) hdr) in *.
  set (magic := UMEM_MALLOC_DECODE (malloc_stat (ms_mem s) hdr) size) in *.
  destruct (magic =? MALLOC_MAGIC); [|destruct (magic =? MALLOC_SECOND_MAGIC); [|done]];
    cbn [t_size t_overhead t_base]; rewrite may_own_narrow by done; unfold umem_may_own;
    destruct (size <? _); [done| |done|]; cbn [orb] in Ef;
    (destruct (hull_contains _ _ _ size); [|done]); cbn [negb] in *;
    destruct (span_owns_cached _ _ size _) as [[] sc]; try done; cbn [negb] in *;
    injection Ef as <-; cbn [t_npoison t_poison t_memalign poison t_size t_base];
    by destruct (call_free _ _).
Qed.

(** C26: umem_malloc_free's one-pass path for ordinary blocks is process_free's
    full validation, with the heap bounds as they are or as any earlier load
    found them (they only widen): on every pointer, in every state, the result,
    the memory, the cached span, errno and the reports are the same. *)
Theorem free_paths_agree (hl : Z * Z) (buf : Z) s :
  narrower hl (env_heap (ms_w s)) ->
  umem_malloc_free buf s =
    if buf =? 0 then Ok s
    else if bootstrap_pointer_p buf (ms_boot s) then bootstrap_free buf s
    else (do (_, s') <- process_free_umem_at hl buf true s; Ok s').
Proof. intros Hn. rewrite stale_bounds_harmless by done. apply malloc_free_full. Qed.

(** ** The trust boundary *)

(** A block of the heap: inside one of its spans, or anywhere in the hull once
    the table has overflowed. *)
Definition heap_block (h : heap_pub) (base size : Z) : Prop :=
  vmem_heap_lo h <= base /\ base + size <= vmem_heap_hi h /\
  (span_saturated (vmem_heap_tab h) = false ->
     exists e, e ∈ live (vmem_heap_tab h) /\ span_covers base size e).

Lemma may_own_true h p n sc sc' :
  is_word p -> is_word n -> span_table_wf (vmem_heap_tab h) -> cache_fresh (vmem_heap_tab h) sc ->
  umem_may_own h p n sc = (true, sc') -> heap_block h p n.
Proof.
  intros Hp Hn Hwf Hc. unfold umem_may_own.
  destruct (hull_contains _ _ p n) eqn:E; [|done]. cbn [negb]. intros Eo.
  pose proof (hull_word _ _ _ _ Hp Hn E) as Hr.
  destruct (span_owns_cached_exact h p n sc Hwf Hr Hc) as (sc1 & E1 & _).
  rewrite E1 in Eo. injection Eo as Eo _. apply hull_real in E as (? & ? & ? & ? & ?); [|done..].
  split; [done|]. split; [done|]. intros Hs. unfold vmem_span_owns in Eo.
  destruct (vmem_span_find p n _) as [| |fb fe] eqn:F; [done| |].
  - unfold vmem_span_find, found_result in F. rewrite Hs in F. repeat (case_match; try done).
  - apply find_unsat_spec in F as [Hin Hcov]; [by exists (SpanEnt fb fe)|done|apply Hr|done].
Qed.

Lemma read_tag_words hl h m p t :
  is_word p -> read_tag hl h m p = inr t ->
  is_word (t_base t) /\ is_word (t_size t) /\ (t_overhead t = 8 \/ t_overhead t = 16) /\
  wadd (t_base t) (t_overhead t) = wadd p 8 /\
  t_data t = wsub (t_size t) (t_overhead t).
Proof.
  intros Hp. unfold read_tag, two_tags, sizeof_malloc_data.
  pose proof (ldn_range 4 m p) as R. change (8 * Z.of_nat 4) with 32 in R. change (ldn 4 m p) with (malloc_size m p) in R.
  assert (B : forall x, is_word (w64 x)) by (intros; unfold is_word, w64; apply Z.mod_pos_bound; lia).
  assert (A : wadd (wsub p 8) 16 = wadd p 8).
  { unfold wadd, wsub, w64. rewrite Zplus_mod_idemp_l. f_equal. lia. }
  repeat (case_match; try done); intros [= <-]; cbn [t_base t_size t_overhead t_data];
    (split; [apply B || done|]; split; [apply B || (unfold is_word; lia)|]);
    (split; [tauto|]; split; [done || apply A|done]).
Qed.

(** What a call on a pointer that is not a bootstrap mapping does when it
    refuses: one report, and nothing else. *)
Definition refused (buf : Z) (do_free : bool) s (data : option Z) s' : Prop :=
  data = None /\ ms_w s' = ms_w s /\ ms_mem s' = ms_mem s /\ ms_boot s' = ms_boot s /\
  ms_depth s' = ms_depth s /\ exists msg, ms_log s' = Refused do_free buf msg :: ms_log s.

(** When it accepts: the bytes in front of the pointer are the complete tag of
    one of the four layouts for a block of the heap; realloc is told that
    block's data size and changes nothing; free hands exactly that block to the
    allocator its layout names, the memory changed only inside the tag, which
    now says freed, and keeps errno. *)
Definition accepted (buf : Z) (do_free : bool) s (data : option Z) s' : Prop :=
  exists l base size, buf = base + overhead l /\ overhead l <= size /\ tagged l (ms_mem s) base size /\
    heap_block (env_heap (ms_w s)) base size /\
    ms_boot s' = ms_boot s /\ ms_depth s' = ms_depth s /\ ms_log s' = ms_log s /\
    if do_free then
      data = None /\ exists m wm,
        (forall a, a < base \/ buf <= a -> ldb m a = ldb (ms_mem s) a) /\
        malloc_stat m (buf - 8) = UMEM_FREE_PATTERN_32 /\
        (if layout_memalign l then env_memalign_free base size else env_umem_free base size)
          (ms_w s, m) = Ok wm /\
        ms_mem s' = wm.2 /\ ms_w s' = env_set_errno (env_errno (ms_w s)) wm.1
    else data = Some (size - overhead l) /\ ms_mem s' = ms_mem s /\ ms_w s' = ms_w s.

Lemma process_free_umem_sound `{!malloc_laws W} (buf : Z) (do_free : bool) s ret data s' :
  is_word buf -> span_table_wf (vmem_heap_tab (env_heap (ms_w s))) ->
  cache_fresh (vmem_heap_tab (env_heap (ms_w s))) (ms_span s) ->
  process_free_umem buf do_free s = Ok (ret, data, s') ->
  if ret then accepted buf do_free s data s' else refused buf do_free s data s'.
Proof.
  intros Hb Hwf Hc. unfold process_free_umem, process_free_umem_at, umem_err_recoverable, refused.
  set (h := env_heap (ms_w s)) in *.
  assert (Hn : narrower (heap_bounds (ms_w s)) h) by (unfold h; split; simpl; lia).
  assert (Hw : is_word (wsub buf sizeof_malloc_data))
    by (unfold is_word, wsub, w64; apply Z.mod_pos_bound; lia).
  cbn [ms_w]. destruct (MAY_READ _ _ _ _) eqn:Er; cbn [negb].
  2:{ destruct (env_abort (ms_w s)); [done|]. cbn [res_bind]. intros [= <- <- <-].
      cbn. rewrite law_errno_same. eauto 10. }
  destruct (read_tag _ _ _ _) as [msg|t] eqn:Et.
  { destruct (env_abort (ms_w s)); [done|]. cbn [res_bind]. intros [= <- <- <-].
    cbn. rewrite law_errno_same. eauto 10. }
  destruct (read_tag_words _ _ _ _ _ Hw Et) as (H1 & H2 & H3 & H4 & H5).
  rewrite may_own_narrow by done.
  destruct (Z.ltb_spec (t_size t) (t_overhead t)) as [Hlt|Hge].
  { cbn [negb]. destruct (env_abort _); [done|]. cbn [res_bind]. intros [= <- <- <-].
    cbn. rewrite law_errno_same. eauto 10. }
  destruct (umem_may_own h _ _ _) as [own sc] eqn:Eo. destruct own; cbn [negb].
  2: { cbn [set_span ms_w]. destruct (env_abort _); [done|]. cbn [res_bind]. intros [= <- <- <-].
       cbn. rewrite law_errno_same. eauto 10. }
  pose proof (may_own_true _ _ _ _ _ H1 H2 Hwf Hc Eo) as Hblk.
  unfold umem_may_own in Eo. destruct (hull_contains _ _ (t_base t) (t_size t)) eqn:Eh; [|done].
  apply hull_real in Eh as (? & ? & ? & ? & ?); [|done..].
  assert (Eb : buf = t_base t + t_overhead t).
  { rewrite (wadd_small (t_base t)) in H4 by lia. rewrite H4. unfold wadd, wsub, w64, sizeof_malloc_data.
    rewrite Zplus_mod_idemp_l. replace (buf - 8 + 8) with buf by lia. symmetry. by apply Z.mod_small. }
  assert (Ew : wsub buf sizeof_malloc_data = buf - 8) by (unfold sizeof_malloc_data; apply wsub_small; lia).
  rewrite Ew in Et. destruct (read_tag_inv _ _ _ _ _ Et ltac:(lia) ltac:(lia)) as (l & El & Htag).
  set (base := t_base t) in *. set (size := t_size t) in *. clearbody base size. subst t.
  assert (Eov : t_overhead (tag_of l base size) = overhead l) by (by destruct l).
  assert (Ema : t_memalign (tag_of l base size) = layout_memalign l) by (by destruct l).
  assert (Eda : t_data (tag_of l base size) = size - overhead l) by (by destruct l).
  assert (Ets : t_base (tag_of l base size) = base /\ t_size (tag_of l base size) = size) by (by destruct l).
  destruct Ets as [Etb Ets]. destruct (poison_tag l (ms_mem s) base size) as [Hp1 Hp2].
  rewrite Eov in Eb, Hge. rewrite Eov, ?Ema, ?Eda, ?Etb, ?Ets in *.
  destruct do_free; unfold accepted.
  - destruct (call_free _ _) as [s1|] eqn:Ec; [|done]. cbn [res_bind]. intros [= <- <- <-].
    unfold call_free in Ec. cbn [ms_w ms_mem set_bytes set_span] in Ec.
    destruct ((if layout_memalign l then _ else _) _) as [wm|] eqn:Ef; [|done].
    cbn [res_bind] in Ec. injection Ec as <-.
    exists l, base, size. split_and!; try done.
    eexists _, wm. split_and!; [|rewrite Eb; exact Hp2|exact Ef|done|done].
    intros a Ha. apply Hp1. lia.
  - intros [= <- <- <-]. exists l, base, size. cbn. rewrite law_errno_same. split_and!; done.
Qed.

(** C10: The trust boundary of free and realloc, process_free, on any pointer
    and whatever bytes lie in front of it, when the call returns.  A registered
    bootstrap mapping is answered yes with no effect.  Any other pointer is
    refused with one report and no other effect; or accepted, and then the bytes
    in front of it are the complete tag of a block of the heap: of one inside a
    live heap span or, only once the span table has overflowed, of one between
    the heap's outer bounds.  The size told to realloc is that block's, and a
    free hands exactly that block to the allocator its layout names. *)
Theorem free_trust_boundary `{!malloc_laws W} (buf : Z) (do_free : bool) s ret data s' :
  is_word buf -> span_table_wf (vmem_heap_tab (env_heap (ms_w s))) ->
  cache_fresh (vmem_heap_tab (env_heap (ms_w s))) (ms_span s) ->
  process_free buf do_free s = Ok (ret, data, s') ->
  if negb (buf =? 0) && bootstrap_pointer_p buf (ms_boot s) then ret = true /\ s' = s
  else if ret then accepted buf do_free s data s' else refused buf do_free s data s'.
Proof.
  intros Hb Hwf Hc. unfold process_free. destruct (negb (buf =? 0) && _); [by intros [= <- _ <-]|].
  by apply process_free_umem_sound.
Qed.

(** ** Round trips *)

Context `{!malloc_laws W}.

(** A block with layout [l]: [p] is the pointer given out, [n] the bytes asked. *)
Record block_out (l : layout) (base size n p : Z) s : Prop := {
  bo_size : size = n + overhead l;
  bo_ptr : p = base + overhead l;
  bo_range : 0 < base /\ base + size < 2 ^ 64;
  bo_tag : tagged l (ms_mem s) base size;
  bo_owned : owned (env_heap (ms_w s)) base size
}.

(** In a later state that has kept the tag and still owns the block: the size
    is recovered, and free hands the block to the layer it came from. *)
Lemma block_out_freed l base size n p s :
  0 <= n -> block_out l base size n p s ->
  (exists sc, process_free_umem p false s = Ok (true, Some n, set_span sc s)) /\
  exists sc m, (forall a, a < base \/ p <= a -> ldb m a = ldb (ms_mem s) a) /\
    process_free_umem p true s =
      (do s1 <- call_free (if layout_memalign l then env_memalign_free base size else env_umem_free base size)
                  (set_bytes m (set_span sc s));
       Ok (true, None, set_errno (env_errno (ms_w s)) s1)).
Proof.
  intros Hn [-> -> [Hb He] Ht Ho]. unfold process_free_umem, process_free_umem_at.
  set (hl := heap_bounds (ms_w s)). set (h := env_heap (ms_w s)) in *.
  assert (Hov : overhead l = 8 \/ overhead l = 16) by (destruct l; auto).
  assert (Ew : wsub (base + overhead l) sizeof_malloc_data = base + overhead l - 8)
    by (unfold sizeof_malloc_data; rewrite wsub_small; lia).
  rewrite Ew, (may_read_cur hl h) by
    (destruct Ho as [Ho _]; eapply hull_sub; [| |exact Ho|..]; unfold is_word, sizeof_malloc_data; lia).
  cbn [negb]. rewrite (read_tag_ok hl h (ms_mem s) base (n + overhead l) l) by (done || lia).
  assert (E : t_size (tag_of l base (n + overhead l)) = n + overhead l /\
    t_base (tag_of l base (n + overhead l)) = base /\
    t_overhead (tag_of l base (n + overhead l)) = overhead l /\
    t_data (tag_of l base (n + overhead l)) = n /\
    t_memalign (tag_of l base (n + overhead l)) = layout_memalign l /\
    forall a, a < base \/ base + overhead l <= a ->
      ldb (poison (t_npoison (tag_of l base (n + overhead l))) (ms_mem s)
                  (t_poison (tag_of l base (n + overhead l)))) a = ldb (ms_mem s) a).
  { destruct l; cbn [tag_of t_size t_base t_overhead t_data t_memalign t_npoison t_poison overhead
      poison layout_memalign] in *; split_and!; try (lia || done);
      intros a Ha; unfold put_stat, stw, sizeof_malloc_data; rewrite ?stn_out by lia; done. }
  destruct E as (-> & -> & -> & -> & -> & Em).
  rewrite (proj2 (Z.ltb_ge _ _)) by lia.
  destruct (may_own_owned hl h base (n + overhead l) (ms_span s) Ho) as [sc ->]. cbn [negb]. split.
  - exists sc. unfold set_errno, set_wm, set_span. cbn. by rewrite law_errno_same.
  - exists sc, (poison (t_npoison (tag_of l base (n + overhead l))) (ms_mem s)
                  (t_poison (tag_of l base (n + overhead l)))). split; [done|]. reflexivity.
Qed.

Lemma block_out_later l base size n p s s2 :
  block_out l base size n p s -> same_on base p (ms_mem s) (ms_mem s2) ->
  owned (env_heap (ms_w s2)) base size -> block_out l base size n p s2.
Proof.
  intros [E1 E2 E3 E4 E5] Hs Ho. split; try done. eapply tagged_same; [|done]. by rewrite E2 in Hs.
Qed.

Lemma exit_enter s : umem_exit_malloc (depth_add 1 s) = if env_guard then s else depth_add 1 s.
Proof.
  unfold umem_exit_malloc, depth_add. destruct env_guard; [|done]. destruct s; simpl. f_equal. lia.
Qed.

Lemma enter_run s : ms_depth s = 0 -> exists s1, umem_enter_malloc s = (0, s1) /\
  ms_w s1 = ms_w s /\ ms_mem s1 = ms_mem s.
Proof. intros Hd. unfold umem_enter_malloc. destruct env_guard; [rewrite Hd|]; by eexists. Qed.

Lemma exit_wm s : ms_w (umem_exit_malloc s) = ms_w s /\ ms_mem (umem_exit_malloc s) = ms_mem s.
Proof. unfold umem_exit_malloc. by destruct env_guard. Qed.

(** What [umem_malloc n] hands out, obtained from [_umem_alloc]. *)
Definition malloc_out (n p : Z) s s' : Prop :=
  exists l base size wm, l <> Aligned /\ env_umem_alloc size (ms_w s, ms_mem s) = (base, wm) /\
    block_out l base size n p s' /\ (UMEM_ALIGN | p) /\ (8 < n -> (UMEM_SECOND_ALIGN | p)) /\
    ms_w s' = wm.1 /\ forall a, a < base \/ p <= a -> ldb (ms_mem s') a = ldb wm.2 a.

(** The common end of its three branches: the tag is written, the guard left. *)
Lemma malloc_finish l base n wm m s s1 :
  0 <= n -> n + overhead l < 2 ^ 64 -> l <> Aligned -> (l = Small -> n <= 8) ->
  env_umem_alloc (n + overhead l) (ms_w s, ms_mem s) = (base, wm) -> base <> 0 ->
  tagged l m base (n + overhead l) ->
  (forall a, a < base \/ base + overhead l <= a -> ldb m a = ldb wm.2 a) ->
  malloc_out n (base + overhead l) s (umem_exit_malloc (set_bytes m (set_wm wm s1))).
Proof.
  intros Hn Hlt Hl Hsm Ea Hz Ht Hm.
  assert (Hov : overhead l = 8 \/ overhead l = 16) by (destruct l; auto).
  destruct (law_umem_alloc (n + overhead l) _ _ _ ltac:(lia) Ea Hz) as (H1 & H2 & [k Hk] & H3 & H4).
  destruct (exit_wm (set_bytes m (set_wm wm s1))) as [E1 E2]. cbn [set_bytes set_wm ms_w ms_mem] in E1, E2.
  exists l, base, (n + overhead l), wm. unfold UMEM_ALIGN, UMEM_SECOND_ALIGN in *.
  split_and!; [done|done| | | |done|by rewrite E2].
  - split; rewrite ?E1, ?E2; done || lia.
  - destruct Hov as [-> | ->]; [exists (k + 1)|exists (k + 2)]; lia.
  - intros H8. destruct l; try (by specialize (Hsm eq_refl); lia); try done; simpl in *;
      destruct (H3 ltac:(lia)) as [j ->]; exists (j + 1); lia.
Qed.

Lemma wadd_wrap n k : 0 <= n < 2 ^ 64 -> 0 <= k < 2 ^ 64 -> 2 ^ 64 <= n + k -> wadd n k = n + k - 2 ^ 64.
Proof.
  intros Hn Hk Hb. unfold wadd, w64. replace (n + k) with (n + k - 2 ^ 64 + 1 * 2 ^ 64) at 1 by lia.
  rewrite Z.mod_add, Z.mod_small; lia.
Qed.

Lemma umem_malloc_block n s p s' :
  is_word n -> env_ready (ms_w s) = UMEM_READY -> ms_depth s = 0 ->
  umem_malloc n s = Ok (p, s') -> p <> 0 -> malloc_out n p s s'.
Proof.
  unfold is_word. intros Hn Hr Hd. unfold umem_malloc. rewrite Hr.
  change (UMEM_READY =? UMEM_READY) with true. cbn [negb].
  destruct (enter_run s Hd) as (s1 & -> & Ew & Em). cbn [Z.ltb].
  unfold sizeof_malloc_data, UMEM_SECOND_ALIGN in *.
  destruct (Z.lt_ge_cases (n + 8) (2 ^ 64)) as [Hb|Hb].
  2: { rewrite (wadd_wrap n 8), (proj2 (Z.ltb_ge 16 _)) by lia.
       cbv iota beta. rewrite (proj2 (Z.ltb_lt (n + 8 - 2 ^ 64) n)) by lia. by intros [= <- <-]. }
  rewrite (wadd_small n 8) by lia. destruct (Z.ltb_spec 16 (n + 8)) as [Hbig|Hsmall].
  - destruct (Z.lt_ge_cases (n + 16) (2 ^ 64)) as [Hb'|Hb'].
    2: { rewrite (wadd_wrap (n + 8) 8) by lia. cbv zeta iota beta.
         rewrite (proj2 (Z.ltb_lt (n + 8 + 8 - 2 ^ 64) n)) by lia. by intros [= <- <-]. }
    rewrite wadd_small by lia. replace (n + 8 + 8) with (n + 16) by lia. cbv zeta iota beta.
    rewrite (proj2 (Z.ltb_ge (n + 16) n)) by lia. unfold call. rewrite Ew, Em.
    destruct (env_umem_alloc (n + 16) (ms_w s, ms_mem s)) as [base wm] eqn:Ea.
    destruct (Z.eqb_spec base 0) as [->|Hz]; [by intros [= <- <-]|]. cbn [set_wm ms_mem].
    replace (base + 8 + 8) with (base + 16) by lia.
    destruct (Z.ltb_spec 0 (Z.shiftr (n + 16) 32)) as [Ho|Ho].
    + intros [= <- <-] _. apply (malloc_finish Oversize); simpl; try done; try lia.
      * apply (tag_two Oversize wm.2 base (n + 16)); [by left|lia].
      * intros a Ha. rewrite !(put_tag_out _ _ _ _ a (a + 1)) by lia. done.
    + rewrite Z.shiftr_div_pow2 in Ho by lia.
      assert (n + 16 < 2 ^ 32).
      { destruct (Z.lt_ge_cases (n + 16) (2 ^ 32)); [done|].
        assert (1 <= (n + 16) / 2 ^ 32) by (apply Z.div_le_lower_bound; lia). lia. }
      rewrite (proj2 (Z.ltb_lt 16 (n + 16))) by lia. rewrite Z.mod_small by lia.
      intros [= <- <-] _. apply (malloc_finish Second); simpl; try done; try lia.
      * apply tag_second. lia.
      * intros a Ha. by rewrite (put_tag_out _ _ _ _ a (a + 1)) by lia.
  - cbv zeta iota beta. rewrite (proj2 (Z.ltb_ge (n + 8) n)) by lia. unfold call. rewrite Ew, Em.
    destruct (env_umem_alloc (n + 8) (ms_w s, ms_mem s)) as [base wm] eqn:Ea.
    destruct (Z.eqb_spec base 0) as [->|Hz]; [by intros [= <- <-]|]. cbn [set_wm ms_mem].
    change (0 <? 0) with false. cbv iota. rewrite (proj2 (Z.ltb_ge 16 (n + 8))) by lia. intros [= <- <-] _.
    apply (malloc_finish Small); simpl; try done; try lia; [apply tag_small; lia|].
    intros a Ha. by rewrite (put_tag_out _ _ _ _ a (a + 1)) by lia.
Qed.

(** C9: what umem_malloc tags, free recovers.  A pointer returned by
    umem_malloc(n) is 8-aligned, 16-aligned above 8 bytes, and ends exactly n
    bytes before the end of a block obtained from _umem_alloc; in any later
    state in which the tag is unchanged and the heap still owns the block,
    realloc reads back n, and free hands _umem_free that same block and size. *)
Theorem malloc_roundtrip (n : Z) s p s1 :
  is_word n -> env_ready (ms_w s) = UMEM_READY -> ms_depth s = 0 ->
  umem_malloc n s = Ok (p, s1) -> p <> 0 ->
  (UMEM_ALIGN | p) /\ (8 < n -> (UMEM_SECOND_ALIGN | p)) /\
  exists base size wm, env_umem_alloc size (ms_w s, ms_mem s) = (base, wm) /\
    base + 8 <= p /\ p + n = base + size /\
    owned (env_heap (ms_w s1)) base size /\
    forall s2, same_on base p (ms_mem s1) (ms_mem s2) -> owned (env_heap (ms_w s2)) base size ->
      (exists sc, process_free_umem p false s2 = Ok (true, Some n, set_span sc s2)) /\
      exists sc m, (forall a, a < base \/ p <= a -> ldb m a = ldb (ms_mem s2) a) /\
        process_free_umem p true s2 =
          (do s3 <- call_free (env_umem_free base size) (set_bytes m (set_span sc s2));
           Ok (true, None, set_errno (env_errno (ms_w s2)) s3)).
Proof.
  intros Hn Hr Hd E Hp.
  destruct (umem_malloc_block n s p s1 Hn Hr Hd E Hp) as (l & base & size & wm & Hl & Ea & Hb & H8 & H16 & _).
  split; [done|]. split; [done|]. exists base, size, wm.
  split; [done|]. destruct Hb as [E1 E2 E3 E4 E5].
  assert (overhead l = 8 \/ overhead l = 16) by (destruct l; auto).
  split; [lia|]. split; [lia|]. split; [done|]. intros s2 Hs Ho.
  assert (Hb2 : block_out l base size n p s2) by (eapply block_out_later; [|done..]; by split).
  destruct (block_out_freed l base size n p s2 ltac:(unfold is_word in *; lia) Hb2) as [F1 F2].
  destruct l; done.
Qed.

(** ** Aligned blocks *)

Lemma memalign_finish align n base wm s0 :
  (exists k, 0 <= k < 64 /\ align = 2 ^ k) -> 16 <= align -> 0 <= n -> n + 16 < 2 ^ 64 ->
  env_memalign_alloc (n + 16) align (align - 16) (ms_w s0, ms_mem s0) = (base, wm) -> base <> 0 ->
  let hi := Z.shiftr (n + 16) 32 in
  let low := (n + 16) mod 2 ^ 32 in
  let m := put_tag (put_tag wm.2 base hi (UMEM_MALLOC_ENCODE MEMALIGN_MAGIC hi)) (base + 8) low
                   (UMEM_MALLOC_ENCODE MEMALIGN_MAGIC low) in
  (align | base + 16) /\ P2PHASE (base + 16) align = 0 /\
  block_out Aligned base (n + 16) n (base + 16) (set_bytes m (set_wm wm s0)).
Proof.
  intros Ha H16 Hn Hlt Ea Hz hi low m.
  destruct (law_memalign_alloc (n + 16) align (align - 16) _ _ _ ltac:(lia) Ha ltac:(lia) Ea Hz)
    as (H1 & H2 & [j Hj] & H3).
  assert (Hd : (align | base + 16)) by (exists (j + 1); lia). split; [done|]. split.
  - destruct Ha as (k & Hk & ->). rewrite P2PHASE_spec by (unfold is_word; lia).
    by apply Z.mod_divide; [lia|].
  - split; simpl; try done; try lia. apply (tag_two Aligned wm.2 base (n + 16)); [by right|lia].
Qed.

(** Umem_memalign never fails its assertions, and a pointer it returns is
    aligned as asked; blocks it takes from the memalign arena go back, on free,
    to that arena with the address and size it was asked for, and realloc reads
    back the requested size. *)
Theorem memalign_roundtrip (align n : Z) s p s1 :
  is_word align -> 0 < n < 2 ^ 64 -> env_ready (ms_w s) = UMEM_READY -> ms_depth s = 0 ->
  UMEM_SECOND_ALIGN < align -> env_memalign_arena (ms_w s) = true ->
  (exists p' s1', umem_memalign align n s = Ok (p', s1')) /\
  (umem_memalign align n s = Ok (p, s1) -> p <> 0 ->
   (align | p) /\
   exists base size wm, env_memalign_alloc size align (align - 16) (ms_w s, ms_mem s) = (base, wm) /\
     p + n = base + size /\
     forall s2, same_on base p (ms_mem s1) (ms_mem s2) -> owned (env_heap (ms_w s2)) base size ->
       (exists sc, process_free_umem p false s2 = Ok (true, Some n, set_span sc s2)) /\
       exists sc m, (forall a, a < base \/ p <= a -> ldb m a = ldb (ms_mem s2) a) /\
         process_free_umem p true s2 =
           (do s3 <- call_free (env_memalign_free base size) (set_bytes m (set_span sc s2));
            Ok (true, None, set_errno (env_errno (ms_w s2)) s3))).
Proof.
  unfold is_word, UMEM_SECOND_ALIGN. intros Ha Hn Hr Hd H16 Har. unfold umem_memalign, UMEM_SECOND_ALIGN.
  destruct (Z.eqb_spec n 0); [lia|]. destruct (Z.eqb_spec align 0); [lia|]. cbn [orb].
  destruct (Z.eqb_spec (Z.land align (wsub align 1)) 0) as [Ep|Ep]; cbn [negb].
  2: { split; [by eexists _, _|]. by intros [= <- <-]. }
  rewrite (proj2 (Z.leb_gt align UMEM_ALIGN)), (proj2 (Z.leb_gt align 16)) by (unfold UMEM_ALIGN; lia).
  cbn [orb andb]. unfold sizeof_malloc_data. change (2 * 8) with 16. rewrite (proj2 (Z.leb_le 16 align)) by lia.
  cbn [negb]. rewrite Har. cbn [negb].
  destruct (Z.lt_ge_cases (n + 16) (2 ^ 64)) as [Hb|Hb].
  2: { rewrite wadd_wrap, (proj2 (Z.ltb_lt _ _)) by lia. split; [by eexists _, _|]. by intros [= <- <-]. }
  rewrite (wadd_small n 16), (proj2 (Z.ltb_ge (n + 16) n)) by lia. unfold call.
  destruct (env_memalign_alloc _ _ _ _) as [base wm] eqn:Ea.
  destruct (Z.eqb_spec base 0) as [->|Hz]; [split; [by eexists _, _|]; by intros [= <- <-]|].
  assert (Hk : exists k, 0 <= k < 64 /\ align = 2 ^ k).
  { exists (Z.log2 align). rewrite <- (pow2_of_land align) by lia. split; [|done].
    split; [apply Z.log2_nonneg|]. apply Z.log2_lt_pow2; lia. }
  destruct (memalign_finish align n base wm s Hk ltac:(lia) ltac:(lia) Hb Ea Hz) as (F1 & F2 & F3).
  replace (base + 8 + 8) with (base + 16) by lia. rewrite F2. replace (base + 16 - 16) with base by lia. rewrite (Z.eqb_refl base). cbn [Z.eqb negb].
  split; [by eexists _, _|]. intros [= <- <-] _. split; [done|]. exists base, (n + 16), wm.
  split; [done|]. split; [lia|]. intros s2 Hs Ho.
  pose proof (block_out_later _ _ _ _ _ _ _ F3 Hs Ho) as Hb2.
  apply (block_out_freed Aligned base (n + 16) n (base + 16) s2 ltac:(lia) Hb2).
Qed.
End props.

(** ** Freeing twice *)

(** The sizes whose poisoned tag decodes as a valid one. *)
Definition collides (low : Z) : bool :=
  bool_decide (UMEM_MALLOC_DECODE UMEM_FREE_PATTERN_32 low ∈
    [MALLOC_MAGIC; MALLOC_SECOND_MAGIC; MALLOC_OVERSIZE_MAGIC; MEMALIGN_MAGIC]).

Lemma collides_values low :
  0 <= low < 2 ^ 32 ->
  collides low = true <-> low ∈ [0x5B630111; 0x380CB111; 0x2836B111; 0x5F8C5111].
Proof.
  intros Hl. unfold collides. rewrite bool_decide_eq_true.
  assert (E : forall mg v, 0 <= mg < 2 ^ 32 -> v = (mg - UMEM_FREE_PATTERN_32) mod 2 ^ 32 ->
    UMEM_MALLOC_DECODE UMEM_FREE_PATTERN_32 low = mg <-> low = v).
  { intros mg v Hm ->. unfold UMEM_MALLOC_DECODE. split.
    - intros <-. rewrite Zminus_mod_idemp_l. replace (UMEM_FREE_PATTERN_32 + low - UMEM_FREE_PATTERN_32) with low by lia.
      symmetry. by apply Z.mod_small.
    - intros ->. rewrite Zplus_mod_idemp_r. replace (UMEM_FREE_PATTERN_32 + (mg - UMEM_FREE_PATTERN_32)) with mg by lia.
      by apply Z.mod_small. }
  rewrite !elem_of_cons, (E MALLOC_MAGIC 0x5B630111), (E MALLOC_SECOND_MAGIC 0x380CB111),
    (E MALLOC_OVERSIZE_MAGIC 0x2836B111), (E MEMALIGN_MAGIC 0x5F8C5111) by (done || reflexivity).
  rewrite !elem_of_nil. tauto.
Qed.

(** The tag after its block was released. *)
Definition poisoned (l : layout) (m : bytes) (base size : Z) : bytes :=
  poison (t_npoison (tag_of l base size)) m (t_poison (tag_of l base size)).

Lemma poisoned_header l m base size :
  tagged l m base size -> 0 <= size ->
  malloc_stat (poisoned l m base size) (base + overhead l - 8) = UMEM_FREE_PATTERN_32 /\
  malloc_size (poisoned l m base size) (base + overhead l - 8) = size mod 2 ^ 32.
Proof.
  intros Ht Hs. unfold poisoned.
  assert (P1 : forall m' x, malloc_stat (put_stat m' x UMEM_FREE_PATTERN_32) x = UMEM_FREE_PATTERN_32).
  { intros m' x. unfold malloc_stat, put_stat, ldw, stw. rewrite ldn_stn. reflexivity. }
  assert (P2 : forall m' x y v, y + 4 <= x + 4 \/ x + 8 <= y -> malloc_size (put_stat m' x v) y = malloc_size m' y).
  { intros. unfold malloc_size, put_stat, ldw, stw. apply ldn_stn_out. lia. }
  destruct l; cbn [tag_of t_npoison t_poison poison overhead] in *; unfold sizeof_malloc_data.
  - replace (base + 8 - 8) with base by lia. rewrite P1, P2 by lia. destruct Ht as (? & -> & _).
    by rewrite Z.mod_small by lia.
  - replace (base + 16 - 8) with (base + 8) by lia. rewrite P1, P2 by lia. destruct Ht as (? & -> & _).
    by rewrite Z.mod_small by lia.
  - replace (base + 16 - 8) with (base + 8) by lia. rewrite P1, !P2 by lia. by destruct Ht as (_ & _ & -> & _).
  - replace (base + 16 - 8) with (base + 8) by lia. rewrite P1, !P2 by lia. by destruct Ht as (_ & _ & -> & _).
Qed.

Section twice.
Context {W : Type} `{malloc_laws W}.
Implicit Types (s : mstate W).

(** A block freed once is recognised when it is freed or reallocated again:
    with its tag as the first free left it, the pointer is refused as a double
    free, whatever the layout, unless the low half of the block's size is one of
    four values for which the poisoned tag happens to decode as a valid one. *)
Theorem double_free_refused (l : layout) (base size n p : Z) (do_free : bool) s :
  0 <= n -> block_out l base size n p s ->
  size mod 2 ^ 32 ∉ [0x5B630111; 0x380CB111; 0x2836B111; 0x5F8C5111] ->
  let s2 := set_bytes (poisoned l (ms_mem s) base size) s in
  process_free_umem p do_free s2 =
    (do s' <- umem_err_recoverable (Refused do_free p "double-free or invalid buffer") s2;
     Ok (false, None, set_errno (env_errno (ms_w s)) s')).
Proof.
  intros Hn [-> -> [Hb He] Ht Ho] Hc s2. unfold process_free_umem, process_free_umem_at.
  set (h := env_heap (ms_w s2)). set (hl := heap_bounds (ms_w s2)).
  assert (Hov : overhead l = 8 \/ overhead l = 16) by (destruct l; auto).
  assert (Ew : wsub (base + overhead l) sizeof_malloc_data = base + overhead l - 8)
    by (unfold sizeof_malloc_data; rewrite wsub_small; lia).
  rewrite Ew, (may_read_cur hl h) by
    (destruct Ho as [Ho _]; eapply hull_sub; [| |exact Ho|..]; unfold is_word, sizeof_malloc_data; lia).
  cbn [negb]. destruct (poisoned_header l (ms_mem s) base (n + overhead l) Ht ltac:(lia)) as [E1 E2].
  unfold read_tag. cbn [s2 set_bytes ms_mem ms_w]. rewrite E1, E2.
  set (low := (n + overhead l) mod 2 ^ 32) in *.
  assert (Hd : collides low = false).
  { apply not_true_iff_false. rewrite collides_values; [done|]. apply Z.mod_pos_bound. lia. }
  unfold collides in Hd. rewrite bool_decide_eq_false in Hd. rewrite !not_elem_of_cons in Hd.
  destruct Hd as (D1 & D2 & D3 & D4 & _).
  rewrite (proj2 (Z.eqb_neq _ _) D1), (proj2 (Z.eqb_neq _ _) D2), (proj2 (Z.eqb_neq _ _) D3), (proj2 (Z.eqb_neq _ _) D4).
  rewrite Z.eqb_refl. reflexivity.
Qed.

(** The exception is real: a block of 0x380CB111 bytes can be freed twice. *)
Theorem double_free_missed (base n p : Z) s :
  n + 16 = 0x380CB111 -> block_out Second base 0x380CB111 n p s ->
  block_out Second base 0x380CB111 n p (set_bytes (poisoned Second (ms_mem s) base 0x380CB111) s).
Proof.
  intros En [E1 E2 E3 E4 E5]. split; try done. cbn [set_bytes ms_mem]. simpl. split; [lia|].
  destruct (poisoned_header Second (ms_mem s) base 0x380CB111 E4 ltac:(lia)) as [H1 H2].
  cbn [overhead] in H1, H2. replace (base + 16 - 8) with (base + 8) in * by lia.
  rewrite H1, H2. split; reflexivity.
Qed.
End twice.

(** ** The statements at a concrete state *)

Definition demo_s1 : mstate demo_world :=
  match umem_malloc 100 demo_s0 with Ok (_, s) => s | Panic _ => demo_s0 end.

Lemma demo_malloc : umem_malloc 100 demo_s0 = Ok (0x10010, demo_s1).
Proof. reflexivity. Qed.

Lemma demo_block : exists base size, block_out Second base size 100 0x10010 demo_s1.
Proof.
  exists 0x10000, 116. split; [reflexivity|reflexivity|lia| |apply demo_owned; lia].
  split; [lia|]. split; vm_compute; reflexivity.
Qed.

Lemma demo_wf : span_table_wf (vmem_heap_tab (env_heap (ms_w demo_s1))).
Proof. apply (sr_wf _ _ demo_tab_refines). Qed.

Lemma free_paths_agree_witness :
  umem_malloc_free 0x10010 demo_s1 =
    if 0x10010 =? 0 then Ok demo_s1
    else if bootstrap_pointer_p 0x10010 (ms_boot demo_s1) then bootstrap_free 0x10010 demo_s1
    else (do (_, s') <- process_free_umem_at (0x10000, 0x18000) 0x10010 true demo_s1; Ok s').
Proof. apply (free_paths_agree (0x10000, 0x18000) 0x10010 demo_s1). split; simpl; lia. Defined.

Lemma free_trust_boundary_witness :
  exists l base size, heap_block demo_heap base size /\ tagged l (ms_mem demo_s1) base size /\
    overhead l <= size /\ 0x10010 = base + overhead l /\ size - overhead l = 100.
Proof.
  destruct demo_block as (base & size & Hb).
  destruct (block_out_freed Second base size 100 0x10010 demo_s1 ltac:(lia) Hb) as [[sc E] _].
  assert (W0 : is_word 0x10010) by (unfold is_word; lia).
  assert (F0 : cache_fresh (vmem_heap_tab (env_heap (ms_w demo_s1))) (ms_span demo_s1)) by (left; split; reflexivity).
  assert (E' : process_free 0x10010 false demo_s1 = process_free_umem 0x10010 false demo_s1) by reflexivity.
  rewrite <- E' in E.
  pose proof (free_trust_boundary 0x10010 false demo_s1 true (Some 100) _ W0 demo_wf F0 E) as T.
  assert (Eb : negb (0x10010 =? 0) && bootstrap_pointer_p 0x10010 (ms_boot demo_s1) = false) by reflexivity.
  rewrite Eb in T. destruct T as (l & b & z & H1 & H2 & H3 & H4 & _ & _ & _ & H5 & _). injection H5 as H5.
  exists l, b, z. auto.
Defined.

Lemma malloc_roundtrip_witness :
  (UMEM_SECOND_ALIGN | 0x10010) /\
  exists base size, base + 8 <= 0x10010 /\ 0x10010 + 100 = base + size /\
    exists sc, process_free_umem 0x10010 false demo_s1 = Ok (true, Some 100, set_span sc demo_s1).
Proof.
  destruct (malloc_roundtrip 100 demo_s0 0x10010 demo_s1) as (H1 & H2 & base & size & wm & H3 & H4 & H5 & H6 & H7).
  - unfold is_word; lia.
  - reflexivity.
  - reflexivity.
  - exact demo_malloc.
  - lia.
  - split; [apply H2; lia|]. exists base, size. split; [done|]. split; [done|].
    apply (H7 demo_s1); [reflexivity|done].
Defined.

Definition demo_s2 : mstate demo_world :=
  match umem_memalign 256 40 demo_s0 with Ok (_, s) => s | Panic _ => demo_s0 end.

Lemma memalign_roundtrip_witness :
  (256 | 0x10100) /\ exists base size, 0x10100 + 40 = base + size.
Proof.
  destruct (memalign_roundtrip 256 40 demo_s0 0x10100 demo_s2) as [_ H].
  - unfold is_word; lia.
  - lia.
  - reflexivity.
  - reflexivity.
  - unfold UMEM_SECOND_ALIGN; lia.
  - reflexivity.
  - destruct H as (H1 & base & size & wm & H2 & H3 & H4); [reflexivity|lia|].
    split; [done|]. by exists base, size.
Defined.

Lemma double_free_refused_witness :
  exists base size, process_free_umem 0x10010 true (set_bytes (poisoned Second (ms_mem demo_s1) base size) demo_s1) =
    (do s' <- umem_err_recoverable (Refused true 0x10010 "double-free or invalid buffer")
                (set_bytes (poisoned Second (ms_mem demo_s1) base size) demo_s1);
     Ok (false, None, set_errno (env_errno (ms_w demo_s1)) s')).
Proof.
  destruct demo_block as (base & size & Hb). exists base, size.
  apply (double_free_refused Second base size 100 0x10010 true demo_s1); [lia|done|].
  rewrite (bo_size _ _ _ _ _ _ Hb). cbn [overhead]. rewrite !not_elem_of_cons. 
  split_and!; try (apply Z.eqb_neq; reflexivity). apply not_elem_of_nil.
Defined.
