(* ===== verification/BootReg.v ===== *)
(** * The registry of bootstrap mappings

    The fixed table, its live count and the lock-free page set implement a
    finite map from pointers to mapping sizes: the filters in front of the
    table never hide an entry, so recognition is exact. *)
From S2P Require Import Prelude Machine SpanTable VmemArena ByteMem MallocModel PtrTable MallocOps MallocSpan MallocTags MallocDemo.

(** ** The page set has no false negatives *)

Lemma next_slot_lt i : (next_slot i < BOOTSTRAP_SET_SLOTS)%nat.
Proof.
  unfold next_slot. change (Z.of_nat BOOTSTRAP_SET_SLOTS - 1) with (Z.ones 10). rewrite Z.land_ones by lia.
  pose proof (Z.mod_pos_bound (Z.of_nat i + 1) (2 ^ 10) ltac:(lia)).
  change BOOTSTRAP_SET_SLOTS with (Z.to_nat 1024). lia.
Qed.

Lemma page_hash_lt page : (bootstrap_page_hash page < BOOTSTRAP_SET_SLOTS)%nat.
Proof.
  unfold bootstrap_page_hash. change (Z.of_nat BOOTSTRAP_SET_SLOTS - 1) with (Z.ones 10). rewrite Z.land_ones by lia.
  match goal with |- context [?x mod 2 ^ 10] => pose proof (Z.mod_pos_bound x (2 ^ 10) ltac:(lia)) end.
  change BOOTSTRAP_SET_SLOTS with (Z.to_nat 1024). lia.
Qed.

(** Filling an empty slot keeps every hit. *)
Lemma probe_mono n pages page i j v :
  (j < length pages)%nat -> pages !!! j = 0 -> v <> 0 ->
  set_probe_loop n pages page i = true -> set_probe_loop n (<[j := v]> pages) page i = true.
Proof.
  intros Hj Hz Hv. revert i. induction n as [|n IH]; intros i; [done|]. simpl.
  destruct (decide (i = j)) as [->|Hne].
  - by rewrite Hz.
  - rewrite list_lookup_total_insert_ne by done.
    destruct (pages !!! i =? 0); [done|]. destruct (pages !!! i =? page + 1); [done|apply IH].
Qed.

Lemma add_probe n pages page i pages' ok :
  length pages = BOOTSTRAP_SET_SLOTS -> (i < BOOTSTRAP_SET_SLOTS)%nat -> 0 <= page ->
  set_add_loop n pages page i = (pages', ok) ->
  set_probe_loop n pages' page i = true /\ length pages' = BOOTSTRAP_SET_SLOTS /\
  forall m page' i', set_probe_loop m pages page' i' = true -> set_probe_loop m pages' page' i' = true.
Proof.
  intros Hl. revert i. induction n as [|n IH]; intros i Hi Hp; simpl.
  - intros [= <- <-]. done.
  - destruct (Z.eqb_spec (pages !!! i) (page + 1)) as [E|E].
    + intros [= <- <-]. rewrite E, (proj2 (Z.eqb_neq _ _)), Z.eqb_refl by lia. done.
    + destruct (Z.eqb_spec (pages !!! i) 0) as [E0|E0].
      * intros [= <- <-]. rewrite list_lookup_total_insert_eq by lia.
        rewrite (proj2 (Z.eqb_neq _ _)), Z.eqb_refl by lia. rewrite length_insert.
        split; [done|]. split; [done|]. intros m page' i'. apply probe_mono; [lia|done|lia].
      * intros Ha. destruct (IH _ (next_slot_lt i) Hp Ha) as (H1 & H2 & H3).
        split_and!; [|done|done].
        assert (E1 : pages' !!! i = pages !!! i).
        { clear - Ha E0 Hl. revert Ha. generalize (next_slot i). induction n as [|n IHn]; intros k; simpl.
          - by intros [= <- <-].
          - destruct (_ =? _); [by intros [= <- <-]|]. destruct (Z.eqb_spec (pages !!! k) 0) as [Ek|];
              [|apply IHn]. intros [= <- <-]. rewrite list_lookup_total_insert_ne; [done|]. by intros ->. }
        rewrite E1, (proj2 (Z.eqb_neq _ _)), (proj2 (Z.eqb_neq _ _)) by done. done.
Qed.

(** ** The table as a finite map *)

(** A pointer [bootstrap_malloc] can return: 16 bytes into a page. *)
Definition boot_ptr (p : Z) : Prop := 0 < p /\ Z.land p 4095 = sizeof_bootstrap_header.

Record registry (b : bootstrap) (M : gmap Z Z) : Prop := {
  rg_len : length (bootstrap_ptrs b) = MAX_BOOTSTRAP_PTRS;
  rg_slots : length (bootstrap_pages b) = BOOTSTRAP_SET_SLOTS;
  rg_tab : ptab (bootstrap_ptrs b) M;
  rg_ok p sz : M !! p = Some sz -> boot_ptr p /\ sz <> 0;
  rg_set p sz : M !! p = Some sz -> bootstrap_set_may_contain p (bootstrap_pages b) = true;
  rg_live : bootstrap_live b = Z.of_nat (length (used (bootstrap_ptrs b)))
}.

Lemma shiftr_page p : 0 < p -> 0 <= Z.shiftr p 12.
Proof. intros Hp. apply Z.shiftr_nonneg. lia. Qed.

Lemma register_room b M p sz b' :
  registry b M -> boot_ptr p -> sz <> 0 -> M !! p = None ->
  bootstrap_register p sz b = (b', true) -> registry b' (<[p := sz]> M).
Proof.
  intros Hr [Hp0 Hp1] Hs Hn. unfold bootstrap_register.
  destruct (ptr_slot 0 (bootstrap_ptrs b)) as [i|] eqn:E; [|done].
  unfold bootstrap_set_add.
  destruct (set_add_loop BOOTSTRAP_SET_SLOTS _ _ _) as [pages ok] eqn:Ea. intros [= <-].
  destruct (add_probe _ _ _ _ _ _ (rg_slots _ _ Hr) (page_hash_lt _) (shiftr_page p Hp0) Ea) as (A1 & A2 & A3).
  destruct (ptab_insert _ _ i p sz (rg_tab _ _ Hr) E ltac:(lia) Hn) as [T1 T2].
  split; cbn [bootstrap_ptrs bootstrap_pages bootstrap_live].
  - rewrite length_insert. apply (rg_len _ _ Hr).
  - exact A2.
  - exact T1.
  - intros q sz' [[<- <-]|[_ Hq]]%lookup_insert_Some; [done|]. by eapply (rg_ok _ _ Hr).
  - intros q sz' [[<- <-]|[_ Hq]]%lookup_insert_Some; unfold bootstrap_set_may_contain; [done|].
    apply A3. by apply (rg_set _ _ Hr q sz').
  - rewrite (rg_live _ _ Hr), T2. lia.
Qed.

Lemma register_full b M p sz b' :
  registry b M -> bootstrap_register p sz b = (b', false) ->
  b' = b /\ bootstrap_live b = Z.of_nat MAX_BOOTSTRAP_PTRS.
Proof.
  intros Hr. unfold bootstrap_register. destruct (ptr_slot 0 (bootstrap_ptrs b)) eqn:E.
  - by destruct (bootstrap_set_add _ _).
  - intros [= <-]. split; [done|]. apply ptr_slot_none in E.
    by rewrite (rg_live _ _ Hr), used_full, (rg_len _ _ Hr).
Qed.

Lemma unregister_known b M p sz :
  registry b M -> M !! p = Some sz ->
  exists b', bootstrap_unregister p b = (b', sz) /\ registry (boot_live_add (-1) b') (delete p M).
Proof.
  intros Hr Hs. destruct (rg_ok _ _ Hr _ _ Hs) as [[Hp _] Hz]. unfold bootstrap_unregister.
  destruct (ptab_delete _ _ p sz (rg_tab _ _ Hr) ltac:(lia) Hs) as (i & -> & -> & T1 & T2).
  eexists. split; [done|].
  split; cbn [boot_live_add bootstrap_ptrs bootstrap_pages bootstrap_live].
  - rewrite length_insert. apply (rg_len _ _ Hr).
  - apply (rg_slots _ _ Hr).
  - exact T1.
  - intros q sz' [_ Hq]%lookup_delete_Some. by eapply (rg_ok _ _ Hr).
  - intros q sz' [_ Hq]%lookup_delete_Some. by eapply (rg_set _ _ Hr).
  - rewrite (rg_live _ _ Hr), T2. lia.
Qed.

Lemma unregister_unknown b M p :
  registry b M -> p <> 0 -> M !! p = None -> bootstrap_unregister p b = (b, 0).
Proof.
  intros Hr Hp Hn. unfold bootstrap_unregister. by rewrite (ptab_absent _ _ _ (rg_tab _ _ Hr) Hp Hn).
Qed.

(** The filters let every registered pointer through. *)
Lemma recognised b M p :
  registry b M -> is_bootstrap_pointer p b = bool_decide (is_Some (M !! p)).
Proof.
  intros Hr. unfold is_bootstrap_pointer, bootstrap_pointer_p, bootstrap_registered.
  destruct (Z.eqb_spec p 0) as [->|Hp].
  { symmetry. apply bool_decide_eq_false. rewrite (pt_zero _ _ (rg_tab _ _ Hr)). by intros []. }
  destruct (M !! p) as [sz|] eqn:Em.
  - rewrite bool_decide_eq_true_2 by (by eexists). destruct (rg_ok _ _ Hr _ _ Em) as [[_ H16] _].
    destruct (ptab_delete _ _ p sz (rg_tab _ _ Hr) Hp Em) as (i & -> & _ & _ & T2).
    assert (bootstrap_live b <> 0) by (rewrite (rg_live _ _ Hr), T2; lia).
    by rewrite (proj2 (Z.eqb_neq _ _)), H16, Z.eqb_refl, (rg_set _ _ Hr _ _ Em) by done.
  - rewrite bool_decide_eq_false_2 by (by intros []).
    rewrite (ptab_absent _ _ _ (rg_tab _ _ Hr) Hp Em). by repeat case_match.
Qed.

Lemma registry0 : registry bootstrap0 ∅.
Proof.
  split; cbn [bootstrap0 bootstrap_ptrs bootstrap_pages bootstrap_live];
    rewrite ?used_replicate, ?length_replicate; [reflexivity|reflexivity|apply ptab0|done|done|reflexivity].
Qed.

Lemma registry_size b M : registry b M -> bootstrap_live b = Z.of_nat (size M).
Proof. intros Hr. by rewrite (rg_live _ _ Hr), (ptab_size _ _ (rg_tab _ _ Hr)). Qed.

(** ** Histories *)

(** What [bootstrap_malloc] and [bootstrap_free] do to the registry. *)
Inductive boot_op := BMalloc (buf total : Z) | BFree (buf : Z).

Definition boot_exec (op : boot_op) (b : bootstrap) : bootstrap :=
  match op with
  | BMalloc buf total => (bootstrap_register buf total b).1
  | BFree buf =>
      let '(b, sz) := bootstrap_unregister buf b in
      if sz =? 0 then b else boot_live_add (-1) b
  end.

(** The contract: a map of at most [MAX_BOOTSTRAP_PTRS] entries. *)
Definition boot_spec (op : boot_op) (M : gmap Z Z) : gmap Z Z :=
  match op with
  | BMalloc buf total => if decide (size M < MAX_BOOTSTRAP_PTRS)%nat then <[buf := total]> M else M
  | BFree buf => delete buf M
  end.

(** [mmap] gives page-aligned memory that is not mapped already; a free is of
    any pointer but NULL. *)
Definition boot_op_ok (op : boot_op) (M : gmap Z Z) : Prop :=
  match op with
  | BMalloc buf total => boot_ptr buf /\ total <> 0 /\ M !! buf = None
  | BFree buf => buf <> 0
  end.

Fixpoint boot_ops_ok (ops : list boot_op) (M : gmap Z Z) : Prop :=
  match ops with
  | [] => True
  | op :: ops' => boot_op_ok op M /\ boot_ops_ok ops' (boot_spec op M)
  end.

Definition boot_run (ops : list boot_op) (b : bootstrap) : bootstrap := foldl (fun b op => boot_exec op b) b ops.
Definition boot_spec_run (ops : list boot_op) (M : gmap Z Z) : gmap Z Z := foldl (fun M op => boot_spec op M) M ops.

Lemma boot_exec_refines op b M :
  registry b M -> boot_op_ok op M -> registry (boot_exec op b) (boot_spec op M).
Proof.
  intros Hr Hok. destruct op as [buf total|buf]; cbn [boot_exec boot_spec boot_op_ok] in *.
  - destruct Hok as (H1 & H2 & H3). pose proof (registry_size _ _ Hr) as Hsz.
    destruct (bootstrap_register buf total b) as [b' ok] eqn:E. cbn [fst]. destruct ok.
    + assert (Hlt : (size M < MAX_BOOTSTRAP_PTRS)%nat).
      { unfold bootstrap_register in E. destruct (ptr_slot 0 (bootstrap_ptrs b)) as [i|] eqn:Es; [|done].
        destruct (ptab_insert _ _ i buf total (rg_tab _ _ Hr) Es ltac:(destruct H1; lia) H3) as [_ T2].
        pose proof (used_length (<[i := (buf, total)]> (bootstrap_ptrs b))) as Hl.
        rewrite length_insert, T2, (rg_len _ _ Hr), (ptab_size _ _ (rg_tab _ _ Hr)) in Hl. lia. }
      rewrite decide_True by done. by eapply register_room.
    + destruct (register_full _ _ _ _ _ Hr E) as [-> Hf]. rewrite decide_False; [done|]. lia.
  - destruct (M !! buf) as [sz|] eqn:Em.
    + destruct (unregister_known _ _ _ _ Hr Em) as (b' & -> & Hr'). destruct (rg_ok _ _ Hr _ _ Em) as [_ Hz].
      by rewrite (proj2 (Z.eqb_neq _ _)).
    + rewrite (unregister_unknown _ _ _ Hr Hok Em). simpl. by rewrite delete_id.
Qed.

(** C27: after any history of bootstrap allocations and frees, including frees of
    pointers that were never handed out, is_bootstrap_pointer answers yes exactly
    for the pointers currently registered: the live count, the alignment filter
    and the lock-free page set, which is never cleared, hide no entry, and a
    stale page costs a scan but no wrong answer.  An allocation is refused only
    when all 256 entries are in use. *)
Theorem bootstrap_registry_exact (ops : list boot_op) (p : Z) :
  boot_ops_ok ops ∅ ->
  registry (boot_run ops bootstrap0) (boot_spec_run ops ∅) /\
  is_bootstrap_pointer p (boot_run ops bootstrap0) = bool_decide (is_Some (boot_spec_run ops ∅ !! p)).
Proof.
  intros Hok. assert (Hr : registry (boot_run ops bootstrap0) (boot_spec_run ops ∅)); [|split; [done|by apply recognised]].
  pose proof registry0 as H0. revert H0 Hok. generalize bootstrap0 (∅ : gmap Z Z).
  induction ops as [|op ops IH]; intros b M Hr Hok; [done|]. destruct Hok as [Hok1 Hok2].
  apply IH; [|done]. by apply boot_exec_refines.
Qed.

Definition boot_demo : list boot_op := [BMalloc 0x7010 0x40; BMalloc 0x9010 0x2010; BFree 0x7010; BFree 0x5010].

Lemma bootstrap_registry_exact_witness :
  registry (boot_run boot_demo bootstrap0) (boot_spec_run boot_demo ∅) /\
  is_bootstrap_pointer 0x9010 (boot_run boot_demo bootstrap0) =
    bool_decide (is_Some (boot_spec_run boot_demo ∅ !! 0x9010)).
Proof.
  apply (bootstrap_registry_exact boot_demo 0x9010).
  unfold boot_demo. cbn [boot_ops_ok boot_op_ok].
  assert (E1 : boot_spec (BMalloc 0x7010 0x40) ∅ = {[0x7010 := 0x40]}) by (vm_compute; reflexivity).
  rewrite E1. unfold boot_ptr. split_and!; try lia; done.
Defined.

(** ** The release of a bootstrap block *)

Section release.
Context {W : Type} `{malloc_env W}.
Implicit Types (s : mstate W).

(** bootstrap_free trusts only the registry.  A registered pointer is
    unmapped with the size recorded when it was mapped, whatever its header now
    says (a header that disagrees is reported); any other pointer is left
    alone, its memory unread. *)
Theorem bootstrap_free_exact (p : Z) (M : gmap Z Z) s :
  registry (ms_boot s) M -> env_abort (ms_w s) = false -> is_word p -> p <> 0 ->
  match M !! p with
  | Some sz => exists s', bootstrap_free p s = Ok s' /\ registry (ms_boot s') (delete p M) /\
      (ms_w s', ms_mem s') = env_munmap (wsub p sizeof_bootstrap_header) sz (ms_w s, ms_mem s) /\
      (ms_log s' = ms_log s \/ ms_log s' = BadHeader p :: ms_log s)
  | None => bootstrap_free p s = Ok s
  end.
Proof.
  intros Hr Ha Hw Hp. unfold bootstrap_free. rewrite (proj2 (Z.eqb_neq p 0)) by done.
  destruct (M !! p) as [sz|] eqn:Em.
  - destruct (unregister_known _ _ _ _ Hr Em) as (b' & -> & Hr').
    destruct (rg_ok _ _ Hr _ _ Em) as [_ Hz]. rewrite (proj2 (Z.eqb_neq sz 0)) by done.
    unfold umem_err_recoverable. cbn [set_boot ms_w ms_mem ms_log ms_boot]. rewrite Ha.
    destruct (_ || _); cbn [res_bind ms_w ms_mem set_wm ms_boot]; eexists; (split; [done|]); (split; [done|]);
      (split; [by destruct (env_munmap _ _ _)|]); auto.
  - rewrite (unregister_unknown _ _ _ Hr Hp Em). cbn [Z.eqb]. by destruct s.
Qed.
End release.

Definition demo_sb : mstate demo_world :=
  set_boot (boot_run boot_demo bootstrap0) demo_s0.

Lemma demo_sb_registry : registry (ms_boot demo_sb) {[0x9010 := 0x2010]}.
Proof.
  assert (E : {[0x9010 := 0x2010]} = boot_spec_run boot_demo ∅) by (vm_compute; reflexivity).
  rewrite E. unfold boot_demo. cbn [foldl].
  do 4 (apply boot_exec_refines; [|cbn [boot_op_ok]; unfold boot_ptr; split_and?; (lia || reflexivity)]).
  apply registry0.
Qed.

Lemma bootstrap_free_exact_witness :
  (exists s', bootstrap_free 0x9010 demo_sb = Ok s' /\ registry (ms_boot s') (delete 0x9010 {[0x9010 := 0x2010]}) /\
    (ms_w s', ms_mem s') = env_munmap (wsub 0x9010 sizeof_bootstrap_header) 0x2010 (ms_w demo_sb, ms_mem demo_sb)) /\
  bootstrap_free 0x5010 demo_sb = Ok demo_sb.
Proof.
  pose proof (bootstrap_free_exact 0x9010 _ demo_sb demo_sb_registry eq_refl ltac:(unfold is_word; lia) ltac:(lia)) as H1.
  pose proof (bootstrap_free_exact 0x5010 _ demo_sb demo_sb_registry eq_refl ltac:(unfold is_word; lia) ltac:(lia)) as H2.
  split; [|exact H2]. destruct H1 as (s' & E & H3 & H4 & _). exists s'. auto.
Defined.
