(* ===== verification/MallocLive.v ===== *)
(** * malloc and free on a heap of live blocks

    The contract of the layer below as a set of live blocks: an allocation adds
    a block disjoint from the others, a free removes the one it names, and
    neither touches the bytes of any other.  [umem_malloc] and
    [umem_malloc_free] keep that contract. *)
From S2P Require Import Prelude Machine SpanTable VmemArena ByteMem SlabModel AllocSizes CacheCreate MallocModel MallocOps MallocSpan MallocTags MallocDemo MallocProps.

Abbreviation blocks := (gset (Z * Z)).

(** [m'] keeps the bytes of every block of [L]. *)
Definition keeps (L : blocks) (m m' : bytes) : Prop :=
  forall b n, (b, n) ∈ L -> same_on b (b + n) m m'.

Definition apart (b n : Z) (L : blocks) : Prop :=
  forall c k, (c, k) ∈ L -> b + n <= c \/ c + k <= b.

Class heap_laws (W : Type) `{malloc_env W} := {
  live_ok : W -> blocks -> Prop;
  hl_errno e w L : live_ok w L -> live_ok (env_set_errno e w) L;
  hl_ready e w : env_ready (env_set_errno e w) = env_ready w;
  hl_owned w L b n : live_ok w L -> (b, n) ∈ L -> owned (env_heap w) b n;
  hl_apart w L b n : live_ok w L -> (b, n) ∈ L -> apart b n (L ∖ {[(b, n)]});
  hl_alloc size w m b w' m' L :
    live_ok w L -> 0 < size < 2 ^ 64 -> env_umem_alloc size (w, m) = (b, (w', m')) ->
    keeps L m m' /\ env_ready w' = env_ready w /\
    (if decide (b = 0) then live_ok w' L
     else apart b size L /\ live_ok w' ({[(b, size)]} ∪ L));
  hl_free b n w m L :
    live_ok w L -> (b, n) ∈ L ->
    exists w' m', env_umem_free b n (w, m) = Ok (w', m') /\ live_ok w' (L ∖ {[(b, n)]}) /\
      keeps (L ∖ {[(b, n)]}) m m' /\ env_ready w' = env_ready w
}.

#[global] Instance keeps_equiv L : Equivalence (keeps L).
Proof.
  split; [intros m b n _; reflexivity|intros m m' H b n Hb; symmetry; by apply H|].
  intros m1 m2 m3 H1 H2 b n Hb. etransitivity; [by apply H1|by apply H2].
Qed.

Lemma keeps_sub (L L' : blocks) m m' : L' ⊆ L -> keeps L m m' -> keeps L' m m'.
Proof. intros Hs Hk b n Hb. apply Hk. by apply Hs. Qed.

(** Writing inside a block apart from all others keeps them. *)
Lemma keeps_outside (L : blocks) lo hi b n m m' :
  apart b n L -> b <= lo -> hi <= b + n ->
  (forall a, a < lo \/ hi <= a -> ldb m' a = ldb m a) -> keeps L m m'.
Proof. intros Ha Hl Hh Hm c k Hc a Hin. apply Hm. specialize (Ha c k Hc). lia. Qed.

Section live.
Context {W : Type} `{malloc_laws W} `{!heap_laws W}.
Implicit Types (s : mstate W).

(** Ready for ordinary requests, with live blocks [L]. *)
Record running (s : mstate W) (L : blocks) : Prop := {
  rn_ready : env_ready (ms_w s) = UMEM_READY;
  rn_depth : ms_depth s = 0;
  rn_live : live_ok (ms_w s) L
}.

Lemma exit_all s : ms_boot (umem_exit_malloc s) = ms_boot s /\
  ms_depth (umem_exit_malloc s) = ms_depth s + (if env_guard then -1 else 0).
Proof. unfold umem_exit_malloc. destruct env_guard; simpl; split; done || lia. Qed.

Lemma enter_all s : exists s1, umem_enter_malloc s = ((if env_guard then ms_depth s else 0), s1) /\
  ms_w s1 = ms_w s /\ ms_mem s1 = ms_mem s /\ ms_boot s1 = ms_boot s /\
  ms_depth s1 = ms_depth s + (if env_guard then 1 else 0).
Proof. unfold umem_enter_malloc. destruct env_guard; eexists; split_and!; try done; simpl; lia. Qed.

(** The states [umem_malloc] can return in: the guard is released, the registry
    is as before, and the layer below was called at most once. *)
Lemma umem_malloc_ends n s :
  is_word n -> env_ready (ms_w s) = UMEM_READY -> ms_depth s = 0 ->
  exists p s', umem_malloc n s = Ok (p, s') /\ ms_boot s' = ms_boot s /\ ms_depth s' = 0 /\
    (p = 0 -> exists e w m, ms_w s' = env_set_errno e w /\ ms_mem s' = m /\
       ((w, m) = (ms_w s, ms_mem s) \/
        exists size, 0 < size < 2 ^ 64 /\ env_umem_alloc size (ms_w s, ms_mem s) = (0, (w, m)))).
Proof.
  intros Hn Hr Hd. unfold umem_malloc. rewrite Hr. change (UMEM_READY =? UMEM_READY) with true. cbn [negb].
  destruct (enter_all s) as (s1 & -> & Ew & Em & Eb & Ed). rewrite Hd in *.
  assert (Ex : forall s2, ms_boot s2 = ms_boot s1 -> ms_depth s2 = ms_depth s1 ->
    ms_boot (umem_exit_malloc s2) = ms_boot s /\ ms_depth (umem_exit_malloc s2) = 0).
  { intros s2 B D. destruct (exit_all s2) as [-> ->]. rewrite B, D, Ed. split; [done|]. destruct env_guard; lia. }
  replace (0 <? (if env_guard then 0 else 0)) with false by (by destruct env_guard).
  destruct (if UMEM_SECOND_ALIGN <? _ then _ else _) as [size high] eqn:Es.
  assert (Hsz : is_word size).
  { destruct (UMEM_SECOND_ALIGN <? _); injection Es as <- <-; apply w64_range. }
  destruct (Z.ltb_spec size n) as [Hov|Hov].
  { destruct (Ex s1 eq_refl eq_refl) as [B D]. eexists _, _. split; [done|]. simpl. rewrite B, D.
    split; [done|]. split; [done|]. intros _. eexists _, _, _. split; [done|]. split; [done|]. left.
    destruct (exit_wm s1) as [-> ->]. by rewrite Ew, Em. }
  assert (Hpos : 0 < size).
  { unfold is_word, wadd, w64, sizeof_malloc_data, UMEM_SECOND_ALIGN in *.
    destruct (Z.ltb_spec 16 ((n + 8) mod 2 ^ 64)); injection Es as <- <-; [|destruct (decide (n = 0)) as [->|]];
      [|by rewrite Z.mod_small by lia|lia].
    destruct (decide (n = 0)) as [->|]; [|lia]. by rewrite (Z.mod_small (0 + 8)), Z.mod_small by lia. }
  unfold call. rewrite Ew, Em.
  destruct (env_umem_alloc size (ms_w s, ms_mem s)) as [base [w m]] eqn:Ea.
  destruct (Z.eqb_spec base 0) as [->|Hz].
  { set (s2 := set_wm (w, m) s1). destruct (Ex s2 eq_refl eq_refl) as [B D].
    eexists _, _. split; [done|]. simpl. rewrite B, D. split; [done|]. split; [done|]. intros _.
    eexists _, _, _. split; [done|]. split; [done|]. right. exists size. unfold is_word in Hsz.
    split; [lia|]. destruct (exit_wm s2) as [-> ->]. done. }
  assert (Hb : 0 < base) by (apply (law_umem_alloc size _ _ _ ltac:(unfold is_word in Hsz; lia) Ea Hz)).
  destruct (0 <? high); [|destruct (UMEM_SECOND_ALIGN <? size)]; eexists _, _; (split; [done|]);
    unfold sizeof_malloc_data;
    match goal with |- context [umem_exit_malloc ?x] => destruct (Ex x eq_refl eq_refl) as [-> ->] end;
    (split; [done|]; split; [done|]; lia).
Qed.

(** An allocation keeps every live block, and on success adds one. *)
Lemma malloc_live n s L :
  is_word n -> running s L ->
  exists p s', umem_malloc n s = Ok (p, s') /\ ms_boot s' = ms_boot s /\ keeps L (ms_mem s) (ms_mem s') /\
    ((p = 0 /\ running s' L) \/
     (p <> 0 /\ exists l base size, l <> Aligned /\ block_out l base size n p s' /\ apart base size L /\
        running s' ({[(base, size)]} ∪ L))).
Proof.
  intros Hn [Hr Hd HL]. destruct (umem_malloc_ends n s Hn Hr Hd) as (p & s' & E & Eb & Ed & Hz).
  exists p, s'. split; [done|]. split; [done|]. destruct (decide (p = 0)) as [->|Hp].
  - destruct (Hz eq_refl) as (e & w & m & Ew & Em & [Es|(size & Hs & Ea)]).
    + injection Es as -> ->. rewrite Em. split; [reflexivity|]. left. split; [done|].
      split; rewrite ?Ew, ?hl_ready; [done|done|by apply hl_errno].
    + destruct (hl_alloc _ _ _ _ _ _ _ HL Hs Ea) as (K & R & L'). rewrite Em. split; [done|].
      left. split; [done|]. simpl in L'. split; rewrite ?Ew, ?hl_ready; [congruence|done|by apply hl_errno].
  - destruct (umem_malloc_block n s p s' Hn Hr Hd E Hp) as (l & base & size & [w m] & Hl & Ea & Hb & _ & _ & Ew & Em).
    assert (Hs : 0 < size < 2 ^ 64).
    { destruct Hb as [-> _ ? _ _]. unfold is_word in Hn. destruct l; simpl in *; lia. }
    destruct (hl_alloc _ _ _ _ _ _ _ HL Hs Ea) as (K & R & L').
    assert (Hz0 : base <> 0) by (destruct Hb as [_ _ ? _ _]; lia).
    rewrite decide_False in L' by done. destruct L' as [Ha L']. split.
    + etransitivity; [done|]. apply (keeps_outside L base p base size m (ms_mem s') Ha); [lia| |done].
      destruct Hb as [-> -> _ _ _]. unfold is_word in Hn. lia.
    + right. split; [done|]. exists l, base, size. split; [done|]. split; [done|]. split; [done|].
      simpl in Ew. split; rewrite ?Ew; [congruence|done|done].
Qed.

(** A free of a live block removes it and keeps the others. *)
Lemma free_live l base size n p s L :
  l <> Aligned -> 0 <= n -> block_out l base size n p s -> (base, size) ∈ L -> running s L ->
  bootstrap_pointer_p p (ms_boot s) = false ->
  exists s', umem_malloc_free p s = Ok s' /\ running s' (L ∖ {[(base, size)]}) /\
    keeps (L ∖ {[(base, size)]}) (ms_mem s) (ms_mem s') /\ ms_boot s' = ms_boot s /\
    env_errno (ms_w s') = env_errno (ms_w s).
Proof.
  intros Hl Hn Hb HL [Hr Hd Hok] Hnb. rewrite malloc_free_full, Hnb.
  assert (Hp : p <> 0) by (destruct Hb as [_ -> ? _ _]; destruct l; simpl; lia).
  rewrite (proj2 (Z.eqb_neq _ _)) by done.
  destruct (block_out_freed l base size n p s Hn Hb) as [_ (sc & m & Hm & ->)].
  replace (layout_memalign l) with false by (by destruct l).
  unfold call_free. cbn [set_bytes set_span ms_w ms_mem].
  destruct (hl_free base size (ms_w s) m L Hok HL) as (w' & m' & -> & Hok' & Hk & Hr').
  cbn [res_bind]. eexists. split; [reflexivity|]. split; [|split; [|split]].
  - split; cbn [set_errno set_wm set_bytes set_span ms_w ms_depth fst]; rewrite ?hl_ready;
      [congruence|done|by apply hl_errno].
  - cbn [set_errno set_wm ms_mem snd]. etransitivity; [|done].
    apply (keeps_outside _ base p base size); [by apply (hl_apart (ms_w s))|lia| |done].
    destruct Hb as [-> -> _ _ _]. lia.
  - done.
  - cbn [set_errno set_wm ms_w fst]. apply law_errno_get.
Qed.
End live.
