(* ===== verification/InterposeModel.v ===== *)
(** * The malloc interposer

    Translation of [malloc_interpose.c]: the process's [malloc], [free],
    [calloc], [realloc], [memalign] and their relatives, which route each
    request by the state of interposition and each pointer by its owner (the
    static buffer, a bootstrap mapping, libc, umem). *)
From S2P Require Import Prelude Machine SpanTable VmemArena ByteMem SlabModel AllocSizes CacheCreate MallocModel MallocOps.

Inductive interpose_state_t := INTERPOSE_UNINIT | INTERPOSE_BOOTSTRAP | INTERPOSE_READY.
Inductive interpose_owner_t := OWN_UNKNOWN | OWN_STATIC | OWN_BOOTSTRAP | OWN_LIBC | OWN_UMEM.

#[global] Instance interpose_state_eq_dec : EqDecision interpose_state_t.
Proof. solve_decision. Defined.
#[global] Instance interpose_owner_eq_dec : EqDecision interpose_owner_t.
Proof. solve_decision. Defined.

Definition STATIC_BUFFER_SIZE : Z := 4096.
Definition STATIC_CHUNK_MAGIC : Z := 0x5A5A0BEEF.
Definition sizeof_static_chunk : Z := 16.
Definition MAX_LIBC_PTRS : nat := Z.to_nat 512.

(** What the interposer calls beside [malloc.c]: the addresses [dlsym] found
    (NULL is [None]), and [umem_init], which may allocate bootstrap blocks. *)
Class interpose_env (W : Type) := {
  ienv_static_buffer : Z;                                   (* its address *)
  ienv_pagesize : Z;
  ienv_init : mstate W -> mstate W;                         (* umem_init() *)
  ienv_libc_free : option (Z -> W * bytes -> W * bytes);
  ienv_libc_realloc : option (Z -> Z -> W * bytes -> Z * (W * bytes));
  ienv_libc_memalign : option (Z -> Z -> W * bytes -> Z * (W * bytes))
}.

Record istate (W : Type) := IState {
  is_m : mstate W;
  interpose_state : interpose_state_t;
  static_buffer_used : Z;
  in_dlsym : bool;
  libc_resolved : bool;             (* resolve_libc_functions() has run *)
  libc_ptrs : list (Z * Z);
  libc_ptr_live : Z;
  calloc_depth : Z;
  umem_init_attempted : bool
}.
Arguments IState {W}. Arguments is_m {W}. Arguments interpose_state {W}. Arguments static_buffer_used {W}.
Arguments in_dlsym {W}. Arguments libc_resolved {W}. Arguments libc_ptrs {W}. Arguments libc_ptr_live {W}.
Arguments calloc_depth {W}. Arguments umem_init_attempted {W}.

Section interpose.
Context {W : Type} `{malloc_env W} `{interpose_env W}.
Implicit Types (s : istate W).

Definition set_m (m : mstate W) s : istate W :=
  IState m (interpose_state s) (static_buffer_used s) (in_dlsym s) (libc_resolved s) (libc_ptrs s)
         (libc_ptr_live s) (calloc_depth s) (umem_init_attempted s).
Definition set_istate v s : istate W :=
  IState (is_m s) v (static_buffer_used s) (in_dlsym s) (libc_resolved s) (libc_ptrs s)
         (libc_ptr_live s) (calloc_depth s) (umem_init_attempted s).
Definition set_used v s : istate W :=
  IState (is_m s) (interpose_state s) v (in_dlsym s) (libc_resolved s) (libc_ptrs s)
         (libc_ptr_live s) (calloc_depth s) (umem_init_attempted s).
Definition set_libc tab live s : istate W :=
  IState (is_m s) (interpose_state s) (static_buffer_used s) (in_dlsym s) (libc_resolved s) tab
         live (calloc_depth s) (umem_init_attempted s).
Definition set_cdepth v s : istate W :=
  IState (is_m s) (interpose_state s) (static_buffer_used s) (in_dlsym s) (libc_resolved s) (libc_ptrs s)
         (libc_ptr_live s) v (umem_init_attempted s).
Definition set_attempted s : istate W :=
  IState (is_m s) (interpose_state s) (static_buffer_used s) (in_dlsym s) (libc_resolved s) (libc_ptrs s)
         (libc_ptr_live s) (calloc_depth s) true.
Definition i_errno (e : Z) s : istate W := set_m (set_errno e (is_m s)) s.
Definition i_mem s : bytes := ms_mem (is_m s).
Definition i_set_mem (m : bytes) s : istate W := set_m (set_bytes m (is_m s)) s.

(** Run an operation of [malloc.c]. *)
Definition lift {A} (f : mstate W -> result (A * mstate W)) s : result (A * istate W) :=
  do (a, m) <- f (is_m s); Ok (a, set_m m s).
Definition lift_ (f : mstate W -> result (mstate W)) s : result (istate W) :=
  do m <- f (is_m s); Ok (set_m m s).

(** ** The static buffer *)

Definition static_alloc (size : Z) s : Z * istate W :=
  if SIZE_MAX - 15 <? size then (0, s)
  else
    let need := Z.land (size + 15) (wnot 15) in
    if SIZE_MAX - sizeof_static_chunk <? need then (0, s)
    else
      let need := need + sizeof_static_chunk in
      if need <=? STATIC_BUFFER_SIZE - static_buffer_used s then
        let chunk := ienv_static_buffer + static_buffer_used s in
        let s := set_used (static_buffer_used s + need) s in
        let m := stq (i_mem s) chunk STATIC_CHUNK_MAGIC in
        let m := stq m (chunk + 8) (need - sizeof_static_chunk) in
        (chunk + sizeof_static_chunk, i_set_mem m s)
      else (0, s).

Definition is_static_pointer (ptr : Z) : bool :=
  (ienv_static_buffer <=? ptr) && (ptr <? ienv_static_buffer + STATIC_BUFFER_SIZE).

Definition get_static_size (ptr : Z) s : Z :=
  let chunk := wsub ptr sizeof_static_chunk in
  if negb (is_static_pointer chunk) || negb (ldq (i_mem s) chunk =? STATIC_CHUNK_MAGIC) then 0
  else ldq (i_mem s) (chunk + 8).

(** ** libc pointers *)

Definition track_libc_ptr (ptr size : Z) s : istate W * bool :=
  if ptr =? 0 then (s, false)
  else
    match ptr_slot 0 (libc_ptrs s) with
    | Some i => (set_libc (<[i := (ptr, size)]> (libc_ptrs s)) (libc_ptr_live s + 1) s, true)
    | None => (s, false)
    end.

(** The recorded size of a libc pointer. *)
Definition is_libc_pointer (ptr : Z) s : option Z :=
  if ptr =? 0 then None
  else if libc_ptr_live s =? 0 then None
  else (fun i => (libc_ptrs s !!! i).2) <$> ptr_slot ptr (libc_ptrs s).

Definition untrack_libc_ptr (ptr : Z) s : istate W :=
  if ptr =? 0 then s
  else
    match ptr_slot ptr (libc_ptrs s) with
    | Some i => set_libc (<[i := (0, 0)]> (libc_ptrs s)) (libc_ptr_live s - 1) s
    | None => s
    end.

Definition libc_free (ptr : Z) s : istate W :=
  match ienv_libc_free with
  | Some f => if libc_resolved s then set_m (set_wm (f ptr (ms_w (is_m s), i_mem s)) (is_m s)) s else s
  | None => s
  end.

(** ** The owner of a pointer *)

Definition get_bootstrap_size (ptr : Z) s : Z :=
  if ptr =? 0 then 0
  else
    let hdr := wsub ptr sizeof_bootstrap_header in
    if negb (ldq (i_mem s) hdr =? BOOTSTRAP_MAGIC) then 0
    else wsub (ldq (i_mem s) (hdr + 8)) sizeof_bootstrap_header.

(** The owner and the usable size; classifying a umem pointer runs the checks
    of [process_free], which may report and refresh the span cache. *)
Definition interpose_owner_of (ptr : Z) s : result (interpose_owner_t * Z * istate W) :=
  if ptr =? 0 then Ok (OWN_UNKNOWN, 0, s)
  else if is_static_pointer ptr then Ok (OWN_STATIC, get_static_size ptr s, s)
  else if is_bootstrap_pointer ptr (ms_boot (is_m s)) then Ok (OWN_BOOTSTRAP, get_bootstrap_size ptr s, s)
  else match is_libc_pointer ptr s with
  | Some size => Ok (OWN_LIBC, size, s)
  | None =>
      if bool_decide (interpose_state s = INTERPOSE_READY) then
        do (ok, size, s) <- lift (process_free ptr false) s;
        if ok : bool then Ok (OWN_UMEM, default 0 size, s) else Ok (OWN_UNKNOWN, 0, s)
      else Ok (OWN_UNKNOWN, 0, s)
  end.

(** ** malloc and free *)

(** Start umem on the first request after start-up; become READY with it. *)
Definition interpose_ready s : istate W :=
  if bool_decide (interpose_state s = INTERPOSE_BOOTSTRAP) then
    let s := if (env_ready (ms_w (is_m s)) =? UMEM_READY_STARTUP) && negb (umem_init_attempted s)
             then let s := set_attempted s in set_m (ienv_init (is_m s)) s else s in
    if env_ready (ms_w (is_m s)) =? UMEM_READY then set_istate INTERPOSE_READY s else s
  else s.

Definition malloc (size : Z) s : result (Z * istate W) :=
  if in_dlsym s then Ok (static_alloc size s)
  else
    let s := interpose_ready s in
    if bool_decide (interpose_state s = INTERPOSE_READY) then lift (umem_malloc size) s
    else lift (bootstrap_malloc size) s.

Definition free (ptr : Z) s : result (istate W) :=
  if ptr =? 0 then Ok s
  else if bool_decide (interpose_state s = INTERPOSE_READY) && negb (is_static_pointer ptr) &&
          (libc_ptr_live s =? 0)
  then lift_ (umem_malloc_free ptr) s
  else
    do (owner, _, s) <- interpose_owner_of ptr s;
    match owner with
    | OWN_STATIC => Ok s
    | OWN_BOOTSTRAP => lift_ (bootstrap_free ptr) s
    | OWN_LIBC => Ok (libc_free ptr (untrack_libc_ptr ptr s))
    | OWN_UMEM => lift_ (umem_malloc_free ptr) s
    | OWN_UNKNOWN =>
        if bool_decide (interpose_state s = INTERPOSE_READY) then lift_ (umem_malloc_free ptr) s
        else Ok (libc_free ptr s)
    end.

Definition malloc_usable_size (ptr : Z) s : result (Z * istate W) :=
  do (owner, size, s) <- interpose_owner_of ptr s;
  Ok (if bool_decide (owner = OWN_UNKNOWN) then 0 else size, s).

Definition calloc_zero_fill (p n : Z) s : istate W := i_set_mem (memset (Z.to_nat n) (i_mem s) p 0) s.

(** [ret == NULL ? (errno = ENOMEM, NULL) : (zero-fill, ret)] *)
Definition calloc_end (ret size : Z) s : Z * istate W :=
  if ret =? 0 then (0, i_errno ENOMEM s) else (ret, calloc_zero_fill ret size s).

Definition calloc (nelem elsize : Z) s : result (Z * istate W) :=
  if (0 <? nelem) && (0 <? elsize) && (SIZE_MAX / elsize <? nelem) then Ok (0, i_errno ENOMEM s)
  else
    let size := w64 (nelem * elsize) in
    if in_dlsym s then let '(ret, s) := static_alloc size s in Ok (calloc_end ret size s)
    else if 0 <? calloc_depth s then
      do (ret, s) <- lift (bootstrap_malloc size) s; Ok (calloc_end ret size s)
    else
      let s := set_cdepth (calloc_depth s + 1) s in
      do (ret, s) <- malloc size s;
      let s := if ret =? 0 then s else calloc_zero_fill ret size s in
      Ok (ret, set_cdepth (calloc_depth s - 1) s).

(** The part of [realloc] after the owner is known to be ours. *)
Definition realloc_move (ptr size old_size : Z) s : result (Z * istate W) :=
  do (new_ptr, s) <- malloc size s;
  if new_ptr =? 0 then Ok (0, s)
  else
    let s := i_set_mem (memcpy (Z.to_nat (Z.min old_size size)) (i_mem s) new_ptr ptr) s in
    do s <- free ptr s;
    Ok (new_ptr, s).

Definition realloc (ptr size : Z) s : result (Z * istate W) :=
  if ptr =? 0 then malloc size s
  else if size =? 0 then do s <- free ptr s; Ok (0, s)
  else
    do (owner, old_size, s) <- interpose_owner_of ptr s;
    match owner with
    | OWN_UMEM => if size =? old_size then Ok (ptr, s) else realloc_move ptr size old_size s
    | OWN_STATIC | OWN_BOOTSTRAP | OWN_LIBC =>
        if old_size =? 0 then Ok (0, i_errno EINVAL s) else realloc_move ptr size old_size s
    | OWN_UNKNOWN =>
        match ienv_libc_realloc with
        | Some f =>
            if negb (bool_decide (interpose_state s = INTERPOSE_READY)) && libc_resolved s then
              let '(p, wm) := f ptr size (ms_w (is_m s), i_mem s) in
              Ok (p, set_m (set_wm wm (is_m s)) s)
            else Ok (0, i_errno EINVAL s)
        | None => Ok (0, i_errno EINVAL s)
        end
    end.

(** ** Aligned allocation *)

Definition memalign (align size : Z) s : result (Z * istate W) :=
  if (align =? 0) || negb (Z.land align (wsub align 1) =? 0) then Ok (0, i_errno EINVAL s)
  else if bool_decide (interpose_state s = INTERPOSE_READY) then lift (umem_memalign align size) s
  else
    match (if bool_decide (interpose_state s = INTERPOSE_BOOTSTRAP) && libc_resolved s
           then ienv_libc_memalign else None) with
    | Some f =>
        let '(ret, wm) := f align size (ms_w (is_m s), i_mem s) in
        let s := set_m (set_wm wm (is_m s)) s in
        if ret =? 0 then Ok (0, s)
        else
          let '(s, ok) := track_libc_ptr ret size s in
          if ok : bool then Ok (ret, s) else Ok (0, i_errno ENOMEM (libc_free ret s))
    | None =>
        let pgsz := if ienv_pagesize =? 0 then 4096 else ienv_pagesize in
        do (ret, s) <- lift (bootstrap_malloc size) s;
        if ret =? 0 then Ok (0, s)
        else if negb (Z.land ret (align - 1) =? 0) || (pgsz <? align) then
          do s <- lift_ (bootstrap_free ret) s;
          Ok (0, i_errno ENOMEM s)
        else Ok (ret, s)
    end.

(** The return value, and what is stored through [memptr] ([None]: nothing). *)
Definition posix_memalign (memptr_null : bool) (alignment size : Z) s : result (Z * option Z * istate W) :=
  if memptr_null then Ok (EINVAL, None, s)
  else if (alignment =? 0) || negb (Z.land alignment (wsub alignment 1) =? 0) || negb (alignment mod 8 =? 0)
  then Ok (EINVAL, None, s)
  else
    do (ptr, s) <- memalign alignment size s;
    if ptr =? 0 then if size =? 0 then Ok (0, Some 0, s) else Ok (ENOMEM, None, s)
    else Ok (0, Some ptr, s).

Definition aligned_alloc (alignment size : Z) s : result (Z * istate W) :=
  if (alignment =? 0) || negb (Z.land alignment (wsub alignment 1) =? 0) then Ok (0, i_errno EINVAL s)
  else memalign alignment size s.

Definition valloc (size : Z) s : result (Z * istate W) :=
  memalign (if ienv_pagesize =? 0 then 4096 else ienv_pagesize) size s.
End interpose.
