(* ===== verification/InterposeProps.v ===== *)
(** * Properties of the interposer

    realloc moves the contents and frees the old block only once the new one
    exists; calloc's overflow test is exact; libc pointers are recognised as
    long as they are live; static chunks never overlap. *)
From S2P Require Import Prelude Machine SpanTable VmemArena ByteMem SlabModel AllocSizes CacheCreate MallocModel PtrTable MallocOps MallocSpan MallocTags MallocDemo MallocProps BootReg MallocLive InterposeModel.

Section interpose.
Context {W : Type} `{malloc_laws W} `{!heap_laws W} `{!interpose_env W}.
Implicit Types (s : istate W).

(** Interposition is complete: requests go to umem, and no libc block from the
    start-up phase is live. *)
Record steady (s : istate W) (L : blocks) : Prop := {
  sy_state : interpose_state s = INTERPOSE_READY;
  sy_dlsym : in_dlsym s = false;
  sy_libc : libc_ptr_live s = 0;
  sy_run : running (is_m s) L
}.

(** A pointer of umem's own: in no other owner's hands. *)
Record umem_ptr (l : layout) (base size n p : Z) (s : istate W) : Prop := {
  up_layout : l <> Aligned;
  up_n : 0 <= n;
  up_block : block_out l base size n p (is_m s);
  up_static : is_static_pointer p = false;
  up_boot : bootstrap_pointer_p p (ms_boot (is_m s)) = false
}.

Lemma malloc_steady n s L :
  is_word n -> steady s L ->
  exists p s', malloc n s = Ok (p, s') /\ ms_boot (is_m s') = ms_boot (is_m s) /\
    calloc_depth s' = calloc_depth s /\ keeps L (i_mem s) (i_mem s') /\
    ((p = 0 /\ steady s' L) \/
     (p <> 0 /\ exists l base size, l <> Aligned /\ block_out l base size n p (is_m s') /\ apart base size L /\
        steady s' ({[(base, size)]} ∪ L))).
Proof.
  intros Hn [H1 H2 H3 H4]. unfold malloc. rewrite H2.
  assert (Er : interpose_ready s = s) by (unfold interpose_ready; by rewrite H1, bool_decide_eq_false_2).
  rewrite Er, H1, bool_decide_eq_true_2 by done. unfold lift.
  destruct (malloc_live n (is_m s) L Hn H4) as (p & m' & -> & Eb & Hk & Hc). cbn [res_bind].
  exists p, (set_m m' s). split; [done|]. split; [done|]. split; [done|]. split; [done|].
  destruct Hc as [[-> Hr]|(Hp & l & base & size & Hl & Hb & Ha & Hr)]; [left|right].
  - split; [done|]. by split.
  - split; [done|]. exists l, base, size. by split_and!.
Qed.

Lemma owner_steady l base size n p s L :
  umem_ptr l base size n p s -> steady s L ->
  exists sc, interpose_owner_of p s = Ok (OWN_UMEM, n, set_m (set_span sc (is_m s)) s).
Proof.
  intros [Hl Hn Hb Hs Hbt] [H1 H2 H3 H4]. unfold interpose_owner_of.
  assert (Hp : p <> 0) by (destruct Hb as [_ -> ? _ _]; destruct l; simpl; lia).
  rewrite (proj2 (Z.eqb_neq p 0)), Hs by done. unfold is_bootstrap_pointer. rewrite (proj2 (Z.eqb_neq p 0)), Hbt by done.
  unfold is_libc_pointer. rewrite (proj2 (Z.eqb_neq p 0)), H3 by done. cbn [Z.eqb].
  rewrite H1, bool_decide_eq_true_2 by done. unfold lift, process_free.
  rewrite (proj2 (Z.eqb_neq p 0)), Hbt by done. cbn [negb andb].
  destruct (block_out_freed l base size n p (is_m s) Hn Hb) as [(sc & ->) _]. by exists sc.
Qed.

Lemma free_steady l base size n p s L :
  umem_ptr l base size n p s -> (base, size) ∈ L -> steady s L ->
  exists s', free p s = Ok s' /\ steady s' (L ∖ {[(base, size)]}) /\
    keeps (L ∖ {[(base, size)]}) (i_mem s) (i_mem s').
Proof.
  intros [Hl Hn Hb Hs Hbt] Hin [H1 H2 H3 H4]. unfold free.
  assert (Hp : p <> 0) by (destruct Hb as [_ -> ? _ _]; destruct l; simpl; lia).
  rewrite (proj2 (Z.eqb_neq p 0)), H1, bool_decide_eq_true_2, Hs, H3 by done. cbn [negb andb Z.eqb].
  destruct (free_live l base size n p (is_m s) L Hl Hn Hb Hin H4 Hbt) as (m' & E & Hr & Hk & _).
  unfold lift_. rewrite E. cbn [res_bind]. exists (set_m m' s). split; [done|]. split; [by split|done].
Qed.

(** The copy from the old block to the new one. *)
Lemma realloc_copy (l l' : layout) (base size n p base' size' k q : Z) (L : blocks) (m0 m : mstate W) :
  block_out l base size n p m0 -> block_out l' base' size' k q m -> 0 <= n -> 0 <= k ->
  (base, size) ∈ L -> apart base' size' L ->
  let c := memcpy (Z.to_nat (Z.min n k)) (ms_mem m) q p in
  keeps L (ms_mem m) c /\ block_out l' base' size' k q (set_bytes c m) /\
  forall i, 0 <= i < Z.min n k -> ldb c (q + i) = ldb (ms_mem m) (p + i).
Proof.
  intros [-> -> [Hb1 Hb2] _ _] Hbk Hn Hk Hin Ha c. pose proof Hbk as [-> -> [Hc1 Hc2] Ht Ho].
  assert (Hov : overhead l = 8 \/ overhead l = 16) by (destruct l; auto).
  assert (Hov' : overhead l' = 8 \/ overhead l' = 16) by (destruct l'; auto).
  assert (Hout : forall a, a < base' + overhead l' \/ base' + overhead l' + Z.min n k <= a ->
    ldb c a = ldb (ms_mem m) a) by (intros a Ha'; apply memcpy_out; lia).
  split; [|split].
  - apply (keeps_outside L (base' + overhead l') (base' + overhead l' + Z.min n k) base' (k + overhead l'));
      [done|lia|lia|done].
  - split; try done. cbn [set_bytes ms_mem]. eapply tagged_same; [|done]. intros a Haa. apply Hout. lia.
  - intros i Hi. specialize (Ha _ _ Hin). apply memcpy_in; lia.
Qed.

(** C13: realloc of a block of n bytes to k (both non-zero requests, interposition
    complete).  If it returns NULL, the old block is untouched: still live, its
    bytes and tag as they were.  If the size is the same, the pointer comes back
    and nothing changes.  Otherwise a new block of k bytes, disjoint from every
    live one, holds the first min(n, k) bytes, the old block has been freed, and
    no byte of any other live block has changed. *)
Theorem realloc_moves (l : layout) (base size n p k : Z) (L : blocks) s :
  steady s L -> umem_ptr l base size n p s -> (base, size) ∈ L -> 0 < k < 2 ^ 64 ->
  exists q s', realloc p k s = Ok (q, s') /\
    (k = n -> q = p /\ i_mem s' = i_mem s /\ steady s' L) /\
    (k <> n ->
      (q = 0 /\ steady s' L /\ keeps L (i_mem s) (i_mem s') /\ block_out l base size n p (is_m s')) \/
      (exists l' base' size', block_out l' base' size' k q (is_m s') /\ apart base' size' L /\
         steady s' ({[(base', size')]} ∪ L ∖ {[(base, size)]}) /\
         keeps (L ∖ {[(base, size)]}) (i_mem s) (i_mem s') /\
         forall i, 0 <= i < Z.min n k -> ldb (i_mem s') (q + i) = ldb (i_mem s) (p + i))).
Proof.
  intros Hst Hup Hin Hk. unfold realloc. pose proof (up_block _ _ _ _ _ _ Hup) as Hblk.
  assert (Hp : p <> 0) by (destruct Hblk as [_ -> ? _ _]; destruct l; simpl; lia).
  rewrite (proj2 (Z.eqb_neq p 0)), (proj2 (Z.eqb_neq k 0)) by lia.
  destruct (owner_steady _ _ _ _ _ _ _ Hup Hst) as [sc ->]. cbn [res_bind].
  set (s0 := set_m (set_span sc (is_m s)) s).
  assert (Hst0 : steady s0 L) by (destruct Hst as [? ? ? []]; split; try done; by split).
  destruct (Z.eqb_spec k n) as [->|Hne].
  { exists p, s0. split; [done|]. split; [done|]. intros []; done. }
  unfold realloc_move. destruct (malloc_steady k s0 L ltac:(unfold is_word; lia) Hst0)
    as (q & s1 & -> & Eb1 & _ & K1 & Hc). cbn [res_bind].
  destruct Hc as [[-> Hst1]|(Hq & l' & base' & size' & Hl' & Hb' & Ha & Hst1)].
  { cbn [Z.eqb]. exists 0, s1. split; [done|]. split; [done|]. intros _. left. split_and!; try done.
    eapply block_out_later; [exact Hblk| |apply (hl_owned (ms_w (is_m s1)) L); [apply (sy_run _ _ Hst1)|done]].
    eapply same_on_sub; [by apply (K1 base size)|lia|]. destruct Hblk as [-> -> _ _ _].
    pose proof (up_n _ _ _ _ _ _ Hup). lia. }
  rewrite (proj2 (Z.eqb_neq q 0)) by done.
  destruct (realloc_copy l l' base size n p base' size' k q L (is_m s) (is_m s1) Hblk Hb'
    (up_n _ _ _ _ _ _ Hup) ltac:(lia) Hin Ha) as (K2 & Hb2 & Hcp).
  set (c := memcpy _ (i_mem s1) q p). set (s2 := i_set_mem c s1).
  assert (Hst2 : steady s2 ({[(base', size')]} ∪ L)) by (destruct Hst1 as [? ? ? []]; split; try done; by split).
  assert (Hne2 : (base', size') <> (base, size)).
  { intros [= -> ->]. specialize (Ha _ _ Hin). destruct Hblk as [-> _ _ _ _].
    pose proof (up_n _ _ _ _ _ _ Hup). destruct l; simpl in *; lia. }
  assert (Hup2 : umem_ptr l base size n p s2).
  { destruct Hup as [? ? _ ? Hbt]. split; try done; [|by cbn; rewrite Eb1].
    eapply block_out_later; [exact Hblk| |apply (hl_owned (ms_w (is_m s2)) ({[(base', size')]} ∪ L));
      [apply (sy_run _ _ Hst2)|set_solver]].
    eapply same_on_sub; [etransitivity; [by apply (K1 base size)|by apply (K2 base size)]|lia|].
    destruct Hblk as [-> -> _ _ _]. lia. }
  destruct (free_steady l base size n p s2 ({[(base', size')]} ∪ L) Hup2 ltac:(set_solver) Hst2) as (s3 & -> & Hst3 & K3).
  cbn [res_bind]. exists q, s3. split; [done|]. split; [done|]. intros _. right. exists l', base', size'.
  assert (Es : ({[(base', size')]} ∪ L) ∖ {[(base, size)]} = {[(base', size')]} ∪ L ∖ {[(base, size)]} :> blocks).
  { apply leibniz_equiv. intros x. destruct (decide (x = (base', size'))) as [->|]; set_solver. }
  rewrite Es in Hst3, K3. split_and!; try done.
  - eapply block_out_later; [exact Hb2| |apply (hl_owned (ms_w (is_m s3)) ({[(base', size')]} ∪ L ∖ {[(base, size)]}));
      [apply (sy_run _ _ Hst3)|set_solver]].
    eapply same_on_sub; [apply (K3 base' size'); set_solver|lia|]. destruct Hb' as [-> -> _ _ _]. lia.
  - etransitivity; [eapply keeps_sub; [|exact K1]; set_solver|].
    etransitivity; [eapply keeps_sub; [|exact K2]; set_solver|]. eapply keeps_sub; [|exact K3]. set_solver.
  - intros i Hi. assert (Hi3 : ldb (i_mem s3) (q + i) = ldb c (q + i)).
    { apply (K3 base' size'); [set_solver|]. destruct Hb' as [-> -> _ _ _]. destruct l'; simpl; lia. }
    rewrite Hi3. unfold c. rewrite Hcp by done. apply (K1 base size Hin).
    destruct Hblk as [-> -> _ _ _]. destruct l; simpl; lia.
Qed.

(** ** calloc *)

Lemma calloc_overflow nelem elsize :
  is_word nelem -> is_word elsize ->
  (0 <? nelem) && (0 <? elsize) && (SIZE_MAX / elsize <? nelem) = (2 ^ 64 <=? nelem * elsize).
Proof.
  unfold is_word, SIZE_MAX. intros Hn He.
  destruct (Z.ltb_spec 0 nelem), (Z.ltb_spec 0 elsize); simpl; try (symmetry; apply Z.leb_gt; nia).
  pose proof (Z.div_mod (2 ^ 64 - 1) elsize ltac:(lia)).
  pose proof (Z.mod_pos_bound (2 ^ 64 - 1) elsize ltac:(lia)).
  destruct (Z.ltb_spec ((2 ^ 64 - 1) / elsize) nelem); symmetry; [apply Z.leb_le|apply Z.leb_gt]; nia.
Qed.

(** Calloc refuses exactly the products that do not fit 64 bits, leaving
    memory alone; otherwise it returns NULL, or a new block of nelem*elsize
    bytes, all zero, disjoint from every live block, whose bytes are kept; its
    recursion guard is as before. *)
Theorem calloc_zeroes (nelem elsize : Z) (L : blocks) s :
  is_word nelem -> is_word elsize -> steady s L -> calloc_depth s = 0 ->
  exists q s', calloc nelem elsize s = Ok (q, s') /\ keeps L (i_mem s) (i_mem s') /\ calloc_depth s' = 0 /\
    (2 ^ 64 <= nelem * elsize -> q = 0 /\ i_mem s' = i_mem s /\ steady s' L /\ env_errno (ms_w (is_m s')) = ENOMEM) /\
    (nelem * elsize < 2 ^ 64 ->
      (q = 0 /\ steady s' L) \/
      exists l base size, block_out l base size (nelem * elsize) q (is_m s') /\ apart base size L /\
        steady s' ({[(base, size)]} ∪ L) /\ forall i, 0 <= i < nelem * elsize -> ldb (i_mem s') (q + i) = 0).
Proof.
  intros Hn He Hst Hd. unfold calloc. rewrite calloc_overflow by done.
  destruct (Z.leb_spec (2 ^ 64) (nelem * elsize)) as [Hov|Hfit].
  - eexists _, _. split; [done|]. split; [reflexivity|]. split; [done|]. split; [|lia]. intros _.
    split; [done|]. split; [done|]. split; [|apply law_errno_get].
    destruct Hst as [? ? ? [? ? ?]]. split; try done. split; cbn; rewrite ?hl_ready; [done|done|by apply hl_errno].
  - unfold is_word in Hn, He. assert (Hw : is_word (nelem * elsize)) by (unfold is_word; nia).
    rewrite (sy_dlsym _ _ Hst), w64_small, Hd by done. cbn [Z.ltb].
    set (s0 := set_cdepth (0 + 1) s). assert (Hst0 : steady s0 L) by (destruct Hst as [? ? ? []]; split; try done; by split).
    destruct (malloc_steady (nelem * elsize) s0 L Hw Hst0) as (q & s1 & E & Eb & Ed & K & Hc). cbn in Ed.
    rewrite E. cbn [res_bind]. destruct Hc as [[-> Hst1]|(Hq & l & base & size & Hl & Hb & Ha & Hst1)].
    + cbn [Z.eqb]. eexists _, _. split; [done|]. split; [exact K|]. split; [cbn; lia|]. split; [lia|]. intros _. left.
      split; [done|]. destruct Hst1 as [? ? ? []]; split; try done; by split.
    + rewrite (proj2 (Z.eqb_neq q 0)) by done. unfold calloc_zero_fill.
      set (c := memset (Z.to_nat (nelem * elsize)) (i_mem s1) q 0).
      assert (Hout : forall a, a < q \/ q + nelem * elsize <= a -> ldb c a = ldb (i_mem s1) a)
        by (intros a Haa; apply memset_out; unfold is_word in Hw; lia).
      assert (Hin : forall i, 0 <= i < nelem * elsize -> ldb c (q + i) = 0).
      { intros i Hi. unfold c. rewrite memset_in by lia. done. }
      clearbody c. pose proof Hb as [Es Ep Hr Ht Ho].
      assert (overhead l = 8 \/ overhead l = 16) by (destruct l; auto).
      eexists _, _. split; [done|]. split; [|split; [cbn; lia|]].
      * etransitivity; [exact K|]. apply (keeps_outside L q (q + nelem * elsize) base size); [done|lia|lia|done].
      * split; [lia|]. intros _. right. exists l, base, size. split_and!; try done.
        -- split; try done. eapply tagged_same; [|done]. intros a Haa. apply Hout. lia.
        -- destruct Hst1 as [? ? ? []]; split; try done; by split.
Qed.

(** ** The table of libc pointers *)

Definition libc_table (s : istate W) (M : gmap Z Z) : Prop :=
  length (libc_ptrs s) = MAX_LIBC_PTRS /\ ptab (libc_ptrs s) M /\
  libc_ptr_live s = Z.of_nat (length (used (libc_ptrs s))).

(** a libc allocation is recorded or given back, never live and unknown:
    is_libc_pointer reports exactly the pointers tracked and not yet untracked,
    with their sizes; tracking fails only when the table is full; the live count
    that gates the lookup is the number of entries. *)
Theorem libc_table_exact (s : istate W) (M : gmap Z Z) (p size : Z) :
  libc_table s M ->
  (forall q, is_libc_pointer q s = M !! q) /\
  (M !! p = None -> p <> 0 ->
     if decide (base.size M < MAX_LIBC_PTRS)%nat
     then exists s', track_libc_ptr p size s = (s', true) /\ libc_table s' (<[p := size]> M)
     else track_libc_ptr p size s = (s, false)) /\
  libc_table (untrack_libc_ptr p s) (delete p M).
Proof.
  intros (Hlen & Ht & Hlive). pose proof (ptab_size _ _ Ht) as Hsz. split; [|split].
  - intros q. unfold is_libc_pointer. destruct (Z.eqb_spec q 0) as [->|Hq]; [by rewrite (pt_zero _ _ Ht)|].
    destruct (M !! q) as [sz|] eqn:Em.
    + destruct (ptab_delete _ _ q sz Ht Hq Em) as (i & -> & Ei & _ & T2).
      rewrite (proj2 (Z.eqb_neq _ _)) by lia. cbn [fmap option_fmap option_map]. f_equal. exact Ei.
    + rewrite (ptab_absent _ _ _ Ht Hq Em). by destruct (_ =? 0).
  - intros Hn Hp. unfold track_libc_ptr. rewrite (proj2 (Z.eqb_neq p 0)) by done.
    destruct (ptr_slot 0 (libc_ptrs s)) as [i|] eqn:E.
    + destruct (ptab_insert _ _ i p size Ht E Hp Hn) as [T1 T2].
      pose proof (used_length (<[i := (p, size)]> (libc_ptrs s))) as Hl.
      rewrite length_insert, T2, Hlen in Hl. rewrite decide_True by lia. eexists. split; [done|].
      unfold libc_table. cbn [set_libc libc_ptrs libc_ptr_live]. rewrite length_insert, T2. split_and!; [done|done|lia].
    + apply ptr_slot_none, used_full in E. rewrite E, Hlen in Hsz. rewrite decide_False by lia. done.
  - unfold untrack_libc_ptr. destruct (Z.eqb_spec p 0) as [->|Hp].
    { rewrite delete_id by apply (pt_zero _ _ Ht). by split. }
    destruct (M !! p) as [sz|] eqn:Em.
    + destruct (ptab_delete _ _ p sz Ht Hp Em) as (i & -> & _ & T1 & T2).
      unfold libc_table. cbn [set_libc libc_ptrs libc_ptr_live]. rewrite length_insert. split_and!; [done|done|lia].
    + rewrite (ptab_absent _ _ _ Ht Hp Em), delete_id by done. by split.
Qed.

(** ** The static buffer *)

Lemma round16 size : 0 <= size <= SIZE_MAX - 15 -> Z.land (size + 15) (wnot 15) = roundup size 16.
Proof.
  intros Hs. unfold SIZE_MAX in Hs. change (wnot 15) with (w64 (- 2 ^ 4)).
  rewrite <- (w64_small (size + 15)) by (unfold is_word; lia). rewrite land_w64, land_neg_pow2 by lia.
  unfold roundup. change (2 ^ 4) with 16.
  pose proof (Z.div_mod (size + 15) 16 ltac:(lia)). pose proof (Z.mod_pos_bound (size + 15) 16 ltac:(lia)).
  pose proof (Z.div_mod (- size) 16 ltac:(lia)). pose proof (Z.mod_pos_bound (- size) 16 ltac:(lia)).
  rewrite w64_small by (unfold is_word; lia). lia.
Qed.

(** Chunks [(start of payload, its size)] carved so far, oldest last. *)
Inductive chunks_at (base : Z) : Z -> list (Z * Z) -> Prop :=
| chunks_none : chunks_at base 0 []
| chunks_more u n cs : chunks_at base u cs -> 0 <= n -> (16 | n) -> u + 16 + n <= STATIC_BUFFER_SIZE ->
    chunks_at base (u + 16 + n) ((base + u + 16, n) :: cs).

Definition static_chunks (s : istate W) (cs : list (Z * Z)) : Prop :=
  chunks_at ienv_static_buffer (static_buffer_used s) cs /\
  Forall (fun c => ldq (i_mem s) (c.1 - 16) = STATIC_CHUNK_MAGIC /\ ldq (i_mem s) (c.1 - 8) = c.2) cs.

Lemma chunks_bounds base u cs :
  chunks_at base u cs -> 0 <= u <= STATIC_BUFFER_SIZE /\ (16 | u) /\
  Forall (fun c => base + 16 <= c.1 /\ 0 <= c.2 /\ c.1 + c.2 <= base + u) cs.
Proof.
  induction 1 as [|u n cs Hc (IH1 & [j ->] & IH2) Hn [k ->] Hu]; [by unfold STATIC_BUFFER_SIZE; split_and!; [lia|lia|exists 0|]|].
  split; [lia|]. split; [exists (j + 1 + k); lia|].
  constructor; [simpl; lia|]. eapply Forall_impl; [done|]. simpl. lia.
Qed.

(** every chunk carved from the static buffer lies in it, behind all earlier
    ones and disjoint from them, is at least as long as asked and 16-aligned
    relative to the buffer, is recognised as static (a request of 0 bytes at the
    very end excepted), and its recorded size is what malloc_usable_size and
    realloc later read; carving a chunk leaves the earlier ones' records
    and contents alone, and an exhausted buffer returns NULL and changes
    nothing. *)
Theorem static_alloc_carves (size : Z) (cs : list (Z * Z)) s :
  0 < ienv_static_buffer -> ienv_static_buffer + STATIC_BUFFER_SIZE < 2 ^ 64 ->
  is_word size -> static_chunks s cs ->
  exists p s', static_alloc size s = (p, s') /\
    ((p = 0 /\ s' = s /\ (STATIC_BUFFER_SIZE - static_buffer_used s < roundup size 16 + 16)) \/
     (exists n, static_chunks s' ((p, n) :: cs) /\ size <= n < size + 16 /\ (16 | p - ienv_static_buffer) /\
        (0 < size -> is_static_pointer p = true) /\ get_static_size p s' = n /\
        Forall (fun c => c.1 + c.2 <= p - 16) cs /\
        forall a, a < p - 16 \/ p <= a -> ldb (i_mem s') a = ldb (i_mem s) a)).
Proof.
  intros Hb1 Hb2 Hs [Hc Hf]. unfold is_word in Hs. unfold static_alloc, sizeof_static_chunk.
  destruct (chunks_bounds _ _ _ Hc) as (Hu & [v Hv] & Hcs). unfold STATIC_BUFFER_SIZE in *.
  destruct (roundup_spec size 16 ltac:(lia)) as [R1 [j R2]].
  destruct (Z.ltb_spec (SIZE_MAX - 15) size) as [H1|H1].
  { exists 0, s. split; [done|]. left. unfold SIZE_MAX in H1. split_and!; [done|done|lia]. }
  rewrite round16 by lia. destruct (Z.ltb_spec (SIZE_MAX - 16) (roundup size 16)) as [H2|H2].
  { exists 0, s. split; [done|]. left. unfold SIZE_MAX in H2. split_and!; [done|done|lia]. }
  destruct (Z.leb_spec (roundup size 16 + 16) (4096 - static_buffer_used s)) as [H3|H3].
  2: { exists 0, s. split; [done|]. left. split_and!; [done|done|lia]. }
  set (b := ienv_static_buffer) in *. set (u := static_buffer_used s) in *. set (n := roundup size 16) in *.
  eexists _, _. split; [done|]. right. exists n.
  replace (n + 16 - 16) with n by lia. unfold stq.
  assert (M1 : forall a, a < b + u + 16 - 16 \/ b + u + 16 <= a ->
    ldb (stn 8 (stn 8 (i_mem s) (b + u) STATIC_CHUNK_MAGIC) (b + u + 8) n) a = ldb (i_mem s) a).
  { intros a Ha. by rewrite !stn_out by lia. }
  assert (M2 : ldn 8 (stn 8 (stn 8 (i_mem s) (b + u) STATIC_CHUNK_MAGIC) (b + u + 8) n) (b + u) = STATIC_CHUNK_MAGIC).
  { rewrite ldn_stn_out by lia. apply (ldn_stn 8). }
  assert (M3 : ldn 8 (stn 8 (stn 8 (i_mem s) (b + u) STATIC_CHUNK_MAGIC) (b + u + 8) n) (b + u + 8) = n).
  { rewrite (ldn_stn 8). apply Z.mod_small. change (8 * Z.of_nat 8) with 64. lia. }
  split; [split|]; cbn [i_set_mem i_mem set_m is_m set_bytes ms_mem set_used static_buffer_used].
  - fold u. replace (u + (n + 16)) with (u + 16 + n) by lia. apply chunks_more; [done|lia|by exists j|unfold STATIC_BUFFER_SIZE; lia].
  - constructor; cbn [fst snd].
    + replace (b + u + 16 - 16) with (b + u) by lia. replace (b + u + 16 - 8) with (b + u + 8) by lia. by unfold ldq.
    + rewrite Forall_forall in Hf, Hcs |- *. intros c Hin. specialize (Hf _ Hin). specialize (Hcs _ Hin).
      unfold ldq in *. by rewrite !ldn_stn_out by lia.
  - split_and!; try lia.
    + exists (v + 1). lia.
    + intros Hsz. unfold is_static_pointer, STATIC_BUFFER_SIZE. fold b. apply andb_true_iff. split; [apply Z.leb_le|apply Z.ltb_lt]; lia.
    + unfold get_static_size, sizeof_static_chunk. cbn [i_set_mem i_mem set_m is_m set_bytes ms_mem set_used].
      change (i_mem (set_used _ s)) with (i_mem s).
      rewrite wsub_small by lia. replace (b + u + 16 - 16) with (b + u) by lia. unfold ldq. rewrite M2, M3.
      unfold is_static_pointer, STATIC_BUFFER_SIZE. fold b.
      rewrite (proj2 (Z.leb_le _ _)), (proj2 (Z.ltb_lt _ _)), Z.eqb_refl by lia. done.
    + eapply Forall_impl; [exact Hcs|]. simpl. lia.
    + exact M1.
Qed.

(** ** Where the code departs from its comments *)

(** A bootstrap block of 0 bytes is valid, but realloc takes its size for a
    corrupt header: the block cannot be resized. *)
Theorem realloc_zero_refused (p k : Z) s :
  0 < k -> is_static_pointer p = false -> is_bootstrap_pointer p (ms_boot (is_m s)) = true ->
  ldq (i_mem s) (wsub p 16) = BOOTSTRAP_MAGIC -> ldq (i_mem s) (wsub p 16 + 8) = 16 ->
  realloc p k s = Ok (0, i_errno EINVAL s).
Proof.
  intros Hk Hs Hb E1 E2. unfold realloc, interpose_owner_of.
  assert (Hp : p <> 0) by (intros ->; unfold is_bootstrap_pointer in Hb; done).
  rewrite (proj2 (Z.eqb_neq p 0)), (proj2 (Z.eqb_neq k 0)), Hs, Hb by (done || lia). cbn [res_bind].
  unfold get_bootstrap_size, sizeof_bootstrap_header. rewrite (proj2 (Z.eqb_neq p 0)), E1, E2 by done. reflexivity.
Qed.

(** A chunk of 0 bytes at the very end of the static buffer is handed out but
    not recognised afterwards. *)
Theorem static_end_unrecognised s :
  0 < ienv_static_buffer -> static_buffer_used s = STATIC_BUFFER_SIZE - 16 ->
  exists p s', static_alloc 0 s = (p, s') /\ p <> 0 /\ is_static_pointer p = false.
Proof.
  intros Hb Hu. unfold static_alloc. rewrite Hu. eexists _, _. split; [reflexivity|].
  unfold is_static_pointer, STATIC_BUFFER_SIZE, sizeof_static_chunk. split; [lia|].
  apply andb_false_iff. right. apply Z.ltb_ge. lia.
Qed.

(** Before libc's memalign is known, an alignment above 16 always fails: a
    bootstrap pointer is 16 bytes into a page. *)
Theorem bootstrap_memalign_fails (k size : Z) s hdr wm :
  5 <= k < 64 -> interpose_state s = INTERPOSE_UNINIT -> env_abort wm.1 = false ->
  is_word size -> size + 16 < 2 ^ 64 -> bootstrap_depth (ms_boot (is_m s)) < 16 ->
  env_mmap (size + 16) (ms_w (is_m s), i_mem s) = (Some hdr, wm) ->
  0 < hdr -> (4096 | hdr) -> hdr + 16 < 2 ^ 64 -> ienv_pagesize = 4096 ->
  exists s', memalign (2 ^ k) size s = Ok (0, s').
Proof.
  intros Hk Hst Hab Hs Hs2 Hd Em Hh [j Hj] Hh2 Hpg. unfold is_word in Hs. unfold memalign.
  assert (P : 0 < 2 ^ k) by lia.
  assert (El : Z.land (2 ^ k) (wsub (2 ^ k) 1) = 0).
  { assert (2 ^ k < 2 ^ 64) by (apply Z.pow_lt_mono_r; lia). rewrite wsub_small by lia.
    rewrite Z.sub_1_r, <- Z.ones_equiv, Z.land_ones by lia. apply Z.mod_same. lia. }
  rewrite El, (proj2 (Z.eqb_neq (2 ^ k) 0)) by lia. cbn [Z.eqb negb orb]. rewrite Hst.
  rewrite !bool_decide_eq_false_2 by done. cbn [andb]. unfold lift, bootstrap_malloc.
  unfold SIZE_MAX, sizeof_bootstrap_header. rewrite (proj2 (Z.ltb_ge _ size)) by lia.
  cbn [set_boot boot_depth_add ms_boot bootstrap_depth]. unfold BOOTSTRAP_MAX_DEPTH.
  rewrite (proj2 (Z.ltb_ge 16 _)) by lia. unfold call. cbn [set_boot ms_w ms_mem].
  change (ms_mem (is_m s)) with (i_mem s). rewrite Em.
  cbn [set_wm set_bytes set_boot ms_boot ms_w ms_mem].
  destruct (bootstrap_register (hdr + 16) (size + 16) _) as [b ok] eqn:Er. rewrite Hpg. cbn [Z.eqb].
  destruct ok; cbn [res_bind]; [|by eexists].
  rewrite (proj2 (Z.eqb_neq (hdr + 16) 0)) by lia.
  assert (Hbad : negb (Z.land (hdr + 16) (2 ^ k - 1) =? 0) || (4096 <? 2 ^ k) = true).
  { destruct (Z.ltb_spec 4096 (2 ^ k)) as [|Hle]; [apply orb_true_r|]. rewrite orb_false_r.
    rewrite Z.sub_1_r, <- Z.ones_equiv, Z.land_ones by lia.
    assert (Hk12 : k <= 12) by (apply (Z.pow_le_mono_r_iff 2); lia).
    assert (D : 4096 = 2 ^ (12 - k) * 2 ^ k) by (rewrite <- Z.pow_add_r by lia; replace (12 - k + k) with 12 by lia; done).
    rewrite Hj, D, Z.mul_assoc, Z.add_comm, Z.mod_add by lia.
    assert (32 <= 2 ^ k) by (change 32 with (2 ^ 5); apply Z.pow_le_mono_r; lia).
    rewrite Z.mod_small by lia. done. }
  rewrite Hbad. unfold lift_, bootstrap_free. rewrite (proj2 (Z.eqb_neq (hdr + 16) 0)) by lia.
  cbn [set_boot ms_boot is_m set_m boot_depth_add ms_w].
  destruct (bootstrap_unregister _ _) as [b' sz]. cbn [set_boot ms_boot ms_w].
  destruct (sz =? 0); [by eexists|]. unfold umem_err_recoverable. cbn [set_m is_m set_wm set_bytes set_boot ms_w ms_mem fst]. rewrite Hab.
  destruct (negb (ldq _ _ =? BOOTSTRAP_MAGIC) || _); cbv beta iota delta [res_bind]; eexists; reflexivity.
Qed.
End interpose.

(** ** The statements at a concrete state *)

#[global] Program Instance demo_heap_laws : heap_laws demo_world := {|
  live_ok w L := (forall b n, (b, n) ∈ L -> 0x10000 <= b /\ 0 < n /\ b + n <= dw_next w /\ b + n <= 0x20000) /\
                 (forall b n c k, (b, n) ∈ L -> (c, k) ∈ L -> (b, n) <> (c, k) -> b + n <= c \/ c + k <= b)
|}.
Next Obligation. done. Qed.
Next Obligation. done. Qed.
Next Obligation. intros w L b n [H1 _] Hin. specialize (H1 _ _ Hin). apply demo_owned; lia. Qed.
Next Obligation.
  intros w L b n [_ H2] Hin c k [Hc Hne]%elem_of_difference. apply H2; [done|done|].
  intros E. apply Hne. rewrite E. by apply elem_of_singleton.
Qed.
Next Obligation.
  intros size w m b w' m' L [H1 H2] Hs. cbn [env_umem_alloc demo_malloc_env]. unfold demo_alloc.
  destruct (roundup_spec (dw_next w) 16 ltac:(lia)) as [R _].
  destruct (_ && _) eqn:E; intros [= <- <- <-].
  - apply andb_true_iff in E as [[E1%Z.leb_le E2%Z.ltb_lt]%andb_true_iff E3%Z.leb_le].
    split; [reflexivity|]. split; [done|]. rewrite decide_False by lia. split; [|split].
    + intros c k Hc. specialize (H1 _ _ Hc). lia.
    + intros c k [Hc%elem_of_singleton|Hc]%elem_of_union; simpl; [injection Hc as -> ->; lia|].
      specialize (H1 _ _ Hc). lia.
    + intros c k c' k' Hc Hc' Hne. apply elem_of_union in Hc, Hc'. rewrite elem_of_singleton in Hc, Hc'.
      destruct Hc as [[= -> ->]|Hc], Hc' as [[= -> ->]|Hc']; [done| | |by apply H2];
        specialize (H1 _ _ ltac:(eassumption)); lia.
  - split; [reflexivity|]. split; [done|]. by rewrite decide_True.
Qed.
Next Obligation.
  intros b n w m L [H1 H2] Hin. exists w, m. split; [done|]. split; [|split; [reflexivity|done]].
  split; [intros c k [Hc _]%elem_of_difference; by apply H1|].
  intros c k c' k' [Hc _]%elem_of_difference [Hc' _]%elem_of_difference. by apply H2.
Qed.

#[global] Instance demo_interpose_env : interpose_env demo_world := {|
  ienv_static_buffer := 0x600000;
  ienv_pagesize := 4096;
  ienv_init m := m;
  ienv_libc_free := None;
  ienv_libc_realloc := None;
  ienv_libc_memalign := None |}.

Definition demo_is (m : mstate demo_world) : istate demo_world :=
  IState m INTERPOSE_READY 0 false true (replicate MAX_LIBC_PTRS (0, 0)) 0 0 true.
Definition demo_blocks : blocks := {[(0x10000, 116)]}.

Lemma demo_steady : steady (demo_is demo_s1) demo_blocks.
Proof.
  split; [reflexivity|reflexivity|reflexivity|]. split; [reflexivity|reflexivity|]. split.
  - intros b n Hb%elem_of_singleton. injection Hb as -> ->. vm_compute. split_and!; congruence.
  - intros b n c k Hb%elem_of_singleton Hc%elem_of_singleton Hne. congruence.
Qed.

Lemma demo_umem_ptr : umem_ptr Second 0x10000 116 100 0x10010 (demo_is demo_s1).
Proof.
  split; [done|lia| |reflexivity|reflexivity].
  split; [reflexivity|reflexivity|lia| |apply demo_owned; lia]. split; [lia|]. split; vm_compute; reflexivity.
Qed.

Lemma realloc_moves_witness :
  exists q s', realloc 0x10010 300 (demo_is demo_s1) = Ok (q, s') /\
    ((q = 0 /\ steady s' demo_blocks /\ keeps demo_blocks (i_mem (demo_is demo_s1)) (i_mem s') /\
      block_out Second 0x10000 116 100 0x10010 (is_m s')) \/
     (exists l' base' size', block_out l' base' size' 300 q (is_m s') /\ apart base' size' demo_blocks /\
        steady s' ({[(base', size')]} ∪ demo_blocks ∖ {[(0x10000, 116)]}) /\
        keeps (demo_blocks ∖ {[(0x10000, 116)]}) (i_mem (demo_is demo_s1)) (i_mem s') /\
        forall i, 0 <= i < Z.min 100 300 -> ldb (i_mem s') (q + i) = ldb (i_mem (demo_is demo_s1)) (0x10010 + i))).
Proof.
  destruct (realloc_moves Second 0x10000 116 100 0x10010 300 demo_blocks (demo_is demo_s1)
    demo_steady demo_umem_ptr ltac:(by apply elem_of_singleton) ltac:(lia)) as (q & s' & E & _ & H).
  exists q, s'. split; [exact E|]. apply H. lia.
Defined.

Lemma calloc_zeroes_witness :
  (exists q s', calloc 5 40 (demo_is demo_s1) = Ok (q, s') /\ keeps demo_blocks (i_mem (demo_is demo_s1)) (i_mem s')) /\
  exists q s', calloc (2 ^ 33) (2 ^ 32) (demo_is demo_s1) = Ok (q, s') /\ q = 0.
Proof.
  split.
  - destruct (calloc_zeroes 5 40 demo_blocks (demo_is demo_s1)) as (q & s' & E & K & _);
      [unfold is_word; lia|unfold is_word; lia|exact demo_steady|reflexivity|]. exists q, s'. auto.
  - destruct (calloc_zeroes (2 ^ 33) (2 ^ 32) demo_blocks (demo_is demo_s1)) as (q & s' & E & _ & _ & H & _);
      [unfold is_word; lia|unfold is_word; lia|exact demo_steady|reflexivity|].
    exists q, s'. split; [exact E|]. apply H. lia.
Defined.

Lemma libc_table_exact_witness :
  exists s', track_libc_ptr 0x7000 24 (demo_is demo_s0) = (s', true) /\ libc_table s' (<[0x7000 := 24]> ∅).
Proof.
  assert (T : libc_table (demo_is demo_s0) ∅).
  { split; [apply length_replicate|]. split; [apply ptab0|]. unfold demo_is. cbn [libc_ptrs libc_ptr_live].
    by rewrite used_replicate. }
  destruct (libc_table_exact (demo_is demo_s0) ∅ 0x7000 24 T) as (_ & H & _).
  specialize (H eq_refl ltac:(lia)). exact H.
Defined.

Lemma static_alloc_carves_witness :
  exists p s', static_alloc 40 (demo_is demo_s0) = (p, s') /\ p = 0x600010 /\ get_static_size p s' = 48.
Proof.
  assert (C : static_chunks (demo_is demo_s0) []) by (split; [apply chunks_none|constructor]).
  destruct (static_alloc_carves 40 [] (demo_is demo_s0)) as (p & s' & E & H);
    [simpl; lia|simpl; unfold STATIC_BUFFER_SIZE; lia|unfold is_word; lia|exact C|].
  assert (Ep : p = 0x600010) by (apply (f_equal fst) in E; simpl in E; symmetry; exact E). subst p.
  exists 0x600010, s'. split; [exact E|]. split; [reflexivity|].
  destruct H as [[H _]|(n & _ & H2 & _ & _ & H3 & _)]; [lia|].
  assert (n = 48); [|lia]. apply (f_equal snd) in E. simpl in E. subst s'. rewrite <- H3. vm_compute. reflexivity.
Defined.
