(* ===== verification/PtcModel.v ===== *)
(** * The per-thread cache: model

    umem_ptc.h, umem_ptc.c and the inlined fast paths of [_umem_alloc] and
    [_umem_free] in umem.c.  A thread's cache is an array of 36 bins, one per
    small size class, whose slot arrays are packed in one pool, and a pair of
    magazines per bin between the bin and the depot of [MagModel].

    A pointer into the pool is the index of the slot; the links of the
    registry of caches are in [PtcReg].  The build without restartable
    sequences and without probes is modelled. *)
From S2P Require Import Prelude Machine SlabModel AllocSizes MagModel MagOps.

Definition PTC_NSLOTS_SMALL : nat := 128.
Definition PTC_NSLOTS_MEDIUM : nat := 64.
Definition PTC_NSLOTS_LARGE : nat := 32.
Definition PTC_NSLOTS_XLARGE : nat := 16.
Definition PTC_NBINS : nat := 36.
Definition PTC_BIN_MEDIUM : nat := 13.
Definition PTC_BIN_LARGE : nat := 21.
Definition PTC_BIN_XLARGE : nat := 28.
Definition PTC_TOTAL_SLOTS : nat :=
  PTC_BIN_MEDIUM * PTC_NSLOTS_SMALL + (PTC_BIN_LARGE - PTC_BIN_MEDIUM) * PTC_NSLOTS_MEDIUM +
  (PTC_BIN_XLARGE - PTC_BIN_LARGE) * PTC_NSLOTS_LARGE + (PTC_NBINS - PTC_BIN_XLARGE) * PTC_NSLOTS_XLARGE.

Definition ptc_bin_capacity (bin : nat) : nat :=
  if (bin <? PTC_BIN_MEDIUM)%nat then PTC_NSLOTS_SMALL
  else if (bin <? PTC_BIN_LARGE)%nat then PTC_NSLOTS_MEDIUM
  else if (bin <? PTC_BIN_XLARGE)%nat then PTC_NSLOTS_LARGE
  else PTC_NSLOTS_XLARGE.

Definition UMEM_DEFAULT : Z := 0.

(** ** Data *)

Record umem_ptc_mag := PtcMag {
  pm_loaded : option umem_magazine;
  pm_previous : option umem_magazine;
  pm_rounds : Z;
  pm_prounds : Z;
  pm_magsize : Z;                 (* capacity of loaded *)
  pm_pmagsize : Z;                (* capacity of previous *)
  pm_cache : option Z;            (* owning cache, set on first use *)
}.
#[global] Instance ptc_mag_inhabited : Inhabited umem_ptc_mag := populate (PtcMag None None 0 0 0 0 None).

Record umem_ptc_bin := PtcBin {
  bin_slots : nat;                (* index into the pool *)
  bin_count : Z;                  (* uint16_t *)
}.
#[global] Instance ptc_bin_inhabited : Inhabited umem_ptc_bin := populate (PtcBin 0 0).

Record umem_ptc := Ptc {
  ptc_addr : Z;
  ptc_bins : list umem_ptc_bin;
  ptc_mags : list umem_ptc_mag;
  fork_busy : bool;
  ptc_owner : Z;
  ptc_pool : list Z;              (* mangled *)
}.

Definition bin_at (p : umem_ptc) (b : nat) : umem_ptc_bin := ptc_bins p !!! b.
Definition mag_at (p : umem_ptc) (b : nat) : umem_ptc_mag := ptc_mags p !!! b.
Definition set_bin (b : nat) (x : umem_ptc_bin) (p : umem_ptc) : umem_ptc :=
  Ptc (ptc_addr p) (<[b := x]> (ptc_bins p)) (ptc_mags p) (fork_busy p) (ptc_owner p) (ptc_pool p).
Definition set_mag (b : nat) (m : umem_ptc_mag) (p : umem_ptc) : umem_ptc :=
  Ptc (ptc_addr p) (ptc_bins p) (<[b := m]> (ptc_mags p)) (fork_busy p) (ptc_owner p) (ptc_pool p).
Definition set_pool (l : list Z) (p : umem_ptc) : umem_ptc :=
  Ptc (ptc_addr p) (ptc_bins p) (ptc_mags p) (fork_busy p) (ptc_owner p) l.
Definition set_busy (v : bool) (p : umem_ptc) : umem_ptc :=
  Ptc (ptc_addr p) (ptc_bins p) (ptc_mags p) v (ptc_owner p) (ptc_pool p).
Definition set_owner (v : Z) (p : umem_ptc) : umem_ptc :=
  Ptc (ptc_addr p) (ptc_bins p) (ptc_mags p) (fork_busy p) v (ptc_pool p).

(** Layout on LP64: a bin record fills a cache line, a magazine pair takes 48
    bytes, [fork_busy], the two links and [owner] 32. *)
Definition sizeof_ptc_bin : Z := 64.
Definition sizeof_ptc_mag : Z := 48.
Definition pool_offset : Z := 36 * sizeof_ptc_bin + 36 * sizeof_ptc_mag + 32.
Definition sizeof_umem_ptc : Z := P2ROUNDUP (pool_offset + 8 * Z.of_nat PTC_TOTAL_SLOTS) 64.

(** [&ptc->pool[i]]. *)
Definition pool_addr (p : umem_ptc) (i : nat) : Z := ptc_addr p + pool_offset + 8 * Z.of_nat i.

(** ** Slots *)

(** [UMEM_SLOT_DEMANGLE (sp, *sp)]. *)
Definition slot_value (ck : Z) (p : umem_ptc) (i : nat) : Z :=
  UMEM_SLOT_MANGLE ck (pool_addr p i) (ptc_pool p !!! i).

Definition ptc_slot_push (ck : Z) (p : umem_ptc) (b : nat) (ptr : Z) : result umem_ptc :=
  let bin := bin_at p b in
  let i := (bin_slots bin + Z.to_nat (bin_count bin))%nat in
  if (i <? length (ptc_pool p))%nat then
    Ok (set_pool (<[i := UMEM_SLOT_MANGLE ck (pool_addr p i) ptr]> (ptc_pool p))
          (set_bin b (PtcBin (bin_slots bin) ((bin_count bin + 1) mod 2 ^ 16)) p))
  else Panic "pool overrun".

Definition ptc_slot_pop (ck : Z) (p : umem_ptc) (b : nat) : result (umem_ptc * Z) :=
  let bin := bin_at p b in
  let count := (bin_count bin - 1) mod 2 ^ 16 in
  let i := (bin_slots bin + Z.to_nat count)%nat in
  if (i <? length (ptc_pool p))%nat then
    Ok (set_bin b (PtcBin (bin_slots bin) count) p, slot_value ck p i)
  else Panic "pool overrun".

(** ** Magazines of a thread *)

Definition ptc_mag_swap (m : umem_ptc_mag) : umem_ptc_mag :=
  PtcMag (pm_previous m) (pm_loaded m) (pm_prounds m) (pm_rounds m) (pm_pmagsize m) (pm_magsize m) (pm_cache m).

(** [mag->rounds--], then the round above. *)
Definition ptc_mag_pop (ck : Z) (m : umem_ptc_mag) : result (umem_ptc_mag * Z) :=
  match pm_loaded m with
  | None => Panic "null magazine"
  | Some mp =>
      do buf <- round_load ck mp (Z.to_nat (pm_rounds m - 1));
      Ok (PtcMag (Some mp) (pm_previous m) (pm_rounds m - 1) (pm_prounds m) (pm_magsize m) (pm_pmagsize m)
            (pm_cache m), buf)
  end.

(** The round is stored, then [mag->rounds++]. *)
Definition ptc_mag_push (ck : Z) (m : umem_ptc_mag) (buf : Z) : result umem_ptc_mag :=
  match pm_loaded m with
  | None => Panic "null magazine"
  | Some mp =>
      do mp <- round_store ck mp (Z.to_nat (pm_rounds m)) buf;
      Ok (PtcMag (Some mp) (pm_previous m) (pm_rounds m + 1) (pm_prounds m) (pm_magsize m) (pm_pmagsize m)
            (pm_cache m))
  end.

(** [if (mag->cache == NULL) mag->cache = cp]. *)
Definition ptc_mag_own (cp : Z) (m : umem_ptc_mag) : umem_ptc_mag :=
  match pm_cache m with
  | Some _ => m
  | None => PtcMag (pm_loaded m) (pm_previous m) (pm_rounds m) (pm_prounds m) (pm_magsize m) (pm_pmagsize m) (Some cp)
  end.

Definition ptc_mag_load (mp : umem_magazine) (rounds : Z) (m : umem_ptc_mag) : umem_ptc_mag :=
  PtcMag (Some mp) (pm_previous m) rounds (pm_prounds m) (umem_mag_capacity mp) (pm_pmagsize m) (pm_cache m).

(** The assertions. *)
Definition half_check (mp : option umem_magazine) (rounds magsize : Z) : bool :=
  match mp with None => true | Some mp => magsize =? umem_mag_capacity mp end &&
  (0 <=? rounds) && (rounds <=? magsize).
Definition umem_ptc_mag_check (m : umem_ptc_mag) : result unit :=
  if half_check (pm_loaded m) (pm_rounds m) (pm_magsize m) &&
     half_check (pm_previous m) (pm_prounds m) (pm_pmagsize m)
  then Ok () else Panic "umem_ptc_mag_check".

Section ops.
Context {W : Type} {env : mag_env W}.

(** ** The fast path of [_umem_alloc] *)

(** Both magazines are empty and the depot gave [fmp]: retire the previous
    one, keep the loaded one as previous, load [fmp]. *)
Definition ptc_mag_retire (w : W) (s : mags) (m : umem_ptc_mag) : result (W * mags * umem_ptc_mag) :=
  match pm_loaded m with
  | None => Ok (w, s, m)
  | Some _ =>
      do (w, s) <- (match pm_previous m with
                    | Some mp => umem_ptc_mag_return_trylock w s MLEmpty mp (pm_prounds m)
                    | None => Ok (w, s)
                    end);
      Ok (w, s, PtcMag (pm_loaded m) (pm_loaded m) (pm_rounds m) (pm_rounds m) (pm_magsize m) (pm_magsize m)
                  (pm_cache m))
  end.

(** [None]: fall through to [_umem_cache_alloc]. *)
Definition ptc_alloc_fast (cp : Z) (w : W) (s : mags) (p : umem_ptc) (b : nat) :
    result (W * mags * umem_ptc * option Z) :=
  let ck := mc_cookie (mcfg s) in
  let m := mag_at p b in
  if 0 <? bin_count (bin_at p b) then
    do (p, buf) <- ptc_slot_pop ck p b; Ok (w, s, p, Some buf)
  else if 0 <? pm_rounds m then
    do (m, buf) <- ptc_mag_pop ck m; Ok (w, s, set_mag b m p, Some buf)
  else if 0 <? pm_prounds m then
    do (m, buf) <- ptc_mag_pop ck (ptc_mag_swap m); Ok (w, s, set_busy false (set_mag b m p), Some buf)
  else
    let m := ptc_mag_own cp m in
    do (w, s, fmp) <- umem_depot_alloc_trylock w s MLFull;
    match fmp with
    | None => Ok (w, s, set_mag b m p, None)
    | Some fmp =>
        do (w, s, m) <- ptc_mag_retire w s m;
        let m := ptc_mag_load fmp (umem_mag_capacity fmp) m in
        do _ <- umem_ptc_mag_check m;
        do (m, buf) <- ptc_mag_pop ck m;
        Ok (w, s, set_busy false (set_mag b m p), Some buf)
    end.

(** ** The fast path of [_umem_free] *)

Definition below_size (mp : option umem_magazine) (rounds magsize : Z) : bool :=
  match mp with Some _ => rounds <? magsize | None => false end.

(** Both magazines are full: the loaded one goes to the depot. *)
Definition ptc_mag_donate (w : W) (s : mags) (m : umem_ptc_mag) : result (W * mags * umem_ptc_mag) :=
  match pm_loaded m with
  | None => Ok (w, s, m)
  | Some mp =>
      do (w, s) <- umem_ptc_mag_return_trylock w s MLFull mp (pm_rounds m);
      Ok (w, s, PtcMag None (pm_previous m) 0 (pm_prounds m) (pm_magsize m) (pm_pmagsize m) (pm_cache m))
  end.

(** An empty magazine from the depot, or a new one. *)
Definition ptc_empty_mag (w : W) (s : mags) : result (W * mags * option umem_magazine) :=
  do (w, s, emp) <- umem_depot_alloc_trylock w s MLEmpty;
  match emp with
  | Some emp => Ok (w, s, Some emp)
  | None => Ok (umem_ptc_mag_prime w s)
  end.

(** [false]: fall through to [_umem_cache_free]. *)
Definition ptc_free_fast (cp : Z) (w : W) (s : mags) (p : umem_ptc) (b : nat) (buf : Z) :
    result (W * mags * umem_ptc * bool) :=
  let ck := mc_cookie (mcfg s) in
  if bin_count (bin_at p b) <? Z.of_nat (ptc_bin_capacity b) then
    do p <- ptc_slot_push ck p b buf; Ok (w, s, p, true)
  else
    let m := ptc_mag_own cp (mag_at p b) in
    if below_size (pm_loaded m) (pm_rounds m) (pm_magsize m) then
      do m <- ptc_mag_push ck m buf; Ok (w, s, set_mag b m p, true)
    else if below_size (pm_previous m) (pm_prounds m) (pm_pmagsize m) then
      do m <- ptc_mag_push ck (ptc_mag_swap m) buf; Ok (w, s, set_busy false (set_mag b m p), true)
    else
      do (w, s, m) <- ptc_mag_donate w s m;
      do (w, s, emp) <- ptc_empty_mag w s;
      match emp with
      | Some emp =>
          let m := ptc_mag_load emp 0 m in
          do _ <- umem_ptc_mag_check m;
          do m <- ptc_mag_push ck m buf;
          Ok (w, s, set_busy false (set_mag b m p), true)
      | None => Ok (w, s, set_busy false (set_mag b m p), false)
      end.

(** ** Returning what a thread holds *)

(** [umem_ptc_mag_flush_all] for one pair whose cache is known. *)
Definition ptc_mag_flush (w : W) (s : mags) (m : umem_ptc_mag) : result (W * mags * umem_ptc_mag) :=
  do (w, s, m) <-
    (match pm_loaded m with
     | None => Ok (w, s, m)
     | Some mp =>
         do (w, s) <- umem_ptc_mag_return w s MLFull mp (pm_rounds m);
         Ok (w, s, PtcMag None (pm_previous m) 0 (pm_prounds m) (pm_magsize m) (pm_pmagsize m) (pm_cache m))
     end);
  match pm_previous m with
  | None => Ok (w, s, m)
  | Some mp =>
      do (w, s) <- umem_ptc_mag_return w s MLFull mp (pm_prounds m);
      Ok (w, s, PtcMag (pm_loaded m) None (pm_rounds m) 0 (pm_magsize m) (pm_pmagsize m) (pm_cache m))
  end.

(** The demangled slots [[0 .. count)] of a bin. *)
Definition bin_values (ck : Z) (p : umem_ptc) (b : nat) : list Z :=
  (fun i => slot_value ck p (bin_slots (bin_at p b) + i)) <$> seq 0 (Z.to_nat (bin_count (bin_at p b))).

(** [umem_ptc_bin_flush_impl (bin, size, 1)]: demangle in place, hand the batch
    over. *)
Fixpoint demangle_in_place (ck : Z) (p : umem_ptc) (first n : nat) : umem_ptc :=
  match n with
  | O => p
  | S n => demangle_in_place ck (set_pool (<[first := slot_value ck p first]> (ptc_pool p)) p) (S first) n
  end.
Definition ptc_bin_flush_all (w : W) (s : mags) (p : umem_ptc) (b : nat) : result (W * mags * umem_ptc) :=
  let bin := bin_at p b in
  if bin_count bin =? 0 then Ok (w, s, p) else
  let flush_count := Z.to_nat (bin_count bin) in
  let p := demangle_in_place (mc_cookie (mcfg s)) p (bin_slots bin) flush_count in
  do (w, s, n) <- umem_cache_free_batch w s (take flush_count (drop (bin_slots bin) (ptc_pool p)));
  if n =? bin_count bin then
    Ok (w, s, set_bin b (PtcBin (bin_slots bin) ((bin_count bin - n) mod 2 ^ 16)) p)
  else Panic "umem_ptc_bin_flush_impl: assertion".

(** [umem_ptc_bin_flush_impl (bin, size, 0)]: about half, object by object. *)
Fixpoint pop_and_free (n : nat) (w : W) (s : mags) (p : umem_ptc) (b : nat) : result (W * mags * umem_ptc) :=
  match n with
  | O => Ok (w, s, p)
  | S n =>
      do (p, ptr) <- ptc_slot_pop (mc_cookie (mcfg s)) p b;
      do (w, s) <- _umem_cache_free w s ptr;
      pop_and_free n w s p b
  end.
Definition ptc_bin_flush_half (w : W) (s : mags) (p : umem_ptc) (b : nat) : result (W * mags * umem_ptc) :=
  let count := bin_count (bin_at p b) in
  if count =? 0 then Ok (w, s, p) else
  let flush_count := if count / 2 =? 0 then count else count / 2 in
  pop_and_free (Z.to_nat flush_count) w s p b.

(** The loop of [umem_ptc_bin_refill]; the number of objects pushed. *)
Fixpoint refill_loop (fuel : nat) (umf : Z) (n : nat) (w : W) (s : mags) (p : umem_ptc) (b : nat) :
    result (W * mags * umem_ptc * nat) :=
  match n with
  | O => Ok (w, s, p, 0%nat)
  | S n =>
      do (w, s, ptr) <- _umem_cache_alloc fuel umf w s UMEM_DEFAULT;
      if ptr =? 0 then Ok (w, s, p, 0%nat)
      else
        do p <- ptc_slot_push (mc_cookie (mcfg s)) p b ptr;
        do (w, s, p, i) <- refill_loop fuel umf n w s p b;
        Ok (w, s, p, S i)
  end.
End ops.
