(* ===== verification/PtcTables.v ===== *)
(** * The per-thread cache: tables

    The tables [umem_ptc_init] computes: from a size to a bin, and from an
    index of [umem_alloc_table] to a bin (-1: the per-thread cache does not
    serve it), with the publication of the second under the debug hooks.

    A request is served from the bin of its backing cache's object size, so
    the objects of a bin all belong to one cache. *)
From Stdlib Require Import Sorting.Sorted.
From S2P Require Import Prelude Machine SlabModel AllocSizes MagModel MagOps PtcModel.

Definition PTC_SIZE_TO_BIN_ENTRIES : Z := 8192 / 8 + 1.

Definition ptc_size_classes : list Z :=
  [8; 16; 32; 48; 64; 80; 96; 112; 128; 160; 192; 224; 256; 320; 384; 448; 512; 640; 768; 896;
   1024; 1280; 1536; 1792; 2048; 0; 0; 0; 2560; 3072; 3584; 4096; 5120; 6144; 7168; 8192].

(** The globals of umem_ptc.c. *)
Record ptc_globals := PtcGlobals {
  umem_ptc_enabled : bool;
  umem_ptc_maxsize : Z;
  ptc_key_initialized : bool;
  ptc_table_ready : bool;
  size_to_bin_table : list Z;
  umem_ptc_bin_table : list Z;
  umem_ptc_bin_real : list Z;
}.

(** What [umem_ptc_init] reads of the caches. *)
Record cache_info := CacheInfo { ci_flags : Z -> Z; ci_bufsize : Z -> Z }.

Definition umem_ptc_bin_size (bin : Z) : Z :=
  if (bin <? 0) || (36 <=? bin) then 0 else ptc_size_classes !!! Z.to_nat bin.

(** ** Initialisation *)

Fixpoint fill_bins (classes : list Z) (bin : Z) (t : list Z) : list Z :=
  match classes with
  | [] => t
  | size :: classes =>
      fill_bins classes (bin + 1)
        (if size / 8 <? PTC_SIZE_TO_BIN_ENTRIES then <[Z.to_nat (size / 8) := bin]> t else t)
  end.

Definition debug_cache (ci : cache_info) (cp : Z) : bool :=
  has (ci_flags ci cp) (Z.lor (Z.lor UMF_AUDIT UMF_DEADBEEF) UMF_REDZONE).
(** [umem_alloc_table[(size - 1) >> UMEM_ALIGN_SHIFT]]; [None] is out of
    bounds. *)
Definition table_cache (table : list Z) (size : Z) : option Z :=
  let index := Z.shiftr (wsub size 1) UMEM_ALIGN_SHIFT in
  if index <? Z.of_nat (length table) then table !! Z.to_nat index else None.

Fixpoint mask_debug (ci : cache_info) (table : list Z) (classes : list Z) (t : list Z) : result (list Z) :=
  match classes with
  | [] => Ok t
  | size :: classes =>
      if size =? 0 then mask_debug ci table classes t
      else match table_cache table size with
           | None => Panic "umem_alloc_table overrun"
           | Some cp =>
               mask_debug ci table classes
                 (if negb (cp =? 0) && debug_cache ci cp && (size / 8 <? PTC_SIZE_TO_BIN_ENTRIES)
                  then <[Z.to_nat (size / 8) := -1]> t else t)
           end
  end.

(** [(size + 7) & ~7]: the mask is an [int], extended to 64 bits. *)
Definition round8 (size : Z) : Z := Z.land (wadd size 7) (wsub 0 8).

(** One entry of [umem_ptc_bin_real]; [cp] is [umem_alloc_table[idx]]. *)
Definition bin_entry (ci : cache_info) (s2b : list Z) (maxsize : Z) (idx : nat) (cp : Z) : Z :=
  let alloc_size := Z.shiftl (Z.of_nat idx + 1) UMEM_ALIGN_SHIFT in
  if maxsize <? alloc_size then -1 else
  let obj_size := if negb (cp =? 0) then ci_bufsize ci cp else round8 alloc_size in
  if maxsize <? obj_size then -1
  else if PTC_SIZE_TO_BIN_ENTRIES <=? obj_size / 8 then -1
  else s2b !!! Z.to_nat (obj_size / 8).

(** [key]: pthread_key_create succeeds; [cache]: umem_ptc_cache was made. *)
Definition umem_ptc_init (ci : cache_info) (table : list Z) (key cache : bool) (g : ptc_globals) : result ptc_globals :=
  if negb (umem_ptc_enabled g) then Ok g
  else if negb (ptc_key_initialized g || key) then
    Ok (PtcGlobals false (umem_ptc_maxsize g) false (ptc_table_ready g) (size_to_bin_table g)
          (umem_ptc_bin_table g) (umem_ptc_bin_real g))
  else if negb cache then
    Ok (PtcGlobals false (umem_ptc_maxsize g) true (ptc_table_ready g) (size_to_bin_table g)
          (umem_ptc_bin_table g) (umem_ptc_bin_real g))
  else
    let t := fill_bins ptc_size_classes 0 (replicate (Z.to_nat PTC_SIZE_TO_BIN_ENTRIES) (-1)) in
    do t <- mask_debug ci table ptc_size_classes t;
    Ok (PtcGlobals true (umem_ptc_maxsize g) true true t (umem_ptc_bin_table g)
          (imap (bin_entry ci t (umem_ptc_maxsize g)) table)).

Definition umem_ptc_bin_publish (hooked : bool) (g : ptc_globals) : ptc_globals :=
  if ptc_table_ready g then
    PtcGlobals (umem_ptc_enabled g) (umem_ptc_maxsize g) (ptc_key_initialized g) true (size_to_bin_table g)
      ((fun bin => if hooked then -1 else bin) <$> umem_ptc_bin_real g) (umem_ptc_bin_real g)
  else g.

Definition umem_ptc_size_to_bin (g : ptc_globals) (size : Z) : Z :=
  if negb (umem_ptc_enabled g) || negb (ptc_table_ready g) || (umem_ptc_maxsize g <? size) then -1 else
  let index := round8 size / 8 in
  if PTC_SIZE_TO_BIN_ENTRIES <=? index then -1 else size_to_bin_table g !!! Z.to_nat index.

(** ** What the tables hold *)

(** A bin of the size-to-bin table has the size of its index. *)
Definition s2b_ok (t : list Z) : Prop :=
  Z.of_nat (length t) = PTC_SIZE_TO_BIN_ENTRIES /\
  forall k v, t !! k = Some v ->
    v = -1 \/ (0 <= v < 36 /\ ptc_size_classes !! Z.to_nat v = Some (8 * Z.of_nat k)).

Lemma class_range b c : ptc_size_classes !! b = Some c -> 0 <= c <= 8192 /\ c mod 8 = 0.
Proof.
  intros Hb. assert (Hf : Forall (fun c => 0 <= c <= 8192 /\ c mod 8 = 0) ptc_size_classes) by (repeat constructor; lia).
  rewrite Forall_lookup in Hf. by eapply Hf.
Qed.

Lemma fill_bins_ok t n :
  s2b_ok t -> (n <= 36)%nat -> s2b_ok (fill_bins (drop n ptc_size_classes) (Z.of_nat n) t).
Proof.
  intros Ht Hn. remember (36 - n)%nat as d eqn:Ed. revert n t Ht Hn Ed.
  induction d as [|d IH]; intros n t [Hl Ht] Hn Ed.
  - assert (n = 36%nat) as -> by lia. done.
  - destruct (lookup_lt_is_Some_2 ptc_size_classes n) as [c Hc]; [simpl; lia|].
    pose proof (class_range n c Hc) as Hc8.
    erewrite drop_S by exact Hc. cbn [fill_bins]. replace (Z.of_nat n + 1) with (Z.of_nat (S n)) by lia.
    apply IH; [|lia|lia]. destruct (_ <? _); [|done]. split; [by rewrite length_insert|].
    intros k v Hk. apply list_lookup_insert_Some in Hk as [(<- & <- & _)|(_ & Hk)]; [|by apply Ht].
    right. split; [lia|]. rewrite Nat2Z.id, Hc. f_equal.
    rewrite Z2Nat.id by (apply Z.div_pos; lia). pose proof (Z.div_mod c 8). lia.
Qed.

(** Every class has an entry before the debugging caches are masked. *)
Lemma fill_bins_miss classes n t k :
  Forall (fun c => Z.to_nat (c / 8) <> k) classes -> fill_bins classes n t !! k = t !! k.
Proof.
  intros H. revert n t. induction H as [|c classes Hc _ IH]; intros n t; cbn [fill_bins]; [done|].
  rewrite IH. destruct (_ <? _); [|done]. by rewrite list_lookup_insert_ne.
Qed.

Lemma fill_bins_hit classes n t b c :
  Z.of_nat (length t) = PTC_SIZE_TO_BIN_ENTRIES -> classes !! b = Some c -> 0 <= c <= 8192 ->
  Forall (fun c' => Z.to_nat (c' / 8) <> Z.to_nat (c / 8)) (drop (S b) classes) ->
  fill_bins classes n t !! Z.to_nat (c / 8) = Some (n + Z.of_nat b).
Proof.
  revert n t b. induction classes as [|c0 classes IH]; intros n t b Ht Hb Hc Hd; [done|]. cbn [fill_bins].
  destruct b as [|b]; simpl in Hb, Hd.
  - injection Hb as ->. rewrite fill_bins_miss by done.
    assert (Hk : 0 <= c / 8 < PTC_SIZE_TO_BIN_ENTRIES).
    { split; [apply Z.div_pos; lia|]. apply Z.div_lt_upper_bound; [lia|]. change PTC_SIZE_TO_BIN_ENTRIES with 1025. lia. }
    rewrite (proj2 (Z.ltb_lt (c / 8) _)) by lia. rewrite list_lookup_insert_eq by lia. f_equal. lia.
  - rewrite (IH _ _ b); [f_equal; lia| |done..]. destruct (_ <? _); by rewrite ?length_insert.
Qed.

(** The classes in use differ. *)
Lemma classes_differ b c :
  ptc_size_classes !! b = Some c -> c <> 0 ->
  Forall (fun c' => Z.to_nat (c' / 8) <> Z.to_nat (c / 8)) (drop (S b) ptc_size_classes).
Proof.
  intros Hb Hc.
  assert (H : forallb (fun i => (ptc_size_classes !!! i =? 0) || forallb (fun c' =>
      negb (Nat.eqb (Z.to_nat (c' / 8)) (Z.to_nat (ptc_size_classes !!! i / 8)))) (drop (S i) ptc_size_classes)) (seq 0 36) = true)
    by (vm_compute; reflexivity).
  rewrite forallb_forall in H. specialize (H b). rewrite (list_lookup_total_correct _ _ _ Hb) in H.
  rewrite (proj2 (Z.eqb_neq _ _) Hc) in H. cbn [orb] in H.
  pose proof (lookup_lt_Some _ _ _ Hb) as Hlt. simpl in Hlt. rewrite forallb_forall in H.
  apply Forall_forall. intros c' Hc'. apply Nat.eqb_neq, negb_true_iff, H; [apply in_seq; lia|].
  by apply list_elem_of_In.
Qed.

Lemma fill_bins_all b c :
  ptc_size_classes !! b = Some c -> c <> 0 ->
  fill_bins ptc_size_classes 0 (replicate (Z.to_nat PTC_SIZE_TO_BIN_ENTRIES) (-1)) !! Z.to_nat (c / 8) = Some (Z.of_nat b).
Proof.
  intros Hb Hc. rewrite (fill_bins_hit _ _ _ b c); [done| |done| |by apply classes_differ].
  - rewrite length_replicate. done.
  - apply (class_range b c Hb).
Qed.

Lemma index_range size : 0 < size <= UMEM_MAXBUF -> 0 <= (size - 1) / 8 < 16384.
Proof.
  unfold UMEM_MAXBUF. intros Hs. split; [apply Z.div_pos; lia|apply Z.div_lt_upper_bound; lia].
Qed.

Section tables.
Context (ci : cache_info) (table : list Z).
Hypothesis Hlen : Z.of_nat (length table) = 16384.

Lemma table_cache_at size : 0 < size <= UMEM_MAXBUF -> table_cache table size = table !! Z.to_nat ((size - 1) / 8).
Proof using Hlen.
  intros Hs. unfold table_cache. rewrite table_index by done. rewrite (proj2 (Z.ltb_lt _ _)); [done|].
  rewrite Hlen. by apply index_range.
Qed.

Lemma table_cache_some size : 0 < size <= UMEM_MAXBUF -> exists cp, table_cache table size = Some cp.
Proof.
  intros Hs. rewrite table_cache_at by done. apply lookup_lt_is_Some_2.
  pose proof (index_range size Hs). lia.
Qed.

(** A class whose cache keeps debugging information has no bin. *)
Definition masked (size : Z) : bool :=
  match table_cache table size with
  | Some cp => negb (cp =? 0) && debug_cache ci cp
  | None => false
  end.

Lemma mask_debug_run classes t :
  Forall (fun c => 0 <= c <= 8192 /\ c mod 8 = 0) classes -> Z.of_nat (length t) = PTC_SIZE_TO_BIN_ENTRIES ->
  exists t', mask_debug ci table classes t = Ok t' /\ length t' = length t /\
    forall k, t' !! k = if existsb (fun c => negb (c =? 0) && (c =? 8 * Z.of_nat k) && masked c) classes
                        then (fun _ => -1) <$> t !! k else t !! k.
Proof using Hlen.
  revert t. induction classes as [|c classes IH]; intros t Hc Ht; [by exists t|].
  apply Forall_cons in Hc as [[Hc1 Hc2] Hc]. cbn [mask_debug existsb].
  destruct (Z.eqb_spec c 0) as [->|Hc0]; [by apply IH|].
  destruct (table_cache_some c) as [cp Ecp]; [unfold UMEM_MAXBUF; lia|]. rewrite Ecp.
  assert (Hm : masked c = negb (cp =? 0) && debug_cache ci cp) by (unfold masked; by rewrite Ecp).
  rewrite <- Hm. replace (c / 8 <? PTC_SIZE_TO_BIN_ENTRIES) with true
    by (symmetry; apply Z.ltb_lt; change PTC_SIZE_TO_BIN_ENTRIES with 1025; apply Z.div_lt_upper_bound; lia).
  rewrite andb_true_r. cbn [negb andb].
  destruct (IH (if masked c then <[Z.to_nat (c / 8) := -1]> t else t) Hc) as (t' & -> & El & Hk).
  { destruct (masked c); by rewrite ?length_insert. }
  exists t'. split; [done|]. split; [rewrite El; destruct (masked c); by rewrite ?length_insert|].
  intros k. rewrite Hk. assert (Hd : c = 8 * (c / 8)) by (pose proof (Z.div_mod c 8); lia).
  destruct (Z.eqb_spec c (8 * Z.of_nat k)) as [E|E]; cbn [andb].
  - destruct (masked c); [|done]. replace (Z.to_nat (c / 8)) with k by lia.
    cbn [orb]. destruct (decide (k < length t)%nat).
    + rewrite list_lookup_insert_eq by done. destruct (lookup_lt_is_Some_2 t k) as [x ->]; [done|]. by destruct (existsb _ _).
    + rewrite list_insert_ge, lookup_ge_None_2 by lia. by destruct (existsb _ _).
  - cbn [orb]. destruct (masked c); [|done]. rewrite list_lookup_insert_ne; [done|].
    intros Hk'. apply E. assert (0 <= c / 8) by (apply Z.div_pos; lia). lia.
Qed.
End tables.

(** What initialisation leaves, when it completes. *)
Record tables_ok (ci : cache_info) (table : list Z) (g : ptc_globals) : Prop := TablesOk {
  to_enabled : umem_ptc_enabled g = true;
  to_key : ptc_key_initialized g = true;
  to_ready : ptc_table_ready g = true;
  to_length : Z.of_nat (length (size_to_bin_table g)) = PTC_SIZE_TO_BIN_ENTRIES;
  to_sound k v : size_to_bin_table g !! k = Some v ->
    v = -1 \/ (0 <= v < 36 /\ ptc_size_classes !! Z.to_nat v = Some (8 * Z.of_nat k) /\
               (k <> 0%nat -> masked ci table (8 * Z.of_nat k) = false));
  to_complete b c : ptc_size_classes !! b = Some c -> c <> 0 -> masked ci table c = false ->
    size_to_bin_table g !! Z.to_nat (c / 8) = Some (Z.of_nat b);
  to_zero : size_to_bin_table g !! 0%nat = Some 27;
  to_real : umem_ptc_bin_real g = imap (bin_entry ci (size_to_bin_table g) (umem_ptc_maxsize g)) table;
}.

Lemma existsb_class k c :
  0 <= k -> (existsb (fun c' => negb (c' =? 0) && (c' =? 8 * k) && c c') ptc_size_classes = true <->
  exists b, ptc_size_classes !! b = Some (8 * k) /\ k <> 0 /\ c (8 * k) = true).
Proof.
  intros Hk. rewrite existsb_exists. split.
  - intros (x & Hx & H). apply list_elem_of_In, list_elem_of_lookup in Hx as [b Hb].
    apply andb_true_iff in H as [H Hc]. apply andb_true_iff in H as [H0 H8].
    apply Z.eqb_eq in H8 as ->. apply negb_true_iff, Z.eqb_neq in H0. exists b. split_and!; [done|lia|done].
  - intros (b & Hb & H0 & Hc). exists (8 * k). split; [by eapply list_elem_of_In, list_elem_of_lookup_2|].
    rewrite Hc, Z.eqb_refl, (proj2 (Z.eqb_neq _ _)) by lia. done.
Qed.

Lemma ptc_init_run ci table g :
  Z.of_nat (length table) = 16384 -> umem_ptc_enabled g = true ->
  exists g', umem_ptc_init ci table true true g = Ok g' /\ tables_ok ci table g' /\
    umem_ptc_maxsize g' = umem_ptc_maxsize g.
Proof.
  intros Hlen He. unfold umem_ptc_init. rewrite He, orb_true_r. cbn [negb].
  set (t0 := replicate _ _). assert (Ht0 : s2b_ok t0).
  { unfold t0. split; [by rewrite length_replicate|]. intros k v Hk. left. by apply lookup_replicate in Hk as [-> _]. }
  assert (s2b_ok (fill_bins ptc_size_classes 0 t0)) as [Hl Hs] by exact (fill_bins_ok t0 0 Ht0 ltac:(lia)).
  pose proof (fill_bins_all : forall b c, _ -> _ -> fill_bins _ 0 t0 !! _ = _) as Hall.
  assert (Hz : fill_bins ptc_size_classes 0 t0 !! 0%nat = Some 27).
  { apply (fill_bins_hit ptc_size_classes 0 t0 27 0); [apply Ht0|done|lia|]. vm_compute. by repeat constructor. }
  set (t1 := fill_bins ptc_size_classes 0 t0) in *. clearbody t1.
  destruct (mask_debug_run ci table Hlen ptc_size_classes t1) as (t2 & -> & El & Hk).
  { apply Forall_lookup. intros. by eapply class_range. } { exact Hl. }
  cbn [res_bind]. eexists. split; [reflexivity|]. split; [|reflexivity].
  split; cbn [size_to_bin_table]; [reflexivity..| | | | |reflexivity].
  - rewrite El. exact Hl.
  - intros k v. rewrite Hk. destruct (existsb _ _) eqn:Ex.
    + destruct (t1 !! k); [|done]. intros [= <-]. by left.
    + intros Hv. destruct (Hs _ _ Hv) as [->|[H1 H2]]; [by left|right]. split_and!; try done; try lia.
      intros Hk0. apply not_true_iff_false. intros Hm. apply not_true_iff_false in Ex. apply Ex.
      apply existsb_class; [lia|]. exists (Z.to_nat v). split_and!; [done|lia|done].
  - intros b c Hb Hc Hm. rewrite Hk. pose proof (class_range b c Hb) as [Hr H8].
    assert (E8 : c = 8 * Z.of_nat (Z.to_nat (c / 8))).
    { assert (0 <= c / 8) by (apply Z.div_pos; lia). pose proof (Z.div_mod c 8). lia. }
    destruct (existsb _ _) eqn:Ex; [|by apply Hall].
    apply existsb_class in Ex as (b' & _ & _ & Hm'); [|lia]. rewrite <- E8 in Hm'. congruence.
  - rewrite Hk. destruct (existsb _ _) eqn:Ex; [|done]. by apply existsb_class in Ex as (? & _ & ? & _).
Qed.

(** ** The map from requests to bins *)

Section backing.
Context (sizes l : list Z) (k : nat) (caches : list Z) (null : Z) (ci : cache_info).
Hypothesis Hsizes : sizes_ok sizes l k.
Hypothesis Hcaches : (length l <= length caches)%nat.
Hypothesis Hnull : 0 ∉ caches.
Hypothesis Hbuf : forall i s cp, l !! i = Some s -> caches !! i = Some cp -> ci_bufsize ci cp = s.

Lemma serves_unique r cp cp' :
  serves l caches r cp -> serves l caches (ci_bufsize ci cp) cp' -> cp' = cp.
Proof using Hsizes Hcaches Hbuf.
  intros (i & s & H1 & H2 & H3 & H4) (i' & s' & H1' & H2' & H3' & H4').
  rewrite (Hbuf _ _ _ H1 H2) in *. assert (s' <= s) by (eapply H4'; [exact H1|lia]). assert (s' = s) as -> by lia.
  assert (i' = i) as ->; [|congruence]. destruct Hsizes as [_ Hs _ _].
  eapply (NoDup_lookup l); [|exact H1'|exact H1]. clear -Hs. induction Hs as [|x l Hs IH Hx]; constructor; [|done].
  intros Hin. rewrite Forall_forall in Hx. specialize (Hx x Hin). simpl in Hx. lia.
Qed.

(** Entry by entry: the cache of the entry is the one that serves the size of
    its bin. *)
Lemma entry_backed table g idx cp :
  umem_alloc_table sizes caches null = (table, UMEM_MAXBUF + UMEM_ALIGN) -> tables_ok ci table g ->
  table !! idx = Some cp ->
  exists bin, umem_ptc_bin_real g !! idx = Some bin /\
    ((bin = -1 /\ (umem_ptc_maxsize g < ci_bufsize ci cp \/ (ci_bufsize ci cp ∉ ptc_size_classes) \/ debug_cache ci cp = true)) \/
     (0 <= bin < 36 /\ umem_ptc_bin_size bin = ci_bufsize ci cp /\ 8 * (Z.of_nat idx + 1) <= ci_bufsize ci cp <= umem_ptc_maxsize g /\
      table_cache table (umem_ptc_bin_size bin) = Some cp /\ debug_cache ci cp = false)).
Proof using Hsizes Hcaches Hnull Hbuf.
  intros Et Hg Hidx. destruct (alloc_table_run sizes l k caches null Hsizes Hcaches) as (t & Et' & Hlen & Hserve).
  rewrite Et in Et'. injection Et' as <-.
  pose proof (lookup_lt_Some _ _ _ Hidx) as Hlt.
  destruct (Hserve (8 * (Z.of_nat idx + 1))) as (cp0 & Ecp & Hsv); [unfold UMEM_MAXBUF; lia|].
  replace ((8 * (Z.of_nat idx + 1) - 1) / 8) with (Z.of_nat idx) in Ecp by (apply Z.div_unique with 7; lia).
  rewrite Nat2Z.id in Ecp.
  rewrite Hidx in Ecp. injection Ecp as <-.
  pose proof Hsv as (i & s & Hi1 & Hi2 & Hi3 & _). pose proof (Hbuf _ _ _ Hi1 Hi2) as Es.
  assert (Hcp : cp <> 0) by (intros ->; apply Hnull; by eapply list_elem_of_lookup_2).
  assert (Hs : 0 < s <= UMEM_MAXBUF /\ s = 8 * (s / 8)).
  { destruct Hsizes as [_ Hss He Hl]. apply list_elem_of_lookup_2 in Hi1 as Hin. rewrite Forall_forall in He.
    destruct (He s Hin) as [? [a ->]]. split; [split; [lia|by eapply sorted_last]|].
    rewrite Z.div_mul by lia. lia. }
  assert (Etc : table_cache table s = Some cp).
  { rewrite table_cache_at by lia. destruct (Hserve s) as (cp' & -> & Hsv'); [lia|].
    f_equal. rewrite <- Es in Hsv'. by eapply serves_unique. }
  assert (Em : masked ci table s = debug_cache ci cp).
  { unfold masked. rewrite Etc, (proj2 (Z.eqb_neq _ _) Hcp). done. }
  rewrite (to_real _ _ _ Hg), list_lookup_imap, Hidx. cbn [fmap option_fmap option_map].
  eexists. split; [done|]. unfold bin_entry. rewrite Z.shiftl_mul_pow2 by done.
  change (2 ^ UMEM_ALIGN_SHIFT) with 8. rewrite (proj2 (Z.eqb_neq _ _) Hcp), Es. cbn [negb].
  destruct (Z.ltb_spec (umem_ptc_maxsize g) ((Z.of_nat idx + 1) * 8)); [left; split; [done|left; lia]|].
  destruct (Z.ltb_spec (umem_ptc_maxsize g) s); [left; split; [done|by left]|].
  destruct (Z.leb_spec PTC_SIZE_TO_BIN_ENTRIES (s / 8)) as [Hge|Hlt8].
  { left. split; [done|]. right. left. intros [b Hb]%list_elem_of_lookup. apply class_range in Hb.
    change PTC_SIZE_TO_BIN_ENTRIES with 1025 in Hge. lia. }
  assert (Hn : (Z.to_nat (s / 8) < length (size_to_bin_table g))%nat) by (pose proof (to_length _ _ _ Hg); lia).
  destruct (lookup_lt_is_Some_2 _ _ Hn) as [v Hv]. rewrite (list_lookup_total_correct _ _ _ Hv).
  assert (E8 : 8 * Z.of_nat (Z.to_nat (s / 8)) = s) by lia.
  destruct (to_sound _ _ _ Hg _ _ Hv) as [->|(Hv1 & Hv2 & Hv3)].
  - left. split; [done|]. right. destruct (debug_cache ci cp) eqn:Ed; [by right|left].
    intros [b Hb]%list_elem_of_lookup. pose proof (to_complete _ _ _ Hg b s Hb ltac:(lia) ltac:(congruence)) as Hc.
    rewrite Hc in Hv. injection Hv. lia.
  - right. rewrite E8 in Hv2, Hv3. unfold umem_ptc_bin_size.
    rewrite (proj2 (Z.ltb_ge v 0)), (proj2 (Z.leb_gt 36 v)) by lia. cbn [orb].
    rewrite (list_lookup_total_correct _ _ _ Hv2). split_and!; try done; try lia.
    rewrite <- Em. apply Hv3. lia.
Qed.
End backing.
