(* ===== verification/PtcPool.v ===== *)
(** * The per-thread cache: bins and magazines

    The slot arrays of the bins are disjoint ranges that fill the pool, the
    well-formedness of a thread's cache, the objects a bin and its magazines
    hold, and what pushing and popping one of them does. *)
From S2P Require Import Prelude Machine SlabModel AllocSizes MagModel MagOps MagInv MagSpec MagLoops PtcModel.
From AAC_tactics Require Import AAC.
From AAC_tactics Require Instances.
Import Instances.Lists.

(** ** The pool *)

Definition bin_offset (b : nat) : nat := sum_list (ptc_bin_capacity <$> seq 0 b).

(** The loop of [umem_ptc_get]: the bins from [b] on, [p] being the next free
    slot, and the slot after the last. *)
Fixpoint carve (n b p : nat) : list umem_ptc_bin * nat :=
  match n with
  | O => ([], p)
  | S n => let '(bins, q) := carve n (S b) (p + ptc_bin_capacity b) in (PtcBin p 0 :: bins, q)
  end.

Lemma bin_offset_S b : bin_offset (S b) = (bin_offset b + ptc_bin_capacity b)%nat.
Proof. unfold bin_offset. rewrite seq_S, fmap_app, sum_list_with_app. simpl. lia. Qed.

Lemma bin_offset_le b c : (b <= c)%nat -> (bin_offset b <= bin_offset c)%nat.
Proof. induction 1; [done|]. rewrite bin_offset_S. lia. Qed.

Lemma bin_offset_all : bin_offset PTC_NBINS = PTC_TOTAL_SLOTS.
Proof. vm_compute. reflexivity. Qed.

Lemma bin_fits b i :
  (b < PTC_NBINS)%nat -> (i < ptc_bin_capacity b)%nat -> (bin_offset b + i < PTC_TOTAL_SLOTS)%nat.
Proof.
  intros Hb Hi. pose proof (bin_offset_le (S b) PTC_NBINS Hb) as H. rewrite bin_offset_S, bin_offset_all in H. lia.
Qed.

(** Slots of different bins differ. *)
Lemma bins_disjoint b c i j :
  b <> c -> (i < ptc_bin_capacity b)%nat -> (j < ptc_bin_capacity c)%nat -> (bin_offset b + i <> bin_offset c + j)%nat.
Proof.
  intros Hbc Hi Hj. destruct (Nat.lt_gt_cases b c) as [[H|H] _]; [done|..].
  - pose proof (bin_offset_le (S b) c H) as Hle. rewrite bin_offset_S in Hle. lia.
  - pose proof (bin_offset_le (S c) b H) as Hle. rewrite bin_offset_S in Hle. lia.
Qed.

Lemma capacity_bound b : (0 < ptc_bin_capacity b <= 128)%nat.
Proof.
  unfold ptc_bin_capacity, PTC_NSLOTS_SMALL, PTC_NSLOTS_MEDIUM, PTC_NSLOTS_LARGE, PTC_NSLOTS_XLARGE.
  repeat case_match; lia.
Qed.

Lemma carve_run n b :
  carve n b (bin_offset b) = ((fun c => PtcBin (bin_offset c) 0) <$> seq b n, bin_offset (b + n)).
Proof.
  revert b. induction n as [|n IH]; intros b; simpl; [by rewrite Nat.add_0_r|].
  rewrite <- bin_offset_S, IH. do 2 f_equal. lia.
Qed.

(** ** Well-formed caches *)

(** One of the two magazines of a pair. *)
Definition half_ok (mp : option umem_magazine) (rounds magsize : Z) : Prop :=
  match mp with
  | None => rounds = 0 /\ 0 <= magsize
  | Some mp => mag_ok mp /\ magsize = umem_mag_capacity mp /\ 0 <= rounds <= magsize
  end.
Definition pair_ok (m : umem_ptc_mag) : Prop :=
  half_ok (pm_loaded m) (pm_rounds m) (pm_magsize m) /\ half_ok (pm_previous m) (pm_prounds m) (pm_pmagsize m) /\
  (pm_cache m = None -> pm_loaded m = None /\ pm_previous m = None).

Definition bin_ok (b : nat) (x : umem_ptc_bin) : Prop :=
  bin_slots x = bin_offset b /\ 0 <= bin_count x <= Z.of_nat (ptc_bin_capacity b).
Record ptc_ok (p : umem_ptc) : Prop := PtcOk {
  pk_bins : length (ptc_bins p) = PTC_NBINS;
  pk_mags : length (ptc_mags p) = PTC_NBINS;
  pk_pool : length (ptc_pool p) = PTC_TOTAL_SLOTS;
  pk_bin b : (b < PTC_NBINS)%nat -> bin_ok b (bin_at p b);
  pk_pair b : (b < PTC_NBINS)%nat -> pair_ok (mag_at p b);
}.

(** ** Objects held *)

Definition held_pair (ck : Z) (m : umem_ptc_mag) : list Z :=
  held_mag ck (pm_loaded m) (pm_rounds m) ++ held_mag ck (pm_previous m) (pm_prounds m).
Definition class_held (ck : Z) (p : umem_ptc) (b : nat) : list Z :=
  bin_values ck p b ++ held_pair ck (mag_at p b).

(** A step on class [b] leaves the other classes alone. *)
Record class_step (ck : Z) (b : nat) (p p' : umem_ptc) : Prop := ClassStep {
  cs_ok : ptc_ok p';
  cs_held c : (c < PTC_NBINS)%nat -> c <> b -> class_held ck p' c = class_held ck p c;
  cs_mag c : c <> b -> mag_at p' c = mag_at p c;
  cs_bin c : c <> b -> bin_at p' c = bin_at p c;
  cs_addr : ptc_addr p' = ptc_addr p;
}.

Lemma class_step_trans ck b p1 p2 p3 : class_step ck b p1 p2 -> class_step ck b p2 p3 -> class_step ck b p1 p3.
Proof.
  intros [A1 A2 A3 A4 A5] [B1 B2 B3 B4 B5]. split; [done|..|congruence]; intros c ?; [intros ?|..].
  - by rewrite B2, A2.
  - by rewrite B3, A3.
  - by rewrite B4, A4.
Qed.

Lemma bin_at_set b x p c :
  (b < length (ptc_bins p))%nat -> bin_at (set_bin b x p) c = if decide (b = c) then x else bin_at p c.
Proof.
  intros Hb. unfold bin_at. simpl. case_decide as E.
  - subst c. by apply list_lookup_total_insert_eq.
  - by apply list_lookup_total_insert_ne.
Qed.
Lemma mag_at_set b m p c :
  (b < length (ptc_mags p))%nat -> mag_at (set_mag b m p) c = if decide (b = c) then m else mag_at p c.
Proof.
  intros Hb. unfold mag_at. simpl. case_decide as E.
  - subst c. by apply list_lookup_total_insert_eq.
  - by apply list_lookup_total_insert_ne.
Qed.

Lemma bin_values_ext ck p p' b :
  bin_at p' b = bin_at p b -> ptc_addr p' = ptc_addr p ->
  (forall i, (i < Z.to_nat (bin_count (bin_at p b)))%nat ->
     ptc_pool p' !!! (bin_slots (bin_at p b) + i)%nat = ptc_pool p !!! (bin_slots (bin_at p b) + i)%nat) ->
  bin_values ck p' b = bin_values ck p b.
Proof.
  intros Eb Ea H. unfold bin_values. rewrite Eb. apply list_fmap_ext. intros j x Hx.
  apply lookup_seq in Hx as [-> Hj]. unfold slot_value, pool_addr. by rewrite Ea, H.
Qed.

(** ** Magazine pairs *)

Lemma set_mag_step ck b m p :
  ptc_ok p -> (b < PTC_NBINS)%nat -> pair_ok m ->
  class_step ck b p (set_mag b m p) /\ class_held ck (set_mag b m p) b = bin_values ck p b ++ held_pair ck m.
Proof.
  intros Hp Hb Hm. assert (Hl : (b < length (ptc_mags p))%nat) by (by rewrite (pk_mags _ Hp)). split.
  - split; [|intros c Hc Hne|intros c Hne|done..].
    + destruct Hp as [H1 H2 H3 H4 H5]. split; try done; simpl; [by rewrite length_insert|].
      intros c Hc. rewrite mag_at_set by done. case_decide; [done|by apply H5].
    + unfold class_held. rewrite mag_at_set by done. by rewrite decide_False.
    + rewrite mag_at_set by done. by rewrite decide_False.
  - unfold class_held. rewrite mag_at_set by done. by rewrite decide_True.
Qed.

Lemma set_busy_step ck b v p p' : class_step ck b p p' -> class_step ck b p (set_busy v p').
Proof. intros [[] H1 H2 H3 H4]. split; [by split|done..]. Qed.
Lemma set_busy_held ck v p b : class_held ck (set_busy v p) b = class_held ck p b.
Proof. done. Qed.

Lemma held_mag_snoc ck mp n v :
  mag_ok mp -> 0 <= n < umem_mag_capacity mp ->
  contents ck (round_put ck mp (Z.to_nat n) v) (n + 1) = contents ck mp n ++ [v].
Proof.
  intros Hmp Hn. rewrite capacity_length in Hn by done. rewrite contents_snoc by lia. f_equal.
  - apply contents_ext. intros i Hi. apply demangle_put_ne. lia.
  - f_equal. apply demangle_put. lia.
Qed.

Lemma put_capacity ck mp i v : umem_mag_capacity (round_put ck mp i v) = umem_mag_capacity mp.
Proof. done. Qed.

Lemma pair_pop ck m :
  pair_ok m -> 0 < pm_rounds m ->
  exists m' v, ptc_mag_pop ck m = Ok (m', v) /\ pair_ok m' /\ held_pair ck m ≡ₚ v :: held_pair ck m' /\
    pm_cache m' = pm_cache m.
Proof.
  intros (H1 & H2 & H3) Hr. unfold ptc_mag_pop. destruct (pm_loaded m) as [mp|] eqn:El; [|simpl in H1; lia].
  destruct H1 as (Hmp & Hs & Hb). pose proof (capacity_length mp Hmp) as Hc.
  unfold round_load. rewrite (proj2 (Nat.ltb_lt _ _)) by lia. cbn [res_bind].
  eexists _, _. split; [done|]. split.
  - split; [|split; [exact H2|exact H3]]. cbn. split_and!; [done|done|lia|lia].
  - split; [|done]. unfold held_pair. rewrite El. simpl held_mag at 1 3.
    replace (pm_rounds m) with (pm_rounds m - 1 + 1) at 1 by lia. rewrite contents_snoc by lia.
    cbn [pm_rounds pm_previous pm_prounds]. rewrite <- app_assoc. cbn [app]. by rewrite <- Permutation_middle.
Qed.

Lemma pair_push ck m v :
  pair_ok m -> pm_cache m <> None -> below_size (pm_loaded m) (pm_rounds m) (pm_magsize m) = true ->
  exists m', ptc_mag_push ck m v = Ok m' /\ pair_ok m' /\ held_pair ck m' ≡ₚ v :: held_pair ck m /\
    pm_cache m' = pm_cache m.
Proof.
  intros (H1 & H2 & H3) Hca Hr. unfold ptc_mag_push. destruct (pm_loaded m) as [mp|] eqn:El; [|done].
  destruct H1 as (Hmp & Hs & Hb). cbn [below_size] in Hr. apply Z.ltb_lt in Hr.
  pose proof (capacity_length mp Hmp) as Hc.
  unfold round_store. rewrite (proj2 (Nat.ltb_lt _ _)) by lia. cbn [res_bind].
  eexists. split; [done|]. split.
  - split; [|split; [exact H2|by intros ?]]. cbn. split_and!; [by apply mag_ok_put|done|lia|lia].
  - split; [|done]. unfold held_pair. rewrite El. cbn [pm_loaded pm_rounds pm_previous pm_prounds held_mag].
    rewrite held_mag_snoc by (done || lia). rewrite <- app_assoc. cbn [app]. by rewrite <- Permutation_middle.
Qed.

Lemma pair_swap ck m :
  pair_ok m -> pair_ok (ptc_mag_swap m) /\ held_pair ck (ptc_mag_swap m) ≡ₚ held_pair ck m.
Proof. intros (H1 & H2 & H3). split; [split_and!; cbn; try done; by intros []%H3|apply Permutation_app_comm]. Qed.

Lemma pair_own ck cp m :
  pair_ok m -> pair_ok (ptc_mag_own cp m) /\ held_pair ck (ptc_mag_own cp m) = held_pair ck m /\
    pm_cache (ptc_mag_own cp m) <> None.
Proof.
  intros Hm. unfold ptc_mag_own. destruct (pm_cache m) eqn:E; [by rewrite E|].
  destruct Hm as (H1 & H2 & H3). split; [|done]. by split; [|split].
Qed.

(** ** Slots *)

Lemma mangle_twice ck a v : UMEM_SLOT_MANGLE ck a (UMEM_SLOT_MANGLE ck a v) = v.
Proof.
  unfold UMEM_SLOT_MANGLE. set (k := Z.shiftr _ _). rewrite !Z.lxor_assoc, (Z.lxor_comm k), !Z.lxor_assoc.
  rewrite Z.lxor_nilpotent, Z.lxor_0_r, Z.lxor_nilpotent. apply Z.lxor_0_r.
Qed.

(** A change of bin [b]: its own count, and its own slots. *)
Lemma set_bin_step ck b x pool p :
  ptc_ok p -> (b < PTC_NBINS)%nat -> bin_ok b x -> length pool = length (ptc_pool p) ->
  (forall c i, (c < PTC_NBINS)%nat -> c <> b -> (i < ptc_bin_capacity c)%nat ->
     pool !!! (bin_offset c + i)%nat = ptc_pool p !!! (bin_offset c + i)%nat) ->
  class_step ck b p (set_pool pool (set_bin b x p)).
Proof.
  intros Hp Hb Hx Hl Hpool. assert (Hlb : (b < length (ptc_bins p))%nat) by (by rewrite (pk_bins _ Hp)).
  assert (Hbin : forall c, bin_at (set_pool pool (set_bin b x p)) c = if decide (b = c) then x else bin_at p c).
  { intros c. by apply bin_at_set. }
  split; [|intros c Hc Hne|done|intros c Hne|done].
  - destruct Hp as [H1 H2 H3 H4 H5]. split; try done; simpl; [by rewrite length_insert|congruence|].
    intros c Hc. rewrite Hbin. case_decide; [by subst c|by apply H4].
  - unfold class_held. f_equal. destruct (pk_bin _ Hp c Hc) as [E1 E2]. apply bin_values_ext; [|done|].
    + rewrite Hbin. by rewrite decide_False.
    + intros i Hi. rewrite E1. apply Hpool; [done..|lia].
  - rewrite Hbin. by rewrite decide_False.
Qed.

Lemma slot_pop_run ck p b :
  ptc_ok p -> (b < PTC_NBINS)%nat -> 0 < bin_count (bin_at p b) ->
  exists p' v, ptc_slot_pop ck p b = Ok (p', v) /\ class_step ck b p p' /\
    class_held ck p b ≡ₚ v :: class_held ck p' b /\ mag_at p' b = mag_at p b /\
    bin_count (bin_at p' b) = bin_count (bin_at p b) - 1.
Proof.
  intros Hp Hb Hc. destruct (pk_bin _ Hp b Hb) as [E1 E2]. pose proof (capacity_bound b) as Hcap.
  unfold ptc_slot_pop. rewrite Z.mod_small by lia.
  pose proof (bin_fits b (Z.to_nat (bin_count (bin_at p b) - 1)) Hb ltac:(lia)) as Hfit.
  rewrite E1, (pk_pool _ Hp). rewrite (proj2 (Nat.ltb_lt _ _) Hfit).
  set (x := PtcBin (bin_offset b) (bin_count (bin_at p b) - 1)).
  assert (Hlb : (b < length (ptc_bins p))%nat) by (by rewrite (pk_bins _ Hp)).
  assert (Eb : bin_at (set_bin b x p) b = x) by (rewrite bin_at_set by done; by rewrite decide_True).
  eexists _, _. split; [done|]. split; [|split; [|split; [done|by rewrite Eb]]].
  - apply (set_bin_step ck b x (ptc_pool p) p); try done. split; [done|]. simpl. lia.
  - unfold class_held, bin_values. rewrite Eb. cbn [bin_count bin_slots x]. rewrite E1.
    replace (Z.to_nat (bin_count (bin_at p b))) with (S (Z.to_nat (bin_count (bin_at p b) - 1))) at 1 by lia.
    rewrite seq_S, fmap_app. cbn [fmap list_fmap]. rewrite <- app_assoc. cbn [app]. by rewrite <- Permutation_middle.
Qed.

Lemma slot_push_run ck p b v :
  ptc_ok p -> (b < PTC_NBINS)%nat -> bin_count (bin_at p b) < Z.of_nat (ptc_bin_capacity b) ->
  exists p', ptc_slot_push ck p b v = Ok p' /\ class_step ck b p p' /\
    class_held ck p' b ≡ₚ v :: class_held ck p b /\ mag_at p' b = mag_at p b /\
    bin_count (bin_at p' b) = bin_count (bin_at p b) + 1.
Proof.
  intros Hp Hb Hc. destruct (pk_bin _ Hp b Hb) as [E1 E2]. pose proof (capacity_bound b) as Hcap.
  unfold ptc_slot_push. rewrite Z.mod_small by lia.
  set (n := Z.to_nat (bin_count (bin_at p b))).
  pose proof (bin_fits b n Hb ltac:(lia)) as Hfit.
  rewrite E1. rewrite <- (pk_pool _ Hp) in Hfit. rewrite (proj2 (Nat.ltb_lt _ _) Hfit).
  set (x := PtcBin (bin_offset b) (bin_count (bin_at p b) + 1)).
  set (pool := <[_ := _]> _).
  assert (Hlb : (b < length (ptc_bins p))%nat) by (by rewrite (pk_bins _ Hp)).
  assert (Eb : bin_at (set_pool pool (set_bin b x p)) b = x)
    by (change (bin_at (set_bin b x p) b = x); rewrite bin_at_set by done; by rewrite decide_True).
  eexists. split; [done|]. split; [|split; [|split; [done|by rewrite Eb]]].
  - apply set_bin_step; [done..| |apply length_insert|]; [split; [done|]; simpl; lia|].
    intros c i Hcn Hne Hi. apply list_lookup_total_insert_ne. apply bins_disjoint; [done|lia|done].
  - unfold class_held, bin_values. rewrite Eb. cbn [bin_count bin_slots x]. rewrite E1.
    replace (Z.to_nat (bin_count (bin_at p b) + 1)) with (S n) by lia.
    rewrite seq_S, fmap_app. cbn [fmap list_fmap]. rewrite <- app_assoc. cbn [app]. rewrite <- Permutation_middle.
    assert (Ev : slot_value ck (set_pool pool (set_bin b x p)) (bin_offset b + (0 + n)) = v).
    { unfold slot_value. cbn [ptc_pool set_pool Nat.add]. unfold pool. rewrite list_lookup_total_insert_eq by done.
      apply mangle_twice. }
    rewrite Ev. f_equiv.
    change (mag_at (set_pool pool (set_bin b x p)) b) with (mag_at p b). apply reflexive_eq. f_equal.
    fold n. apply list_fmap_ext. intros j y Hy. apply lookup_seq in Hy as [-> Hj].
    unfold slot_value. cbn [ptc_pool set_pool]. unfold pool. rewrite list_lookup_total_insert_ne by lia. done.
Qed.
