(* ===== verification/PtcClass.v ===== *)
(** * The per-thread cache: one size class

    The fast paths of [_umem_alloc] and [_umem_free] and the return of a
    class's objects, against the interface of the magazine layer
    [mag_source_laws]: no assertion of [umem_ptc_mag_check] fires, no slot or
    round outside its array is touched, and the objects of the cache stay in
    one place each: the magazine layer, this thread's bin and magazines, or
    the clients. *)
From S2P Require Import Prelude Machine SlabModel AllocSizes MagModel MagOps MagInv MagSpec MagLoops MagRefine MagBatch PtcModel PtcPool.
From AAC_tactics Require Import AAC.
From AAC_tactics Require Instances.
Import Instances.Lists.

Section classes.
Context {W : Type} {env : mag_env W} (ok : W -> list Z -> Prop) {laws : mag_source_laws W ok}.

#[global] Instance magazines_proper w s : Proper ((≡ₚ) ==> iff) (magazines ok w s).
Proof. intros A B E. split; apply (magazines_out ok); by rewrite E. Qed.

Lemma depot_alloc_trylock_run w s k X :
  mags_ok s -> ok w (held s ++ X) ->
  exists w' s' got, umem_depot_alloc_trylock w s k = Ok (w', s', got) /\ found (ok := ok) X k s w' s' got.
Proof.
  intros Hs Hok. unfold umem_depot_alloc_trylock.
  assert (Hglobal : forall w2 s2, mags_ok s2 -> depot_only s s2 -> ok w2 (held s2 ++ X) ->
    exists w' s' got, depot_global_pop umem_depot_pop_trylock w2 s2 k = Ok (w', s', got) /\ found (ok := ok) X k s2 w' s' got).
  { intros w2 s2 F1 F2 F3. by apply (pop_keep umem_depot_pop_trylock (fun s => s)); [apply depot_pop_trylock_spec|..]. }
  destruct (Z.ltb_spec 0 (depot_ncpus s)) as [Hn|Hn].
  2:{ simpl. apply Hglobal; [done|frame|done]. }
  destruct (hint_run w s _ Hok) as (w1 & s1 & h & -> & Hok1 & Hq & _ & _).
  pose proof (eqv_ok _ _ Hq Hs) as Hs1. rewrite <- (eqv_held _ _ Hq) in Hok1.
  assert (Ei : depot_ncpus s1 = depot_ncpus s) by (unfold depot_ncpus; by destruct Hq as (_&_&_&_&->&_)).
  pose proof (stripes_index s1 (Z.land h (depot_ncpus s - 1)) ) as Hst. rewrite Ei in Hst.
  pose proof (stripe_index s1 h) as Hi. rewrite Ei in Hi. specialize (Hi Hn).
  set (cpu := Z.land h (depot_ncpus s - 1)) in *.
  destruct (pop_keep umem_depot_pop_trylock count_local w1 s1 k (Some (Z.to_nat cpu)) X) as (w2 & s2 & g2 & E2 & F2);
    [apply depot_pop_trylock_spec|done..|].
  unfold depot_local_pop. rewrite E2. cbn [res_bind].
  match goal with |- context [or_else (w2, s2, g2) ?n] =>
    destruct (found_then X k s1 w2 s2 g2 n F2) as (w3 & s3 & g3 & E3 & F3) end.
  - intros w4 s4 G1 G2 G3. apply depot_steal_run; [done..| |done].
    eapply forall_stripes; [exact G2|]. apply Hst. lia.
  - rewrite E3. cbn [res_bind]. apply (found_after X k s s1) in F3; [|frame].
    eapply found_then; [exact F3|]. intros. by apply Hglobal.
Qed.

(** ** Facts about pairs *)

Lemma held_mag_0 ck mp n : n <= 0 -> held_mag ck mp n = [].
Proof using Type. intros Hn. destruct mp; [by apply contents_le0|done]. Qed.

Lemma half_rounds mp rounds magsize : half_ok mp rounds magsize -> 0 <= rounds <= magsize.
Proof using Type. destruct mp; simpl; [tauto|lia]. Qed.

Lemma pair_check m : pair_ok m -> umem_ptc_mag_check m = Ok ().
Proof using Type.
  intros (H1 & H2 & _). unfold umem_ptc_mag_check.
  assert (Hh : forall mp r n, half_ok mp r n -> half_check mp r n = true).
  { intros mp r n H. pose proof (half_rounds _ _ _ H). unfold half_check.
    rewrite (proj2 (Z.leb_le 0 r)), (proj2 (Z.leb_le r n)) by lia. destruct mp; [|done].
    destruct H as (_ & -> & _). by rewrite Z.eqb_refl. }
  by rewrite !Hh.
Qed.

Lemma counted_half mp rounds : 0 <= rounds <= umem_mag_capacity mp -> counted mp rounds = rounds.
Proof using Type. unfold counted. lia. Qed.

(** A magazine in range goes back with its objects. *)
Lemma half_return push w s k mp rounds magsize out :
  push_spec (ok := ok) push -> half_ok (Some mp) rounds magsize ->
  magazines ok w s (contents (mc_cookie (mcfg s)) mp rounds ++ out) ->
  exists w' s', umem_ptc_mag_return_by push w s k mp rounds = Ok (w', s') /\ magazines ok w' s' out /\ keep s s'.
Proof.
  intros Hpush (Hmp & -> & Hr) Hm. apply ptc_return_run; [done..|]. by rewrite counted_half.
Qed.

Lemma load_pair ck mp rounds m :
  mag_ok mp -> 0 <= rounds <= umem_mag_capacity mp -> pm_cache m <> None ->
  half_ok (pm_previous m) (pm_prounds m) (pm_pmagsize m) ->
  pair_ok (ptc_mag_load mp rounds m) /\
  held_pair ck (ptc_mag_load mp rounds m) = contents ck mp rounds ++ held_mag ck (pm_previous m) (pm_prounds m).
Proof using Type. intros Hmp Hr Hc Hp. split; [|done]. split; [exact (conj Hmp (conj eq_refl Hr))|]. split; [done|by intros ?]. Qed.

Lemma capacity_pos mp : mag_ok mp -> 0 < umem_mag_capacity mp.
Proof using Type. intros Hmp. rewrite capacity_magsize by done. apply magsize_pos, Hmp. Qed.

(** ** Allocation *)

Lemma retire_run w s m out :
  pair_ok m -> pm_rounds m = 0 -> pm_prounds m = 0 -> magazines ok w s out ->
  exists w' s' m', ptc_mag_retire w s m = Ok (w', s', m') /\ magazines ok w' s' out /\ keep s s' /\
    half_ok (pm_previous m') (pm_prounds m') (pm_pmagsize m') /\ pm_prounds m' = 0 /\ pm_cache m' = pm_cache m.
Proof.
  intros (H1 & H2 & _) Hr Hp Hm. unfold ptc_mag_retire. destruct (pm_loaded m) as [mp|] eqn:El.
  2:{ eexists _, _, _. by split_and!. }
  assert (exists w' s', match pm_previous m with
    | Some mp => umem_ptc_mag_return_trylock w s MLEmpty mp (pm_prounds m) | None => Ok (w, s) end = Ok (w', s') /\
    magazines ok w' s' out /\ keep s s') as (w' & s' & -> & Hm' & Hk).
  { destruct (pm_previous m) as [pr|]; [|eexists _, _; by split_and!].
    eapply half_return; [apply depot_free_trylock_push|exact H2|]. by rewrite Hp, contents_le0. }
  cbn [res_bind]. eexists _, _, _. split; [done|]. cbn [pm_previous pm_prounds pm_pmagsize pm_cache].
  rewrite <- El in H1 |- *. split_and!; done.
Qed.

(** The magazines of a class name its cache once they are used. *)
Definition names_cache (cp : Z) (m0 m : umem_ptc_mag) : Prop :=
  pm_cache m = pm_cache m0 \/ (pm_cache m0 = None /\ pm_cache m = Some cp).

(** What a fast path leaves of class [b], and which cache its magazines name. *)
Definition class_after (cp : Z) (b : nat) (w' : W) (s s' : mags) (p p' : umem_ptc) (out : list Z) : Prop :=
  class_step (mc_cookie (mcfg s)) b p p' /\ keep s s' /\
  magazines ok w' s' (class_held (mc_cookie (mcfg s)) p' b ++ out) /\
  names_cache cp (mag_at p b) (mag_at p' b).

Lemma mag_at_set_eq b m p : ptc_ok p -> (b < PTC_NBINS)%nat -> mag_at (set_mag b m p) b = m.
Proof using Type. intros Hp Hb. rewrite mag_at_set by (by rewrite (pk_mags _ Hp)). by rewrite decide_True. Qed.

(** Storing a changed pair. *)
Lemma class_after_mag cp b w' s s' p m out :
  ptc_ok p -> (b < PTC_NBINS)%nat -> pair_ok m -> keep s s' ->
  names_cache cp (mag_at p b) m ->
  magazines ok w' s' (bin_values (mc_cookie (mcfg s)) p b ++ held_pair (mc_cookie (mcfg s)) m ++ out) ->
  class_after cp b w' s s' p (set_mag b m p) out.
Proof using Type.
  intros Hp Hb Hpm Hk Hc Hm. destruct (set_mag_step (mc_cookie (mcfg s)) b m p Hp Hb Hpm) as [H1 H2].
  split; [done|]. split; [done|]. rewrite H2, <- app_assoc. split; [done|]. by rewrite mag_at_set_eq.
Qed.

Lemma own_cache cp m :
  names_cache cp m (ptc_mag_own cp m).
Proof using Type. unfold names_cache, ptc_mag_own. destruct (pm_cache m) eqn:E; [by left|by right]. Qed.

Lemma class_after_busy cp b w' s s' p p' out :
  class_after cp b w' s s' p p' out -> class_after cp b w' s s' p (set_busy false p') out.
Proof using Type. intros (H1 & H2 & H3 & H4). split_and!; try done. by apply set_busy_step. Qed.

(** A round of a loaded magazine that is not empty, when the bin is. *)
Lemma mag_hit cp b w s s1 p m out :
  ptc_ok p -> (b < PTC_NBINS)%nat -> bin_values (mc_cookie (mcfg s)) p b = [] ->
  pair_ok m -> 0 < pm_rounds m -> keep s s1 -> names_cache cp (mag_at p b) m ->
  magazines ok w s1 (held_pair (mc_cookie (mcfg s)) m ++ out) ->
  exists m' v, ptc_mag_pop (mc_cookie (mcfg s)) m = Ok (m', v) /\ class_after cp b w s s1 p (set_mag b m' p) (v :: out).
Proof.
  intros Hp Hb Eb H1 H2 H3 H4 H5. destruct (pair_pop (mc_cookie (mcfg s)) m H1 H2) as (m' & v & E & H6 & H7 & H8).
  exists m', v. split; [done|]. apply class_after_mag; [done..|unfold names_cache; by rewrite H8|]. rewrite Eb. cbn [app].
  eapply (magazines_out ok); [|exact H5]. rewrite H7. simpl. by rewrite <- Permutation_middle.
Qed.

(** Both magazines are empty, the depot gave a full one. *)
Lemma refill_hit cp b w s s1 p m fmp out :
  ptc_ok p -> (b < PTC_NBINS)%nat -> bin_values (mc_cookie (mcfg s)) p b = [] ->
  pair_ok m -> pm_rounds m = 0 -> pm_prounds m = 0 -> pm_cache m <> None -> names_cache cp (mag_at p b) m ->
  keep s s1 -> mag_ok fmp -> magazines ok w s1 (full_of (mc_cookie (mcfg s)) fmp ++ out) ->
  exists w' s' p' v,
    (do (w, s1, m) <- ptc_mag_retire w s1 m;
     let m := ptc_mag_load fmp (umem_mag_capacity fmp) m in
     do _ <- umem_ptc_mag_check m;
     do (m, buf) <- ptc_mag_pop (mc_cookie (mcfg s)) m;
     Ok (w, s1, set_busy false (set_mag b m p), Some buf)) = Ok (w', s', p', Some v) /\
    class_after cp b w' s s' p p' (v :: out).
Proof.
  intros Hp Hb Eb Hm Hr Hpr Hca Hn Hk Hmp Hmag.
  destruct (retire_run w s1 m _ Hm Hr Hpr Hmag) as (w2 & s2 & m2 & -> & Hm2 & Hk2 & R1 & R2 & R3). cbn [res_bind].
  pose proof (capacity_pos fmp Hmp) as Hcap.
  destruct (load_pair (mc_cookie (mcfg s)) fmp (umem_mag_capacity fmp) m2) as [L1 L2]; [done|lia|by rewrite R3|done|].
  rewrite (pair_check _ L1). cbn [res_bind].
  destruct (mag_hit cp b w2 s s2 p (ptc_mag_load fmp (umem_mag_capacity fmp) m2) out Hp Hb Eb L1 Hcap) as (m' & v & -> & H).
  - by eapply keep_trans.
  - unfold names_cache. simpl. by rewrite R3.
  - rewrite L2, R2, (held_mag_0 _ (pm_previous m2)), app_nil_r by lia. exact Hm2.
  - cbn [res_bind]. eexists _, _, _, v. split; [done|]. by apply class_after_busy.
Qed.

Lemma own_rounds cp m : pm_rounds (ptc_mag_own cp m) = pm_rounds m /\ pm_prounds (ptc_mag_own cp m) = pm_prounds m.
Proof using Type. unfold ptc_mag_own. by destruct (pm_cache m). Qed.

Lemma alloc_fast_run cp w s p b out :
  ptc_ok p -> (b < PTC_NBINS)%nat -> magazines ok w s (class_held (mc_cookie (mcfg s)) p b ++ out) ->
  exists w' s' p' got, ptc_alloc_fast cp w s p b = Ok (w', s', p', got) /\
    class_after cp b w' s s' p p' (option_list got ++ out).
Proof.
  intros Hp Hb Hm. unfold ptc_alloc_fast. set (ck := mc_cookie (mcfg s)) in *.
  pose proof (pk_pair _ Hp b Hb) as Hpm. pose proof (pk_bin _ Hp b Hb) as [_ Hcount].
  destruct (Z.ltb_spec 0 (bin_count (bin_at p b))) as [Hc|Hc].
  { destruct (slot_pop_run ck p b Hp Hb Hc) as (p' & v & -> & Hst & Hh & Hmag & _). cbn [res_bind].
    eexists _, _, _, (Some v). split; [done|]. split; [done|]. split; [apply keep_refl|].
    rewrite Hmag. split; [|by left]. eapply (magazines_out ok); [|exact Hm]. rewrite Hh. simpl. by rewrite <- Permutation_middle. }
  assert (Eb : bin_values ck p b = []) by (unfold bin_values; replace (Z.to_nat _) with 0%nat by lia; done).
  unfold class_held in Hm. rewrite Eb in Hm. cbn [app] in Hm.
  destruct (Z.ltb_spec 0 (pm_rounds (mag_at p b))) as [Hr|Hr].
  { destruct (mag_hit cp b w s s p (mag_at p b) out Hp Hb Eb Hpm Hr (keep_refl s) ltac:(by left) Hm) as (m' & v & E & H).
    fold ck in E. rewrite E. cbn [res_bind]. by exists w, s, (set_mag b m' p), (Some v). }
  destruct (Z.ltb_spec 0 (pm_prounds (mag_at p b))) as [Hpr|Hpr].
  { destruct (pair_swap ck _ Hpm) as [Hs1 Hs2].
    destruct (mag_hit cp b w s s p (ptc_mag_swap (mag_at p b)) out Hp Hb Eb Hs1 Hpr (keep_refl s) ltac:(by left))
      as (m' & v & E & H); [by fold ck; rewrite Hs2|].
    fold ck in E. rewrite E. cbn [res_bind]. exists w, s, (set_busy false (set_mag b m' p)), (Some v). split; [done|]. by apply class_after_busy. }
  destruct (pair_own ck cp _ Hpm) as (Ho1 & Ho2 & Ho3). pose proof (own_cache cp (mag_at p b)) as Ho4.
  pose proof (own_rounds cp (mag_at p b)) as [Er1 Er2]. set (m := ptc_mag_own cp (mag_at p b)) in *.
  pose proof (half_rounds _ _ _ (proj1 Ho1)) as Hr0. pose proof (half_rounds _ _ _ (proj1 (proj2 Ho1))) as Hp0.
  assert (Ehp : held_pair ck m = []) by (unfold held_pair; rewrite !held_mag_0 by lia; done).
  rewrite <- Ho2, Ehp in Hm. cbn [app] in Hm. pose proof Hm as (Hok & _ & Hw).
  destruct (depot_alloc_trylock_run w s MLFull out Hok Hw) as (w1 & s1 & fmp & -> & F1 & F2 & F3). cbn [res_bind].
  pose proof (keep_depot _ _ F2) as Hk1. destruct fmp as [fmp|].
  - destruct F3 as (Hmp & _ & F3).
    destruct (refill_hit cp b w1 s s1 p m fmp out Hp Hb Eb Ho1 ltac:(lia) ltac:(lia) Ho3 Ho4 Hk1 Hmp) as (w2 & s2 & p2 & v & E & H).
    { eapply magazines_keep; [exact Hm|done|done|exact F3]. }
    exists w2, s2, p2, (Some v). split; [exact E|done].
  - eexists _, _, _, None. split; [done|]. apply class_after_mag; [done..|].
    fold ck. rewrite Eb, Ehp. cbn [app option_list]. eapply magazines_keep; [exact Hm|done|done|done].
Qed.

(** ** Free *)

Lemma donate_run w s m out :
  pair_ok m -> pm_cache m <> None -> magazines ok w s (held_pair (mc_cookie (mcfg s)) m ++ out) ->
  exists w' s' m', ptc_mag_donate w s m = Ok (w', s', m') /\ pair_ok m' /\ keep s s' /\ pm_cache m' = pm_cache m /\
    pm_loaded m' = None /\ magazines ok w' s' (held_pair (mc_cookie (mcfg s)) m' ++ out).
Proof.
  intros Hm Hca Hmag. pose proof Hm as (H1 & H2 & H3). unfold ptc_mag_donate.
  destruct (pm_loaded m) as [mp|] eqn:El; [|eexists _, _, _; by split_and!].
  unfold held_pair in Hmag. rewrite El, <- app_assoc in Hmag.
  destruct (half_return _ w s MLFull mp _ _ _ depot_free_trylock_push H1 Hmag) as (w' & s' & E & Hm' & Hk).
  unfold umem_ptc_mag_return_trylock. rewrite E. cbn [res_bind]. eexists _, _, _. split; [done|].
  pose proof (half_rounds _ _ _ H1). split; [|done]. split; [simpl; lia|]. split; [done|by intros ?].
Qed.

Lemma empty_mag_run w s out :
  magazines ok w s out ->
  exists w' s' emp, ptc_empty_mag w s = Ok (w', s', emp) /\ magazines ok w' s' out /\ keep s s' /\
    match emp with Some mp => mag_ok mp | None => True end.
Proof.
  intros Hm. pose proof Hm as (Hs & _ & Hok). unfold ptc_empty_mag.
  destruct (depot_alloc_trylock_run w s MLEmpty out Hs Hok) as (w1 & s1 & emp & -> & F1 & F2 & F3). cbn [res_bind].
  pose proof (keep_depot _ _ F2) as Hk. destruct emp as [emp|].
  - destruct F3 as (Hmp & _ & F3). eexists _, _, _. split; [done|]. split; [|done]. by eapply magazines_keep.
  - unfold umem_ptc_mag_prime. pose proof (mo_type _ F1) as Ht.
    pose proof (ms_shell_alloc w1 _ _ Ht F3) as Hok2. pose proof (ms_shell_new w1 (cache_magtype s1)) as Hnew.
    destruct (env_shell_alloc w1 (cache_magtype s1)) as [w2 [emp|]]; simpl in Hok2, Hnew.
    + destruct (Hnew emp Ht eq_refl) as [Esrc Elen]. eexists _, _, _. split; [done|]. split; [|split; [done|]].
      * eapply magazines_keep; [exact Hm|by apply (eqv_ok s1)|done|exact Hok2].
      * rewrite capacity_magsize by (by split; rewrite Esrc). rewrite Esrc. by apply init_fast_ok.
    + eexists _, _, _. split; [done|]. split; [|done]. by eapply magazines_keep.
Qed.

(** A round is stored in a loaded magazine with room. *)
Lemma mag_store cp b w s s1 p m buf out :
  ptc_ok p -> (b < PTC_NBINS)%nat -> pair_ok m -> pm_cache m <> None ->
  below_size (pm_loaded m) (pm_rounds m) (pm_magsize m) = true -> keep s s1 -> names_cache cp (mag_at p b) m ->
  magazines ok w s1 (buf :: bin_values (mc_cookie (mcfg s)) p b ++ held_pair (mc_cookie (mcfg s)) m ++ out) ->
  exists m', ptc_mag_push (mc_cookie (mcfg s)) m buf = Ok m' /\ class_after cp b w s s1 p (set_mag b m' p) out.
Proof.
  intros Hp Hb H1 H2 H3 H4 H5 H6. destruct (pair_push (mc_cookie (mcfg s)) m buf H1 H2 H3) as (m' & E & P1 & P2 & P3).
  exists m'. split; [done|]. apply class_after_mag; [done..|unfold names_cache; by rewrite P3|].
  eapply (magazines_out ok); [|exact H6]. rewrite P2. simpl. by rewrite <- Permutation_middle.
Qed.

(** Both magazines are full: the last part of the free path. *)
Lemma flush_store cp b w s p m buf out :
  ptc_ok p -> (b < PTC_NBINS)%nat -> pair_ok m -> pm_cache m <> None -> names_cache cp (mag_at p b) m ->
  magazines ok w s (buf :: bin_values (mc_cookie (mcfg s)) p b ++ held_pair (mc_cookie (mcfg s)) m ++ out) ->
  exists w' s' p' (stored : bool),
    (do (w, s1, m) <- ptc_mag_donate w s m;
     do (w, s1, emp) <- ptc_empty_mag w s1;
     match emp with
     | Some emp =>
         let m := ptc_mag_load emp 0 m in
         do _ <- umem_ptc_mag_check m;
         do m <- ptc_mag_push (mc_cookie (mcfg s)) m buf;
         Ok (w, s1, set_busy false (set_mag b m p), true)
     | None => Ok (w, s1, set_busy false (set_mag b m p), false)
     end) = Ok (w', s', p', stored) /\ class_after cp b w' s s' p p' ((if stored then [] else [buf]) ++ out).
Proof.
  intros Hp Hb Hm Hca Hn Hmag. set (ck := mc_cookie (mcfg s)) in *.
  destruct (donate_run w s m (buf :: bin_values ck p b ++ out) Hm Hca) as (w1 & s1 & m1 & -> & D1 & D2 & D3 & D4 & D5).
  { eapply (magazines_out ok); [|exact Hmag]. fold ck. simpl. rewrite <- Permutation_middle. f_equiv. aac_reflexivity. }
  cbn [res_bind]. fold ck in D5.
  destruct (empty_mag_run w1 s1 _ D5) as (w2 & s2 & emp & -> & E1 & E2 & E3). cbn [res_bind].
  assert (Hk : keep s s2) by (by eapply keep_trans).
  assert (Hn1 : names_cache cp (mag_at p b) m1) by (unfold names_cache; by rewrite D3).
  pose proof D1 as (_ & Dp & _). destruct emp as [emp|].
  - pose proof (capacity_pos emp E3) as Hcap.
    destruct (load_pair ck emp 0 m1) as [L1 L2]; [done|lia|by rewrite D3|done|].
    rewrite (pair_check _ L1). cbn [res_bind].
    destruct (mag_store cp b w2 s s2 p (ptc_mag_load emp 0 m1) buf out Hp Hb L1) as (m' & E & H); try done.
    + simpl. by rewrite D3.
    + simpl. by apply Z.ltb_lt.
    + fold ck. rewrite L2, contents_le0 by lia. eapply (magazines_out ok); [|exact E1].
      unfold held_pair. rewrite D4. simpl. rewrite <- Permutation_middle. f_equiv. aac_reflexivity.
    + fold ck in E |- *. rewrite E. cbn [res_bind]. eexists _, _, _, true. split; [done|]. by apply class_after_busy.
  - eexists _, _, _, false. split; [done|]. apply class_after_busy, class_after_mag; try done.
    eapply (magazines_out ok); [|exact E1]. fold ck. cbn [app]. solve_Permutation.
Qed.

Lemma free_fast_run cp w s p b buf out :
  ptc_ok p -> (b < PTC_NBINS)%nat -> magazines ok w s (buf :: class_held (mc_cookie (mcfg s)) p b ++ out) ->
  exists w' s' p' (stored : bool), ptc_free_fast cp w s p b buf = Ok (w', s', p', stored) /\
    class_after cp b w' s s' p p' ((if stored then [] else [buf]) ++ out).
Proof.
  intros Hp Hb Hm. unfold ptc_free_fast. set (ck := mc_cookie (mcfg s)) in *.
  destruct (Z.ltb_spec (bin_count (bin_at p b)) (Z.of_nat (ptc_bin_capacity b))) as [Hc|Hc].
  { destruct (slot_push_run ck p b buf Hp Hb Hc) as (p' & -> & Hst & Hh & Hmag & _). cbn [res_bind].
    eexists _, _, _, true. split; [done|]. split; [done|]. split; [apply keep_refl|]. unfold names_cache.
    rewrite Hmag. split; [|by left]. fold ck. rewrite Hh. exact Hm. }
  destruct (pair_own ck cp _ (pk_pair _ Hp b Hb)) as (Ho1 & Ho2 & Ho3). pose proof (own_cache cp (mag_at p b)) as Ho4.
  unfold class_held in Hm. rewrite <- Ho2, <- app_assoc in Hm. set (m := ptc_mag_own cp (mag_at p b)) in *.
  destruct (below_size (pm_loaded m) _ _) eqn:El.
  { destruct (mag_store cp b w s s p m buf out Hp Hb Ho1 Ho3 El (keep_refl s) Ho4 Hm) as (m' & E & H).
    fold ck in E. rewrite E. cbn [res_bind]. eexists _, _, _, true. by split. }
  destruct (below_size (pm_previous m) _ _) eqn:Ep.
  { destruct (pair_swap ck m Ho1) as [Hs1 Hs2].
    destruct (mag_store cp b w s s p (ptc_mag_swap m) buf out Hp Hb Hs1 Ho3 Ep (keep_refl s) Ho4) as (m' & E & H).
    { fold ck. by rewrite Hs2. }
    fold ck in E. rewrite E. cbn [res_bind]. eexists _, _, _, true. split; [done|]. by apply class_after_busy. }
  destruct (flush_store cp b w s p m buf out Hp Hb Ho1 Ho3 Ho4 Hm) as (w' & s' & p' & stored & E & H).
  by exists w', s', p', stored.
Qed.

(** ** Returning a class *)

Lemma pair_flush_run w s m out :
  pair_ok m -> magazines ok w s (held_pair (mc_cookie (mcfg s)) m ++ out) ->
  exists w' s' m', ptc_mag_flush w s m = Ok (w', s', m') /\ magazines ok w' s' out /\ keep s s' /\ pair_ok m' /\
    held_pair (mc_cookie (mcfg s)) m' = [] /\ pm_cache m' = pm_cache m.
Proof.
  intros (H1 & H2 & H3) Hmag. unfold ptc_mag_flush. unfold held_pair in Hmag. rewrite <- app_assoc in Hmag.
  assert (exists w1 s1 m1, match pm_loaded m with
      | None => Ok (w, s, m)
      | Some mp => do (w, s) <- umem_ptc_mag_return w s MLFull mp (pm_rounds m);
          Ok (w, s, PtcMag None (pm_previous m) 0 (pm_prounds m) (pm_magsize m) (pm_pmagsize m) (pm_cache m))
      end = Ok (w1, s1, m1) /\ keep s s1 /\
      magazines ok w1 s1 (held_mag (mc_cookie (mcfg s)) (pm_previous m) (pm_prounds m) ++ out) /\
      pm_loaded m1 = None /\ pm_rounds m1 = 0 /\ 0 <= pm_magsize m1 /\ pm_previous m1 = pm_previous m /\
      pm_prounds m1 = pm_prounds m /\ pm_pmagsize m1 = pm_pmagsize m /\ pm_cache m1 = pm_cache m)
    as (w1 & s1 & m1 & -> & Hk1 & Hm1 & E1 & E2 & E3 & E4 & E5 & E6 & E7).
  { destruct (pm_loaded m) as [mp|] eqn:El.
    - destruct (half_return _ w s MLFull mp _ _ _ depot_free_push H1 Hmag) as (w' & s' & E & Hm' & Hk).
      unfold umem_ptc_mag_return. rewrite E. cbn [res_bind]. pose proof (half_rounds _ _ _ H1).
      eexists _, _, _. split; [done|]. split_and!; try done. simpl. lia.
    - destruct H1. eexists _, _, _. split; [done|]. by split_and!. }
  cbn [res_bind]. rewrite E4, E5. replace (mcfg s) with (mcfg s1) in * by (by destruct Hk1 as (-> & _)).
  destruct (pm_previous m) as [mp|] eqn:Ep.
  - destruct (half_return _ w1 s1 MLFull mp _ _ _ depot_free_push H2 Hm1) as (w' & s' & E & Hm' & Hk).
    unfold umem_ptc_mag_return. rewrite E. cbn [res_bind]. eexists _, _, _. split; [done|]. split; [done|].
    split; [by eapply keep_trans|]. rewrite E1, E2, E6, E7. pose proof (half_rounds _ _ _ H2).
    split; [|done]. split; [by split|]. split; [simpl; lia|done].
  - destruct H2. eexists _, _, _. split; [done|]. split; [done|]. split; [done|]. split; [|split; [|done]].
    + split; rewrite ?E1, ?E2, ?E4, ?E5, ?E6; [by split|]. by split.
    + unfold held_pair. by rewrite E1, E4.
Qed.

Lemma demangle_run ck p first n :
  (first + n <= length (ptc_pool p))%nat ->
  exists pool, demangle_in_place ck p first n = set_pool pool p /\ length pool = length (ptc_pool p) /\
    (forall i, (first <= i < first + n)%nat -> pool !!! i = slot_value ck p i) /\
    (forall i, (i < first \/ first + n <= i)%nat -> pool !!! i = ptc_pool p !!! i).
Proof using Type.
  revert p first. induction n as [|n IH]; intros p first Hl; simpl.
  - exists (ptc_pool p). split; [by destruct p|]. split_and!; try done. intros. lia.
  - destruct (IH (set_pool (<[first := slot_value ck p first]> (ptc_pool p)) p) (S first)) as (pool & -> & H1 & H2 & H3).
    { simpl. rewrite length_insert. lia. }
    exists pool. split; [done|]. simpl in H1. rewrite length_insert in H1. split; [done|]. split.
    + intros i Hi. destruct (decide (i = first)) as [->|Hne].
      * rewrite H3 by lia. simpl. apply list_lookup_total_insert_eq. lia.
      * rewrite H2 by lia. unfold slot_value. simpl. by rewrite list_lookup_total_insert_ne by lia.
    + intros i Hi. rewrite H3 by lia. simpl. by rewrite list_lookup_total_insert_ne by lia.
Qed.

Lemma take_drop_values {A} `{Inhabited A} (l : list A) f first n :
  (first + n <= length l)%nat -> (forall i, (i < n)%nat -> l !!! (first + i)%nat = f i) ->
  take n (drop first l) = f <$> seq 0 n.
Proof using Type.
  intros Hl Hf. apply list_eq. intros i. destruct (decide (i < n)%nat) as [Hi|Hi].
  - rewrite lookup_take_lt, lookup_drop by done. rewrite list_lookup_fmap, lookup_seq_lt by done. simpl.
    rewrite <- Hf by done. apply list_lookup_lookup_total_lt. lia.
  - rewrite lookup_take_ge by lia. symmetry. apply lookup_ge_None_2. rewrite length_fmap, length_seq. lia.
Qed.

Lemma bin_flush_all_run w s p b out :
  ptc_ok p -> (b < PTC_NBINS)%nat -> magazines ok w s (class_held (mc_cookie (mcfg s)) p b ++ out) ->
  exists w' s' p', ptc_bin_flush_all w s p b = Ok (w', s', p') /\ class_step (mc_cookie (mcfg s)) b p p' /\ keep s s' /\
    bin_count (bin_at p' b) = 0 /\ mag_at p' b = mag_at p b /\
    magazines ok w' s' (held_pair (mc_cookie (mcfg s)) (mag_at p b) ++ out).
Proof.
  intros Hp Hb Hm. unfold ptc_bin_flush_all. set (ck := mc_cookie (mcfg s)) in *.
  pose proof (pk_bin _ Hp b Hb) as [Es Hc]. pose proof (capacity_bound b) as Hcap.
  assert (Hfit : (bin_offset b + ptc_bin_capacity b <= length (ptc_pool p))%nat).
  { rewrite (pk_pool _ Hp). pose proof (bin_fits b (ptc_bin_capacity b - 1) Hb). lia. }
  unfold class_held in Hm. rewrite <- app_assoc in Hm.
  destruct (Z.eqb_spec (bin_count (bin_at p b)) 0) as [E0|E0].
  { exists w, s, p. split; [done|]. split; [by split|]. split; [apply keep_refl|]. do 2 (split; [done|]).
    unfold bin_values in Hm. rewrite E0 in Hm. exact Hm. }
  destruct (demangle_run ck p (bin_slots (bin_at p b)) (Z.to_nat (bin_count (bin_at p b)))) as (pool & -> & P1 & P2 & P3).
  { rewrite Es. lia. }
  cbn [ptc_pool set_pool]. rewrite (take_drop_values pool (fun i => slot_value ck p (bin_slots (bin_at p b) + i))).
  2:{ rewrite Es, P1. lia. } 2:{ intros i Hi. apply P2. lia. }
  change ((fun i => _) <$> seq 0 _) with (bin_values ck p b).
  destruct (free_batch_run w s _ _ Hm) as (w' & s' & -> & Hm' & Hk). cbn [res_bind].
  assert (El : Z.of_nat (length (bin_values ck p b)) = bin_count (bin_at p b))
    by (unfold bin_values; rewrite length_fmap, length_seq; lia).
  rewrite El, Z.eqb_refl, Z.sub_diag, Es. change (0 mod 2 ^ 16) with 0. eexists _, _, _. split; [done|].
  change (set_bin b ?x (set_pool pool p)) with (set_pool pool (set_bin b x p)).
  split; [|split; [done|split; [|done]]].
  - apply set_bin_step; [done..|split; [done|simpl; lia]|done|].
    intros c i Hcn Hne Hi. apply P3. rewrite Es. destruct (Nat.lt_gt_cases b c) as [[H|H] _]; [done|..].
    + pose proof (bin_offset_le (S b) c H) as Hle. rewrite bin_offset_S in Hle. lia.
    + pose proof (bin_offset_le (S c) b H) as Hle. rewrite bin_offset_S in Hle. lia.
  - change (bin_count (bin_at (set_bin b (PtcBin (bin_offset b) 0) p) b) = 0).
    rewrite bin_at_set by (by rewrite (pk_bins _ Hp)). by rewrite decide_True.
Qed.

Lemma pop_and_free_run n w s p b out :
  ptc_ok p -> (b < PTC_NBINS)%nat -> Z.of_nat n <= bin_count (bin_at p b) ->
  magazines ok w s (class_held (mc_cookie (mcfg s)) p b ++ out) ->
  exists w' s' p', pop_and_free n w s p b = Ok (w', s', p') /\ class_step (mc_cookie (mcfg s)) b p p' /\ keep s s' /\
    bin_count (bin_at p' b) = bin_count (bin_at p b) - Z.of_nat n /\ mag_at p' b = mag_at p b /\
    magazines ok w' s' (class_held (mc_cookie (mcfg s)) p' b ++ out).
Proof.
  revert w s p. induction n as [|n IH]; intros w s p Hp Hb Hn Hm; cbn [pop_and_free].
  { exists w, s, p. split_and!; try done. simpl. lia. }
  destruct (slot_pop_run (mc_cookie (mcfg s)) p b Hp Hb ltac:(lia)) as (p1 & v & -> & S1 & Hh & Hmag & Hcnt).
  cbn [res_bind]. destruct (free_run ok w s v (class_held (mc_cookie (mcfg s)) p1 b ++ out)) as (w1 & s1 & -> & Hm1 & Hk1).
  { by rewrite Hh in Hm. }
  cbn [res_bind]. assert (Ec : mcfg s1 = mcfg s) by (by destruct Hk1 as (-> & _)). rewrite <- Ec in Hm1.
  destruct (IH w1 s1 p1 (cs_ok _ _ _ _ S1) Hb ltac:(lia) Hm1) as (w' & s' & p' & -> & S2 & Hk2 & C2 & M2 & Hm2).
  rewrite Ec in S2, Hm2. eexists _, _, _. split; [done|]. split; [by eapply class_step_trans|].
  split; [by eapply keep_trans|]. split; [lia|]. split; [congruence|done].
Qed.

Lemma refill_run_loop fuel umf n w s p b out :
  (0 < fuel)%nat -> mc_null (mcfg s) = false -> has umf UMF_CHECKNULL = false ->
  ptc_ok p -> (b < PTC_NBINS)%nat -> bin_count (bin_at p b) + Z.of_nat n <= Z.of_nat (ptc_bin_capacity b) ->
  magazines ok w s (class_held (mc_cookie (mcfg s)) p b ++ out) ->
  exists w' s' p' i, refill_loop fuel umf n w s p b = Ok (w', s', p', i) /\ class_step (mc_cookie (mcfg s)) b p p' /\
    keep s s' /\ bin_count (bin_at p' b) = bin_count (bin_at p b) + Z.of_nat i /\ (i <= n)%nat /\
    mag_at p' b = mag_at p b /\ magazines ok w' s' (class_held (mc_cookie (mcfg s)) p' b ++ out).
Proof.
  intros Hf Hnull Hchk. revert w s p Hnull. induction n as [|n IH]; intros w s p Hnull Hp Hb Hn Hm; cbn [refill_loop].
  { exists w, s, p, 0%nat. split_and!; try done. simpl. lia. }
  pose proof (alloc_cases ok fuel umf w s UMEM_DEFAULT _ Hnull Hchk Hm) as Ha.
  destruct (_umem_cache_alloc fuel umf w s UMEM_DEFAULT) as [[[w1 s1] v]|]; simpl in Ha.
  2:{ destruct Ha; [lia|done]. }
  destruct Ha as [Hk1 Ha]. assert (Ec : mcfg s1 = mcfg s) by (by destruct Hk1 as (-> & _)). cbn [res_bind].
  destruct Ha as [(-> & _ & Hm1)|[Hv Hm1]].
  { exists w1, s1, p, 0%nat. split_and!; try done; simpl; lia. }
  rewrite (proj2 (Z.eqb_neq _ _) Hv), Ec.
  destruct (slot_push_run (mc_cookie (mcfg s)) p b v Hp Hb ltac:(lia)) as (p1 & -> & S1 & Hh & Hmag & Hcnt).
  cbn [res_bind]. assert (Hm2 : magazines ok w1 s1 (class_held (mc_cookie (mcfg s1)) p1 b ++ out)).
  { rewrite Ec. by rewrite Hh. }
  destruct (IH w1 s1 p1 ltac:(by rewrite Ec) (cs_ok _ _ _ _ S1) Hb ltac:(lia) Hm2)
    as (w' & s' & p' & i & -> & S2 & Hk2 & C2 & Hi & M2 & Hm3).
  rewrite Ec in S2, Hm3. cbn [res_bind]. eexists _, _, _, _. split; [done|]. split; [by eapply class_step_trans|].
  split; [by eapply keep_trans|]. split; [lia|]. split; [lia|]. split; [congruence|done].
Qed.
End classes.
