(* ===== verification/PtcReg.v ===== *)
(** * The registry of per-thread caches

    The doubly linked list of live caches of umem_ptc.c, link by link:
    [umem_ptc_register], [umem_ptc_unregister] and the walk of the fork child,
    which empties the list of every cache but the surviving thread's.  The
    links represent a list, and the operations add to its front and remove
    from it. *)
From S2P Require Import Prelude.

Record reg_node := RegNode { reg_next : Z; reg_prev : Z; reg_owner : Z }.
#[global] Instance reg_node_inhabited : Inhabited reg_node := populate (RegNode 0 0 0).

(** [umem_ptc_list] and the linkage of the structures, by address; 0 is NULL. *)
Record registry := Registry { umem_ptc_list : Z; reg_nodes : gmap Z reg_node }.

Definition node (r : registry) (a : Z) : reg_node := reg_nodes r !!! a.
Definition put_node (a : Z) (n : reg_node) (r : registry) : registry :=
  Registry (umem_ptc_list r) (<[a := n]> (reg_nodes r)).
Definition set_next (a v : Z) (r : registry) : registry :=
  let n := node r a in put_node a (RegNode v (reg_prev n) (reg_owner n)) r.
Definition set_prev (a v : Z) (r : registry) : registry :=
  let n := node r a in put_node a (RegNode (reg_next n) v (reg_owner n)) r.
Definition set_head (v : Z) (r : registry) : registry := Registry v (reg_nodes r).

Definition umem_ptc_register (ptc : Z) (r : registry) : registry :=
  let r := set_prev ptc 0 r in
  let r := set_next ptc (umem_ptc_list r) r in
  let r := if negb (umem_ptc_list r =? 0) then set_prev (umem_ptc_list r) ptc r else r in
  set_head ptc r.

Definition umem_ptc_unregister (ptc : Z) (r : registry) : registry :=
  let r := if negb (reg_prev (node r ptc) =? 0) then set_next (reg_prev (node r ptc)) (reg_next (node r ptc)) r
           else if umem_ptc_list r =? ptc then set_head (reg_next (node r ptc)) r else r in
  let r := if negb (reg_next (node r ptc) =? 0) then set_prev (reg_next (node r ptc)) (reg_prev (node r ptc)) r else r in
  set_next ptc 0 (set_prev ptc 0 r).

(** The walk of [umem_ptc_fork_release_child]: the caches of the threads that
    did not survive, in the order they are visited; [fuel] bounds the walk. *)
Fixpoint fork_walk (fuel : nat) (self p : Z) (r : registry) : result (registry * list Z) :=
  if p =? 0 then Ok (r, []) else
  match fuel with
  | O => Panic "fork_walk: fuel"
  | S fuel =>
      let next := reg_next (node r p) in
      let r := set_next p 0 (set_prev p 0 r) in
      if reg_owner (node r p) =? self then
        let r := set_next p (umem_ptc_list r) r in
        let r := if negb (umem_ptc_list r =? 0) then set_prev (umem_ptc_list r) p r else r in
        fork_walk fuel self next (set_head p r)
      else
        do (r, orphans) <- fork_walk fuel self next r;
        Ok (r, p :: orphans)
  end.
Definition fork_release_child_walk (fuel : nat) (self : Z) (r : registry) : result (registry * list Z) :=
  fork_walk fuel self (umem_ptc_list r) (set_head 0 r).

(** ** The list the links represent *)

(** A segment: the first node's predecessor is [p], the last one's successor
    is [n]. *)
Fixpoint seg (r : registry) (p : Z) (l : list Z) (n : Z) : Prop :=
  match l with
  | [] => True
  | x :: l => reg_prev (node r x) = p /\ reg_next (node r x) = default n (head l) /\ seg r x l n
  end.
Record reg_list (r : registry) (l : list Z) : Prop := RegList {
  rl_head : umem_ptc_list r = default 0 (head l);
  rl_seg : seg r 0 l 0;
  rl_nodup : NoDup l;
  rl_nonnull : 0 ∉ l;
}.

(** A structure that is not registered. *)
Definition unlinked (r : registry) (x : Z) : Prop := reg_prev (node r x) = 0 /\ reg_next (node r x) = 0.

Lemma node_put a n r b : node (put_node a n r) b = if decide (a = b) then n else node r b.
Proof.
  unfold node. simpl. case_decide as E.
  - subst b. by rewrite lookup_total_insert_eq.
  - by rewrite lookup_total_insert_ne.
Qed.
Lemma node_head v r b : node (set_head v r) b = node r b.
Proof. done. Qed.
Lemma node_next a v r b :
  node (set_next a v r) b = if decide (a = b) then RegNode v (reg_prev (node r a)) (reg_owner (node r a)) else node r b.
Proof. apply node_put. Qed.
Lemma node_prev a v r b :
  node (set_prev a v r) b = if decide (a = b) then RegNode (reg_next (node r a)) v (reg_owner (node r a)) else node r b.
Proof. apply node_put. Qed.
Lemma head_next a v r : umem_ptc_list (set_next a v r) = umem_ptc_list r.
Proof. done. Qed.
Lemma head_prev a v r : umem_ptc_list (set_prev a v r) = umem_ptc_list r.
Proof. done. Qed.
Create Rewrite HintDb reg.
#[export] Hint Rewrite node_head node_next node_prev head_next head_prev : reg.
Ltac links := repeat (autorewrite with reg; simpl; repeat case_decide; subst; simpl; try done).

Lemma seg_ext r r' p l n : (forall x, x ∈ l -> node r' x = node r x) -> seg r p l n -> seg r' p l n.
Proof.
  revert p. induction l as [|x l IH]; intros p H; [done|]. intros (H1 & H2 & H3). simpl.
  rewrite H by (left). split_and!; try done. apply IH; [|done]. intros y Hy. apply H. by right.
Qed.

Lemma default_last p (y : Z) l : default p (last (y :: l)) = default y (last l).
Proof. destruct l as [|z l]; [done|]. cbn [last]. destruct (last (z :: l)) eqn:E; [done|]. by apply last_None in E. Qed.
Lemma seg_cons r p x l n :
  seg r p (x :: l) n <-> reg_prev (node r x) = p /\ reg_next (node r x) = default n (head l) /\ seg r x l n.
Proof. done. Qed.

Lemma seg_app r p l1 x l2 n :
  seg r p (l1 ++ x :: l2) n <-> seg r p l1 x /\ seg r (default p (last l1)) (x :: l2) n.
Proof.
  revert p. induction l1 as [|y l1 IH]; intros p; [simpl; tauto|].
  change ((y :: l1) ++ x :: l2) with (y :: l1 ++ x :: l2). rewrite !seg_cons, IH, default_last, seg_cons.
  replace (default n (head (l1 ++ x :: l2))) with (default x (head l1)) by (by destruct l1). tauto.
Qed.

(** Only the ends of a segment depend on what follows it and precedes it. *)
Lemma seg_next_end r r' p l n n' :
  NoDup l -> seg r p l n ->
  (forall x, x ∈ l -> reg_prev (node r' x) = reg_prev (node r x)) ->
  (forall x, x ∈ l -> last l <> Some x -> reg_next (node r' x) = reg_next (node r x)) ->
  (forall x, last l = Some x -> reg_next (node r' x) = n') ->
  seg r' p l n'.
Proof.
  revert p. induction l as [|x l IH]; intros p Hn; [done|]. intros (H1 & H2 & H3) Hp Hm Hl.
  apply NoDup_cons in Hn as [Hx Hn]. split; [rewrite Hp; [done|left]|]. split.
  - destruct l as [|y l]; [by apply Hl|]. rewrite Hm; [done|left|]. intros E. apply Hx.
    change (last (y :: l) = Some x) in E. apply last_Some in E as [l' ->]. apply elem_of_app. right. left.
  - apply IH; try done.
    + intros y Hy. apply Hp. by right.
    + intros y Hy Hne. apply Hm; [by right|]. destruct l; [by apply elem_of_nil in Hy|done].
    + intros y Hy. apply Hl. destruct l; done.
Qed.

(** ** The operations *)

Lemma seg_new_first r r' p p' x l n :
  seg r p (x :: l) n -> reg_prev (node r' x) = p' -> reg_next (node r' x) = reg_next (node r x) ->
  (forall y, y ∈ l -> node r' y = node r y) -> seg r' p' (x :: l) n.
Proof.
  intros (H1 & H2 & H3) Hp Hn Hy. split; [done|]. split; [congruence|]. by eapply seg_ext.
Qed.

Lemma register_list x r l : reg_list r l -> x ∉ l -> x <> 0 -> reg_list (umem_ptc_register x r) (x :: l).
Proof.
  intros [Hh Hs Hn Hz] Hx Hx0. unfold umem_ptc_register. autorewrite with reg.
  split; [done| |by constructor|set_solver]. rewrite Hh. destruct l as [|y l]; apply seg_cons.
  - split_and!; links.
  - apply not_elem_of_cons in Hz as [Hy Hz]. apply not_elem_of_cons in Hx as [Hxy Hx].
    apply NoDup_cons in Hn as [Hyl Hn]. cbn [head default from_option id]. rewrite (proj2 (Z.eqb_neq y 0)) by done. cbn [negb].
    split; [links|]. split; [links|]. eapply seg_new_first; [exact Hs|links..|]. intros z Hz'. links.
Qed.

(** The two halves of unlinking [x] from between [l1] and [l2]. *)
Definition unlink_prev (x : Z) (r : registry) : registry :=
  if negb (reg_prev (node r x) =? 0) then set_next (reg_prev (node r x)) (reg_next (node r x)) r
  else if umem_ptc_list r =? x then set_head (reg_next (node r x)) r else r.
Definition unlink_next (x : Z) (r : registry) : registry :=
  if negb (reg_next (node r x) =? 0) then set_prev (reg_next (node r x)) (reg_prev (node r x)) r else r.
Lemma unregister_eq x r : umem_ptc_unregister x r = set_next x 0 (set_prev x 0 (unlink_next x (unlink_prev x r))).
Proof. done. Qed.

Lemma unlink_prev_run r l1 x l2 :
  reg_list r (l1 ++ x :: l2) ->
  umem_ptc_list (unlink_prev x r) = default 0 (head (l1 ++ l2)) /\
  forall z, node (unlink_prev x r) z =
    if decide (last l1 = Some z) then RegNode (default 0 (head l2)) (reg_prev (node r z)) (reg_owner (node r z))
    else node r z.
Proof.
  intros [Hh Hs Hn Hz]. apply seg_app in Hs as [_ (Hp & Hnx & _)]. unfold unlink_prev. rewrite Hp, Hnx, Hh.
  destruct (last l1) as [a|] eqn:Ea; simpl.
  - pose proof (proj1 (last_Some _ _) Ea) as [l' ->].
    rewrite (proj2 (Z.eqb_neq a 0)) by (intros ->; apply Hz; set_solver). cbn [negb]. split.
    + rewrite head_next, Hh. by destruct l'.
    + intros z. rewrite node_next. repeat case_decide; congruence.
  - apply last_None in Ea as ->. simpl. rewrite Z.eqb_refl. split; [done|]. intros z. by rewrite node_head.
Qed.

Lemma unlink_next_run r r1 l1 x l2 :
  reg_list r (l1 ++ x :: l2) -> (forall z, last l1 <> Some z -> node r1 z = node r z) ->
  umem_ptc_list (unlink_next x r1) = umem_ptc_list r1 /\
  forall z, node (unlink_next x r1) z =
    if decide (head l2 = Some z) then RegNode (reg_next (node r1 z)) (default 0 (last l1)) (reg_owner (node r1 z))
    else node r1 z.
Proof.
  intros [Hh Hs Hn Hz] H1. apply seg_app in Hs as [_ (Hp & Hnx & _)]. unfold unlink_next.
  assert (Hx : node r1 x = node r x).
  { apply H1. intros E. apply last_Some in E as [l' ->]. apply NoDup_app in Hn as (_ & Hd & _). apply (Hd x); set_solver. }
  rewrite Hx, Hp, Hnx. destruct l2 as [|c l2]; simpl; [done|].
  rewrite (proj2 (Z.eqb_neq c 0)) by (intros ->; apply Hz; set_solver). cbn [negb]. split; [done|].
  intros z. rewrite node_prev. repeat case_decide; congruence.
Qed.

Lemma unregister_list x r l1 l2 :
  reg_list r (l1 ++ x :: l2) ->
  reg_list (umem_ptc_unregister x r) (l1 ++ l2) /\ unlinked (umem_ptc_unregister x r) x.
Proof.
  intros Hr. pose proof Hr as [_ Hs Hn Hz]. destruct (unlink_prev_run r l1 x l2 Hr) as [A1 A2].
  destruct (unlink_next_run r (unlink_prev x r) l1 x l2 Hr) as [B1 B2].
  { intros z Hne. rewrite A2. by rewrite decide_False. }
  rewrite unregister_eq. set (r2 := unlink_next x (unlink_prev x r)) in *.
  apply seg_app in Hs as [S1 S2]. pose proof Hn as (Hn1 & Hd & Hn2)%NoDup_app. apply NoDup_cons in Hn2 as [Hx2 Hn2].
  split; [|unfold unlinked; rewrite node_next, decide_True by done; simpl; by rewrite node_prev, decide_True].
  split; [by rewrite head_next, head_prev, B1| | |].
  - assert (Hnode : forall z, z ∈ l1 ++ l2 -> node (set_next x 0 (set_prev x 0 r2)) z = node r2 z).
    { intros z Hz'. assert (x <> z) by (intros ->; set_solver).
      by rewrite node_next, decide_False, node_prev, decide_False by done. }
    eapply seg_ext; [exact Hnode|].
    assert (Hh2 : forall z, z ∈ l1 -> head l2 <> Some z).
    { intros z Hz' E. destruct l2; [done|]. injection E as ->. apply (Hd z); set_solver. }
    assert (Q1 : seg r2 0 l1 (default 0 (head l2))).
    { eapply seg_next_end; [done|exact S1|..].
      - intros z Hz'. rewrite B2, decide_False, A2 by auto. by case_decide.
      - intros z Hz' Hne. by rewrite B2, decide_False, A2, decide_False by auto.
      - intros z E. assert (z ∈ l1) by (apply last_Some in E as [l' ->]; set_solver).
        by rewrite B2, decide_False, A2, decide_True by auto. }
    destruct S2 as (_ & _ & S2). destruct l2 as [|c l2]; [by rewrite app_nil_r|].
    apply seg_app. split; [done|]. assert (Hl1 : forall z, z ∈ c :: l2 -> last l1 <> Some z).
    { intros z Hz' E. apply last_Some in E as [l' ->]. apply (Hd z); set_solver. }
    apply NoDup_cons in Hn2 as [Hc _].
    eapply seg_new_first; [exact S2|rewrite B2, decide_True by done; done| |].
    + by rewrite B2, decide_True, A2, decide_False by (done || apply Hl1; left).
    + intros z Hz'. assert (c <> z) by set_solver. rewrite B2, decide_False, A2, decide_False; [done|apply Hl1; by right|].
      simpl. congruence.
  - apply NoDup_app. split; [done|]. split; [|done]. intros z Hz1 Hz2. apply (Hd z); [done|by right].
  - set_solver.
Qed.

(** ** The fork child's walk *)

(** The successors of what is left to visit. *)
Fixpoint chain (r : registry) (l : list Z) : Prop :=
  match l with [] => True | x :: l => reg_next (node r x) = default 0 (head l) /\ chain r l end.

Lemma chain_next r r' l : (forall x, x ∈ l -> reg_next (node r' x) = reg_next (node r x)) -> chain r l -> chain r' l.
Proof.
  induction l as [|x l IH]; [done|]. intros H [H1 H2]. split; [rewrite H; [done|left]|].
  apply IH; [|done]. intros y Hy. apply H. by right.
Qed.
Lemma seg_chain r p l : seg r p l 0 -> chain r l.
Proof. revert p. induction l as [|x l IH]; intros p; [done|]. intros (_ & H1 & H2). split; [done|by eapply IH]. Qed.

Lemma filter_ext_in {A} (f g : A -> bool) l : (forall x, x ∈ l -> f x = g x) -> List.filter f l = List.filter g l.
Proof.
  induction l as [|x l IH]; intros H; [done|]. simpl. rewrite H by left.
  rewrite IH; [done|]. intros y Hy. apply H. by right.
Qed.

(** Both branches of the walk clear the links of the structure visited. *)
Lemma cleared_list r p l0 : reg_list r l0 -> p ∉ l0 -> reg_list (set_next p 0 (set_prev p 0 r)) l0.
Proof.
  intros [Hh Hs Hn Hz] Hp. split; [done| |done|done]. eapply seg_ext; [|exact Hs]. intros x Hx.
  assert (p <> x) by (intros ->; done). by rewrite node_next, decide_False, node_prev, decide_False by done.
Qed.

(** Relinking the surviving thread's cache is registering it again. *)
Lemma relink_register p r :
  let r1 := set_next p 0 (set_prev p 0 r) in
  set_head p (if negb (umem_ptc_list r1 =? 0) then set_prev (umem_ptc_list r1) p (set_next p (umem_ptc_list r1) r1)
              else set_next p (umem_ptc_list r1) r1) = umem_ptc_register p r1.
Proof.
  intros r1. assert (E : set_prev p 0 r1 = r1); [|unfold umem_ptc_register; by rewrite E].
  unfold r1. unfold set_prev at 1. rewrite node_next, decide_True by done. unfold set_next, put_node. simpl.
  rewrite !insert_insert_eq. by rewrite node_prev, decide_True by done.
Qed.

Lemma register_other p x r : x <> p -> reg_next (node (umem_ptc_register p r) x) = reg_next (node r x) /\
  reg_owner (node (umem_ptc_register p r) x) = reg_owner (node r x).
Proof.
  intros Hx. unfold umem_ptc_register. rewrite node_head, !head_next, !head_prev.
  assert (E : node (set_next p (umem_ptc_list r) (set_prev p 0 r)) x = node r x)
    by (by rewrite node_next, decide_False, node_prev, decide_False by done).
  destruct (negb _); [|by rewrite E]. rewrite node_prev. case_decide as Eh; [|by rewrite E]. subst x. simpl. by rewrite E.
Qed.

Lemma walk_run l fuel self r l0 :
  (length l <= fuel)%nat -> NoDup (l ++ l0) -> 0 ∉ l -> chain r l -> reg_list r l0 ->
  exists r', fork_walk fuel self (default 0 (head l)) r = Ok (r', List.filter (fun x => negb (reg_owner (node r x) =? self)) l) /\
    reg_list r' (rev (List.filter (fun x => reg_owner (node r x) =? self) l) ++ l0).
Proof.
  revert fuel r l0. induction l as [|p l IH]; intros fuel r l0 Hf Hn Hz Hc Hl.
  { exists r. by destruct fuel. }
  destruct fuel as [|fuel]; [simpl in Hf; lia|]. apply not_elem_of_cons in Hz as [Hp0 Hz].
  rewrite <- app_comm_cons in Hn. pose proof Hn as [Hp Hn']%NoDup_cons.
  apply not_elem_of_app in Hp as [Hpl Hpl0]. destruct Hc as [Hc1 Hc2].
  cbn [fork_walk head default from_option id List.filter]. rewrite (proj2 (Z.eqb_neq p 0)) by done. rewrite Hc1.
  pose proof (relink_register p r) as Hrel. cbv zeta in Hrel |- *. set (r1 := set_next p 0 (set_prev p 0 r)) in *.
  assert (Hr1 : forall x, x ∈ l -> node r1 x = node r x).
  { intros x Hx. assert (p <> x) by (by intros ->). unfold r1. by rewrite node_next, decide_False, node_prev, decide_False by done. }
  assert (Ho : reg_owner (node r1 p) = reg_owner (node r p))
    by (unfold r1; rewrite node_next, decide_True by done; simpl; by rewrite node_prev, decide_True).
  assert (Hl1 : reg_list r1 l0) by (by apply cleared_list). rewrite Ho.
  assert (Hfil : forall r2 (f : bool -> bool), (forall x, x ∈ l -> reg_owner (node r2 x) = reg_owner (node r x)) ->
    List.filter (fun x => f (reg_owner (node r2 x) =? self)) l = List.filter (fun x => f (reg_owner (node r x) =? self)) l).
  { intros r2 f H. apply filter_ext_in. intros x Hx. by rewrite H. }
  destruct (Z.eqb_spec (reg_owner (node r p)) self) as [Es|Es]; cbn [negb].
  - rewrite !head_next in *. rewrite Hrel. set (r2 := umem_ptc_register p r1).
    assert (Hr2 : forall x, x ∈ l -> reg_next (node r2 x) = reg_next (node r x) /\ reg_owner (node r2 x) = reg_owner (node r x)).
    { intros x Hx. rewrite <- (Hr1 x Hx). apply register_other. by intros ->. }
    destruct (IH fuel r2 (p :: l0)) as (r' & E & H).
    + simpl in Hf. lia.
    + by rewrite <- Permutation_middle.
    + done.
    + eapply chain_next; [|exact Hc2]. intros x Hx. by apply Hr2.
    + by apply register_list.
    + exists r'. rewrite (Hfil r2 negb) in E by (intros; by apply Hr2). split; [done|].
      rewrite (Hfil r2 (fun b => b)) in H by (intros; by apply Hr2). simpl. by rewrite <- app_assoc.
  - destruct (IH fuel r1 l0) as (r' & E & H); [simpl in Hf; lia|done|done|eapply chain_next; [|exact Hc2]; intros; by rewrite Hr1|done|].
    rewrite (Hfil r1 negb) in E by (intros; by rewrite Hr1). rewrite E. cbn [res_bind]. exists r'. split; [done|].
    by rewrite (Hfil r1 (fun b => b)) in H by (intros; by rewrite Hr1).
Qed.
