(* ===== verification/FrontModel.v ===== *)
(** * The front end: umem_alloc and umem_free

    [_umem_alloc], [_umem_zalloc] and [_umem_free] of umem.c over the size
    classes, the per-thread cache, the magazine layers of the caches and the
    oversize arena; [umem_ptc_get], [umem_ptc_destroy], the out-of-line
    [umem_ptc_alloc] and [umem_ptc_free], and the fork child of umem_ptc.c.

    A cache is named by its address [cp]; its magazine layer is the state of
    [MagModel] and its environment [fe_cache cp].  The state is that of one
    running thread: what other threads hold is, for it, held by clients. *)
From S2P Require Import Prelude Machine SlabModel AllocSizes MagModel MagOps PtcModel PtcTables PtcPool PtcReg.

(** What lies beside the caches. *)
Class front_env (W : Type) := {
  fe_cache : Z -> mag_env W;                        (* 0 is NULL: no cache *)
  fe_ptc_alloc : W -> W * option (Z * list Z);      (* umem_cache_alloc (umem_ptc_cache): address, old pool *)
  fe_ptc_free : W -> Z -> W;
  fe_setspecific : W -> W * bool;                   (* true: pthread_setspecific succeeded *)
  fe_self : W -> Z;                                 (* pthread_self *)
  fe_hooks_on : W -> bool;                          (* UMEM_HOOKS_ON *)
  fe_hook_alloc : W -> Z -> Z -> W;                 (* umem_hook_alloc (buf, size) *)
  fe_hook_free : W -> Z -> Z -> W;
  fe_tag : W -> Z -> Z -> Z -> W;                   (* the size encoded in buf's buftag *)
  fe_redzone_ok : W -> Z -> Z -> Z -> result (W * bool);
  fe_bzero : W -> Z -> Z -> W;
  fe_oversize_ready : W -> W * bool;                (* umem_oversize_arena is there, or umem_init makes it *)
  fe_oversize_alloc : W -> Z -> Z -> result (W * Z);
  fe_oversize_free : W -> Z -> Z -> result W;
  fe_log_failure : W -> Z -> W;
}.

Record front := Front {
  fr_cookie : Z;                                    (* umem_link_cookie *)
  fr_ptc : ptc_globals;
  fr_table : list Z;                                (* umem_alloc_table *)
  fr_mags : gmap Z mags;                            (* the caches of the table *)
  thread_ptc : option umem_ptc;
  ptc_initializing : bool;
  ptc_initializing_free : bool;
  fr_registry : registry;
}.
Definition set_fmags v (h : front) : front :=
  Front (fr_cookie h) (fr_ptc h) (fr_table h) v (thread_ptc h) (ptc_initializing h) (ptc_initializing_free h) (fr_registry h).
Definition set_thread v (h : front) : front :=
  Front (fr_cookie h) (fr_ptc h) (fr_table h) (fr_mags h) v (ptc_initializing h) (ptc_initializing_free h) (fr_registry h).
Definition set_initializing v (h : front) : front :=
  Front (fr_cookie h) (fr_ptc h) (fr_table h) (fr_mags h) (thread_ptc h) v (ptc_initializing_free h) (fr_registry h).
Definition set_initializing_free v (h : front) : front :=
  Front (fr_cookie h) (fr_ptc h) (fr_table h) (fr_mags h) (thread_ptc h) (ptc_initializing h) v (fr_registry h).
Definition set_registry v (h : front) : front :=
  Front (fr_cookie h) (fr_ptc h) (fr_table h) (fr_mags h) (thread_ptc h) (ptc_initializing h) (ptc_initializing_free h) v.

(** A table read and a cache dereferenced. *)
Definition read {A} (what : string) (o : option A) : result A :=
  match o with Some x => Ok x | None => Panic what end.
Definition alloc_index (size : Z) : Z := Z.shiftr (wsub size 1) UMEM_ALIGN_SHIFT.
Definition index_in_table (size : Z) : bool := alloc_index size <? Z.shiftr UMEM_MAXBUF UMEM_ALIGN_SHIFT.

Section ops.
Context {W : Type} {fe : front_env W}.

(** ** A thread's cache *)

Definition umem_ptc_get (w : W) (h : front) : result (W * front * option umem_ptc) :=
  if negb (umem_ptc_enabled (fr_ptc h)) then Ok (w, h, None) else
  match thread_ptc h with
  | Some p => Ok (w, h, Some p)
  | None =>
      let '(w, mem) := fe_ptc_alloc w in
      match mem with
      | None => Ok (w, h, None)
      | Some (addr, pool) =>
          let '(bins, q) := carve PTC_NBINS 0 0 in
          let p := Ptc addr bins (replicate PTC_NBINS (PtcMag None None 0 0 0 0 None)) false 0 pool in
          let h := set_registry (put_node addr (RegNode 0 0 0) (fr_registry h)) h in
          if negb (q =? PTC_TOTAL_SLOTS)%nat then Panic "umem_ptc_get: assertion" else
          let h := set_thread (Some p) h in
          let '(w, kept) := if ptc_key_initialized (fr_ptc h) then fe_setspecific w else (w, true) in
          if negb kept then Ok (fe_ptc_free w addr, set_thread None h, None)
          else
            let p := set_owner (fe_self w) p in
            let r := put_node addr (RegNode 0 0 (fe_self w)) (fr_registry h) in
            Ok (w, set_registry (umem_ptc_register addr r) (set_thread (Some p) h), Some p)
      end
  end.

(** [umem_alloc_table[(size - 1) >> UMEM_ALIGN_SHIFT]]. *)
Definition cache_for (h : front) (size : Z) : result Z :=
  read "umem_alloc_table overrun" (table_cache (fr_table h) size).
(** Run an operation of the magazine layer of [cp]. *)
Definition on_cache {A} (h : front) (cp : Z) (f : mag_env W -> mags -> result (W * mags * A)) : result (W * front * A) :=
  do s <- read "null cache" (fr_mags h !! cp);
  do (w, s, x) <- f (fe_cache cp) s;
  Ok (w, set_fmags (<[cp := s]> (fr_mags h)) h, x).

(** [umem_ptc_bin_flush_impl] with [all] and without. *)
Definition umem_ptc_bin_flush_all (w : W) (h : front) (p : umem_ptc) (b : nat) : result (W * front * umem_ptc) :=
  if bin_count (bin_at p b) =? 0 then Ok (w, h, p) else
  do cp <- cache_for h (umem_ptc_bin_size (Z.of_nat b));
  if cp =? 0 then Ok (w, h, p) else on_cache h cp (fun env s => ptc_bin_flush_all w s p b).
Definition umem_ptc_bin_flush (w : W) (h : front) (p : umem_ptc) (b : nat) : result (W * front * umem_ptc) :=
  if bin_count (bin_at p b) =? 0 then Ok (w, h, p) else
  do cp <- cache_for h (umem_ptc_bin_size (Z.of_nat b));
  if cp =? 0 then Ok (w, h, p) else on_cache h cp (fun env s => ptc_bin_flush_half w s p b).

Fixpoint mag_flush_loop (bins : list nat) (w : W) (h : front) (p : umem_ptc) : result (W * front * umem_ptc) :=
  match bins with
  | [] => Ok (w, h, p)
  | b :: bins =>
      match pm_cache (mag_at p b) with
      | None => mag_flush_loop bins w h p
      | Some cp =>
          do (w, h, m) <- on_cache h cp (fun env s => ptc_mag_flush w s (mag_at p b));
          mag_flush_loop bins w h (set_mag b m p)
      end
  end.
Definition umem_ptc_mag_flush_all := mag_flush_loop (seq 0 PTC_NBINS).

Fixpoint bin_flush_loop (bins : list nat) (w : W) (h : front) (p : umem_ptc) : result (W * front * umem_ptc) :=
  match bins with
  | [] => Ok (w, h, p)
  | b :: bins =>
      if bin_count (bin_at p b) =? 0 then bin_flush_loop bins w h p
      else do (w, h, p) <- umem_ptc_bin_flush_all w h p b; bin_flush_loop bins w h p
  end.

(** The structure as it is when it is freed. *)
Definition umem_ptc_destroy (w : W) (h : front) (p : umem_ptc) : result (W * front * umem_ptc) :=
  do (w, h, p) <- umem_ptc_mag_flush_all w h p;
  do (w, h, p) <- bin_flush_loop (seq 0 PTC_NBINS) w h p;
  Ok (fe_ptc_free w (ptc_addr p), h, p).

(** Thread exit. *)
Definition umem_ptc_cleanup (w : W) (h : front) : result (W * front) :=
  match thread_ptc h with
  | None => Ok (w, h)
  | Some p =>
      let h := set_registry (umem_ptc_unregister (ptc_addr p) (fr_registry h)) h in
      do (w, h, _) <- umem_ptc_destroy w h p;
      Ok (w, set_thread None h)
  end.

(** ** The out-of-line interface *)

(** [false] is -1. *)
Definition umem_ptc_bin_refill (fuel : nat) (umf : Z) (w : W) (h : front) (p : umem_ptc) (b : nat) (size : Z) :
    result (W * front * umem_ptc * bool) :=
  let bin_idx := umem_ptc_size_to_bin (fr_ptc h) size in
  if bin_idx <? 0 then Ok (w, h, p, false) else
  do cp <- cache_for h size;
  if cp =? 0 then Ok (w, h, p, false) else
  do (w, h, r) <- on_cache h cp (fun env s =>
    do (w, s, p, i) <- refill_loop fuel umf (ptc_bin_capacity (Z.to_nat bin_idx) / 2) w s p b; Ok (w, s, (p, i)));
  Ok (w, h, r.1, (0 <? r.2)%nat).

(** 0 is NULL. *)
Definition umem_ptc_alloc (fuel : nat) (umf : Z) (w : W) (h : front) (size : Z) : result (W * front * Z) :=
  if negb (umem_ptc_enabled (fr_ptc h)) then Ok (w, h, 0) else
  let bin := umem_ptc_size_to_bin (fr_ptc h) size in
  if bin <? 0 then Ok (w, h, 0) else
  do (w, h, p) <- umem_ptc_get w h;
  match p with
  | None => Ok (w, h, 0)
  | Some p =>
      let b := Z.to_nat bin in
      do (w, h, p, some) <-
        (if 0 <? bin_count (bin_at p b) then Ok (w, h, p, true)
         else
           do (w, h, p, filled) <- umem_ptc_bin_refill fuel umf w h p b (umem_ptc_bin_size bin);
           Ok (w, h, p, filled && (0 <? bin_count (bin_at p b))));
      if some : bool then
        do (p, ptr) <- ptc_slot_pop (fr_cookie h) p b;
        Ok (w, set_thread (Some p) h, ptr)
      else Ok (w, set_thread (Some p) h, 0)
  end.

(** [true] is 0: the object is cached. *)
Definition umem_ptc_free (w : W) (h : front) (ptr size : Z) : result (W * front * bool) :=
  if negb (umem_ptc_enabled (fr_ptc h)) || (ptr =? 0) then Ok (w, h, false) else
  let bin := umem_ptc_size_to_bin (fr_ptc h) size in
  if bin <? 0 then Ok (w, h, false) else
  do (w, h, p) <- umem_ptc_get w h;
  match p with
  | None => Ok (w, h, false)
  | Some p =>
      let b := Z.to_nat bin in
      let room (p : umem_ptc) := bin_count (bin_at p b) <? Z.of_nat (ptc_bin_capacity b) in
      do (w, h, p) <- (if room p then Ok (w, h, p) else umem_ptc_bin_flush w h p b);
      if room p then
        do p <- ptc_slot_push (fr_cookie h) p b ptr;
        Ok (w, set_thread (Some p) h, true)
      else Ok (w, set_thread (Some p) h, false)
  end.

(** ** Fork *)

Definition drop_pair (m : umem_ptc_mag) : umem_ptc_mag :=
  let top (mp : option umem_magazine) (rounds : Z) :=
    match mp with Some _ => if 0 <? rounds then rounds - 1 else rounds | None => rounds end in
  PtcMag (pm_loaded m) (pm_previous m) (top (pm_loaded m) (pm_rounds m)) (top (pm_previous m) (pm_prounds m))
    (pm_magsize m) (pm_pmagsize m) (pm_cache m).
(** The top entry of every bin and magazine is forgotten. *)
Definition drop_tops (p : umem_ptc) : umem_ptc :=
  Ptc (ptc_addr p)
    ((fun x => PtcBin (bin_slots x) (if 0 <? bin_count x then bin_count x - 1 else bin_count x)) <$> ptc_bins p)
    (drop_pair <$> ptc_mags p) (fork_busy p) (ptc_owner p) (ptc_pool p).

(** The caches of the threads that did not survive, [mem] being the memory of
    the structures at the fork. *)
Fixpoint drain_orphans (orphans : list Z) (mem : gmap Z umem_ptc) (w : W) (h : front) : result (W * front) :=
  match orphans with
  | [] => Ok (w, h)
  | a :: orphans =>
      do p <- read "no such structure" (mem !! a);
      do (w, h) <- (if fork_busy p then Ok (w, h)
                    else do (w, h, _) <- umem_ptc_destroy w h (drop_tops p); Ok (w, h));
      drain_orphans orphans mem w h
  end.
Definition umem_ptc_fork_release_child (fuel : nat) (mem : gmap Z umem_ptc) (w : W) (h : front) : result (W * front) :=
  do (r, orphans) <- fork_release_child_walk fuel (fe_self w) (fr_registry h);
  drain_orphans orphans mem w (set_registry r h).

(** ** umem_alloc *)

Definition alloc_ptc (w : W) (h : front) : result (W * front * option umem_ptc) :=
  match thread_ptc h with
  | Some p => Ok (w, h, Some p)
  | None =>
      if ptc_initializing h then Ok (w, h, None)
      else do (w, h, p) <- umem_ptc_get w (set_initializing true h); Ok (w, set_initializing false h, p)
  end.
Definition free_ptc (w : W) (h : front) : result (W * front * option umem_ptc) :=
  match thread_ptc h with
  | Some p => Ok (w, h, Some p)
  | None =>
      if ptc_initializing_free h then Ok (w, h, None)
      else do (w, h, p) <- umem_ptc_get w (set_initializing_free true h); Ok (w, set_initializing_free false h, p)
  end.

(** [umem_alloc_retry (cp, umflag)]; [cp] is NULL for the oversize arena. *)
Definition front_retry (umf : Z) (w : W) (h : front) (cp umflag : Z) : result (W * bool) :=
  let null := match fr_mags h !! cp with Some s => mc_null (mcfg s) | None => false end in
  umem_alloc_retry (env := fe_cache cp) w null umf umflag.

(** [_umem_cache_alloc], then the size in the buftag of a debugging cache. *)
Definition tagged_alloc (fuel : nat) (umf : Z) (w : W) (h : front) (cp size umflag : Z) : result (W * front * Z) :=
  do (w, h, buf) <- on_cache h cp (fun env s => _umem_cache_alloc fuel umf w s umflag);
  let tagged := match fr_mags h !! cp with Some s => has (mc_flags (mcfg s)) UMF_BUFTAG | None => false end in
  Ok (if tagged && negb (buf =? 0) then fe_tag w cp buf size else w, h, buf).

(** The two sources of [umem_alloc_hooked]; the failed request's cache, 0 for
    the oversize arena. *)
Definition hooked_source (fuel : nat) (umf : Z) (w : W) (h : front) (size umflag : Z) : result (W * front * Z * Z) :=
  if index_in_table size then
    do cp <- cache_for h size;
    do (w, h, buf) <- tagged_alloc fuel umf w h cp size umflag; Ok (w, h, buf, cp)
  else
    do (w, buf) <- fe_oversize_alloc w size umflag;
    Ok (if buf =? 0 then fe_log_failure w size else w, h, buf, 0).
Fixpoint umem_alloc_hooked (n fuel : nat) (umf : Z) (w : W) (h : front) (size umflag : Z) : result (W * front * Z) :=
  match n with
  | O => Panic "umem_alloc_hooked: fuel"
  | S n =>
      do (w, h, buf, cp) <- hooked_source fuel umf w h size umflag;
      do (w, again) <- (if buf =? 0 then front_retry umf w h cp umflag else Ok (w, false));
      if again : bool then umem_alloc_hooked n fuel umf w h size umflag
      else Ok (fe_hook_alloc w buf size, h, buf)
  end.

(** The fast path of one pass; [None]: the magazine layer has to serve. *)
Definition alloc_from_ptc (w : W) (h : front) (cp : Z) (bin : Z) : result (W * front * option Z) :=
  do (w, h, p) <- alloc_ptc w h;
  match p with
  | None => Ok (w, h, None)
  | Some p =>
      do (w, h, r) <- on_cache h cp (fun env s =>
        do (w, s, p, got) <- ptc_alloc_fast cp w s p (Z.to_nat bin); Ok (w, s, (p, got)));
      Ok (w, set_thread (Some r.1) h, r.2)
  end.

(** [n] bounds the passes from the label [umem_alloc_retry], [fuel] those of
    the magazine layer. *)
Fixpoint _umem_alloc (n fuel : nat) (umf : Z) (w : W) (h : front) (size umflag : Z) : result (W * front * Z) :=
  match n with
  | O => Panic "_umem_alloc: fuel"
  | S n =>
      let retry w h cp :=
        do (w, again) <- front_retry umf w h cp umflag;
        if again : bool then _umem_alloc n fuel umf w h size umflag else Ok (w, h, 0) in
      if index_in_table size then
        do cp <- cache_for h size;
        do bin <- read "umem_ptc_bin_table overrun" (umem_ptc_bin_table (fr_ptc h) !! Z.to_nat (alloc_index size));
        if (bin <? 0) && fe_hooks_on w then umem_alloc_hooked (S n) fuel umf w h size umflag else
        do (w, h, got) <- (if bin <? 0 then Ok (w, h, None) else alloc_from_ptc w h cp bin);
        match got with
        | Some buf => Ok (w, h, buf)
        | None =>
            do (w, h, buf) <- tagged_alloc fuel umf w h cp size umflag;
            if buf =? 0 then retry w h cp else Ok (w, h, buf)
        end
      else if size =? 0 then Ok (w, h, 0)
      else
        let '(w, ready) := fe_oversize_ready w in
        if negb ready then Ok (w, h, 0)
        else if fe_hooks_on w then umem_alloc_hooked (S n) fuel umf w h size umflag
        else
          do (w, buf) <- fe_oversize_alloc w size umflag;
          if buf =? 0 then retry (fe_log_failure w size) h 0 else Ok (w, h, buf)
  end.

(** The size class is always served by the magazine layer. *)
Fixpoint _umem_zalloc (n fuel : nat) (umf : Z) (w : W) (h : front) (size umflag : Z) : result (W * front * Z) :=
  match n with
  | O => Panic "_umem_zalloc: fuel"
  | S n =>
      if index_in_table size then
        do cp <- cache_for h size;
        do (w, h, buf) <- tagged_alloc fuel umf w h cp size umflag;
        if buf =? 0 then
          do (w, again) <- front_retry umf w h cp umflag;
          if again : bool then _umem_zalloc n fuel umf w h size umflag else Ok (w, h, 0)
        else
          let w := fe_bzero w buf size in
          Ok (if fe_hooks_on w then fe_hook_alloc w buf size else w, h, buf)
      else
        do (w, h, buf) <- _umem_alloc (S n) fuel umf w h size umflag;
        Ok (if buf =? 0 then w else fe_bzero w buf size, h, buf)
  end.

(** ** umem_free *)

Definition is_tagged (h : front) (cp : Z) : bool :=
  match fr_mags h !! cp with Some s => has (mc_flags (mcfg s)) UMF_BUFTAG | None => false end.

(** [_umem_cache_free] after the check of the buftag. *)
Definition checked_free (w : W) (h : front) (cp buf size : Z) (hook : bool) : result (W * front) :=
  do (w, good) <- (if is_tagged h cp then fe_redzone_ok w cp buf size else Ok (w, true));
  if negb good then Ok (w, h) else
  let w := if hook then fe_hook_free w buf size else w in
  do (w, h, _) <- on_cache h cp (fun env s => do (w, s) <- _umem_cache_free w s buf; Ok (w, s, ()));
  Ok (w, h).
Definition free_to_ptc (w : W) (h : front) (cp bin buf : Z) : result (W * front * bool) :=
  do (w, h, p) <- free_ptc w h;
  match p with
  | None => Ok (w, h, false)
  | Some p =>
      do (w, h, r) <- on_cache h cp (fun env s =>
        do (w, s, p, stored) <- ptc_free_fast cp w s p (Z.to_nat bin) buf; Ok (w, s, (p, stored)));
      Ok (w, set_thread (Some r.1) h, r.2)
  end.

Definition _umem_free (w : W) (h : front) (buf size : Z) : result (W * front) :=
  if buf =? 0 then Ok (w, h)
  else if index_in_table size then
    do cp <- cache_for h size;
    do bin <- read "umem_ptc_bin_table overrun" (umem_ptc_bin_table (fr_ptc h) !! Z.to_nat (alloc_index size));
    if bin <? 0 then checked_free w h cp buf size (fe_hooks_on w)
    else
      do (w, h, stored) <- free_to_ptc w h cp bin buf;
      if stored : bool then Ok (w, h) else checked_free w h cp buf size false
  else
    let w := if fe_hooks_on w then fe_hook_free w buf size else w in
    do w <- fe_oversize_free w buf size; Ok (w, h).
End ops.
