(* ===== verification/FrontInv.v ===== *)
(** * The front end: where the objects are

    The interface [front_laws] of what the front end stands on (every cache's
    slab layer and magazine caches, the oversize arena), the invariant of its
    state, and the steps of one size class lifted to it.  Every object a cache
    has handed out is in its magazine layer, in this thread's cache, or with
    the clients [out]; oversize buffers are listed in [big]. *)
From S2P Require Import Prelude Machine SlabModel AllocSizes MagModel MagOps MagInv MagSpec MagLoops MagRefine MagBatch.
From S2P Require Import PtcModel PtcTables PtcPool PtcClass PtcReg FrontModel.

Definition upd (cp : Z) (A : list Z) (F : Z -> list Z) : Z -> list Z := fun x => if decide (x = cp) then A else F x.
Lemma upd_eq cp A F : upd cp A F cp = A.
Proof. unfold upd. by rewrite decide_True. Qed.
Lemma upd_ne cp A F x : x <> cp -> upd cp A F x = F x.
Proof. intros. unfold upd. by rewrite decide_False. Qed.

(** [ok w F big]: cache [cp]'s slab layer has handed out the objects [F cp],
    the oversize arena the buffers [big]. *)
Class front_laws (W : Type) {fe : front_env W} (ok : W -> (Z -> list Z) -> list (Z * Z) -> Prop) := {
  fl_ext w F G big big' : (forall cp, F cp ≡ₚ G cp) -> big ≡ₚ big' -> ok w F big -> ok w G big';
  fl_cache cp F big : mag_source_laws W (env := fe_cache cp) (fun w A => ok w (upd cp A F) big);
  fl_apart w F big cp1 cp2 b : ok w F big -> b ∈ F cp1 -> b ∈ F cp2 -> cp1 = cp2;
  fl_ptc_alloc w F big : ok w F big -> ok (fe_ptc_alloc w).1 F big;
  fl_ptc_new w addr pool : (fe_ptc_alloc w).2 = Some (addr, pool) -> addr <> 0 /\ length pool = PTC_TOTAL_SLOTS;
  fl_ptc_free w F big a : ok w F big -> ok (fe_ptc_free w a) F big;
  fl_setspecific w F big : ok w F big -> ok (fe_setspecific w).1 F big;
  fl_hook_alloc w F big b n : ok w F big -> ok (fe_hook_alloc w b n) F big;
  fl_hook_free w F big b n : ok w F big -> ok (fe_hook_free w b n) F big;
  fl_bzero w F big b n : ok w F big -> ok (fe_bzero w b n) F big;
  fl_log w F big n : ok w F big -> ok (fe_log_failure w n) F big;
  fl_ready w F big : ok w F big -> ok (fe_oversize_ready w).1 F big;
  fl_oversize_alloc w F big n umflag : ok w F big -> UMEM_MAXBUF < n ->
    exists w' b, fe_oversize_alloc w n umflag = Ok (w', b) /\ ((b = 0 /\ ok w' F big) \/ (b <> 0 /\ ok w' F ((b, n) :: big)));
  fl_oversize_free w F big b n : ok w F ((b, n) :: big) -> exists w', fe_oversize_free w b n = Ok w' /\ ok w' F big;
}.
#[export] Existing Instance fl_cache.

(** ** Shape *)

(** The cache whose objects bin [b] holds. *)
Definition bin_cache (h : front) (b : nat) : option Z := table_cache (fr_table h) (umem_ptc_bin_size (Z.of_nat b)).

Definition cache_ok (h : front) (s : mags) : Prop :=
  mags_ok s /\ untagged s /\ mc_cookie (mcfg s) = fr_cookie h /\ mc_null (mcfg s) = false.
Record shape (h : front) : Prop := Shape {
  sh_table : Z.of_nat (length (fr_table h)) = 16384;
  sh_bins : Z.of_nat (length (umem_ptc_bin_table (fr_ptc h))) = 16384;
  sh_cache cp : cp ∈ fr_table h -> cp <> 0 /\ is_Some (fr_mags h !! cp);
  sh_bin idx cp bin : fr_table h !! idx = Some cp -> umem_ptc_bin_table (fr_ptc h) !! idx = Some bin -> 0 <= bin ->
    bin < 36 /\ bin_cache h (Z.to_nat bin) = Some cp;
  sh_mags cp s : fr_mags h !! cp = Some s -> cache_ok h s;
}.

(** A thread's cache over these caches. *)
Record thread_ok (h : front) (p : umem_ptc) : Prop := ThreadOk {
  th_ptc : ptc_ok p;
  th_cache b : (b < PTC_NBINS)%nat -> pm_cache (mag_at p b) = None \/ pm_cache (mag_at p b) = bin_cache h b;
  th_unused b : (b < PTC_NBINS)%nat -> bin_cache h b = None -> class_held (fr_cookie h) p b = [];
}.

(** ** Ownership *)

Definition held_of (h : front) (cp : Z) : list Z := match fr_mags h !! cp with Some s => held s | None => [] end.
Definition bin_part (h : front) (p : umem_ptc) (cp : Z) (b : nat) : list Z :=
  if decide (bin_cache h b = Some cp) then class_held (fr_cookie h) p b else [].
(** The objects of cache [cp] in a thread's cache. *)
Definition ptc_part (h : front) (p : umem_ptc) (cp : Z) : list Z := seq 0 PTC_NBINS ≫= bin_part h p cp.

Definition plus (F G : Z -> list Z) : Z -> list Z := fun cp => F cp ++ G cp.

Section inv.
Context {W : Type} {fe : front_env W} (ok : W -> (Z -> list Z) -> list (Z * Z) -> Prop) {laws : front_laws W ok}.

Definition base_ok (w : W) (h : front) (out : Z -> list Z) (big : list (Z * Z)) : Prop :=
  shape h /\ ok w (plus (held_of h) out) big.
Definition heap_ok (w : W) (h : front) (p : umem_ptc) (out : Z -> list Z) (big : list (Z * Z)) : Prop :=
  thread_ok h p /\ base_ok w h (plus (ptc_part h p) out) big.
Definition front_ok (w : W) (h : front) (out : Z -> list Z) (big : list (Z * Z)) : Prop :=
  match thread_ptc h with None => base_ok w h out big | Some p => heap_ok w h p out big end.

Lemma base_ext w h out out' big :
  (forall cp, out cp ≡ₚ out' cp) -> base_ok w h out big -> base_ok w h out' big.
Proof.
  intros E [H1 H2]. split; [done|]. eapply fl_ext; [|done|exact H2]. intros cp. unfold plus. by rewrite E.
Qed.

Lemma base_w w w' h out big : (forall F big, ok w F big -> ok w' F big) -> base_ok w h out big -> base_ok w' h out big.
Proof using Type. intros H [H1 H2]. split; [done|]. by apply H. Qed.

(** The environment of one cache, the others as they are. *)
Definition ok_at (cp : Z) (F : Z -> list Z) (big : list (Z * Z)) (w : W) (A : list Z) : Prop := ok w (upd cp A F) big.
#[global] Instance ok_at_laws cp F big : mag_source_laws W (env := fe_cache cp) (ok_at cp F big) := fl_cache cp F big.

(** The magazine layer of [cp] within the invariant. *)
Lemma base_magazines w h out big cp s :
  base_ok w h out big -> fr_mags h !! cp = Some s ->
  magazines (ok_at cp (plus (held_of h) out) big) w s (out cp).
Proof.
  intros [Hs Hok] Hcp. destruct (sh_mags _ Hs _ _ Hcp) as (H1 & H2 & _). do 2 (split; [done|]).
  unfold ok_at. eapply fl_ext; [|done|exact Hok]. intros x. unfold upd, plus. case_decide; [|done].
  subst x. unfold held_of. by rewrite Hcp.
Qed.

Definition with_cache (cp : Z) (s : mags) (h : front) : front := set_fmags (<[cp := s]> (fr_mags h)) h.

Lemma shape_cache h cp s s' :
  shape h -> fr_mags h !! cp = Some s -> mags_ok s' -> keep s s' -> shape (with_cache cp s' h).
Proof using Type.
  intros [H1 H2 H3 H4 H5] Hcp Hs' Hk. split; try done; simpl.
  - intros x Hx. destruct (H3 x Hx) as [? ?]. split; [done|]. rewrite lookup_insert_is_Some'. by right.
  - intros x t. rewrite lookup_insert_Some. intros [[<- <-]|[? Hx]]; [|by eapply H5].
    destruct (H5 _ _ Hcp) as (_ & Hu & Hc & Hn). split; [done|]. split; [by eapply untagged_keep|].
    destruct Hk as (-> & _). done.
Qed.

Lemma magazines_base w h out big cp s s' out' :
  base_ok w h out big -> fr_mags h !! cp = Some s -> keep s s' ->
  forall w', magazines (ok_at cp (plus (held_of h) out) big) w' s' out' ->
  base_ok w' (with_cache cp s' h) (upd cp out' out) big.
Proof.
  intros [Hs Hok] Hcp Hk w' (H1 & H2 & H3). split; [by eapply shape_cache|].
  eapply fl_ext; [|done|exact H3]. intros x. unfold upd, plus, held_of. simpl.
  destruct (decide (x = cp)) as [->|Hne].
  - by rewrite lookup_insert_eq.
  - by rewrite lookup_insert_ne by done.
Qed.

(** Running an operation of one cache. *)
Lemma on_cache_run {A} w h out big cp (f : mag_env W -> mags -> result (W * mags * A)) (out' : A -> list Z) (Q : A -> Prop) :
  base_ok w h out big -> cp ∈ fr_table h ->
  (forall s, fr_mags h !! cp = Some s -> cache_ok h s ->
     magazines (ok_at cp (plus (held_of h) out) big) w s (out cp) ->
     exists w' s' x, f (fe_cache cp) s = Ok (w', s', x) /\ keep s s' /\ Q x /\
       magazines (ok_at cp (plus (held_of h) out) big) w' s' (out' x)) ->
  exists w' s' x, on_cache h cp f = Ok (w', with_cache cp s' h, x) /\ Q x /\
    base_ok w' (with_cache cp s' h) (upd cp (out' x) out) big.
Proof.
  intros Hb Hcp Hf. pose proof Hb as [Hs _]. destruct (sh_cache _ Hs cp Hcp) as [_ [s Es]].
  destruct (Hf s Es (sh_mags _ Hs _ _ Es) (base_magazines w h out big cp s Hb Es)) as (w' & s' & x & E & Hk & HQ & Hm).
  exists w', s', x. unfold on_cache. rewrite Es. cbn [read res_bind]. rewrite E. cbn [res_bind]. split; [done|].
  split; [done|]. by eapply magazines_base.
Qed.

(** ** One class of a thread's cache *)

Lemma bin_cache_eq h h' b : fr_table h' = fr_table h -> bin_cache h' b = bin_cache h b.
Proof using Type. unfold bin_cache. by intros ->. Qed.

Lemma ptc_part_at h p cp b :
  (b < PTC_NBINS)%nat -> bin_cache h b = Some cp ->
  exists R, ptc_part h p cp ≡ₚ class_held (fr_cookie h) p b ++ R /\
    forall p', class_step (fr_cookie h) b p p' -> ptc_part h p' cp ≡ₚ class_held (fr_cookie h) p' b ++ R.
Proof using Type.
  intros Hb Hc. assert (Es : seq 0 PTC_NBINS = seq 0 b ++ b :: seq (S b) (PTC_NBINS - S b)).
  { replace PTC_NBINS with (b + S (PTC_NBINS - S b))%nat at 1 by lia. by rewrite seq_app. }
  assert (Hpart : forall q, bin_part h q cp b = class_held (fr_cookie h) q b)
    by (intros q; unfold bin_part; by rewrite decide_True).
  exists ((seq 0 b ≫= bin_part h p cp) ++ (seq (S b) (PTC_NBINS - S b) ≫= bin_part h p cp)). unfold ptc_part. rewrite Es.
  split; [rewrite bind_app, bind_cons, Hpart; solve_Permutation|].
  intros p' Hst. rewrite bind_app, bind_cons, Hpart.
  assert (Hoth : forall l, (forall c, c ∈ l -> c <> b /\ (c < PTC_NBINS)%nat) -> l ≫= bin_part h p' cp = l ≫= bin_part h p cp).
  { intros l Hl. induction l as [|c l IH]; [done|]. rewrite !bind_cons, IH by (intros; apply Hl; by right). f_equal.
    destruct (Hl c ltac:(left)). unfold bin_part. by rewrite (cs_held _ _ _ _ Hst). }
  rewrite !Hoth; [solve_Permutation|..]; intros c Hin; apply elem_of_seq in Hin; lia.
Qed.

Lemma ptc_part_other h p p' b cp cp' :
  class_step (fr_cookie h) b p p' -> bin_cache h b = Some cp -> cp' <> cp -> ptc_part h p' cp' = ptc_part h p cp'.
Proof using Type.
  intros Hst Hb Hne. unfold ptc_part.
  assert (Hall : forall c, c ∈ seq 0 PTC_NBINS -> bin_part h p' cp' c = bin_part h p cp' c).
  { intros c Hc. apply elem_of_seq in Hc. unfold bin_part. case_decide as E; [|done].
    apply (cs_held _ _ _ _ Hst); [lia|]. intros ->. congruence. }
  revert Hall. generalize (seq 0 PTC_NBINS). intros l Hl. induction l as [|c l IH]; [done|].
  rewrite !bind_cons, Hl by left. f_equal. apply IH. intros. apply Hl. by right.
Qed.

Lemma thread_with_cache cp s h p : thread_ok h p -> thread_ok (with_cache cp s h) p.
Proof using Type. intros []. by split. Qed.

Lemma thread_step h p p' b cp :
  thread_ok h p -> bin_cache h b = Some cp -> class_step (fr_cookie h) b p p' ->
  names_cache cp (mag_at p b) (mag_at p' b) -> thread_ok h p'.
Proof using Type.
  intros [H1 H2 H3] Hb Hst Hn. split; [apply Hst|..].
  - intros c Hc. destruct (decide (c = b)) as [->|Hne]; [|rewrite (cs_mag _ _ _ _ Hst) by done; by apply H2].
    destruct Hn as [->|[_ ->]]; [by apply H2|right; by rewrite Hb].
  - intros c Hc Hn'. rewrite (cs_held _ _ _ _ Hst) by (done || congruence). by apply H3.
Qed.

(** An operation on class [b] of the thread's cache takes the objects [X] from
    the clients and gives them [g x]. *)
Lemma heap_class_run {A} w h p out big cp b (f : mag_env W -> mags -> result (W * mags * (umem_ptc * A))) X Y (g : A -> list Z) (Q : umem_ptc -> A -> Prop) :
  heap_ok w h p out big -> (b < PTC_NBINS)%nat -> bin_cache h b = Some cp -> cp ∈ fr_table h -> out cp ≡ₚ X ++ Y ->
  (forall s F R, cache_ok h s -> magazines (ok_at cp F big) w s (X ++ class_held (fr_cookie h) p b ++ R) ->
     exists w' s' p' x, f (fe_cache cp) s = Ok (w', s', (p', x)) /\ Q p' x /\
       class_after (ok_at cp F big) cp b w' s s' p p' (g x ++ R)) ->
  exists w' s' p' x, on_cache h cp f = Ok (w', with_cache cp s' h, (p', x)) /\
    heap_ok w' (with_cache cp s' h) p' (upd cp (g x ++ Y) out) big /\ class_step (fr_cookie h) b p p' /\ Q p' x.
Proof.
  intros [Ht Hb] Hbn Hbc Hcp Hout Hf. destruct (ptc_part_at h p cp b Hbn Hbc) as (R & HR1 & HR2).
  destruct (on_cache_run w h (plus (ptc_part h p) out) big cp f
    (fun x => class_held (fr_cookie h) x.1 b ++ g x.2 ++ R ++ Y)
    (fun x => class_step (fr_cookie h) b p x.1 /\ names_cache cp (mag_at p b) (mag_at x.1 b) /\ Q x.1 x.2) Hb Hcp)
    as (w' & s' & [p' x] & E & (Hst & Hn & HQ) & Hb').
  - intros s Es Hc Hm. pose proof Hc as (_ & _ & Eck & _).
    destruct (Hf s (plus (held_of h) (plus (ptc_part h p) out)) (R ++ Y) Hc) as (w' & s' & p' & x & E & HQ & S1 & S2 & S3 & S4).
    { eapply (magazines_out (env := fe_cache cp) (ok_at cp _ big)); [|exact Hm]. unfold plus. rewrite HR1, Hout. solve_Permutation. }
    rewrite Eck in S1, S3. exists w', s', (p', x). by split_and!.
  - exists w', s', p', x. split; [done|]. simpl in Hst, Hn, HQ. split; [|done]. split.
    + apply thread_with_cache. by eapply thread_step.
    + eapply base_ext; [|exact Hb']. intros y. unfold plus. destruct (decide (y = cp)) as [->|Hne].
      * rewrite !upd_eq. simpl. change (ptc_part (with_cache cp s' h)) with (ptc_part h). rewrite (HR2 p' Hst). solve_Permutation.
      * rewrite !upd_ne by done. change (ptc_part (with_cache cp s' h)) with (ptc_part h).
        by rewrite (ptc_part_other h p p' b cp y).
Qed.
End inv.
