(* ===== verification/FrontOps.v ===== *)
(** * The front end: operations

    [umem_ptc_get], [_umem_alloc], [_umem_zalloc] and [_umem_free] against
    [front_laws]: every branch keeps the invariant of [FrontInv], a new object
    is one that was nowhere else, and a freed one goes back to the cache that
    serves its size. *)
From S2P Require Import Prelude Machine SlabModel AllocSizes MagModel MagOps MagInv MagSpec MagLoops MagRefine MagBatch.
From S2P Require Import PtcModel PtcTables PtcPool PtcClass PtcReg FrontModel FrontInv.

(** What no call of the front end changes. *)
Definition tables_same (h h' : front) : Prop :=
  fr_table h' = fr_table h /\ fr_ptc h' = fr_ptc h /\ fr_cookie h' = fr_cookie h.
Lemma tables_same_trans h1 h2 h3 : tables_same h1 h2 -> tables_same h2 h3 -> tables_same h1 h3.
Proof. intros (? & ? & ?) (? & ? & ?). split_and!; congruence. Qed.

(** States with the same caches and tables. *)
Definition caches_same (h h' : front) : Prop := tables_same h h' /\ fr_mags h' = fr_mags h.
Lemma caches_shape h h' : caches_same h h' -> shape h -> shape h'.
Proof.
  intros [(E1 & E2 & E3) E4] []. split; unfold bin_cache, cache_ok in *; by rewrite ?E1, ?E2, ?E3, ?E4.
Qed.
Lemma caches_thread h h' p : caches_same h h' -> thread_ok h p -> thread_ok h' p.
Proof. intros [(E1 & E2 & E3) E4] []. split; unfold bin_cache in *; by rewrite ?E1, ?E3. Qed.
Lemma caches_part h h' p : caches_same h h' -> ptc_part h' p = ptc_part h p.
Proof. intros [(E1 & E2 & E3) E4]. unfold ptc_part, bin_part, bin_cache. by rewrite E1, E3. Qed.
Lemma caches_held h h' : caches_same h h' -> held_of h' = held_of h.
Proof. intros [_ E4]. unfold held_of. by rewrite E4. Qed.

Section ops.
Context {W : Type} {fe : front_env W} (ok : W -> (Z -> list Z) -> list (Z * Z) -> Prop) {laws : front_laws W ok}.

Lemma caches_base w h h' out big : caches_same h h' -> base_ok ok w h out big -> base_ok ok w h' out big.
Proof using Type. intros E [H1 H2]. split; [by eapply caches_shape|]. by rewrite (caches_held _ _ E). Qed.
Lemma caches_heap w h h' p out big : caches_same h h' -> heap_ok ok w h p out big -> heap_ok ok w h' p out big.
Proof using Type.
  intros E [H1 H2]. split; [by eapply caches_thread|]. rewrite (caches_part _ _ _ E). by eapply caches_base.
Qed.

(** The objects of the running thread's cache. *)
Definition tpart (h : front) : Z -> list Z :=
  match thread_ptc h with Some p => ptc_part h p | None => fun _ => [] end.
Lemma front_base w h out big :
  front_ok ok w h out big <->
  base_ok ok w h (plus (tpart h) out) big /\ (forall p, thread_ptc h = Some p -> thread_ok h p).
Proof using Type.
  unfold front_ok, heap_ok, tpart. destruct (thread_ptc h) as [p|]; split.
  - intros [H1 H2]. split; [done|]. by intros ? [= <-].
  - intros [H1 H2]. split; [by apply H2|done].
  - by intros H.
  - by intros [H _].
Qed.

Lemma front_set_thread w h p out big : heap_ok ok w h p out big -> front_ok ok w (set_thread (Some p) h) out big.
Proof using Type. intros H. by apply (caches_heap w h). Qed.

Lemma front_ext w h out out' big : (forall cp, out cp ≡ₚ out' cp) -> front_ok ok w h out big -> front_ok ok w h out' big.
Proof.
  intros E. rewrite !front_base. intros [H1 H2]. split; [|done]. eapply (base_ext ok); [|exact H1].
  intros cp. unfold plus. by rewrite E.
Qed.

Lemma front_w w w' h out big :
  (forall F big, ok w F big -> ok w' F big) -> front_ok ok w h out big -> front_ok ok w' h out big.
Proof using Type. intros H. rewrite !front_base. intros [H1 H2]. split; [|done]. by eapply base_w. Qed.

(** ** Creating a thread's cache *)

Lemma fresh_ptc addr pool owner :
  length pool = PTC_TOTAL_SLOTS ->
  let p := Ptc addr ((fun c => PtcBin (bin_offset c) 0) <$> seq 0 PTC_NBINS)
             (replicate PTC_NBINS (PtcMag None None 0 0 0 0 None)) false owner pool in
  ptc_ok p /\ (forall ck b, (b < PTC_NBINS)%nat -> class_held ck p b = []) /\
  (forall b, (b < PTC_NBINS)%nat -> pm_cache (mag_at p b) = None).
Proof using Type.
  intros Hl p. assert (Hbin : forall b, (b < PTC_NBINS)%nat -> bin_at p b = PtcBin (bin_offset b) 0).
  { intros b Hb. unfold bin_at, p. cbn [ptc_bins]. apply list_lookup_total_correct.
    rewrite list_lookup_fmap, lookup_seq_lt by done. done. }
  assert (Hmag : forall b, (b < PTC_NBINS)%nat -> mag_at p b = PtcMag None None 0 0 0 0 None).
  { intros b Hb. unfold mag_at, p. cbn [ptc_mags]. apply list_lookup_total_correct. by apply lookup_replicate_2. }
  split_and!.
  - split; [apply length_fmap|apply length_replicate|done|..]; intros b Hb.
    + rewrite Hbin by done. split; [done|]. pose proof (capacity_bound b). simpl. lia.
    + rewrite Hmag by done. by split_and!.
  - intros ck b Hb. unfold class_held, bin_values. by rewrite Hbin, Hmag by done.
  - intros b Hb. by rewrite Hmag.
Qed.

Lemma fresh_part h p : (forall b, (b < PTC_NBINS)%nat -> class_held (fr_cookie h) p b = []) -> forall cp, ptc_part h p cp = [].
Proof using Type.
  intros H cp. unfold ptc_part.
  assert (Hall : forall c, c ∈ seq 0 PTC_NBINS -> bin_part h p cp c = []).
  { intros c Hc. apply elem_of_seq in Hc. unfold bin_part. case_decide; [apply H; lia|done]. }
  revert Hall. generalize (seq 0 PTC_NBINS). intros l Hl. induction l as [|c l IH]; [done|].
  rewrite bind_cons, Hl by left. apply IH. intros. apply Hl. by right.
Qed.

Lemma fresh_heap w h h' out big addr pool owner :
  length pool = PTC_TOTAL_SLOTS -> caches_same h h' -> base_ok ok w h out big ->
  heap_ok ok w h' (Ptc addr ((fun c => PtcBin (bin_offset c) 0) <$> seq 0 PTC_NBINS)
    (replicate PTC_NBINS (PtcMag None None 0 0 0 0 None)) false owner pool) out big.
Proof.
  intros Hl E Hb. destruct (fresh_ptc addr pool owner Hl) as (H1 & H2 & H3). set (p := Ptc _ _ _ _ _ _) in *. split.
  - split; [done|by left; apply H3|intros; by apply H2].
  - eapply (base_ext ok); [|exact (caches_base w h h' out big E Hb)].
    intros cp. unfold plus. rewrite fresh_part; [done|]. intros. by apply H2.
Qed.

Lemma ptc_get_run w h out big :
  thread_ptc h = None -> base_ok ok w h out big ->
  exists w' h' r, umem_ptc_get w h = Ok (w', h', r) /\ caches_same h h' /\ thread_ptc h' = r /\
    match r with None => base_ok ok w' h' out big | Some p => heap_ok ok w' h' p out big end.
Proof.
  intros Ht Hb. unfold umem_ptc_get. rewrite Ht.
  destruct (umem_ptc_enabled (fr_ptc h)); cbn [negb]; [|by exists w, h, None].
  assert (Hw : base_ok ok (fe_ptc_alloc w).1 h out big) by (eapply base_w; [|exact Hb]; intros; by apply fl_ptc_alloc).
  pose proof (fl_ptc_new w) as Hnew. destruct (fe_ptc_alloc w) as [w1 [[addr pool]|]]; simpl in Hw, Hnew; [|by exists w1, h, None].
  destruct (Hnew addr pool eq_refl) as [Ha Hl]. clear Hnew.
  change (carve PTC_NBINS 0 0) with (carve PTC_NBINS 0 (bin_offset 0)). rewrite carve_run.
  cbn [Nat.add]. rewrite bin_offset_all, Nat.eqb_refl. cbn [negb].
  set (h1 := set_registry _ h). set (p0 := Ptc addr _ _ _ _ _).
  assert (Hset : base_ok ok (if ptc_key_initialized (fr_ptc (set_thread (Some p0) h1)) then fe_setspecific w1 else (w1, true)).1 h out big).
  { destruct (ptc_key_initialized _); [|done]. eapply base_w; [|exact Hw]. intros. by apply fl_setspecific. }
  destruct (if ptc_key_initialized _ then _ else _) as [w2 [|]]; simpl in Hset; cbn [negb].
  - eexists _, _, (Some _). split; [done|]. do 2 (split; [done|]). by apply (fresh_heap w2 h _ out big addr pool (fe_self w2)).
  - eexists _, _, None. split; [done|]. do 2 (split; [done|]). eapply base_w; [intros; by apply fl_ptc_free|].
    by apply (caches_base w2 h).
Qed.

(** The two guarded lookups: the thread's cache, made if it has to be. *)
Definition got_ptc (w' : W) (h h' : front) (r : option umem_ptc) (out : Z -> list Z) (big : list (Z * Z)) : Prop :=
  caches_same h h' /\ match r with None => front_ok ok w' h' out big | Some p => heap_ok ok w' h' p out big end.

Lemma alloc_ptc_run w h out big :
  front_ok ok w h out big -> exists w' h' r, alloc_ptc w h = Ok (w', h', r) /\ got_ptc w' h h' r out big.
Proof.
  intros Hf. unfold alloc_ptc. unfold front_ok in Hf. destruct (thread_ptc h) as [p|] eqn:Et.
  { exists w, h, (Some p). split; [done|]. by split. }
  destruct (ptc_initializing h); [exists w, h, None; unfold got_ptc, front_ok; by rewrite Et|].
  destruct (ptc_get_run w (set_initializing true h) out big) as (w' & h' & r & -> & E & Er & H); [done|by apply (caches_base w h)|].
  cbn [res_bind]. eexists _, _, r. split; [done|]. split; [done|].
  destruct r as [p|]; [by apply (caches_heap w' h')|]. unfold front_ok. simpl. rewrite Er. by apply (caches_base w' h').
Qed.

Lemma free_ptc_run w h out big :
  front_ok ok w h out big -> exists w' h' r, free_ptc w h = Ok (w', h', r) /\ got_ptc w' h h' r out big.
Proof.
  intros Hf. unfold free_ptc. unfold front_ok in Hf. destruct (thread_ptc h) as [p|] eqn:Et.
  { exists w, h, (Some p). split; [done|]. by split. }
  destruct (ptc_initializing_free h); [exists w, h, None; unfold got_ptc, front_ok; by rewrite Et|].
  destruct (ptc_get_run w (set_initializing_free true h) out big) as (w' & h' & r & -> & E & Er & H); [done|by apply (caches_base w h)|].
  cbn [res_bind]. eexists _, _, r. split; [done|]. split; [done|].
  destruct r as [p|]; [by apply (caches_heap w' h')|]. unfold front_ok. simpl. rewrite Er. by apply (caches_base w' h').
Qed.

(** ** The per-thread paths *)

(** The entry of a request in the tables. *)
Definition entry (h : front) (cp bin : Z) : Prop :=
  exists idx, fr_table h !! idx = Some cp /\ umem_ptc_bin_table (fr_ptc h) !! idx = Some bin.
Lemma entry_bin h cp bin :
  shape h -> entry h cp bin -> 0 <= bin ->
  (Z.to_nat bin < PTC_NBINS)%nat /\ bin_cache h (Z.to_nat bin) = Some cp /\ cp ∈ fr_table h.
Proof using Type.
  intros Hs (idx & H1 & H2) Hb. destruct (sh_bin _ Hs _ _ _ H1 H2 Hb). unfold PTC_NBINS. split; [lia|].
  split; [done|]. by eapply list_elem_of_lookup_2.
Qed.
Lemma entry_same h h' cp bin : tables_same h h' -> entry h cp bin -> entry h' cp bin.
Proof using Type. intros (E1 & E2 & _). unfold entry. by rewrite E1, E2. Qed.

Lemma alloc_from_ptc_run w h out big cp bin :
  front_ok ok w h out big -> entry h cp bin -> 0 <= bin ->
  exists w' h' got, alloc_from_ptc w h cp bin = Ok (w', h', got) /\ tables_same h h' /\
    front_ok ok w' h' (upd cp (option_list got ++ out cp) out) big.
Proof.
  intros Hf He Hbin. unfold alloc_from_ptc.
  destruct (alloc_ptc_run w h out big Hf) as (w1 & h1 & r & -> & E1 & H1). cbn [res_bind].
  destruct r as [p|].
  - pose proof H1 as [_ [Hs _]]. destruct (entry_bin h1 cp bin Hs (entry_same _ _ _ _ (proj1 E1) He) Hbin) as (B1 & B2 & B3).
    destruct (heap_class_run ok w1 h1 p out big cp (Z.to_nat bin) (fun env s =>
        do (w, s, p, got) <- ptc_alloc_fast cp w1 s p (Z.to_nat bin); Ok (w, s, (p, got))) [] (out cp) option_list (fun _ _ => True) H1 B1 B2 B3)
      as (w' & s' & p' & got & -> & Hh & _); [done|..].
    + intros s F R (_ & _ & Eck & _) Hm. rewrite <- Eck in Hm.
      destruct (alloc_fast_run (env := fe_cache cp) (ok_at ok cp F big) cp w1 s p (Z.to_nat bin) R) as (w' & s' & p' & got & -> & H);
        [apply H1|done|exact Hm|]. by exists w', s', p', got.
    + cbn [res_bind fst snd]. eexists _, _, got. split; [done|]. split; [exact (proj1 E1)|]. by apply front_set_thread.
  - eexists _, _, None. split; [done|]. split; [exact (proj1 E1)|]. eapply front_ext; [|exact H1].
    intros x. destruct (decide (x = cp)) as [->|]; [by rewrite upd_eq|by rewrite upd_ne].
Qed.

Lemma free_to_ptc_run w h out big cp bin buf :
  front_ok ok w h (upd cp (buf :: out cp) out) big -> entry h cp bin -> 0 <= bin ->
  exists w' h' (stored : bool), free_to_ptc w h cp bin buf = Ok (w', h', stored) /\ tables_same h h' /\
    front_ok ok w' h' (if stored then out else upd cp (buf :: out cp) out) big.
Proof.
  intros Hf He Hbin. unfold free_to_ptc.
  destruct (free_ptc_run w h _ big Hf) as (w1 & h1 & r & -> & E1 & H1). cbn [res_bind].
  destruct r as [p|].
  - pose proof H1 as [_ [Hs _]]. destruct (entry_bin h1 cp bin Hs (entry_same _ _ _ _ (proj1 E1) He) Hbin) as (B1 & B2 & B3).
    destruct (heap_class_run ok w1 h1 p _ big cp (Z.to_nat bin) (fun env s =>
        do (w, s, p, stored) <- ptc_free_fast cp w1 s p (Z.to_nat bin) buf; Ok (w, s, (p, stored))) [buf] (out cp)
        (fun stored : bool => if stored then [] else [buf]) (fun _ _ => True) H1 B1 B2 B3)
      as (w' & s' & p' & stored & -> & Hh & _); [by rewrite upd_eq|..].
    + intros s F R (_ & _ & Eck & _) Hm. rewrite <- Eck in Hm.
      destruct (free_fast_run (env := fe_cache cp) (ok_at ok cp F big) cp w1 s p (Z.to_nat bin) buf R) as (w' & s' & p' & stored & -> & H);
        [apply H1|done|exact Hm|]. by exists w', s', p', stored.
    + cbn [res_bind fst snd]. eexists _, _, stored. split; [done|]. split; [exact (proj1 E1)|]. apply front_set_thread.
      destruct Hh as [G1 G2]. split; [done|]. eapply (base_ext ok); [|exact G2].
      intros x. unfold plus. f_equiv. destruct stored; (destruct (decide (x = cp)) as [->|]; [by rewrite ?upd_eq|by rewrite ?upd_ne]).
  - eexists _, _, false. split; [done|]. split; [exact (proj1 E1)|done].
Qed.

(** ** The magazine layer and the oversize arena *)

Lemma front_with_cache w h out big cp s s' w' out' :
  front_ok ok w h out big -> fr_mags h !! cp = Some s -> keep s s' ->
  magazines (ok_at ok cp (plus (held_of h) (plus (tpart h) out)) big) w' s' (tpart h cp ++ out') ->
  front_ok ok w' (with_cache cp s' h) (upd cp out' out) big.
Proof.
  rewrite !front_base. intros [Hb Ht] Es Hk Hm. split.
  - eapply (base_ext ok); [|by eapply (magazines_base ok)]. intros x. unfold plus.
    change (tpart (with_cache cp s' h)) with (tpart h).
    destruct (decide (x = cp)) as [->|]; [by rewrite !upd_eq|by rewrite !upd_ne].
  - intros p Hp. by apply thread_with_cache, Ht.
Qed.
Lemma front_magazines w h out big cp s :
  front_ok ok w h out big -> fr_mags h !! cp = Some s ->
  magazines (ok_at ok cp (plus (held_of h) (plus (tpart h) out)) big) w s (tpart h cp ++ out cp).
Proof. rewrite front_base. intros [Hb _] Es. by apply (base_magazines ok). Qed.
Lemma front_shape w h out big : front_ok ok w h out big -> shape h.
Proof using Type. rewrite front_base. by intros [[? _] _]. Qed.

Lemma upd_id cp out x : upd cp (out cp) out x = out x.
Proof using Type. unfold upd. case_decide; by subst. Qed.

(** [_umem_cache_alloc] of a cache of the table. *)
Definition cache_outcome (fuel : nat) (umflag : Z) (h : front) (cp : Z) (out : Z -> list Z) (big : list (Z * Z))
    (r : result (W * front * Z)) : Prop :=
  match r with
  | Ok (w', h', b) => tables_same h h' /\
      ((b = 0 /\ has umflag UMEM_NOFAIL = false /\ front_ok ok w' h' out big) \/
       (b <> 0 /\ front_ok ok w' h' (upd cp (b :: out cp) out) big))
  | Panic _ => fuel = 0%nat \/ has umflag UMEM_NOFAIL = true
  end.
Lemma tagged_alloc_run fuel umf w h out big cp size umflag :
  has umf UMF_CHECKNULL = false -> front_ok ok w h out big -> cp ∈ fr_table h ->
  cache_outcome fuel umflag h cp out big (tagged_alloc fuel umf w h cp size umflag).
Proof.
  intros Hchk Hf Hcp. unfold tagged_alloc, on_cache. pose proof (front_shape _ _ _ _ Hf) as Hs.
  destruct (sh_cache _ Hs cp Hcp) as [_ [s Es]]. rewrite Es. cbn [read res_bind].
  destruct (sh_mags _ Hs _ _ Es) as (_ & Hu & _ & Hn).
  pose proof (alloc_cases (env := fe_cache cp) _ fuel umf w s umflag _ Hn Hchk (front_magazines w h out big cp s Hf Es)) as Ha.
  destruct (_umem_cache_alloc fuel umf w s umflag) as [[[w' s'] b]|e]; [|exact Ha]. destruct Ha as [Hk Ha].
  cbn [res_bind fr_mags set_fmags]. rewrite lookup_insert_eq. assert (Hu' : untagged s') by (by eapply untagged_keep).
  rewrite (proj1 Hu'). cbn [andb]. split; [done|].
  destruct Ha as [(-> & Hnf & Hm)|[Hb Hm]]; [left|right]; (split; [done|]); [split; [done|]|].
  - eapply front_ext; [|by eapply (front_with_cache w h out big cp s s' w' (out cp))]. intros x. by rewrite upd_id.
  - eapply (front_with_cache w h out big cp s s' w' (b :: out cp)); [done..|].
    eapply (magazines_out (env := fe_cache cp) (ok_at ok cp _ big)); [|exact Hm]. solve_Permutation.
Qed.

(** [_umem_cache_free] of a cache of the table. *)
Lemma checked_free_run w h out big cp buf size hook :
  front_ok ok w h (upd cp (buf :: out cp) out) big -> cp ∈ fr_table h ->
  exists w' h', checked_free w h cp buf size hook = Ok (w', h') /\ tables_same h h' /\ front_ok ok w' h' out big.
Proof.
  intros Hf Hcp. unfold checked_free. pose proof (front_shape _ _ _ _ Hf) as Hs.
  destruct (sh_cache _ Hs cp Hcp) as [_ [s Es]]. destruct (sh_mags _ Hs _ _ Es) as (_ & Hu & _ & _).
  unfold is_tagged. rewrite Es, (proj1 Hu). cbn [res_bind negb].
  set (w1 := if hook then _ else w). assert (Hf1 : front_ok ok w1 h (upd cp (buf :: out cp) out) big).
  { unfold w1. destruct hook; [|done]. eapply front_w; [|exact Hf]. intros. by apply fl_hook_free. }
  unfold on_cache. rewrite Es. cbn [read res_bind].
  pose proof (front_magazines w1 h _ big cp s Hf1 Es) as Hm. rewrite upd_eq in Hm.
  destruct (free_run (env := fe_cache cp) _ w1 s buf (tpart h cp ++ out cp)
    ltac:(eapply (magazines_out (env := fe_cache cp) (ok_at ok cp _ big)); [|exact Hm]; solve_Permutation))
    as (w' & s' & -> & Hm' & Hk).
  cbn [res_bind]. eexists _, _. split; [done|]. split; [done|].
  eapply front_ext; [|by eapply (front_with_cache w1 h _ big cp s s' w' (out cp))].
  intros x. destruct (decide (x = cp)) as [->|]; [by rewrite upd_eq|by rewrite !upd_ne].
Qed.

(** Whether to try again. *)
Lemma front_retry_run umf w h out big cp umflag :
  has umf UMF_CHECKNULL = false -> front_ok ok w h out big ->
  match front_retry umf w h cp umflag with
  | Ok (w', again) => front_ok ok w' h out big /\ again = has umflag UMEM_NOFAIL
  | Panic _ => has umflag UMEM_NOFAIL = true
  end.
Proof.
  intros Hchk Hf. unfold front_retry, umem_alloc_retry. pose proof (front_shape _ _ _ _ Hf) as Hs.
  assert (Hn : match fr_mags h !! cp with Some s => mc_null (mcfg s) | None => false end = false).
  { destruct (fr_mags h !! cp) as [s|] eqn:Es; [|done]. by destruct (sh_mags _ Hs _ _ Es) as (_ & _ & _ & ?). }
  rewrite Hn, Hchk. cbn [res_bind]. destruct (has umflag UMEM_NOFAIL); [|done].
  assert (Hw : front_ok ok (@env_nofail W (fe_cache cp) w).1 h out big).
  { eapply front_w; [|exact Hf]. intros F b HF.
    eapply fl_ext; [|done|apply (ms_nofail (mag_source_laws := fl_cache cp F b) w (F cp))].
    - intros x. by rewrite upd_id.
    - eapply fl_ext; [|done|exact HF]. intros x. by rewrite upd_id. }
  destruct (@env_nofail W (fe_cache cp) w) as [w1 cb]. destruct (_ =? _); done.
Qed.
End ops.
