(* ===== verification/FrontAlloc.v ===== *)
(** * The front end: umem_alloc and umem_free as a whole

    A request goes to the cache that serves its size or to the oversize arena;
    whatever path serves it, the client gains one object, and freeing it with
    the same size takes that object back. *)
From S2P Require Import Prelude Machine SlabModel AllocSizes MagModel MagOps MagInv MagSpec MagLoops MagRefine MagBatch.
From S2P Require Import PtcModel PtcTables PtcPool PtcClass PtcReg FrontModel FrontInv FrontOps.

(** What the clients hold after being given [b] for a request of [size]. *)
Definition given (h : front) (size b : Z) (out : Z -> list Z) : Z -> list Z :=
  match table_cache (fr_table h) size with Some cp => upd cp (b :: out cp) out | None => out end.
Definition given_big (h : front) (size b : Z) (big : list (Z * Z)) : list (Z * Z) :=
  match table_cache (fr_table h) size with Some cp => big | None => (b, size) :: big end.

Lemma given_same h h' size b out big :
  tables_same h h' -> given h' size b out = given h size b out /\ given_big h' size b big = given_big h size b big.
Proof. intros (E & _). unfold given, given_big. by rewrite E. Qed.

(** ** Requests *)

Lemma request_in h size :
  shape h -> 0 <= size < 2 ^ 64 -> index_in_table size = true ->
  exists cp bin, cache_for h size = Ok cp /\ table_cache (fr_table h) size = Some cp /\ cp ∈ fr_table h /\
    umem_ptc_bin_table (fr_ptc h) !! Z.to_nat (alloc_index size) = Some bin /\ entry h cp bin /\ 0 < size <= UMEM_MAXBUF.
Proof.
  intros Hs Hr Hi. unfold index_in_table in Hi. apply Z.ltb_lt in Hi. change (Z.shiftr UMEM_MAXBUF _) with 16384 in Hi.
  assert (Hsz : 0 < size <= UMEM_MAXBUF).
  { unfold alloc_index, UMEM_ALIGN_SHIFT in Hi. rewrite Z.shiftr_div_pow2 in Hi by lia. change (2 ^ 3) with 8 in Hi.
    destruct (Z.eq_dec size 0) as [->|]; [vm_compute in Hi; done|]. rewrite wsub_small in Hi by lia.
    split; [lia|]. unfold UMEM_MAXBUF. pose proof (Z.div_mod (size - 1) 8 ltac:(lia)).
    pose proof (Z.mod_pos_bound (size - 1) 8 ltac:(lia)). lia. }
  unfold cache_for. rewrite (table_cache_at _ (sh_table _ Hs)) by done.
  unfold alloc_index. rewrite table_index by done. pose proof (index_range size Hsz) as Hx.
  destruct (lookup_lt_is_Some_2 (fr_table h) (Z.to_nat ((size - 1) / 8))) as [cp Hcp]; [pose proof (sh_table _ Hs); lia|].
  destruct (lookup_lt_is_Some_2 (umem_ptc_bin_table (fr_ptc h)) (Z.to_nat ((size - 1) / 8))) as [bin Hbin];
    [pose proof (sh_bins _ Hs); lia|].
  exists cp, bin. rewrite Hcp. split_and!; try done; try lia; [by eapply list_elem_of_lookup_2|by eexists].
Qed.

Lemma request_out h size :
  shape h -> 0 <= size < 2 ^ 64 -> index_in_table size = false ->
  table_cache (fr_table h) size = None /\ (size = 0 \/ UMEM_MAXBUF < size).
Proof.
  intros Hs Hr Hi. unfold index_in_table in Hi. apply Z.ltb_ge in Hi. change (Z.shiftr UMEM_MAXBUF _) with 16384 in Hi.
  split.
  - unfold table_cache. fold (alloc_index size). rewrite (sh_table _ Hs). by rewrite (proj2 (Z.ltb_ge _ _)).
  - destruct (Z.eq_dec size 0); [by left|right]. unfold alloc_index, UMEM_ALIGN_SHIFT in Hi.
    rewrite Z.shiftr_div_pow2, wsub_small in Hi by lia. change (2 ^ 3) with 8 in Hi. unfold UMEM_MAXBUF.
    pose proof (Z.div_mod (size - 1) 8 ltac:(lia)). pose proof (Z.mod_pos_bound (size - 1) 8 ltac:(lia)). lia.
Qed.

Section alloc.
Context {W : Type} {fe : front_env W} (ok : W -> (Z -> list Z) -> list (Z * Z) -> Prop) {laws : front_laws W ok}.

(** What a call gave: NULL, which a request that may not fail gets only for a
    size of zero or without an oversize arena, or an object for the client. *)
Definition front_outcome (n fuel : nat) (umflag : Z) (h : front) (size : Z) (out : Z -> list Z) (big : list (Z * Z))
    (r : result (W * front * Z)) : Prop :=
  match r with
  | Ok (w', h', b) => tables_same h h' /\
      ((b = 0 /\ front_ok ok w' h' out big /\ (0 < size <= UMEM_MAXBUF -> has umflag UMEM_NOFAIL = false)) \/
       (b <> 0 /\ front_ok ok w' h' (given h size b out) (given_big h size b big)))
  | Panic _ => n = 0%nat \/ fuel = 0%nat \/ has umflag UMEM_NOFAIL = true
  end.

Lemma outcome_same n fuel umflag h h1 size out big r :
  tables_same h h1 -> front_outcome n fuel umflag h1 size out big r -> front_outcome n fuel umflag h size out big r.
Proof using Type.
  intros E. destruct r as [[[w' h'] b]|]; [|done]. intros [E1 H]. split; [by eapply tables_same_trans|].
  destruct (given_same h h1 size b out big E) as [E2 E3]. by rewrite E2, E3 in H.
Qed.

Lemma outcome_cache n fuel umflag h cp size out big r :
  table_cache (fr_table h) size = Some cp -> cache_outcome ok fuel umflag h cp out big r ->
  front_outcome n fuel umflag h size out big r.
Proof using Type.
  intros E. destruct r as [[[w' h'] b]|]; simpl; [|tauto]. unfold given, given_big. rewrite E.
  intros [H1 [(-> & H2 & H3)|[H2 H3]]]; (split; [done|]); [by left|by right].
Qed.

(** The failure path, [again] being what a second pass gives. *)
Lemma outcome_retry n fuel umf umflag w h cp size out big (again : W -> result (W * front * Z)) :
  has umf UMF_CHECKNULL = false -> front_ok ok w h out big ->
  (forall w', front_ok ok w' h out big -> has umflag UMEM_NOFAIL = true -> front_outcome (S n) fuel umflag h size out big (again w')) ->
  front_outcome (S n) fuel umflag h size out big
    (do (w, a) <- front_retry umf w h cp umflag; if a : bool then again w else Ok (w, h, 0)).
Proof.
  intros Hchk Hf Ha. pose proof (front_retry_run ok umf w h out big cp umflag Hchk Hf) as Hr.
  destruct (front_retry umf w h cp umflag) as [[w' a]|]; [|by right; right]. destruct Hr as [H1 ->]. cbn [res_bind].
  destruct (has umflag UMEM_NOFAIL) eqn:E; [by apply Ha|]. split; [done|]. left. by rewrite E.
Qed.

Lemma oversize_run w h out big size umflag :
  front_ok ok w h out big -> UMEM_MAXBUF < size -> table_cache (fr_table h) size = None ->
  exists w' b, fe_oversize_alloc w size umflag = Ok (w', b) /\
    ((b = 0 /\ front_ok ok w' h out big) \/ (b <> 0 /\ front_ok ok w' h (given h size b out) (given_big h size b big))).
Proof.
  unfold given, given_big. intros Hf Hs ->. pose proof Hf as [[Hsh Hok] Ht]%front_base.
  destruct (fl_oversize_alloc w _ _ size umflag Hok Hs) as (w' & b & E & H). exists w', b. split; [done|].
  destruct H as [[-> H]|[Hb H]]; [left|right]; (split; [done|]); by apply front_base.
Qed.

(** ** Allocation with the hooks on *)

Lemma hooked_source_run fuel umf w h out big size umflag :
  has umf UMF_CHECKNULL = false -> front_ok ok w h out big -> 0 < size < 2 ^ 64 ->
  match hooked_source fuel umf w h size umflag with
  | Ok (w', h', b, _) => tables_same h h' /\
      ((b = 0 /\ front_ok ok w' h' out big) \/ (b <> 0 /\ front_ok ok w' h' (given h size b out) (given_big h size b big)))
  | Panic _ => fuel = 0%nat \/ has umflag UMEM_NOFAIL = true
  end.
Proof.
  intros Hchk Hf Hsz. pose proof (front_shape ok _ _ _ _ Hf) as Hs. unfold hooked_source.
  destruct (index_in_table size) eqn:Ei.
  - destruct (request_in h size Hs ltac:(lia) Ei) as (cp & bin & -> & Etc & Hcp & _). cbn [res_bind].
    pose proof (tagged_alloc_run ok fuel umf w h out big cp size umflag Hchk Hf Hcp) as H.
    destruct (tagged_alloc fuel umf w h cp size umflag) as [[[w' h'] b]|]; [|exact H]. cbn [res_bind].
    destruct H as [H1 H2]. split; [done|]. unfold given, given_big. rewrite Etc.
    destruct H2 as [(-> & _ & H2)|H2]; [by left|by right].
  - destruct (request_out h size Hs ltac:(lia) Ei) as [Etc [?|Hbig]]; [lia|].
    destruct (oversize_run w h out big size umflag Hf Hbig Etc) as (w' & b & -> & H). cbn [res_bind]. split; [done|].
    destruct H as [[-> H]|[Hb H]]; [left|right]; (split; [done|]).
    + eapply front_w; [intros; by apply fl_log|done].
    + by rewrite (proj2 (Z.eqb_neq _ _) Hb).
Qed.

Lemma alloc_hooked_run n fuel umf w h out big size umflag :
  has umf UMF_CHECKNULL = false -> front_ok ok w h out big -> 0 < size < 2 ^ 64 ->
  front_outcome n fuel umflag h size out big (umem_alloc_hooked n fuel umf w h size umflag).
Proof.
  intros Hchk. revert w h. induction n as [|n IH]; intros w h Hf Hsz; [by left|]. cbn [umem_alloc_hooked].
  pose proof (hooked_source_run fuel umf w h out big size umflag Hchk Hf Hsz) as Hsrc.
  destruct (hooked_source fuel umf w h size umflag) as [[[[w1 h1] b] cp]|]; [|by right]. cbn [res_bind].
  destruct Hsrc as [E1 Hsrc]. destruct Hsrc as [[-> H1]|[Hb H1]].
  - rewrite Z.eqb_refl. pose proof (front_retry_run ok umf w1 h1 out big cp umflag Hchk H1) as Hr.
    destruct (front_retry umf w1 h1 cp umflag) as [[w2 a]|]; [|by right; right]. destruct Hr as [H2 ->]. cbn [res_bind].
    destruct (has umflag UMEM_NOFAIL) eqn:Enf.
    + eapply outcome_same; [exact E1|]. specialize (IH w2 h1 H2 Hsz).
      destruct (umem_alloc_hooked n fuel umf w2 h1 size umflag) as [[[w3 h3] b]|]; [done|]. by right; right.
    + split; [done|]. left. split; [done|]. rewrite Enf. split; [|done].
      eapply front_w; [intros; by apply fl_hook_alloc|done].
  - rewrite (proj2 (Z.eqb_neq _ _) Hb). cbn [res_bind]. split; [done|]. right. split; [done|].
    eapply front_w; [intros; by apply fl_hook_alloc|done].
Qed.

(** ** umem_alloc *)

Lemma front_nonzero w h out big cp b :
  front_ok ok w h (upd cp (b :: out cp) out) big -> cp ∈ fr_table h -> b <> 0.
Proof.
  intros Hf Hcp ->. destruct (sh_cache _ (front_shape ok _ _ _ _ Hf) cp Hcp) as [_ [s Es]].
  pose proof (front_magazines ok _ _ _ _ _ _ Hf Es) as (_ & _ & Hm). rewrite upd_eq in Hm.
  apply (ms_nonzero (mag_source_laws := ok_at_laws ok cp _ big)) in Hm. apply Hm. rewrite !elem_of_app, elem_of_cons. auto.
Qed.

(** The per-thread cache, when the tables give the request a bin. *)
Lemma ptc_first_run w h out big cp bin :
  front_ok ok w h out big -> entry h cp bin -> cp ∈ fr_table h ->
  exists w1 h1 got, (if bin <? 0 then Ok (w, h, None) else alloc_from_ptc w h cp bin) = Ok (w1, h1, got) /\ tables_same h h1 /\
    match got with None => front_ok ok w1 h1 out big | Some b => b <> 0 /\ front_ok ok w1 h1 (upd cp (b :: out cp) out) big end.
Proof.
  intros Hf He Hcp. destruct (Z.ltb_spec bin 0) as [Hneg|Hbin]; [by exists w, h, None|].
  destruct (alloc_from_ptc_run ok w h out big cp bin Hf He Hbin) as (w1 & h1 & got & -> & E1 & H1).
  exists w1, h1, got. do 2 (split; [done|]). destruct got as [b|]; simpl in H1.
  - split; [|done]. eapply front_nonzero; [exact H1|]. by destruct E1 as (-> & _).
  - eapply (front_ext ok); [|exact H1]. intros x. by rewrite upd_id.
Qed.

Lemma alloc_run n fuel umf w h out big size umflag :
  has umf UMF_CHECKNULL = false -> front_ok ok w h out big -> 0 <= size < 2 ^ 64 ->
  front_outcome n fuel umflag h size out big (_umem_alloc n fuel umf w h size umflag).
Proof.
  intros Hchk. revert w h. induction n as [|n IH]; intros w h Hf Hsz; [by left|]. cbn [_umem_alloc].
  pose proof (front_shape ok _ _ _ _ Hf) as Hs.
  assert (Hagain : forall w1 h1 cp, tables_same h h1 -> front_ok ok w1 h1 out big ->
    front_outcome (S n) fuel umflag h size out big (do (w, a) <- front_retry umf w1 h1 cp umflag;
      if a : bool then _umem_alloc n fuel umf w h1 size umflag else Ok (w, h1, 0))).
  { intros w1 h1 cp E H1. eapply outcome_same; [exact E|].
    apply (outcome_retry n fuel umf umflag w1 h1 cp size out big (fun w => _umem_alloc n fuel umf w h1 size umflag)); [done..|].
    intros w2 H2 Hnf. specialize (IH w2 h1 H2 Hsz). destruct (_umem_alloc n fuel umf w2 h1 size umflag) as [[[w3 h3] b]|]; [done|].
    by right; right. }
  destruct (index_in_table size) eqn:Ei.
  - destruct (request_in h size Hs Hsz Ei) as (cp & bin & -> & Etc & Hcp & -> & He & Hpos). cbn [res_bind read].
    destruct ((bin <? 0) && fe_hooks_on w); [apply alloc_hooked_run; [done|done|lia]|].
    destruct (ptc_first_run w h out big cp bin Hf He Hcp) as (w1 & h1 & got & -> & E1 & H1). cbn [res_bind].
    destruct got as [b|].
    + split; [done|]. right. unfold given, given_big. by rewrite Etc.
    + pose proof (tagged_alloc_run ok fuel umf w1 h1 out big cp size umflag Hchk H1) as Hta.
      rewrite (proj1 E1) in Hta. specialize (Hta Hcp).
      destruct (tagged_alloc fuel umf w1 h1 cp size umflag) as [[[w2 h2] b]|]; [|by right]. cbn [res_bind].
      destruct Hta as [E2 Hta]. pose proof (tables_same_trans _ _ _ E1 E2) as E.
      destruct Hta as [(-> & _ & H2)|[Hb H2]].
      * rewrite Z.eqb_refl. by apply Hagain.
      * rewrite (proj2 (Z.eqb_neq _ _) Hb). split; [done|]. right. split; [done|]. unfold given, given_big. by rewrite Etc.
  - destruct (request_out h size Hs Hsz Ei) as [Etc Hsize].
    destruct (Z.eqb_spec size 0) as [->|Hne]; [split; [done|]; left; split_and!; [done..|lia]|].
    destruct Hsize as [?|Hbig]; [done|].
    assert (Hr : front_ok ok (fe_oversize_ready w).1 h out big) by (eapply front_w; [|exact Hf]; intros; by apply fl_ready).
    destruct (fe_oversize_ready w) as [w1 ready]. simpl in Hr.
    destruct ready; cbn [negb]; [|split; [done|]; left; split_and!; [done..|lia]].
    destruct (fe_hooks_on w1); [apply alloc_hooked_run; [done|done|unfold UMEM_MAXBUF in Hbig; lia]|].
    destruct (oversize_run w1 h out big size umflag Hr Hbig Etc) as (w2 & b & -> & H). cbn [res_bind].
    destruct H as [[-> H]|[Hb H]].
    + rewrite Z.eqb_refl. apply Hagain; [done|]. eapply front_w; [intros; by apply fl_log|done].
    + rewrite (proj2 (Z.eqb_neq _ _) Hb). split; [done|]. by right.
Qed.

Lemma outcome_w n fuel umflag h size out big (r : result (W * front * Z)) (f : W -> Z -> W) :
  (forall w F big b, ok w F big -> ok (f w b) F big) -> front_outcome n fuel umflag h size out big r ->
  front_outcome n fuel umflag h size out big (do (w, h, b) <- r; Ok (f w b, h, b)).
Proof using Type.
  intros Hw. destruct r as [[[w' h'] b]|]; [|done]. cbn [res_bind]. intros [E H]. split; [done|].
  destruct H as [(H1 & H2 & H3)|[H1 H2]]; [left|right]; split_and!; try done; (eapply front_w; [|done]; intros; by apply Hw).
Qed.

Lemma zalloc_run n fuel umf w h out big size umflag :
  has umf UMF_CHECKNULL = false -> front_ok ok w h out big -> 0 <= size < 2 ^ 64 ->
  front_outcome n fuel umflag h size out big (_umem_zalloc n fuel umf w h size umflag).
Proof.
  intros Hchk. revert w h. induction n as [|n IH]; intros w h Hf Hsz; [by left|]. cbn [_umem_zalloc].
  pose proof (front_shape ok _ _ _ _ Hf) as Hs. destruct (index_in_table size) eqn:Ei.
  - destruct (request_in h size Hs Hsz Ei) as (cp & bin & -> & Etc & Hcp & _). cbn [res_bind].
    pose proof (tagged_alloc_run ok fuel umf w h out big cp size umflag Hchk Hf Hcp) as Hta.
    destruct (tagged_alloc fuel umf w h cp size umflag) as [[[w1 h1] b]|]; [|by right]. cbn [res_bind].
    destruct Hta as [E1 [(-> & _ & H1)|[Hb H1]]].
    + rewrite Z.eqb_refl. eapply outcome_same; [exact E1|].
      apply (outcome_retry n fuel umf umflag w1 h1 cp size out big (fun w => _umem_zalloc n fuel umf w h1 size umflag)); [done..|].
      intros w2 H2 Hnf. specialize (IH w2 h1 H2 Hsz).
      destruct (_umem_zalloc n fuel umf w2 h1 size umflag) as [[[w3 h3] b]|]; [done|]. by right; right.
    + rewrite (proj2 (Z.eqb_neq _ _) Hb). split; [done|]. right. split; [done|]. unfold given, given_big. rewrite Etc.
      eapply front_w; [|exact H1]. intros. destruct (fe_hooks_on _); [apply fl_hook_alloc|]; by apply fl_bzero.
  - apply (outcome_w (S n) fuel umflag h size out big _ (fun w b => if b =? 0 then w else fe_bzero w b size)).
    + intros w1 F big1 b HF. destruct (b =? 0); [done|by apply fl_bzero].
    + by apply alloc_run.
Qed.

(** ** umem_free *)

(** The clients give back what they hold. *)
Lemma free_given_run w h out big size b :
  0 <= size < 2 ^ 64 -> size <> 0 -> b <> 0 -> front_ok ok w h (given h size b out) (given_big h size b big) ->
  exists w' h', _umem_free w h b size = Ok (w', h') /\ tables_same h h' /\ front_ok ok w' h' out big.
Proof.
  intros Hsz Hne Hb Hf. unfold _umem_free. rewrite (proj2 (Z.eqb_neq _ _) Hb).
  pose proof (front_shape ok _ _ _ _ Hf) as Hs. unfold given, given_big in Hf.
  destruct (index_in_table size) eqn:Ei.
  - destruct (request_in h size Hs Hsz Ei) as (cp & bin & -> & Etc & Hcp & -> & He & Hpos). cbn [res_bind read].
    rewrite Etc in Hf. destruct (Z.ltb_spec bin 0) as [Hneg|Hbin]; [by apply checked_free_run|].
    destruct (free_to_ptc_run ok w h out big cp bin b Hf He Hbin) as (w1 & h1 & stored & -> & E1 & H1). cbn [res_bind].
    destruct stored; [by exists w1, h1|].
    destruct (checked_free_run ok w1 h1 out big cp b size false H1) as (w2 & h2 & -> & E2 & H2); [by destruct E1 as (-> & _)|].
    exists w2, h2. split; [done|]. split; [by eapply tables_same_trans|done].
  - destruct (request_out h size Hs Hsz Ei) as [Etc _]. rewrite Etc in Hf.
    set (w1 := if fe_hooks_on w then _ else w). assert (Hf1 : front_ok ok w1 h out ((b, size) :: big)).
    { unfold w1. destruct (fe_hooks_on w); [|done]. eapply front_w; [|exact Hf]. intros. by apply fl_hook_free. }
    destruct (proj1 (front_base ok _ _ _ _) Hf1) as [[Hsh Hok] Ht].
    destruct (fl_oversize_free w1 _ big b size Hok) as (w2 & -> & Hok2). cbn [res_bind].
    exists w2, h. split; [done|]. split; [done|]. by apply front_base.
Qed.
End alloc.
