(* ===== verification/PtcExit.v ===== *)
(** * The per-thread cache: thread exit and fork

    [umem_ptc_destroy] returns every object a thread's cache holds to the
    caches they came from.  The fork child drains the caches of the threads
    that did not survive after forgetting the top entries, one of which the
    snapshot may have caught half written. *)
From S2P Require Import Prelude Machine SlabModel AllocSizes MagModel MagOps MagInv MagSpec MagLoops MagRefine MagBatch.
From S2P Require Import PtcModel PtcTables PtcPool PtcClass PtcReg FrontModel FrontInv FrontOps.

Lemma table_cache_elem table size cp : table_cache table size = Some cp -> cp ∈ table.
Proof. unfold table_cache. case_match; [|done]. apply list_elem_of_lookup_2. Qed.
Lemma bin_cache_elem h b cp : bin_cache h b = Some cp -> cp ∈ fr_table h.
Proof. apply table_cache_elem. Qed.

(** Returning objects changes only the magazine layers. *)
Definition exit_same (h h' : front) : Prop :=
  tables_same h h' /\ thread_ptc h' = thread_ptc h /\ fr_registry h' = fr_registry h.
Lemma exit_same_trans h1 h2 h3 : exit_same h1 h2 -> exit_same h2 h3 -> exit_same h1 h3.
Proof. intros (? & ? & ?) (? & ? & ?). split_and!; [by eapply tables_same_trans|congruence..]. Qed.

Section exit.
Context {W : Type} {fe : front_env W} (ok : W -> (Z -> list Z) -> list (Z * Z) -> Prop) {laws : front_laws W ok}.

(** The step of a loop that returns objects of class [b]. *)
Definition returned (h : front) (b : nat) (w' : W) (h' : front) (p p' : umem_ptc) (out : Z -> list Z) (big : list (Z * Z)) : Prop :=
  exit_same h h' /\ heap_ok ok w' h' p' out big /\ class_step (fr_cookie h) b p p'.

Lemma on_cache_map {A B} (h : front) cp (f : mag_env W -> mags -> result (W * mags * A)) (k : A -> B) :
  on_cache h cp (fun env s => do (w, s, x) <- f env s; Ok (w, s, k x)) =
  do (w, h, x) <- on_cache h cp f; Ok (w, h, k x).
Proof using Type.
  unfold on_cache. destruct (fr_mags h !! cp) as [s|]; [|done]. cbn [read res_bind].
  destruct (f (fe_cache cp) s) as [[[w s'] x]|]; done.
Qed.

Lemma pair_flush_step w h p b cp out big :
  heap_ok ok w h p out big -> (b < PTC_NBINS)%nat -> pm_cache (mag_at p b) = Some cp ->
  exists w' h' m, on_cache h cp (fun env s => ptc_mag_flush w s (mag_at p b)) = Ok (w', h', m) /\
    returned h b w' h' p (set_mag b m p) out big /\ held_pair (fr_cookie h) m = [].
Proof.
  intros Hh Hb Hc. pose proof Hh as [Ht _]. destruct (th_cache _ _ Ht b Hb) as [E|E]; [congruence|].
  assert (Hbc : bin_cache h b = Some cp) by congruence.
  destruct (heap_class_run ok w h p out big cp b (fun env s =>
      do (w, s, m) <- ptc_mag_flush w s (mag_at p b); Ok (w, s, (set_mag b m p, m))) [] (out cp) (fun _ => [])
      (fun q m => q = set_mag b m p /\ held_pair (fr_cookie h) m = []) Hh Hb Hbc (bin_cache_elem _ _ _ Hbc))
    as (w' & s' & p' & m & Eon & Hh' & Hst & -> & Hm); [done|..].
  - intros s F R (_ & _ & Eck & _) Hm. pose proof (pk_pair _ (th_ptc _ _ Ht) b Hb) as Hpm.
    destruct (pair_flush_run (env := fe_cache cp) (ok_at ok cp F big) w s (mag_at p b) (bin_values (fr_cookie h) p b ++ R))
      as (w' & s' & m & -> & Hm' & Hk & Hm1 & Hm2 & Hm3); [done|..].
    { rewrite Eck. eapply (magazines_out (env := fe_cache cp) (ok_at ok cp F big)); [|exact Hm].
      unfold class_held. solve_Permutation. }
    cbn [res_bind]. eexists _, _, _, _. split; [done|]. rewrite Eck in Hm2. split; [done|].
    apply class_after_mag; try done; [apply Ht|by left|].
    rewrite Eck, Hm2. exact Hm'.
  - rewrite on_cache_map in Eon. destruct (on_cache h cp _) as [[[w1 h1] m1]|] eqn:E1; [|done]. cbn [res_bind] in Eon.
    injection Eon as -> -> _ ->. eexists _, _, _. split; [done|]. split; [|done].
    split; [done|]. split; [|done]. destruct Hh' as [G1 G2]. split; [done|]. eapply (base_ext ok); [|exact G2].
    intros x. unfold plus. simpl. by rewrite upd_id.
Qed.

Lemma bin_flush_step w h p b out big :
  heap_ok ok w h p out big -> (b < PTC_NBINS)%nat -> bin_count (bin_at p b) <> 0 ->
  exists w' h' p', umem_ptc_bin_flush_all w h p b = Ok (w', h', p') /\ returned h b w' h' p p' out big /\
    bin_count (bin_at p' b) = 0 /\ mag_at p' b = mag_at p b.
Proof.
  intros Hh Hb Hc. pose proof Hh as [Ht [Hs _]]. pose proof (pk_bin _ (th_ptc _ _ Ht) b Hb) as [_ Hcount].
  destruct (bin_cache h b) as [cp|] eqn:Hbc.
  2:{ pose proof (th_unused _ _ Ht b Hb Hbc) as E. apply app_nil in E as [E _]. unfold bin_values in E.
      apply (f_equal length) in E. rewrite length_fmap, length_seq in E. simpl in E. lia. }
  pose proof (bin_cache_elem _ _ _ Hbc) as Hcp. unfold umem_ptc_bin_flush_all, cache_for.
  rewrite (proj2 (Z.eqb_neq (bin_count (bin_at p b)) 0) Hc).
  unfold bin_cache in Hbc. rewrite Hbc. cbn [read res_bind].
  rewrite (proj2 (Z.eqb_neq cp 0)) by (by apply (sh_cache _ Hs)).
  destruct (heap_class_run ok w h p out big cp b (fun env s =>
      do (w, s, p) <- ptc_bin_flush_all w s p b; Ok (w, s, (p, p))) [] (out cp) (fun _ => [])
      (fun q q' => q' = q /\ bin_count (bin_at q b) = 0 /\ mag_at q b = mag_at p b) Hh Hb Hbc Hcp)
    as (w' & s' & p' & q & Eon & Hh' & Hst & -> & Hq1 & Hq2); [done|..].
  - intros s F R (_ & _ & Eck & _) Hm. rewrite <- Eck in Hm.
    destruct (bin_flush_all_run (env := fe_cache cp) (ok_at ok cp F big) w s p b R (th_ptc _ _ Ht) Hb Hm)
      as (w' & s' & p' & -> & Hst & Hk & Hz & Hmag & Hm'). cbn [res_bind].
    eexists _, _, _, _. split; [done|]. split; [done|]. split; [done|]. split; [done|]. split; [|rewrite Hmag; by left].
    unfold class_held. rewrite Hmag. unfold bin_values. rewrite Hz. exact Hm'.
  - rewrite on_cache_map in Eon. destruct (on_cache h cp _) as [[[w1 h1] q1]|] eqn:E1; [|done]. cbn [res_bind] in Eon.
    injection Eon as -> -> -> _. eexists _, _, _. split; [done|]. split; [|done].
    split; [done|]. split; [|done]. destruct Hh' as [G1 G2]. split; [done|]. eapply (base_ext ok); [|exact G2].
    intros x. unfold plus. simpl. by rewrite upd_id.
Qed.

Lemma mag_flush_loop_run l w h p out big :
  Forall (fun b => (b < PTC_NBINS)%nat) l -> heap_ok ok w h p out big ->
  exists w' h' p', mag_flush_loop l w h p = Ok (w', h', p') /\ exit_same h h' /\ heap_ok ok w' h' p' out big /\
    (forall b, b ∈ l \/ held_pair (fr_cookie h) (mag_at p b) = [] -> held_pair (fr_cookie h) (mag_at p' b) = []).
Proof.
  revert w h p. induction l as [|b l IH]; intros w h p Hl Hh.
  { exists w, h, p. split_and!; try done. intros b [Hb|Hb]; [by apply elem_of_nil in Hb|done]. }
  apply Forall_cons in Hl as [Hb Hl]. cbn [mag_flush_loop]. destruct (pm_cache (mag_at p b)) as [cp|] eqn:Ec.
  - destruct (pair_flush_step w h p b cp out big Hh Hb Ec) as (w1 & h1 & m & -> & (E1 & Hh1 & Hst) & Hm). cbn [res_bind].
    destruct (IH w1 h1 (set_mag b m p) Hl Hh1) as (w' & h' & p' & -> & E2 & Hh' & Hall).
    exists w', h', p'. split; [done|]. split; [by eapply exit_same_trans|]. split; [done|].
    pose proof E1 as ((_ & _ & Eck) & _). rewrite Eck in Hall. intros c Hc. apply Hall.
    destruct (decide (c = b)) as [->|Hne].
    + right. rewrite mag_at_set_eq; [done| |done]. apply Hh.
    + rewrite (cs_mag _ _ _ _ Hst c Hne). destruct Hc as [Hc|Hc]; [left|by right]. by apply elem_of_cons in Hc as [->|?].
  - destruct (IH w h p Hl Hh) as (w' & h' & p' & -> & E2 & Hh' & Hall).
    exists w', h', p'. do 3 (split; [done|]). intros c Hc. apply Hall. destruct Hc as [Hc|Hc]; [|by right].
    apply elem_of_cons in Hc as [->|?]; [right|by left].
    destruct (pk_pair _ (th_ptc _ _ (proj1 Hh)) b Hb) as (_ & _ & Hn). destruct (Hn Ec) as [E3 E4].
    unfold held_pair. by rewrite E3, E4.
Qed.

Lemma bin_flush_loop_run l w h p out big :
  Forall (fun b => (b < PTC_NBINS)%nat) l -> heap_ok ok w h p out big ->
  exists w' h' p', bin_flush_loop l w h p = Ok (w', h', p') /\ exit_same h h' /\ heap_ok ok w' h' p' out big /\
    (forall b, mag_at p' b = mag_at p b) /\ (forall b, b ∈ l \/ bin_count (bin_at p b) = 0 -> bin_count (bin_at p' b) = 0).
Proof.
  revert w h p. induction l as [|b l IH]; intros w h p Hl Hh.
  { exists w, h, p. split_and!; try done. intros b [Hb|Hb]; [by apply elem_of_nil in Hb|done]. }
  apply Forall_cons in Hl as [Hb Hl]. cbn [bin_flush_loop].
  destruct (Z.eqb_spec (bin_count (bin_at p b)) 0) as [Ec|Ec].
  - destruct (IH w h p Hl Hh) as (w' & h' & p' & -> & E2 & Hh' & Hmag & Hall).
    exists w', h', p'. do 4 (split; [done|]). intros c Hc. apply Hall. destruct Hc as [Hc|Hc]; [|by right].
    apply elem_of_cons in Hc as [->|?]; [by right|by left].
  - destruct (bin_flush_step w h p b out big Hh Hb Ec) as (w1 & h1 & p1 & -> & (E1 & Hh1 & Hst) & Hz & Hm). cbn [res_bind].
    destruct (IH w1 h1 p1 Hl Hh1) as (w' & h' & p' & -> & E2 & Hh' & Hmag & Hall).
    exists w', h', p'. split; [done|]. split; [by eapply exit_same_trans|]. split; [done|]. split.
    + intros c. rewrite Hmag. destruct (decide (c = b)) as [->|Hne]; [done|by apply (cs_mag _ _ _ _ Hst)].
    + intros c Hc. apply Hall. destruct (decide (c = b)) as [->|Hne]; [by right|].
      rewrite (cs_bin _ _ _ _ Hst c Hne). destruct Hc as [Hc|Hc]; [left|by right]. by apply elem_of_cons in Hc as [->|?].
Qed.

(** Every object of the thread's cache goes back, and none is stranded in the
    structure that is freed. *)
Lemma destroy_run w h p out big :
  heap_ok ok w h p out big ->
  exists w' h' p', umem_ptc_destroy w h p = Ok (w', h', p') /\ exit_same h h' /\ base_ok ok w' h' out big /\
    (forall b, (b < PTC_NBINS)%nat -> class_held (fr_cookie h) p' b = []).
Proof.
  intros Hh. unfold umem_ptc_destroy, umem_ptc_mag_flush_all.
  assert (Hall : Forall (fun b => (b < PTC_NBINS)%nat) (seq 0 PTC_NBINS)).
  { apply Forall_forall. intros b Hb. apply elem_of_seq in Hb. lia. }
  destruct (mag_flush_loop_run _ w h p out big Hall Hh) as (w1 & h1 & p1 & -> & E1 & Hh1 & Hm1). cbn [res_bind].
  destruct (bin_flush_loop_run _ w1 h1 p1 out big Hall Hh1) as (w2 & h2 & p2 & -> & E2 & Hh2 & Hm2 & Hb2). cbn [res_bind].
  pose proof (exit_same_trans _ _ _ E1 E2) as E. pose proof E as ((_ & _ & Eck) & _).
  assert (Hempty : forall b, (b < PTC_NBINS)%nat -> class_held (fr_cookie h) p2 b = []).
  { intros b Hb. assert (Hin : b ∈ seq 0 PTC_NBINS) by (apply elem_of_seq; lia).
    unfold class_held, bin_values. rewrite Hb2 by (by left). rewrite Hm2, Hm1 by (by left). done. }
  eexists _, _, p2. split; [done|]. split; [done|]. split; [|done].
  destruct Hh2 as [_ Hb']. eapply base_w; [intros; by apply fl_ptc_free|].
  eapply (base_ext ok); [|exact Hb']. intros cp. unfold plus. rewrite fresh_part; [done|]. by rewrite Eck.
Qed.

Lemma cleanup_run w h out big :
  front_ok ok w h out big ->
  exists w' h', umem_ptc_cleanup w h = Ok (w', h') /\ tables_same h h' /\ thread_ptc h' = None /\
    (forall p, thread_ptc h = Some p -> fr_registry h' = umem_ptc_unregister (ptc_addr p) (fr_registry h)) /\ base_ok ok w' h' out big.
Proof.
  intros Hf. unfold umem_ptc_cleanup, front_ok in *. destruct (thread_ptc h) as [p|] eqn:Et; [|by exists w, h].
  destruct (destroy_run w (set_registry (umem_ptc_unregister (ptc_addr p) (fr_registry h)) h) p out big)
    as (w' & h' & p' & -> & E & Hb & _); [by apply (caches_heap ok w h)|].
  cbn [res_bind]. destruct E as (E1 & E2 & E3). eexists _, _. split; [done|]. split; [done|]. split; [done|].
  split; [by intros ? [= <-]|]. by apply (caches_base ok w' h').
Qed.
End exit.

(** ** Fork *)

(** What the memory of a cache may look like when another thread forks: at
    most one push is under way, and its two stores (the entry and the count)
    may be seen in either order. *)
Inductive torn (p : umem_ptc) : umem_ptc -> Prop :=
| TornNone : torn p p
| TornBinCount b : (b < PTC_NBINS)%nat -> bin_count (bin_at p b) < Z.of_nat (ptc_bin_capacity b) ->
    torn p (set_bin b (PtcBin (bin_slots (bin_at p b)) (bin_count (bin_at p b) + 1)) p)
| TornBinSlot b v : (b < PTC_NBINS)%nat -> bin_count (bin_at p b) < Z.of_nat (ptc_bin_capacity b) ->
    torn p (set_pool (<[(bin_slots (bin_at p b) + Z.to_nat (bin_count (bin_at p b)))%nat := v]> (ptc_pool p)) p)
| TornRounds b mp : (b < PTC_NBINS)%nat -> pm_loaded (mag_at p b) = Some mp -> pm_rounds (mag_at p b) < pm_magsize (mag_at p b) ->
    torn p (set_mag b (PtcMag (Some mp) (pm_previous (mag_at p b)) (pm_rounds (mag_at p b) + 1) (pm_prounds (mag_at p b))
                         (pm_magsize (mag_at p b)) (pm_pmagsize (mag_at p b)) (pm_cache (mag_at p b))) p)
| TornRound b mp v : (b < PTC_NBINS)%nat -> pm_loaded (mag_at p b) = Some mp -> pm_rounds (mag_at p b) < pm_magsize (mag_at p b) ->
    torn p (set_mag b (PtcMag (Some (Mag (mag_addr mp) (mag_source mp) (<[Z.to_nat (pm_rounds (mag_at p b)) := v]> (mag_round mp))))
                         (pm_previous (mag_at p b)) (pm_rounds (mag_at p b)) (pm_prounds (mag_at p b))
                         (pm_magsize (mag_at p b)) (pm_pmagsize (mag_at p b)) (pm_cache (mag_at p b))) p).

Definition drop_bin (x : umem_ptc_bin) : umem_ptc_bin :=
  PtcBin (bin_slots x) (if 0 <? bin_count x then bin_count x - 1 else bin_count x).
Lemma drop_bin_at p b : (b < length (ptc_bins p))%nat -> bin_at (drop_tops p) b = drop_bin (bin_at p b).
Proof.
  intros Hb. unfold bin_at. destruct (lookup_lt_is_Some_2 _ _ Hb) as [x Hx]. rewrite (list_lookup_total_correct _ _ _ Hx).
  apply list_lookup_total_correct. cbn [ptc_bins drop_tops]. by rewrite list_lookup_fmap, Hx.
Qed.
Lemma drop_mag_at p b : (b < length (ptc_mags p))%nat -> mag_at (drop_tops p) b = drop_pair (mag_at p b).
Proof.
  intros Hb. unfold mag_at. destruct (lookup_lt_is_Some_2 _ _ Hb) as [x Hx]. rewrite (list_lookup_total_correct _ _ _ Hx).
  apply list_lookup_total_correct. cbn [ptc_mags drop_tops]. by rewrite list_lookup_fmap, Hx.
Qed.

(** [l'] is what is left of [l] when at most one entry is lost. *)
Definition less_one (l l' : list Z) : Prop := exists d, l ≡ₚ l' ++ d /\ (length d <= 1)%nat.
Lemma less_one_refl l : less_one l l.
Proof. exists []. rewrite app_nil_r. split; [done|simpl; lia]. Qed.
Lemma less_one_eq l l' : l' = l -> less_one l l'.
Proof. intros ->. apply less_one_refl. Qed.

Section dropped.
Context (ck : Z).

(** Class [b] of [q] is class [b] of [p] less its top entries. *)
Definition bin_less (p q : umem_ptc) (b : nat) : Prop :=
  bin_ok b (bin_at q b) /\ less_one (bin_values ck p b) (bin_values ck q b).
Definition pair_less (m m' : umem_ptc_mag) : Prop :=
  pair_ok m' /\ pm_cache m' = pm_cache m /\
  less_one (held_mag ck (pm_loaded m) (pm_rounds m)) (held_mag ck (pm_loaded m') (pm_rounds m')) /\
  less_one (held_mag ck (pm_previous m) (pm_prounds m)) (held_mag ck (pm_previous m') (pm_prounds m')).
Record dropped (p q : umem_ptc) : Prop := Dropped {
  dr_bins : length (ptc_bins q) = PTC_NBINS;
  dr_mags : length (ptc_mags q) = PTC_NBINS;
  dr_pool : length (ptc_pool q) = PTC_TOTAL_SLOTS;
  dr_bin b : (b < PTC_NBINS)%nat -> bin_less p q b;
  dr_pair b : (b < PTC_NBINS)%nat -> pair_less (mag_at p b) (mag_at q b);
}.

Lemma bin_values_less p q b :
  bin_slots (bin_at q b) = bin_slots (bin_at p b) -> ptc_addr q = ptc_addr p -> ptc_pool q = ptc_pool p ->
  bin_count (bin_at q b) = (if 0 <? bin_count (bin_at p b) then bin_count (bin_at p b) - 1 else bin_count (bin_at p b)) ->
  less_one (bin_values ck p b) (bin_values ck q b).
Proof using Type.
  intros E1 E2 E3 E4. unfold bin_values. rewrite E1, E4.
  assert (Ev : forall i, slot_value ck q i = slot_value ck p i) by (intros i; unfold slot_value, pool_addr; by rewrite E2, E3).
  assert (Ef : forall l, ((fun i => slot_value ck q (bin_slots (bin_at p b) + i)) <$> l) =
    ((fun i => slot_value ck p (bin_slots (bin_at p b) + i)) <$> l)) by (intros l; apply list_fmap_ext; intros; apply Ev).
  rewrite Ef. destruct (Z.ltb_spec 0 (bin_count (bin_at p b))) as [Hc|Hc]; [|apply less_one_refl].
  replace (Z.to_nat (bin_count (bin_at p b))) with (S (Z.to_nat (bin_count (bin_at p b) - 1))) by lia.
  rewrite seq_S, fmap_app. by eexists.
Qed.

Lemma half_less mp n :
  0 <= n -> less_one (held_mag ck mp n) (held_mag ck mp (match mp with Some _ => if 0 <? n then n - 1 else n | None => n end)).
Proof using Type.
  intros Hn. destruct mp as [mp|]; [|apply less_one_refl]. simpl. destruct (Z.ltb_spec 0 n); [|apply less_one_refl].
  replace n with (n - 1 + 1) at 1 by lia. rewrite contents_snoc by lia. by eexists.
Qed.

Lemma drop_pair_less m : pair_ok m -> pair_less m (drop_pair m).
Proof using Type.
  intros (H1 & H2 & H3). assert (Hd : forall mp r n, half_ok mp r n ->
    half_ok mp (match mp with Some _ => if 0 <? r then r - 1 else r | None => r end) n).
  { intros [mp|] r n H; [|done]. destruct H as (Ha & Hb & Hc). split_and!; [done..| |]; destruct (Z.ltb_spec 0 r); lia. }
  split; [split; [by apply Hd|split; [by apply Hd|done]]|]. split; [done|].
  split; apply half_less; [apply (half_rounds _ _ _ H1)|apply (half_rounds _ _ _ H2)].
Qed.

(** Forgetting the tops of a consistent cache. *)
Lemma drop_self p : ptc_ok p -> dropped p (drop_tops p).
Proof using Type.
  intros [H1 H2 H3 H4 H5]. split; simpl; rewrite ?length_fmap; try done; intros b Hb.
  - destruct (H4 b Hb) as [E1 E2]. unfold bin_less. rewrite drop_bin_at by (by rewrite H1). split.
    + split; [done|]. simpl. destruct (Z.ltb_spec 0 (bin_count (bin_at p b))); lia.
    + apply bin_values_less; try done; by rewrite drop_bin_at by (by rewrite H1).
  - rewrite drop_mag_at by (by rewrite H2). by apply drop_pair_less, H5.
Qed.

(** A snapshot that differs from [p] in one entry of class [b] that the drop
    forgets, or that nobody reads. *)
Lemma drop_but_bin p p' b :
  ptc_ok p -> (b < PTC_NBINS)%nat -> ptc_mags p' = ptc_mags p -> ptc_addr p' = ptc_addr p ->
  length (ptc_bins p') = PTC_NBINS -> length (ptc_pool p') = PTC_TOTAL_SLOTS ->
  (forall c, c <> b -> bin_at p' c = bin_at p c) ->
  (forall c i, (c < PTC_NBINS)%nat -> (i < Z.to_nat (bin_count (bin_at p c)))%nat ->
     ptc_pool p' !!! (bin_offset c + i)%nat = ptc_pool p !!! (bin_offset c + i)%nat) ->
  bin_less p (drop_tops p') b -> dropped p (drop_tops p').
Proof using Type.
  intros Hp Hb Em Ea Hl1 Hl2 Hbin Hpool Hless. pose proof (drop_self p Hp) as [D1 D2 D3 D4 D5].
  split; simpl; rewrite ?length_fmap, ?Em; try done; [apply Hp| |].
  - intros c Hc. destruct (decide (c = b)) as [->|Hne]; [done|]. destruct (D4 c Hc) as [B1 B2].
    assert (Eb : bin_at (drop_tops p') c = bin_at (drop_tops p) c).
    { rewrite !drop_bin_at by (rewrite ?Hl1, ?(pk_bins _ Hp); done). by rewrite Hbin. }
    unfold bin_less. rewrite Eb. split; [done|].
    assert (Ev : bin_values ck (drop_tops p') c = bin_values ck (drop_tops p) c); [|by rewrite Ev].
    apply bin_values_ext; [done|done|]. simpl. intros i Hi. destruct (pk_bin _ Hp c Hc) as [E1 _].
    rewrite drop_bin_at in Hi |- * by (by rewrite (pk_bins _ Hp)). simpl in Hi |- *. rewrite E1. apply Hpool; [done|].
    destruct (Z.ltb_spec 0 (bin_count (bin_at p c))); lia.
  - intros c Hc. unfold mag_at. simpl. rewrite Em. by apply D5.
Qed.

Lemma drop_but_pair p b m :
  ptc_ok p -> (b < PTC_NBINS)%nat -> pair_less (mag_at p b) (drop_pair m) -> dropped p (drop_tops (set_mag b m p)).
Proof using Type.
  intros Hp Hb Hless. pose proof (drop_self p Hp) as [D1 D2 D3 D4 D5].
  assert (Hl : (b < length (ptc_mags p))%nat) by (by rewrite (pk_mags _ Hp)).
  split; simpl; rewrite ?length_fmap, ?length_insert; try done; [apply Hp|apply Hp|].
  intros c Hc. rewrite drop_mag_at by (simpl; rewrite length_insert, (pk_mags _ Hp); done). rewrite mag_at_set by done.
  case_decide as E; [by subst c|]. rewrite <- drop_mag_at by (by rewrite (pk_mags _ Hp)). by apply D5.
Qed.

(** Whatever the snapshot caught, what is left after the drop was the thread's
    own. *)
Lemma drop_torn p p' : ptc_ok p -> torn p p' -> dropped p (drop_tops p').
Proof using Type.
  intros Hp Ht. destruct Ht as [|b Hb Hc|b v Hb Hc|b mp Hb El Hr|b mp v Hb El Hr]; [by apply drop_self|..].
  - assert (Hlb : (b < length (ptc_bins p))%nat) by (by rewrite (pk_bins _ Hp)).
    destruct (pk_bin _ Hp b Hb) as [E1 E2]. set (x := PtcBin _ _).
    assert (Ed : bin_at (drop_tops (set_bin b x p)) b = bin_at p b).
    { rewrite drop_bin_at by (simpl; by rewrite length_insert). rewrite bin_at_set, decide_True by done.
      unfold drop_bin, x. simpl. rewrite (proj2 (Z.ltb_lt _ _)) by lia.
      destruct (bin_at p b) as [sl n]. simpl. f_equal. lia. }
    apply (drop_but_bin p _ b); try done; [simpl; by rewrite length_insert, (pk_bins _ Hp)|apply Hp|..].
    + intros c Hne. rewrite bin_at_set by done. by rewrite decide_False.
    + unfold bin_less. rewrite Ed. split; [done|]. apply less_one_eq, bin_values_ext; done.
  - destruct (pk_bin _ Hp b Hb) as [E1 E2]. rewrite E1.
    assert (Hpool : forall c i, (c < PTC_NBINS)%nat -> (i < Z.to_nat (bin_count (bin_at p c)))%nat ->
      <[(bin_offset b + Z.to_nat (bin_count (bin_at p b)))%nat := v]> (ptc_pool p) !!! (bin_offset c + i)%nat =
      ptc_pool p !!! (bin_offset c + i)%nat).
    { intros c i Hcn Hi. apply list_lookup_total_insert_ne. destruct (pk_bin _ Hp c Hcn) as [_ Hcc].
      destruct (decide (c = b)) as [->|Hne]; [lia|]. apply bins_disjoint; [done|lia|lia]. }
    apply (drop_but_bin p _ b); try done; [apply Hp|simpl; rewrite length_insert; apply Hp|].
    destruct (drop_self p Hp) as [_ _ _ D4 _]. destruct (D4 b Hb) as [B1 B2]. split; [done|].
    set (p' := set_pool _ p). assert (Ev : bin_values ck (drop_tops p') b = bin_values ck (drop_tops p) b); [|by rewrite Ev].
    apply bin_values_ext; [done|done|]. intros i Hi. rewrite drop_bin_at in Hi |- * by (by rewrite (pk_bins _ Hp)).
    simpl in Hi |- *. rewrite E1. apply Hpool; [done|]. destruct (Z.ltb_spec 0 (bin_count (bin_at p b))); lia.
  - apply drop_but_pair; [done..|]. pose proof (pk_pair _ Hp b Hb) as (H1 & H2 & H3).
    rewrite El in H1. destruct H1 as (A1 & A2 & A3).
    destruct (drop_pair_less (mag_at p b) (pk_pair _ Hp b Hb)) as ((_ & P2 & P3) & _ & _ & P5).
    unfold drop_pair. cbn [pm_loaded pm_rounds pm_previous pm_prounds pm_magsize pm_pmagsize pm_cache].
    rewrite (proj2 (Z.ltb_lt 0 _)) by lia. replace (pm_rounds (mag_at p b) + 1 - 1) with (pm_rounds (mag_at p b)) by lia.
    split; [|split; [done|split; [apply less_one_eq; by rewrite El|exact P5]]].
    split; [done|]. split; [exact P2|]. intros Ec. destruct (H3 Ec). congruence.
  - apply drop_but_pair; [done..|]. pose proof (pk_pair _ Hp b Hb) as (H1 & H2 & H3).
    set (m := PtcMag _ _ _ _ _ _ _). rewrite El in H1. destruct H1 as (A1 & A2 & A3). pose proof (capacity_length mp A1) as Hcap.
    assert (Hm : pair_ok m).
    { split; [split; [|by split]|split; [done|]].
      - destruct A1 as [A11 A12]. split; [done|]. simpl. by rewrite length_insert.
      - intros Ec. destruct (H3 Ec). congruence. }
    destruct (drop_pair_less m Hm) as (P1 & P2 & P3 & P4). split; [done|]. split; [done|]. split; [|done].
    rewrite El. assert (Ec : held_mag ck (pm_loaded m) (pm_rounds m) = held_mag ck (Some mp) (pm_rounds (mag_at p b))); [|by rewrite <- Ec].
    apply contents_ext. intros i Hi. unfold demangled, slot_addr. simpl. rewrite list_lookup_total_insert_ne by lia. done.
Qed.

(** The objects lost, class by class. *)
Lemma choose_list {A} (P : nat -> list A -> Prop) n :
  (forall b, (b < n)%nat -> exists d, P b d) -> exists l, length l = n /\ forall b, (b < n)%nat -> P b (l !!! b).
Proof using Type.
  induction n as [|n IH]; intros H; [exists []; split; [done|intros; lia]|]. destruct IH as (l & Hl & HP); [intros; apply H; lia|].
  destruct (H n ltac:(lia)) as [d Hd]. exists (l ++ [d]). rewrite length_app, Hl. split; [simpl; lia|].
  intros b Hb. destruct (decide (b = n)) as [->|Hne].
  - rewrite list_lookup_total_middle; [exact Hd|congruence].
  - rewrite lookup_total_app_l by lia. apply HP. lia.
Qed.

Lemma dropped_classes p q :
  dropped p q -> ptc_ok q /\ exists lost : list (list Z), length lost = PTC_NBINS /\
    forall b, (b < PTC_NBINS)%nat -> class_held ck p b ≡ₚ class_held ck q b ++ lost !!! b /\ (length (lost !!! b) <= 3)%nat.
Proof using Type.
  intros [D1 D2 D3 D4 D5]. split; [split; try done; intros b Hb; [apply (D4 b Hb)|apply (D5 b Hb)]|].
  apply (choose_list (fun b d => class_held ck p b ≡ₚ class_held ck q b ++ d /\ (length d <= 3)%nat)). intros b Hb.
  destruct (D4 b Hb) as [_ (d1 & E1 & L1)]. destruct (D5 b Hb) as (_ & _ & (d2 & E2 & L2) & (d3 & E3 & L3)).
  exists (d1 ++ d2 ++ d3). unfold class_held, held_pair. rewrite E1, E2, E3, !length_app. split; [solve_Permutation|lia].
Qed.
End dropped.

(** ** The fork child *)

(** The caches of the list that belong to other threads, and to this one. *)
Definition orphans (r : registry) (self : Z) (l : list Z) : list Z :=
  List.filter (fun a => negb (reg_owner (node r a) =? self)) l.
Definition survivors (r : registry) (self : Z) (l : list Z) : list Z :=
  rev (List.filter (fun a => reg_owner (node r a) =? self) l).

Lemma walk_list l fuel self r :
  (length l <= fuel)%nat -> reg_list r l ->
  exists r', fork_walk fuel self (default 0 (head l)) (set_head 0 r) = Ok (r', orphans r self l) /\ reg_list r' (survivors r self l).
Proof.
  intros Hf [Hhead Hseg Hnd Hnz].
  destruct (walk_run l fuel self (set_head 0 r) []) as (r' & E & Hr'); [done|by rewrite app_nil_r|done| | |].
  - eapply chain_next; [|by eapply seg_chain]. by intros.
  - split; [done|done|constructor|apply not_elem_of_nil].
  - exists r'. split; [exact E|]. rewrite app_nil_r in Hr'. exact Hr'.
Qed.

Definition lost_part (h : front) (lost : list (list Z)) (cp : Z) : list Z :=
  seq 0 PTC_NBINS ≫= fun b => if decide (bin_cache h b = Some cp) then lost !!! b else [].

Lemma part_lost h p q lost cp :
  (forall b, (b < PTC_NBINS)%nat -> class_held (fr_cookie h) p b ≡ₚ class_held (fr_cookie h) q b ++ lost !!! b) ->
  ptc_part h p cp ≡ₚ ptc_part h q cp ++ lost_part h lost cp.
Proof.
  intros H. unfold ptc_part, lost_part.
  assert (Hs : forall b, b ∈ seq 0 PTC_NBINS -> (b < PTC_NBINS)%nat) by (intros b Hb; apply elem_of_seq in Hb; lia).
  revert Hs. generalize (seq 0 PTC_NBINS). intros l Hl. induction l as [|b l IH]; [done|].
  rewrite !bind_cons, IH by (intros; apply Hl; by right). specialize (H b (Hl b ltac:(left))).
  unfold bin_part. case_decide; [|by rewrite !app_nil_l]. rewrite H. solve_Permutation.
Qed.

Section fork.
Context {W : Type} {fe : front_env W} (ok : W -> (Z -> list Z) -> list (Z * Z) -> Prop) {laws : front_laws W ok}.

Lemma torn_heap w h p p' out big :
  thread_ok h p -> torn p p' -> base_ok ok w h (plus (ptc_part h p) out) big ->
  exists lost, length lost = PTC_NBINS /\ Forall (fun l => (length l <= 3)%nat) lost /\
    heap_ok ok w h (drop_tops p') (plus (lost_part h lost) out) big.
Proof.
  intros Ht Hto Hb. pose proof (drop_torn (fr_cookie h) p p' (th_ptc _ _ Ht) Hto) as Hd.
  destruct (dropped_classes _ _ _ Hd) as (Hq & lost & Hl & Hlost). exists lost. split; [done|]. split.
  { apply Forall_lookup. intros b l Eb. pose proof (lookup_lt_Some _ _ _ Eb) as Hlt. rewrite Hl in Hlt.
    destruct (Hlost b Hlt) as [_ Hle]. by rewrite (list_lookup_total_correct _ _ _ Eb) in Hle. }
  split.
  - split; [done|..]; intros b Hbn.
    + destruct (dr_pair _ _ _ Hd b Hbn) as (_ & -> & _). by apply (th_cache _ _ Ht).
    + intros Hn. pose proof (th_unused _ _ Ht b Hbn Hn) as E. destruct (Hlost b Hbn) as [Hp _]. rewrite E in Hp.
      apply Permutation_nil_l in Hp. symmetry in Hp. by apply app_nil in Hp as [? _].
  - eapply (base_ext ok); [|exact Hb]. intros cp. unfold plus. rewrite app_assoc. f_equiv.
    apply part_lost. intros b Hbn. by apply Hlost.
Qed.

(** A cache of a thread that is gone: [parts a] are its objects. *)
Definition orphan_ok (h : front) (mem : gmap Z umem_ptc) (parts : Z -> Z -> list Z) (a : Z) : Prop :=
  exists p', mem !! a = Some p' /\
    (fork_busy p' = false -> exists p, thread_ok h p /\ torn p p' /\ forall cp, parts a cp = ptc_part h p cp).
(** What the child leaks of it: everything when the snapshot was taken within
    a multi-store block, and else at most three entries of each class. *)
Definition leak_ok (h : front) (mem : gmap Z umem_ptc) (parts : Z -> Z -> list Z) (a : Z) (leak : Z -> list Z) : Prop :=
  exists p', mem !! a = Some p' /\
    if fork_busy p' then leak = parts a
    else exists lost, length lost = PTC_NBINS /\ Forall (fun l => (length l <= 3)%nat) lost /\ leak = lost_part h lost.

Lemma orphan_same h h' mem parts a : caches_same h h' \/ exit_same h h' -> orphan_ok h mem parts a -> orphan_ok h' mem parts a.
Proof using Type.
  intros E. assert (Et : tables_same h h') by (destruct E as [[? _]|[? _]]; done). destruct Et as (E1 & E2 & E3).
  intros (p' & Hm & H). exists p'. split; [done|]. intros Hf. destruct (H Hf) as (p & [T1 T2 T3] & Hto & Hp). exists p.
  split; [split; unfold bin_cache in *; by rewrite ?E1, ?E3|]. split; [done|]. intros cp. rewrite Hp.
  unfold ptc_part, bin_part, bin_cache. by rewrite E1, E3.
Qed.
Lemma leak_same h h' mem parts a leak : tables_same h h' -> leak_ok h' mem parts a leak -> leak_ok h mem parts a leak.
Proof using Type.
  intros (E1 & _) (p' & Hm & H). exists p'. split; [done|]. destruct (fork_busy p'); [done|].
  destruct H as (lost & H1 & H2 & ->). exists lost. do 2 (split; [done|]). unfold lost_part, bin_cache. by rewrite E1.
Qed.

Lemma front_exit h h' out big w' :
  (forall p, thread_ptc h = Some p -> thread_ok h p) -> exit_same h h' -> base_ok ok w' h' (plus (tpart h) out) big -> front_ok ok w' h' out big.
Proof using Type.
  intros Ht (E1 & E2 & E3) Hb. apply front_base.
  destruct E1 as (F1 & F2 & F3). assert (Etp : tpart h' = tpart h).
  { unfold tpart. rewrite E2. destruct (thread_ptc h); [|done]. unfold ptc_part, bin_part, bin_cache. by rewrite F1, F3. }
  rewrite Etp. split; [done|]. intros p Hp. rewrite E2 in Hp. destruct (Ht p Hp) as [T1 T2 T3].
  split; unfold bin_cache in *; by rewrite ?F1, ?F3.
Qed.

Lemma drain_orphans_run l mem parts w h out big :
  Forall (orphan_ok h mem parts) l -> front_ok ok w h (plus (fun cp => l ≫= fun a => parts a cp) out) big ->
  exists w' h' leaks, drain_orphans l mem w h = Ok (w', h') /\ exit_same h h' /\
    Forall2 (leak_ok h mem parts) l leaks /\ front_ok ok w' h' (plus (fun cp => leaks ≫= fun f => f cp) out) big.
Proof.
  revert w h out. induction l as [|a l IH]; intros w h out Hl Hf; [by exists w, h, []|].
  apply Forall_cons in Hl as [(p' & Hm & Hor) Hl]. cbn [drain_orphans]. rewrite Hm. cbn [read res_bind].
  assert (Hstep : exists w1 h1 leak, (if fork_busy p' then Ok (w, h)
      else do (w, h, _) <- umem_ptc_destroy w h (drop_tops p'); Ok (w, h)) = Ok (w1, h1) /\ exit_same h h1 /\
      leak_ok h mem parts a leak /\ front_ok ok w1 h1 (plus (fun cp => l ≫= fun a => parts a cp) (plus leak out)) big).
  { unfold leak_ok. rewrite Hm. destruct (fork_busy p') eqn:Efb.
    - exists w, h, (parts a). do 2 (split; [done|]). split; [exists p'; by rewrite Efb|].
      eapply (front_ext ok); [|exact Hf]. intros cp. unfold plus. rewrite bind_cons. solve_Permutation.
    - destruct (Hor eq_refl) as (p & Ht & Hto & Hp). destruct (proj1 (front_base ok _ _ _ _) Hf) as [Hb Hth].
      destruct (torn_heap w h p p' (plus (tpart h) (plus (fun cp => l ≫= fun a => parts a cp) out)) big Ht Hto) as (lost & L1 & L2 & Hh).
      { eapply (base_ext ok); [|exact Hb]. intros cp. unfold plus. rewrite bind_cons, Hp.
        generalize (ptc_part h p cp), (tpart h cp). intros. solve_Permutation. }
      destruct (destroy_run ok w h (drop_tops p') _ big Hh) as (w1 & h1 & q & -> & E1 & Hb1 & _). cbn [res_bind].
      exists w1, h1, (lost_part h lost). do 2 (split; [done|]). split; [exists p'; rewrite Efb; by eauto|].
      apply (front_exit h); [exact Hth|exact E1|]. eapply (base_ext ok); [|exact Hb1].
      intros cp. unfold plus. generalize (lost_part h lost cp), (tpart h cp). intros. solve_Permutation. }
  destruct Hstep as (w1 & h1 & leak & -> & E1 & Hleak & Hf1). cbn [res_bind].
  destruct (IH w1 h1 (plus leak out)) as (w' & h' & leaks & -> & E2 & Hleaks & Hf').
  { eapply Forall_impl; [exact Hl|]. intros x. apply orphan_same. by right. } { done. }
  exists w', h', (leak :: leaks). split; [done|]. split; [by eapply exit_same_trans|]. split.
  - constructor; [done|]. eapply Forall2_impl; [exact Hleaks|]. intros x f. apply leak_same, E1.
  - eapply (front_ext ok); [|exact Hf']. intros cp. unfold plus. rewrite bind_cons. solve_Permutation.
Qed.
End fork.
