(* ===== verification/PtcDemo.v ===== *)
(** * A concrete world below the front end

    Slab layers that hand out fresh addresses from one counter and remember
    which cache each came from, an oversize arena that does the same, and a
    front end over one cache: the interface [front_laws] holds of it, so its
    hypotheses can be met. *)
From S2P Require Import Prelude Machine SlabModel AllocSizes MagModel MagOps MagInv MagSpec MagLoops MagRefine MagBatch.
From S2P Require Import PtcModel PtcTables PtcPool PtcClass PtcReg FrontModel FrontInv.

(** The next address, the live objects with their caches, the live oversize
    buffers with their sizes. *)
Record counter := Counter { ct_next : Z; ct_live : gmap Z Z; ct_big : gmap Z Z }.

Definition ct_bump (n : Z) (w : counter) : counter := Counter (ct_next w + n) (ct_live w) (ct_big w).
Definition counter_mags (cp : Z) : mag_env counter := {|
  env_slab_take w umflag := Ok (Counter (ct_next w + 64) (<[ct_next w := cp]> (ct_live w)) (ct_big w), ct_next w);
  env_slab_give w b := if bool_decide (ct_live w !! b = Some cp) then Ok (Counter (ct_next w) (delete b (ct_live w)) (ct_big w))
                       else Panic "bad free";
  env_construct w b := (w, false);
  env_destruct w b := w;
  env_alloc_debug w b := Panic "no buftags";
  env_free_debug w b := Panic "no buftags";
  env_verify w b := true;
  env_report w e b := Ok w;
  env_hook_alloc w b := w;
  env_hook_free w b := w;
  env_init w := (w, false);
  env_checknull w := Ok w;
  env_nofail w := (w, None);
  env_reclaim w := w;
  env_shell_reap w t := w;
  env_shell_alloc w t := (ct_bump 4096 w, Some (Mag (ct_next w) t (replicate (Z.to_nat (magsize_of t)) 0)));
  env_shell_free w mp := w;
  env_getcpu w := (w, 0);
  env_trylock w := (w, true) |}.

Definition blank_pool : list Z := replicate PTC_TOTAL_SLOTS 0.
Lemma blank_pool_length : length blank_pool = PTC_TOTAL_SLOTS.
Proof. apply length_replicate. Qed.

#[export] Instance counter_front : front_env counter := {|
  fe_cache := counter_mags;
  fe_ptc_alloc w := (ct_bump 24576 w, Some (Z.max 1 (ct_next w), blank_pool));
  fe_ptc_free w a := w;
  fe_setspecific w := (w, true);
  fe_self w := 1;
  fe_hooks_on w := false;
  fe_hook_alloc w b n := w;
  fe_hook_free w b n := w;
  fe_tag w cp b n := w;
  fe_redzone_ok w cp b n := Ok (w, true);
  fe_bzero w b n := w;
  fe_oversize_ready w := (w, true);
  fe_oversize_alloc w n umflag := Ok (Counter (ct_next w + n) (ct_live w) (<[ct_next w := n]> (ct_big w)), ct_next w);
  fe_oversize_free w b n := if bool_decide (ct_big w !! b = Some n) then Ok (Counter (ct_next w) (ct_live w) (delete b (ct_big w)))
                            else Panic "bad free";
  fe_log_failure w n := w |}.

Record counted_ok (w : counter) (F : Z -> list Z) (big : list (Z * Z)) : Prop := CountedOk {
  ck_next : 0 < ct_next w;
  ck_nodup cp : NoDup (F cp);
  ck_live cp b : b ∈ F cp <-> ct_live w !! b = Some cp;
  ck_below b cp : ct_live w !! b = Some cp -> 0 < b < ct_next w;
  ck_bigdup : NoDup big;
  ck_big b n : (b, n) ∈ big <-> ct_big w !! b = Some n;
  ck_bigbelow b n : ct_big w !! b = Some n -> 0 < b < ct_next w;
}.

Lemma counted_bump w F big n : 0 <= n -> counted_ok w F big -> counted_ok (ct_bump n w) F big.
Proof.
  intros Hn [H1 H2 H3 H4 H5 H6 H7]. split; try done; simpl; [lia|..].
  - intros b cp Hb. specialize (H4 b cp Hb). lia.
  - intros b m Hb. specialize (H7 b m Hb). lia.
Qed.

Lemma counted_take w F big cp A :
  counted_ok w (upd cp A F) big ->
  counted_ok (Counter (ct_next w + 64) (<[ct_next w := cp]> (ct_live w)) (ct_big w)) (upd cp (ct_next w :: A) F) big.
Proof.
  intros [H1 H2 H3 H4 H5 H6 H7].
  assert (Hnew : ct_live w !! ct_next w = None).
  { destruct (ct_live w !! ct_next w) eqn:E; [|done]. apply H4 in E. lia. }
  split; try done; simpl; [lia|..].
  - intros x. destruct (decide (x = cp)) as [->|Hne].
    + rewrite upd_eq. constructor; [|by specialize (H2 cp); rewrite upd_eq in H2].
      intros Hin. specialize (H3 cp (ct_next w)). rewrite upd_eq in H3. apply H3 in Hin. congruence.
    + specialize (H2 x). by rewrite upd_ne in H2 |- *.
  - intros x b. rewrite lookup_insert_Some. specialize (H3 x b). destruct (decide (x = cp)) as [->|Hne].
    + rewrite upd_eq in H3 |- *. rewrite elem_of_cons, H3. split; [intros [->|Hb]; [by left|]|intros [[-> _]|[_ Hb]]; auto].
      right. split; [|done]. intros <-. congruence.
    + rewrite upd_ne in H3 |- * by done. rewrite H3. split; [intros Hb; right; split; [intros <-; congruence|done]|].
      intros [[_ ->]|[_ Hb]]; done.
  - intros b x. rewrite lookup_insert_Some. intros [[<- _]|[_ Hb]]; [lia|]. specialize (H4 b x Hb). lia.
  - intros b n Hb. specialize (H7 b n Hb). lia.
Qed.

Lemma counted_give w F big cp A b :
  counted_ok w (upd cp (b :: A) F) big ->
  ct_live w !! b = Some cp /\ counted_ok (Counter (ct_next w) (delete b (ct_live w)) (ct_big w)) (upd cp A F) big.
Proof.
  intros [H1 H2 H3 H4 H5 H6 H7]. pose proof (H2 cp) as Hn. rewrite upd_eq in Hn. apply NoDup_cons in Hn as [Hb HA].
  assert (Hl : ct_live w !! b = Some cp) by (apply H3; rewrite upd_eq; left). split; [done|].
  split; try done; simpl.
  - intros x. destruct (decide (x = cp)) as [->|Hne]; [by rewrite upd_eq|]. specialize (H2 x). by rewrite upd_ne in H2 |- *.
  - intros x c. rewrite lookup_delete_Some. specialize (H3 x c). destruct (decide (x = cp)) as [->|Hne].
    + rewrite upd_eq in H3 |- *. rewrite elem_of_cons in H3. rewrite <- H3. split; [intros Hc; split; [by intros <-|by right]|].
      intros [Hne [->|Hc]]; done.
    + rewrite upd_ne in H3 |- * by done. rewrite H3. split; [intros Hc; split; [intros <-; congruence|done]|by intros [_ ?]].
  - intros c x. rewrite lookup_delete_Some. intros [_ Hc]. by eapply H4.
Qed.

Lemma counted_ext w F G big big' : (forall cp, F cp ≡ₚ G cp) -> big ≡ₚ big' -> counted_ok w F big -> counted_ok w G big'.
Proof.
  intros E Eb [H1 H2 H3 H4 H5 H6 H7]. split; try done.
  - intros cp. by rewrite <- E.
  - intros cp b. by rewrite <- E.
  - by rewrite <- Eb.
  - intros b n. by rewrite <- Eb.
Qed.

Lemma counter_mag_laws cp F big :
  mag_source_laws counter (env := counter_mags cp) (fun w A => counted_ok w (upd cp A F) big).
Proof.
  split; simpl; try done.
  - intros w A B E. apply counted_ext; [|done]. intros x. unfold upd. by case_decide.
  - intros w A [_ H _ _ _ _ _]. specialize (H cp). by rewrite upd_eq in H.
  - intros w A [_ _ H3 H4 _ _ _] H0. specialize (H3 cp 0). rewrite upd_eq in H3. apply H3, H4 in H0. lia.
  - intros w A _ H. eexists _, _. split; [done|]. right. split; [destruct H; lia|by apply counted_take].
  - intros w A b H. apply counted_give in H as [Hl H]. rewrite bool_decide_true by done. by eexists.
  - intros w A t _ H. by apply counted_bump.
  - intros w t mp Ht [= <-]. simpl. split; [done|]. rewrite length_replicate. pose proof (magsize_pos t Ht). lia.
Qed.

Lemma counter_laws : front_laws counter counted_ok.
Proof.
  split; simpl; try done.
  - intros. by eapply counted_ext.
  - apply counter_mag_laws.
  - intros w F big cp1 cp2 b [_ _ H _ _ _ _] H1%H H2%H. congruence.
  - intros w F big H. by apply counted_bump.
  - intros w addr pool [= <- <-]. split; [lia|apply blank_pool_length].
  - intros w F big n _ [H1 H2 H3 H4 H5 H6 H7] Hn. unfold UMEM_MAXBUF in Hn. eexists _, _. split; [done|]. right. split; [lia|].
    assert (Hnew : ct_big w !! ct_next w = None) by (destruct (ct_big w !! ct_next w) eqn:E; [apply H7 in E; lia|done]).
    split; try done; simpl; [lia|..].
    + intros b cp Hb. specialize (H4 b cp Hb). lia.
    + constructor; [|done]. intros Hin%H6. congruence.
    + intros b m. rewrite elem_of_cons, lookup_insert_Some, H6. split.
      * intros [[= -> ->]|Hb]; [by left|right]. split; [intros <-; congruence|done].
      * intros [[<- <-]|[_ Hb]]; auto.
    + intros b m. rewrite lookup_insert_Some. intros [[<- _]|[_ Hb]]; [lia|]. specialize (H7 b m Hb). lia.
  - intros w F big b n [H1 H2 H3 H4 H5 H6 H7]. apply NoDup_cons in H5 as [Hb H5].
    assert (Hl : ct_big w !! b = Some n) by (apply H6; left). rewrite bool_decide_true by done. eexists. split; [done|].
    split; try done; simpl.
    + intros c m. rewrite lookup_delete_Some, <- H6, elem_of_cons. split.
      * intros Hc. split; [|by right]. intros <-. apply Hb. specialize (H6 b m). rewrite elem_of_cons in H6.
        assert (m = n) as -> by (assert (ct_big w !! b = Some m) by (apply H6; by right); congruence). done.
      * intros [Hne [[= -> ->]|Hc]]; done.
    + intros c m. rewrite lookup_delete_Some. intros [_ Hc]. by eapply H7.
Qed.
