(* ===== verification/PtcProps.v ===== *)
(** * The per-thread cache and the front end: properties

    The claims about umem_ptc.c and about [umem_alloc] and [umem_free], with a
    concrete world for each. *)
From S2P Require Import Prelude Machine SlabModel AllocSizes MagModel MagOps MagInv MagSpec MagLoops MagRefine MagBatch.
From S2P Require Import PtcModel PtcTables PtcPool PtcClass PtcReg FrontModel FrontInv FrontOps FrontAlloc PtcExit PtcDemo.

(** ** A front end over one cache *)

Definition demo_cp : Z := 0x1000.
Definition demo_table : list Z := replicate (Z.to_nat 16384) demo_cp.
Definition demo_bins : list Z := 0 :: replicate (Z.to_nat 16383) (-1).
Definition demo_link : Z := 0x5a5a5a5a5a5a5a5a.
Definition demo_layer : mags :=
  Mags (MagCfg 0 demo_link 0 false (fun _ => 0) false false 8 4) [CpuCache (-1) (-1) None None 3 0 0 0]
    (MagList [] 0 0 0 0) (MagList [] 0 0 0 0) [] [] 1 (-1) (MagStats 0 0 0 0 0 0 0).
Definition demo_front : front :=
  Front demo_link (PtcGlobals true 8192 true true [] demo_bins demo_bins) demo_table {[demo_cp := demo_layer]}
    None false false (Registry 0 ∅).
Definition demo_counter : counter := Counter 4096 ∅ ∅.

Lemma demo_table_all idx cp : demo_table !! idx = Some cp -> cp = demo_cp.
Proof. unfold demo_table. intros H. by apply lookup_replicate in H as [-> _]. Qed.
Lemma demo_table_length : Z.of_nat (length demo_table) = 16384.
Proof. unfold demo_table. rewrite length_replicate. lia. Qed.

Lemma demo_bin_cache b : (b < PTC_NBINS)%nat -> 0 < umem_ptc_bin_size (Z.of_nat b) <= UMEM_MAXBUF ->
  bin_cache demo_front b = Some demo_cp.
Proof.
  intros Hb Hs. unfold bin_cache. simpl fr_table. rewrite (table_cache_at _ demo_table_length) by done.
  unfold demo_table. apply lookup_replicate_2. pose proof (index_range _ Hs). lia.
Qed.

Lemma demo_layer_ok : cache_ok demo_front demo_layer.
Proof.
  split_and!; try done.
  - split; simpl; try done; try lia; repeat constructor; simpl; try lia; try done; by left.
  - split; [done|]. by repeat constructor.
Qed.

Lemma demo_shape : shape demo_front.
Proof.
  split.
  - apply demo_table_length.
  - change (Z.of_nat (S (length (replicate (Z.to_nat 16383) (-1)))) = 16384). rewrite length_replicate. lia.
  - intros cp Hcp. apply list_elem_of_lookup in Hcp as [i Hi]. apply demo_table_all in Hi as ->.
    split; [done|]. simpl. rewrite lookup_singleton_eq. by eexists.
  - intros idx cp bin Hi Hb H0. apply demo_table_all in Hi as ->. cbn [umem_ptc_bin_table fr_ptc demo_front] in Hb.
    destruct idx as [|idx]; cbn in Hb.
    + injection Hb as <-. split; [lia|]. apply demo_bin_cache; [unfold PTC_NBINS; simpl; lia|]. change (umem_ptc_bin_size _) with 8. unfold UMEM_MAXBUF. lia.
    + apply lookup_replicate in Hb as [-> _]. lia.
  - intros cp s. simpl. rewrite lookup_singleton_Some. intros [<- <-]. apply demo_layer_ok.
Qed.

Lemma demo_front_ok : front_ok counted_ok demo_counter demo_front (fun _ => []) [].
Proof.
  split; [apply demo_shape|]. assert (Hh : forall cp, plus (held_of demo_front) (fun _ => []) cp = []).
  { intros cp. unfold plus, held_of. simpl. rewrite app_nil_r. destruct (decide (cp = demo_cp)) as [->|Hne].
    - by rewrite lookup_singleton_eq.
    - by rewrite lookup_singleton_ne. }
  split.
  - done.
  - intros cp. rewrite Hh. constructor.
  - intros cp b. rewrite Hh. simpl. rewrite lookup_empty. split; [by intros H%elem_of_nil|done].
  - intros b cp. simpl. by rewrite lookup_empty.
  - constructor.
  - intros b n. simpl. rewrite lookup_empty. split; [by intros H%elem_of_nil|done].
  - intros b n. simpl. by rewrite lookup_empty.
Qed.

(** ** Tables *)

(** Initialisation gives every index of [umem_alloc_table] the bin of its
    backing cache's object size, or none when that size is beyond the limit,
    is not one of the cached classes, or its cache keeps debugging
    information.  The bin's own size maps back to the same cache, so a bin
    never mixes the objects of two caches.  While the hooks are on, every
    entry is published as -1. *)
Theorem bin_table_backed (sizes l : list Z) (k : nat) (caches : list Z) (null : Z) (ci : cache_info) (g : ptc_globals) :
  sizes_ok sizes l k -> (length l <= length caches)%nat -> 0 ∉ caches ->
  (forall i s cp, l !! i = Some s -> caches !! i = Some cp -> ci_bufsize ci cp = s) -> umem_ptc_enabled g = true ->
  exists table g', umem_alloc_table sizes caches null = (table, UMEM_MAXBUF + UMEM_ALIGN) /\
    umem_ptc_init ci table true true g = Ok g' /\
    forall idx cp, table !! idx = Some cp -> exists bin,
      umem_ptc_bin_table (umem_ptc_bin_publish true g') !! idx = Some (-1) /\
      umem_ptc_bin_table (umem_ptc_bin_publish false g') !! idx = Some bin /\
      ((bin = -1 /\ (umem_ptc_maxsize g < ci_bufsize ci cp \/ (ci_bufsize ci cp ∉ ptc_size_classes) \/ debug_cache ci cp = true)) \/
       (0 <= bin < 36 /\ umem_ptc_bin_size bin = ci_bufsize ci cp /\
        8 * (Z.of_nat idx + 1) <= ci_bufsize ci cp <= umem_ptc_maxsize g /\
        table_cache table (umem_ptc_bin_size bin) = Some cp /\ debug_cache ci cp = false)).
Proof.
  intros Hs Hc Hn Hb He. destruct (alloc_table_run sizes l k caches null Hs Hc) as (table & Et & Hlen & _).
  destruct (ptc_init_run ci table g Hlen He) as (g' & Ei & Hg & Em). exists table, g'. do 2 (split; [done|]).
  intros idx cp Hi. destruct (entry_backed sizes l k caches null ci Hs Hc Hn Hb table g' idx cp Et Hg Hi) as (bin & Hr & H).
  exists bin. unfold umem_ptc_bin_publish. rewrite (to_ready _ _ _ Hg). cbn [umem_ptc_bin_table].
  rewrite !list_lookup_fmap, Hr, <- Em. done.
Qed.

Definition plain_caches : cache_info := CacheInfo (fun _ => 0) (fun cp => cp).
Lemma bin_table_backed_witness :
  exists table g', umem_alloc_table umem_alloc_sizes (take 49 umem_alloc_sizes) 7 = (table, UMEM_MAXBUF + UMEM_ALIGN) /\
    umem_ptc_init plain_caches table true true (PtcGlobals true 8192 false false [] [] []) = Ok g' /\
    exists bin, umem_ptc_bin_table (umem_ptc_bin_publish false g') !! 21%nat = Some bin.
Proof.
  destruct (bin_table_backed umem_alloc_sizes (take 49 umem_alloc_sizes) 16 (take 49 umem_alloc_sizes) 7 plain_caches
    (PtcGlobals true 8192 false false [] [] [])) as (table & g' & E1 & E2 & H).
  - apply umem_alloc_sizes_ok.
  - reflexivity.
  - apply (bool_decide_unpack _). vm_compute. exact I.
  - intros i s cp H1 H2. simpl. congruence.
  - reflexivity.
  - exists table, g'. do 2 (split; [assumption|]).
    destruct (alloc_table_run umem_alloc_sizes (take 49 umem_alloc_sizes) 16 (take 49 umem_alloc_sizes) 7)
      as (t & E3 & Hlen & _); [apply umem_alloc_sizes_ok|reflexivity|].
    rewrite E1 in E3. injection E3 as <-.
    destruct (lookup_lt_is_Some_2 table 21) as [cp Hcp]; [lia|]. destruct (H 21%nat cp Hcp) as (bin & _ & Hb & _). by exists bin.
Defined.

(** ** The front end *)

Section front.
Context {W : Type} {fe : front_env W} {ok : W -> (Z -> list Z) -> list (Z * Z) -> Prop} {laws : front_laws W ok}.

(** The object of a request is new to every client. *)
Lemma given_fresh w h size b out big cp x :
  front_ok ok w h (given h size b out) big -> table_cache (fr_table h) size = Some cp -> b ∉ out x.
Proof using laws.
  unfold given. intros Hf E. rewrite E in Hf. destruct (proj1 (front_base ok _ _ _ _) Hf) as [[Hs Hok] _].
  destruct (sh_cache _ Hs cp (table_cache_elem _ _ _ E)) as [_ [s Es]].
  assert (Hb : b ∈ plus (held_of h) (plus (tpart h) (upd cp (b :: out cp) out)) cp).
  { unfold plus. rewrite upd_eq, !elem_of_app, elem_of_cons. auto. }
  intros Hx. destruct (decide (x = cp)) as [->|Hne].
  - pose proof (front_magazines ok _ _ _ _ _ _ Hf Es) as (_ & _ & Hm).
    apply (ms_nodup (mag_source_laws := ok_at_laws ok cp _ big)) in Hm. rewrite upd_eq in Hm.
    apply NoDup_app in Hm as (_ & _ & Hm). apply NoDup_app in Hm as (_ & _ & Hm). by apply NoDup_cons in Hm as [? _].
  - apply Hne. eapply (fl_apart w _ big x cp b Hok); [|done]. unfold plus. rewrite upd_ne by done. rewrite !elem_of_app. auto.
Qed.

(** C5: [umem_alloc] and [umem_zalloc], on every path (the thread's bin, its
    magazines, the depot, the magazine layer, the slab layer, the oversize
    arena, hooks on or off), give NULL and change nothing the clients hold, or
    give an object no client holds; freeing it with the same size takes back
    exactly that object.  A request of a cached size that may not fail never
    gets NULL.  No table is read out of bounds, no assertion fires and no slot
    outside its array is touched on the way. *)
Theorem alloc_free_roundtrip (zero : bool) (n fuel : nat) (umf umflag size : Z) (w : W) (h : front)
    (out : Z -> list Z) (big : list (Z * Z)) :
  has umf UMF_CHECKNULL = false -> 0 <= size < 2 ^ 64 -> front_ok ok w h out big ->
  match (if zero then _umem_zalloc n fuel umf w h size umflag else _umem_alloc n fuel umf w h size umflag) with
  | Ok (w1, h1, b) =>
      (b = 0 /\ front_ok ok w1 h1 out big /\ (0 < size <= UMEM_MAXBUF -> has umflag UMEM_NOFAIL = false)) \/
      (b <> 0 /\ (size <= UMEM_MAXBUF -> forall cp, b ∉ out cp) /\
       front_ok ok w1 h1 (given h size b out) (given_big h size b big) /\
       exists w2 h2, _umem_free w1 h1 b size = Ok (w2, h2) /\ front_ok ok w2 h2 out big)
  | Panic _ => n = 0%nat \/ fuel = 0%nat \/ has umflag UMEM_NOFAIL = true
  end.
Proof using laws.
  intros Hchk Hsz Hf. destruct (Z.eq_dec size 0) as [->|Hne].
  { destruct n as [|n]; [destruct zero; by left|]. destruct zero; simpl; left; split_and!; try done; lia. }
  assert (Ho : front_outcome ok n fuel umflag h size out big
    (if zero then _umem_zalloc n fuel umf w h size umflag else _umem_alloc n fuel umf w h size umflag)).
  { destruct zero; [by apply zalloc_run|by apply alloc_run]. }
  destruct (if zero then _ else _) as [[[w1 h1] b]|]; [|done]. destruct Ho as [E [H|[Hb H]]]; [by left|right].
  destruct (given_same h h1 size b out big E) as [G1 G2]. rewrite <- G1, <- G2 in *.
  split; [done|]. split; [|split; [done|]].
  - intros Hle cp. destruct (index_in_table size) eqn:Ei.
    + destruct (request_in h1 size (front_shape ok _ _ _ _ H) Hsz Ei) as (cp' & _ & _ & Etc & _ & _).
      unfold given_big in H. rewrite Etc in H. by eapply given_fresh.
    + destruct (request_out h1 size (front_shape ok _ _ _ _ H) Hsz Ei) as [_ [?|?]]; [done|lia].
  - destruct (free_given_run ok w1 h1 out big size b Hsz Hne Hb H) as (w2 & h2 & ? & _ & ?). by eauto.
Qed.

(** ** Thread exit and fork *)


(** C11: A thread that exits gives back everything its cache holds: the objects
    of every bin and magazine, of every class, are again in the magazine or
    slab layer of the cache they came from, what the clients hold is untouched
    and the cache is off the registry. *)
Theorem thread_exit_returns_all (w : W) (h : front) (p : umem_ptc) (l1 l2 : list Z) (out : Z -> list Z) (big : list (Z * Z)) :
  front_ok ok w h out big -> thread_ptc h = Some p -> reg_list (fr_registry h) (l1 ++ ptc_addr p :: l2) ->
  exists w' h', umem_ptc_cleanup w h = Ok (w', h') /\ thread_ptc h' = None /\
    shape h' /\ ok w' (plus (held_of h') out) big /\
    reg_list (fr_registry h') (l1 ++ l2) /\ unlinked (fr_registry h') (ptc_addr p).
Proof using laws.
  intros Hf Hp Hr. destruct (cleanup_run ok w h out big Hf) as (w' & h' & E & _ & Et & Er & [Hs Hok]).
  exists w', h'. rewrite (Er p Hp). do 4 (split; [done|]). by apply unregister_list.
Qed.

(** C12: The fork child drains the caches of the threads that did not survive,
    in whatever state the fork caught them: each may be in the middle of one
    push, whose entry and count may have been stored in either order.  No
    object a client holds is freed; of a cache caught outside a multi-store
    block at most three entries per class are lost, and a cache caught inside
    one is left alone.  The registry keeps the surviving thread's cache only. *)
Theorem fork_child_frees_own (fuel : nat) (mem : gmap Z umem_ptc) (parts : Z -> Z -> list Z) (w : W) (h : front)
    (l : list Z) (out : Z -> list Z) (big : list (Z * Z)) :
  (length l <= fuel)%nat -> reg_list (fr_registry h) l ->
  Forall (orphan_ok h mem parts) (orphans (fr_registry h) (fe_self w) l) ->
  front_ok ok w h (plus (fun cp => orphans (fr_registry h) (fe_self w) l ≫= fun a => parts a cp) out) big ->
  exists w' h' leaks, umem_ptc_fork_release_child fuel mem w h = Ok (w', h') /\
    Forall2 (leak_ok h mem parts) (orphans (fr_registry h) (fe_self w) l) leaks /\
    front_ok ok w' h' (plus (fun cp => leaks ≫= fun f => f cp) out) big /\
    reg_list (fr_registry h') (survivors (fr_registry h) (fe_self w) l).
Proof using laws.
  intros Hfuel Hr Hl Hf. pose proof Hr as [Hhead Hseg Hnd Hnz]. unfold umem_ptc_fork_release_child, fork_release_child_walk.
  destruct (walk_list l fuel (fe_self w) (fr_registry h) Hfuel Hr) as (r' & E & Hr'). rewrite Hhead, E. cbn [res_bind].
  destruct (drain_orphans_run ok (orphans (fr_registry h) (fe_self w) l) mem parts w (set_registry r' h) out big)
    as (w' & h' & leaks & Ed & Es & Hlk & Hf').
  { eapply Forall_impl; [exact Hl|]. intros x. apply orphan_same. by left. }
  { unfold front_ok in *. cbn [thread_ptc set_registry]. destruct (thread_ptc h); [by apply (caches_heap ok w h)|by apply (caches_base ok w h)]. }
  exists w', h', leaks. split; [exact Ed|]. split; [|split; [done|]].
  - eapply Forall2_impl; [exact Hlk|]. intros x f. by apply leak_same.
  - destruct Es as (_ & _ & ->). exact Hr'.
Qed.
End front.

(** C28: The links of the registry are a list: registering a cache adds it to the
    front, unregistering one removes it wherever it is and clears its links,
    and the fork child's walk visits every other thread's cache once, in
    order, and leaves this thread's. *)
Theorem registry_is_list (r : registry) (l : list Z) :
  reg_list r l ->
  (forall x, x ∉ l -> x <> 0 -> reg_list (umem_ptc_register x r) (x :: l)) /\
  (forall x l1 l2, l = l1 ++ x :: l2 -> reg_list (umem_ptc_unregister x r) (l1 ++ l2) /\ unlinked (umem_ptc_unregister x r) x) /\
  (forall self fuel, (length l <= fuel)%nat -> exists r', fork_release_child_walk fuel self r = Ok (r', orphans r self l) /\
     reg_list r' (survivors r self l)).
Proof.
  intros Hr. split; [intros; by apply register_list|]. split; [intros x l1 l2 ->; by apply unregister_list|].
  intros self fuel Hf. unfold fork_release_child_walk. rewrite (rl_head _ _ Hr). by apply walk_list.
Qed.

Lemma registry_is_list_witness :
  reg_list (umem_ptc_unregister 64 (umem_ptc_register 128 (umem_ptc_register 64 (Registry 0 ∅)))) [128].
Proof.
  assert (H0 : reg_list (Registry 0 ∅) []) by (split; [reflexivity|exact I|constructor|apply not_elem_of_nil]).
  pose proof (register_list 64 _ [] H0 (not_elem_of_nil _) ltac:(discriminate)) as H1.
  assert (Hn : 128 ∉ [64]) by (apply (bool_decide_unpack _); vm_compute; exact I).
  pose proof (register_list 128 _ [64] H1 Hn ltac:(discriminate)) as H2.
  destruct (registry_is_list _ [128; 64] H2) as (_ & H & _). apply (H 64 [128] [] eq_refl).
Defined.

(** [umem_ptc_init] does not skip the padding classes: the last of them leaves
    its bin in the entry of size zero, so [umem_ptc_size_to_bin (0)] is a bin,
    and [umem_ptc_alloc (0)] reads [umem_alloc_table] at [(size_t)-1 >> 3]. *)
Theorem ptc_size_zero_overruns {W : Type} {fe : front_env W} (fuel : nat) (umf : Z) (w : W) (h : front) (p : umem_ptc) (ci : cache_info) :
  Z.of_nat (length (fr_table h)) = 16384 -> tables_ok ci (fr_table h) (fr_ptc h) -> 0 <= umem_ptc_maxsize (fr_ptc h) ->
  thread_ptc h = Some p -> bin_count (bin_at p 27) = 0 ->
  umem_ptc_size_to_bin (fr_ptc h) 0 = 27 /\ umem_ptc_bin_size 27 = 0 /\
  umem_ptc_alloc fuel umf w h 0 = Panic "umem_alloc_table overrun".
Proof.
  intros Hl Hg Hm Hp Hc. assert (H27 : umem_ptc_size_to_bin (fr_ptc h) 0 = 27).
  { unfold umem_ptc_size_to_bin. rewrite (to_enabled _ _ _ Hg), (to_ready _ _ _ Hg), (proj2 (Z.ltb_ge _ _)) by done.
    cbn [negb orb]. change (round8 0 / 8) with 0. change (PTC_SIZE_TO_BIN_ENTRIES <=? 0) with false.
    apply list_lookup_total_correct, (to_zero _ _ _ Hg). }
  split; [done|]. split; [done|]. unfold umem_ptc_alloc. rewrite (to_enabled _ _ _ Hg), H27. cbn [negb].
  change (27 <? 0) with false. unfold umem_ptc_get. rewrite (to_enabled _ _ _ Hg), Hp. cbn [negb res_bind].
  change (Z.to_nat 27) with 27%nat. rewrite Hc. change (0 <? 0) with false. change (umem_ptc_bin_size 27) with 0.
  unfold umem_ptc_bin_refill. rewrite H27. change (27 <? 0) with false. unfold cache_for, table_cache.
  rewrite Hl. done.
Qed.

(** ** Witnesses *)

#[local] Existing Instance counter_laws.

Definition ok_or {A} (d : A) (r : result A) : A := match r with Ok x => x | Panic _ => d end.
Definition is_ok {A} (r : result A) : bool := match r with Ok _ => true | Panic _ => false end.

(** A thread that has allocated 8 bytes, and freed them again. *)
Definition demo_got : counter * front * Z :=
  ok_or (demo_counter, demo_front, 0) (_umem_alloc 1 1 0 demo_counter demo_front 8 0).
Definition demo_back : counter * front :=
  ok_or (demo_counter, demo_front) (_umem_free demo_got.1.1 demo_got.1.2 demo_got.2 8).

Lemma demo_got_run :
  _umem_alloc 1 1 0 demo_counter demo_front 8 0 = Ok demo_got /\ demo_got.2 = 0x7000.
Proof.
  split; [|vm_compute; reflexivity]. unfold demo_got.
  assert (H : is_ok (_umem_alloc 1 1 0 demo_counter demo_front 8 0) = true) by (vm_compute; reflexivity).
  by destruct (_umem_alloc 1 1 0 demo_counter demo_front 8 0).
Qed.

Lemma demo_got_ok : front_ok counted_ok demo_got.1.1 demo_got.1.2 (given demo_got.1.2 8 demo_got.2 (fun _ => [])) [].
Proof.
  destruct demo_got_run as [E Hb]. pose proof (alloc_run counted_ok 1 1 0 demo_counter demo_front (fun _ => []) [] 8 0
    eq_refl demo_front_ok ltac:(lia)) as H.
  rewrite E in H. destruct demo_got as [[w h] b]. cbn [fst snd] in *. destruct H as [Es [(-> & _)|[_ H]]]; [done|].
  destruct (given_same demo_front h 8 b (fun _ => []) [] Es) as [G1 G2]. rewrite G1.
  assert (Etc : table_cache (fr_table demo_front) 8 = Some demo_cp) by exact (demo_bin_cache 0 ltac:(unfold PTC_NBINS; lia) ltac:(split; [reflexivity|discriminate])).
  unfold given_big in H. rewrite Etc in H. exact H.
Qed.

Lemma demo_back_run :
  _umem_free demo_got.1.1 demo_got.1.2 demo_got.2 8 = Ok demo_back /\
  front_ok counted_ok demo_back.1 demo_back.2 (fun _ => []) [].
Proof.
  unfold demo_back. destruct (free_given_run counted_ok demo_got.1.1 demo_got.1.2 (fun _ => []) [] 8 demo_got.2)
    as (w' & h' & -> & _ & H); [lia|lia|by rewrite (proj2 demo_got_run)| |done].
  assert (Etc : table_cache (fr_table demo_got.1.2) 8 = Some demo_cp) by (vm_compute; reflexivity).
  unfold given_big. rewrite Etc. apply demo_got_ok.
Qed.

(** The thread's cache, with the object in its first bin. *)
Definition demo_ptc : umem_ptc := default (Ptc 0 [] [] false 0 []) (thread_ptc demo_back.2).
Definition has_thread (h : front) : bool := match thread_ptc h with Some _ => true | None => false end.
Lemma has_thread_some h p : has_thread h = true -> thread_ptc h = Some (default p (thread_ptc h)).
Proof. unfold has_thread. by destruct (thread_ptc h). Qed.
Lemma demo_thread : thread_ptc demo_back.2 = Some demo_ptc.
Proof. apply has_thread_some. vm_compute. reflexivity. Qed.
Lemma demo_ptc_addr : ptc_addr demo_ptc = 0x1000.
Proof. vm_compute. reflexivity. Qed.
Lemma demo_registry_head : umem_ptc_list (fr_registry demo_back.2) = 0x1000.
Proof. vm_compute. reflexivity. Qed.
Lemma demo_registry_prev : reg_prev (node (fr_registry demo_back.2) 0x1000) = 0.
Proof. vm_compute. reflexivity. Qed.
Lemma demo_registry_next : reg_next (node (fr_registry demo_back.2) 0x1000) = 0.
Proof. vm_compute. reflexivity. Qed.
Lemma one_entry r x :
  x <> 0 -> umem_ptc_list r = x -> reg_prev (node r x) = 0 -> reg_next (node r x) = 0 -> reg_list r [x].
Proof.
  intros Hx H1 H2 H3. split; [done| |apply NoDup_singleton|by intros E%list_elem_of_singleton; congruence].
  by rewrite seg_cons.
Qed.

Lemma alloc_free_roundtrip_witness :
  exists w1 h1, _umem_alloc 1 1 0 demo_counter demo_front 8 0 = Ok (w1, h1, 0x7000) /\
    exists w2 h2, _umem_free w1 h1 0x7000 8 = Ok (w2, h2) /\ front_ok counted_ok w2 h2 (fun _ => []) [].
Proof.
  assert (Hc : has 0 UMF_CHECKNULL = false) by reflexivity. assert (Hs : 0 <= 8 < 2 ^ 64) by (split; [discriminate|reflexivity]).
  pose proof (alloc_free_roundtrip (ok := counted_ok) false 1 1 0 0 8 demo_counter demo_front (fun _ => []) [] Hc Hs demo_front_ok) as H.
  cbv beta iota in H.
  destruct demo_got_run as [E Hb]. rewrite E in H. destruct demo_got as [[w h] b]. cbn [fst snd] in Hb. subst b.
  exists w, h. split; [exact E|]. destruct H as [(? & _)|(_ & _ & _ & H)]; [discriminate|exact H].
Defined.

Lemma thread_exit_returns_all_witness :
  exists w' h', umem_ptc_cleanup demo_back.1 demo_back.2 = Ok (w', h') /\ thread_ptc h' = None /\
    reg_list (fr_registry h') [].
Proof.
  destruct (thread_exit_returns_all demo_back.1 demo_back.2 demo_ptc [] [] (fun _ => []) [])
    as (w' & h' & Ec & Et & _ & _ & Hr & _).
  - apply demo_back_run.
  - apply demo_thread.
  - rewrite demo_ptc_addr. apply one_entry; [discriminate|apply demo_registry_head|apply demo_registry_prev|apply demo_registry_next].
  - exists w', h'. split; [exact Ec|]. split; [exact Et|exact Hr].
Defined.

(** The same cache, of a thread that did not survive a fork. *)
Definition forked (r : registry) (h : front) : front := set_thread None (set_registry r h).
Lemma forked_same r h : caches_same h (forked r h).
Proof. done. Qed.
Lemma forked_ok {W : Type} {fe : front_env W} (ok : W -> (Z -> list Z) -> list (Z * Z) -> Prop) r w h p out big :
  thread_ptc h = Some p -> front_ok ok w h out big ->
  front_ok ok w (forked r h) (plus (ptc_part (forked r h) p) out) big /\ thread_ok (forked r h) p.
Proof.
  intros E H. unfold front_ok in H. rewrite E in H. by apply (caches_heap ok _ _ _ _ _ _ (forked_same r h)) in H as [Ht Hb].
Qed.
Definition demo_orphan : registry := Registry 0x1000 {[0x1000 := RegNode 0 0 2]}.
Definition demo_child : front := forked demo_orphan demo_back.2.
Definition demo_mem : gmap Z umem_ptc := {[0x1000 := demo_ptc]}.
Lemma demo_orphan_list : reg_list demo_orphan [0x1000] /\ orphans demo_orphan 1 [0x1000] = [0x1000].
Proof. split; [apply one_entry|]; done. Qed.
Lemma bind_single {A B} (f : A -> list B) x : [x] ≫= f = f x.
Proof. rewrite bind_cons. apply app_nil_r. Qed.

Lemma fork_child_frees_own_witness :
  exists w' h', umem_ptc_fork_release_child 1 demo_mem demo_back.1 demo_child = Ok (w', h') /\
    exists leaks, front_ok counted_ok w' h' (plus (fun cp => leaks ≫= fun f => f cp) (fun _ => [])) [].
Proof.
  destruct (forked_ok counted_ok demo_orphan _ _ _ _ _ demo_thread (proj2 demo_back_run)) as [Hf Ht]. destruct demo_orphan_list as [Hr Eo].
  destruct (fork_child_frees_own 1 demo_mem (fun _ => ptc_part demo_child demo_ptc) demo_back.1 demo_child [0x1000] (fun _ => []) [])
    as (w' & h' & leaks & E & _ & H & _).
  - apply le_n.
  - exact Hr.
  - change (fe_self demo_back.1) with 1. change (fr_registry demo_child) with demo_orphan. rewrite Eo. constructor; [|constructor]. exists demo_ptc.
    split; [unfold demo_mem; apply lookup_singleton_eq|]. intros _. exists demo_ptc. split; [exact Ht|]. split; [constructor|].
    intros cp. reflexivity.
  - change (fe_self demo_back.1) with 1. change (fr_registry demo_child) with demo_orphan. rewrite Eo. eapply (front_ext counted_ok); [|exact Hf]. intros cp. unfold plus. rewrite bind_single. reflexivity.
  - exists w', h'. split; [exact E|]. by exists leaks.
Defined.
