(* ===== verification/EnvModel.v ===== *)
(** * Options from the environment

    envvar.c: UMEM_DEBUG, UMEM_OPTIONS and UMEM_LOGGING, found by
    [umem_setup_envvars] and carried out by [umem_process_envvars] through the
    tables of items.

    A C string is the list of its characters without the terminating NUL; a
    null pointer is [None].  The variables an item sets are named as in the
    source and kept in a map; the table of sizes is that of [AllocSizes].
    [secure] is [umem_secure_mode ()]. *)
From Stdlib Require Import Ascii String.
From S2P Require Import Prelude Machine SlabModel VmemOps AllocSizes.

Abbreviation cstring := (list ascii).
Definition cs (s : string) : cstring := list_ascii_of_string s.

(** ** The C library *)

Definition code (c : ascii) : Z := Z.of_nat (nat_of_ascii c).
Definition isspace (c : ascii) : bool := (code c =? 32) || ((9 <=? code c) && (code c <=? 13)).
Definition isdigit (c : ascii) : bool := (48 <=? code c) && (code c <=? 57).
Fixpoint skip_spaces (s : cstring) : cstring :=
  match s with c :: s' => if isspace c then skip_spaces s' else s | [] => [] end.
(** [strchr]: what precedes the first [c], and what follows it. *)
Fixpoint break_at (c : ascii) (s : cstring) : cstring * option cstring :=
  match s with
  | [] => ([], None)
  | x :: s' => if Ascii.eqb x c then ([], Some s')
               else let '(before, after) := break_at c s' in (x :: before, after)
  end.

Definition ULONG_MAX : Z := 2 ^ 64 - 1.
Fixpoint scan_digits (v : Z) (s : cstring) : Z * cstring :=
  match s with
  | c :: s' => if isdigit c then scan_digits (10 * v + (code c - 48)) s' else (v, s)
  | [] => (v, [])
  end.
(** [strtoul (s, &endptr, 10)]: the value, the rest of the string, and whether
    [errno] is set to [ERANGE]. *)
Definition strtoul (s : cstring) : Z * cstring * bool :=
  let t := skip_spaces s in
  let '(neg, t) := match t with
                   | c :: t' => if Ascii.eqb c "-" then (true, t') else if Ascii.eqb c "+" then (false, t') else (false, t)
                   | [] => (false, t)
                   end in
  match t with
  | c :: _ =>
      if isdigit c then
        let '(v, rest) := scan_digits 0 t in
        if ULONG_MAX <? v then (ULONG_MAX, rest, true) else (if neg : bool then wneg v else v, rest, false)
      else (0, s, false)
  | [] => (0, s, false)
  end.

(** ** Items *)

Inductive item_type := ITEM_INVALID | ITEM_FLAG | ITEM_CLEARFLAG | ITEM_OPTUINT | ITEM_UINT | ITEM_OPTSIZE | ITEM_SIZE | ITEM_SPECIAL.
#[global] Instance item_type_eq_dec : EqDecision item_type.
Proof. solve_decision. Defined.

(** The functions [item_special] points to. *)
Inductive arg_process := ProcessLog | ProcessSize | ProcessReapInterval | ProcessBackend | ProcessAllocator | ProcessProfile.

Record umem_env_item := Item {
  item_name : string;
  item_of_type : item_type;
  item_flag_target : option string;
  item_flag_value : Z;
  item_uint_target : option string;
  item_size_target : option string;
  item_special : option arg_process;
  item_secure_unsafe : bool;
}.

Definition VMEM_BACKEND_SBRK : Z := 1.
Definition VMEM_BACKEND_MMAP : Z := 2.

Definition flag_item (name target : string) (value : Z) (unsafe : bool) : umem_env_item :=
  Item name ITEM_FLAG (Some target) value None None None unsafe.
Definition uint_item (name target : string) (unsafe : bool) : umem_env_item :=
  Item name ITEM_UINT None 0 (Some target) None None unsafe.
Definition size_item (name target : string) (unsafe : bool) : umem_env_item :=
  Item name ITEM_SIZE None 0 None (Some target) None unsafe.

Definition umem_options_items (introspect : bool) : list umem_env_item := [
  Item "backend" ITEM_SPECIAL None 0 None None (Some ProcessBackend) true;
  Item "allocator" ITEM_SPECIAL None 0 None None (Some ProcessAllocator) false;
  uint_item "concurrency" "umem_max_ncpus" false;
  uint_item "max_contention" "umem_depot_contention" false;
  flag_item "nomagazines" "umem_flags" UMF_NOMAGAZINE false;
  flag_item "norseq" "umem_rseq_disabled" 1 false;
  Item "reap_interval" ITEM_SPECIAL None 0 None None (Some ProcessReapInterval) false;
  uint_item "magazine_tune" "umem_magazine_tuning" false;
  Item "size_add" ITEM_SPECIAL None 0 None (Some "umem_size_tempval") (Some ProcessSize) false;
  Item "size_clear" ITEM_SPECIAL None 0 None (Some "umem_size_tempval") (Some ProcessSize) false;
  Item "size_remove" ITEM_SPECIAL None 0 None (Some "umem_size_tempval") (Some ProcessSize) false;
  size_item "sbrk_minalloc" "vmem_sbrk_minalloc" false;
  size_item "sbrk_pagesize" "vmem_sbrk_pagesize" false;
  size_item "mmap_guard" "vmem_mmap_guard_min" true;
  uint_item "reclaim" "umem_reclaim_enabled" false;
  uint_item "reclaim_delay" "umem_reclaim_delay" false;
  size_item "perthread_cache" "umem_ptc_size" false;
  uint_item "tcache" "umem_ptc_enabled" false;
  size_item "tcache_max" "umem_ptc_maxsize" false;
  uint_item "ownership" "umem_ownership_debug" false;
  Item "profile" ITEM_SPECIAL None 0 None None (Some ProcessProfile) true ]%string ++
  (if introspect then [uint_item "introspect" "umem_introspect_enabled" true] else [])%string ++
  [ flag_item "abort" "umem_abort" 1 false ]%string.

Definition umem_debug_items : list umem_env_item := [
  flag_item "default" "umem_flags" (Z.lor (Z.lor UMF_AUDIT UMF_CONTENTS) UMF_BUFTAG) false;
  Item "audit" ITEM_OPTUINT (Some "umem_flags") UMF_AUDIT (Some "umem_stack_depth") None None false;
  Item "contents" ITEM_OPTSIZE (Some "umem_flags") UMF_CONTENTS None (Some "umem_content_maxsave") None false;
  flag_item "guards" "umem_flags" UMF_BUFTAG false;
  flag_item "verbose" "umem_output" 1 true;
  flag_item "nosignal" "umem_flags" (Z.lor UMF_AUDIT UMF_CHECKSIGNAL) false;
  Item "firewall" ITEM_SIZE (Some "umem_flags") UMF_FIREWALL None (Some "umem_minfirewall") None false;
  flag_item "lite" "umem_flags" UMF_LITE false;
  size_item "maxverify" "umem_maxverify" false;
  Item "noabort" ITEM_CLEARFLAG (Some "umem_abort") 1 None None None true;
  uint_item "mtbf" "umem_mtbf" true;
  flag_item "random" "umem_flags" UMF_RANDOMIZE false;
  flag_item "allverbose" "umem_output" 2 true;
  flag_item "checknull" "umem_flags" UMF_CHECKNULL false ]%string.

Definition umem_logging_items : list umem_env_item := [
  Item "transaction" ITEM_SPECIAL None 0 None (Some "umem_transaction_log_size") (Some ProcessLog) false;
  Item "contents" ITEM_SPECIAL (Some "umem_flags") UMF_CONTENTS None (Some "umem_content_log_size") (Some ProcessLog) false;
  Item "fail" ITEM_SPECIAL None 0 None (Some "umem_failure_log_size") (Some ProcessLog) false;
  Item "slab" ITEM_SPECIAL None 0 None (Some "umem_slab_log_size") (Some ProcessLog) false ]%string.

(** ** State *)

(** What [log_message] is told, after the name of the variable being read. *)
Inductive env_message :=
| NotANumber (item : string)
| Overflowed (item : string)
| TakesNoValue (item : string)
| RequiresValue (item : string)
| ValueMissing (item : string)
| Unrecognized (item : string)
| IntervalZero (item : string)
| BadChoice (item : string)
| InvalidType (item : string)
| EmptyOption
| TooLong (start : cstring)
| NotRecognized (name : cstring)
| SecureIgnored (count : Z)
| RecursiveAllocation.

Record settings := Settings {
  env_vars : gmap string Z;
  env_sizes : list Z;                 (* umem_alloc_sizes *)
  umem_profile_spec : cstring;
  umem_env_secure_ignored : Z;        (* uint_t *)
  env_log : list (string * env_message);
}.
Definition set_var (v : string) (x : Z) (s : settings) : settings :=
  Settings (<[v := x]> (env_vars s)) (env_sizes s) (umem_profile_spec s) (umem_env_secure_ignored s) (env_log s).
Definition set_sizes (t : list Z) (s : settings) : settings :=
  Settings (env_vars s) t (umem_profile_spec s) (umem_env_secure_ignored s) (env_log s).
Definition set_spec (p : cstring) (s : settings) : settings :=
  Settings (env_vars s) (env_sizes s) p (umem_env_secure_ignored s) (env_log s).
Definition set_ignored (n : Z) (s : settings) : settings :=
  Settings (env_vars s) (env_sizes s) (umem_profile_spec s) n (env_log s).
Definition add_log (m : string * env_message) (s : settings) : settings :=
  Settings (env_vars s) (env_sizes s) (umem_profile_spec s) (umem_env_secure_ignored s) (env_log s ++ [m]).

(** [*target = x] and [*target]. *)
Definition store_at (target : option string) (x : Z) (s : settings) : result settings :=
  match target with Some v => Ok (set_var v x s) | None => Panic "null pointer" end.
Definition load_at (target : option string) (s : settings) : result Z :=
  match target with Some v => Ok (env_vars s !!! v) | None => Panic "null pointer" end.

Section process.
Context (secure : bool).

(** ** Values *)

Section item.
(** The variable being read, [CURRENT]. *)
Context (cur : string).
Definition log_message (m : env_message) (s : settings) : settings := add_log (cur, m) s.
Definition bad (m : env_message) (s : settings) : result (settings * bool) := Ok (log_message m s, false).

Definition empty (str : option cstring) : result bool :=
  match str with
  | None => Panic "null pointer"
  | Some str => Ok (match skip_spaces str with [] => true | _ => false end)
  end.

(** The processors return whether the argument is good ([ARG_SUCCESS]). *)
Definition item_uint_process (item : umem_env_item) (item_arg : option cstring) (s : settings) : result (settings * bool) :=
  do none <- empty item_arg;
  if none : bool then bad (NotANumber (item_name item)) s else
  let '(result, endptr, erange) := strtoul (default [] item_arg) in
  if (result =? ULONG_MAX) && erange then bad (Overflowed (item_name item)) s else
  match endptr with
  | _ :: _ => bad (NotANumber (item_name item)) s
  | [] =>
      if negb (result mod 2 ^ 32 =? result) then bad (Overflowed (item_name item)) s
      else do s <- store_at (item_uint_target item) (result mod 2 ^ 32) s; Ok (s, true)
  end.

(** How often the value is multiplied by 1024. *)
Definition suffix_steps (c : ascii) : nat :=
  if bool_decide (c ∈ ["t"; "T"]%char) then 4
  else if bool_decide (c ∈ ["g"; "G"]%char) then 3
  else if bool_decide (c ∈ ["m"; "M"]%char) then 2
  else if bool_decide (c ∈ ["k"; "K"]%char) then 1
  else 0.
Fixpoint scale (n : nat) (result_arg result : Z) : option Z :=
  match n with
  | O => Some result
  | S n =>
      let result := w64 (result * 1024) in
      if result <? result_arg then None else scale n result_arg result
  end.
Definition item_size_process (item : umem_env_item) (item_arg : option cstring) (s : settings) : result (settings * bool) :=
  do none <- empty item_arg;
  if none : bool then bad (NotANumber (item_name item)) s else
  let '(result_arg, endptr, erange) := strtoul (default [] item_arg) in
  if (result_arg =? ULONG_MAX) && erange then bad (Overflowed (item_name item)) s else
  let '(n, endptr) := match endptr with
                      | c :: rest => if (0 <? suffix_steps c)%nat then (suffix_steps c, rest) else (0%nat, endptr)
                      | [] => (0%nat, [])
                      end in
  match scale n result_arg result_arg with
  | None => bad (Overflowed (item_name item)) s
  | Some result =>
      match endptr with
      | _ :: _ => bad (NotANumber (item_name item)) s
      | [] => do s <- store_at (item_size_target item) result s; Ok (s, true)
      end
  end.

Definition umem_log_process (item : umem_env_item) (item_arg : option cstring) (s : settings) : result (settings * bool) :=
  match item_arg with
  | Some _ =>
      do (s, good) <- item_size_process item item_arg s;
      if negb good then Ok (s, false) else
      do n <- load_at (item_size_target item) s;
      if n =? 0 then Ok (s, true) else Ok (set_var "umem_logging" 1 s, true)
  | None =>
      do s <- store_at (item_size_target item) (64 * 1024) s;
      Ok (set_var "umem_logging" 1 s, true)
  end.

Definition umem_size_process (item : umem_env_item) (item_arg : option cstring) (s : settings) : result (settings * bool) :=
  let name := item_name item in
  if bool_decide (name = "size_clear"%string) then
    match item_arg with
    | Some _ => bad (TakesNoValue name) s
    | None => Ok (set_sizes (umem_alloc_sizes_clear (env_sizes s)) s, true)
    end
  else
    let act (action_func : list Z -> Z -> result (list Z)) :=
      match item_arg with
      | None => bad (RequiresValue name) s
      | Some _ =>
          do (s, good) <- item_size_process item item_arg s;
          if negb good then Ok (s, false) else
          do n <- load_at (item_size_target item) s;
          do t <- action_func (env_sizes s) n;
          Ok (set_sizes t s, true)
      end in
    if bool_decide (name = "size_add"%string) then act umem_alloc_sizes_add
    else if bool_decide (name = "size_remove"%string) then act umem_alloc_sizes_remove
    else bad (Unrecognized name) s.

(** The value goes to a local variable first: the map is left as it was. *)
Definition umem_reap_interval_process (item : umem_env_item) (item_arg : option cstring) (s : settings) : result (settings * bool) :=
  let tmp := Item (item_name item) ITEM_UINT (item_flag_target item) (item_flag_value item) (Some "val"%string)
               (item_size_target item) (item_special item) (item_secure_unsafe item) in
  do (t, good) <- item_uint_process tmp item_arg (set_var "val" 0 s);
  let val := env_vars t !!! "val"%string in
  let s := Settings (env_vars s) (env_sizes t) (umem_profile_spec t) (umem_env_secure_ignored t) (env_log t) in
  if negb good then Ok (s, false) else
  if val =? 0 then bad (IntervalZero (item_name item)) s
  else Ok (set_var "umem_reap_interval" val s, true).

Definition umem_backend_process (item : umem_env_item) (item_arg : option cstring) (s : settings) : result (settings * bool) :=
  let name := item_name item in
  let backend := env_vars s !!! "vmem_backend"%string in
  match item_arg with
  | None => bad (BadChoice name) s
  | Some arg =>
      if bool_decide (arg = cs "sbrk") then Ok (set_var "vmem_backend" (Z.lor backend VMEM_BACKEND_SBRK) s, true)
      else if bool_decide (arg = cs "mmap") then Ok (set_var "vmem_backend" (Z.lor backend VMEM_BACKEND_MMAP) s, true)
      else bad (BadChoice name) s
  end.

Definition umem_allocator_process (item : umem_env_item) (item_arg : option cstring) (s : settings) : result (settings * bool) :=
  let name := item_name item in
  let choose v := Ok (set_var "vmem_allocator" v s, true) in
  match item_arg with
  | None => bad (BadChoice name) s
  | Some arg =>
      if bool_decide (arg = cs "best") then choose VM_BESTFIT
      else if bool_decide (arg = cs "next") then choose VM_NEXTFIT
      else if bool_decide (arg = cs "first") then choose VM_FIRSTFIT
      else if bool_decide (arg = cs "instant") then choose 0
      else bad (BadChoice name) s
  end.

Definition umem_profile_process (item : umem_env_item) (item_arg : option cstring) (s : settings) : result (settings * bool) :=
  match item_arg with
  | None => Ok (add_log ("UMEM_OPTIONS", RequiresValue "profile")%string s, false)
  | Some arg =>
      if negb (bool_decide (take 7 arg = cs "record:")) && negb (bool_decide (take 4 arg = cs "use:"))
      then Ok (add_log ("UMEM_OPTIONS", BadChoice "profile")%string s, false)
      else Ok (set_spec (take 511 arg) s, true)
  end.

Definition special_process (f : arg_process) :=
  match f with
  | ProcessLog => umem_log_process
  | ProcessSize => umem_size_process
  | ProcessReapInterval => umem_reap_interval_process
  | ProcessBackend => umem_backend_process
  | ProcessAllocator => umem_allocator_process
  | ProcessProfile => umem_profile_process
  end.

(** ** Items *)

(** The flag of a good item. *)
Definition set_flag (item : umem_env_item) (s : settings) : settings :=
  match item_flag_target item with
  | None => s
  | Some v =>
      let old := env_vars s !!! v in
      if bool_decide (item_of_type item = ITEM_CLEARFLAG)
      then set_var v (Z.ldiff old (item_flag_value item)) s
      else set_var v (Z.lor old (item_flag_value item)) s
  end.

Definition has_value (item_arg : option cstring) : bool := match item_arg with Some _ => true | None => false end.

(** The end of [process_item]: a missing value, the processor, the flag. *)
Definition arg_processor : Type := umem_env_item -> option cstring -> settings -> result (settings * bool).
Definition finish_item (arg_required : bool) (processor : option arg_processor) (item : umem_env_item)
    (item_arg : option cstring) (s : settings) : result settings :=
  if arg_required && negb (has_value item_arg) then Ok (log_message (ValueMissing (item_name item)) s) else
  do (s, good) <-
    (if has_value item_arg || bool_decide (item_of_type item = ITEM_SPECIAL) then
       match processor with Some f => f item item_arg s | None => Panic "null pointer" end
     else Ok (s, true));
  Ok (if good : bool then set_flag item s else s).

(** The caller ignores the value returned. *)
Definition process_item (item : umem_env_item) (item_arg : option cstring) (s : settings) : result settings :=
  if item_secure_unsafe item && secure
  then Ok (set_ignored ((umem_env_secure_ignored s + 1) mod 2 ^ 32) s)
  else
    match item_of_type item with
    | ITEM_FLAG | ITEM_CLEARFLAG =>
        match item_arg with
        | Some _ => Ok (log_message (TakesNoValue (item_name item)) s)
        | None => finish_item false None item item_arg s
        end
    | ITEM_UINT => finish_item true (Some item_uint_process) item item_arg s
    | ITEM_OPTUINT => finish_item false (Some item_uint_process) item item_arg s
    | ITEM_SIZE => finish_item true (Some item_size_process) item item_arg s
    | ITEM_OPTSIZE => finish_item false (Some item_size_process) item item_arg s
    | ITEM_SPECIAL => finish_item false (special_process <$> item_special item) item item_arg s
    | ITEM_INVALID => Ok (log_message (InvalidType (item_name item)) s)
    end.

Definition UMEM_ENV_ITEM_MAX : nat := 512.
Definition ENV_SHORT_BYTES : nat := 10.
Definition trim (s : cstring) : cstring := rev (skip_spaces (rev (skip_spaces s))).

Fixpoint find_item (name : cstring) (items : list umem_env_item) : option umem_env_item :=
  match items with
  | [] => None
  | item :: items => if bool_decide (name = cs (item_name item)) then Some item else find_item name items
  end.
(** The text [[beg, end)] of one option. *)
Definition umem_process_value (items : list umem_env_item) (text : cstring) (s : settings) : result settings :=
  let text := trim text in
  match text with
  | [] => Ok (log_message EmptyOption s)
  | _ =>
      if (UMEM_ENV_ITEM_MAX <? length text + 1)%nat then Ok (log_message (TooLong (take ENV_SHORT_BYTES text)) s) else
      let '(name, arg) := break_at "=" text in
      match find_item name items with
      | Some item => process_item item arg s
      | None => Ok (log_message (NotRecognized name) s)
      end
  end.

(** The loop over the commas; the fuel is the length of the value. *)
Fixpoint process_options (fuel : nat) (items : list umem_env_item) (value : cstring) (s : settings) : result settings :=
  let '(text, next) := break_at "," value in
  do s <- umem_process_value items text s;
  match next, fuel with
  | None, _ => Ok s
  | Some value, S fuel => process_options fuel items value s
  | Some _, O => Panic "process_options: fuel"
  end.
Definition process_variable (items : list umem_env_item) (value : option cstring) (s : settings) : result settings :=
  match value with
  | None | Some [] => Ok s
  | Some value => process_options (length value) items value s
  end.
End item.

Record umem_envvar := Envvar {
  env_name : string;
  env_func : string;
  env_item_list : list umem_env_item;
  env_getenv_result : option cstring;
  env_func_result : option cstring;
}.

Fixpoint process_envs (envs : list umem_envvar) (s : settings) : result settings :=
  match envs with
  | [] => Ok s
  | e :: envs =>
      let value := match env_getenv_result e with Some v => Some v | None => env_func_result e end in
      do s <- process_variable (env_name e) (env_item_list e) value s;
      process_envs envs s
  end.
Definition umem_process_envvars (envs : list umem_envvar) (s : settings) : result settings :=
  do s <- process_envs envs s;
  if umem_env_secure_ignored s =? 0 then Ok s
  else Ok (add_log (EmptyString, SecureIgnored (umem_env_secure_ignored s)) s).
End process.

(** ** Finding the values *)

(** [safe_getenv] over the strings of [__environ]. *)
Fixpoint safe_getenv (environ : list cstring) (name : string) : option cstring :=
  match environ with
  | [] => None
  | e :: environ =>
      let l := length (cs name) in
      if bool_decide (take l e = cs name) && bool_decide (e !! l = Some "="%char) then Some (drop (S l) e)
      else safe_getenv environ name
  end.

Definition umem_envvars (introspect : bool) : list umem_envvar := [
  Envvar "UMEM_DEBUG" "_umem_debug_init" umem_debug_items None None;
  Envvar "UMEM_OPTIONS" "_umem_options_init" (umem_options_items introspect) None None;
  Envvar "UMEM_LOGGING" "_umem_logging_init" umem_logging_items None None ].

Inductive setup_state := STATE_START | STATE_GETENV | STATE_DLOPEN | STATE_DLSYM | STATE_FUNC | STATE_DONE.
#[global] Instance setup_state_eq_dec : EqDecision setup_state.
Proof. solve_decision. Defined.

(** The calls of [umem_setup_envvars] that may allocate. *)
Inductive setup_call := CallGetenv (name : string) | CallDlopen | CallDlsym (name : string) | CallFunc (name : string).

Record setup := Setup {
  su_state : setup_state;
  su_envs : list umem_envvar;
  su_recursive : list setup_state;     (* the state each recursive allocation was reported in *)
}.
Definition set_state (st : setup_state) (u : setup) : setup := Setup st (su_envs u) (su_recursive u).
Definition set_getenv (i : nat) (v : option cstring) (u : setup) : setup :=
  Setup (su_state u)
    (alter (fun e => Envvar (env_name e) (env_func e) (env_item_list e) v (env_func_result e)) i (su_envs u)) (su_recursive u).
Definition set_func (i : nat) (v : option cstring) (u : setup) : setup :=
  Setup (su_state u)
    (alter (fun e => Envvar (env_name e) (env_func e) (env_item_list e) (env_getenv_result e) v) i (su_envs u)) (su_recursive u).

(** [umem_setup_envvars (1)]. *)
Definition setup_invalid (u : setup) : setup :=
  Setup STATE_DONE
    ((fun e => Envvar (env_name e) (env_func e) (env_item_list e)
                 (if bool_decide (su_state u = STATE_GETENV) then None else env_getenv_result e)
                 (if bool_decide (su_state u = STATE_DONE) then env_func_result e else None)) <$> su_envs u)
    (su_recursive u ++ [su_state u]).

Section find.
(** What the program and its library answer, and during which calls malloc is
    entered again, which calls [umem_setup_envvars (1)]. *)
Context (getenv : string -> option cstring) (dlopen : bool) (dlsym : string -> option (option cstring)) (recurses : setup_call -> bool).

Definition calling (c : setup_call) (u : setup) : setup := if recurses c then setup_invalid u else u.
Definition recursed (u : setup) : bool := bool_decide (su_state u = STATE_DONE).

(** [true]: the loop ran to its end. *)
Fixpoint getenv_loop (i n : nat) (u : setup) : setup * bool :=
  match n with
  | O => (u, true)
  | S n =>
      let name := default EmptyString (env_name <$> su_envs u !! i) in
      let u := calling (CallGetenv name) u in
      let u := set_getenv i (getenv name) u in
      if recursed u then (u, false) else getenv_loop (S i) n u
  end.
Fixpoint dlsym_loop (i n : nat) (u : setup) : setup :=
  match n with
  | O => u
  | S n =>
      let name := default EmptyString (env_func <$> su_envs u !! i) in
      let u := calling (CallDlsym name) (set_state STATE_DLSYM u) in
      if recursed u then u else
      let u := set_state STATE_FUNC u in
      match dlsym name with
      | None => dlsym_loop (S i) n u
      | Some value =>
          let u := calling (CallFunc name) u in
          if recursed u then u else dlsym_loop (S i) n (set_func i value u)
      end
  end.
(** [umem_setup_envvars (0)]. *)
Definition umem_setup_envvars (u : setup) : setup :=
  let n := length (su_envs u) in
  let '(u, complete) := getenv_loop 0 n (set_state STATE_GETENV u) in
  if negb complete then u else
  let u := calling CallDlopen (set_state STATE_DLOPEN u) in
  set_state STATE_DONE (if dlopen then dlsym_loop 0 n u else u).
End find.
