(* ===== verification/EnvProps.v ===== *)
(** * Options from the environment: properties

    The parser reads back what is printed, numbers keep their value, any
    environment is read to its end, and in secure mode none can weaken the
    process. *)
From Stdlib Require Import Ascii String.
From S2P Require Import Prelude Machine SlabModel VmemOps AllocSizes EnvModel.

(** ** Splitting *)

Lemma break_at_none c a : c ∉ a -> break_at c a = (a, None).
Proof.
  induction a as [|x a IH]; simpl; [done|]. intros H. apply not_elem_of_cons in H as [Hx Ha].
  rewrite (proj2 (Ascii.eqb_neq x c)) by done. by rewrite IH.
Qed.
Lemma break_at_app c a b : c ∉ a -> break_at c (a ++ c :: b) = (a, Some b).
Proof.
  induction a as [|x a IH]; simpl; [by rewrite Ascii.eqb_refl|]. intros H. apply not_elem_of_cons in H as [Hx Ha].
  rewrite (proj2 (Ascii.eqb_neq x c)) by done. by rewrite IH.
Qed.

(** The texts between the commas. *)
Fixpoint split_at (c : ascii) (s : cstring) : list cstring :=
  match s with
  | [] => [[]]
  | x :: s' =>
      if Ascii.eqb x c then [] :: split_at c s'
      else match split_at c s' with t :: ts => (x :: t) :: ts | [] => [] end
  end.
Lemma split_break c s :
  split_at c s = match break_at c s with (t, None) => [t] | (t, Some rest) => t :: split_at c rest end.
Proof.
  induction s as [|x s IH]; simpl; [done|]. destruct (Ascii.eqb x c); [done|]. rewrite IH.
  destruct (break_at c s) as [t [rest|]]; done.
Qed.
Fixpoint join (c : ascii) (ts : list cstring) : cstring :=
  match ts with [] => [] | [t] => t | t :: ts => t ++ c :: join c ts end.
Lemma split_join c ts : ts <> [] -> Forall (fun t => c ∉ t) ts -> split_at c (join c ts) = ts.
Proof.
  induction ts as [|t [|u ts] IH]; intros Hne Hf; [done|..]; apply Forall_cons in Hf as [Ht Hf]; rewrite split_break.
  - simpl. by rewrite break_at_none.
  - change (join c (t :: u :: ts)) with (t ++ c :: join c (u :: ts)). rewrite break_at_app by done. by rewrite IH.
Qed.
Lemma break_length c s t rest : break_at c s = (t, Some rest) -> (length rest < length s)%nat.
Proof.
  revert t. induction s as [|x s IH]; intros t; simpl; [done|]. destruct (Ascii.eqb x c); [intros [= <- <-]; lia|].
  destruct (break_at c s) as [t' r'] eqn:E. intros [= <- ->]. specialize (IH _ eq_refl). lia.
Qed.

Section texts.
Context (secure : bool) (cur : string) (items : list umem_env_item).
Fixpoint run_texts (ts : list cstring) (s : settings) : result settings :=
  match ts with [] => Ok s | t :: ts => do s <- umem_process_value secure cur items t s; run_texts ts s end.

(** The loop ends, having carried out the texts one after the other. *)
Lemma options_texts fuel value s :
  (length value <= fuel)%nat -> process_options secure cur fuel items value s = run_texts (split_at "," value) s.
Proof.
  revert value s. induction fuel as [|fuel IH]; intros value s Hf; cbn [process_options]; rewrite split_break;
    destruct (break_at "," value) as [t [rest|]] eqn:E; simpl.
  - apply break_length in E. lia.
  - done.
  - apply break_length in E. destruct (umem_process_value _ _ _ _ _); simpl; [|done]. apply IH. lia.
  - done.
Qed.
Lemma variable_texts value s :
  value <> [] -> process_variable secure cur items (Some value) s = run_texts (split_at "," value) s.
Proof. intros H. destruct value as [|c value]; [done|]. by apply options_texts. Qed.
End texts.

(** ** Trimming *)

Lemma skip_spaces_app a b : Forall (fun c => isspace c = true) a -> skip_spaces (a ++ b) = skip_spaces b.
Proof. induction a as [|c a IH]; intros H; [done|]. apply Forall_cons in H as [Hc H]. simpl. rewrite Hc. by apply IH. Qed.
Lemma skip_spaces_id b : (forall c, head b = Some c -> isspace c = false) -> skip_spaces b = b.
Proof. destruct b as [|c b]; [done|]. intros H. simpl. by rewrite (H c). Qed.
Lemma trim_pad a b d :
  Forall (fun c => isspace c = true) a -> Forall (fun c => isspace c = true) d ->
  (forall c, head b = Some c -> isspace c = false) -> (forall c, last b = Some c -> isspace c = false) ->
  trim (a ++ b ++ d) = b.
Proof.
  intros Ha Hd Hh Hl. unfold trim. rewrite skip_spaces_app by done. destruct b as [|c b].
  - simpl. replace (skip_spaces d) with ([] : cstring); [done|]. symmetry. rewrite <- (app_nil_r d). by rewrite skip_spaces_app.
  - rewrite (skip_spaces_id ((c :: b) ++ d)) by (intros x [= <-]; by apply Hh).
    rewrite rev_app_distr, skip_spaces_app by (by apply Forall_rev). rewrite skip_spaces_id.
    + apply rev_involutive.
    + intros x Hx. apply Hl. rewrite rev_alt in Hx. by rewrite <- head_reverse.
Qed.

(** ** Printed options *)

(** An option as it is written: spaces, a name, possibly a value, spaces. *)
Record option_text := OptionText { ot_before : cstring; ot_name : cstring; ot_arg : option cstring; ot_after : cstring }.
Definition ot_body (o : option_text) : cstring :=
  ot_name o ++ match ot_arg o with Some arg => "="%char :: arg | None => [] end.
Definition ot_text (o : option_text) : cstring := ot_before o ++ ot_body o ++ ot_after o.
Record ot_ok (o : option_text) : Prop := OtOk {
  ot_spaces : Forall (fun c => isspace c = true) (ot_before o) /\ Forall (fun c => isspace c = true) (ot_after o);
  ot_trimmed : forall c, head (ot_body o) = Some c \/ last (ot_body o) = Some c -> isspace c = false;
  ot_plain : "="%char ∉ ot_name o;
  ot_comma : ","%char ∉ ot_text o;
  ot_length : (0 < length (ot_body o) < 512)%nat;
}.

Definition run_option (secure : bool) (cur : string) (items : list umem_env_item) (o : option_text) (s : settings) : result settings :=
  match find_item (ot_name o) items with
  | Some item => process_item secure cur item (ot_arg o) s
  | None => Ok (log_message cur (NotRecognized (ot_name o)) s)
  end.
Fixpoint run_options (secure : bool) (cur : string) (items : list umem_env_item) (os : list option_text) (s : settings) : result settings :=
  match os with [] => Ok s | o :: os => do s <- run_option secure cur items o s; run_options secure cur items os s end.

Lemma value_run secure cur items o s :
  ot_ok o -> umem_process_value secure cur items (ot_text o) s = run_option secure cur items o s.
Proof.
  intros [[H1 H2] H3 H4 H5 [H6 H7]]. unfold umem_process_value, ot_text. rewrite trim_pad by (done || auto).
  destruct (ot_body o) as [|c b] eqn:Eb; [simpl in H6; lia|]. rewrite <- Eb in *. clear Eb c b.
  replace (UMEM_ENV_ITEM_MAX <? _)%nat with false by (symmetry; apply Nat.ltb_ge; unfold UMEM_ENV_ITEM_MAX; lia).
  unfold run_option, ot_body. destruct (ot_arg o) as [arg|].
  - by rewrite break_at_app.
  - by rewrite app_nil_r, break_at_none.
Qed.

(** ** Numbers *)

(** The value of a string of digits. *)
Definition digits_value (ds : cstring) : Z := foldl (fun v c => 10 * v + (code c - 48)) 0 ds.

Lemma isdigit_code c : isdigit c = true -> 48 <= code c <= 57.
Proof. unfold isdigit. rewrite andb_true_iff, !Z.leb_le. done. Qed.
Lemma isdigit_space c : isdigit c = true -> isspace c = false.
Proof.
  intros H%isdigit_code. unfold isspace. rewrite orb_false_iff, andb_false_iff, Z.eqb_neq, !Z.leb_gt. lia.
Qed.
Lemma isdigit_sign c : isdigit c = true -> Ascii.eqb c "-" = false /\ Ascii.eqb c "+" = false.
Proof.
  intros H%isdigit_code. split; apply Ascii.eqb_neq; intros ->; vm_compute in H; destruct H; done.
Qed.
Lemma code_range c : 0 <= code c < 256.
Proof. unfold code. pose proof (nat_ascii_bounded c). lia. Qed.

Lemma scan_digits_app ds rest v :
  Forall (fun c => isdigit c = true) ds -> (forall c, head rest = Some c -> isdigit c = false) ->
  scan_digits v (ds ++ rest) = (foldl (fun v c => 10 * v + (code c - 48)) v ds, rest).
Proof.
  revert v. induction ds as [|c ds IH]; intros v Hd Hr; simpl.
  - destruct rest as [|c rest]; simpl; [done|]. by rewrite (Hr c).
  - apply Forall_cons in Hd as [Hc Hd]. rewrite Hc. by apply IH.
Qed.
Lemma digits_nonneg v ds : 0 <= v -> Forall (fun c => isdigit c = true) ds -> 0 <= foldl (fun v c => 10 * v + (code c - 48)) v ds.
Proof.
  revert v. induction ds as [|c ds IH]; intros v Hv Hd; [done|]. apply Forall_cons in Hd as [Hc%isdigit_code Hd].
  simpl. apply IH; [lia|done].
Qed.

Lemma strtoul_digits ds rest :
  ds <> [] -> Forall (fun c => isdigit c = true) ds -> (forall c, head rest = Some c -> isdigit c = false) ->
  strtoul (ds ++ rest) = if ULONG_MAX <? digits_value ds then (ULONG_MAX, rest, true) else (digits_value ds, rest, false).
Proof.
  intros Hne Hd Hr. unfold strtoul. destruct ds as [|c ds]; [done|]. pose proof Hd as Hd'. apply Forall_cons in Hd as [Hc Hd].
  rewrite (skip_spaces_id ((c :: ds) ++ rest)) by (intros x [= <-]; by apply isdigit_space).
  cbn [app]. destruct (isdigit_sign c Hc) as [-> ->]. rewrite Hc.
  change (c :: ds ++ rest) with ((c :: ds) ++ rest). rewrite scan_digits_app by done. unfold digits_value.
  by destruct (_ <? _).
Qed.

Lemma strtoul_range s : 0 <= (strtoul s).1.1 < 2 ^ 64.
Proof.
  unfold strtoul. set (t := skip_spaces s). destruct (match t with [] => (false, t) | c :: t' => _ end) as [neg u].
  destruct u as [|c u]; [simpl; lia|]. destruct (isdigit c); [|simpl; lia].
  assert (H : forall v l, 0 <= v -> 0 <= (scan_digits v l).1).
  { intros v l. revert v. induction l as [|d l IH]; intros v Hv; simpl; [done|]. destruct (isdigit d) eqn:Ed; [|done].
    apply isdigit_code in Ed. apply IH. lia. }
  specialize (H 0 (c :: u) ltac:(lia)). destruct (scan_digits 0 (c :: u)) as [v rest]. simpl in H.
  unfold ULONG_MAX. destruct (Z.ltb_spec (2 ^ 64 - 1) v); simpl; [lia|].
  destruct neg; [|lia]. unfold wneg, w64. apply Z.mod_pos_bound. lia.
Qed.

Lemma scale_range n a x y : 0 <= x < 2 ^ 64 -> scale n a x = Some y -> 0 <= y < 2 ^ 64.
Proof.
  revert x. induction n as [|n IH]; intros x Hx; simpl; [by intros [= <-]|].
  destruct (_ <? _); [done|]. apply IH. unfold w64. apply Z.mod_pos_bound. lia.
Qed.
Lemma scale_exact n a x : 0 <= a <= x -> x * 1024 ^ Z.of_nat n < 2 ^ 64 -> scale n a x = Some (x * 1024 ^ Z.of_nat n).
Proof.
  revert x. induction n as [|n IH]; intros x Ha Hx; [simpl; f_equal; lia|].
  assert (E : 1024 ^ Z.of_nat (S n) = 1024 * 1024 ^ Z.of_nat n) by (rewrite Nat2Z.inj_succ; apply Z.pow_succ_r; lia).
  assert (Hp : 0 < 1024 ^ Z.of_nat n) by (apply Z.pow_pos_nonneg; lia). rewrite E in Hx |- *. cbn [scale].
  unfold w64. rewrite Z.mod_small by nia. rewrite (proj2 (Z.ltb_ge (x * 1024) a)) by lia. rewrite IH by lia.
  f_equal. lia.
Qed.

(** ** What the processors do *)

Section frame.
Context (cur : string).

Lemma empty_total arg : is_Some arg -> exists b, empty arg = Ok b.
Proof. intros [a ->]. by eexists. Qed.

Lemma uint_cases item arg s s' g :
  item_uint_process cur item arg s = Ok (s', g) ->
  (g = false /\ exists m, s' = log_message cur m s) \/ (g = true /\ exists v x, item_uint_target item = Some v /\ s' = set_var v x s).
Proof.
  unfold item_uint_process. destruct (empty arg) as [none|]; simpl; [|done].
  destruct none; [intros [= <- <-]; left; eauto|]. destruct (strtoul _) as [[r endptr] erange].
  destruct (_ && _); [intros [= <- <-]; left; eauto|]. destruct endptr; [|intros [= <- <-]; left; eauto].
  destruct (negb _); [intros [= <- <-]; left; eauto|]. unfold store_at. destruct (item_uint_target item) as [v|]; simpl; [|done].
  intros [= <- <-]. right. eauto.
Qed.
Lemma size_cases item arg s s' g :
  item_size_process cur item arg s = Ok (s', g) ->
  (g = false /\ exists m, s' = log_message cur m s) \/
  (g = true /\ exists v x, item_size_target item = Some v /\ 0 <= x < 2 ^ 64 /\ s' = set_var v x s).
Proof.
  unfold item_size_process. destruct (empty arg) as [none|]; simpl; [|done].
  destruct none; [intros [= <- <-]; left; eauto|]. pose proof (strtoul_range (default [] arg)) as Hr.
  destruct (strtoul _) as [[r endptr] erange]. simpl in Hr.
  destruct (_ && _); [intros [= <- <-]; left; eauto|]. destruct (match endptr with [] => _ | _ => _ end) as [n rest].
  destruct (scale n r r) as [x|] eqn:Es; [|intros [= <- <-]; left; eauto].
  destruct rest; [|intros [= <- <-]; left; eauto]. unfold store_at. destruct (item_size_target item) as [v|]; simpl; [|done].
  intros [= <- <-]. right. split; [done|]. exists v, x. split_and!; try done; by eapply scale_range.
Qed.
Lemma uint_total item arg s :
  is_Some arg -> is_Some (item_uint_target item) -> exists s' g, item_uint_process cur item arg s = Ok (s', g).
Proof.
  intros Ha [v Hv]. unfold item_uint_process. destruct (empty_total arg Ha) as [none ->]. simpl. unfold bad, store_at. rewrite Hv.
  destruct none; [eauto|]. destruct (strtoul _) as [[r endptr] erange]. destruct (_ && _); [eauto|].
  destruct endptr; [|eauto]. destruct (negb _); simpl; eauto.
Qed.
Lemma size_total item arg s :
  is_Some arg -> is_Some (item_size_target item) -> exists s' g, item_size_process cur item arg s = Ok (s', g).
Proof.
  intros Ha [v Hv]. unfold item_size_process. destruct (empty_total arg Ha) as [none ->]. simpl. unfold bad, store_at. rewrite Hv.
  destruct none; [eauto|]. destruct (strtoul _) as [[r endptr] erange]. destruct (_ && _); [eauto|].
  destruct (match endptr with [] => _ | _ => _ end) as [n rest]. destruct (scale n r r); [|eauto].
  destruct rest; simpl; eauto.
Qed.
End frame.

(** The variables an item can set. *)
Definition special_vars (f : arg_process) : list string :=
  match f with
  | ProcessLog => ["umem_logging"]
  | ProcessReapInterval => ["umem_reap_interval"]
  | ProcessBackend => ["vmem_backend"]
  | ProcessAllocator => ["vmem_allocator"]
  | ProcessSize | ProcessProfile => []
  end%string.
Definition arg_vars (item : umem_env_item) : list string :=
  option_list (item_uint_target item) ++ option_list (item_size_target item) ++
  match item_special item with Some f => special_vars f | None => [] end.
Definition touched (item : umem_env_item) : list string := option_list (item_flag_target item) ++ arg_vars item.
Definition is_profile (item : umem_env_item) : bool :=
  match item_special item with Some ProcessProfile => true | _ => false end.

(** Only these variables change, and the profile only when [p]. *)
Definition kept (T : list string) (p : bool) (s s' : settings) : Prop :=
  (forall v, v ∉ T -> env_vars s' !! v = env_vars s !! v) /\ (p = false -> umem_profile_spec s' = umem_profile_spec s).
Lemma kept_refl T p s : kept T p s s.
Proof. done. Qed.
Lemma kept_trans T p s1 s2 s3 : kept T p s1 s2 -> kept T p s2 s3 -> kept T p s1 s3.
Proof.
  intros [A1 A2] [B1 B2]. split; [intros v Hv; by rewrite B1, A1|intros Hp; by rewrite B2, A2].
Qed.
Lemma kept_more T T' p s s' : T ⊆ T' -> kept T p s s' -> kept T' p s s'.
Proof. intros HT [H1 H2]. split; [|done]. intros v Hv. apply H1. intros Hin. by apply Hv, HT. Qed.
Lemma kept_log T p m s : kept T p s (add_log m s).
Proof. done. Qed.
Lemma kept_var T p v x s : v ∈ T -> kept T p s (set_var v x s).
Proof. intros Hv. split; [|done]. intros u Hu. simpl. rewrite lookup_insert_ne; [done|]. intros <-. done. Qed.

Lemma uint_kept cur item arg s s' g p :
  item_uint_process cur item arg s = Ok (s', g) -> kept (option_list (item_uint_target item)) p s s'.
Proof. intros [(_ & m & ->)|(_ & v & x & -> & ->)]%uint_cases; [apply kept_log|]. apply kept_var. by left. Qed.
Lemma size_kept cur item arg s s' g p :
  item_size_process cur item arg s = Ok (s', g) -> kept (option_list (item_size_target item)) p s s'.
Proof. intros [(_ & m & ->)|(_ & v & x & -> & _ & ->)]%size_cases; [apply kept_log|]. apply kept_var. by left. Qed.

Lemma reap_val cur item arg s t g :
  item_uint_process cur (Item (item_name item) ITEM_UINT (item_flag_target item) (item_flag_value item) (Some "val"%string)
    (item_size_target item) (item_special item) (item_secure_unsafe item)) arg s = Ok (t, g) ->
  umem_profile_spec t = umem_profile_spec s /\ env_sizes t = env_sizes s.
Proof. by intros [(_ & m & ->)|(_ & v & x & _ & ->)]%uint_cases. Qed.

Lemma special_kept f cur item arg s s' g :
  special_process cur f item arg s = Ok (s', g) ->
  kept (option_list (item_size_target item) ++ special_vars f) (match f with ProcessProfile => true | _ => false end) s s'.
Proof.
  destruct f; cbn [special_process special_vars].
  - unfold umem_log_process. destruct arg as [a|].
    + destruct (item_size_process _ _ _ _) as [[s1 good]|] eqn:E; simpl; [|done].
      apply (size_kept _ _ _ _ _ _ false) in E. apply (kept_more _ (option_list (item_size_target item) ++ ["umem_logging"%string])) in E; [|set_solver].
      destruct (negb good); [intros [= <- <-]; done|]. destruct (load_at _ _); simpl; [|done].
      destruct (_ =? 0); intros [= <- <-]; [done|]. eapply kept_trans; [exact E|]. apply kept_var. set_solver.
    + unfold store_at. destruct (item_size_target item) as [v|]; simpl; [|done]. intros [= <- <-].
      eapply kept_trans; apply kept_var; set_solver.
  - rewrite app_nil_r. unfold umem_size_process. destruct (bool_decide _); [destruct arg; intros [= <- <-]; done|].
    assert (Hact : forall act : list Z -> Z -> result (list Z), match arg with
        | None => bad cur (RequiresValue (item_name item)) s
        | Some _ => do (s, good) <- item_size_process cur item arg s; if negb good then Ok (s, false) else
            do n <- load_at (item_size_target item) s; do t <- act (env_sizes s) n; Ok (set_sizes t s, true) end = Ok (s', g) ->
        kept (option_list (item_size_target item)) false s s').
    { intros act. destruct arg as [a|]; [|intros [= <- <-]; apply kept_log].
      destruct (item_size_process _ _ _ _) as [[s1 good]|] eqn:E; simpl; [|done]. apply (size_kept _ _ _ _ _ _ false) in E.
      destruct (negb good); [intros [= <- <-]; done|]. destruct (load_at _ _); simpl; [|done].
      destruct (act _ _); simpl; [|done]. intros [= <- <-]. exact E. }
    destruct (bool_decide _); [apply Hact|]. destruct (bool_decide _); [apply Hact|]. intros [= <- <-]. apply kept_log.
  - unfold umem_reap_interval_process. destruct (item_uint_process _ _ _ _) as [[t good]|] eqn:E; simpl; [|done].
    apply reap_val in E as [E1 E2]. set (s0 := Settings _ _ _ _ _).
    assert (H0 : forall T, kept T false s s0) by (intros T; split; [done|intros _; exact E1]).
    destruct (negb good); [intros [= <- <-]; apply H0|]. destruct (_ =? 0); intros [= <- <-]; [apply H0|].
    eapply kept_trans; [apply H0|]. apply kept_var. set_solver.
  - unfold umem_backend_process. destruct arg as [a|]; [|intros [= <- <-]; apply kept_log].
    destruct (bool_decide _); [intros [= <- <-]; apply kept_var; set_solver|].
    destruct (bool_decide _); intros [= <- <-]; [apply kept_var; set_solver|apply kept_log].
  - unfold umem_allocator_process. destruct arg as [a|]; [|intros [= <- <-]; apply kept_log].
    do 4 (destruct (bool_decide _); [intros [= <- <-]; apply kept_var; set_solver|]). intros [= <- <-]. apply kept_log.
  - unfold umem_profile_process. destruct arg as [a|]; [|intros [= <- <-]; apply kept_log].
    destruct (_ && _); intros [= <- <-]; done.
Qed.

Lemma flag_kept item s : kept (touched item) (is_profile item) s (set_flag item s).
Proof.
  unfold set_flag, touched. destruct (item_flag_target item) as [v|]; [|apply kept_refl].
  destruct (bool_decide _); apply kept_var; set_solver.
Qed.
Lemma finish_kept cur required f item arg s s' :
  (forall g, f = Some g -> forall t t' good, g item arg t = Ok (t', good) -> kept (arg_vars item) (is_profile item) t t') ->
  finish_item cur required f item arg s = Ok s' -> kept (touched item) (is_profile item) s s'.
Proof.
  intros Hf. unfold finish_item. destruct (required && _); [intros [= <-]; apply kept_log|]. destruct (_ || _).
  - destruct f as [g|]; [|done]. destruct (g item arg s) as [[t good]|] eqn:E; simpl; [|done].
    apply (Hf g eq_refl), (kept_more _ (touched item)) in E; [|unfold touched; set_solver].
    intros [= <-]. destruct good; [|done]. eapply kept_trans; [exact E|apply flag_kept].
  - intros [= <-]. apply flag_kept.
Qed.

(** An item leaves alone what it is not about. *)
Lemma item_kept secure cur item arg s s' :
  process_item secure cur item arg s = Ok s' -> kept (touched item) (is_profile item) s s'.
Proof.
  unfold process_item. destruct (_ && secure); [intros [= <-]; done|].
  assert (Hu : forall t t' good, item_uint_process cur item arg t = Ok (t', good) -> kept (arg_vars item) (is_profile item) t t')
    by (intros t t' g H; eapply kept_more; [|by eapply uint_kept]; unfold arg_vars; set_solver).
  assert (Hz : forall t t' good, item_size_process cur item arg t = Ok (t', good) -> kept (arg_vars item) (is_profile item) t t')
    by (intros t t' g H; eapply kept_more; [|by eapply size_kept]; unfold arg_vars; set_solver).
  destruct (item_of_type item) eqn:Ety; try (intros [= <-]; apply kept_log);
    try (by apply finish_kept; intros g [= <-]); try (destruct arg; [intros [= <-]; apply kept_log|]; by apply finish_kept).
  apply finish_kept. intros g Hg t t' good H. destruct (item_special item) as [f|] eqn:Ef; [|done].
  injection Hg as <-. apply special_kept in H. unfold is_profile. rewrite Ef.
  eapply kept_more; [|by destruct f; exact H]. unfold arg_vars. rewrite Ef. set_solver.
Qed.

(** ** Secure mode *)

(** What the environment must not change, and the flag it must not clear. *)
Definition protected : list string :=
  ["vmem_backend"; "vmem_mmap_guard_min"; "umem_introspect_enabled"; "umem_output"; "umem_mtbf"]%string.
Definition abort_set (s : settings) : Prop := Z.testbit (env_vars s !!! "umem_abort"%string) 0 = true.
Definition harmless (s s' : settings) : Prop :=
  (forall v, v ∈ protected -> env_vars s' !! v = env_vars s !! v) /\ umem_profile_spec s' = umem_profile_spec s /\
  (abort_set s -> abort_set s').
Lemma harmless_refl s : harmless s s.
Proof. done. Qed.
Lemma harmless_trans s1 s2 s3 : harmless s1 s2 -> harmless s2 s3 -> harmless s1 s3.
Proof. intros (A1 & A2 & A3) (B1 & B2 & B3). split_and!; [intros v Hv; by rewrite B1, A1|congruence|auto]. Qed.

Definition safe_item (item : umem_env_item) : bool :=
  item_secure_unsafe item ||
  (forallb (fun v => negb (bool_decide (v ∈ touched item))) protected && negb (is_profile item) &&
   (negb (bool_decide ("umem_abort"%string ∈ touched item)) || bool_decide (item_of_type item = ITEM_FLAG))).

Lemma flag_run secure cur item arg s s' :
  item_of_type item = ITEM_FLAG -> process_item secure cur item arg s = Ok s' ->
  env_vars s' = env_vars s \/ s' = set_flag item s.
Proof.
  intros Ht. unfold process_item. rewrite Ht. destruct (_ && secure); [intros [= <-]; by left|].
  destruct arg; [intros [= <-]; by left|]. unfold finish_item. rewrite Ht. cbn. intros [= <-]. by right.
Qed.

Lemma safe_run cur item arg s s' :
  safe_item item = true -> process_item true cur item arg s = Ok s' -> harmless s s'.
Proof.
  unfold safe_item. rewrite orb_true_iff, !andb_true_iff, negb_true_iff, forallb_forall, orb_true_iff, negb_true_iff.
  rewrite bool_decide_eq_false, bool_decide_eq_true. intros [Hu|[[Hp Hprof] Ha]] E.
  { unfold process_item in E. rewrite Hu in E. by injection E as <-. }
  destruct (item_kept _ _ _ _ _ _ E) as [Hk Hs]. split_and!; [|by apply Hs|].
  - intros v Hv. apply Hk. apply list_elem_of_In in Hv. specialize (Hp v Hv).
    by apply negb_true_iff, bool_decide_eq_false in Hp.
  - unfold abort_set. destruct Ha as [Ha|Ha]; [by rewrite !lookup_total_alt, Hk|].
    destruct (flag_run _ _ _ _ _ _ Ha E) as [->| ->]; [done|]. unfold set_flag.
    destruct (item_flag_target item) as [v|]; [|done]. rewrite bool_decide_false by congruence. cbn [env_vars set_var].
    destruct (decide (v = "umem_abort"%string)) as [->|Hne].
    + rewrite lookup_total_insert_eq, Z.lor_spec. by intros ->.
    + by rewrite lookup_total_insert_ne.
Qed.

(** ** Every environment is read to its end *)

Definition has_target (t : option string) : bool := match t with Some _ => true | None => false end.
Definition item_ok (item : umem_env_item) : bool :=
  match item_of_type item with
  | ITEM_UINT | ITEM_OPTUINT => has_target (item_uint_target item)
  | ITEM_SIZE | ITEM_OPTSIZE => has_target (item_size_target item)
  | ITEM_SPECIAL =>
      match item_special item with
      | None => false
      | Some ProcessLog | Some ProcessSize => has_target (item_size_target item)
      | Some ProcessReapInterval => bool_decide (item_name item = "reap_interval"%string)
      | Some _ => true
      end
  | _ => true
  end.
Lemma has_target_some t : has_target t = true -> is_Some t.
Proof. destruct t; [by eexists|done]. Qed.

Definition sizes_good (s : settings) : Prop := exists l k, sizes_ok (env_sizes s) l k.
(** Not [reap_interval] without a value, which the source does not survive, and
    not [size_remove], which can run off the table. *)
Definition calm (name : cstring) (arg : option cstring) : Prop :=
  (name = cs "reap_interval" -> is_Some arg) /\ name <> cs "size_remove".
Definition calm_text (t : cstring) : Prop := calm (break_at "=" (trim t)).1 (break_at "=" (trim t)).2.

Lemma uint_sizes cur item arg s s' g : item_uint_process cur item arg s = Ok (s', g) -> env_sizes s' = env_sizes s.
Proof. by intros [(_ & m & ->)|(_ & v & x & _ & ->)]%uint_cases. Qed.
Lemma size_sizes cur item arg s s' g : item_size_process cur item arg s = Ok (s', g) -> env_sizes s' = env_sizes s.
Proof. by intros [(_ & m & ->)|(_ & v & x & _ & _ & ->)]%size_cases. Qed.

Lemma size_option_total cur item arg s :
  is_Some (item_size_target item) -> item_name item <> "size_remove"%string -> sizes_good s ->
  exists s' g, umem_size_process cur item arg s = Ok (s', g) /\ sizes_good s'.
Proof.
  intros Ht Hn Hs. unfold umem_size_process. destruct (bool_decide _).
  { destruct arg; eexists _, _; (split; [done|]); [done|]. destruct Hs as (l & k & H). eexists _, _. by apply (clear_ok _ l k). }
  destruct (bool_decide _); [|rewrite bool_decide_false by done; by eexists _, _].
  destruct arg as [a|]; [|by eexists _, _].
  destruct (size_total cur item (Some a) s) as (s1 & good & E); [by eexists|done|]. rewrite E. cbn [res_bind].
  apply size_cases in E as [(-> & m & ->)|(-> & v & x & Hv & Hx & ->)]; [by eexists _, _|]. cbn [negb].
  unfold load_at. rewrite Hv. cbn [res_bind env_vars set_var]. rewrite lookup_total_insert_eq.
  destruct Hs as (l & k & H). destruct (add_ok _ l k x H Hx) as (t' & l' & k' & E & H' & _). cbn [env_sizes set_var]. rewrite E.
  cbn [res_bind]. eexists _, _. split; [done|]. by exists l', k'.
Qed.

Lemma special_total f cur item arg s :
  item_of_type item = ITEM_SPECIAL -> item_special item = Some f -> item_ok item = true -> calm (cs (item_name item)) arg -> sizes_good s ->
  exists s' g, special_process cur f item arg s = Ok (s', g) /\ sizes_good s'.
Proof.
  intros Hty Hf Hok [Hc1 Hc2] Hs. unfold item_ok in Hok. rewrite Hty, Hf in Hok. destruct f; cbn [special_process].
  - apply has_target_some in Hok as Ht. unfold umem_log_process, store_at, load_at. destruct arg as [a|].
    + destruct (size_total cur item (Some a) s) as (s1 & good & E); [by eexists|done|]. rewrite E. cbn [res_bind].
      apply size_sizes in E. assert (sizes_good s1) by (unfold sizes_good; by rewrite E).
      destruct (negb good); [by eexists _, _|]. destruct Ht as [v ->]. cbn [res_bind]. destruct (_ =? 0); by eexists _, _.
    + destruct Ht as [v ->]. by eexists _, _.
  - apply size_option_total; [by apply has_target_some|congruence|done].
  - apply bool_decide_eq_true in Hok. destruct (Hc1 ltac:(by rewrite Hok)) as [a ->]. unfold umem_reap_interval_process.
    set (tmp := Item _ _ _ _ _ _ _ _). destruct (uint_total cur tmp (Some a) (set_var "val" 0 s)) as (t & good & E); [by eexists..|].
    rewrite E. cbn [res_bind]. apply uint_sizes in E.
    destruct (negb good); [|destruct (_ =? 0)]; eexists _, _; (split; [done|]); unfold sizes_good; cbn; by rewrite E.
  - unfold umem_backend_process. destruct arg as [a|]; [|by eexists _, _]. do 2 (destruct (bool_decide _); [by eexists _, _|]). by eexists _, _.
  - unfold umem_allocator_process. destruct arg as [a|]; [|by eexists _, _]. do 4 (destruct (bool_decide _); [by eexists _, _|]). by eexists _, _.
  - unfold umem_profile_process. destruct arg as [a|]; [|by eexists _, _]. destruct (_ && _); by eexists _, _.
Qed.

Lemma set_flag_sizes item s : env_sizes (set_flag item s) = env_sizes s.
Proof. unfold set_flag. destruct (item_flag_target item); [|done]. by destruct (bool_decide _). Qed.

Lemma finish_total cur required f item arg s :
  (has_value arg || bool_decide (item_of_type item = ITEM_SPECIAL) = true ->
     exists g t good, f = Some g /\ g item arg s = Ok (t, good) /\ sizes_good t) -> sizes_good s ->
  exists s', finish_item cur required f item arg s = Ok s' /\ sizes_good s'.
Proof.
  assert (Hend : forall t (good : bool), sizes_good t -> sizes_good (if good then set_flag item t else t)).
  { intros t [] Ht; [|done]. unfold sizes_good. by rewrite set_flag_sizes. }
  intros Hf Hs. unfold finish_item. destruct (required && _); [by eexists|]. destruct (_ || _).
  - destruct (Hf eq_refl) as (g & t & good & -> & -> & Ht). cbn [res_bind]. eexists. split; [done|]. by apply Hend.
  - eexists. split; [done|]. by apply (Hend s true).
Qed.
Lemma value_given item arg :
  item_of_type item <> ITEM_SPECIAL -> has_value arg || bool_decide (item_of_type item = ITEM_SPECIAL) = true -> is_Some arg.
Proof. intros Hn. rewrite bool_decide_false, orb_false_r by done. destruct arg; [by eexists|done]. Qed.

Lemma item_total secure cur item arg s :
  item_ok item = true -> calm (cs (item_name item)) arg -> sizes_good s ->
  exists s', process_item secure cur item arg s = Ok s' /\ sizes_good s'.
Proof.
  intros Hok Hc Hs. unfold process_item. destruct (_ && secure); [by eexists|].
  assert (Hu : has_target (item_uint_target item) = true -> item_of_type item <> ITEM_SPECIAL -> forall required,
    exists s', finish_item cur required (Some (item_uint_process cur)) item arg s = Ok s' /\ sizes_good s').
  { intros Ht Hn required. apply finish_total; [|done]. intros Ha. destruct (uint_total cur item arg s) as (t & g & E);
      [by eapply value_given|by apply has_target_some|]. exists (item_uint_process cur), t, g. split_and!; try done.
    apply uint_sizes in E. unfold sizes_good. by rewrite E. }
  assert (Hz : has_target (item_size_target item) = true -> item_of_type item <> ITEM_SPECIAL -> forall required,
    exists s', finish_item cur required (Some (item_size_process cur)) item arg s = Ok s' /\ sizes_good s').
  { intros Ht Hn required. apply finish_total; [|done]. intros Ha. destruct (size_total cur item arg s) as (t & g & E);
      [by eapply value_given|by apply has_target_some|]. exists (item_size_process cur), t, g. split_and!; try done.
    apply size_sizes in E. unfold sizes_good. by rewrite E. }
  assert (Hfl : item_of_type item <> ITEM_SPECIAL -> exists s', finish_item cur false None item None s = Ok s' /\ sizes_good s').
  { intros Hn. apply finish_total; [|done]. intros Ha%value_given; [|done]. by destruct Ha. }
  pose proof Hok as Hok'. unfold item_ok in Hok. destruct (item_of_type item) eqn:Ety; try (by eexists); try (by apply Hu); try (by apply Hz);
    try (destruct arg; [by eexists|by apply Hfl]).
  destruct (item_special item) as [f|] eqn:Ef; [|done]. apply finish_total; [|done]. intros _.
  destruct (special_total f cur item arg s Ety Ef Hok' Hc Hs) as (t & g & E & Ht). by exists (special_process cur f), t, g.
Qed.

(** ** From items to the environment *)

Lemma find_item_some name items item : find_item name items = Some item -> item ∈ items /\ name = cs (item_name item).
Proof.
  induction items as [|x items IH]; simpl; [done|]. case_bool_decide as E; [intros [= <-]; split; [left|done]|].
  intros [? ?]%IH. split; [by right|done].
Qed.

(** A relation between the states before and after, kept by every item. *)
Section lift.
Context (secure : bool) (R : settings -> settings -> Prop) `{!Reflexive R, !Transitive R}.
Hypothesis R_log : forall m s, R s (add_log m s).
Definition items_keep (items : list umem_env_item) : Prop :=
  forall cur item arg s s', item ∈ items -> process_item secure cur item arg s = Ok s' -> R s s'.

Lemma value_keeps cur items t s s' : items_keep items -> umem_process_value secure cur items t s = Ok s' -> R s s'.
Proof using R_log.
  intros Hi. unfold umem_process_value. destruct (trim t) as [|c b]; [intros [= <-]; apply R_log|]. set (body := c :: b).
  destruct (_ <? _)%nat; [intros [= <-]; apply R_log|]. destruct (break_at _ body) as [name arg].
  destruct (find_item name items) as [item|] eqn:E; [|intros [= <-]; apply R_log]. apply find_item_some in E as [Hin _].
  by eapply Hi.
Qed.
Lemma variable_keeps cur items value s s' : items_keep items -> process_variable secure cur items value s = Ok s' -> R s s'.
Proof using All.
  intros Hi. destruct value as [value|]; [|by intros [= <-]]. destruct (decide (value = [])) as [->|Hne]; [by intros [= <-]|].
  rewrite variable_texts by done. generalize (split_at "," value). intros ts. revert s.
  induction ts as [|t ts IH]; intros s; simpl; [by intros [= <-]|].
  destruct (umem_process_value _ _ _ _ _) as [s1|] eqn:E; simpl; [|done]. intros H.
  transitivity s1; [by eapply value_keeps|by apply IH].
Qed.
Lemma envs_keep envs s s' :
  (forall e, e ∈ envs -> items_keep (env_item_list e)) -> umem_process_envvars secure envs s = Ok s' -> R s s'.
Proof using All.
  intros Hi. unfold umem_process_envvars. destruct (process_envs secure envs s) as [s1|] eqn:E; simpl; [|done].
  intros H. transitivity s1; [|destruct (_ =? 0); injection H as <-; [done|apply R_log]].
  clear H s'. revert s E. induction envs as [|e envs IH]; intros s; simpl; [by intros [= <-]|].
  destruct (process_variable _ _ _ _ _) as [s2|] eqn:E; simpl; [|done]. intros H.
  transitivity s2; [eapply variable_keeps; [|exact E]; apply Hi; left|]. apply IH; [|done]. intros x Hx. apply Hi. by right.
Qed.
End lift.

Lemma value_total secure cur items t s :
  (forall item, item ∈ items -> item_ok item = true) -> calm_text t -> sizes_good s ->
  exists s', umem_process_value secure cur items t s = Ok s' /\ sizes_good s'.
Proof.
  intros Hi Hc Hs. unfold umem_process_value. unfold calm_text in Hc. destruct (trim t) as [|c b]; [by eexists|].
  destruct (_ <? _)%nat; [by eexists|]. destruct (break_at _ (c :: b)) as [name arg]. simpl in Hc.
  destruct (find_item name items) as [item|] eqn:E; [|by eexists]. apply find_item_some in E as [Hin ->].
  apply item_total; auto.
Qed.

(** The texts of a variable. *)
Definition env_value (e : umem_envvar) : option cstring :=
  match env_getenv_result e with Some v => Some v | None => env_func_result e end.
Definition env_texts (e : umem_envvar) : list cstring :=
  match env_value e with None | Some [] => [] | Some v => split_at "," v end.

Lemma variable_total secure e s :
  (forall item, item ∈ env_item_list e -> item_ok item = true) -> Forall calm_text (env_texts e) -> sizes_good s ->
  exists s', process_variable secure (env_name e) (env_item_list e) (env_value e) s = Ok s' /\ sizes_good s'.
Proof.
  intros Hi Hc Hs. unfold env_texts in Hc. destruct (env_value e) as [[|c value]|]; [by eexists| |by eexists].
  rewrite variable_texts by done. revert s Hs. induction Hc as [|t ts Ht Hts IH]; intros s Hs; [by eexists|].
  cbn [run_texts]. destruct (value_total secure (env_name e) _ t s Hi Ht Hs) as (s1 & -> & H1). by apply IH.
Qed.
Lemma envs_total secure envs s :
  (forall e item, e ∈ envs -> item ∈ env_item_list e -> item_ok item = true) -> Forall calm_text (envs ≫= env_texts) -> sizes_good s ->
  exists s', umem_process_envvars secure envs s = Ok s' /\ sizes_good s'.
Proof.
  intros Hi Hc Hs. unfold umem_process_envvars. assert (exists s1, process_envs secure envs s = Ok s1 /\ sizes_good s1) as (s1 & -> & H1).
  { revert s Hs. induction envs as [|e envs IH]; intros s Hs; [by eexists|]. rewrite bind_cons in Hc. apply Forall_app in Hc as [Hc1 Hc2].
    destruct (variable_total secure e s) as (s1 & E & H1); [intros; eapply Hi; [left|done]|done..|]. cbn [process_envs].
    fold (env_value e). rewrite E. apply IH; [|done..]. intros x item Hx. apply Hi. by right. }
  cbn [res_bind]. destruct (_ =? 0); eexists; split; done.
Qed.

(** The tables, with whatever values the environment has. *)
Definition same_items (introspect : bool) (envs : list umem_envvar) : Prop :=
  env_item_list <$> envs = env_item_list <$> umem_envvars introspect.
Lemma tables_checked introspect items item :
  items ∈ env_item_list <$> umem_envvars introspect -> item ∈ items -> safe_item item = true /\ item_ok item = true.
Proof.
  intros Hi Hin. apply andb_true_iff.
  assert (H : forallb (forallb (fun i => safe_item i && item_ok i)) (env_item_list <$> umem_envvars introspect) = true)
    by (destruct introspect; vm_compute; reflexivity).
  rewrite forallb_forall in H. specialize (H items (proj1 (list_elem_of_In _ _) Hi)). rewrite forallb_forall in H.
  by apply H, list_elem_of_In.
Qed.
Lemma same_items_in introspect envs e item :
  same_items introspect envs -> e ∈ envs -> item ∈ env_item_list e -> safe_item item = true /\ item_ok item = true.
Proof.
  intros E He. apply (tables_checked introspect). rewrite <- E. apply list_elem_of_fmap. by exists e.
Qed.

Lemma suffix_letter c : suffix_steps c <> 0%nat -> isdigit c = false.
Proof. destruct c as [[] [] [] [] [] [] [] []]; vm_compute; intros H; (reflexivity || by destruct H). Qed.

(** ** Properties *)

(** C17: In secure mode no environment weakens the process: whatever the values
    of UMEM_DEBUG, UMEM_OPTIONS and UMEM_LOGGING, the backend, the guard of
    freed spans, the introspection channel, the profile file, the output of
    errors and the injection of failures keep their settings, and an armed
    abort stays armed.  Reading stops early only for an option the source does
    not survive: a reap_interval without a value, or a size_remove. *)
Theorem secure_env_harmless (introspect : bool) (envs : list umem_envvar) (s : settings) :
  same_items introspect envs -> sizes_good s ->
  match umem_process_envvars true envs s with
  | Ok s' => harmless s s'
  | Panic _ => ~ Forall calm_text (envs ≫= env_texts)
  end.
Proof.
  intros He Hs. destruct (umem_process_envvars true envs s) as [s'|] eqn:E.
  - eapply (envs_keep true harmless (Reflexive0 := harmless_refl) (Transitive0 := harmless_trans)); [done| |exact E].
    intros e Hin cur item arg t t' Hi. apply safe_run. by eapply same_items_in.
  - intros Hc. destruct (envs_total true envs s) as (s' & E' & _); [|done..|congruence].
    intros e item H1 H2. by eapply same_items_in.
Qed.

(** C29: Options written as a list of names with optional values, separated by
    commas and surrounded by spaces, are carried out one by one in their order,
    each with its name and its value as written, unknown ones reported. *)
Theorem options_roundtrip (secure : bool) (cur : string) (items : list umem_env_item) (os : list option_text) (s : settings) :
  os <> [] -> Forall ot_ok os ->
  process_variable secure cur items (Some (join "," (ot_text <$> os))) s = run_options secure cur items os s.
Proof.
  intros Hne Hok. assert (Hsplit : split_at "," (join "," (ot_text <$> os)) = ot_text <$> os).
  { apply split_join; [by destruct os|]. apply Forall_fmap. eapply Forall_impl; [exact Hok|]. by intros o []. }
  rewrite variable_texts.
  - rewrite Hsplit. clear Hsplit Hne. revert s. induction Hok as [|o os Ho Hos IH]; intros s; [done|].
    cbn [fmap list_fmap run_texts run_options]. rewrite value_run by done. destruct (run_option _ _ _ _ _); [apply IH|done].
  - destruct os as [|o os]; [done|]. apply Forall_cons in Hok as [[_ _ _ _ [Hlen _]] _]. intros E. apply (f_equal (@length _)) in E.
    assert (length (ot_text o) <> 0)%nat by (unfold ot_text; rewrite !length_app; lia).
    destruct os; simpl in E; rewrite ?length_app in E; simpl in E; lia.
Qed.

(** C38: A number written in decimal is stored with its value.  An integer
    option refuses exactly the numbers of more than 32 bits; a size with a
    suffix k, m, g or t is stored as that multiple whenever it fits 64 bits.  A
    refusal is reported and changes no variable. *)
Theorem option_numbers_exact (cur : string) (item : umem_env_item) (ds : cstring) (suffix : ascii) (v : string) (s : settings) :
  ds <> [] -> Forall (fun c => isdigit c = true) ds ->
  (item_uint_target item = Some v ->
   item_uint_process cur item (Some ds) s =
     if digits_value ds <? 2 ^ 32 then Ok (set_var v (digits_value ds) s, true)
     else Ok (log_message cur (Overflowed (item_name item)) s, false)) /\
  (item_size_target item = Some v ->
   (digits_value ds < 2 ^ 64 -> item_size_process cur item (Some ds) s = Ok (set_var v (digits_value ds) s, true)) /\
   (2 ^ 64 <= digits_value ds -> item_size_process cur item (Some ds) s = Ok (log_message cur (Overflowed (item_name item)) s, false)) /\
   (suffix_steps suffix <> 0%nat -> digits_value ds * 1024 ^ Z.of_nat (suffix_steps suffix) < 2 ^ 64 ->
    item_size_process cur item (Some (ds ++ [suffix])) s =
      Ok (set_var v (digits_value ds * 1024 ^ Z.of_nat (suffix_steps suffix)) s, true))).
Proof.
  intros Hne Hd. assert (H0 : 0 <= digits_value ds) by (by apply digits_nonneg).
  assert (He : forall rest, empty (Some (ds ++ rest)) = Ok false).
  { intros rest. destruct ds as [|c ds]; [done|]. apply Forall_cons in Hd as [Hc _]. cbn [empty app skip_spaces].
    by rewrite (isdigit_space c Hc). }
  pose proof (strtoul_digits ds [] Hne Hd ltac:(done)) as Hs. rewrite app_nil_r in Hs. pose proof (He []) as He0. rewrite app_nil_r in He0.
  unfold ULONG_MAX in Hs. split; [|split; [|split]].
  - intros Ht. unfold item_uint_process. rewrite He0. cbn [res_bind default from_option]. unfold id. rewrite Hs, Ht.
    destruct (Z.ltb_spec (2 ^ 64 - 1) (digits_value ds)); cbn [store_at res_bind].
    + rewrite (proj2 (Z.ltb_ge _ _)) by lia. done.
    + rewrite andb_false_r. destruct (Z.ltb_spec (digits_value ds) (2 ^ 32)).
      * rewrite Z.mod_small, Z.eqb_refl by lia. done.
      * rewrite (proj2 (Z.eqb_neq _ _)); [done|]. pose proof (Z.mod_pos_bound (digits_value ds) (2 ^ 32)). lia.
  - intros Hlt. unfold item_size_process. rewrite He0. cbn [res_bind default from_option]. unfold id. rewrite Hs, (proj2 (Z.ltb_ge _ _)) by lia.
    rewrite andb_false_r. cbn [scale]. by rewrite H.
  - intros Hge. unfold item_size_process. rewrite He0. cbn [res_bind default from_option]. unfold id. rewrite Hs, (proj2 (Z.ltb_lt _ _)) by lia.
    done.
  - intros Hn Hlt. unfold item_size_process. rewrite He. cbn [res_bind default from_option]. unfold id.
    assert (Hp : 1 <= 1024 ^ Z.of_nat (suffix_steps suffix)) by (apply (Z.pow_le_mono_r 1024 0); lia).
    rewrite strtoul_digits; [|done|done|by intros c [= <-]; apply suffix_letter]. unfold ULONG_MAX. rewrite (proj2 (Z.ltb_ge _ _)) by nia. rewrite andb_false_r.
    rewrite (proj2 (Nat.ltb_lt 0 (suffix_steps suffix))) by lia. rewrite scale_exact by lia. by rewrite H.
Qed.

(** ** Finding the values *)

Definition late (st : setup_state) : Prop := st = STATE_DLSYM \/ st = STATE_FUNC.
Definition no_func (u : setup) : Prop := Forall (fun e => env_func_result e = None) (su_envs u).

Section setup.
Context (getenv : string -> option cstring) (dlopen : bool) (dlsym : string -> option (option cstring)) (recurses : setup_call -> bool).

Lemma invalid_no_func u : su_state u <> STATE_DONE -> no_func (setup_invalid u).
Proof.
  intros H. unfold no_func, setup_invalid. simpl. rewrite (bool_decide_false (su_state u = STATE_DONE)) by done.
  apply Forall_fmap, Forall_forall. done.
Qed.

Lemma dlsym_loop_discards n i u :
  (forall st, st ∈ su_recursive u -> ~ late st) ->
  (exists st, st ∈ su_recursive (dlsym_loop dlsym recurses i n u) /\ late st) -> no_func (dlsym_loop dlsym recurses i n u).
Proof.
  revert i u. induction n as [|n IH]; intros i u Hu (st & Hst & Hl); [by destruct (Hu st Hst)|]. revert Hst. cbn [dlsym_loop].
  set (name := default EmptyString _). unfold calling, recursed. destruct (recurses (CallDlsym name)).
  { rewrite bool_decide_true by done. intros _. by apply invalid_no_func. }
  rewrite bool_decide_false by done. destruct (dlsym name) as [value|].
  2:{ intros Hst. apply IH; [done|]. by exists st. }
  destruct (recurses (CallFunc name)).
  { rewrite bool_decide_true by done. intros _. by apply invalid_no_func. }
  rewrite bool_decide_false by done. intros Hst. apply IH; [done|]. by exists st.
Qed.

Lemma getenv_loop_early n i u :
  su_state u = STATE_GETENV -> (forall st, st ∈ su_recursive u -> ~ late st) ->
  forall st, st ∈ su_recursive (getenv_loop getenv recurses i n u).1 -> ~ late st.
Proof.
  revert i u. induction n as [|n IH]; intros i u Hg Hu; [done|]. cbn [getenv_loop]. set (name := default EmptyString _).
  unfold calling, recursed. destruct (recurses _).
  - rewrite bool_decide_true by done. simpl. intros st. rewrite elem_of_app, list_elem_of_singleton, Hg. intros [?| ->]; [by apply Hu|].
    by intros [?|?].
  - rewrite bool_decide_false by (simpl; by rewrite Hg). apply IH; done.
Qed.

Lemma getenv_loop_runs n i u :
  (forall c, recurses c = false) -> su_state u = STATE_GETENV ->
  exists u', getenv_loop getenv recurses i n u = (u', true) /\ su_recursive u' = su_recursive u /\
    su_envs u' = imap (fun j e => if decide (i <= j < i + n)%nat
      then Envvar (env_name e) (env_func e) (env_item_list e) (getenv (env_name e)) (env_func_result e) else e) (su_envs u).
Proof.
  intros Hr. revert i u. induction n as [|n IH]; intros i u Hg.
  - exists u. split_and!; try done. symmetry. rewrite (imap_ext _ (fun _ e => e)) by (intros; by rewrite decide_False by lia).
    apply list_eq. intros j. rewrite list_lookup_imap. by destruct (su_envs u !! j).
  - cbn [getenv_loop]. unfold calling, recursed. rewrite Hr. rewrite bool_decide_false by (simpl; by rewrite Hg).
    edestruct IH as (u' & -> & E1 & E2); [exact Hg|]. exists u'. split; [done|]. split; [done|]. rewrite E2.
    apply list_eq. intros j. rewrite !list_lookup_imap. simpl. destruct (decide (i = j)) as [->|Hne].
    + rewrite list_lookup_alter_eq. destruct (su_envs u !! j) as [e|]; [|done]. simpl.
      rewrite decide_False, decide_True by lia. done.
    + rewrite list_lookup_alter_ne by done. destruct (su_envs u !! j) as [e|]; [|done]. simpl.
      repeat case_decide; try lia; done.
Qed.

Lemma dlsym_loop_runs n i u :
  (forall c, recurses c = false) -> su_recursive (dlsym_loop dlsym recurses i n u) = su_recursive u /\
    su_envs (dlsym_loop dlsym recurses i n u) = imap (fun j e => if decide (i <= j < i + n)%nat
      then Envvar (env_name e) (env_func e) (env_item_list e) (env_getenv_result e) (default (env_func_result e) (dlsym (env_func e)))
      else e) (su_envs u).
Proof.
  intros Hr. revert i u. induction n as [|n IH]; intros i u.
  - split; [done|]. symmetry. rewrite (imap_ext _ (fun _ e => e)) by (intros; by rewrite decide_False by lia).
    apply list_eq. intros j. rewrite list_lookup_imap. simpl. by destruct (su_envs u !! j).
  - cbn [dlsym_loop]. unfold calling, recursed. rewrite !Hr. rewrite !bool_decide_false by done.
    cbn [su_envs set_state]. destruct (dlsym (default EmptyString (env_func <$> su_envs u !! i))) as [value|] eqn:Ed.
    + edestruct IH as [E1 E2]. rewrite E1, E2. split; [done|]. apply list_eq. intros j. rewrite !list_lookup_imap. simpl.
      destruct (decide (i = j)) as [->|Hne].
      * rewrite list_lookup_alter_eq. destruct (su_envs u !! j) as [e|] eqn:Ej; [|done]. simpl in Ed |- *.
        rewrite decide_False, decide_True by lia. by rewrite Ed.
      * rewrite list_lookup_alter_ne by done. destruct (su_envs u !! j) as [e|]; [|done]. simpl. repeat case_decide; try lia; done.
    + edestruct IH as [E1 E2]. rewrite E1, E2. split; [done|]. apply list_eq. intros j. rewrite !list_lookup_imap. simpl.
      destruct (su_envs u !! j) as [e|] eqn:Ej; [|done]. simpl. repeat case_decide; try lia; try done.
      assert (j = i) as -> by lia. rewrite Ej in Ed. simpl in Ed. rewrite Ed. by destruct e.
Qed.

(** With no recursive allocation every value is stored. *)
Lemma setup_runs envs :
  (forall c, recurses c = false) -> Forall (fun e => env_func_result e = None) envs ->
  let u := umem_setup_envvars getenv dlopen dlsym recurses (Setup STATE_START envs []) in
  su_state u = STATE_DONE /\ su_recursive u = [] /\
  env_getenv_result <$> su_envs u = getenv ∘ env_name <$> envs /\
  env_func_result <$> su_envs u = (fun e => if dlopen then default None (dlsym (env_func e)) else None) <$> envs.
Proof.
  intros Hr Hf u. unfold u, umem_setup_envvars. cbn [su_envs].
  destruct (getenv_loop_runs (length envs) 0 (set_state STATE_GETENV (Setup STATE_START envs [])) Hr eq_refl) as (u1 & -> & E1 & E2).
  cbn [negb]. unfold calling. rewrite Hr. split; [done|]. cbn [su_recursive su_envs set_state] in *.
  destruct (dlsym_loop_runs (length envs) 0 (set_state STATE_DLOPEN u1) Hr) as [F1 F2]. cbn [su_recursive su_envs set_state] in *.
  destruct dlopen; cbn [su_recursive su_envs set_state]; rewrite ?F1, ?F2, E1, E2; (split; [done|]); split; apply list_eq; intros j;
    rewrite !list_lookup_fmap, ?list_lookup_imap; (destruct (envs !! j) as [e|] eqn:Ej; [|done]); simpl;
    apply lookup_lt_Some in Ej as Hj; repeat (rewrite decide_True by lia); try done;
    simpl; by rewrite (proj1 (Forall_lookup _ _) Hf j e Ej).
Qed.
End setup.

(** When no call allocates, [umem_setup_envvars] ends with every variable's
    value from the environment, and from the program's function when it has
    one.  When a lookup or call of such a function allocates, every value
    obtained from the program is discarded and the step is reported. *)
Theorem setup_discards (introspect : bool) (getenv : string -> option cstring) (dlopen : bool)
    (dlsym : string -> option (option cstring)) (recurses : setup_call -> bool) :
  let u := umem_setup_envvars getenv dlopen dlsym recurses (Setup STATE_START (umem_envvars introspect) []) in
  ((forall c, recurses c = false) -> su_state u = STATE_DONE /\ su_recursive u = [] /\
     env_getenv_result <$> su_envs u = getenv ∘ env_name <$> umem_envvars introspect /\
     env_func_result <$> su_envs u =
       (fun e => if dlopen then default None (dlsym (env_func e)) else None) <$> umem_envvars introspect) /\
  ((exists st, st ∈ su_recursive u /\ late st) -> no_func u).
Proof.
  intros u. split.
  - intros Hr. apply (setup_runs getenv dlopen dlsym recurses (umem_envvars introspect) Hr). by repeat constructor.
  - unfold u, umem_setup_envvars. destruct (getenv_loop _ _ _ _ _) as [u1 complete] eqn:E.
    assert (H1 : forall st, st ∈ su_recursive u1 -> ~ late st).
    { pose proof (getenv_loop_early getenv recurses 3 0 (set_state STATE_GETENV (Setup STATE_START (umem_envvars introspect) [])) eq_refl) as H.
      cbn [su_envs length umem_envvars] in E. rewrite E in H. apply H. by intros st ?%elem_of_nil. }
    destruct (negb complete). { intros (st & Hst & Hl). by destruct (H1 st Hst). }
    unfold calling. set (u2 := if recurses CallDlopen then _ else _). assert (H2 : forall st, st ∈ su_recursive u2 -> ~ late st).
    { unfold u2. destruct (recurses _); [|done]. simpl. intros st. rewrite elem_of_app, list_elem_of_singleton. intros [?| ->]; [by apply H1|].
      by intros [?|?]. }
    destruct dlopen; [|intros (st & Hst & Hl); by destruct (H2 st Hst)]. apply dlsym_loop_discards, H2.
Qed.

(** ** Where the source does not do what it says *)

(** [UMEM_OPTIONS=reap_interval] dereferences a null pointer: a special item is
    processed without a value, and this processor hands it to the integer one. *)
Theorem reap_interval_null (secure introspect : bool) (s : settings) :
  process_variable secure "UMEM_OPTIONS" (umem_options_items introspect) (Some (cs "reap_interval")) s = Panic "null pointer".
Proof. reflexivity. Qed.

(** The overflow test of a multiplication compares with the number given, and a
    product that wraps far enough passes it. *)
Theorem size_overflow_missed (cur : string) (s : settings) :
  item_size_process cur (size_item "maxverify" "umem_maxverify" false) (Some (cs "19140298416324608k")) s =
    Ok (set_var "umem_maxverify" (2 ^ 60) s, true).
Proof. reflexivity. Qed.
(** A suffix alone is taken as the number 0. *)
Theorem size_suffix_alone (cur : string) (s : settings) :
  item_size_process cur (size_item "maxverify" "umem_maxverify" false) (Some (cs "k")) s = Ok (set_var "umem_maxverify" 0 s, true).
Proof. reflexivity. Qed.

(** A value found by the [getenv] call that allocates is kept, and functions
    are asked after a [dlopen] that allocates, although both are reported as
    ignored. *)
Theorem recursion_keeps_results :
  env_getenv_result <$> su_envs (umem_setup_envvars (fun _ => Some (cs "lite")) false (fun _ => None)
     (fun c => match c with CallGetenv "UMEM_DEBUG" => true | _ => false end) (Setup STATE_START (umem_envvars false) []))
    = [Some (cs "lite"); None; None] /\
  env_func_result <$> su_envs (umem_setup_envvars (fun _ => None) true (fun _ => Some (Some (cs "lite")))
     (fun c => match c with CallDlopen => true | _ => false end) (Setup STATE_START (umem_envvars false) []))
    = [Some (cs "lite"); Some (cs "lite"); Some (cs "lite")].
Proof. split; vm_compute; reflexivity. Qed.

(** ** Witnesses *)

Definition start_settings : settings := Settings {["umem_abort"%string := 1]} umem_alloc_sizes [] 0 [].
Definition hostile : list umem_envvar := [
  Envvar "UMEM_DEBUG" "_umem_debug_init" umem_debug_items (Some (cs "noabort, verbose,guards")) None;
  Envvar "UMEM_OPTIONS" "_umem_options_init" (umem_options_items false) (Some (cs "backend=sbrk,profile=record:/etc/passwd,tcache=0")) None;
  Envvar "UMEM_LOGGING" "_umem_logging_init" umem_logging_items None None ].

Lemma secure_env_harmless_witness :
  match umem_process_envvars true hostile start_settings with
  | Ok s' => harmless start_settings s' /\ umem_env_secure_ignored s' = 4 /\ env_vars s' !! "umem_ptc_enabled"%string = Some 0
  | Panic _ => False
  end.
Proof.
  assert (Hs : same_items false hostile) by reflexivity.
  assert (Hz : sizes_good start_settings) by (eexists _, _; apply umem_alloc_sizes_ok).
  pose proof (secure_env_harmless false hostile start_settings Hs Hz) as H.
  destruct (umem_process_envvars true hostile start_settings) as [s'|] eqn:E; [|vm_compute in E; discriminate].
  split; [exact H|]. vm_compute in E. injection E as <-. split; reflexivity.
Defined.

Definition demo_options : list option_text :=
  [OptionText [" "%char] (cs "audit") (Some (cs "15")) []; OptionText [] (cs "guards") None [" "%char]].
Lemma options_roundtrip_witness :
  process_variable false "UMEM_DEBUG" umem_debug_items (Some (cs " audit=15,guards ")) start_settings =
  run_options false "UMEM_DEBUG" umem_debug_items demo_options start_settings.
Proof.
  assert (Hne : demo_options <> []) by discriminate.
  assert (Hok : Forall ot_ok demo_options).
  { constructor; [|constructor; [|constructor]]; split; try (split; repeat constructor); try (vm_compute; lia);
      try (apply (bool_decide_unpack _); vm_compute; exact I).
    - intros c [H|H]; vm_compute in H; injection H as <-; reflexivity.
    - intros c [H|H]; vm_compute in H; injection H as <-; reflexivity. }
  exact (options_roundtrip false "UMEM_DEBUG" umem_debug_items demo_options start_settings Hne Hok).
Defined.

Lemma option_numbers_exact_witness :
  item_uint_process "UMEM_DEBUG" (uint_item "mtbf" "umem_mtbf" true) (Some (cs "97")) start_settings =
    Ok (set_var "umem_mtbf" 97 start_settings, true).
Proof.
  destruct (option_numbers_exact "UMEM_DEBUG" (uint_item "mtbf" "umem_mtbf" true) (cs "97") "k" "umem_mtbf" start_settings) as [H _].
  - discriminate.
  - repeat constructor.
  - apply H. reflexivity.
Defined.
