(* ===== verification/Logs.v ===== *)
(** * Transaction logs

    [umem_log_init] and [umem_log_enter] of umem.c: a log is an array of chunks
    of which every CPU owns one and fills it from its start; a CPU whose chunk
    is full puts it at the end of a ring of chunks and takes the one at the
    front.  The bytes of the log are [lh_mem]; other memory is not touched. *)
From S2P Require Import Prelude Machine.

Record umem_cpu_log_header := CpuLog {
  clh_current : Z;                    (* 0 is NULL *)
  clh_avail : Z;
  clh_chunk : nat;
  clh_hits : Z;
}.
Record umem_log_header := Log {
  lh_base : Z;
  lh_free : list nat;
  lh_chunksize : Z;
  lh_nchunks : nat;
  lh_head : nat;
  lh_tail : nat;
  lh_hits : Z;
  lh_cpu : list umem_cpu_log_header;
  lh_mem : list Z;                    (* the bytes from lh_base on *)
}.

(** [for (i = first; i < nchunks; i++) lh_free[i] = i]. *)
Fixpoint fill_free (first n : nat) (free : list nat) : list nat :=
  match n with O => free | S n => fill_free (S first) n (<[first := first]> free) end.

(** The arguments [lhp], [base] and [free] are what the three allocations from
    [umem_log_arena] give, 0 for NULL, and [junk] is what the array of chunk
    numbers holds at first.  The second result lists what is freed on the way
    out. *)
Definition umem_log_init (PAGESIZE lhsize logsize : Z) (umem_max_ncpus : nat) (lhp base free : Z) (junk : list nat) :
    option umem_log_header * list (Z * Z) :=
  let nchunks := (4 * umem_max_ncpus)%nat in
  if logsize =? 0 then (None, []) else
  if lhp =? 0 then (None, []) else
  let chunksize := P2ROUNDUP (logsize / Z.of_nat nchunks) PAGESIZE in
  let chunksize := if chunksize =? 0 then PAGESIZE else chunksize in
  if base =? 0 then (None, [(lhp, lhsize)]) else
  let bytes := w64 (chunksize * Z.of_nat nchunks) in
  if free =? 0 then (None, [(base, bytes); (lhp, lhsize)]) else
  (Some (Log base (fill_free umem_max_ncpus (nchunks - umem_max_ncpus) junk) chunksize nchunks umem_max_ncpus 0 0
           ((fun i => CpuLog 0 0 i 0) <$> seq 0 umem_max_ncpus)
           (replicate (Z.to_nat bytes) 0)), []).

(** [bcopy (data, logspace, size)]; nothing is touched when [size] is 0. *)
Definition log_write (l : umem_log_header) (logspace : Z) (data : list Z) : result umem_log_header :=
  match data with
  | [] => Ok l
  | _ =>
      let off := logspace - lh_base l in
      if (0 <=? off) && (off + Z.of_nat (length data) <=? Z.of_nat (length (lh_mem l))) then
        Ok (Log (lh_base l) (lh_free l) (lh_chunksize l) (lh_nchunks l) (lh_head l) (lh_tail l) (lh_hits l) (lh_cpu l)
              (take (Z.to_nat off) (lh_mem l) ++ data ++ drop (Z.to_nat off + length data) (lh_mem l)))
      else Panic "log overrun"
  end.

(** A full chunk goes to the ring, the oldest comes back. *)
Definition log_switch (l : umem_log_header) (c : umem_cpu_log_header) : result (umem_log_header * umem_cpu_log_header) :=
  if decide (lh_tail l < length (lh_free l) /\ lh_head l < length (lh_free l))%nat then
    let free := <[lh_tail l := clh_chunk c]> (lh_free l) in
    let chunk := free !!! lh_head l in
    Ok (Log (lh_base l) free (lh_chunksize l) (lh_nchunks l) ((lh_head l + 1) mod lh_nchunks l)%nat
          ((lh_tail l + 1) mod lh_nchunks l)%nat (lh_hits l + 1) (lh_cpu l) (lh_mem l),
        CpuLog (lh_base l + Z.of_nat chunk * lh_chunksize l) (lh_chunksize l) chunk (clh_hits c))
  else Panic "lh_free overrun".

(** Whether the entry needs a new chunk. *)
Definition log_full (c : umem_cpu_log_header) (size : Z) : bool := clh_avail c <? size.

(** [data] are the bytes handed in; the result 0 is NULL.  The log is one that
    [umem_log_init] gave; for a NULL log the code returns NULL as it does when
    logging is off.  The two counters of hits only count, and are not reduced
    to the width of an int. *)
Definition umem_log_enter (umem_logging : Z) (l : umem_log_header) (cpu : nat) (data : list Z) : result (umem_log_header * Z) :=
  if umem_logging =? 0 then Ok (l, 0) else
  match lh_cpu l !! cpu with
  | None => Panic "lh_cpu overrun"
  | Some c =>
      let size := Z.of_nat (length data) in
      let c := CpuLog (clh_current c) (clh_avail c) (clh_chunk c) (clh_hits c + 1) in
      do (l, c, size) <-
        (if log_full c size then
           do (l, c) <- log_switch l c;
           Ok (l, c, if lh_chunksize l <? size then lh_chunksize l else size)
         else Ok (l, c, size));
      let logspace := clh_current c in
      let c := CpuLog (clh_current c + size) (clh_avail c - size) (clh_chunk c) (clh_hits c) in
      let l := Log (lh_base l) (lh_free l) (lh_chunksize l) (lh_nchunks l) (lh_head l) (lh_tail l) (lh_hits l)
                 (<[cpu := c]> (lh_cpu l)) (lh_mem l) in
      do l <- log_write l logspace (take (Z.to_nat size) data);
      Ok (l, logspace)
  end.

(** ** Invariant *)

Definition ring_len (l : umem_log_header) : nat := lh_nchunks l - length (lh_cpu l).
(** The chunks of the ring, oldest first. *)
Definition ring (l : umem_log_header) : list nat :=
  (fun i => lh_free l !!! ((lh_head l + i) mod lh_nchunks l)%nat) <$> seq 0 (ring_len l).
Definition owned (l : umem_log_header) : list nat := clh_chunk <$> lh_cpu l.

Definition cpu_ok (l : umem_log_header) (c : umem_cpu_log_header) : Prop :=
  0 <= clh_avail c <= lh_chunksize l /\
  (clh_avail c = 0 \/ clh_current c = lh_base l + (Z.of_nat (clh_chunk c) + 1) * lh_chunksize l - clh_avail c).
Record log_ok (l : umem_log_header) : Prop := LogOk {
  lg_cpus : (0 < length (lh_cpu l) < lh_nchunks l)%nat;
  lg_free : length (lh_free l) = lh_nchunks l;
  lg_head : (lh_head l < lh_nchunks l)%nat;
  lg_tail : lh_tail l = ((lh_head l + ring_len l) mod lh_nchunks l)%nat;
  lg_perm : owned l ++ ring l ≡ₚ seq 0 (lh_nchunks l);
  lg_chunk : 0 < lh_chunksize l;
  lg_mem : Z.of_nat (length (lh_mem l)) = lh_chunksize l * Z.of_nat (lh_nchunks l);
  lg_cpu : Forall (cpu_ok l) (lh_cpu l);
}.

Lemma mod_wrap x n : (x < 2 * n)%nat -> (x mod n)%nat = if decide (x < n)%nat then x else (x - n)%nat.
Proof.
  intros H. case_decide; [by apply Nat.mod_small|]. replace x with (x - n + 1 * n)%nat at 1 by lia.
  rewrite Nat.Div0.mod_add. apply Nat.mod_small. lia.
Qed.

Lemma ring_lookup l i : (i < ring_len l)%nat -> ring l !! i = Some (lh_free l !!! ((lh_head l + i) mod lh_nchunks l)%nat).
Proof. intros Hi. unfold ring. rewrite list_lookup_fmap, lookup_seq_lt by done. done. Qed.
Lemma ring_length l : length (ring l) = ring_len l.
Proof. unfold ring. by rewrite length_fmap, length_seq. Qed.

(** The ring after a switch. *)
Lemma switch_run l cpu c :
  log_ok l -> lh_cpu l !! cpu = Some c ->
  exists l' c' k r, log_switch l c = Ok (l', c') /\ ring l = k :: r /\ ring l' = r ++ [clh_chunk c] /\
    c' = CpuLog (lh_base l + Z.of_nat k * lh_chunksize l) (lh_chunksize l) k (clh_hits c) /\
    lh_cpu l' = lh_cpu l /\ lh_mem l' = lh_mem l /\ lh_base l' = lh_base l /\ lh_chunksize l' = lh_chunksize l /\
    lh_nchunks l' = lh_nchunks l /\ length (lh_free l') = lh_nchunks l /\ (lh_head l' < lh_nchunks l)%nat /\
    lh_tail l' = ((lh_head l' + ring_len l') mod lh_nchunks l')%nat.
Proof.
  intros [H1 H2 H3 H4 H5 H6 H7 H8] Hc. set (n := lh_nchunks l) in *. set (m := ring_len l) in *.
  assert (Hm : (0 < m < n)%nat) by (unfold m, ring_len; fold n; lia).
  assert (Ht : lh_tail l = if decide (lh_head l + m < n)%nat then (lh_head l + m)%nat else (lh_head l + m - n)%nat)
    by (rewrite H4; apply mod_wrap; lia).
  assert (Htn : (lh_tail l < n)%nat) by (rewrite Ht; case_decide; lia).
  unfold log_switch. rewrite decide_True by lia. set (free := <[lh_tail l := clh_chunk c]> (lh_free l)).
  set (head' := ((lh_head l + 1) mod lh_nchunks l)%nat).
  assert (Hh' : head' = if decide (lh_head l + 1 < n)%nat then (lh_head l + 1)%nat else 0%nat).
  { unfold head'. fold n. rewrite mod_wrap by lia. repeat case_decide; lia. }
  assert (Hold : forall i, (i < m)%nat -> free !!! ((lh_head l + i) mod n)%nat = lh_free l !!! ((lh_head l + i) mod n)%nat).
  { intros i Hi. unfold free. rewrite list_lookup_total_insert_ne; [done|]. rewrite Ht, mod_wrap by lia. repeat case_decide; lia. }
  assert (Hring : exists k r, ring l = k :: r /\ k = lh_free l !!! lh_head l /\ forall i, (i < m - 1)%nat ->
      r !! i = Some (lh_free l !!! ((lh_head l + S i) mod n)%nat)).
  { pose proof (ring_lookup l 0 ltac:(fold m; lia)) as Hk. destruct (ring l) as [|k r] eqn:Er; [done|]. exists k, r. split; [done|].
    injection Hk as ->. rewrite Nat.add_0_r, Nat.mod_small by (fold n; lia). split; [done|]. intros i Hi.
    pose proof (ring_lookup l (S i) ltac:(fold m; lia)) as Hi'. by rewrite Er in Hi'. }
  destruct Hring as (k & r & Er & Ek & Hr).
  assert (Hk : free !!! lh_head l = k).
  { rewrite Ek. specialize (Hold 0%nat ltac:(lia)). by rewrite Nat.add_0_r, Nat.mod_small in Hold by lia. }
  eexists _, _, k, r. split; [reflexivity|]. cbn [lh_cpu lh_mem lh_base lh_chunksize lh_nchunks lh_free lh_head lh_tail].
  fold head' n. rewrite Hk. split; [done|]. split.
  - assert (Hrl : length r = (m - 1)%nat) by (pose proof (ring_length l) as E; rewrite Er in E; simpl in E; fold m in E; lia).
    apply list_eq. intros i. destruct (decide (i < m)%nat) as [Hi|Hi].
    2:{ rewrite !lookup_ge_None_2; [done|rewrite length_app; simpl; lia|rewrite ring_length; exact (proj1 (Nat.nlt_ge i m) Hi)]. }
    rewrite ring_lookup by exact Hi. cbn [lh_head lh_nchunks lh_free]. fold n free.
    destruct (decide (i = (m - 1)%nat)) as [->|Hne].
    + rewrite <- Hrl, list_lookup_middle by done. f_equal. unfold free. replace ((head' + length r) mod n)%nat with (lh_tail l).
      * apply list_lookup_total_insert_eq. lia.
      * rewrite Ht, Hrl, Hh'. case_decide; rewrite mod_wrap by lia; repeat case_decide; lia.
    + rewrite lookup_app_l by lia. rewrite (Hr i) by lia. f_equal. rewrite <- Hold by lia. f_equal.
      rewrite Hh', mod_wrap by (case_decide; lia). rewrite mod_wrap by lia. repeat case_decide; lia.
  - split; [done|]. do 5 (split; [done|]). split; [unfold free; by rewrite length_insert|]. split; [rewrite Hh'; case_decide; lia|].
    change (ring_len _) with m. rewrite Ht, Hh'. repeat case_decide; rewrite ?mod_wrap by lia; repeat case_decide; lia.
Qed.

(** * Transaction logs: properties

    Every entry goes to its CPU's own chunk, inside the log, and stays there
    until the ring has gone round. *)

(** The log's memory with [d] at offset [p]. *)
Definition splice (p : nat) (d m : list Z) : list Z := take p m ++ d ++ drop (p + length d) m.
Lemma splice_length p d m : (p + length d <= length m)%nat -> length (splice p d m) = length m.
Proof. intros H. unfold splice. rewrite !length_app, length_take, length_drop. lia. Qed.
Lemma splice_in p d m i : (i < length d)%nat -> (p + length d <= length m)%nat -> splice p d m !! (p + i)%nat = d !! i.
Proof.
  intros Hi H. unfold splice. rewrite lookup_app_r by (rewrite length_take; lia).
  rewrite length_take, Nat.min_l by lia. replace (p + i - p)%nat with i by lia. by apply lookup_app_l.
Qed.
Lemma splice_out p d m j : (j < p \/ p + length d <= j)%nat -> (p + length d <= length m)%nat -> splice p d m !! j = m !! j.
Proof.
  intros Hj H. unfold splice. destruct (decide (j < p)%nat) as [Hl|Hl].
  - rewrite lookup_app_l by (rewrite length_take; lia). by apply lookup_take_lt.
  - rewrite lookup_app_r, length_take by (rewrite length_take; lia). rewrite lookup_app_r by lia.
    rewrite lookup_drop. f_equal. lia.
Qed.
Lemma splice_nil p m : splice p [] m = m.
Proof. unfold splice. simpl. rewrite Nat.add_0_r. apply take_drop. Qed.

(** How far an entry of CPU [cpu] changes the log: the chunk it goes to, the
    offset in it and the bytes written. *)
Record entered (l l' : umem_log_header) (cpu : nat) (c : umem_cpu_log_header) (a : Z) (k : nat) (u : Z) (d : list Z) : Prop := Entered {
  en_addr : d <> [] -> a = lh_base l + Z.of_nat k * lh_chunksize l + u;
  en_fits : 0 <= u /\ u + Z.of_nat (length d) <= lh_chunksize l;
  en_chunk : (k < lh_nchunks l)%nat;
  en_mem : lh_mem l' = splice (Z.to_nat (Z.of_nat k * lh_chunksize l + u)) d (lh_mem l);
  en_cpu : exists c', lh_cpu l' = <[cpu := c']> (lh_cpu l) /\ clh_chunk c' = k /\
             clh_avail c' = lh_chunksize l - u - Z.of_nat (length d);
  en_same : lh_base l' = lh_base l /\ lh_chunksize l' = lh_chunksize l /\ lh_nchunks l' = lh_nchunks l;
}.

Lemma owned_lookup l cpu c : lh_cpu l !! cpu = Some c -> owned l !! cpu = Some (clh_chunk c).
Proof. intros H. unfold owned. by rewrite list_lookup_fmap, H. Qed.
Lemma chunk_range l k : log_ok l -> k ∈ owned l ++ ring l <-> (k < lh_nchunks l)%nat.
Proof. intros H. rewrite (lg_perm _ H), elem_of_seq. lia. Qed.
Lemma chunks_nodup l : log_ok l -> NoDup (owned l ++ ring l).
Proof. intros H. rewrite (lg_perm _ H). apply NoDup_seq. Qed.

(** The byte of a chunk is a byte of the log. *)
Lemma chunk_fits l k u n : log_ok l -> (k < lh_nchunks l)%nat -> 0 <= u -> u + Z.of_nat n <= lh_chunksize l ->
  (Z.to_nat (Z.of_nat k * lh_chunksize l + u) + n <= length (lh_mem l))%nat.
Proof. intros H Hk Hu Hn. pose proof (lg_mem _ H). pose proof (lg_chunk _ H). nia. Qed.

(** A log with another header for a CPU. *)
Definition with_cpu (cpu : nat) (c : umem_cpu_log_header) (l : umem_log_header) : umem_log_header :=
  Log (lh_base l) (lh_free l) (lh_chunksize l) (lh_nchunks l) (lh_head l) (lh_tail l) (lh_hits l) (<[cpu := c]> (lh_cpu l)) (lh_mem l).
Definition with_mem (m : list Z) (l : umem_log_header) : umem_log_header :=
  Log (lh_base l) (lh_free l) (lh_chunksize l) (lh_nchunks l) (lh_head l) (lh_tail l) (lh_hits l) (lh_cpu l) m.
Lemma with_cpu_len cpu c l : ring_len (with_cpu cpu c l) = ring_len l.
Proof. unfold ring_len. simpl. by rewrite length_insert. Qed.
Lemma with_cpu_ring cpu c l : ring (with_cpu cpu c l) = ring l.
Proof. unfold ring. by rewrite with_cpu_len. Qed.

Lemma log_write_run l a k u d :
  log_ok l -> (k < lh_nchunks l)%nat -> 0 <= u -> u + Z.of_nat (length d) <= lh_chunksize l ->
  (d <> [] -> a = lh_base l + Z.of_nat k * lh_chunksize l + u) ->
  let m := splice (Z.to_nat (Z.of_nat k * lh_chunksize l + u)) d (lh_mem l) in
  log_write l a d = Ok (with_mem m l) /\ log_ok (with_mem m l).
Proof.
  intros H Hk Hu Hn Ha m. pose proof (chunk_fits l k u (length d) H Hk Hu Hn) as Hf. pose proof (lg_chunk _ H) as Hc. split.
  - unfold log_write. destruct d as [|x d]; [unfold m; rewrite splice_nil; by destruct l|]. rewrite (Ha ltac:(done)).
    set (e := x :: d) in *.
    replace (lh_base l + Z.of_nat k * lh_chunksize l + u - lh_base l) with (Z.of_nat k * lh_chunksize l + u) by lia.
    assert (0 <= Z.of_nat k * lh_chunksize l + u) by nia.
    rewrite (proj2 (Z.leb_le 0 _)) by lia. rewrite (proj2 (Z.leb_le _ (Z.of_nat (length (lh_mem l))))) by lia. done.
  - destruct H as [A1 A2 A3 A4 A5 A6 A7 A8]. split; try done. simpl. unfold m. by rewrite splice_length.
Qed.

(** The CPU's header after an entry of [n] bytes at offset [u] of chunk [k]. *)
Definition cpu_after (l : umem_log_header) (k : nat) (u n hits : Z) : umem_cpu_log_header :=
  CpuLog (lh_base l + Z.of_nat k * lh_chunksize l + u + n) (lh_chunksize l - u - n) k hits.

Lemma switched_ok l l1 cpu c k r c' :
  log_ok l -> lh_cpu l !! cpu = Some c -> ring l = k :: r -> ring l1 = r ++ [clh_chunk c] -> lh_cpu l1 = lh_cpu l ->
  clh_chunk c' = k -> owned (with_cpu cpu c' l1) ++ ring (with_cpu cpu c' l1) ≡ₚ seq 0 (lh_nchunks l).
Proof.
  intros H Hc Er Er1 Ecpu Hx. rewrite with_cpu_ring, <- (lg_perm _ H), Er, Er1. unfold owned. simpl. rewrite Ecpu, list_fmap_insert, Hx.
  pose proof (owned_lookup l cpu c Hc) as Ho. unfold owned in Ho. rewrite insert_take_drop by (by eapply lookup_lt_Some).
  rewrite <- (take_drop_middle _ _ _ Ho) at 3. generalize (take cpu (clh_chunk <$> lh_cpu l)) (drop (S cpu) (clh_chunk <$> lh_cpu l)).
  intros A B. solve_Permutation.
Qed.

(** Taking the oldest chunk of the ring. *)
Lemma switch_ok l cpu c n hits :
  log_ok l -> lh_cpu l !! cpu = Some c -> 0 <= n <= lh_chunksize l ->
  exists l1 k r, (forall h, log_switch l (CpuLog (clh_current c) (clh_avail c) (clh_chunk c) h) =
      Ok (l1, CpuLog (lh_base l + Z.of_nat k * lh_chunksize l) (lh_chunksize l) k h)) /\
    ring l = k :: r /\ ring l1 = r ++ [clh_chunk c] /\ log_ok (with_cpu cpu (cpu_after l k 0 n hits) l1) /\
    lh_cpu l1 = lh_cpu l /\ lh_mem l1 = lh_mem l /\ lh_base l1 = lh_base l /\ lh_chunksize l1 = lh_chunksize l /\ lh_nchunks l1 = lh_nchunks l.
Proof.
  intros H Hc Hn. destruct (switch_run l cpu c H Hc) as (l1 & c2 & k & r & Es & Er & Er1 & -> & E1 & E2 & E3 & E4 & E5 & E6 & E7 & E8).
  exists l1, k, r. split; [|split; [done|]; split; [done|]; split; [|done]].
  - intros h. unfold log_switch in Es |- *. destruct (decide _); [|done]. injection Es as <- ? E. cbn [clh_chunk] in *. by rewrite E.
  - pose proof (switched_ok l l1 cpu c k r (cpu_after l k 0 n hits) H Hc Er Er1 E1 eq_refl) as Hp. destruct H as [A1 A2 A3 A4 A5 A6 A7 A8].
    split; rewrite ?with_cpu_len; cbn [with_cpu lh_base lh_free lh_chunksize lh_nchunks lh_head lh_tail lh_cpu lh_mem];
      rewrite ?length_insert, ?E1, ?E2, ?E4, ?E5; try done.
    + by rewrite <- E5 at 1.
    + apply Forall_insert; [|unfold cpu_ok, cpu_after; simpl; rewrite E3, E4; split; [lia|right; lia]].
      eapply Forall_impl; [exact A8|]. intros x [Hx1 Hx2]. unfold cpu_ok. simpl. by rewrite E3, E4.
Qed.

(** Appending to the CPU's own chunk. *)
Lemma append_ok l cpu c x :
  log_ok l -> lh_cpu l !! cpu = Some c -> clh_chunk x = clh_chunk c -> cpu_ok l x -> log_ok (with_cpu cpu x l).
Proof.
  intros [A1 A2 A3 A4 A5 A6 A7 A8] Hc Hx Hok. split; rewrite ?with_cpu_len, ?with_cpu_ring; simpl; rewrite ?length_insert; try done.
  - unfold owned in *. simpl. rewrite list_fmap_insert, Hx, list_insert_id; [done|]. by rewrite list_lookup_fmap, Hc.
  - apply Forall_insert; [|done]. done.
Qed.

Lemma log_enter_run logging l cpu data :
  logging <> 0 -> log_ok l -> (cpu < length (lh_cpu l))%nat ->
  exists l' a c k u, umem_log_enter logging l cpu data = Ok (l', a) /\ lh_cpu l !! cpu = Some c /\ log_ok l' /\
    entered l l' cpu c a k u (take (Z.to_nat (lh_chunksize l)) data) /\
    if log_full c (Z.of_nat (length data)) then u = 0 /\ exists r, ring l = k :: r /\ ring l' = r ++ [clh_chunk c]
    else k = clh_chunk c /\ u = lh_chunksize l - clh_avail c /\ ring l' = ring l.
Proof.
  intros Hlog H Hcpu. destruct (lookup_lt_is_Some_2 _ _ Hcpu) as [c Hc].
  pose proof (proj1 (Forall_lookup _ _) (lg_cpu _ H) _ _ Hc) as [Hav Hcur]. pose proof (lg_chunk _ H) as Hcs.
  set (d := take (Z.to_nat (lh_chunksize l)) data). assert (Hd : Z.of_nat (length d) = Z.min (lh_chunksize l) (Z.of_nat (length data)))
    by (unfold d; rewrite length_take; lia).
  unfold umem_log_enter. rewrite (proj2 (Z.eqb_neq _ _) Hlog), Hc. unfold log_full. cbn [clh_avail clh_current clh_chunk clh_hits].
  destruct (Z.ltb_spec (clh_avail c) (Z.of_nat (length data))) as [Hfull|Hroom].
  - destruct (switch_ok l cpu c (Z.of_nat (length d)) (clh_hits c + 1) H Hc ltac:(lia))
      as (l1 & k & r & Es & Er & Er1 & H1 & E1 & E2 & E3 & E4 & E5).
    rewrite Es. cbn [res_bind clh_avail clh_current clh_chunk clh_hits].
    replace (if lh_chunksize l1 <? _ then lh_chunksize l1 else _) with (Z.of_nat (length d)) by (rewrite E4; case_match; lia).
    replace (take (Z.to_nat (Z.of_nat (length d))) data) with d
      by (unfold d; rewrite Nat2Z.id, length_take; destruct (decide (length data <= Z.to_nat (lh_chunksize l))%nat);
          [rewrite !take_ge by lia; done|by rewrite Nat.min_l by lia]).
    assert (Hk : (k < lh_nchunks l)%nat) by (apply (chunk_range l k H); rewrite Er; apply elem_of_app; right; left).
    replace (CpuLog _ _ _ _) with (cpu_after l k 0 (Z.of_nat (length d)) (clh_hits c + 1)) by (unfold cpu_after; f_equal; lia).
    fold (with_cpu cpu (cpu_after l k 0 (Z.of_nat (length d)) (clh_hits c + 1)) l1).
    destruct (log_write_run _ (lh_base l + Z.of_nat k * lh_chunksize l) k 0 d H1) as [-> H2];
      cbn [with_cpu lh_base lh_chunksize lh_nchunks lh_mem] in *; rewrite ?E2, ?E3, ?E4, ?E5 in *; try done; try (intros; lia).
    cbn [res_bind]. eexists _, _, c, k, 0. rewrite (proj2 (Z.ltb_lt _ _) Hfull). split; [done|]. split; [done|]. split; [done|]. split; [|split; [done|]; exists r; split; [done|]].
    + split; try done; try (intros; lia). eexists. simpl. rewrite E1. split; [done|]. done.
    + change (ring (with_cpu cpu (cpu_after l k 0 (Z.of_nat (length d)) (clh_hits c + 1)) l1) = r ++ [clh_chunk c]). by rewrite with_cpu_ring.
  - assert (Ed : d = data) by (unfold d; apply take_ge; lia). cbn [res_bind clh_avail clh_current clh_chunk clh_hits].
    rewrite Nat2Z.id, take_ge by done. fold (with_cpu cpu (CpuLog (clh_current c + Z.of_nat (length data)) (clh_avail c - Z.of_nat (length data)) (clh_chunk c) (clh_hits c + 1)) l).
    set (x := CpuLog _ _ _ _). assert (Hx : log_ok (with_cpu cpu x l)).
    { apply (append_ok l cpu c); try done. unfold cpu_ok, x. simpl. split; [lia|]. destruct Hcur as [E|E]; [left|right]; lia. }
    assert (Hk : (clh_chunk c < lh_nchunks l)%nat).
    { apply (chunk_range l _ H). apply elem_of_app. left. by eapply list_elem_of_lookup_2, owned_lookup. }
    rewrite Ed. destruct (log_write_run _ (clh_current c) (clh_chunk c) (lh_chunksize l - clh_avail c) data Hx) as [-> H2];
      cbn [with_cpu lh_base lh_chunksize lh_nchunks lh_mem] in *; try done; try lia.
    { intros Hne. destruct data as [|y data]; [done|]. simpl in Hroom. destruct Hcur as [E| ->]; [lia|]. lia. }
    cbn [res_bind]. eexists _, _, c, (clh_chunk c), (lh_chunksize l - clh_avail c). rewrite (proj2 (Z.ltb_ge _ _) Hroom). split; [done|]. split; [done|]. split; [done|].
    split; [|split_and!; try done; apply with_cpu_ring].
    split; try done; try lia.
    { intros Hne. destruct data as [|y data]; [done|]. simpl in Hroom. destruct Hcur as [E| ->]; [lia|]. lia. }
    exists x. split; [done|]. split; [done|]. unfold x. simpl. lia.
Qed.

(** ** Entries that last *)

(** The bytes [d] at offset [o] of chunk [k], within what its CPU has filled. *)
Record stored (l : umem_log_header) (k : nat) (o : Z) (d : list Z) : Prop := Stored {
  st_chunk : (k < lh_nchunks l)%nat;
  st_fits : 0 <= o /\ o + Z.of_nat (length d) <= lh_chunksize l;
  st_bytes i : (i < length d)%nat -> lh_mem l !! (Z.to_nat (Z.of_nat k * lh_chunksize l + o) + i)%nat = d !! i;
  st_used cpu c : lh_cpu l !! cpu = Some c -> clh_chunk c = k -> o + Z.of_nat (length d) <= lh_chunksize l - clh_avail c;
}.
(** The chunk is not taken again within [n] switches. *)
Definition lasts (l : umem_log_header) (k n : nat) : Prop :=
  (k ∈ owned l /\ (n <= ring_len l)%nat) \/ exists i, ring l !! i = Some k /\ (n <= i)%nat.

Lemma entered_len l l' cpu c a k u d : entered l l' cpu c a k u d -> ring_len l' = ring_len l.
Proof. intros [_ _ _ _ (c' & E & _) (_ & _ & En)]. unfold ring_len. by rewrite E, En, length_insert. Qed.
Lemma entered_owned l l' cpu c a k u d :
  entered l l' cpu c a k u d -> owned l' = <[cpu := k]> (owned l).
Proof. intros [_ _ _ _ (c' & E & <- & _) _]. unfold owned. by rewrite E, list_fmap_insert. Qed.

(** What is stored elsewhere, or earlier in the same chunk, stays. *)
Lemma entered_keeps l l' cpu c a k u d k0 o d0 :
  log_ok l -> lh_cpu l !! cpu = Some c -> entered l l' cpu c a k u d -> stored l k0 o d0 ->
  (k = k0 -> o + Z.of_nat (length d0) <= u) -> stored l' k0 o d0.
Proof.
  intros H Hc [E1 [E2 E2'] E3 E4 (c' & E5 & E6 & E7) (E8 & E9 & E10)] [S1 [S2 S2'] S3 S4] Hpos. pose proof (lg_chunk _ H) as Hcs.
  split; rewrite ?E9, ?E10; try done.
  - intros i Hi. rewrite <- S3 by done. rewrite E4. apply splice_out; [|by apply chunk_fits].
    destruct (decide (k = k0)) as [->|Hne]; [specialize (Hpos eq_refl); nia|]. destruct (Nat.lt_ge_cases k0 k); [left|right]; nia.
  - intros x y Hx Hy. rewrite E5, list_lookup_insert_Some in Hx. destruct Hx as [(-> & -> & Hlt)|[Hne Hx]]; [|by eapply S4].
    specialize (Hpos ltac:(congruence)). lia.
Qed.

Lemma entered_stored l l' cpu c a k u d :
  log_ok l -> log_ok l' -> (cpu < length (lh_cpu l))%nat -> entered l l' cpu c a k u d -> stored l' k u d /\ lasts l' k (ring_len l').
Proof.
  intros H H' Hcpu En. pose proof En as [E1 [E2 E2'] E3 E4 (c' & E5 & E6 & E7) (E8 & E9 & E10)]. split.
  - split; rewrite ?E9, ?E10; try done.
    + intros i Hi. rewrite E4. apply splice_in; [done|]. by apply chunk_fits.
    + intros x y Hx Hy. assert (x = cpu) as ->.
      { apply owned_lookup in Hx. rewrite (entered_owned _ _ _ _ _ _ _ _ En) in Hx.
        pose proof (chunks_nodup _ H') as Hnd. apply NoDup_app in Hnd as [Hnd _]. rewrite (entered_owned _ _ _ _ _ _ _ _ En) in Hnd.
        eapply NoDup_lookup; [exact Hnd|exact Hx|]. rewrite Hy. apply list_lookup_insert_eq. unfold owned. by rewrite length_fmap. }
      rewrite E5, list_lookup_insert_eq in Hx by done. injection Hx as <-. lia.
  - left. split; [|done]. rewrite (entered_owned _ _ _ _ _ _ _ _ En). eapply list_elem_of_lookup_2, list_lookup_insert_eq.
    unfold owned. by rewrite length_fmap.
Qed.

(** One entry by any CPU: a chunk that lasts keeps what is stored in it, and
    comes at most one step closer to being taken, only by a switch. *)
Lemma enter_keeps logging l cpu data k o d n :
  logging <> 0 -> log_ok l -> (cpu < length (lh_cpu l))%nat -> stored l k o d ->
  (forall c, lh_cpu l !! cpu = Some c -> lasts l k (n + (if log_full c (Z.of_nat (length data)) then 1 else 0))) ->
  exists l' a, umem_log_enter logging l cpu data = Ok (l', a) /\ log_ok l' /\ stored l' k o d /\ lasts l' k n /\
    lh_base l' = lh_base l /\ lh_chunksize l' = lh_chunksize l /\ length (lh_cpu l') = length (lh_cpu l) /\ ring_len l' = ring_len l.
Proof.
  intros Hlog H Hcpu Hst Hl. destruct (log_enter_run logging l cpu data Hlog H Hcpu) as (l' & a & c & k' & u & E & Hc & H' & En & Hsw).
  exists l', a. split; [done|]. split; [done|]. specialize (Hl c Hc).
  assert (Hlen : length (lh_cpu l') = length (lh_cpu l)) by (destruct En as [_ _ _ _ (c' & E5 & _) _]; by rewrite E5, length_insert).
  pose proof (entered_len _ _ _ _ _ _ _ _ En) as Hrl. pose proof (entered_owned _ _ _ _ _ _ _ _ En) as Ho.
  pose proof (chunks_nodup _ H) as Hnd. apply NoDup_app in Hnd as (Hn1 & Hn2 & Hn3).
  assert (Hoc : owned l !! cpu = Some (clh_chunk c)) by (by apply owned_lookup).
  assert (Hend : stored l' k o d /\ lasts l' k n).
  { destruct (log_full c (Z.of_nat (length data))) eqn:Ef.
    - destruct Hsw as (-> & r & Er & Er'). assert (Hne : k' <> k).
      { intros ->. destruct Hl as [[Hin _]|(i & Hi & Hle)]; [apply (Hn2 k Hin); rewrite Er; left|].
        assert (i = 0%nat) as ->; [|lia]. eapply NoDup_lookup; [exact Hn3|exact Hi|]. by rewrite Er. }
      split; [eapply entered_keeps; [exact H|exact Hc|exact En|done|done]|].
      assert (Hrlen : ring_len l = S (length r)) by (rewrite <- ring_length, Er; done).
      destruct Hl as [[Hin Hle]|(i & Hi & Hle)].
      + destruct (decide (k = clh_chunk c)) as [->|Hk].
        * right. exists (length r). rewrite Er', list_lookup_middle by done. split; [done|lia].
        * left. rewrite Ho, Hrl. split; [|lia]. apply list_elem_of_lookup in Hin as [j Hj]. eapply (list_elem_of_lookup_2 _ j).
          rewrite list_lookup_insert_ne; [done|]. intros <-. congruence.
      + right. destruct i as [|i]; [lia|]. exists i. rewrite Er in Hi. simpl in Hi. rewrite Er'. split; [|lia].
        by apply lookup_app_l_Some.
    - destruct Hsw as (-> & -> & Er). rewrite Nat.add_0_r in Hl. split.
      + eapply entered_keeps; [exact H|exact Hc|exact En|done|]. intros Ek. by eapply (st_used _ _ _ _ Hst).
      + unfold lasts in *. rewrite Ho, Er, Hrl, list_insert_id by done. exact Hl. }
  destruct Hend as [? ?]. destruct En as [_ _ _ _ _ (E8 & E9 & _)]. split_and!; done.
Qed.

(** A sequence of entries, with the number of switches it makes. *)
Fixpoint log_run (logging : Z) (l : umem_log_header) (es : list (nat * list Z)) : result (umem_log_header * nat) :=
  match es with
  | [] => Ok (l, 0%nat)
  | (cpu, data) :: es =>
      let switched := match lh_cpu l !! cpu with Some c => log_full c (Z.of_nat (length data)) | None => false end in
      do (l, _) <- umem_log_enter logging l cpu data;
      do (l, n) <- log_run logging l es;
      Ok (l, n + if switched : bool then 1 else 0)%nat
  end.

(** The parts of a log that never change. *)
Definition same_log (l l' : umem_log_header) : Prop :=
  lh_base l' = lh_base l /\ lh_chunksize l' = lh_chunksize l /\ lh_nchunks l' = lh_nchunks l /\ length (lh_cpu l') = length (lh_cpu l).
Lemma entered_same l l' cpu c a k u d : entered l l' cpu c a k u d -> same_log l l'.
Proof. intros [_ _ _ _ (c' & E & _) (E1 & E2 & E3)]. unfold same_log. by rewrite E, length_insert. Qed.

Lemma run_ok logging es l :
  logging <> 0 -> log_ok l -> Forall (fun e => (e.1 < length (lh_cpu l))%nat) es ->
  exists l' n, log_run logging l es = Ok (l', n) /\ log_ok l' /\ same_log l l' /\
    forall k o d m, stored l k o d -> lasts l k (m + n) -> stored l' k o d.
Proof.
  intros Hlog. revert l. induction es as [|[cpu data] es IH]; intros l H Hes.
  { exists l, 0%nat. split; [done|]. split; [done|]. split; [done|]. by intros. }
  apply Forall_cons in Hes as [Hcpu Hes]. simpl in Hcpu.
  destruct (log_enter_run logging l cpu data Hlog H Hcpu) as (l1 & a & c & k' & u & E & Hc & H1 & En & Hsw).
  pose proof (entered_same _ _ _ _ _ _ _ _ En) as (S1 & S2 & S3 & S4).
  destruct (IH l1 H1) as (l2 & n & En' & H2 & (T1 & T2 & T3 & T4) & Hkeep); [by rewrite S4|].
  cbn [log_run]. rewrite Hc, E. cbn [res_bind]. rewrite En'. cbn [res_bind]. eexists _, _. split; [done|]. split; [done|].
  split; [unfold same_log; by rewrite T1, T2, T3, T4|].
  intros k o d m Hst Hl. destruct (enter_keeps logging l cpu data k o d (m + n)%nat Hlog H Hcpu Hst) as (l1' & a' & E' & _ & K1 & K2 & _).
  { intros c' Hc'. rewrite Hc in Hc'. injection Hc' as <-. by rewrite <- Nat.add_assoc. }
  rewrite E in E'. injection E' as <- <-. by eapply Hkeep.
Qed.

(** ** A new log *)

Lemma fill_free_run first n free :
  (first + n <= length free)%nat ->
  length (fill_free first n free) = length free /\
  forall i, (first <= i < first + n)%nat -> fill_free first n free !!! i = i.
Proof.
  revert first free. induction n as [|n IH]; intros first free Hl; [split; [done|lia]|]. cbn [fill_free].
  destruct (IH (S first) (<[first := first]> free)) as [E1 E2]; [rewrite length_insert; lia|]. rewrite length_insert in E1. split; [done|].
  intros i Hi. destruct (decide (i = first)) as [->|Hne]; [|apply E2; lia].
  assert (Hkeep : forall m f l x, (f > x)%nat -> fill_free f m l !!! x = l !!! x).
  { clear. intros m. induction m as [|m IHm]; intros f l x Hx; [done|]. cbn [fill_free]. rewrite IHm by lia.
    by rewrite list_lookup_total_insert_ne by lia. }
  rewrite Hkeep by lia. apply list_lookup_total_insert_eq. lia.
Qed.

Lemma init_ok PAGESIZE lhsize logsize ncpus lhp base free junk l :
  0 < PAGESIZE -> (0 < ncpus)%nat -> length junk = (4 * ncpus)%nat ->
  umem_log_init PAGESIZE lhsize logsize ncpus lhp base free junk = (Some l, []) ->
  lh_chunksize l * (4 * Z.of_nat ncpus) < 2 ^ 64 -> log_ok l /\ length (lh_cpu l) = ncpus /\ lh_nchunks l = (4 * ncpus)%nat.
Proof.
  intros Hp Hn Hj. unfold umem_log_init. remember (4 * ncpus)%nat as n eqn:En.
  assert (Hr : 0 <= P2ROUNDUP (logsize / Z.of_nat n) PAGESIZE) by (apply Z.mod_pos_bound; lia). destruct (logsize =? 0); [done|].
  destruct (lhp =? 0); [done|]. destruct (base =? 0); [done|]. destruct (free =? 0); [done|]. set (cs := if P2ROUNDUP _ _ =? 0 then _ else _).
  assert (Hcs : 0 < cs) by (unfold cs; destruct (Z.eqb_spec (P2ROUNDUP (logsize / Z.of_nat n) PAGESIZE) 0); lia).
  intros [= <-] Hw. cbn [lh_cpu lh_nchunks lh_chunksize] in *. rewrite length_fmap, length_seq. split; [|done].
  destruct (fill_free_run ncpus (n - ncpus) junk) as [F1 F2]; [lia|].
  split; unfold owned, ring, ring_len; cbn [lh_cpu lh_free lh_nchunks lh_head lh_tail lh_chunksize lh_mem]; rewrite ?length_fmap, ?length_seq; try lia.
  - rewrite mod_wrap by lia. case_decide; lia.
  - replace (clh_chunk <$> ((fun i => CpuLog 0 0 i 0) <$> seq 0 ncpus)) with (seq 0 ncpus)
      by (rewrite <- list_fmap_compose; symmetry; apply list_fmap_id).
    replace (seq 0 n) with (seq 0 ncpus ++ seq (0 + ncpus) (n - ncpus)) by (rewrite <- seq_app; f_equal; lia). f_equiv.
    rewrite Nat.add_comm, <- (fmap_add_seq ncpus 0). apply Permutation_refl', list_fmap_ext. intros i x Hx. apply lookup_seq in Hx as [-> Hi]. simpl.
    rewrite Nat.mod_small by lia. apply F2. lia.
  - rewrite length_replicate, w64_small by (unfold is_word; nia). nia.
  - apply Forall_fmap, Forall_forall. intros x _. unfold cpu_ok. simpl. split; [lia|by left].
Qed.

(** ** Properties *)

(** C30: Whatever the CPUs have logged before, an entry goes inside the log, and
    its bytes (as many as a chunk holds) are there unchanged until the CPUs
    have taken three new chunks per CPU: no other CPU's entry and no later one
    overwrites it before the ring has gone round.  No chunk number, header or
    byte outside the log is accessed on the way.  The log is one whose size in
    bytes, a product the code computes in a word, does not wrap. *)
Theorem log_entry_kept (logging PAGESIZE lhsize logsize lhp base free : Z) (ncpus : nat) (junk : list nat) (l : umem_log_header)
    (before after : list (nat * list Z)) (cpu : nat) (data : list Z) :
  logging <> 0 -> 0 < PAGESIZE -> (0 < ncpus)%nat -> length junk = (4 * ncpus)%nat ->
  umem_log_init PAGESIZE lhsize logsize ncpus lhp base free junk = (Some l, []) ->
  lh_chunksize l * (4 * Z.of_nat ncpus) < 2 ^ 64 ->
  Forall (fun e => (e.1 < ncpus)%nat) (before ++ (cpu, data) :: after) ->
  let d := take (Z.to_nat (lh_chunksize l)) data in
  exists l1 n1 l2 a l3 n3, log_run logging l before = Ok (l1, n1) /\ umem_log_enter logging l1 cpu data = Ok (l2, a) /\
    log_run logging l2 after = Ok (l3, n3) /\
    (d <> [] -> lh_base l <= a /\ a + Z.of_nat (length d) <= lh_base l + lh_chunksize l * (4 * Z.of_nat ncpus)) /\
    ((n3 <= 3 * ncpus)%nat -> forall i, (i < length d)%nat -> lh_mem l3 !! (Z.to_nat (a - lh_base l) + i)%nat = d !! i).
Proof.
  intros Hlog Hp Hn Hj Hi Hw Hf d. destruct (init_ok _ _ _ _ _ _ _ _ _ Hp Hn Hj Hi Hw) as (H & Hlen & Hch).
  apply Forall_app in Hf as [Hb Hf]. apply Forall_cons in Hf as [Hcpu Ha]. simpl in Hcpu. rewrite <- Hlen in Hb, Hcpu, Ha.
  destruct (run_ok logging before l Hlog H Hb) as (l1 & n1 & E1 & H1 & (A1 & A2 & A3 & A4) & _). rewrite <- A4 in Hcpu, Ha.
  destruct (log_enter_run logging l1 cpu data Hlog H1 Hcpu) as (l2 & a & c & k & u & E2 & Hc & H2 & En & _). rewrite A2 in En. fold d in En.
  pose proof (entered_same _ _ _ _ _ _ _ _ En) as (B1 & B2 & B3 & B4). rewrite <- B4 in Ha.
  destruct (run_ok logging after l2 Hlog H2 Ha) as (l3 & n3 & E3 & H3 & (C1 & C2 & C3 & C4) & Hkeep).
  destruct (entered_stored _ _ _ _ _ _ _ _ H1 H2 Hcpu En) as [Hst Hl].
  assert (Hrl : ring_len l2 = (3 * ncpus)%nat) by (unfold ring_len; rewrite B3, A3, B4, A4, Hlen, Hch; lia).
  exists l1, n1, l2, a, l3, n3. do 3 (split; [done|]). pose proof (en_addr _ _ _ _ _ _ _ _ En) as Haddr. pose proof (lg_chunk _ H) as Hcs.
  pose proof (en_fits _ _ _ _ _ _ _ _ En) as Hfit. pose proof (en_chunk _ _ _ _ _ _ _ _ En) as Hk. rewrite A1, A2, A3, ?Hch in *. split.
  - intros Hne. rewrite (Haddr Hne). nia.
  - intros Hle i Hi'. specialize (Hkeep k u d (3 * ncpus - n3)%nat Hst). destruct Hkeep as [K1 K2 K3 K4].
    { replace (3 * ncpus - n3 + n3)%nat with (ring_len l2) by lia. exact Hl. }
    assert (Hne : d <> []) by (destruct d; [simpl in Hi'; lia|done]). rewrite (Haddr Hne), <- (K3 i Hi'), C2, B2. f_equal. lia.
Qed.

Lemma log_entry_kept_witness :
  exists l3 n3, log_run 1 (Log 8192 (fill_free 1 3 [0; 0; 0; 0]%nat) 64 4 1 0 0 [CpuLog 0 0 0 0] (replicate 256 0)) [(0%nat, [7; 8]); (0%nat, replicate 63 9)] = Ok (l3, n3) /\
    lh_mem l3 !! 64%nat = Some 7 /\ n3 = 2%nat.
Proof.
  destruct (log_entry_kept 1 64 256 100 4096 8192 12288 1 [0; 0; 0; 0]%nat (Log 8192 (fill_free 1 3 [0; 0; 0; 0]%nat) 64 4 1 0 0 [CpuLog 0 0 0 0] (replicate 256 0))
    [] [(0%nat, replicate 63 9)] 0 [7; 8]) as (l1 & n1 & l2 & a & l3 & n3 & E1 & E2 & E3 & _ & H).
  - discriminate.
  - reflexivity.
  - apply le_n.
  - reflexivity.
  - vm_compute. reflexivity.
  - reflexivity.
  - repeat constructor.
  - injection E1 as <- <-. vm_compute in E2. injection E2 as <- <-. vm_compute in E3. injection E3 as <- <-.
    eexists _, _. split; [vm_compute; reflexivity|]. split; [|reflexivity].
    exact (H ltac:(apply Nat.leb_le; reflexivity) 0%nat ltac:(vm_compute; lia)).
Defined.
