(* ===== verification/OwnModel.v ===== *)
(** * Owned allocations

    umem_own.c: an owned allocation carries a header with its state, the number
    of references borrowed from it and, in debug mode, its thread and borrow
    counts.  [heap_env] is what its clients see of [umem_alloc] and [umem_free].

    Headers are read and written at the address of their handle: [ow_hdrs] is
    that memory, which keeps what was last stored there, also after the block
    has been freed.  [debug] is [umem_ownership_debug], which the program sets
    before it uses the interface. *)
From S2P Require Import Prelude Machine ByteMem.

Class heap_env (W : Type) := {
  he_alloc : W -> Z -> Z -> result (W * Z);        (* _umem_alloc (size, flags); 0 is NULL *)
  he_free : W -> Z -> Z -> result W;               (* _umem_free (buf, size) *)
  he_cache_alloc : W -> Z -> Z -> result (W * Z);  (* _umem_cache_alloc (cp, flags) *)
  he_bufsize : Z -> Z;                             (* cp->cache_bufsize *)
}.

Definition UMEM_OWN_STATE_OWNED : Z := 1.
Definition UMEM_OWN_STATE_MOVED : Z := 2.
Definition UMEM_OWN_STATE_DROPPED : Z := 3.

Inductive umem_own_error :=
| UMEM_OWN_USE_AFTER_FREE | UMEM_OWN_USE_AFTER_MOVE | UMEM_OWN_DOUBLE_FREE
| UMEM_OWN_BORROW_CONFLICT | UMEM_OWN_THREAD_VIOLATION | UMEM_OWN_LEAK.

Record own_hdr := OwnHdr {
  ohl_refcount : Z;             (* uint32_t *)
  ohl_state : Z;                (* uint32_t *)
  ohl_alloc_size : Z;
  ohd_owner_thread : Z;         (* the rest in debug mode only *)
  ohd_borrow_count : Z;         (* int32_t *)
  ohd_mut_borrow : Z;           (* int32_t *)
}.
Record umem_ref := Ref { ref_owner : Z; ref_data : Z; ref_mutable : bool }.
Definition null_ref : umem_ref := Ref 0 0 false.

Record own (W : Type) := Own {
  ow_world : W;
  ow_hdrs : gmap Z own_hdr;
  ow_mem : bytes;
  ow_errors : list (umem_own_error * Z);    (* what the handler or the log was told *)
}.
Arguments Own {W}. Arguments ow_world {W}. Arguments ow_hdrs {W}. Arguments ow_mem {W}. Arguments ow_errors {W}.

Section own.
Context {W : Type} {he : heap_env W} (debug handler abort : bool).
Implicit Types s : own W.

Definition set_world (w : W) s : own W := Own w (ow_hdrs s) (ow_mem s) (ow_errors s).
Definition set_hdr (o : Z) (x : own_hdr) s : own W := Own (ow_world s) (<[o := x]> (ow_hdrs s)) (ow_mem s) (ow_errors s).
Definition hdr_at s (o : Z) : result own_hdr :=
  match ow_hdrs s !! o with Some x => Ok x | None => Panic "not a header" end.

Definition header_size : Z := if debug then 104 else 16.
Definition aligned_header_size : Z := Z.land (wadd header_size 15) (wnot 15).
Definition to_data (o : Z) : Z := o + aligned_header_size.

(** A handler, when there is one, is told; else the log is, and the process
    stops when [umem_abort] is set. *)
Definition report_error (err : umem_own_error) (o : Z) s : result (own W) :=
  let s := Own (ow_world s) (ow_hdrs s) (ow_mem s) (ow_errors s ++ [(err, o)]) in
  if handler then Ok s else if abort then Panic "umem ownership abort" else Ok s.

(** The checks return whether they passed. *)
Definition require_owned (o : Z) s : result (own W * bool) :=
  if o =? 0 then do s <- report_error UMEM_OWN_USE_AFTER_FREE 0 s; Ok (s, false) else
  do l <- hdr_at s o;
  if ohl_state l =? UMEM_OWN_STATE_OWNED then Ok (s, true)
  else if ohl_state l =? UMEM_OWN_STATE_MOVED then do s <- report_error UMEM_OWN_USE_AFTER_MOVE o s; Ok (s, false)
  else do s <- report_error UMEM_OWN_USE_AFTER_FREE o s; Ok (s, false).
Definition require_thread (self o : Z) s : result (own W * bool) :=
  if negb debug then Ok (s, true) else
  do d <- hdr_at s o;
  if negb (ohd_owner_thread d =? self) then do s <- report_error UMEM_OWN_THREAD_VIOLATION o s; Ok (s, false)
  else Ok (s, true).
(** [require_owned], then [require_thread]. *)
Definition require_both (self o : Z) s : result (own W * bool) :=
  do (s, good) <- require_owned o s;
  if negb good then Ok (s, false) else require_thread self o s.

Definition init_header (self o user_size : Z) s : own W :=
  set_hdr o (if debug then OwnHdr 0 UMEM_OWN_STATE_OWNED user_size self 0 0
             else match ow_hdrs s !! o with
                  | Some x => OwnHdr 0 UMEM_OWN_STATE_OWNED user_size (ohd_owner_thread x) (ohd_borrow_count x) (ohd_mut_borrow x)
                  | None => OwnHdr 0 UMEM_OWN_STATE_OWNED user_size 0 0 0
                  end) s.

Definition umem_own_alloc (self size flags : Z) s : result (own W * Z) :=
  let total := wadd aligned_header_size size in
  do (w, raw) <- he_alloc (ow_world s) total flags;
  let s := set_world w s in
  if raw =? 0 then Ok (s, 0) else Ok (init_header self raw size s, raw).

Definition umem_deref (self o : Z) s : result (own W * Z) :=
  do (s, good) <- require_both self o s;
  if negb good then Ok (s, 0) else Ok (s, to_data o).

Definition not_owned_error (st : Z) : umem_own_error :=
  if st =? UMEM_OWN_STATE_MOVED then UMEM_OWN_USE_AFTER_MOVE else UMEM_OWN_USE_AFTER_FREE.
Definition umem_deref_const (o : Z) s : result (own W * Z) :=
  if o =? 0 then do s <- report_error UMEM_OWN_USE_AFTER_FREE 0 s; Ok (s, 0) else
  do l <- hdr_at s o;
  if negb (ohl_state l =? UMEM_OWN_STATE_OWNED) then do s <- report_error (not_owned_error (ohl_state l)) o s; Ok (s, 0)
  else Ok (s, to_data o).

Definition umem_drop (self o : Z) s : result (own W) :=
  if o =? 0 then Ok s else
  do l <- hdr_at s o;
  if ohl_state l =? UMEM_OWN_STATE_DROPPED then report_error UMEM_OWN_DOUBLE_FREE o s
  else if ohl_state l =? UMEM_OWN_STATE_MOVED then report_error UMEM_OWN_USE_AFTER_MOVE o s
  else if negb (ohl_state l =? UMEM_OWN_STATE_OWNED) then report_error UMEM_OWN_USE_AFTER_FREE o s
  else
    do (s, good) <- require_thread self o s;
    if negb good then Ok s else
    if negb (ohl_refcount l =? 0) then report_error UMEM_OWN_BORROW_CONFLICT o s else
    if debug && (negb (ohd_borrow_count l =? 0) || negb (ohd_mut_borrow l =? 0)) then report_error UMEM_OWN_BORROW_CONFLICT o s else
    let s := set_hdr o (OwnHdr (ohl_refcount l) UMEM_OWN_STATE_DROPPED (ohl_alloc_size l) (ohd_owner_thread l)
                          (ohd_borrow_count l) (ohd_mut_borrow l)) s in
    do w <- he_free (ow_world s) o (wadd aligned_header_size (ohl_alloc_size l));
    Ok (set_world w s).

Definition w32 (x : Z) : Z := x mod 2 ^ 32.
(** [int32_t] arithmetic of an atomic addition, which wraps. *)
Definition i32 (x : Z) : Z := (x + 2 ^ 31) mod 2 ^ 32 - 2 ^ 31.

Definition umem_borrow (self o : Z) s : result (own W * umem_ref) :=
  do (s, good) <- require_both self o s;
  if negb good then Ok (s, null_ref) else
  do d <- hdr_at s o;
  if debug && negb (ohd_mut_borrow d =? 0) then do s <- report_error UMEM_OWN_BORROW_CONFLICT o s; Ok (s, null_ref) else
  let x := OwnHdr (w32 (ohl_refcount d + 1)) (ohl_state d) (ohl_alloc_size d) (ohd_owner_thread d)
             (if debug then i32 (ohd_borrow_count d + 1) else ohd_borrow_count d) (ohd_mut_borrow d) in
  Ok (set_hdr o x s, Ref o (to_data o) false).

Definition umem_borrow_mut (self o : Z) s : result (own W * umem_ref) :=
  do (s, good) <- require_both self o s;
  if negb good then Ok (s, null_ref) else
  do d <- hdr_at s o;
  if debug && negb (ohd_borrow_count d =? 0) then do s <- report_error UMEM_OWN_BORROW_CONFLICT o s; Ok (s, null_ref) else
  if debug && negb (ohd_mut_borrow d =? 0) then do s <- report_error UMEM_OWN_BORROW_CONFLICT o s; Ok (s, null_ref) else
  let x := OwnHdr (w32 (ohl_refcount d + 1)) (ohl_state d) (ohl_alloc_size d) (ohd_owner_thread d)
             (ohd_borrow_count d) (if debug then 1 else ohd_mut_borrow d) in
  Ok (set_hdr o x s, Ref o (to_data o) true).

Definition umem_unborrow (ref : umem_ref) s : result (own W) :=
  let o := ref_owner ref in
  if o =? 0 then Ok s else
  do l <- hdr_at s o;
  let put refs bc mb := set_hdr o (OwnHdr refs (ohl_state l) (ohl_alloc_size l) (ohd_owner_thread l) bc mb) s in
  if ohl_refcount l =? 0 then
    do s <- report_error UMEM_OWN_BORROW_CONFLICT o (put (w32 (ohl_refcount l - 1)) (ohd_borrow_count l) (ohd_mut_borrow l));
    Ok (set_hdr o (OwnHdr 0 (ohl_state l) (ohl_alloc_size l) (ohd_owner_thread l) (ohd_borrow_count l) (ohd_mut_borrow l)) s)
  else
    Ok (put (w32 (ohl_refcount l - 1))
          (if debug && negb (ref_mutable ref) then i32 (ohd_borrow_count l - 1) else ohd_borrow_count l)
          (if debug && ref_mutable ref then 0 else ohd_mut_borrow l)).

Definition umem_move (self from : Z) s : result (own W * Z) :=
  do (s, good) <- require_both self from s;
  if negb good then Ok (s, 0) else
  do l <- hdr_at s from;
  if negb (ohl_refcount l =? 0) then do s <- report_error UMEM_OWN_BORROW_CONFLICT from s; Ok (s, 0) else
  Ok (if debug then set_hdr from (OwnHdr (ohl_refcount l) (ohl_state l) (ohl_alloc_size l) self 0 0) s else s, from).

Definition UMEM_OWN_DEFAULT : Z := 0.    (* UMEM_DEFAULT *)
Definition umem_clone (self src size : Z) s : result (own W * Z) :=
  if src =? 0 then do s <- report_error UMEM_OWN_USE_AFTER_FREE 0 s; Ok (s, 0) else
  do l <- hdr_at s src;
  if negb (ohl_state l =? UMEM_OWN_STATE_OWNED) then do s <- report_error (not_owned_error (ohl_state l)) src s; Ok (s, 0) else
  let src_size := ohl_alloc_size l in
  let copy_size := if size <? src_size then size else src_size in
  do (s, dst) <- umem_own_alloc self size UMEM_OWN_DEFAULT s;
  if dst =? 0 then Ok (s, 0) else
  Ok (Own (ow_world s) (ow_hdrs s) (memcpy (Z.to_nat copy_size) (ow_mem s) (to_data dst) (to_data src)) (ow_errors s), dst).

Definition umem_own_cache_alloc (self cp flags : Z) s : result (own W * Z) :=
  do (w, raw) <- he_cache_alloc (ow_world s) cp flags;
  let s := set_world w s in
  if raw =? 0 then Ok (s, 0) else Ok (init_header self raw (he_bufsize cp) s, raw).

Definition umem_own_state s (o : Z) : result Z := if o =? 0 then Ok 0 else do l <- hdr_at s o; Ok (ohl_state l).
Definition umem_own_is_valid s (o : Z) : result bool :=
  if o =? 0 then Ok false else do l <- hdr_at s o; Ok (ohl_state l =? UMEM_OWN_STATE_OWNED).
End own.
