(* ===== verification/OwnProps.v ===== *)
(** * Owned allocations: properties

    The calls of umem_own.c implement an abstract store of owned blocks with
    shared and mutable borrows, over any heap that keeps the promises of
    [umem_alloc]. *)
From S2P Require Import Prelude Machine ByteMem OwnModel.

(** What [umem_alloc] promises: the live blocks, with their sizes, have distinct
    addresses, and freeing one with its size succeeds. *)
Class heap_laws (W : Type) {he : heap_env W} (ok : W -> list (Z * Z) -> Prop) := {
  hl_perm w l l' : l ≡ₚ l' -> ok w l -> ok w l';
  hl_alloc w l size flags : ok w l -> 0 <= size < 2 ^ 64 ->
    match he_alloc w size flags with
    | Ok (w', b) => (b = 0 /\ ok w' l) \/ (b <> 0 /\ ok w' ((b, size) :: l))
    | Panic _ => flags <> 0
    end;
  hl_fresh w b size l : ok w ((b, size) :: l) -> b ∉ l.*1;
  hl_free w b size l : ok w ((b, size) :: l) -> exists w', he_free w b size = Ok w' /\ ok w' l;
}.

(** ** The abstract store *)

Record owned := Owned { oa_size : Z; oa_thread : Z; oa_shared : Z; oa_mut : Z }.

Inductive own_call :=
| CallAlloc (size flags : Z) | CallDrop (o : Z) | CallDeref (o : Z) | CallBorrow (o : Z) | CallBorrowMut (o : Z)
| CallUnborrow (r : umem_ref) | CallMove (o : Z) | CallClone (src size : Z).
Inductive own_answer := Nothing | Pointer (p : Z) | Borrowed (r : umem_ref).

Section spec.
Context (debug : bool).
Abbreviation store := (gmap Z owned).

Definition set_counts (x : owned) (shared mut : Z) : owned := Owned (oa_size x) (oa_thread x) shared mut.
Definition idle (x : owned) : bool := oa_shared x + oa_mut x =? 0.

(** A call on a handle: refused for NULL and, in debug mode, for the threads
    that do not own it. *)
Definition on_live (self o : Z) (a : store) (none : own_answer) (k : owned -> store * own_answer * list (umem_own_error * Z)) :=
  if o =? 0 then (a, none, [(UMEM_OWN_USE_AFTER_FREE, 0)]) else
  match a !! o with
  | None => (a, none, [])
  | Some x => if debug && negb (oa_thread x =? self) then (a, none, [(UMEM_OWN_THREAD_VIOLATION, o)]) else k x
  end.

(** [b] is the block the heap gives, 0 for none. *)
Definition spec_alloc (self b size : Z) (a : store) : store * own_answer * list (umem_own_error * Z) :=
  (if b =? 0 then a else <[b := Owned size self 0 0]> a, Pointer b, []).
Definition spec_step (self b : Z) (c : own_call) (a : store) : store * own_answer * list (umem_own_error * Z) :=
  match c with
  | CallAlloc size _ => spec_alloc self b size a
  | CallDrop o =>
      if o =? 0 then (a, Nothing, []) else
      on_live self o a Nothing (fun x => if idle x then (delete o a, Nothing, []) else (a, Nothing, [(UMEM_OWN_BORROW_CONFLICT, o)]))
  | CallDeref o => on_live self o a (Pointer 0) (fun _ => (a, Pointer (to_data debug o), []))
  | CallBorrow o =>
      on_live self o a (Borrowed null_ref) (fun x =>
        if debug && negb (oa_mut x =? 0) then (a, Borrowed null_ref, [(UMEM_OWN_BORROW_CONFLICT, o)])
        else (<[o := set_counts x (oa_shared x + 1) (oa_mut x)]> a, Borrowed (Ref o (to_data debug o) false), []))
  | CallBorrowMut o =>
      on_live self o a (Borrowed null_ref) (fun x =>
        if debug && negb (idle x) then (a, Borrowed null_ref, [(UMEM_OWN_BORROW_CONFLICT, o)])
        else (<[o := set_counts x (oa_shared x) (oa_mut x + 1)]> a, Borrowed (Ref o (to_data debug o) true), []))
  | CallUnborrow r =>
      match a !! ref_owner r with
      | Some x => (<[ref_owner r := if ref_mutable r then set_counts x (oa_shared x) (oa_mut x - 1)
                                    else set_counts x (oa_shared x - 1) (oa_mut x)]> a, Nothing, [])
      | None => (a, Nothing, [])
      end
  | CallMove o =>
      on_live self o a (Pointer 0) (fun x => if idle x then (a, Pointer o, []) else (a, Pointer 0, [(UMEM_OWN_BORROW_CONFLICT, o)]))
  | CallClone src size =>
      if src =? 0 then (a, Pointer 0, [(UMEM_OWN_USE_AFTER_FREE, 0)]) else spec_alloc self b size a
  end.

(** The calls of a program that uses live handles and returns what it borrowed;
    fewer than 2^31 borrows are out at a time. *)
Definition live (a : store) (o : Z) : Prop := o = 0 \/ is_Some (a !! o).
Definition few (a : store) (o : Z) : Prop := forall x, a !! o = Some x -> oa_shared x + oa_mut x + 1 < 2 ^ 31.
Definition size_fits (size : Z) : Prop := 0 <= size /\ aligned_header_size debug + size < 2 ^ 64.
Definition legal (c : own_call) (a : store) : Prop :=
  match c with
  | CallAlloc size flags => size_fits size /\ flags = 0
  | CallDrop o | CallDeref o | CallMove o => live a o
  | CallBorrow o | CallBorrowMut o => live a o /\ few a o
  | CallUnborrow r => ref_owner r = 0 \/ exists x, a !! ref_owner r = Some x /\ 0 < if ref_mutable r then oa_mut x else oa_shared x
  | CallClone src size => live a src /\ size_fits size
  end.

(** Aliasing or mutability, never both. *)
Definition exclusive (x : owned) : Prop := oa_mut x = 0 \/ (oa_mut x = 1 /\ oa_shared x = 0).
End spec.

(** ** The implementation's calls *)

Definition own_exec {W : Type} {he : heap_env W} (debug handler abort : bool) (self : Z) (c : own_call) (s : own W) :
    result (own W * own_answer) :=
  let pointer r := do (s, p) <- r; Ok (s, Pointer p) in
  let reference r := do (s, x) <- r; Ok (s, Borrowed x) in
  let nothing r := do s <- r; Ok (s, Nothing) in
  match c with
  | CallAlloc size flags => pointer (umem_own_alloc debug self size flags s)
  | CallDrop o => nothing (umem_drop debug handler abort self o s)
  | CallDeref o => pointer (umem_deref debug handler abort self o s)
  | CallBorrow o => reference (umem_borrow debug handler abort self o s)
  | CallBorrowMut o => reference (umem_borrow_mut debug handler abort self o s)
  | CallUnborrow r => nothing (umem_unborrow debug handler abort r s)
  | CallMove o => pointer (umem_move debug handler abort self o s)
  | CallClone src size => pointer (umem_clone debug handler abort self src size s)
  end.

(** ** The invariant *)

Record hdr_ok (debug : bool) (h : own_hdr) (x : owned) : Prop := HdrOk {
  hk_state : ohl_state h = UMEM_OWN_STATE_OWNED;
  hk_size : ohl_alloc_size h = oa_size x;
  hk_refs : ohl_refcount h = oa_shared x + oa_mut x;
  hk_counts : 0 <= oa_shared x /\ 0 <= oa_mut x /\ oa_shared x + oa_mut x < 2 ^ 31;
  hk_fits : size_fits debug (oa_size x);
  hk_debug : debug = true -> ohd_owner_thread h = oa_thread x /\ ohd_borrow_count h = oa_shared x /\ ohd_mut_borrow h = oa_mut x /\ exclusive x;
}.
Definition blocks (debug : bool) (a : gmap Z owned) : list (Z * Z) :=
  (fun '(o, x) => (o, aligned_header_size debug + oa_size x)) <$> map_to_list a.
Record own_ok {W : Type} (ok : W -> list (Z * Z) -> Prop) (debug : bool) (s : own W) (a : gmap Z owned) (rest : list (Z * Z)) : Prop := OwnOk {
  ok_world : ok (ow_world s) (blocks debug a ++ rest);
  ok_null : a !! 0 = None;
  ok_hdr o x : a !! o = Some x -> exists h, ow_hdrs s !! o = Some h /\ hdr_ok debug h x;
}.

Lemma header_range debug : 0 < aligned_header_size debug < 2 ^ 63.
Proof. by destruct debug. Qed.

Lemma blocks_insert debug a o x : a !! o = None -> blocks debug (<[o := x]> a) ≡ₚ (o, aligned_header_size debug + oa_size x) :: blocks debug a.
Proof. intros H. unfold blocks. by rewrite map_to_list_insert by done. Qed.
Lemma blocks_delete debug a o x : a !! o = Some x -> blocks debug a ≡ₚ (o, aligned_header_size debug + oa_size x) :: blocks debug (delete o a).
Proof.
  intros H. rewrite <- (insert_delete_id a o x H) at 1. apply blocks_insert. apply lookup_delete_eq.
Qed.
(** Borrowing does not change the blocks. *)
Lemma blocks_update debug a o x y : a !! o = Some x -> oa_size y = oa_size x -> blocks debug (<[o := y]> a) ≡ₚ blocks debug a.
Proof.
  intros H E. rewrite (blocks_delete debug a o x H), <- insert_delete_eq, blocks_insert by apply lookup_delete_eq. by rewrite E.
Qed.
Lemma block_in debug a o x : a !! o = Some x -> o ∈ (blocks debug a).*1.
Proof.
  intros H. rewrite (blocks_delete debug a o x H). simpl. left.
Qed.

(** In debug mode the header carries the thread and the counts. *)
Lemma debug_thread debug h x self : hdr_ok debug h x -> debug && negb (ohd_owner_thread h =? self) = debug && negb (oa_thread x =? self).
Proof. intros H. destruct debug; [|done]. by destruct (hk_debug _ _ _ H eq_refl) as [-> _]. Qed.
Lemma debug_shared debug h x : hdr_ok debug h x -> debug && negb (ohd_borrow_count h =? 0) = debug && negb (oa_shared x =? 0).
Proof. intros H. destruct debug; [|done]. by destruct (hk_debug _ _ _ H eq_refl) as (_ & -> & _). Qed.
Lemma debug_mut debug h x : hdr_ok debug h x -> debug && negb (ohd_mut_borrow h =? 0) = debug && negb (oa_mut x =? 0).
Proof. intros H. destruct debug; [|done]. by destruct (hk_debug _ _ _ H eq_refl) as (_ & _ & -> & _). Qed.

Section refine.
Context {W : Type} {he : heap_env W} {ok : W -> list (Z * Z) -> Prop} {laws : heap_laws W ok} (debug handler abort : bool).
Hypothesis quiet : handler = true \/ abort = false.
Implicit Types (s : own W) (a : gmap Z owned).

Definition told (s : own W) (e : list (umem_own_error * Z)) : own W := Own (ow_world s) (ow_hdrs s) (ow_mem s) (ow_errors s ++ e).
Lemma report_run err o s : report_error handler abort err o s = Ok (told s [(err, o)]).
Proof using quiet. unfold report_error, told. destruct quiet as [-> | ->]; [done|]. by destruct handler. Qed.
Lemma told_ok s a rest e : own_ok ok debug s a rest -> own_ok ok debug (told s e) a rest.
Proof using Type. intros []. by split. Qed.

(** The outcome of a call is that of the specification. *)
Definition agrees (s : own W) (rest : list (Z * Z)) (r : result (own W * own_answer)) (p : gmap Z owned * own_answer * list (umem_own_error * Z)) : Prop :=
  exists s', r = Ok (s', p.1.2) /\ own_ok ok debug s' p.1.1 rest /\ ow_errors s' = ow_errors s ++ p.2.
Lemma agrees_told s rest a ans err o :
  own_ok ok debug s a rest -> agrees s rest (Ok (told s [(err, o)], ans)) (a, ans, [(err, o)]).
Proof using Type. intros H. eexists. split; [done|]. split; [by apply told_ok|done]. Qed.
Lemma agrees_same s rest a ans : own_ok ok debug s a rest -> agrees s rest (Ok (s, ans)) (a, ans, []).
Proof using Type. intros H. exists s. split; [done|]. split; [done|]. by rewrite app_nil_r. Qed.

(** A live handle's header is changed together with what it stands for. *)
Lemma agrees_update s rest a o x h' y ans :
  own_ok ok debug s a rest -> a !! o = Some x -> oa_size y = oa_size x -> hdr_ok debug h' y ->
  agrees s rest (Ok (set_hdr o h' s, ans)) (<[o := y]> a, ans, []).
Proof using laws.
  intros [H1 H2 H3] Hx Hy Hh. eexists. split; [done|]. split; [|by rewrite app_nil_r]. split; simpl.
  - eapply hl_perm; [|exact H1]. by rewrite (blocks_update debug a o x y).
  - rewrite lookup_insert_ne; [done|]. intros ->. congruence.
  - intros o' x'. rewrite lookup_insert_Some. intros [[<- <-]|[Hne Hx']].
    + exists h'. by rewrite lookup_insert_eq.
    + rewrite lookup_insert_ne by done. by apply H3.
Qed.

Lemma thread_check self o s h x :
  ow_hdrs s !! o = Some h -> hdr_ok debug h x ->
  require_thread debug handler abort self o s =
    if debug && negb (oa_thread x =? self) then Ok (told s [(UMEM_OWN_THREAD_VIOLATION, o)], false) else Ok (s, true).
Proof using quiet.
  intros Hh Hx. rewrite <- (debug_thread debug h x self Hx). unfold require_thread, hdr_at. rewrite Hh. cbn [res_bind].
  destruct debug; [|done]. cbn [negb andb]. destruct (negb _); by rewrite ?report_run.
Qed.

(** The checks that come first. *)
Lemma live_run {A} self o s a rest (null : A) (wrap : A -> own_answer) (impl : own W -> result (own W * A)) k :
  own_ok ok debug s a rest -> live a o ->
  (forall x h, a !! o = Some x -> ow_hdrs s !! o = Some h -> hdr_ok debug h x -> (debug = true -> oa_thread x = self) ->
     agrees s rest (do (s, p) <- impl s; Ok (s, wrap p)) (k x)) ->
  agrees s rest (do (s, p) <- (do (s, good) <- require_both debug handler abort self o s; if negb good then Ok (s, null) else impl s); Ok (s, wrap p))
    (on_live debug self o a (wrap null) k).
Proof using quiet.
  intros H Hl Hk. unfold require_both, require_owned, on_live. destruct (Z.eqb_spec o 0) as [->|Ho].
  { rewrite report_run. cbn [res_bind negb]. by apply agrees_told. }
  destruct Hl as [?|[x Hx]]; [done|]. destruct (ok_hdr _ _ _ _ _ H o x Hx) as (h & Hh & Hhx). unfold hdr_at at 1. rewrite Hh, Hx. cbn [res_bind].
  rewrite (hk_state _ _ _ Hhx). cbn [negb res_bind]. change (UMEM_OWN_STATE_OWNED =? UMEM_OWN_STATE_OWNED) with true. cbn [res_bind negb].
  rewrite (thread_check self o s h x Hh Hhx). destruct (debug && negb (_ =? self)) eqn:Et; cbn [res_bind negb]; [by apply agrees_told|].
  apply (Hk x h); try done. intros Ed. rewrite Ed in Et. by apply negb_false_iff, Z.eqb_eq in Et.
Qed.

(** ** Calls *)

Lemma fresh_handle w a rest b size :
  ok w ((b, size) :: blocks debug a ++ rest) -> a !! b = None.
Proof using laws.
  intros H. destruct (a !! b) as [x|] eqn:E; [|done]. exfalso. apply (hl_fresh _ _ _ _ H). rewrite fmap_app, elem_of_app. left.
  by eapply block_in.
Qed.

Lemma alloc_agrees self size flags s a rest :
  own_ok ok debug s a rest -> size_fits debug size -> flags = 0 ->
  exists b, agrees s rest (do (s, p) <- umem_own_alloc debug self size flags s; Ok (s, Pointer p)) (spec_alloc self b size a) /\
    (exists s', umem_own_alloc debug self size flags s = Ok (s', b) /\ ow_mem s' = ow_mem s).
Proof using laws.
  intros H [Hs1 Hs2] ->. pose proof H as [H1 H2 H3]. pose proof (header_range debug) as Hr. unfold umem_own_alloc.
  assert (Et : wadd (aligned_header_size debug) size = aligned_header_size debug + size) by (apply Z.mod_small; lia). rewrite Et.
  pose proof (hl_alloc (ow_world s) (blocks debug a ++ rest) (aligned_header_size debug + size) 0 H1 ltac:(lia)) as Ha.
  destruct (he_alloc _ _ _) as [[w' b]|]; [|done]. cbn [res_bind]. exists b. unfold spec_alloc.
  destruct Ha as [[-> Hw]|[Hb Hw]].
  - split; [|by eexists]. eexists. split; [done|]. split; [|by rewrite app_nil_r]. by split.
  - rewrite (proj2 (Z.eqb_neq b 0) Hb). cbn [res_bind]. split; [|by eexists]. pose proof (fresh_handle _ _ _ _ _ Hw) as Hn.
    eexists. split; [done|]. split; [|by rewrite app_nil_r]. cbn [fst snd]. split; simpl.
    + eapply hl_perm; [|exact Hw]. by rewrite blocks_insert.
    + by rewrite lookup_insert_ne.
    + intros o x. rewrite lookup_insert_Some. intros [[<- <-]|[Hne Hx]].
      * rewrite lookup_insert_eq. eexists. split; [done|]. destruct debug; [|destruct (ow_hdrs s !! b)]; split; simpl; try done; try lia;
          intros; split_and!; try done; by left.
      * rewrite lookup_insert_ne by done. by apply H3.
Qed.

Lemma drop_agrees self o s a rest :
  own_ok ok debug s a rest -> live a o ->
  agrees s rest (do s <- umem_drop debug handler abort self o s; Ok (s, Nothing)) (spec_step debug self 0 (CallDrop o) a).
Proof using laws quiet.
  intros H Hl. cbn [spec_step]. unfold umem_drop, on_live. destruct (Z.eqb_spec o 0) as [->|Ho]; [by apply agrees_same|].
  destruct Hl as [?|[x Hx]]; [done|]. destruct (ok_hdr _ _ _ _ _ H o x Hx) as (h & Hh & Hhx). unfold hdr_at at 1. rewrite Hh, Hx. cbn [res_bind].
  rewrite (hk_state _ _ _ Hhx). change (UMEM_OWN_STATE_OWNED =? UMEM_OWN_STATE_DROPPED) with false.
  change (UMEM_OWN_STATE_OWNED =? UMEM_OWN_STATE_MOVED) with false. change (negb (UMEM_OWN_STATE_OWNED =? UMEM_OWN_STATE_OWNED)) with false.
  cbv iota. rewrite (thread_check self o s h x Hh Hhx). destruct (debug && negb (_ =? self)); cbn [res_bind negb]; [by apply agrees_told|].
  rewrite (hk_refs _ _ _ Hhx). unfold idle. pose proof (hk_counts _ _ _ Hhx) as Hc.
  destruct (Z.eqb_spec (oa_shared x + oa_mut x) 0) as [E0|E0]; cbn [negb]; [|rewrite report_run; by apply agrees_told].
  assert (Hd : debug && (negb (ohd_borrow_count h =? 0) || negb (ohd_mut_borrow h =? 0)) = false).
  { rewrite andb_orb_distrib_r, (debug_shared debug h x Hhx), (debug_mut debug h x Hhx).
    rewrite (proj2 (Z.eqb_eq (oa_shared x) 0)), (proj2 (Z.eqb_eq (oa_mut x) 0)) by lia. by rewrite andb_false_r. }
  rewrite Hd. pose proof (header_range debug) as Hr. destruct (hk_fits _ _ _ Hhx) as [Hf1 Hf2]. rewrite (hk_size _ _ _ Hhx).
  assert (Et : wadd (aligned_header_size debug) (oa_size x) = aligned_header_size debug + oa_size x) by (apply Z.mod_small; lia). rewrite Et.
  destruct H as [H1 H2 H3]. destruct (hl_free (ow_world s) o (aligned_header_size debug + oa_size x) (blocks debug (delete o a) ++ rest)) as (w' & Ew & Hw).
  { eapply hl_perm; [|exact H1]. by rewrite (blocks_delete debug a o x Hx). }
  cbn [ow_world set_hdr]. rewrite Ew. cbn [res_bind]. eexists. split; [done|]. split; [|by rewrite app_nil_r]. split; simpl; [done|by rewrite lookup_delete_None; right|].
  intros o' x'. rewrite lookup_delete_Some. intros [Hne Hx']. rewrite lookup_insert_ne by done. by apply H3.
Qed.

Lemma i32_small x : - 2 ^ 31 <= x < 2 ^ 31 -> i32 x = x.
Proof using Type. intros H. unfold i32. rewrite Z.mod_small by lia. lia. Qed.
Lemma w32_small x : 0 <= x < 2 ^ 32 -> w32 x = x.
Proof using Type. apply Z.mod_small. Qed.

Lemma borrow_agrees self o s a rest :
  own_ok ok debug s a rest -> live a o -> few a o ->
  agrees s rest (do (s, x) <- umem_borrow debug handler abort self o s; Ok (s, Borrowed x)) (spec_step debug self 0 (CallBorrow o) a).
Proof using laws quiet.
  intros H Hl Hf. cbn [spec_step]. unfold umem_borrow. apply (live_run self o s a rest null_ref Borrowed); [done..|].
  intros x h Hx Hh Hhx _. unfold hdr_at. rewrite Hh. cbn [res_bind]. specialize (Hf x Hx). pose proof (hk_counts _ _ _ Hhx) as Hc.
  rewrite (debug_mut debug h x Hhx). destruct (debug && negb (oa_mut x =? 0)) eqn:Eb; [rewrite report_run; by apply agrees_told|]. cbn [res_bind].
  apply (agrees_update s rest a o x); [done..|]. destruct Hhx as [K1 K2 K3 K4 K5 K6]. split; simpl; try done; [rewrite K3, w32_small; lia|lia|].
  intros ->. destruct (K6 eq_refl) as (-> & -> & -> & _). rewrite i32_small by lia. split_and!; try done. left. simpl in *.
  by apply negb_false_iff, Z.eqb_eq in Eb.
Qed.

Lemma borrow_mut_agrees self o s a rest :
  own_ok ok debug s a rest -> live a o -> few a o ->
  agrees s rest (do (s, x) <- umem_borrow_mut debug handler abort self o s; Ok (s, Borrowed x)) (spec_step debug self 0 (CallBorrowMut o) a).
Proof using laws quiet.
  intros H Hl Hf. cbn [spec_step]. unfold umem_borrow_mut. apply (live_run self o s a rest null_ref Borrowed); [done..|].
  intros x h Hx Hh Hhx _. unfold hdr_at. rewrite Hh. cbn [res_bind]. specialize (Hf x Hx). pose proof (hk_counts _ _ _ Hhx) as Hc.
  rewrite (debug_shared debug h x Hhx), (debug_mut debug h x Hhx). destruct (debug && negb (idle x)) eqn:Eb; unfold idle in Eb.
  - apply andb_true_iff in Eb as [Ed Ei]. rewrite Ed. cbn [andb].
    apply negb_true_iff, Z.eqb_neq in Ei. destruct (Z.eqb_spec (oa_shared x) 0) as [E|E]; cbn [negb]; [|rewrite report_run; by apply agrees_told].
    rewrite (proj2 (Z.eqb_neq (oa_mut x) 0)) by lia. cbn [negb]. rewrite report_run. by apply agrees_told.
  - assert (Hz : debug = true -> oa_shared x = 0 /\ oa_mut x = 0).
    { intros E. rewrite E in Eb. apply negb_false_iff, Z.eqb_eq in Eb. lia. }
    assert (E1 : debug && negb (oa_shared x =? 0) = false) by (destruct debug; [by destruct (Hz eq_refl) as [-> _]|done]).
    assert (E2 : debug && negb (oa_mut x =? 0) = false) by (destruct debug; [by destruct (Hz eq_refl) as [_ ->]|done]).
    rewrite E1, E2.
    cbn [res_bind]. apply (agrees_update s rest a o x); [done..|]. destruct Hhx as [K1 K2 K3 K4 K5 K6].
    split; simpl; try done; [rewrite K3, w32_small; lia|lia|].
    intros Ed. destruct (K6 Ed) as (-> & -> & _ & _), (Hz Ed) as [Z1 Z2]. rewrite Ed, Z1, Z2. split_and!; try done. by right.
Qed.

Lemma unborrow_agrees r s a rest :
  own_ok ok debug s a rest -> legal debug (CallUnborrow r) a ->
  agrees s rest (do s <- umem_unborrow debug handler abort r s; Ok (s, Nothing)) (spec_step debug 0 0 (CallUnborrow r) a).
Proof using laws.
  intros H Hl. cbn [spec_step]. unfold umem_unborrow. destruct (Z.eqb_spec (ref_owner r) 0) as [E|E].
  { rewrite E, (ok_null _ _ _ _ _ H). by apply agrees_same. }
  destruct Hl as [?|(x & Hx & Hpos)]; [done|]. destruct (ok_hdr _ _ _ _ _ H _ x Hx) as (h & Hh & Hhx). unfold hdr_at. rewrite Hh, Hx. cbn [res_bind].
  pose proof (hk_counts _ _ _ Hhx) as Hc. assert (Hp : 0 < oa_shared x + oa_mut x) by (destruct (ref_mutable r); lia).
  rewrite (hk_refs _ _ _ Hhx), (proj2 (Z.eqb_neq _ 0)) by lia. cbn [res_bind].
  apply (agrees_update s rest a (ref_owner r) x); [done..|by destruct (ref_mutable r)|]. destruct Hhx as [K1 K2 K3 K4 K5 K6].
  rewrite w32_small by lia. destruct (ref_mutable r); split; simpl; try done; try lia.
  - intros ->. destruct (K6 eq_refl) as (-> & -> & -> & Hex). cbn [andb negb]. destruct Hex as [?|[E1 E2]]; [lia|]. rewrite E1, E2. split_and!; try done. by left.
  - intros ->. destruct (K6 eq_refl) as (-> & -> & -> & Hex). cbn [andb negb]. rewrite i32_small by lia. split_and!; try done.
    destruct Hex as [?|[E1 E2]]; [by left|lia].
Qed.

Lemma move_agrees self o s a rest :
  own_ok ok debug s a rest -> live a o ->
  agrees s rest (do (s, p) <- umem_move debug handler abort self o s; Ok (s, Pointer p)) (spec_step debug self 0 (CallMove o) a).
Proof using laws quiet.
  intros H Hl. cbn [spec_step]. unfold umem_move. apply (live_run self o s a rest 0 Pointer); [done..|].
  intros x h Hx Hh Hhx Ht. unfold hdr_at. rewrite Hh. cbn [res_bind]. rewrite (hk_refs _ _ _ Hhx). unfold idle.
  destruct (Z.eqb_spec (oa_shared x + oa_mut x) 0) as [E|E]; cbn [negb]; [|rewrite report_run; by apply agrees_told].
  cbn [res_bind]. destruct (Bool.bool_dec debug true) as [Ed|Ed]; [|by rewrite (not_true_is_false _ Ed); apply agrees_same].
  pose proof (agrees_update s rest a o x (OwnHdr 0 (ohl_state h) (ohl_alloc_size h) self 0 0) x (Pointer o) H Hx eq_refl) as Hu.
  rewrite insert_id in Hu by done. rewrite Ed, E. apply Hu. pose proof (hk_counts _ _ _ Hhx) as Hc. destruct Hhx as [K1 K2 K3 K4 K5 K6].
  split; simpl; try done; try lia. intros _. destruct (K6 Ed) as (_ & _ & _ & Hex). rewrite (Ht Ed). split_and!; [done|lia|lia|done].
Qed.

Lemma deref_agrees self o s a rest :
  own_ok ok debug s a rest -> live a o ->
  agrees s rest (do (s, p) <- umem_deref debug handler abort self o s; Ok (s, Pointer p)) (spec_step debug self 0 (CallDeref o) a).
Proof using quiet.
  intros H Hl. cbn [spec_step]. unfold umem_deref. apply (live_run self o s a rest 0 Pointer (fun s => Ok (s, to_data debug o))); [done..|].
  intros x h _ _ _ _. cbn [res_bind]. by apply agrees_same.
Qed.

Lemma clone_agrees self src size s a rest :
  own_ok ok debug s a rest -> live a src -> size_fits debug size ->
  exists b, agrees s rest (do (s, p) <- umem_clone debug handler abort self src size s; Ok (s, Pointer p)) (spec_step debug self b (CallClone src size) a).
Proof using laws quiet.
  intros H Hl Hf. cbn [spec_step]. unfold umem_clone. destruct (Z.eqb_spec src 0) as [->|Ho].
  { exists 0. rewrite report_run. by apply agrees_told. }
  destruct Hl as [?|[x Hx]]; [done|]. destruct (ok_hdr _ _ _ _ _ H src x Hx) as (h & Hh & Hhx). unfold hdr_at. rewrite Hh. cbn [res_bind].
  rewrite (hk_state _ _ _ Hhx). change (negb (UMEM_OWN_STATE_OWNED =? UMEM_OWN_STATE_OWNED)) with false. cbv iota.
  destruct (alloc_agrees self size UMEM_OWN_DEFAULT s a rest H Hf eq_refl) as (b & (s1 & E1 & Hok & He) & s2 & E2 & _).
  exists b. rewrite E2 in E1 |- *. cbn [res_bind] in E1 |- *. injection E1 as <-.
  cbn [spec_alloc fst snd] in *. destruct (Z.eqb_spec b 0) as [->|Hb]; cbn [res_bind]; eexists; (split; [reflexivity|]); [by split|].
  cbn [spec_alloc fst snd]. rewrite (proj2 (Z.eqb_neq b 0) Hb). split; [|exact He]. destruct Hok as [K1 K2 K3]. by split.
Qed.

(** ** Refinement *)

(** The block the heap gave, which is what the call answered. *)
Definition given (ans : own_answer) : Z := match ans with Pointer p => p | _ => 0 end.

Lemma agrees_given self c s a rest b :
  (forall ans, (spec_step debug self b c a).1.2 = ans -> spec_step debug self (given ans) c a = spec_step debug self b c a) ->
  agrees s rest (own_exec debug handler abort self c s) (spec_step debug self b c a) ->
  exists s' ans a' errs, own_exec debug handler abort self c s = Ok (s', ans) /\ spec_step debug self (given ans) c a = (a', ans, errs) /\
    own_ok ok debug s' a' rest /\ ow_errors s' = ow_errors s ++ errs.
Proof using Type.
  intros Hb (s' & E & Hok & He). specialize (Hb _ eq_refl). destruct (spec_step debug self b c a) as [[a' ans] errs]. simpl in *.
  exists s', ans, a', errs. by rewrite Hb.
Qed.
Lemma call_refines self c s a rest :
  own_ok ok debug s a rest -> legal debug c a ->
  exists s' ans a' errs, own_exec debug handler abort self c s = Ok (s', ans) /\ spec_step debug self (given ans) c a = (a', ans, errs) /\
    own_ok ok debug s' a' rest /\ ow_errors s' = ow_errors s ++ errs.
Proof using laws quiet.
  intros H Hl. destruct c as [size flags|o|o|o|o|r|o|src size]; simpl in Hl.
  - destruct Hl as [Hf Hz], (alloc_agrees self size flags s a rest H Hf Hz) as (b & Hb & _). apply (agrees_given _ _ _ _ _ b); [|done]. by intros ? <-.
  - apply (agrees_given _ _ _ _ _ 0); [done|]. by apply drop_agrees.
  - apply (agrees_given _ _ _ _ _ 0); [done|]. by apply deref_agrees.
  - apply (agrees_given _ _ _ _ _ 0); [done|]. destruct Hl. by apply borrow_agrees.
  - apply (agrees_given _ _ _ _ _ 0); [done|]. destruct Hl. by apply borrow_mut_agrees.
  - apply (agrees_given _ _ _ _ _ 0); [done|]. by apply unborrow_agrees.
  - apply (agrees_given _ _ _ _ _ 0); [done|]. by apply move_agrees.
  - destruct Hl as [Hs Hf], (clone_agrees self src size s a rest H Hs Hf) as (b & Hb). apply (agrees_given _ _ _ _ _ b); [|done].
    intros ? <-. simpl. by destruct (src =? 0).
Qed.

(** The threads' calls, in some order. *)
Inductive own_steps : own W -> gmap Z owned -> own W -> gmap Z owned -> Prop :=
| own_none s a : own_steps s a s a
| own_call_then s a self c s1 ans a1 errs s2 a2 :
    legal debug c a -> own_exec debug handler abort self c s = Ok (s1, ans) ->
    spec_step debug self (given ans) c a = (a1, ans, errs) -> own_steps s1 a1 s2 a2 -> own_steps s a s2 a2.

Lemma steps_ok s a s' a' rest : own_steps s a s' a' -> own_ok ok debug s a rest -> own_ok ok debug s' a' rest.
Proof using laws quiet.
  induction 1 as [|s a self c s1 ans a1 errs s2 a2 Hl He Hs _ IH]; [done|]. intros H. apply IH.
  destruct (call_refines self c s a rest H Hl) as (? & ? & ? & ? & E1 & E2 & Hok & _).
  rewrite He in E1. injection E1 as <- <-. rewrite Hs in E2. by injection E2 as <- <-.
Qed.
Lemma start_ok w rest : ok w rest -> own_ok ok debug (Own w ∅ ∅ []) ∅ rest.
Proof using Type. intros H. split; [unfold blocks; by rewrite map_to_list_empty|done|]. by intros o x. Qed.
End refine.

(** ** A heap that hands out the next address *)

#[export] Instance counter_heap : heap_env Z := {
  he_alloc w size flags := Ok (w + 1, w);
  he_free w buf size := Ok w;
  he_cache_alloc w cp flags := Ok (w + 1, w);
  he_bufsize cp := 64;
}.
Definition counter_ok (w : Z) (l : list (Z * Z)) : Prop := 0 < w /\ NoDup l.*1 /\ Forall (fun p => p.1 < w) l.
#[export] Instance counter_laws : heap_laws Z counter_ok.
Proof.
  split.
  - intros w l l' Hp (H1 & H2 & H3). split_and!; [done|by rewrite <- Hp|by rewrite <- Hp].
  - intros w l size flags (H1 & H2 & H3) _. right. split; [simpl in *; lia|]. split_and!; [simpl in *; lia| |].
    + apply NoDup_cons. split; [|done]. intros Hin. apply list_elem_of_fmap in Hin as (p & E & Hp).
      apply (proj1 (Forall_forall _ _) H3) in Hp. simpl in *. lia.
    + constructor; [simpl; lia|]. eapply Forall_impl; [exact H3|]. simpl. intros. lia.
  - intros w b size l (_ & H & _). simpl in H. by apply NoDup_cons in H as [H _].
  - intros w b size l (H1 & H2 & H3). exists w. split; [done|]. simpl in H2. apply NoDup_cons in H2 as [_ H2]. by apply Forall_cons in H3 as [_ H3].
Qed.

(** ** Claims *)

(** C20: the ownership calls implement the abstract store of owned blocks.  Over
    any heap that keeps the promises of [umem_alloc], a call by any thread on a
    live handle, with room for the borrow it counts, returns; its answer, the
    errors it reports and the new store are those of the specification: a drop
    frees the block exactly when nothing is borrowed, a move or a mutable
    borrow is refused as the mode says, and the heap's live blocks remain
    those of the store, so each is freed once, with the size it was allocated
    with. *)
Theorem own_refines {W : Type} {he : heap_env W} {ok : W -> list (Z * Z) -> Prop} {laws : heap_laws W ok} debug handler abort self c (s : own W) a rest :
  handler = true \/ abort = false -> own_ok ok debug s a rest -> legal debug c a ->
  exists s' ans a' errs, own_exec debug handler abort self c s = Ok (s', ans) /\ spec_step debug self (given ans) c a = (a', ans, errs) /\
    own_ok ok debug s' a' rest /\ ow_errors s' = ow_errors s ++ errs.
Proof. intros. by apply call_refines. Qed.

Lemma own_refines_witness :
  exists s' ans a' errs, own_exec true true true 7 (CallAlloc 40 0) (Own 16 ∅ ∅ []) = Ok (s', ans) /\
    spec_step true 7 (given ans) (CallAlloc 40 0) ∅ = (a', ans, errs) /\ own_ok counter_ok true s' a' [] /\
    ow_errors s' = ow_errors (Own 16 ∅ ∅ []) ++ errs.
Proof.
  apply (own_refines (ok := counter_ok) true true true 7 (CallAlloc 40 0) (Own 16 ∅ ∅ []) ∅ []).
  - by left.
  - apply start_ok. split_and!; [done|constructor|constructor].
  - split; [split; [done|reflexivity]|done].
Defined.

(** C34: in debug mode a block is borrowed by any number of readers or by one
    writer, never by both.  After any sequence of legal calls of the threads,
    the counts of each live header are the references that are out, and these
    are not a writer with anything else. *)
Theorem borrows_exclusive {W : Type} {he : heap_env W} {ok : W -> list (Z * Z) -> Prop} {laws : heap_laws W ok} handler abort w rest (s : own W) a :
  handler = true \/ abort = false -> ok w rest -> own_steps true handler abort (Own w ∅ ∅ []) ∅ s a ->
  forall o x, a !! o = Some x ->
    exists h, ow_hdrs s !! o = Some h /\ ohl_state h = UMEM_OWN_STATE_OWNED /\ ohl_refcount h = oa_shared x + oa_mut x /\
      ohd_borrow_count h = oa_shared x /\ ohd_mut_borrow h = oa_mut x /\ (oa_mut x = 0 \/ (oa_mut x = 1 /\ oa_shared x = 0)).
Proof.
  intros Hq Hw Hs o x Hx. pose proof (steps_ok true handler abort Hq _ _ _ _ rest Hs (start_ok true w rest Hw)) as [_ _ Hh].
  destruct (Hh o x Hx) as (h & Eh & Hk). exists h. destruct (hk_debug _ _ _ Hk eq_refl) as (_ & ? & ? & ?).
  split_and!; try done; apply Hk.
Qed.

Lemma borrows_exclusive_witness :
  exists s a, a !! 16 = Some (Owned 40 7 2 0) /\ own_steps true true true (Own 16 ∅ ∅ []) ∅ s a /\ exists h, ow_hdrs s !! 16 = Some h /\ ohd_borrow_count h = 2 /\ ohd_mut_borrow h = 0.
Proof.
  assert (Hs : exists s a, a !! 16 = Some (Owned 40 7 2 0) /\ own_steps true true true (Own 16 ∅ ∅ []) ∅ s a).
  { eexists _, _. split; [|eapply (own_call_then _ _ _ _ _ 7 (CallAlloc 40 0)); [by split|reflexivity..|];
      eapply (own_call_then _ _ _ _ _ 7 (CallBorrow 16)); [|reflexivity..|];
      [|eapply (own_call_then _ _ _ _ _ 7 (CallBorrow 16)); [|reflexivity..|apply own_none]]].
    - reflexivity.
    - split; [right; by eexists|]. intros x [= <-]. reflexivity.
    - split; [right; by eexists|]. intros x [= <-]. reflexivity. }
  destruct Hs as (s & a & Ha & Hs). exists s, a. split; [done|]. split; [done|].
  destruct (borrows_exclusive (ok := counter_ok) true true 16 [] s a (or_introl eq_refl)) with (o := 16) (x := Owned 40 7 2 0)
    as (h & E & _ & _ & E1 & E2 & _); [split_and!; [done|constructor|constructor]|done|done|]. by exists h.
Defined.

(** ** Behaviours to know *)

(** A size close to [SIZE_MAX] wraps: the block requested is smaller than its
    header, and the handle is valid with the full size. *)
Theorem own_alloc_wraps {W : Type} {he : heap_env W} self flags (s : own W) w raw :
  he_alloc (ow_world s) 15 flags = Ok (w, raw) -> raw <> 0 ->
  exists s' h, umem_own_alloc false self (2 ^ 64 - 1) flags s = Ok (s', raw) /\ ow_hdrs s' !! raw = Some h /\
    ohl_alloc_size h = 2 ^ 64 - 1 /\ umem_own_is_valid s' raw = Ok true.
Proof.
  intros E Hr. unfold umem_own_alloc. change (wadd (aligned_header_size false) (2 ^ 64 - 1)) with 15. rewrite E. cbn [res_bind].
  rewrite (proj2 (Z.eqb_neq raw 0) Hr). eexists _, _. split; [reflexivity|]. unfold umem_own_is_valid, hdr_at, init_header, set_hdr. cbn [ow_hdrs].
  rewrite (proj2 (Z.eqb_neq raw 0) Hr), lookup_insert_eq. split; [reflexivity|]. by destruct (ow_hdrs _ !! raw).
Qed.

(** A handle from a cache is freed to the general heap, not to its cache, with
    the size of the cache's buffers and a header more. *)
Theorem cache_handle_drop {W : Type} {he : heap_env W} debug handler abort self cp flags (s : own W) w raw :
  he_cache_alloc (ow_world s) cp flags = Ok (w, raw) -> raw <> 0 ->
  exists s', umem_own_cache_alloc debug self cp flags s = Ok (s', raw) /\
    (do s <- umem_drop debug handler abort self raw s'; Ok (ow_world s)) = he_free w raw (wadd (aligned_header_size debug) (he_bufsize cp)).
Proof.
  intros E Hr. unfold umem_own_cache_alloc. rewrite E. cbn [res_bind]. rewrite (proj2 (Z.eqb_neq raw 0) Hr). eexists. split; [reflexivity|].
  unfold umem_drop, hdr_at, init_header, set_hdr, require_thread. cbn [ow_hdrs]. unfold hdr_at. cbn [ow_hdrs]. rewrite (proj2 (Z.eqb_neq raw 0) Hr), lookup_insert_eq.
  destruct debug; [|destruct (ow_hdrs _ !! raw)]; cbn; rewrite ?Z.eqb_refl; cbn; by destruct (he_free _ _ _).
Qed.

Lemma checks_passed {W : Type} {he : heap_env W} debug handler abort self o (s s' : own W) :
  require_both debug handler abort self o s = Ok (s', true) -> s' = s /\ exists h, ow_hdrs s !! o = Some h /\ ohl_state h = UMEM_OWN_STATE_OWNED.
Proof.
  assert (Hr : forall err q (s : own W) t, (do s <- report_error handler abort err q s; Ok (s, false)) = Ok (t, true) -> False).
  { intros err q s0 t. by destruct (report_error _ _ _ _ _). }
  unfold require_both, require_owned. destruct (o =? 0); [by destruct (report_error _ _ _ _ _)|].
  unfold hdr_at. destruct (ow_hdrs s !! o) as [h|] eqn:Eh; [|done]. cbn [res_bind].
  destruct (Z.eqb_spec (ohl_state h) UMEM_OWN_STATE_OWNED) as [E|_].
  2:{ destruct (_ =? _); by destruct (report_error _ _ _ _ _). }
  cbn [res_bind negb]. unfold require_thread, hdr_at. rewrite Eh. cbn [res_bind].
  destruct (negb debug); [intros [= <-]; eauto|]. destruct (negb _); [by intros ?%Hr|]. intros [= <-]. eauto.
Qed.

(** A moved handle stays valid: the state [UMEM_OWN_STATE_MOVED] is never
    stored, so no use after a move is reported. *)
Theorem moved_still_valid {W : Type} {he : heap_env W} debug handler abort self o (s s' : own W) :
  umem_move debug handler abort self o s = Ok (s', o) -> o <> 0 -> umem_own_is_valid s' o = Ok true.
Proof.
  unfold umem_move. intros E Ho. destruct (require_both _ _ _ _ _ _) as [[s1 good]|] eqn:E1; [|done]. cbn [res_bind] in E.
  destruct good; [|injection E; congruence]. destruct (checks_passed _ _ _ _ _ _ _ E1) as (-> & h & Eh & Es). unfold hdr_at in E. rewrite Eh in E.
  cbn [res_bind negb] in E. destruct (negb _); [destruct (report_error _ _ _ _ _); [injection E; congruence|done]|]. injection E as <-.
  unfold umem_own_is_valid, hdr_at. rewrite (proj2 (Z.eqb_neq o 0) Ho). destruct debug; [unfold set_hdr; cbn [ow_hdrs]; rewrite lookup_insert_eq|rewrite Eh];
    cbn [res_bind ohl_state]; by rewrite Es.
Qed.
