(* ===== verification/Bump.v ===== *)
(** * Bump allocators

    The scoped arenas of umem_arena.c and the small-buffer allocator of
    umem_ptc.c: memory is handed out from the front of one region and taken back
    all at once.  [bump_env] is what an arena uses of the system and of
    [umem_alloc]; [exit (1)] is a [Panic]. *)
From S2P Require Import Prelude Machine.

Class bump_env (W : Type) := {
  bp_alloc : W -> Z -> Z -> result (W * Z);     (* umem_alloc (size, flags); 0 is NULL *)
  bp_free : W -> Z -> Z -> result W;            (* umem_free (buf, size) *)
  bp_mmap : W -> Z -> W * option Z;             (* mmap (NULL, size, ...); None is MAP_FAILED *)
  bp_munmap : W -> Z -> Z -> W;
  bp_pagesize : Z;                              (* sysconf (_SC_PAGESIZE) *)
}.

Definition SIZE_MAX : Z := 2 ^ 64 - 1.
Definition ARENA_ALIGN : Z := 16.
Definition ARENA_HEADER : Z := 24.              (* sizeof (umem_arena_t) *)
Definition ARENA_NOFAIL : Z := 256.             (* UMEM_NOFAIL *)

(** An arena with the address its header was allocated at. *)
Record umem_arena := Arena { ar_addr : Z; ar_base : Z; ar_capacity : Z; ar_offset : Z }.
Definition set_offset (a : umem_arena) (n : Z) : umem_arena := Arena (ar_addr a) (ar_base a) (ar_capacity a) n.

Section arena.
Context {W : Type} {be : bump_env W}.

Definition arena_page_round (sz : Z) : Z :=
  let p := if bp_pagesize <=? 0 then 4096 else bp_pagesize in
  if SIZE_MAX - (p - 1) <? sz then 0 else Z.land (wsub (wadd sz p) 1) (wnot (p - 1)).

Definition umem_arena_create (capacity flags : Z) (w : W) : result (W * option umem_arena) :=
  let fail_with (arena : Z) (w : W) :=
    do w <- bp_free w arena ARENA_HEADER;
    if negb (Z.land flags ARENA_NOFAIL =? 0) then Panic "exit" else Ok (w, None) in
  if capacity =? 0 then Ok (w, None) else
  do (w, arena) <- bp_alloc w ARENA_HEADER flags;
  if arena =? 0 then Ok (w, None) else
  let map_size := arena_page_round capacity in
  if map_size =? 0 then fail_with arena w else
  match bp_mmap w map_size with
  | (w, None) => fail_with arena w
  | (w, Some mem) => Ok (w, Some (Arena arena mem map_size 0))
  end.

(** [None] is a NULL arena; the pointer is 0 for NULL. *)
Definition umem_arena_alloc (arena : option umem_arena) (size : Z) : option umem_arena * Z :=
  match arena with
  | None => (None, 0)
  | Some a =>
      if size =? 0 then (arena, 0) else
      if SIZE_MAX - (ARENA_ALIGN - 1) <? size then (arena, 0) else
      let aligned_size := Z.land (wsub (wadd size ARENA_ALIGN) 1) (wnot (ARENA_ALIGN - 1)) in
      if wsub (ar_capacity a) (ar_offset a) <? aligned_size then (arena, 0) else
      let new_offset := wadd (ar_offset a) aligned_size in
      if ar_capacity a <? new_offset then (arena, 0) else
      (Some (set_offset a new_offset), ar_base a + ar_offset a)
  end.
Definition umem_arena_reset (arena : option umem_arena) : option umem_arena := (fun a => set_offset a 0) <$> arena.
Definition umem_arena_destroy (arena : option umem_arena) (w : W) : result W :=
  match arena with
  | None => Ok w
  | Some a =>
      let w := if ar_base a =? 0 then w else bp_munmap w (ar_base a) (ar_capacity a) in
      bp_free w (ar_addr a) ARENA_HEADER
  end.
Definition umem_arena_available (arena : option umem_arena) : Z :=
  match arena with None => 0 | Some a => wsub (ar_capacity a) (ar_offset a) end.
Definition umem_arena_capacity (arena : option umem_arena) : Z :=
  match arena with None => 0 | Some a => ar_capacity a end.
End arena.

(** ** The small-buffer allocator *)

Definition UMEM_SBO_BUFSZ : Z := 4096.
Definition UMEM_SBO_MAXALLOC : Z := 128.
Definition UMEM_SBO_ALIGN : Z := 16.
Definition SBO_DEBUG_FLAGS : Z := 7.            (* UMF_AUDIT | UMF_DEADBEEF | UMF_REDZONE *)

(** The calling thread's buffer is at [sbo_buf]. *)
Record sbo := Sbo { sbo_buf : Z; sbo_offset : Z }.
Section sbo.
Context (umem_ptc_enabled ptc_table_ready : bool) (umem_flags : Z).

Definition umem_sbo_enabled : bool :=
  if negb umem_ptc_enabled || negb ptc_table_ready then false else
  if negb (Z.land umem_flags SBO_DEBUG_FLAGS =? 0) then false else true.
Definition umem_sbo_alloc (size : Z) (t : sbo) : sbo * Z :=
  if negb umem_sbo_enabled then (t, 0) else
  if (size =? 0) || (UMEM_SBO_MAXALLOC <? size) then (t, 0) else
  let aligned_size := Z.land (wsub (wadd size UMEM_SBO_ALIGN) 1) (wnot (UMEM_SBO_ALIGN - 1)) in
  let new_offset := wadd (sbo_offset t) aligned_size in
  let '(t, new_offset) := if UMEM_SBO_BUFSZ <? new_offset then (Sbo (sbo_buf t) 0, aligned_size) else (t, new_offset) in
  if UMEM_SBO_BUFSZ <? new_offset then (t, 0) else
  (Sbo (sbo_buf t) new_offset, sbo_buf t + sbo_offset t).
End sbo.
Definition umem_sbo_free (ptr size : Z) (t : sbo) : bool :=
  (sbo_buf t <=? ptr) && (ptr <? sbo_buf t + UMEM_SBO_BUFSZ).
Definition umem_sbo_reset (t : sbo) : sbo := Sbo (sbo_buf t) 0.

(** * Properties *)

(** The mask that rounds up, for a size that leaves room for it. *)
Lemma mask_roundup k s : 0 <= k <= 63 -> 0 <= s -> s + 2 ^ k <= 2 ^ 64 ->
  Z.land (wsub (wadd s (2 ^ k)) 1) (wnot (2 ^ k - 1)) = roundup s (2 ^ k).
Proof.
  intros Hk Hs Hb. pose proof (Z.pow_pos_nonneg 2 k ltac:(lia) ltac:(lia)) as Hp.
  assert (E1 : wsub (wadd s (2 ^ k)) 1 = w64 (s + 2 ^ k - 1)).
  { unfold wsub, wadd, w64. by rewrite Zminus_mod_idemp_l. }
  assert (E2 : wnot (2 ^ k - 1) = w64 (- 2 ^ k)).
  { unfold wnot, w64. f_equal. unfold Z.lnot. lia. }
  rewrite E1, E2, land_w64, land_neg_pow2 by lia. destruct (roundup_spec s (2 ^ k) Hp) as [Hr Hd].
  assert (E3 : (s + 2 ^ k - 1) / 2 ^ k * 2 ^ k = roundup s (2 ^ k)).
  { destruct Hd as [c Hc]. rewrite Hc in *. f_equal. symmetry. apply (Z.div_unique_pos _ _ _ (s + 2 ^ k - 1 - c * 2 ^ k)); lia. }
  rewrite E3. apply w64_small. unfold is_word. lia.
Qed.
Lemma mask16 s : 0 <= s <= 2 ^ 64 - 16 -> Z.land (wsub (wadd s 16) 1) (wnot (16 - 1)) = roundup s 16.
Proof. intros H. apply (mask_roundup 4 s); [done|lia..]. Qed.

(** ** Arenas *)

Record arena_ok (a : umem_arena) : Prop := ArenaOk {
  ak_offset : 0 <= ar_offset a <= ar_capacity a;
  ak_fits : 0 < ar_base a /\ ar_base a + ar_capacity a <= 2 ^ 64;
  ak_aligned : (16 | ar_offset a) /\ (16 | ar_base a) /\ (16 | ar_capacity a);
}.
Lemma arena_alloc_run a size :
  arena_ok a -> 0 <= size < 2 ^ 64 ->
  umem_arena_alloc (Some a) size =
    if (size =? 0) || (ar_capacity a - ar_offset a <? roundup size 16) then (Some a, 0)
    else (Some (set_offset a (ar_offset a + roundup size 16)), ar_base a + ar_offset a).
Proof.
  intros [H1 [Hb H2] H3] Hs. unfold umem_arena_alloc, SIZE_MAX, ARENA_ALIGN. destruct (size =? 0); [done|]. cbn [orb].
  destruct (roundup_spec size 16 ltac:(lia)) as [Hr [c Hc]].
  assert (Ew : wsub (ar_capacity a) (ar_offset a) = ar_capacity a - ar_offset a) by (apply Z.mod_small; lia). rewrite Ew.
  destruct (Z.ltb_spec (2 ^ 64 - 1 - (16 - 1)) size) as [Hbig|Hfit]; [by rewrite (proj2 (Z.ltb_lt _ _)) by lia|].
  rewrite mask16 by lia. destruct (Z.ltb_spec (ar_capacity a - ar_offset a) (roundup size 16)); [done|].
  assert (En : wadd (ar_offset a) (roundup size 16) = ar_offset a + roundup size 16) by (apply Z.mod_small; lia). rewrite En.
  by rewrite (proj2 (Z.ltb_ge _ _)) by lia.
Qed.

(** What an arena is asked for, and the pointers given out since the last
    reset, the latest first. *)
Inductive arena_call := ArenaAlloc (size : Z) | ArenaReset.
Definition arena_step (c : arena_call) (st : option umem_arena * list (Z * Z)) : option umem_arena * list (Z * Z) :=
  let '(a, held) := st in
  match c with
  | ArenaAlloc size => let '(a, p) := umem_arena_alloc a size in (a, if p =? 0 then held else (p, size) :: held)
  | ArenaReset => (umem_arena_reset a, [])
  end.
Definition arena_run (calls : list arena_call) (a : umem_arena) : option umem_arena * list (Z * Z) :=
  foldl (fun st c => arena_step c st) (Some a, []) calls.
Definition call_ok (c : arena_call) : Prop := match c with ArenaAlloc size => 0 <= size < 2 ^ 64 | ArenaReset => True end.

(** The blocks lie one after the other between [base] and [top]. *)
Fixpoint stacked (base top : Z) (held : list (Z * Z)) : Prop :=
  match held with
  | [] => top = base
  | (p, size) :: rest => 0 < size /\ (16 | p) /\ p + roundup size 16 = top /\ stacked base p rest
  end.
Lemma stacked_below base top held i p size :
  stacked base top held -> held !! i = Some (p, size) -> base <= p /\ p + roundup size 16 <= top /\ 0 < size /\ (16 | p).
Proof.
  revert top i. induction held as [|[q sz] held IH]; intros top i; [done|]. intros (Hs & Hd & Ht & Hrest).
  assert (Hq : base <= q).
  { clear -Hrest. revert q Hrest. induction held as [|[q' sz'] held IH]; simpl; intros q; [lia|]. intros (Hs & _ & E & Hr). apply IH in Hr.
    destruct (roundup_spec sz' 16 ltac:(lia)). lia. }
  destruct i as [|i]; simpl.
  - intros [= <- <-]. split_and!; try done; lia.
  - intros Hi. destruct (IH q i Hrest Hi) as (? & ? & ? & ?). destruct (roundup_spec sz 16 ltac:(lia)). split_and!; try done; lia.
Qed.
Lemma stacked_disjoint base top held i j p q sz sz' :
  stacked base top held -> (i < j)%nat -> held !! i = Some (p, sz) -> held !! j = Some (q, sz') -> q + sz' <= p.
Proof.
  revert top i j. induction held as [|[r szr] held IH]; intros top i j; [done|]. intros (Hs & Hd & Ht & Hrest) Hij.
  destruct j as [|j]; [lia|]. destruct i as [|i]; simpl.
  - intros [= <- <-] Hj. destruct (stacked_below _ _ _ _ _ _ Hrest Hj) as (_ & ? & _). destruct (roundup_spec sz' 16 ltac:(lia)). lia.
  - intros Hi Hj. by apply (IH r i j); [|lia|..].
Qed.

Definition sum_rounded (held : list (Z * Z)) : Z := foldr (fun b n => roundup b.2 16 + n) 0 held.
Lemma stacked_sum base top held : stacked base top held -> top = base + sum_rounded held.
Proof.
  revert top. induction held as [|[p sz] held IH]; simpl; intros top; [lia|]. intros (_ & _ & <- & Hr). apply IH in Hr. lia.
Qed.

Definition same_region (a a' : umem_arena) : Prop := ar_addr a' = ar_addr a /\ ar_base a' = ar_base a /\ ar_capacity a' = ar_capacity a.
Lemma arena_run_ok a calls :
  arena_ok a -> ar_offset a = 0 -> Forall call_ok calls ->
  exists a' held, arena_run calls a = (Some a', held) /\ arena_ok a' /\ same_region a a' /\ stacked (ar_base a) (ar_base a + ar_offset a') held.
Proof.
  intros Ha H0 Hc. unfold arena_run. induction calls as [|c calls IH] using rev_ind.
  { exists a, []. split; [done|]. split; [done|]. split; [done|]. simpl. lia. }
  apply Forall_app in Hc as [Hc Hl]. apply Forall_cons in Hl as [Hl _]. destruct (IH Hc) as (a1 & held & E & Ha1 & (R1 & R2 & R3) & Hst).
  rewrite foldl_app, E. cbn [foldl]. unfold arena_step. destruct c as [size|].
  - rewrite arena_alloc_run by (done || exact Hl). destruct (_ || _) eqn:Eb; [by exists a1, held|]. cbv beta iota zeta. apply orb_false_iff in Eb as [E0%Z.eqb_neq E1%Z.ltb_ge].
    destruct Ha1 as [K1 K2 K3]. destruct (roundup_spec size 16 ltac:(lia)) as [Hr Hd]. simpl in Hl.
    rewrite (proj2 (Z.eqb_neq (ar_base a1 + ar_offset a1) 0)) by lia. eexists _, _. split; [reflexivity|].
    split; [split; simpl; [lia|done|split; [apply Z.divide_add_r; [apply K3|done]|apply K3]]|]. split; [done|]. simpl. split; [lia|].
    split; [apply Z.divide_add_r; apply K3|]. split; [lia|]. by rewrite R2.
  - eexists _, []. split; [reflexivity|]. destruct Ha1 as [K1 K2 K3]. split; [split; simpl; [lia|done|split; [apply Z.divide_0_r|apply K3]]|]. split; [done|]. simpl. lia.
Qed.

(** C35: an arena gives out each byte once.  After any requests and resets, the
    blocks handed out since the last reset are aligned to 16, lie inside the
    mapped region and do not overlap; what is left is the capacity less their
    rounded sizes; and a request gets NULL exactly when it is for nothing or
    for more than is left, however large it is. *)
Theorem arena_exact a calls size :
  arena_ok a -> ar_offset a = 0 -> Forall call_ok calls -> 0 <= size < 2 ^ 64 ->
  exists a' held, arena_run calls a = (Some a', held) /\ umem_arena_capacity (Some a') = ar_capacity a /\
    umem_arena_available (Some a') = ar_capacity a - sum_rounded held /\
    (forall i p sz, held !! i = Some (p, sz) -> (16 | p) /\ ar_base a <= p /\ p + sz <= ar_base a + ar_capacity a) /\
    (forall i j p q sz sz', (i < j)%nat -> held !! i = Some (p, sz) -> held !! j = Some (q, sz') -> q + sz' <= p) /\
    ((umem_arena_alloc (Some a') size).2 = 0 <-> size = 0 \/ umem_arena_available (Some a') < size).
Proof.
  intros Ha H0 Hc Hs. destruct (arena_run_ok a calls Ha H0 Hc) as (a' & held & E & Ha' & (R1 & R2 & R3) & Hst).
  exists a', held. pose proof (stacked_sum _ _ _ Hst) as Hsum. rewrite arena_alloc_run by done. destruct Ha' as [K1 [Kb K2] K3].
  assert (Ew : wsub (ar_capacity a') (ar_offset a') = ar_capacity a' - ar_offset a') by (apply Z.mod_small; lia).
  split; [done|]. split; [done|]. unfold umem_arena_available. rewrite Ew. split; [lia|]. split; [|split].
  - intros i p sz Hi. destruct (stacked_below _ _ _ _ _ _ Hst Hi) as (? & ? & ? & ?). destruct (roundup_spec sz 16 ltac:(lia)). split_and!; try done; lia.
  - intros i j p q sz sz' Hij. by apply (stacked_disjoint _ _ _ _ _ _ _ _ _ Hst).
  - destruct (roundup_spec size 16 ltac:(lia)) as [Hr Hd]. destruct (Z.eqb_spec size 0) as [->|Hz]; [simpl; tauto|]. cbn [orb].
    destruct Hd as [c Hd], K3 as ([c1 D1] & _ & [c2 D2]). destruct (Z.ltb_spec (ar_capacity a' - ar_offset a') (roundup size 16)); simpl; split; intros Hx.
    + right. lia.
    + done.
    + exfalso. lia.
    + exfalso. destruct Hx; lia.
Qed.

Definition demo_arena : umem_arena := Arena 4096 65536 8192 0.
Lemma arena_exact_witness :
  exists a' held, arena_run [ArenaAlloc 100; ArenaAlloc 1; ArenaReset; ArenaAlloc 8000] demo_arena = (Some a', held) /\
    umem_arena_available (Some a') = 8192 - sum_rounded held /\
    ((umem_arena_alloc (Some a') (2 ^ 64 - 16)).2 = 0 <-> 2 ^ 64 - 16 = 0 \/ umem_arena_available (Some a') < 2 ^ 64 - 16).
Proof.
  destruct (arena_exact demo_arena [ArenaAlloc 100; ArenaAlloc 1; ArenaReset; ArenaAlloc 8000] (2 ^ 64 - 16)) as (a' & held & E & _ & E1 & _ & _ & E2).
  - split; simpl; [done|done|]. split_and!; [by exists 0|by exists 4096|by exists 512].
  - reflexivity.
  - repeat constructor; simpl; done.
  - done.
  - exists a', held. by split_and!.
Defined.

(** ** Creation and destruction *)

(** What [umem_alloc], [umem_free], [mmap] and [munmap] promise, with the blocks
    and the mappings the program has. *)
Class bump_laws (W : Type) {be : bump_env W} (ok : W -> list (Z * Z) -> list (Z * Z) -> Prop) := {
  bl_page : exists k, 4 <= k <= 63 /\ bp_pagesize = 2 ^ k;
  bl_perm w l l' m m' : l ≡ₚ l' -> m ≡ₚ m' -> ok w l m -> ok w l' m';
  bl_alloc w l m size : ok w l m ->
    exists w' b, bp_alloc w size 0 = Ok (w', b) /\ ((b = 0 /\ ok w' l m) \/ (b <> 0 /\ ok w' ((b, size) :: l) m));
  bl_free w b size l m : ok w ((b, size) :: l) m -> exists w', bp_free w b size = Ok w' /\ ok w' l m;
  bl_mmap w l m size : ok w l m -> 0 < size ->
    match bp_mmap w size with
    | (w', None) => ok w' l m
    | (w', Some base) => ok w' l ((base, size) :: m) /\ 0 < base /\ base + size <= 2 ^ 64 /\ (bp_pagesize | base)
    end;
  bl_munmap w l m base size : ok w l ((base, size) :: m) -> ok (bp_munmap w base size) l m;
}.

Section life.
Context {W : Type} {be : bump_env W} {ok : W -> list (Z * Z) -> list (Z * Z) -> Prop} {laws : bump_laws W ok}.

Lemma page_round_exact sz : 0 < sz < 2 ^ 64 ->
  arena_page_round sz = if SIZE_MAX - (bp_pagesize - 1) <? sz then 0 else roundup sz bp_pagesize.
Proof using laws.
  intros Hs. unfold arena_page_round. destruct bl_page as (k & Hk & E). rewrite E. pose proof (Z.pow_pos_nonneg 2 k ltac:(lia) ltac:(lia)).
  rewrite (proj2 (Z.leb_gt _ _)) by lia. destruct (Z.ltb_spec (SIZE_MAX - (2 ^ k - 1)) sz) as [?|Hb]; [done|]. unfold SIZE_MAX in Hb. apply mask_roundup; lia.
Qed.
Lemma page16 x : (bp_pagesize | x) -> (16 | x).
Proof using laws.
  destruct bl_page as (k & Hk & E). rewrite E. intros H. eapply Z.divide_trans; [|exact H]. exists (2 ^ (k - 4)).
  change 16 with (2 ^ 4). rewrite <- Z.pow_add_r by lia. f_equal. lia.
Qed.

Lemma arena_create_ok w l m capacity :
  ok w l m -> 0 <= capacity < 2 ^ 64 ->
  exists w' r, umem_arena_create capacity 0 w = Ok (w', r) /\
    match r with
    | None => ok w' l m
    | Some a => arena_ok a /\ ar_offset a = 0 /\ ar_capacity a = roundup capacity bp_pagesize /\
                ok w' ((ar_addr a, ARENA_HEADER) :: l) ((ar_base a, ar_capacity a) :: m)
    end.
Proof using laws.
  intros H Hc. unfold umem_arena_create. destruct (Z.eqb_spec capacity 0) as [->|Hz]; [by exists w, None|].
  destruct (bl_alloc w l m ARENA_HEADER H) as (w1 & b & E1 & Hb). rewrite E1. cbn [res_bind]. destruct Hb as [[-> Hb]|[Hne Hb]]; [by exists w1, None|].
  rewrite (proj2 (Z.eqb_neq b 0) Hne). change (negb (Z.land 0 ARENA_NOFAIL =? 0)) with false. cbv zeta iota.
  rewrite page_round_exact by lia. destruct (bl_page (W := W)) as (k & Hk & Ep). pose proof (Z.pow_pos_nonneg 2 k ltac:(lia) ltac:(lia)) as Hp.
  rewrite <- Ep in Hp. destruct (Z.ltb_spec (SIZE_MAX - (bp_pagesize - 1)) capacity) as [Hbig|Hfit].
  { change (0 =? 0) with true. cbv iota. destruct (bl_free w1 b _ l m Hb) as (w2 & -> & H2). by exists w2, None. }
  destruct (roundup_spec capacity bp_pagesize Hp) as [Hr Hd]. rewrite (proj2 (Z.eqb_neq (roundup capacity bp_pagesize) 0)) by lia.
  assert (Hrp : 0 < roundup capacity bp_pagesize) by lia. pose proof (bl_mmap w1 _ _ _ Hb Hrp) as Hm. destruct (bp_mmap w1 _) as [w2 [base|]].
  - destruct Hm as (Hok & H0 & Hb2 & Hdiv). eexists w2, (Some _). split; [reflexivity|]. simpl. split; [|done].
    split; simpl; [lia|done|]. split_and!; [apply Z.divide_0_r|by apply page16..].
  - destruct (bl_free w2 b _ l m Hm) as (w3 & -> & H3). by exists w3, None.
Qed.
Lemma arena_destroy_ok w l m a :
  0 < ar_base a -> ok w ((ar_addr a, ARENA_HEADER) :: l) ((ar_base a, ar_capacity a) :: m) ->
  exists w', umem_arena_destroy (Some a) w = Ok w' /\ ok w' l m.
Proof using laws.
  intros Hb H. unfold umem_arena_destroy. rewrite (proj2 (Z.eqb_neq (ar_base a) 0)) by lia. apply bl_free, bl_munmap, H.
Qed.
End life.

(** An arena leaves nothing behind.  Creating one either returns NULL with
    the program's blocks and mappings as they were, whatever failed, or an
    arena that holds at least the capacity asked for; after any requests and
    resets, destroying it frees its header and unmaps the region, with the
    sizes they were obtained with, so that nothing is left of it. *)
Theorem arena_lifecycle {W : Type} {be : bump_env W} {ok : W -> list (Z * Z) -> list (Z * Z) -> Prop} {laws : bump_laws W ok} w l m capacity calls :
  ok w l m -> 0 <= capacity < 2 ^ 64 -> Forall call_ok calls ->
  exists w1 r, umem_arena_create capacity 0 w = Ok (w1, r) /\
    match r with
    | None => ok w1 l m
    | Some a => capacity <= umem_arena_available (Some a) /\
                exists w2, umem_arena_destroy (arena_run calls a).1 w1 = Ok w2 /\ ok w2 l m
    end.
Proof.
  intros H Hc Hs. destruct (arena_create_ok w l m capacity H Hc) as (w1 & r & E & Hr). exists w1, r. split; [done|].
  destruct r as [a|]; [|done]. destruct Hr as (Ha & H0 & Hcap & Hok). destruct (arena_run_ok a calls Ha H0 Hs) as (a' & held & -> & _ & (R1 & R2 & R3) & _).
  destruct Ha as [K1 K2 K3]. split.
  - unfold umem_arena_available. rewrite H0. assert (Ew : wsub (ar_capacity a) 0 = ar_capacity a) by (unfold wsub; rewrite Z.sub_0_r; apply Z.mod_small; lia). rewrite Ew. destruct (bl_page (W := W)) as (k & Hk & Ep).
    pose proof (Z.pow_pos_nonneg 2 k ltac:(lia) ltac:(lia)) as Hp. rewrite <- Ep in Hp. destruct (roundup_spec capacity bp_pagesize Hp). lia.
  - simpl fst. apply (arena_destroy_ok w1 l m a'); [lia|]. by rewrite R1, R2, R3.
Qed.

(** A system that keeps the list of what it gave. *)
Fixpoint remove1 (x : Z * Z) (l : list (Z * Z)) : option (list (Z * Z)) :=
  match l with
  | [] => None
  | y :: l => if decide (x = y) then Some l else cons y <$> remove1 x l
  end.
Lemma remove1_perm x l k : l ≡ₚ x :: k -> exists k', remove1 x l = Some k' /\ k' ≡ₚ k.
Proof.
  intros H. assert (Hin : x ∈ l) by (rewrite H; left). assert (exists k', remove1 x l = Some k' /\ l ≡ₚ x :: k') as (k' & E & Hk').
  { clear H. induction l as [|y l IH]; [by apply not_elem_of_nil in Hin|]. simpl. destruct (decide (x = y)) as [->|Hne]; [by eexists|].
    apply elem_of_cons in Hin as [?|Hin]; [done|]. destruct (IH Hin) as (k' & -> & Hk'). simpl. eexists. split; [done|].
    etrans; [by apply Permutation_skip|]. apply Permutation_swap. }
  exists k'. split; [done|]. rewrite Hk' in H. by apply Permutation_cons_inv in H.
Qed.
#[export] Instance demo_system : bump_env (list (Z * Z) * list (Z * Z)) := {
  bp_alloc w size flags := Ok (((4096, size) :: w.1, w.2), 4096);
  bp_free w b size := match remove1 (b, size) w.1 with Some l => Ok (l, w.2) | None => Panic "free of what was not allocated" end;
  bp_mmap w size := if size <=? 2 ^ 32 then ((w.1, (65536, size) :: w.2), Some 65536) else (w, None);
  bp_munmap w base size := (w.1, default w.2 (remove1 (base, size) w.2));
  bp_pagesize := 4096;
}.
Definition demo_ok (w : list (Z * Z) * list (Z * Z)) (l m : list (Z * Z)) : Prop := w.1 ≡ₚ l /\ w.2 ≡ₚ m.
#[export] Instance demo_laws : bump_laws _ demo_ok.
Proof.
  split.
  - by exists 12.
  - intros w l l' m m' Hl Hm [H1 H2]. split; by etrans.
  - intros w l m size [H1 H2]. eexists _, _. split; [reflexivity|]. right. split; [done|]. split; simpl; [by rewrite H1|done].
  - intros w b size l m [H1 H2]. simpl in *. destruct (remove1_perm _ _ _ H1) as (k & -> & Hk). by eexists.
  - intros w l m size [H1 H2] Hs. simpl. destruct (Z.leb_spec size (2 ^ 32)); [|done]. split; [split; simpl; [done|by rewrite H2]|].
    split_and!; [done|lia|by exists 16].
  - intros w l m base size [H1 H2]. destruct (remove1_perm _ _ _ H2) as (k & E & Hk). split; simpl; [done|]. by rewrite E.
Qed.
Lemma arena_lifecycle_witness :
  exists w1 r, umem_arena_create 5000 0 ([], []) = Ok (w1, r) /\
    match r with
    | None => demo_ok w1 [] []
    | Some a => 5000 <= umem_arena_available (Some a) /\
                exists w2, umem_arena_destroy (arena_run [ArenaAlloc 100; ArenaReset; ArenaAlloc 9000] a).1 w1 = Ok w2 /\ demo_ok w2 [] []
    end.
Proof.
  apply (arena_lifecycle (ok := demo_ok) ([], []) [] [] 5000 [ArenaAlloc 100; ArenaReset; ArenaAlloc 9000]); [by split|done|].
  repeat constructor; simpl; done.
Defined.

(** ** The small-buffer allocator *)

Definition sbo_ok (t : sbo) : Prop := 0 <= sbo_offset t <= UMEM_SBO_BUFSZ /\ (16 | sbo_offset t) /\ 0 < sbo_buf t /\ sbo_buf t + UMEM_SBO_BUFSZ <= 2 ^ 64.
Lemma sbo_alloc_run ready flags size t :
  sbo_ok t -> 0 <= size -> umem_sbo_enabled true ready flags = true -> 0 < size <= UMEM_SBO_MAXALLOC ->
  let at_ := if UMEM_SBO_BUFSZ <? sbo_offset t + roundup size 16 then 0 else sbo_offset t in
  umem_sbo_alloc true ready flags size t = (Sbo (sbo_buf t) (at_ + roundup size 16), sbo_buf t + at_).
Proof.
  intros (H1 & H2 & H3 & H4) H0 He Hs. unfold umem_sbo_alloc. rewrite He. cbn [negb]. unfold UMEM_SBO_MAXALLOC, UMEM_SBO_BUFSZ, UMEM_SBO_ALIGN in *.
  rewrite (proj2 (Z.eqb_neq size 0)), (proj2 (Z.ltb_ge 128 size)) by lia. cbn [orb]. rewrite mask16 by lia.
  destruct (roundup_spec size 16 ltac:(lia)) as [Hr [c Hc]]. unfold wadd. rewrite w64_small by (unfold is_word; lia). cbv zeta.
  destruct (Z.ltb_spec 4096 (sbo_offset t + roundup size 16)) as [Hbig|Hfit].
  - rewrite (proj2 (Z.ltb_ge 4096 (roundup size 16))) by lia. reflexivity.
  - by rewrite (proj2 (Z.ltb_ge 4096 _)) by lia.
Qed.

(** The small-buffer allocator answers every request it is meant for: for 1
    to 128 bytes the pointer lies in the thread's buffer, aligned to 16, and
    [umem_sbo_free] recognises it; the offset stays inside the buffer, and
    until it starts again from the front a block does not overlap the one
    before.  It never runs out. *)
Theorem sbo_in_buffer ready flags size size' t :
  sbo_ok t -> umem_sbo_enabled true ready flags = true -> 0 < size <= UMEM_SBO_MAXALLOC -> 0 < size' <= UMEM_SBO_MAXALLOC ->
  let '(t1, p) := umem_sbo_alloc true ready flags size t in
  let '(t2, q) := umem_sbo_alloc true ready flags size' t1 in
  sbo_ok t1 /\ p <> 0 /\ (16 | p - sbo_buf t) /\ sbo_buf t <= p /\ p + size <= sbo_buf t + UMEM_SBO_BUFSZ /\ umem_sbo_free p size t2 = true /\
  (q = sbo_buf t \/ p + size <= q).
Proof.
  intros Ht He Hs Hs'. rewrite sbo_alloc_run by (done || lia). set (at_ := if _ <? _ then _ else _).
  destruct (roundup_spec size 16 ltac:(lia)) as [Hr [c Hc]]. destruct Ht as (H1 & [c' H2] & H3 & H4). unfold UMEM_SBO_MAXALLOC, UMEM_SBO_BUFSZ in *.
  assert (Hat : 0 <= at_ /\ at_ + roundup size 16 <= 4096 /\ (16 | at_)).
  { unfold at_. destruct (Z.ltb_spec 4096 (sbo_offset t + roundup size 16)); split_and!; try lia; [apply Z.divide_0_r|by exists c']. }
  destruct Hat as (A1 & A2 & A3). assert (Hok : sbo_ok (Sbo (sbo_buf t) (at_ + roundup size 16))).
  { split; simpl; [unfold UMEM_SBO_BUFSZ; lia|]. split; [apply Z.divide_add_r; [done|by exists c]|by unfold UMEM_SBO_BUFSZ]. }
  rewrite sbo_alloc_run by (done || lia). simpl sbo_buf. simpl sbo_offset. split; [done|]. unfold umem_sbo_free. simpl sbo_buf.
  split_and!; try lia.
  - by replace (sbo_buf t + at_ - sbo_buf t) with at_ by lia.
  - rewrite (proj2 (Z.leb_le _ _)), (proj2 (Z.ltb_lt _ _)) by (unfold UMEM_SBO_BUFSZ; lia). done.
  - clearbody at_. destruct (_ <? _); [left; lia|right; lia].
Qed.
Lemma sbo_in_buffer_witness :
  sbo_ok (Sbo 65536 4080) /\ 65536 <> 0 /\ (umem_sbo_alloc true true 0 100 (Sbo 65536 4080)).2 = 65536.
Proof.
  assert (Hok : sbo_ok (Sbo 65536 4080)) by (split; [done|split; [by exists 255|done]]).
  pose proof (sbo_in_buffer true 0 100 20 (Sbo 65536 4080) Hok eq_refl ltac:(done) ltac:(done)) as H. split; [done|]. split; [|reflexivity]. by destruct H as (_ & H & _).
Defined.
