(* ===== verification/Backend.v ===== *)
(** * Memory backends

    vmem_sbrk.c and vmem_mmap.c: the heap's top arenas get memory from the
    system with [brk] or by reserving address space and committing it.
    [backend_env] is what they use: the arena below them (vmem.c), whose segment
    structures are in place, so that its operations do not come back here to
    populate it, and the system, with [errno]. *)
From S2P Require Import Prelude Machine Bump.

Class backend_env (W : Type) := {
  src_alloc : W -> Z -> Z -> W * Z;               (* vmem_alloc (src, size, vmflags); 0 is NULL *)
  src_free : W -> Z -> Z -> W;                    (* vmem_free (src, addr, size) *)
  src_extend : W -> Z -> Z -> Z -> Z -> W * Z;    (* _vmem_extend_alloc (src, pos, size, alloc, vmflags) *)
  src_reap : W -> W;                              (* vmem_reap () *)
  errno : W -> Z;
  set_errno : W -> Z -> W;
  os_break : W -> Z;                              (* sbrk (0) *)
  os_brk : W -> Z -> W * bool;                    (* brk (addr) == 0 *)
  os_mmap_fixed : W -> Z -> Z -> bool -> W * bool;  (* mmap (addr, size, RW or NONE, MAP_FIXED), and whether it worked *)
  os_mmap : W -> Z -> W * option Z;               (* mmap (0, size, NONE); None is MAP_FAILED *)
  os_dontneed : W -> Z -> Z -> W;                 (* madvise (addr, size, MADV_DONTNEED) *)
  os_munmap : W -> Z -> Z -> W;
}.

Definition VM_NOSLEEP : Z := 1.
Definition EINVAL : Z := 22.
Definition ENOMEM : Z := 12.

Section sbrk.
Context {W : Type} {be : backend_env W}.

(** ** vmem_sbrk.c *)

(** [sb_fails] is the list [sbrk_fails]: the base and the size of each block.
    A record lies at the base of its block, so that one address stands for both
    [fp] and [fp->sf_base] and the ASSERT of [vmem_sbrk_tryfail] compares an
    address with itself. *)
Record sbrk := Sbrk {
  sb_world : W; sb_fails : list (Z * Z);
  real_pagesize : Z; vmem_sbrk_pagesize : Z; vmem_sbrk_minalloc : Z;
}.
Definition put (s : sbrk) (w : W) (fails : list (Z * Z)) : sbrk :=
  Sbrk w fails (real_pagesize s) (vmem_sbrk_pagesize s) (vmem_sbrk_minalloc s).

Definition ALIGNSZ : Z := 16.
Definition BRKALIGN (x : Z) : Z := P2ROUNDUP x ALIGNSZ.

(** The block, with its actual size; [None] is [(void * ) -1]. *)
Definition _sbrk_grow_aligned (min_size low_align high_align : Z) (w : W) : W * option (Z * Z) :=
  if negb (Z.land low_align (wsub low_align 1) =? 0) || negb (Z.land high_align (wsub high_align 1) =? 0)
  then (set_errno w EINVAL, None) else
  let low_align := Z.max low_align ALIGNSZ in
  let high_align := Z.max high_align ALIGNSZ in
  let old_brk := BRKALIGN (os_break w) in
  let ret_brk := P2ROUNDUP old_brk low_align in
  let high_brk := wadd ret_brk min_size in
  let new_brk := P2ROUNDUP high_brk high_align in
  if (ret_brk <? old_brk) || (high_brk <? ret_brk) || (new_brk <? high_brk) then (set_errno w ENOMEM, None) else
  let '(w, good) := os_brk w new_brk in
  if negb good then (w, None) else (w, Some (ret_brk, wsub new_brk ret_brk)).

Definition SBRK_FAIL_SIZE : Z := 32.              (* sizeof (sbrk_fail_t) *)
Definition vmem_sbrk_extend_alloc (pos size alloc vmflags : Z) (s : sbrk) : result (sbrk * Z) :=
  let '(w, ret) := src_extend (sb_world s) pos size alloc vmflags in
  if negb (ret =? 0) then Ok (put s w (sb_fails s), ret) else
  if size <? SBRK_FAIL_SIZE then Panic "vmem_sbrk_extend_alloc: assertion" else
  Ok (put s w (sb_fails s ++ [(pos, size)]), 0).

(** The first block of the list that is large enough, and the others. *)
Fixpoint find_fail (size : Z) (l : list (Z * Z)) : option ((Z * Z) * list (Z * Z)) :=
  match l with
  | [] => None
  | b :: l => if size <=? b.2 then Some (b, l) else
              match find_fail size l with Some (x, rest) => Some (x, b :: rest) | None => None end
  end.
Definition vmem_sbrk_tryfail (size vmflags : Z) (s : sbrk) : result (sbrk * Z) :=
  match find_fail size (sb_fails s) with
  | Some ((base, n), rest) => vmem_sbrk_extend_alloc base n size vmflags (put s (sb_world s) rest)
  | None => Ok (s, 0)
  end.

Definition vmem_sbrk_alloc (size vmflags : Z) (s : sbrk) : result (sbrk * Z) :=
  let old_errno := errno (sb_world s) in
  let restore (s : sbrk) := put s (set_errno (sb_world s) old_errno) (sb_fails s) in
  let '(w, ret) := src_alloc (sb_world s) size VM_NOSLEEP in
  let s := put s w (sb_fails s) in
  if negb (ret =? 0) then Ok (restore s, ret) else
  do (s, ret) <- match sb_fails s with [] => Ok (s, 0) | _ => vmem_sbrk_tryfail size vmflags s end;
  if negb (ret =? 0) then Ok (s, ret) else
  let '(w, buf) := _sbrk_grow_aligned (Z.max size (vmem_sbrk_minalloc s)) (real_pagesize s) (vmem_sbrk_pagesize s) (sb_world s) in
  let s := put s w (sb_fails s) in
  do (s, ret) <- match buf with Some (pos, n) => vmem_sbrk_extend_alloc pos n size vmflags s | None => Ok (s, 0) end;
  if negb (ret =? 0) then Ok (restore s, ret) else
  if negb (Z.land vmflags VM_NOSLEEP =? VM_NOSLEEP) then Panic "vmem_sbrk_alloc: assertion" else
  Ok (restore s, 0).

(** The settings [vmem_sbrk_arena] makes before it creates the arenas (without
    MHA_MAPSIZE_BSSBRK), and what it logs. *)
Definition VMEM_SBRK_MINALLOC : Z := 64 * 1024.
Definition sbrk_settings (pagesize : Z) (issetugid : bool) (w : W) (heap_size minalloc : Z) : sbrk * list Z :=
  let '(heap_size, log) :=
    if issetugid then (0, [])
    else if negb (heap_size =? 0) && negb (ISP2 heap_size) then (0, [0])
    else (heap_size, []) in
  let heap_size := if heap_size <=? pagesize then pagesize else pagesize in
  let minalloc := if minalloc <? VMEM_SBRK_MINALLOC then VMEM_SBRK_MINALLOC else minalloc in
  (Sbrk w [] pagesize heap_size (P2ROUNDUP minalloc heap_size), log).
End sbrk.
Arguments sbrk : clear implicits.

(** ** vmem_mmap.c *)

Section mmap.
Context {W : Type} {be : backend_env W} (vmem_mmap_guard_min : Z).




Definition vmem_mmap_top_alloc (size vmflags : Z) (w : W) : W * Z :=
  let old_errno := errno w in
  let '(w, ret) := src_alloc w size VM_NOSLEEP in
  if negb (ret =? 0) then (set_errno w old_errno, ret) else
  match os_mmap w size with
  | (w, Some buf) =>
      let '(w, ret) := src_extend w buf size size vmflags in
      if negb (ret =? 0) then (w, ret) else (set_errno (os_munmap w buf size) old_errno, 0)
  | (w, None) => (w, 0)
  end.
End mmap.

(** * Memory backends: properties

    The backends keep every byte they obtained, give out memory that is usable,
    and leave the other blocks alone, over any arena and system that keep the
    promises of [backend_laws]. *)

(** ** Blocks *)

Definition apart (b c : Z * Z) : Prop := b.1 + b.2 <= c.1 \/ c.1 + c.2 <= b.1.
Fixpoint disjoint (l : list (Z * Z)) : Prop :=
  match l with [] => True | b :: l => Forall (apart b) l /\ disjoint l end.
Lemma apart_sym b c : apart b c -> apart c b.
Proof. unfold apart. tauto. Qed.
#[global] Instance disjoint_perm : Proper ((≡ₚ) ==> iff) disjoint.
Proof.
  assert (H : forall l l', l ≡ₚ l' -> disjoint l -> disjoint l').
  { induction 1 as [|b l l' Hp IH|b c l|l1 l2 l3 _ IH1 _ IH2]; simpl; [done| | |by auto].
    - intros [Hb Hl]. split; [by rewrite <- Hp|by apply IH].
    - rewrite !Forall_cons. intros ((Hcb & Hc) & Hb & Hl). split_and!; try done; by apply apart_sym. }
  intros l l' Hp. split; by apply H.
Qed.
Lemma disjoint_app l k : disjoint (l ++ k) -> disjoint l /\ disjoint k.
Proof. induction l as [|b l IH]; simpl; [done|]. rewrite Forall_app. naive_solver. Qed.
(** A block above everything is apart from it. *)
Lemma above_apart top b l : Forall (fun c => c.1 + c.2 <= top) l -> top <= b.1 -> Forall (apart b) l.
Proof. intros H Ht. eapply Forall_impl; [exact H|]. simpl. intros c Hc. right. lia. Qed.

Definition in_block (a : Z) (b : Z * Z) : Prop := b.1 <= a < b.1 + b.2.

(** ** What the arena and the system promise *)

(** [ok w spans live]: the arena's memory and the blocks allocated from it.
    [usable w a]: the byte at [a] can be read and written.  An allocation that
    [held w]: the address ranges mapped with mmap and not unmapped since; the
    arena maps and unmaps none itself.  An allocation that does not fit may
    reap, which frees blocks of others: those that remain keep their memory. *)
Class backend_laws (W : Type) {be : backend_env W} (ok : W -> list (Z * Z) -> list (Z * Z) -> Prop) (usable : W -> Z -> Prop)
    (held : W -> list (Z * Z)) := {
  kl_perm w sp sp' L L' : sp ≡ₚ sp' -> L ≡ₚ L' -> ok w sp L -> ok w sp' L';
  kl_live w sp L : ok w sp L -> disjoint L /\ Forall (fun b => b.1 <> 0) L;
  kl_alloc w sp L size vmflags : ok w sp L -> 0 < size ->
    let '(w', p) := src_alloc w size vmflags in
    os_break w' = os_break w /\ exists L', L' ⊆+ L /\ ok w' sp (if p =? 0 then L' else (p, size) :: L') /\
      (forall b a, b ∈ L' -> in_block a b -> usable w a -> usable w' a);
  kl_free w sp L p size : ok w sp ((p, size) :: L) ->
    os_break (src_free w p size) = os_break w /\ ok (src_free w p size) sp L /\ (forall a, usable w a -> usable (src_free w p size) a);
  kl_reap w sp L : ok w sp L ->
    os_break (src_reap w) = os_break w /\ exists L', L' ⊆+ L /\ ok (src_reap w) sp L' /\
      (forall b a, b ∈ L' -> in_block a b -> usable w a -> usable (src_reap w) a);
  kl_extend w sp L pos size alloc vmflags : ok w sp L -> 0 < alloc <= size -> 0 < pos -> Forall (apart (pos, size)) sp ->
    let '(w', p) := src_extend w pos size alloc vmflags in
    os_break w' = os_break w /\ (forall a, usable w a -> usable w' a) /\
    ((p = 0 /\ ok w' sp L) \/ (p <> 0 /\ ok w' ((pos, size) :: sp) ((p, alloc) :: L)));
  kl_errno w e sp L : errno (set_errno w e) = e /\ os_break (set_errno w e) = os_break w /\
    (ok w sp L -> ok (set_errno w e) sp L) /\ (forall a, usable w a -> usable (set_errno w e) a);
  kl_brk w new sp L : ok w sp L ->
    let '(w', good) := os_brk w new in os_break w' = (if good : bool then new else os_break w) /\ ok w' sp L;
  kl_fixed w addr size (rw : bool) sp L : ok w sp L ->
    let '(w', good) := os_mmap_fixed w addr size rw in
    ok w' sp L /\ (forall a, ~ in_block a (addr, size) -> usable w a -> usable w' a) /\
    (good = true -> rw = true -> forall a, in_block a (addr, size) -> usable w' a);
  kl_dontneed w addr size sp L : ok w sp L -> ok (os_dontneed w addr size) sp L /\ (forall a, usable w a -> usable (os_dontneed w addr size) a);
  kl_mmap w size sp L : ok w sp L -> 0 < size ->
    match os_mmap w size with
    | (w', Some buf) => 0 < buf /\ Forall (apart (buf, size)) sp /\ ok w' sp L
    | (w', None) => ok w' sp L
    end;
  kl_munmap w addr size sp L : ok w sp L -> Forall (apart (addr, size)) sp -> ok (os_munmap w addr size) sp L;
  kl_held w p size alloc fl e (rw : bool) :
    held (src_alloc w size fl).1 = held w /\ held (src_free w p size) = held w /\ held (src_reap w) = held w /\
    held (src_extend w p size alloc fl).1 = held w /\ held (set_errno w e) = held w /\
    held (os_mmap_fixed w p size rw).1 = held w /\ held (os_dontneed w p size) = held w;
  kl_held_mmap w size :
    match os_mmap w size with (w', Some buf) => held w' ≡ₚ (buf, size) :: held w | (w', None) => held w' = held w end;
  kl_held_munmap w addr size R : held w ≡ₚ (addr, size) :: R -> held (os_munmap w addr size) ≡ₚ R;
}.

Section proofs.
Context {W : Type} {be : backend_env W} {ok : W -> list (Z * Z) -> list (Z * Z) -> Prop} {usable : W -> Z -> Prop} {held : W -> list (Z * Z)} {laws : backend_laws W ok usable held}.

(** ** Growing the break *)

Lemma land_pow2 k : 0 <= k < 64 -> Z.land (2 ^ k) (wsub (2 ^ k) 1) = 0.
Proof using Type.
  intros Hk. pose proof (Z.pow_pos_nonneg 2 k ltac:(lia) ltac:(lia)). pose proof (Z.pow_lt_mono_r 2 k 64 ltac:(lia) ltac:(lia) ltac:(lia)).
  unfold wsub. rewrite w64_small by (unfold is_word; lia). rewrite Z.sub_1_r, <- Z.ones_equiv, Z.land_ones by lia. apply Z.mod_same. lia.
Qed.
Lemma pow2_max k : 0 <= k < 64 -> exists j, 4 <= j < 64 /\ Z.max (2 ^ k) ALIGNSZ = 2 ^ j /\ k <= j.
Proof using Type.
  intros Hk. destruct (Z.le_gt_cases 4 k).
  - exists k. split_and!; [lia..| |lia]. apply Z.max_l. change ALIGNSZ with (2 ^ 4). apply Z.pow_le_mono_r; lia.
  - exists 4. split_and!; [lia..| |lia]. apply Z.max_r. change ALIGNSZ with (2 ^ 4). apply Z.pow_le_mono_r; lia.
Qed.
(** [P2ROUNDUP] with its overflow test. *)
Lemma roundup_test x k : 0 <= k < 64 -> 0 < x < 2 ^ 64 ->
  if P2ROUNDUP x (2 ^ k) <? x then 2 ^ 64 <= roundup x (2 ^ k) else P2ROUNDUP x (2 ^ k) = roundup x (2 ^ k) /\ roundup x (2 ^ k) < 2 ^ 64.
Proof using Type.
  intros Hk Hx. pose proof (Z.pow_pos_nonneg 2 k ltac:(lia) ltac:(lia)) as Hp. rewrite P2ROUNDUP_spec by lia.
  destruct (roundup_spec x (2 ^ k) Hp) as [Hr _].
  assert (Hle : roundup x (2 ^ k) <= 2 ^ 64).
  { apply roundup_least; [done| |lia]. exists (2 ^ (64 - k)). rewrite <- Z.pow_add_r by lia. f_equal. lia. }
  destruct (Z.eq_dec (roundup x (2 ^ k)) (2 ^ 64)) as [E|E].
  - rewrite E. change (w64 (2 ^ 64)) with 0. rewrite (proj2 (Z.ltb_lt 0 x)) by lia. lia.
  - rewrite w64_small by (unfold is_word; lia). rewrite (proj2 (Z.ltb_ge _ _)) by lia. lia.
Qed.

Lemma grow_ok min_size kl kh w sp L :
  ok w sp L -> 0 <= kl < 64 -> 0 <= kh < 64 -> 0 < os_break w <= 2 ^ 64 - 16 -> 0 < min_size < 2 ^ 64 ->
  match _sbrk_grow_aligned min_size (2 ^ kl) (2 ^ kh) w with
  | (w', Some (buf, n)) => os_break w <= buf /\ min_size <= n /\ buf + n = os_break w' /\ os_break w' <= 2 ^ 64 - 16 /\ buf < os_break w + 16 + Z.max (2 ^ kl) 16 /\ (2 ^ kl | buf) /\ (2 ^ kh | buf + n) /\ ok w' sp L
  | (w', None) => os_break w' = os_break w /\ ok w' sp L
  end.
Proof using laws.
  intros Hok Hl Hh Hb Hm. unfold _sbrk_grow_aligned. rewrite !land_pow2 by done. cbn [negb Z.eqb orb].
  destruct (pow2_max kl Hl) as (jl & Hjl & Ejl & Hkl), (pow2_max kh Hh) as (jh & Hjh & Ejh & Hkh). rewrite Ejl, Ejh. change ALIGNSZ with 16 in Ejl.
  assert (Hnone : forall e, os_break (set_errno w e) = os_break w /\ ok (set_errno w e) sp L).
  { intros e. destruct (kl_errno w e sp L) as (_ & ? & H & _). auto. }
  assert (Eo : BRKALIGN (os_break w) = roundup (os_break w) 16) by (apply (P2ROUNDUP_small _ 4); lia).
  destruct (roundup_spec (os_break w) 16 ltac:(lia)) as [Ho1 _]. pose proof (roundup_least (os_break w) 16 (2 ^ 64 - 16) ltac:(lia)) as Ho2.
  specialize (Ho2 ltac:(by exists (2 ^ 60 - 1)) ltac:(lia)). rewrite Eo. set (old := roundup (os_break w) 16) in *. cbv zeta.
  pose proof (Z.pow_pos_nonneg 2 jl ltac:(lia) ltac:(lia)) as Hpl. pose proof (Z.pow_pos_nonneg 2 jh ltac:(lia) ltac:(lia)) as Hph.
  pose proof (roundup_test old jl ltac:(lia) ltac:(lia)) as Hr. destruct (P2ROUNDUP old (2 ^ jl) <? old); [apply Hnone|]. cbn [orb]. destruct Hr as [-> Hr].
  destruct (roundup_spec old (2 ^ jl) Hpl) as [Hr1 Hr2]. set (ret := roundup old (2 ^ jl)) in *.
  destruct (Z.ltb_spec (wadd ret min_size) ret) as [?|Hnw]; [apply Hnone|]. cbn [orb].
  assert (Eh : wadd ret min_size = ret + min_size).
  { unfold wadd, w64 in *. destruct (Z.lt_ge_cases (ret + min_size) (2 ^ 64)); [by rewrite Z.mod_small by lia|].
    replace (ret + min_size) with (ret + min_size - 2 ^ 64 + 1 * 2 ^ 64) in Hnw by lia. rewrite Z.mod_add, Z.mod_small in Hnw; lia. }
  assert (Hhi : ret + min_size < 2 ^ 64) by (rewrite <- Eh; apply Z.mod_pos_bound; lia). rewrite Eh.
  pose proof (roundup_test (ret + min_size) jh ltac:(lia) ltac:(lia)) as Hn. destruct (P2ROUNDUP (ret + min_size) (2 ^ jh) <? ret + min_size); [apply Hnone|].
  destruct Hn as [-> Hn]. destruct (roundup_spec (ret + min_size) (2 ^ jh) Hph) as [Hn1 Hn2]. set (new := roundup (ret + min_size) (2 ^ jh)) in *.
  pose proof (kl_brk w new sp L Hok) as Hbrk. destruct (os_brk w new) as [w' good]. destruct Hbrk as [Eb Hok']. destruct good; cbn [negb]; [|done].
  assert (Ew : wsub new ret = new - ret) by (apply Z.mod_small; lia). rewrite Ew, Eb. replace (ret + (new - ret)) with new by lia.
  assert (Hdiv : forall i j x, 0 <= i <= j -> (2 ^ j | x) -> (2 ^ i | x)).
  { intros i j x Hij Hx. eapply Z.divide_trans; [|exact Hx]. exists (2 ^ (j - i)). rewrite <- Z.pow_add_r by lia. f_equal. lia. }
  assert (H16 : (2 ^ 4 | new)) by (apply (Hdiv 4 jh); [lia|done]). destruct H16 as [c H16].
  split_and!; try done; try lia; [by apply (Hdiv kl jl); [lia|]|by apply (Hdiv kh jh); [lia|]].
Qed.

(** ** The sbrk backend *)

Definition settled (s : sbrk W) : Prop :=
  exists kl kh, real_pagesize s = 2 ^ kl /\ vmem_sbrk_pagesize s = 2 ^ kh /\ 0 <= kl < 64 /\ 0 <= kh < 64 /\
    32 <= vmem_sbrk_minalloc s < 2 ^ 64.
(** All that was obtained from [brk] is with the arena or on the list, once,
    and lies below the break. *)
Record sbrk_ok (s : sbrk W) (spans live : list (Z * Z)) : Prop := SbrkOk {
  so_world : ok (sb_world s) spans live;
  so_disjoint : disjoint (spans ++ sb_fails s);
  so_below : Forall (fun b => b.1 + b.2 <= os_break (sb_world s)) (spans ++ sb_fails s);
  so_fails : Forall (fun b => 0 < b.1 /\ SBRK_FAIL_SIZE <= b.2) (sb_fails s);
  so_break : 0 < os_break (sb_world s) <= 2 ^ 64 - 16;
}.

(** The memory obtained between two states: nothing when the break stayed;
    otherwise one block from above the old break up to the new one, less than a
    page and 32 bytes lost to its alignment. *)
Definition obtained (s s' : sbrk W) (new : list (Z * Z)) : Prop :=
  (os_break (sb_world s') = os_break (sb_world s) /\ new = []) \/
  exists buf n, new = [(buf, n)] /\ 0 < n /\ os_break (sb_world s) <= buf /\ buf + n = os_break (sb_world s') /\
    buf < os_break (sb_world s) + 16 + Z.max (real_pagesize s) 16.

Lemma find_fail_some size l b rest : find_fail size l = Some (b, rest) -> l ≡ₚ b :: rest /\ size <= b.2.
Proof using Type.
  revert rest. induction l as [|c l IH]; simpl; intros rest; [done|]. destruct (Z.leb_spec size c.2) as [Hc|Hc].
  - intros [= <- <-]. done.
  - destruct (find_fail size l) as [[x r]|]; [|done]. intros [= <- <-]. destruct (IH r eq_refl) as [Hp Hs]. split; [|done].
    rewrite Hp. apply Permutation_swap.
Qed.

(** [so_ok] when the world changes and the list stays. *)
Lemma sbrk_world s spans live w live' :
  sbrk_ok s spans live -> ok w spans live' -> os_break w = os_break (sb_world s) -> sbrk_ok (put s w (sb_fails s)) spans live'.
Proof using Type. intros [H1 H2 H3 H4 H5] Hok Eb. split; simpl; rewrite ?Eb; done. Qed.

(** The region goes to the arena or to the list. *)
Lemma extend_ok pos n size vmflags s spans live :
  ok (sb_world s) spans live -> disjoint ((pos, n) :: spans ++ sb_fails s) ->
  Forall (fun b => b.1 + b.2 <= os_break (sb_world s)) ((pos, n) :: spans ++ sb_fails s) ->
  Forall (fun b => 0 < b.1 /\ SBRK_FAIL_SIZE <= b.2) ((pos, n) :: sb_fails s) -> 0 < os_break (sb_world s) <= 2 ^ 64 - 16 ->
  0 < size <= n ->
  exists s' p spans', vmem_sbrk_extend_alloc pos n size vmflags s = Ok (s', p) /\ (settled s -> settled s') /\ real_pagesize s' = real_pagesize s /\
    os_break (sb_world s') = os_break (sb_world s) /\
    sbrk_ok s' spans' (if p =? 0 then live else (p, size) :: live) /\ spans' ++ sb_fails s' ≡ₚ (pos, n) :: spans ++ sb_fails s.
Proof using laws.
  intros Hok Hd Hb Hf Hbr Hs. unfold vmem_sbrk_extend_alloc. pose proof Hd as [Ha Hd']. apply Forall_app in Ha as [Ha _].
  apply Forall_cons in Hf as [[Hp0 Hn] Hf]. simpl in Hp0, Hn.
  pose proof (kl_extend (sb_world s) spans live pos n size vmflags Hok Hs Hp0 Ha) as He. destruct (src_extend _ _ _ _ _) as [w p].
  destruct He as (Eb & _ & [[-> Hw]|[Hp Hw]]).
  - cbn [Z.eqb negb]. rewrite (proj2 (Z.ltb_ge n SBRK_FAIL_SIZE)) by lia. 
    assert (Hperm : spans ++ sb_fails s ++ [(pos, n)] ≡ₚ (pos, n) :: spans ++ sb_fails s) by (rewrite app_assoc; symmetry; apply Permutation_cons_append).
    eexists _, 0, spans. split; [reflexivity|]. do 3 (split; [done|]). split; [|done]. split; simpl; rewrite ?Hperm, ?Eb; try done.
    apply Forall_app. split; [done|]. by constructor.
  - rewrite (proj2 (Z.eqb_neq p 0) Hp). cbn [negb]. eexists _, p, ((pos, n) :: spans). split; [reflexivity|]. do 3 (split; [done|]). split; [|done].
    rewrite (proj2 (Z.eqb_neq p 0) Hp). split; simpl; rewrite ?Eb; done.
Qed.

Lemma tryfail_ok size vmflags s spans live :
  sbrk_ok s spans live -> 0 < size ->
  exists s' p spans', vmem_sbrk_tryfail size vmflags s = Ok (s', p) /\ (settled s -> settled s') /\ real_pagesize s' = real_pagesize s /\
    os_break (sb_world s') = os_break (sb_world s) /\
    sbrk_ok s' spans' (if p =? 0 then live else (p, size) :: live) /\ spans' ++ sb_fails s' ≡ₚ spans ++ sb_fails s.
Proof using laws.
  intros H Hs. unfold vmem_sbrk_tryfail. destruct (find_fail size (sb_fails s)) as [[[base n] rest]|] eqn:E; [|by exists s, 0, spans].
  apply find_fail_some in E as [Hp Hn]. destruct H as [H1 H2 H3 H4 H5].
  assert (Hpp : spans ++ sb_fails s ≡ₚ (base, n) :: spans ++ rest) by (rewrite Hp; symmetry; apply Permutation_middle).
  destruct (extend_ok base n size vmflags (put s (sb_world s) rest) spans live) as (s' & p & sp' & E1 & E2 & Er & E3 & E4 & E5); cbn [put sb_world sb_fails]; try done.
  - by rewrite <- Hpp.
  - by rewrite <- Hpp.
  - by rewrite <- Hp.
  - exists s', p, sp'. do 5 (split; [done|]). by rewrite E5, Hpp.
Qed.

Lemma sbrk_alloc_ok size vmflags s spans live :
  sbrk_ok s spans live -> settled s -> 0 < size < 2 ^ 64 -> Z.land vmflags VM_NOSLEEP = VM_NOSLEEP ->
  exists s' p spans' live' new, vmem_sbrk_alloc size vmflags s = Ok (s', p) /\ settled s' /\
    sbrk_ok s' spans' (if p =? 0 then live' else (p, size) :: live') /\ live' ⊆+ live /\
    spans' ++ sb_fails s' ≡ₚ new ++ spans ++ sb_fails s /\ obtained s s' new /\
    (p = 0 -> errno (sb_world s') = errno (sb_world s)).
Proof using laws.
  intros H Hset Hs Hf. unfold vmem_sbrk_alloc. pose proof (kl_alloc (sb_world s) spans live size VM_NOSLEEP (so_world _ _ _ H) ltac:(lia)) as Ha.
  destruct (src_alloc _ _ _) as [w p]. destruct Ha as (Eb & L' & HL & Hok & _).
  assert (Hrestore : forall s1 sp lv e, sbrk_ok s1 sp lv -> sbrk_ok (put s1 (set_errno (sb_world s1) e) (sb_fails s1)) sp lv).
  { intros s1 sp lv e H1. destruct (kl_errno (sb_world s1) e sp lv) as (_ & Ee & Ho & _). apply (sbrk_world s1 sp lv); [done|apply Ho, H1|done]. }
  pose proof (sbrk_world s spans live w _ H Hok Eb) as H1. set (s1 := put s w (sb_fails s)) in *.
  destruct (Z.eqb_spec p 0) as [->|Hp]; cbn [negb].
  2:{ eexists _, p, spans, L', []. split; [reflexivity|]. split; [done|]. rewrite (proj2 (Z.eqb_neq p 0) Hp). split; [by apply Hrestore|]. split_and!; try done. left. split; [|done]. simpl. by rewrite (proj1 (proj2 (kl_errno w (errno (sb_world s)) [] []))). }
  assert (exists s2 p2 sp2, match sb_fails s1 with [] => Ok (s1, 0) | _ => vmem_sbrk_tryfail size vmflags s1 end = Ok (s2, p2) /\ settled s2 /\
    os_break (sb_world s2) = os_break (sb_world s1) /\ sbrk_ok s2 sp2 (if p2 =? 0 then L' else (p2, size) :: L') /\
    sp2 ++ sb_fails s2 ≡ₚ spans ++ sb_fails s1 /\ real_pagesize s2 = real_pagesize s) as (s2 & p2 & sp2 & E2 & Hset2 & Eb2 & H2 & Hp2 & Er2).
  { destruct (sb_fails s1) eqn:Ef; [exists s1, 0, spans; split_and!; try done; by rewrite Ef|]. rewrite <- Ef.
    destruct (tryfail_ok size vmflags s1 spans L' H1 ltac:(lia)) as (s2 & p2 & sp2 & E & Hs2 & Er & Hr). exists s2, p2, sp2. split; [done|]. split; [by apply Hs2|]. by destruct Hr as (? & ? & ?). }
  assert (Ebe : forall w e, os_break (set_errno w e) = os_break w) by (intros w0 e; apply (kl_errno w0 e [] [])).
  rewrite E2. cbn [res_bind]. destruct (Z.eqb_spec p2 0) as [->|Hpz]; cbn [negb].
  2:{ eexists s2, p2, sp2, L', []. split; [reflexivity|]. split; [done|]. rewrite (proj2 (Z.eqb_neq p2 0) Hpz) in *. split_and!; try done. left. by rewrite Eb2. }
  destruct H2 as [K1 K2 K3 K4 K5]. destruct Hset2 as (kl & kh & El & Eh & Hkl & Hkh & Hmin).
  pose proof (grow_ok (Z.max size (vmem_sbrk_minalloc s2)) kl kh (sb_world s2) sp2 L' K1 Hkl Hkh K5 ltac:(lia)) as Hg. rewrite El, Eh.
  destruct (_sbrk_grow_aligned _ _ _ _) as [w3 [[buf n]|]].
  - destruct Hg as (G1 & G2 & G3 & G4 & G6 & _ & _ & G5).
    destruct (extend_ok buf n size vmflags (put s2 w3 (sb_fails s2)) sp2 L') as (s4 & p4 & sp4 & E4 & Hset4 & Er4 & Eb4 & H4 & Hp4); cbn [put sb_world sb_fails].
    + done.
    + split; [|done]. apply (above_apart (os_break (sb_world s2))); [done|simpl; lia].
    + constructor; [simpl; lia|]. eapply Forall_impl; [exact K3|]. simpl. intros. lia.
    + constructor; [simpl; unfold SBRK_FAIL_SIZE; lia|done].
    + lia.
    + lia.
    + rewrite E4. cbn [res_bind]. assert (Hs4 : settled s4) by (apply Hset4; by exists kl, kh).
      assert (Hall : sp4 ++ sb_fails s4 ≡ₚ [(buf, n)] ++ spans ++ sb_fails s) by (rewrite Hp4; simpl; by rewrite Hp2).
      assert (Hnew : obtained s (put s4 (set_errno (sb_world s4) (errno (sb_world s))) (sb_fails s4)) [(buf, n)]).
      { right. exists buf, n. simpl in *. rewrite Ebe, Eb4, <- Er2, El, <- Eb, <- Eb2. split_and!; try done; lia. }
      assert (Hrun : forall q, q = p4 -> (if negb (q =? 0) then Ok (put s4 (set_errno (sb_world s4) (errno (sb_world s))) (sb_fails s4), q) else
          if negb (Z.land vmflags VM_NOSLEEP =? VM_NOSLEEP) then Panic "vmem_sbrk_alloc: assertion"
          else Ok (put s4 (set_errno (sb_world s4) (errno (sb_world s))) (sb_fails s4), 0)) =
        Ok (put s4 (set_errno (sb_world s4) (errno (sb_world s))) (sb_fails s4), p4)).
      { intros q ->. rewrite Hf. destruct (Z.eqb_spec p4 0) as [->|]; done. }
      rewrite (Hrun p4 eq_refl). eexists _, p4, sp4, L', [(buf, n)]. split; [reflexivity|]. split; [done|]. split; [by apply Hrestore|]. split_and!; try done.
      intros _. apply (kl_errno (sb_world s4) (errno (sb_world s)) [] []).
  - destruct Hg as [G1 G2]. cbn [res_bind Z.eqb negb]. rewrite Hf. cbn [Z.eqb negb].
    eexists _, 0, sp2, L', []. split; [reflexivity|]. split; [by exists kl, kh|]. split.
    { apply Hrestore. split; simpl; rewrite ?G1; done. }
    split_and!; try done; [left; split; [|done]; simpl; by rewrite Ebe, G1, Eb2|]. intros _. apply (kl_errno w3 (errno (sb_world s)) [] []).
Qed.

(** ** The mmap backend *)




End proofs.

(** ** An arena of free blocks over a system that never refuses *)

Record toy := Toy {
  ty_errno : Z; ty_break : Z; ty_spans : list (Z * Z); ty_live : list (Z * Z); ty_free : list (Z * Z);
  ty_rw : Z -> bool; ty_extends : bool; ty_held : list (Z * Z);
}.
Definition toy_rw (w : toy) (addr size : Z) (rw : bool) : toy :=
  Toy (ty_errno w) (ty_break w) (ty_spans w) (ty_live w) (ty_free w)
    (fun a => if (addr <=? a) && (a <? addr + size) then rw else ty_rw w a) (ty_extends w) (ty_held w).
Definition toy_errno (w : toy) (e : Z) : toy := Toy e (ty_break w) (ty_spans w) (ty_live w) (ty_free w) (ty_rw w) (ty_extends w) (ty_held w).
Definition toy_live (w : toy) (spans live free : list (Z * Z)) : toy := Toy (ty_errno w) (ty_break w) spans live free (ty_rw w) (ty_extends w) (ty_held w).
Definition toy_held (w : toy) (held : list (Z * Z)) : toy :=
  Toy (ty_errno w) (ty_break w) (ty_spans w) (ty_live w) (ty_free w) (ty_rw w) (ty_extends w) held.
Definition top_of (l : list (Z * Z)) : Z := foldr (fun b t => Z.max (b.1 + b.2) t) 4096 l.
#[export] Instance toy_env : backend_env toy := {
  src_alloc w size vmflags :=
    match ty_free w with
    | (p, n) :: rest => if n =? size then (toy_live w (ty_spans w) ((p, n) :: ty_live w) rest, p) else (toy_errno w ENOMEM, 0)
    | [] => (toy_errno w ENOMEM, 0)
    end;
  src_free w p size := toy_live w (ty_spans w) (default (ty_live w) (remove1 (p, size) (ty_live w))) (ty_free w);
  src_extend w pos size alloc vmflags :=
    if ty_extends w then (toy_live w ((pos, size) :: ty_spans w) ((pos, alloc) :: ty_live w) (ty_free w), pos) else (w, 0);
  src_reap w := w;
  errno := ty_errno;
  set_errno := toy_errno;
  os_break := ty_break;
  os_brk w new := (Toy (ty_errno w) new (ty_spans w) (ty_live w) (ty_free w) (ty_rw w) (ty_extends w) (ty_held w), true);
  os_mmap_fixed w addr size rw := (toy_rw w addr size rw, true);
  os_mmap w size := (toy_held w ((top_of (ty_spans w), size) :: ty_held w), Some (top_of (ty_spans w)));
  os_dontneed w addr size := w;
  os_munmap w addr size := toy_held (toy_rw w addr size false) (default (ty_held w) (remove1 (addr, size) (ty_held w)));
}.
Definition inside (spans : list (Z * Z)) (b : Z * Z) : Prop := Exists (fun c => c.1 <= b.1 /\ b.1 + b.2 <= c.1 + c.2) spans.
Definition toy_ok (w : toy) (spans live : list (Z * Z)) : Prop :=
  ty_spans w ≡ₚ spans /\ ty_live w ≡ₚ live /\ disjoint (ty_live w ++ ty_free w) /\
  Forall (fun b => b.1 <> 0 /\ inside (ty_spans w) b) (ty_live w ++ ty_free w).
Definition toy_usable (w : toy) (a : Z) : Prop := ty_rw w a = true.

Lemma top_above l : 4096 <= top_of l /\ Forall (fun c => c.1 + c.2 <= top_of l) l.
Proof.
  induction l as [|b l [IH1 IH2]]; simpl; [done|]. split; [lia|]. constructor; [lia|]. eapply Forall_impl; [exact IH2|]. simpl. intros. lia.
Qed.
Lemma toy_extend_ok w spans live pos size alloc :
  toy_ok w spans live -> 0 < alloc <= size -> 0 < pos -> Forall (apart (pos, size)) spans ->
  toy_ok (toy_live w ((pos, size) :: ty_spans w) ((pos, alloc) :: ty_live w) (ty_free w)) ((pos, size) :: spans) ((pos, alloc) :: live).
Proof.
  intros (H1 & H2 & H3 & H4) Hs Hp Ha. split_and!; simpl; [by rewrite H1|by rewrite H2| |].
  - split; [|done]. apply Forall_forall. intros b Hb. destruct (proj1 (Forall_forall _ _) H4 b Hb) as [_ Hin].
    apply Exists_exists in Hin as (c & Hc & Hc1). rewrite H1 in Hc. apply (proj1 (Forall_forall _ _) Ha) in Hc. unfold apart in *. simpl in *. lia.
  - constructor.
    + split; [simpl; lia|]. left. simpl. lia.
    + eapply Forall_impl; [exact H4|]. intros b [? ?]. split; [done|]. by right.
Qed.
#[export] Instance toy_laws : backend_laws toy toy_ok toy_usable ty_held.
Proof.
  split.
  - intros w sp sp' L L' Hs HL (H1 & H2 & H3). split_and!; [by rewrite H1|by rewrite H2|apply H3..].
  - intros w sp L (_ & H2 & H3 & H4). apply disjoint_app in H3 as [H3 _]. apply Forall_app in H4 as [H4 _]. rewrite <- H2. split; [done|].
    eapply Forall_impl; [exact H4|]. by intros b [? _].
  - intros w sp L size fl H Hs. cbn [src_alloc toy_env]. pose proof H as (H1 & H2 & H3 & H4). destruct (ty_free w) as [|[p n] rest] eqn:Ef.
    { split; [done|]. exists L. split_and!; [done| |done]. split_and!; try done; simpl; by rewrite Ef. }
    destruct (Z.eqb_spec n size) as [->|Hn]; (split; [done|]); exists L; (split; [done|]); (split; [|done]).
    + assert (Hp : ty_live w ++ (p, size) :: rest ≡ₚ (p, size) :: ty_live w ++ rest) by (symmetry; apply Permutation_middle).
      rewrite Hp in H3, H4. assert (p <> 0) by (apply Forall_cons in H4 as [[? _] _]; done).
      rewrite (proj2 (Z.eqb_neq p 0)) by done. split_and!; simpl; [done|by rewrite H2|done..].
    + split_and!; simpl; try done; by rewrite Ef.
  - intros w sp L p size (H1 & H2 & H3 & H4). cbn [src_free toy_env]. split; [done|]. split; [|done]. destruct (remove1_perm _ _ _ H2) as (k & E & Hk).
    rewrite E. simpl. assert (Hp : ty_live w ≡ₚ (p, size) :: k) by (by rewrite H2, Hk). rewrite Hp in H3, H4. simpl in H3. apply Forall_cons in H4 as [_ H4].
    split_and!; simpl; [done|done|apply H3|done].
  - intros w sp L H. split; [done|]. exists L. by split_and!.
  - intros w sp L pos size alloc fl H Hs Hp Ha. cbn [src_extend toy_env]. destruct (ty_extends w).
    + split; [done|]. split; [done|]. right. split; [lia|]. by apply toy_extend_ok.
    + split; [done|]. split; [done|]. by left.
  - intros w e sp L. by split_and!.
  - intros w new sp L H. by split.
  - intros w addr size rw sp L H. cbn [os_mmap_fixed toy_env]. split; [done|]. unfold toy_usable, in_block. simpl. split.
    + intros a Hn Hu. destruct (Z.leb_spec addr a), (Z.ltb_spec a (addr + size)); simpl; try done. lia.
    + intros _ -> a Ha. by destruct (_ && _) eqn:E; [|rewrite (proj2 (Z.leb_le _ _)), (proj2 (Z.ltb_lt _ _)) in E by lia].
  - intros w addr size sp L H. by split.
  - intros w size sp L (H1 & H2) Hs. cbn [os_mmap toy_env]. destruct (top_above (ty_spans w)) as [Ht Ha]. split; [lia|]. split; [|by split].
    apply (above_apart (top_of (ty_spans w))); [by rewrite <- H1|simpl; lia].
  - intros w addr size sp L H _. exact H.
  - intros w p size alloc fl e rw. cbn. split_and!; try done.
    + by destruct (ty_free w) as [|[? ?] ?]; [|destruct (_ =? _)].
    + by destruct (ty_extends w).
  - intros w size. cbn. reflexivity.
  - intros w addr size R Hp. destruct (remove1_perm _ _ _ Hp) as (k & E & Hk). cbn. by rewrite E.
Qed.

(** ** Claims *)

(** C18: the sbrk backend loses no memory.  Whatever an allocation does (it is
    met from the arena, from a region that could not be added before, or by
    moving the break, and adding the region can fail again), what it had
    obtained from the system is afterwards with the arena or on the list of
    failed regions, exactly once, together with what the call itself obtained:
    nothing if the break stayed, and otherwise the one block from the next page
    boundary above the old break to the new break.  The block returned is a new
    block of the arena and a failure leaves [errno] as it was. *)
Theorem sbrk_loses_nothing {W : Type} {be : backend_env W} {ok : W -> list (Z * Z) -> list (Z * Z) -> Prop} {usable : W -> Z -> Prop}
    {held : W -> list (Z * Z)} {laws : backend_laws W ok usable held} size vmflags s spans live :
  sbrk_ok (ok := ok) s spans live -> settled s -> 0 < size < 2 ^ 64 -> Z.land vmflags VM_NOSLEEP = VM_NOSLEEP ->
  exists s' p spans' live' new, vmem_sbrk_alloc size vmflags s = Ok (s', p) /\ settled s' /\
    sbrk_ok (ok := ok) s' spans' (if p =? 0 then live' else (p, size) :: live') /\ live' ⊆+ live /\
    spans' ++ sb_fails s' ≡ₚ new ++ spans ++ sb_fails s /\ obtained s s' new /\
    (p = 0 -> errno (sb_world s') = errno (sb_world s)).
Proof. apply sbrk_alloc_ok. Qed.

Definition toy_start (extends : bool) : toy := Toy 0 65536 [] [] [] (fun _ => false) extends [].
Definition toy_sbrk : sbrk toy := Sbrk (toy_start false) [(4096, 8192)] 4096 4096 65536.
Lemma sbrk_loses_nothing_witness :
  exists s' p spans' live' new, vmem_sbrk_alloc 5000 VM_NOSLEEP toy_sbrk = Ok (s', p) /\ settled s' /\
    sbrk_ok (ok := toy_ok) s' spans' (if p =? 0 then live' else (p, 5000) :: live') /\ live' ⊆+ [] /\
    spans' ++ sb_fails s' ≡ₚ new ++ [] ++ sb_fails toy_sbrk /\ obtained toy_sbrk s' new /\
    (p = 0 -> errno (sb_world s') = errno (sb_world toy_sbrk)).
Proof.
  apply (sbrk_loses_nothing (ok := toy_ok) 5000 VM_NOSLEEP toy_sbrk [] []).
  - split; simpl; [by split_and!|by split|repeat constructor; simpl; done..|done].
  - exists 12, 12. by split_and!.
  - done.
  - done.
Defined.



(** ** Behaviours to know *)

(** Growing the mmap heap returns a block with the [errno] of the allocation
    that did not fit. *)
Theorem top_alloc_errno :
  exists w' p, vmem_mmap_top_alloc 8192 VM_NOSLEEP (toy_start true) = (w', p) /\ p <> 0 /\ errno (toy_start true) = 0 /\ errno w' = ENOMEM.
Proof. eexists _, _. split; [reflexivity|]. done. Qed.
(** The same in the sbrk heap, for a region from the list. *)
Theorem tryfail_errno :
  exists s' p, vmem_sbrk_alloc 5000 VM_NOSLEEP (Sbrk (toy_start true) [(4096, 8192)] 4096 4096 65536) = Ok (s', p) /\ p <> 0 /\ errno (sb_world s') = ENOMEM.
Proof. eexists _, _. split; [reflexivity|]. done. Qed.
(** The message about a bad page size shows 0 instead of it. *)
Theorem bad_pagesize_message {W : Type} (w : W) pagesize heap_size minalloc :
  heap_size <> 0 -> ISP2 heap_size = false -> (sbrk_settings pagesize false w heap_size minalloc).2 = [0].
Proof. intros H E. unfold sbrk_settings. rewrite (proj2 (Z.eqb_neq heap_size 0) H), E. by destruct (0 <=? pagesize), (minalloc <? VMEM_SBRK_MINALLOC). Qed.
