(* ===== verification/Partition.v ===== *)
(** * Hash partitions

    umem_hash_partition.c: the space of 64-bit hashes is divided among named
    claimants, evenly or by given sizes, and a hash is looked up by binary
    search.  [memory] says whether the three calls of [malloc] succeed.  The
    division by floating-point weights is not modelled; it calls the one by
    sizes. *)
From S2P Require Import Prelude Machine.

Definition UINT64_MAX_VAL : Z := 2 ^ 64 - 1.
Definition MAX_CLAIMANTS : Z := 1024.
Definition MAX_NAME_LEN : nat := 256.

(** Entry [i] of lower_bounds, interval_sizes and lb_to_c; count is the length. *)
Record part := Part { lower_bound : Z; interval_size : Z; claimant : string }.
Record hash_partitions := HashPartitions { parts : list part; capacity : Z }.

(** FNV-1a. *)
Definition simple_hash (data : list Z) : Z :=
  foldl (fun hash byte => w64 (Z.lxor hash byte * 1099511628211)) 14695981039346656037 data.

Definition hash_partitions_alloc (memory : bool) (cap : Z) : option hash_partitions :=
  if (cap =? 0) || (MAX_CLAIMANTS <? cap) then None else
  if negb memory then None else Some (HashPartitions [] cap).

(** [strncpy] into a name of fixed length, closed with a NUL. *)
Definition copy_name (s : string) : string := String.substring 0 (MAX_NAME_LEN - 1) s.
Definition add_part (p : list part) (lower size : Z) (name : string) : list part := p ++ [Part lower size (copy_name name)].
(** [interval_sizes[count - 1] += n]. *)
Definition grow_last (p : list part) (n : Z) : list part :=
  alter (fun e => Part (lower_bound e) (wadd (interval_size e) n) (claimant e)) (length p - 1)%nat p.

Definition create_step (interval : Z) (st : list part * Z) (name : string) : list part * Z :=
  let '(p, next) := st in
  if (String.length name =? 0)%nat then (p, next) else (add_part p next interval name, wadd next interval).
Definition hash_partitions_create (memory : bool) (claimants : list string) : option hash_partitions :=
  let num := Z.of_nat (length claimants) in
  if num =? 0 then None else
  match hash_partitions_alloc memory num with
  | None => None
  | Some hp =>
      let interval := UINT64_MAX_VAL / num in
      let '(p, _) := foldl (create_step interval) ([], 0) claimants in
      let sum := foldl (fun sum e => wadd sum (interval_size e)) 0 p in
      Some (HashPartitions (if (0 <? length p)%nat then grow_last p (wsub UINT64_MAX_VAL sum) else p) (capacity hp))
  end.


Definition lower_at (p : list part) (i : nat) : result Z :=
  match p !! i with Some e => Ok (lower_bound e) | None => Panic "lower_bounds overrun" end.
Definition name_at (p : list part) (i : nat) : result (option string) :=
  match p !! i with Some e => Ok (Some (claimant e)) | None => Panic "lb_to_c overrun" end.
(** [while (left <= right)], with fuel for the halvings. *)
Fixpoint claimant_search (fuel : nat) (p : list part) (hash : Z) (left right : nat) : result (option string) :=
  match fuel with
  | O => Panic "search does not end"
  | S fuel =>
      if negb (left <=? right)%nat then Ok None else
      let mid := (left + (right - left) / 2)%nat in
      do lb <- lower_at p mid;
      if lb <=? hash then
        do found <- (if (mid =? length p - 1)%nat then Ok true else do nb <- lower_at p (mid + 1); Ok (hash <? nb));
        if found : bool then name_at p mid else claimant_search fuel p hash (mid + 1) right
      else if (mid =? 0)%nat then Ok None
      else claimant_search fuel p hash left (mid - 1)
  end.
(** [None] is a NULL table, and NULL as the answer. *)
Definition hash_partitions_get_claimant (hp : option hash_partitions) (hash : Z) : result (option string) :=
  match hp with
  | None => Ok None
  | Some hp =>
      let p := parts hp in
      if (length p =? 0)%nat then Ok None else
      do last <- lower_at p (length p - 1);
      if last <=? hash then name_at p (length p - 1)
      else claimant_search (length p + 1) p hash 0 (length p - 1)
  end.
Definition hash_partitions_get_claimant_by_key (hp : option hash_partitions) (key : list Z) : result (option string) :=
  hash_partitions_get_claimant hp (simple_hash key).

(** * Properties *)


(** ** Building the table *)



(** ** Looking up *)


(** ** Who is in the table *)







(** Empty names are skipped but counted in the division, and the rest goes to
    the last claimant: the distribution is not equal. *)
Theorem empty_names_skew :
  (fun hp => interval_size <$> parts hp) <$> hash_partitions_create true ["a"%string; EmptyString; EmptyString; "b"%string] = Some [2 ^ 62 - 1; 3 * 2 ^ 62].
Proof. reflexivity. Qed.
