(* ===== verification/ErrRing.v ===== *)
(** * The ring of error messages

    misc.c: messages of the library go to a circular buffer that a debugger
    reads.  A character is its code; the buffer starts as zeros. *)
From S2P Require Import Prelude Machine.

Definition ERR_SIZE : Z := 8192.

Record err_ring := ErrorRing {
  umem_error_buffer : gmap Z Z; umem_error_begin : Z; umem_error_end : Z; umem_error_dropped : Z;
}.
Definition empty_ring : err_ring := ErrorRing ∅ 0 0 0.
Definition char_at (r : err_ring) (i : Z) : Z := default 0 (umem_error_buffer r !! i).
Definition store (i c : Z) (r : err_ring) : err_ring :=
  ErrorRing (<[i := c]> (umem_error_buffer r)) (umem_error_begin r) (umem_error_end r) (umem_error_dropped r).
Definition set_begin (i : Z) (r : err_ring) : err_ring :=
  ErrorRing (umem_error_buffer r) i (umem_error_end r) (umem_error_dropped r).
Definition set_end (i : Z) (r : err_ring) : err_ring :=
  ErrorRing (umem_error_buffer r) (umem_error_begin r) i (umem_error_dropped r).
(** The next index of WRITE_AND_INC. *)
Definition inc (i : Z) : Z := P2PHASE (i + 1) ERR_SIZE.

Fixpoint log_chars (s : list Z) (looped : bool) (r : err_ring) : err_ring * bool :=
  match s with
  | [] => (r, looped)
  | c :: s =>
      let r := store (umem_error_end r) c r in
      let r := set_end (inc (umem_error_end r)) r in
      log_chars s (if umem_error_end r =? umem_error_begin r then true else looped) r
  end.
Definition DOT : Z := 46.
(** [busy]: the lock is held, by another thread or by the code a signal
    interrupted. *)
Definition umem_log_enter (busy : bool) (s : list Z) (r : err_ring) : err_ring :=
  if busy then ErrorRing (umem_error_buffer r) (umem_error_begin r) (umem_error_end r) (wadd (umem_error_dropped r) 1) else
  let '(r, looped) := log_chars s false r in
  let r := store (umem_error_end r) 0 r in
  if looped then
    let r := set_begin (P2PHASE (umem_error_end r + 1) ERR_SIZE) r in
    let idx := umem_error_begin r in
    store (inc (inc idx)) DOT (store (inc idx) DOT (store idx DOT r))
  else r.

(** What a reader sees: from the beginning to the first zero. *)
Fixpoint read_from (fuel : nat) (r : err_ring) (i : Z) : list Z :=
  match fuel with
  | O => []
  | S fuel => if char_at r i =? 0 then [] else char_at r i :: read_from fuel r (inc i)
  end.
Definition error_text (r : err_ring) : list Z := read_from (Z.to_nat ERR_SIZE) r (umem_error_begin r).

(** * Properties *)

Lemma inc_mod i : inc (i mod ERR_SIZE) = (i + 1) mod ERR_SIZE.
Proof.
  unfold inc, P2PHASE. change (wsub ERR_SIZE 1) with (Z.ones 13). rewrite Z.land_ones by lia. change (2 ^ 13) with ERR_SIZE.
  by rewrite Zplus_mod_idemp_l.
Qed.
Lemma store_char i c r j : char_at (store i c r) j = if j =? i then c else char_at r j.
Proof.
  unfold char_at. simpl. destruct (Z.eqb_spec j i) as [->|]; [by rewrite lookup_insert_eq|by rewrite lookup_insert_ne].
Qed.
(** Indices less than the size apart are different places. *)
Lemma mod_differ i j : 0 < j - i < ERR_SIZE -> i mod ERR_SIZE <> j mod ERR_SIZE.
Proof.
  intros H E. assert (Hd : (j - i) mod ERR_SIZE = 0) by (rewrite Zminus_mod, E, Z.sub_diag; done). rewrite Z.mod_small in Hd; unfold ERR_SIZE in *; lia.
Qed.

(** The [n] characters of [T] so far: those from [lo] on that still fit are in
    place. *)
Definition len (T : list Z) : Z := Z.of_nat (length T).
Definition nth_char (T : list Z) (i : Z) : Z := T !!! Z.to_nat i.
Record holds (T : list Z) (lo : Z) (r : err_ring) : Prop := Holds {
  ho_end : umem_error_end r = len T mod ERR_SIZE;
  ho_chars i : 0 <= lo -> lo <= i < len T -> len T - ERR_SIZE <= i -> char_at r (i mod ERR_SIZE) = nth_char T i;
}.
Lemma len_app T c : len (T ++ [c]) = len T + 1.
Proof. unfold len. rewrite length_app. simpl. lia. Qed.
Lemma nth_char_app T c i : 0 <= i < len T -> nth_char (T ++ [c]) i = nth_char T i.
Proof. unfold len, nth_char. intros H. apply lookup_total_app_l. lia. Qed.
Lemma nth_char_last T c : nth_char (T ++ [c]) (len T) = c.
Proof. unfold len, nth_char. rewrite Nat2Z.id. by rewrite lookup_total_app_r, Nat.sub_diag. Qed.

Lemma holds_step T lo r c :
  holds T lo r -> 0 <= lo ->
  holds (T ++ [c]) lo (set_end (inc (umem_error_end (store (umem_error_end r) c r))) (store (umem_error_end r) c r)).
Proof.
  intros [He Hc] Hlo. assert (0 <= len T) by (unfold len; lia). split.
  - simpl. rewrite He, len_app. apply inc_mod.
  - intros i _. rewrite len_app. intros Hi Hr. assert (char_at (set_end (inc (umem_error_end (store (umem_error_end r) c r))) (store (umem_error_end r) c r)) (i mod ERR_SIZE) = char_at (store (umem_error_end r) c r) (i mod ERR_SIZE)) as -> by done.
    rewrite store_char, He. destruct (Z.eq_dec i (len T)) as [->|Hne].
    + by rewrite Z.eqb_refl, nth_char_last.
    + rewrite (proj2 (Z.eqb_neq _ _)) by (apply mod_differ; lia). rewrite nth_char_app by lia. apply Hc; lia.
Qed.

Lemma log_chars_run s T lo r looped :
  holds T lo r -> 0 <= lo ->
  let '(r', looped') := log_chars s looped r in
  holds (T ++ s) lo r' /\ umem_error_begin r' = umem_error_begin r /\ umem_error_dropped r' = umem_error_dropped r /\
  (looped = true -> looped' = true) /\
  (umem_error_begin r = 0 -> looped = (ERR_SIZE <=? len T) -> looped' = (ERR_SIZE <=? len (T ++ s))) /\
  (umem_error_begin r = (len T + 1) mod ERR_SIZE -> s <> [] -> looped' = true).
Proof.
  intros H Hlo. revert T r looped H. induction s as [|c s IH]; intros T r looped H; simpl; [rewrite app_nil_r; by split_and!|].
  pose proof (holds_step T lo r c H Hlo) as H1. set (r1 := set_end _ _) in *. set (l1 := if _ =? _ then true else looped).
  specialize (IH (T ++ [c]) r1 l1 H1). rewrite <- app_assoc in IH. simpl in IH. destruct (log_chars s l1 r1) as [r' looped'].
  destruct IH as (I1 & I2 & I3 & I4 & I5 & I6). pose proof (ho_end _ _ _ H1) as E1. rewrite len_app in *. change (umem_error_begin r1) with (umem_error_begin r) in *.
  assert (Hl1 : l1 = if (len T + 1) mod ERR_SIZE =? umem_error_begin r then true else looped).
  { rewrite <- E1. reflexivity. }
  split_and!; try done.
  - intros ->. apply I4. rewrite Hl1. by destruct (_ =? _).
  - intros E0 El. apply I5; [done|]. rewrite Hl1, E0, El. assert (0 <= len T) by (unfold len; lia). unfold ERR_SIZE in *.
    destruct (Z.eqb_spec ((len T + 1) mod 8192) 0) as [Ez|Ez].
    + symmetry. apply Z.leb_le. apply Z.mod_divide in Ez as [k Hk]; [|done]. lia.
    + destruct (Z.leb_spec 8192 (len T)), (Z.leb_spec 8192 (len T + 1)); try done; [lia|]. exfalso. apply Ez. by replace (len T + 1) with 8192 by lia.
  - intros E0 _. apply I4. by rewrite Hl1, E0, Z.eqb_refl.
Qed.

(** The state after the text [T]. *)
Definition KEPT : Z := ERR_SIZE - 4.
Record ring_ok (T : list Z) (r : err_ring) : Prop := RingOk {
  ro_holds : holds T (if len T <? ERR_SIZE then 0 else len T - KEPT) r;
  ro_zero : char_at r (len T mod ERR_SIZE) = 0;
  ro_begin : umem_error_begin r = if len T <? ERR_SIZE then 0 else (len T + 1) mod ERR_SIZE;
  ro_dots j : ERR_SIZE <= len T -> 1 <= j <= 3 -> char_at r ((len T + j) mod ERR_SIZE) = DOT;
}.
Lemma holds_store T lo lo' r i c :
  holds T lo r -> 0 <= lo <= lo' -> len T - KEPT <= lo' \/ (i = len T /\ len T < ERR_SIZE) -> len T <= i <= len T + 3 -> holds T lo' (store (i mod ERR_SIZE) c r).
Proof.
  intros [He Hc] Hlo Hk Hi. split; [done|]. intros j _ Hj Hr. rewrite store_char. unfold KEPT, ERR_SIZE in *.
  destruct (Z.eq_dec i (j + 8192)) as [Ei|Ei]; [lia|].
  rewrite (proj2 (Z.eqb_neq _ _)) by (apply mod_differ; unfold ERR_SIZE; lia). apply Hc; lia.
Qed.

Lemma enter_ok s T r : ring_ok T r -> ring_ok (T ++ s) (umem_log_enter false s r).
Proof.
  intros [H1 H2 H3 H4]. set (lo := if len T <? ERR_SIZE then 0 else len T - KEPT) in *. unfold umem_log_enter.
  assert (Hlo : 0 <= lo) by (unfold lo, KEPT, ERR_SIZE; destruct (Z.ltb_spec (len T) 8192); lia).
  pose proof (log_chars_run s T lo r false H1 Hlo) as Hl. destruct (log_chars s false r) as [r1 looped] eqn:Er. destruct Hl as (L1 & L2 & L3 & _ & L5 & L6).
  assert (Hlen : len (T ++ s) = len T + len s) by (unfold len; rewrite length_app; lia). assert (0 <= len T /\ 0 <= len s) by (unfold len; lia).
  destruct (decide (s = [])) as [->|Hs].
  { injection Er as <- <-. rewrite app_nil_r in *. cbn iota. rewrite (ho_end _ _ _ H1). split; [| |done|].
    - destruct (Z.ltb_spec (len T) ERR_SIZE); apply (holds_store T lo); unfold lo in *; rewrite ?(proj2 (Z.ltb_lt _ _)), ?(proj2 (Z.ltb_ge _ _)) in * by done; auto; lia.
    - by rewrite store_char, Z.eqb_refl.
    - intros j Hj Hj3. rewrite store_char, (proj2 (Z.eqb_neq _ _)); [by apply H4|]. symmetry. apply mod_differ. unfold ERR_SIZE. lia. }
  assert (El : looped = (ERR_SIZE <=? len (T ++ s))).
  { destruct (Z.ltb_spec (len T) ERR_SIZE) as [Hlt|Hge].
    - apply L5; [done|]. symmetry. by apply Z.leb_gt.
    - rewrite (L6 H3 Hs). symmetry. apply Z.leb_le. lia. }
  rewrite (ho_end _ _ _ L1). set (n := len (T ++ s)) in *. subst looped. destruct (Z.leb_spec ERR_SIZE n) as [Hge|Hlt].
  - cbn [umem_error_begin set_begin umem_error_end store]. rewrite (ho_end _ _ _ L1). fold n. change (P2PHASE (n mod ERR_SIZE + 1) ERR_SIZE) with (inc (n mod ERR_SIZE)).
    rewrite !inc_mod. rewrite <- !Z.add_assoc. change (1 + (1 + 1)) with 3. change (1 + 1) with 2.
    assert (Hd : forall i j, 0 <= i <= 3 -> 0 <= j <= 3 -> i <> j -> ((n + i) mod ERR_SIZE =? (n + j) mod ERR_SIZE) = false).
    { intros i j Hi Hj Hij. apply Z.eqb_neq. destruct (Z.lt_ge_cases i j); [apply mod_differ|symmetry; apply mod_differ]; unfold ERR_SIZE; lia. }
    split.
    + rewrite (proj2 (Z.ltb_ge _ _)) by lia. fold n.
      assert (Hk : 0 <= lo <= n - KEPT) by (unfold lo, KEPT, ERR_SIZE in *; destruct (Z.ltb_spec (len T) 8192); lia).
      repeat (apply (holds_store _ (n - KEPT)); [|fold n; unfold KEPT, ERR_SIZE in *; lia..]).
      destruct (holds_store (T ++ s) lo (n - KEPT) r1 n 0 L1) as [E C]; [lia|left; fold n; lia|fold n; lia|]. by split.
    + fold n. assert (H0 : forall j, 1 <= j <= 3 -> (n mod ERR_SIZE =? (n + j) mod ERR_SIZE) = false).
      { intros j Hj. rewrite <- (Z.add_0_r n) at 1. apply Hd; lia. }
      rewrite !store_char, !H0 by lia. unfold char_at. simpl. by rewrite lookup_insert_eq.
    + rewrite (proj2 (Z.ltb_ge _ _)) by lia. done.
    + fold n. intros j _ Hj. rewrite !store_char. assert (j = 1 \/ j = 2 \/ j = 3) as [-> | [-> | ->] ] by lia; by rewrite ?Z.eqb_refl, ?Hd by lia.
  - split.
    + rewrite (proj2 (Z.ltb_lt _ _)) by lia. apply (holds_store _ lo); [done| |right; fold n; lia|fold n; lia].
      unfold lo. rewrite (proj2 (Z.ltb_lt _ _)) by lia. lia.
    + by rewrite store_char, Z.eqb_refl.
    + rewrite (proj2 (Z.ltb_lt _ _)) by lia. simpl. rewrite L2, H3. by rewrite (proj2 (Z.ltb_lt _ _)) by lia.
    + fold n. lia.
Qed.

(** ** Reading *)

Lemma read_run (xs : list Z) b r fuel :
  (forall j, 0 <= j < len xs -> char_at r ((b + j) mod ERR_SIZE) = nth_char xs j) -> Forall (fun c => c <> 0) xs ->
  char_at r ((b + len xs) mod ERR_SIZE) = 0 -> (length xs < fuel)%nat -> read_from fuel r (b mod ERR_SIZE) = xs.
Proof.
  revert b fuel. induction xs as [|x xs IH]; intros b fuel Hc Hf Hz Hn; (destruct fuel as [|fuel]; [simpl in Hn; lia|]); simpl.
  - unfold len in Hz. simpl in Hz. rewrite Z.add_0_r in Hz. by rewrite Hz.
  - assert (El : len (x :: xs) = len xs + 1) by (unfold len; simpl; lia). assert (0 <= len xs) by (unfold len; lia). apply Forall_cons in Hf as [Hx Hf].
    assert (E0 : char_at r (b mod ERR_SIZE) = x) by (rewrite <- (Z.add_0_r b); apply (Hc 0); lia).
    rewrite E0, (proj2 (Z.eqb_neq x 0)), inc_mod by done. f_equal. apply IH; [|done| |simpl in Hn; lia].
    + intros j Hj. replace (b + 1 + j) with (b + (j + 1)) by lia. rewrite (Hc (j + 1)) by lia. unfold nth_char.
      by replace (Z.to_nat (j + 1)) with (S (Z.to_nat j)) by lia.
    + by replace (b + 1 + len xs) with (b + len (x :: xs)) by lia.
Qed.

(** What the ring shows of a text: all of it, or its end after three dots. *)
Definition shown (T : list Z) : list Z :=
  if len T <? ERR_SIZE then T else [DOT; DOT; DOT] ++ drop (Z.to_nat (len T - KEPT)) T.
Lemma ring_text T r : ring_ok T r -> Forall (fun c => c <> 0) T -> error_text r = shown T.
Proof.
  intros [[_ H1] H2 H3 H4] Hf. unfold error_text, shown. rewrite H3. assert (0 <= len T) by (unfold len; lia). destruct (Z.ltb_spec (len T) ERR_SIZE) as [Hlt|Hge].
  - change 0 with (0 mod ERR_SIZE) at 1. apply read_run; [|done|done|unfold len, ERR_SIZE in *; lia].
    intros j Hj. apply H1; unfold ERR_SIZE in *; lia.
  - assert (Hk : 0 <= len T - KEPT) by (unfold KEPT, ERR_SIZE in *; lia). set (xs := [DOT; DOT; DOT] ++ drop (Z.to_nat (len T - KEPT)) T).
    assert (Hxs : len xs = KEPT + 3) by (unfold xs, len, KEPT, ERR_SIZE in *; rewrite length_app, length_drop; simpl; lia).
    apply read_run.
    + intros j Hj. destruct (Z.lt_ge_cases j 3).
      * rewrite <- Z.add_assoc, (H4 (1 + j)) by lia. assert (j = 0 \/ j = 1 \/ j = 2) as [-> | [-> | ->] ] by lia; reflexivity.
      * replace (len T + 1 + j) with (len T - KEPT + (j - 3) + 1 * ERR_SIZE) by (unfold KEPT, ERR_SIZE; lia). rewrite Z_mod_plus_full.
        rewrite H1 by (unfold KEPT, ERR_SIZE in *; lia). unfold nth_char, xs. rewrite lookup_total_app_r by (simpl; lia). simpl length.
        rewrite lookup_total_drop. f_equal. lia.
    + unfold xs. apply Forall_app. split; [by repeat constructor|by apply Forall_drop].
    + rewrite Hxs. replace (len T + 1 + (KEPT + 3)) with (len T + 1 * ERR_SIZE) by (unfold KEPT, ERR_SIZE; lia). by rewrite Z_mod_plus_full.
    + unfold len, KEPT, ERR_SIZE in *. lia.
Qed.

(** Messages, with whether the ring was busy when each came. *)
Definition enter_all (msgs : list (bool * list Z)) : err_ring := foldl (fun r m => umem_log_enter m.1 m.2 r) empty_ring msgs.
Definition entered (msgs : list (bool * list Z)) : list Z := concat ((fun m => if m.1 : bool then [] else m.2) <$> msgs).
Definition busy_count (msgs : list (bool * list Z)) : Z := Z.of_nat (length (filter (fun m => m.1 = true) msgs)).

Lemma enter_all_ok msgs : ring_ok (entered msgs) (enter_all msgs) /\ umem_error_dropped (enter_all msgs) = w64 (busy_count msgs).
Proof.
  induction msgs as [|[busy s] msgs [IH1 IH2]] using rev_ind.
  { split; [|done]. split; try done. split; [done|]. intros i _ Hi. unfold len in Hi. simpl in Hi. lia. }
  unfold enter_all, entered, busy_count in *. rewrite foldl_app, fmap_app, concat_app, filter_app, length_app. simpl. destruct busy; simpl.
  - rewrite !app_nil_r. split; [by destruct IH1 as [[]]|]. rewrite IH2. unfold wadd, w64. rewrite Zplus_mod_idemp_l. f_equal. lia.
  - rewrite app_nil_r. split; [by apply enter_ok|]. rewrite Nat.add_0_r, <- IH2. unfold umem_log_enter.
    set (T := concat _) in *. set (r := foldl _ _ _) in *. assert (Hlo : 0 <= (if len T <? ERR_SIZE then 0 else len T - KEPT)).
    { unfold KEPT, ERR_SIZE. destruct (Z.ltb_spec (len T) 8192); lia. }
    pose proof (log_chars_run s T _ r false (ro_holds _ _ IH1) Hlo) as Hl. destruct (log_chars s false r) as [r1 looped].
    destruct Hl as (_ & _ & Hd & _). by destruct looped.
Qed.

(** C37: the ring of error messages shows the text that was entered.  As long as
    all of it fits, a reader sees every character in order; after that, three
    dots and the last 8188.  Messages that came while the ring was busy are
    not in it and are counted. *)
Theorem error_ring_exact msgs :
  Forall (fun m => Forall (fun c => c <> 0) m.2) msgs ->
  error_text (enter_all msgs) = shown (entered msgs) /\ umem_error_dropped (enter_all msgs) = w64 (busy_count msgs).
Proof.
  intros Hf. destruct (enter_all_ok msgs) as [H1 H2]. split; [|done]. apply ring_text; [done|]. unfold entered. apply Forall_concat, Forall_fmap.
  eapply Forall_impl; [exact Hf|]. intros [[] s] Hs; simpl; [constructor|done].
Qed.
Lemma error_ring_exact_witness :
  error_text (enter_all [(false, [104; 105]); (true, [33]); (false, [10])]) = shown [104; 105; 10] /\
  umem_error_dropped (enter_all [(false, [104; 105]); (true, [33]); (false, [10])]) = 1.
Proof. apply (error_ring_exact [(false, [104; 105]); (true, [33]); (false, [10])]). repeat constructor; done. Defined.
