(* ===== verification/Hooks.v ===== *)
(** * Application allocator hooks

    umem_hooks.c: hooks are registered, used by threads that run the
    application's callbacks without the lock, walked and unregistered.  Each
    section under hook_list_lock is one step of a thread; a callback's result is
    an input of the step after it.  A hook is the address of its structure; the
    list is that of the links, from the head.  Calls with NULL for the hook, its
    name or a pointer return before the lock is taken and are not steps. *)
From S2P Require Import Prelude Machine.

Record umem_hook := Hook {
  hook_name : string; hook_alloc : bool; hook_free : bool;       (* whether the functions are there *)
  alloc_count : Z; free_count : Z; realloc_count : Z;
  bytes_allocated : Z; bytes_freed : Z; bytes_current : Z; peak_bytes : Z;
  hook_active : bool; hook_refcnt : Z; hook_walk_gen : Z;
}.
Definition UINT16_MAX : Z := 65535.

(** What a thread does between two sections. *)
Inductive tracking := TrackAlloc (size : Z) | TrackFree (size : Z) | TrackRealloc (old_size new_size : Z).
Inductive hook_thread :=
| Inside (h : Z) (op : tracking)                 (* in the application's callback *)
| Draining (h : Z)                               (* umem_hook_unregister waits for hook_refcnt *)
| Walking (gen : Z) (at_ : Z) (visited : list Z) (skipped : list (Z * Z)).   (* in the callback of a walk for [at_] *)

Record hooks := Hooks {
  hs_hook : gmap Z umem_hook; hs_list : list Z; hook_walk_busy : bool; hook_walk_gen_next : Z;
  hs_threads : gmap Z hook_thread;
}.
Definition set_hook (h : Z) (x : umem_hook) (s : hooks) : hooks :=
  Hooks (<[h := x]> (hs_hook s)) (hs_list s) (hook_walk_busy s) (hook_walk_gen_next s) (hs_threads s).
Definition set_list (l : list Z) (s : hooks) : hooks := Hooks (hs_hook s) l (hook_walk_busy s) (hook_walk_gen_next s) (hs_threads s).
Definition set_busy (b : bool) (s : hooks) : hooks := Hooks (hs_hook s) (hs_list s) b (hook_walk_gen_next s) (hs_threads s).
Definition set_gen (n : Z) (s : hooks) : hooks := Hooks (hs_hook s) (hs_list s) (hook_walk_busy s) n (hs_threads s).
Definition set_thread (t : Z) (x : option hook_thread) (s : hooks) : hooks :=
  Hooks (hs_hook s) (hs_list s) (hook_walk_busy s) (hook_walk_gen_next s) 
    (match x with Some x => <[t := x]> (hs_threads s) | None => delete t (hs_threads s) end).

Definition with_refs (x : umem_hook) (n : Z) : umem_hook :=
  Hook (hook_name x) (hook_alloc x) (hook_free x) (alloc_count x) (free_count x) (realloc_count x) (bytes_allocated x) (bytes_freed x)
    (bytes_current x) (peak_bytes x) (hook_active x) n (hook_walk_gen x).
Definition with_active (x : umem_hook) (b : bool) : umem_hook :=
  Hook (hook_name x) (hook_alloc x) (hook_free x) (alloc_count x) (free_count x) (realloc_count x) (bytes_allocated x) (bytes_freed x)
    (bytes_current x) (peak_bytes x) b (hook_refcnt x) (hook_walk_gen x).
Definition with_gen (x : umem_hook) (n : Z) : umem_hook :=
  Hook (hook_name x) (hook_alloc x) (hook_free x) (alloc_count x) (free_count x) (realloc_count x) (bytes_allocated x) (bytes_freed x)
    (bytes_current x) (peak_bytes x) (hook_active x) (hook_refcnt x) n.
Definition with_counts (x : umem_hook) (ac fc rc ba bf bc peak : Z) : umem_hook :=
  Hook (hook_name x) (hook_alloc x) (hook_free x) ac fc rc ba bf bc peak (hook_active x) (hook_refcnt x) (hook_walk_gen x).

(** The reference, or that it is refused. *)
Definition hook_hold (x : umem_hook) : option umem_hook :=
  if negb (hook_active x) then None else
  if hook_refcnt x =? UINT16_MAX then None else Some (with_refs x (hook_refcnt x + 1)).
(** [--hook_refcnt], of 16 bits. *)
Definition hook_rele (x : umem_hook) : umem_hook := with_refs x ((hook_refcnt x - 1) mod 2 ^ 16).

Fixpoint hook_find_locked (m : gmap Z umem_hook) (l : list Z) (name : string) : option Z :=
  match l with
  | [] => None
  | h :: l => if decide (hook_name <$> m !! h = Some name) then Some h else hook_find_locked m l name
  end.

(** 0 or -1. *)
Definition umem_hook_register (h : Z) (x : umem_hook) (s : hooks) : hooks * Z :=
  if negb (hook_alloc x) && negb (hook_free x) then (s, -1) else
  match hook_find_locked (hs_hook s) (hs_list s) (hook_name x) with
  | Some _ => (s, -1)
  | None => (set_list (h :: hs_list s) (set_hook h (Hook (hook_name x) (hook_alloc x) (hook_free x) 0 0 0 0 0 0 0 true 0 0) s), 0)
  end.

(** What umem_hook_unregister does before it waits. *)
Definition unregister_close (h : Z) (x : umem_hook) (s : hooks) : hooks :=
  if negb (hook_active x) then s else
  set_list (filter (fun k => k <> h) (hs_list s)) (set_hook h (with_active x false) s).

(** The statistics of the three tracking calls; [good] is whether the callback
    returned a pointer. *)
Definition track_done (op : tracking) (good : bool) (x : umem_hook) : umem_hook :=
  match op with
  | TrackAlloc size =>
      if negb good then x else
      let cur := wadd (bytes_current x) size in
      with_counts x (wadd (alloc_count x) 1) (free_count x) (realloc_count x) (wadd (bytes_allocated x) size) (bytes_freed x) cur
        (if peak_bytes x <? cur then cur else peak_bytes x)
  | TrackFree size =>
      with_counts x (alloc_count x) (wadd (free_count x) 1) (realloc_count x) (bytes_allocated x) (wadd (bytes_freed x) size)
        (if size <=? bytes_current x then bytes_current x - size else bytes_current x) (peak_bytes x)
  | TrackRealloc old_size new_size =>
      if negb good then x else
      let cur := wadd (if old_size <=? bytes_current x then bytes_current x - old_size else bytes_current x) new_size in
      with_counts x (alloc_count x) (free_count x) (wadd (realloc_count x) 1) (wadd (bytes_allocated x) new_size)
        (wadd (bytes_freed x) old_size) cur (if peak_bytes x <? cur then cur else peak_bytes x)
  end.

(** The first hook the walk has not been to. *)
Fixpoint walk_first (m : gmap Z umem_hook) (gen : Z) (l : list Z) : option Z :=
  match l with
  | [] => None
  | h :: l => if decide (hook_walk_gen <$> m !! h = Some gen) then walk_first m gen l else Some h
  end.
(** [for (;;)] up to the next callback: the hook to call, or the end of the
    list, with those that could not be held and their reference counts. *)
Fixpoint walk_scan (fuel : nat) (gen : Z) (skipped : list (Z * Z)) (s : hooks) : option (hooks * option Z * list (Z * Z)) :=
  match fuel with
  | O => None
  | S fuel =>
      match walk_first (hs_hook s) gen (hs_list s) with
      | None => Some (s, None, skipped)
      | Some h =>
          match hs_hook s !! h with
          | None => None
          | Some x =>
              let x := with_gen x gen in
              match hook_hold x with
              | Some x => Some (set_hook h x s, Some h, skipped)
              | None => walk_scan fuel gen (skipped ++ [(h, hook_refcnt x)]) (set_hook h x s)
              end
          end
      end
  end.
Definition walk_fuel (s : hooks) : nat := length (hs_list s) + 1.
(** The walk goes on to the next hook, or ends with those it was at. *)
Definition walk_go (t gen : Z) (visited : list Z) (skipped : list (Z * Z)) (s : hooks) : option (hooks * option (list Z * list (Z * Z))) :=
  match walk_scan (walk_fuel s) gen skipped s with
  | None => None
  | Some (s, Some h, skipped) => Some (set_thread t (Some (Walking gen h (visited ++ [h]) skipped)) s, None)
  | Some (s, None, skipped) => Some (set_thread t None (set_busy false s), Some (visited, skipped))
  end.

(** ** Steps of the threads *)

Definition holding (x : hook_thread) : option Z :=
  match x with Inside h _ | Walking _ h _ _ => Some h | Draining _ => None end.
Definition nobody (h : Z) (s : hooks) : Prop := forall t x, hs_threads s !! t = Some x -> holding x <> Some h.

Inductive hook_event :=
| Registered (h answer : Z) | Unregistering (h : Z) | Returned (h : Z) | Entered (h : Z) | Refused (h : Z) | Left (h : Z)
| WalkStep | WalkEnd (visited : list Z) (skipped : list (Z * Z)) | WalkStopped.

(** The program registers a structure only when no thread uses it, which is
    the contract of umem_hooks.h and not tested: [umem_hook_register] clears
    [hook_refcnt] of an inactive structure whatever it is.  It walks fewer than
    2^32 - 1 times. *)
Inductive hook_step : hooks -> hook_event -> hooks -> Prop :=
| step_register t h x s s' r :
    hs_threads s !! t = None -> hs_hook s !! h = Some x -> (hook_active x = false -> nobody h s) ->
    umem_hook_register h x s = (s', r) -> hook_step s (Registered h r) s'
| step_unregister t h x s :
    hs_threads s !! t = None -> hs_hook s !! h = Some x ->
    hook_step s (Unregistering h) (set_thread t (Some (Draining h)) (unregister_close h x s))
| step_returned t h x s :
    hs_threads s !! t = Some (Draining h) -> hs_hook s !! h = Some x -> hook_refcnt x = 0 ->
    hook_step s (Returned h) (set_thread t None s)
| step_enter t h x x' op s :
    hs_threads s !! t = None -> hs_hook s !! h = Some x -> hook_hold x = Some x' ->
    hook_step s (Entered h) (set_thread t (Some (Inside h op)) (set_hook h x' s))
| step_refused t h x s :
    hs_threads s !! t = None -> hs_hook s !! h = Some x -> hook_hold x = None -> hook_step s (Refused h) s
| step_leave t h op x good s :
    hs_threads s !! t = Some (Inside h op) -> hs_hook s !! h = Some x ->
    hook_step s (Left h) (set_thread t None (set_hook h (hook_rele (track_done op good x)) s))
| step_walk t s s' fin :
    hs_threads s !! t = None -> hook_walk_busy s = false -> hook_walk_gen_next s < 2 ^ 32 - 1 ->
    walk_go t (hook_walk_gen_next s) [] [] (set_gen (hook_walk_gen_next s + 1) (set_busy true s)) = Some (s', fin) ->
    hook_step s (match fin with Some (v, k) => WalkEnd v k | None => WalkStep end) s'
| step_walk_next t gen h v k x s s' fin :
    hs_threads s !! t = Some (Walking gen h v k) -> hs_hook s !! h = Some x ->
    walk_go t gen v k (set_thread t None (set_hook h (hook_rele x) s)) = Some (s', fin) ->
    hook_step s (match fin with Some (v, k) => WalkEnd v k | None => WalkStep end) s'
| step_walk_stop t gen h v k x s :
    hs_threads s !! t = Some (Walking gen h v k) -> hs_hook s !! h = Some x ->
    hook_step s WalkStopped (set_thread t None (set_busy false (set_hook h (hook_rele x) s))).
Inductive hook_steps : hooks -> list hook_event -> hooks -> Prop :=
| hook_none s : hook_steps s [] s
| hook_then s e s1 es s2 : hook_step s e s1 -> hook_steps s1 es s2 -> hook_steps s (e :: es) s2.

(** Before anything is registered. *)
Definition hooks_start (s : hooks) : Prop :=
  hs_list s = [] /\ hs_threads s = ∅ /\ hook_walk_busy s = false /\ hook_walk_gen_next s = 1 /\
  forall h x, hs_hook s !! h = Some x -> hook_active x = false /\ hook_refcnt x = 0.

(** * Properties *)

(** ** Counting the threads that hold a hook *)

Definition holders (m : gmap Z hook_thread) (h : Z) : Z :=
  Z.of_nat (length (filter (fun kv => holding kv.2 = Some h) (map_to_list m))).
Definition one (x : hook_thread) (h : Z) : Z := if decide (holding x = Some h) then 1 else 0.
Lemma holders_insert m t x h : m !! t = None -> holders (<[t := x]> m) h = holders m h + one x h.
Proof.
  intros H. unfold holders, one. rewrite map_to_list_insert by done. rewrite filter_cons. simpl. destruct (decide _); simpl; lia.
Qed.
Lemma holders_delete m t x h : m !! t = Some x -> holders (delete t m) h = holders m h - one x h.
Proof.
  intros H. rewrite <- (insert_delete_id m t x H) at 2. rewrite holders_insert by apply lookup_delete_eq. lia.
Qed.
Lemma holders_nobody s h : holders (hs_threads s) h = 0 <-> nobody h s.
Proof.
  unfold holders, nobody. split.
  - intros E t x Ht Hh. assert (Hin : (t, x) ∈ filter (fun kv => holding kv.2 = Some h) (map_to_list (hs_threads s))).
    { apply list_elem_of_filter. split; [done|]. by apply elem_of_map_to_list. }
    destruct (filter _ _); [by apply not_elem_of_nil in Hin|done].
  - intros H. destruct (filter _ _) as [|[t x] l] eqn:E; [done|]. exfalso.
    assert (Hin : (t, x) ∈ filter (fun kv => holding kv.2 = Some h) (map_to_list (hs_threads s))) by (rewrite E; left).
    apply list_elem_of_filter in Hin as [Hh Ht]. apply elem_of_map_to_list in Ht. by apply (H t x).
Qed.
Lemma holders_nonneg m h : 0 <= holders m h.
Proof. unfold holders. lia. Qed.
Lemma holders_pos m t x h : m !! t = Some x -> holding x = Some h -> 0 < holders m h.
Proof.
  intros Ht Hh. rewrite <- (insert_delete_id m t x Ht), holders_insert by apply lookup_delete_eq. unfold one.
  rewrite decide_True by done. pose proof (holders_nonneg (delete t m) h). lia.
Qed.

(** ** The invariant *)

Definition walk_ok (gen : Z) (v : list Z) (k : list (Z * Z)) (s : hooks) : Prop :=
  1 <= gen < hook_walk_gen_next s /\
  (forall h x, h ∈ hs_list s -> hs_hook s !! h = Some x -> hook_walk_gen x = gen -> h ∈ v \/ h ∈ k.*1) /\
  Forall (fun p => p.2 = UINT16_MAX) k.
Record hooks_ok (s : hooks) : Prop := HooksOk {
  hk_refs h x : hs_hook s !! h = Some x -> hook_refcnt x = holders (hs_threads s) h /\ hook_refcnt x <= UINT16_MAX;
  hk_nodup : NoDup (hs_list s);
  hk_list h : h ∈ hs_list s <-> exists x, hs_hook s !! h = Some x /\ hook_active x = true;
  hk_next : 1 <= hook_walk_gen_next s;
  hk_gen h x : h ∈ hs_list s -> hs_hook s !! h = Some x -> 0 <= hook_walk_gen x < hook_walk_gen_next s;
  hk_walk t gen h v k : hs_threads s !! t = Some (Walking gen h v k) -> hook_walk_busy s = true /\ walk_ok gen v k s;
  hk_one t t' gen h v k gen' h' v' k' :
    hs_threads s !! t = Some (Walking gen h v k) -> hs_threads s !! t' = Some (Walking gen' h' v' k') -> t = t';
}.
Definition no_walker (s : hooks) : Prop := forall t gen h v k, hs_threads s !! t <> Some (Walking gen h v k).

(** A hook's references and statistics change together with the threads. *)
Lemma update_ok s h x y th :
  hooks_ok s -> hs_hook s !! h = Some x -> hook_active y = hook_active x -> hook_walk_gen y = hook_walk_gen x ->
  hook_refcnt y = holders th h -> hook_refcnt y <= UINT16_MAX -> (forall h', h' <> h -> holders th h' = holders (hs_threads s) h') ->
  (forall t gen g v k, th !! t = Some (Walking gen g v k) -> hs_threads s !! t = Some (Walking gen g v k)) ->
  hooks_ok (Hooks (<[h := y]> (hs_hook s)) (hs_list s) (hook_walk_busy s) (hook_walk_gen_next s) th).
Proof.
  intros [K1 K2 K3 K4 K5 K6 K7] Hx Ha Hg Hr Hm Ho Hw. split; simpl; try done.
  - intros h' z. rewrite lookup_insert_Some. intros [[<- <-]|[Hne Hz]]; [done|]. rewrite Ho by done. by apply K1.
  - intros h'. rewrite K3. split; intros (z & Hz & Hact).
    + destruct (decide (h = h')) as [->|Hne]; [exists y; rewrite lookup_insert_eq; split; [done|congruence]|exists z; by rewrite lookup_insert_ne].
    + rewrite lookup_insert_Some in Hz. destruct Hz as [[<- <-]|[Hne Hz]]; [exists x; split; [done|congruence]|by exists z].
  - intros h' z Hin. rewrite lookup_insert_Some. intros [[<- <-]|[Hne Hz]]; [rewrite Hg|]; by eapply K5.
  - intros t gen g v k Ht. destruct (K6 t gen g v k (Hw _ _ _ _ _ Ht)) as (Hb & W1 & W2 & W3). split; [done|]. split_and!; try done; [apply W1..|].
    simpl. intros h' z Hin. rewrite lookup_insert_Some. intros [[<- <-]|[Hne Hz]]; [rewrite Hg|]; by apply W2.
  - intros t t' gen g v k gen' g' v' k' H1 H2. eapply K7; by apply Hw.
Qed.
(** A thread that holds nothing comes or goes. *)
Lemma thread_ok s th : hooks_ok s -> (forall h, holders th h = holders (hs_threads s) h) ->
  (forall t gen g v k, th !! t = Some (Walking gen g v k) -> hs_threads s !! t = Some (Walking gen g v k)) ->
  hooks_ok (Hooks (hs_hook s) (hs_list s) (hook_walk_busy s) (hook_walk_gen_next s) th).
Proof.
  intros [K1 K2 K3 K4 K5 K6 K7] Ho Hw. split; simpl; try done.
  - intros h x Hx. rewrite Ho. by apply K1.
  - intros t' gen g v k Ht. apply (K6 t' gen g v k). by apply Hw.
  - intros t1 t' gen g v k gen' g' v' k' H1 H2. eapply K7; by apply Hw.
Qed.

Lemma find_none m l name h : hook_find_locked m l name = None -> h ∈ l -> hook_name <$> m !! h <> Some name.
Proof.
  induction l as [|g l IH]; simpl; [by intros _ ?%not_elem_of_nil|]. destruct (decide _); [done|]. intros E [->|Hin]%elem_of_cons; [done|by apply IH].
Qed.
Lemma register_ok h x s s' r :
  hooks_ok s -> hs_hook s !! h = Some x -> (hook_active x = false -> nobody h s) -> umem_hook_register h x s = (s', r) -> hooks_ok s'.
Proof.
  intros H Hx Hn. unfold umem_hook_register. destruct (_ && _); [by intros [= <- _]|].
  destruct (hook_find_locked _ _ _) eqn:Ef; [by intros [= <- _]|]. intros [= <- _]. pose proof H as [K1 K2 K3 K4 K5 K6 K7].
  assert (Hnot : h ∉ hs_list s) by (intros Hin; apply (find_none _ _ _ _ Ef Hin); by rewrite Hx).
  assert (Hf : hook_active x = false) by (destruct (hook_active x) eqn:E; [exfalso; apply Hnot, K3; by exists x|done]).
  split; simpl; try done.
  - intros h' z. rewrite lookup_insert_Some. intros [[<- <-]|[Hne Hz]]; [|by apply K1]. simpl. split; [|done]. symmetry. by apply holders_nobody, Hn.
  - apply NoDup_cons. by split.
  - intros h'. rewrite elem_of_cons, K3. split.
    + intros [->|(z & Hz & Hact)]; [eexists; by rewrite lookup_insert_eq|]. exists z. rewrite lookup_insert_ne; [done|]. intros ->. congruence.
    + intros (z & Hz & Hact). rewrite lookup_insert_Some in Hz. destruct Hz as [[<- _]|[Hne Hz]]; [by left|right; by exists z].
  - intros h' z Hin. rewrite lookup_insert_Some. intros [[<- <-]|[Hne Hz]]; [simpl; lia|]. apply elem_of_cons in Hin as [->|Hin]; [done|]. by eapply K5.
  - intros t gen g v k Ht. destruct (K6 _ _ _ _ _ Ht) as (Hb & W1 & W2 & W3). split; [done|]. split_and!; [apply W1..| |done]. simpl.
    intros h' z Hin. rewrite lookup_insert_Some. intros [[<- <-]|[Hne Hz]]; [simpl; lia|]. apply elem_of_cons in Hin as [->|Hin]; [done|]. by apply W2.
Qed.
Lemma close_ok h x s : hooks_ok s -> hs_hook s !! h = Some x -> hooks_ok (unregister_close h x s).
Proof.
  intros H Hx. unfold unregister_close. destruct (hook_active x) eqn:Ea; [|done]. cbn [negb]. destruct H as [K1 K2 K3 K4 K5 K6 K7]. split; simpl; try done.
  - intros h' z. rewrite lookup_insert_Some. intros [[<- <-]|[Hne Hz]]; [by apply (K1 h x)|by apply K1].
  - by apply NoDup_filter.
  - intros h'. rewrite list_elem_of_filter, K3. split.
    + intros [Hne (z & Hz & Hact)]. exists z. by rewrite lookup_insert_ne.
    + intros (z & Hz & Hact). rewrite lookup_insert_Some in Hz. destruct Hz as [[<- <-]|[Hne Hz]]; [done|]. split; [done|by exists z].
  - intros h' z [Hne Hin]%list_elem_of_filter. rewrite lookup_insert_ne by done. by apply K5.
  - intros t gen g v k Ht. destruct (K6 _ _ _ _ _ Ht) as (Hb & W1 & W2 & W3). split; [done|]. split_and!; [apply W1..| |done]. simpl.
    intros h' z [Hne Hin]%list_elem_of_filter. rewrite lookup_insert_ne by done. by apply W2.
Qed.

(** ** The walk *)

Lemma walk_first_some m gen l h : walk_first m gen l = Some h -> h ∈ l /\ hook_walk_gen <$> m !! h <> Some gen.
Proof.
  induction l as [|g l IH]; simpl; [done|]. destruct (decide _) as [|Hn]; [intros E; destruct (IH E); split; [by right|done]|].
  intros [= ->]. split; [by left|done].
Qed.
Lemma walk_first_none m gen l h x : walk_first m gen l = None -> h ∈ l -> m !! h = Some x -> hook_walk_gen x = gen.
Proof.
  induction l as [|g l IH]; simpl; [by intros _ ?%not_elem_of_nil|]. destruct (decide _) as [Hd|]; [|done].
  intros E [->|Hin]%elem_of_cons Hx; [|by apply IH]. rewrite Hx in Hd. by injection Hd.
Qed.
Lemma mark_ok s h x gen : hooks_ok s -> no_walker s -> hs_hook s !! h = Some x -> 0 <= gen < hook_walk_gen_next s -> hooks_ok (set_hook h (with_gen x gen) s).
Proof.
  intros [K1 K2 K3 K4 K5 K6 K7] Hn Hx Hg. split; simpl; try done.
  - intros h' z. rewrite lookup_insert_Some. intros [[<- <-]|[Hne Hz]]; [by apply (K1 h x)|by apply K1].
  - intros h'. rewrite K3. split; intros (z & Hz & Hact).
    + destruct (decide (h = h')) as [->|Hne]; [exists (with_gen x gen); rewrite lookup_insert_eq; split; [done|simpl; congruence]|exists z; by rewrite lookup_insert_ne].
    + rewrite lookup_insert_Some in Hz. destruct Hz as [[<- <-]|[Hne Hz]]; [by exists x|by exists z].
  - intros h' z Hin. rewrite lookup_insert_Some. intros [[<- <-]|[Hne Hz]]; [done|by eapply K5].
  - intros t gen' g v k Ht. by apply Hn in Ht.
Qed.
Lemma mark_walk_ok s h x gen v k v' k' :
  walk_ok gen v k s -> v ⊆ v' -> k.*1 ⊆ k'.*1 -> h ∈ v' \/ h ∈ k'.*1 -> Forall (fun p => p.2 = UINT16_MAX) k' ->
  walk_ok gen v' k' (set_hook h x s).
Proof.
  intros (W1 & W2 & W3) Hv Hk Hh Hf. split_and!; [apply W1..| |done]. simpl. intros h' z Hin. rewrite lookup_insert_Some.
  intros [[<- _]|[Hne Hz]] Hg; [done|]. destruct (W2 h' z Hin Hz Hg); [left; by apply Hv|right; by apply Hk].
Qed.
Lemma hold_refused x : hook_active x = true -> hook_hold x = None -> hook_refcnt x = UINT16_MAX.
Proof. unfold hook_hold. intros ->. cbn [negb]. by destruct (Z.eqb_spec (hook_refcnt x) UINT16_MAX). Qed.
Lemma hold_some x y : hook_hold x = Some y -> hook_active x = true /\ y = with_refs x (hook_refcnt x + 1) /\ hook_refcnt x <> UINT16_MAX.
Proof. unfold hook_hold. destruct (hook_active x); cbn [negb]; [|done]. destruct (Z.eqb_spec (hook_refcnt x) UINT16_MAX); [done|]. by intros [= <-]. Qed.

(** The hook that is held next. *)
Lemma walk_hold_ok gen v k s t h x :
  hooks_ok s -> no_walker s -> hook_walk_busy s = true -> walk_ok gen v k s -> hs_threads s !! t = None -> h ∈ hs_list s ->
  hs_hook s !! h = Some x -> hook_refcnt x <> UINT16_MAX ->
  hooks_ok (set_thread t (Some (Walking gen h (v ++ [h]) k)) (set_hook h (with_refs (with_gen x gen) (hook_refcnt x + 1)) s)).
Proof.
  intros H Hn Hb Hw Ht Hin Hx Hr. pose proof H as [K1 K2 K3 K4 K5 K6 K7]. pose proof Hw as (W1 & W2 & W3).
  pose proof (mark_ok s h x gen H Hn Hx ltac:(lia)) as Hm. destruct (K1 h x Hx) as [R1 R2].
  assert (Hone : forall h', one (Walking gen h (v ++ [h]) k) h' = if decide (h = h') then 1 else 0).
  { intros h'. unfold one. simpl. destruct (decide (h = h')) as [->|]; [by rewrite decide_True|]. rewrite decide_False; [done|congruence]. }
  assert (Hwk : walk_ok gen (v ++ [h]) k (set_hook h (with_refs (with_gen x gen) (hook_refcnt x + 1)) s)).
  { apply (mark_walk_ok s h _ gen v k); [done|set_solver|done|left; set_solver|done]. }
  destruct Hm as [M1 M2 M3 M4 M5 M6 M7]. split; simpl in *; try done.
  + intros h' z. rewrite holders_insert, Hone by done.
    rewrite lookup_insert_Some. intros [[<- <-]|[Hne Hz]]; [rewrite decide_True by done; simpl; unfold UINT16_MAX in *; lia|]. rewrite decide_False by done. destruct (K1 h' z Hz). lia.
  + intros h'. rewrite M3. split; intros (z & Hz & Hact); (destruct (decide (h = h')) as [->|Hne];
      [rewrite lookup_insert_eq in Hz; injection Hz as <-; eexists; by rewrite lookup_insert_eq|rewrite lookup_insert_ne in Hz by done; exists z; by rewrite lookup_insert_ne]).
  + intros h' z Hin'. rewrite lookup_insert_Some. intros [[<- <-]|[Hne Hz]]; [simpl; lia|by eapply K5].
  + intros t' gen' g v' k'. 
    rewrite lookup_insert_Some. intros [[<- [= <- <- <- <-]]|[Hne Hx']]; [done|]. by apply Hn in Hx'.
  + intros t1 t2 gen1 g1 v1 k1 gen2 g2 v2 k2. 
    rewrite !lookup_insert_Some. intros [[<- _]|[_ H1]] [[<- _]|[_ H2]]; try done; by (apply Hn in H1 || apply Hn in H2).
Qed.
Lemma scan_ok fuel gen v k s r t :
  hooks_ok s -> no_walker s -> hook_walk_busy s = true -> walk_ok gen v k s -> hs_threads s !! t = None ->
  walk_scan fuel gen k s = Some r ->
  match r with
  | (s', None, k') => hooks_ok s' /\ hs_threads s' = hs_threads s /\ Forall (fun p => p.2 = UINT16_MAX) k' /\ forall h, h ∈ hs_list s' -> h ∈ v \/ h ∈ k'.*1
  | (s', Some h, k') => hooks_ok (set_thread t (Some (Walking gen h (v ++ [h]) k')) s')
  end.
Proof.
  revert k s. induction fuel as [|fuel IH]; intros k s H Hn Hb Hw Ht; simpl; [done|]. pose proof H as [K1 K2 K3 K4 K5 K6 K7]. pose proof Hw as (W1 & W2 & W3).
  destruct (walk_first _ _ _) as [h|] eqn:Ew.
  2:{ intros [= <-]. split_and!; try done. intros h Hin. destruct (proj1 (K3 h) Hin) as (x & Hx & _). apply (W2 h x); try done. by eapply walk_first_none. }
  apply walk_first_some in Ew as [Hin Hg]. destruct (proj1 (K3 h) Hin) as (x & Hx & Ha). rewrite Hx.
  destruct (hook_hold (with_gen x gen)) as [y|] eqn:Eh.
  - apply hold_some in Eh as (_ & -> & Hr). intros [= <-]. by apply walk_hold_ok.
  - assert (Hr : hook_refcnt x = UINT16_MAX) by (by apply (hold_refused (with_gen x gen))).
    refine (IH _ (set_hook h (with_gen x gen) s) _ Hn Hb _ Ht); [by apply mark_ok; [..|lia]|]. apply (mark_walk_ok s h _ gen v k); [done|done|set_solver| |].
    + right. rewrite fmap_app. set_solver.
    + apply Forall_app. split; [done|]. by constructor.
Qed.

(** The scan ends: each turn marks one more hook. *)
Definition unmarked (m : gmap Z umem_hook) (gen : Z) (l : list Z) : list Z := filter (fun h => hook_walk_gen <$> m !! h <> Some gen) l.
Lemma unmarked_mark m gen l h x : h ∈ l -> hook_walk_gen <$> m !! h <> Some gen -> hook_walk_gen x = gen ->
  (length (unmarked (<[h := x]> m) gen l) < length (unmarked m gen l))%nat.
Proof.
  intros Hin Hn Hx. unfold unmarked. assert (Hle : forall l, (length (filter (fun g => hook_walk_gen <$> <[h := x]> m !! g <> Some gen) l) <= length (filter (fun g => hook_walk_gen <$> m !! g <> Some gen) l))%nat).
  { clear -Hx. intros l. induction l as [|g l IH]; [done|]. rewrite !filter_cons. destruct (decide (h = g)) as [->|Hne].
    - rewrite lookup_insert_eq. simpl. rewrite decide_False by congruence. destruct (decide _); simpl; lia.
    - rewrite lookup_insert_ne by done. destruct (decide _); simpl; lia. }
  induction l as [|g l IH]; [by apply not_elem_of_nil in Hin|]. rewrite !filter_cons. destruct (decide (h = g)) as [->|Hne].
  - rewrite lookup_insert_eq. simpl. rewrite decide_False by congruence. rewrite decide_True by done. specialize (Hle l). simpl. lia.
  - apply elem_of_cons in Hin as [?|Hin]; [done|]. rewrite lookup_insert_ne by done. specialize (IH Hin). destruct (decide _); simpl; lia.
Qed.
Lemma scan_total fuel gen k s :
  (forall h, h ∈ hs_list s -> is_Some (hs_hook s !! h)) -> (length (unmarked (hs_hook s) gen (hs_list s)) < fuel)%nat ->
  is_Some (walk_scan fuel gen k s).
Proof.
  revert k s. induction fuel as [|fuel IH]; intros k s Hl Hf; [lia|]. simpl. destruct (walk_first _ _ _) as [h|] eqn:Ew; [|by eexists].
  apply walk_first_some in Ew as [Hin Hg]. destruct (Hl h Hin) as [x Hx]. rewrite Hx. destruct (hook_hold _); [by eexists|]. apply IH; simpl.
  - intros h' Hin'. destruct (decide (h = h')) as [->|]; [rewrite lookup_insert_eq; by eexists|rewrite lookup_insert_ne by done; by apply Hl].
  - pose proof (unmarked_mark (hs_hook s) gen (hs_list s) h (with_gen x gen) Hin Hg eq_refl). lia.
Qed.
Lemma walk_go_total t gen v k s : hooks_ok s -> is_Some (walk_go t gen v k s).
Proof.
  intros H. unfold walk_go. destruct (scan_total (walk_fuel s) gen k s) as [[[s' [h|] ] k'] ->]; [| |by eexists..].
  - intros h [x [Hx _] ]%(hk_list s H). by eexists.
  - unfold walk_fuel, unmarked. pose proof (length_filter (fun h => hook_walk_gen <$> hs_hook s !! h <> Some gen) (hs_list s)). lia.
Qed.

(** ** Every step keeps the invariant *)

Lemma track_done_keeps op good x :
  hook_active (track_done op good x) = hook_active x /\ hook_walk_gen (track_done op good x) = hook_walk_gen x /\ hook_refcnt (track_done op good x) = hook_refcnt x.
Proof. by destruct op, good. Qed.
Lemma one_other h h' x : holding x = Some h -> h' <> h -> one x h' = 0.
Proof. intros Hh Hne. unfold one. rewrite Hh. rewrite decide_False; [done|congruence]. Qed.
Lemma one_none h x : holding x = None -> one x h = 0.
Proof. intros Hh. unfold one. rewrite Hh. by rewrite decide_False. Qed.
Lemma one_same h x : holding x = Some h -> one x h = 1.
Proof. intros Hh. unfold one. by rewrite decide_True. Qed.

(** A thread that held [h] lets go of it. *)
Lemma release_ok s t th h x y :
  hooks_ok s -> hs_threads s !! t = Some th -> holding th = Some h -> hs_hook s !! h = Some x ->
  hook_active y = hook_active x -> hook_walk_gen y = hook_walk_gen x -> hook_refcnt y = hook_refcnt x ->
  hooks_ok (set_thread t None (set_hook h (hook_rele y) s)).
Proof.
  intros H Ht Hh Hx Ha Hg Hr. destruct (hk_refs s H h x Hx) as [R1 R2]. pose proof (holders_pos _ _ _ _ Ht Hh) as Hp.
  pose proof (holders_delete (hs_threads s) t th h Ht) as Hd. rewrite (one_same h th Hh) in Hd.
  assert (E : hook_refcnt (hook_rele y) = hook_refcnt x - 1) by (simpl; rewrite Hr; apply Z.mod_small; unfold UINT16_MAX in R2; lia).
  apply (update_ok s h x (hook_rele y) (delete t (hs_threads s))); try done.
  - rewrite E. lia.
  - rewrite E. lia.
  - intros h' Hne. rewrite (holders_delete _ _ _ _ Ht), (one_other h h' th) by done. lia.
  - intros t' gen g v k. by rewrite lookup_delete_Some; intros [_ ?].
Qed.
Lemma busy_ok s b : hooks_ok s -> no_walker s -> hooks_ok (set_busy b s).
Proof. intros [K1 K2 K3 K4 K5 K6 K7] Hn. split; simpl; try done. intros t gen h v k Ht. by apply Hn in Ht. Qed.
Lemma go_ok t gen v k s s' fin :
  hooks_ok s -> no_walker s -> hook_walk_busy s = true -> walk_ok gen v k s -> hs_threads s !! t = None ->
  walk_go t gen v k s = Some (s', fin) ->
  hooks_ok s' /\ match fin with
                 | None => True
                 | Some (v', k') => v' = v /\ Forall (fun p => p.2 = UINT16_MAX) k' /\ forall h, h ∈ hs_list s' -> h ∈ v' \/ h ∈ k'.*1
                 end.
Proof.
  intros H Hn Hb Hw Ht. unfold walk_go. destruct (walk_scan _ _ _ _) as [r|] eqn:Er; [|done]. pose proof (scan_ok _ gen v k s r t H Hn Hb Hw Ht Er) as Hs.
  destruct r as [[s1 [h|] ] k1].
  - intros [= <- <-]. done.
  - intros [= <- <-]. destruct Hs as (H1 & Et & Hf & Hall). split; [|done].
    assert (Hn1 : no_walker s1) by (unfold no_walker; by rewrite Et). apply (thread_ok (set_busy false s1)); [by apply busy_ok| |].
    + intros h. simpl. rewrite Et, delete_id; done.
    + intros t' gen' g v' k'. by rewrite lookup_delete_Some; intros [_ ?].
Qed.

Lemma released_no_walker s t gen h v k y :
  hooks_ok s -> hs_threads s !! t = Some (Walking gen h v k) -> no_walker (set_thread t None (set_hook h y s)).
Proof.
  intros H Ht t' gen' h' v' k'. simpl. rewrite lookup_delete_Some. intros [Hne Ht']. by pose proof (hk_one s H _ _ _ _ _ _ _ _ _ _ Ht Ht').
Qed.
Lemma hooks_step_ok s e s' :
  hook_step s e s' -> hooks_ok s ->
  hooks_ok s' /\ match e with
                 | WalkEnd v k => Forall (fun p => p.2 = UINT16_MAX) k /\ forall h, h ∈ hs_list s' -> h ∈ v \/ h ∈ k.*1
                 | _ => True
                 end.
Proof.
  destruct 1 as [t h x s s' r Ht Hx Hn Er|t h x s Ht Hx|t h x s Ht Hx Hr|t h x x' op s Ht Hx Eh|t h x s Ht Hx Eh|t h op x good s Ht Hx
    |t s s' fin Ht Hb Hg Ew|t gen h v k x s s' fin Ht Hx Ew|t gen h v k x s Ht Hx]; intros H.
  - split; [|done]. by eapply register_ok.
  - split; [|done]. pose proof (close_ok h x s H Hx) as Hc. apply (thread_ok (unregister_close h x s)); [done| |].
    + intros h'. assert (Et : hs_threads (unregister_close h x s) = hs_threads s) by (unfold unregister_close; by destruct (hook_active x)).
      rewrite Et. rewrite holders_insert by done. rewrite one_none by done. lia.
    + intros t' gen g v k. rewrite lookup_insert_Some. by intros [[_ ?]|[_ ?]].
  - split; [|done]. apply (thread_ok s); [done| |].
    + intros h'. rewrite (holders_delete _ _ _ _ Ht). rewrite one_none by done. lia.
    + intros t' gen g v k. by rewrite lookup_delete_Some; intros [_ ?].
  - split; [|done]. apply hold_some in Eh as (Ha & -> & Hm). destruct (hk_refs s H h x Hx) as [R1 R2].
    apply (update_ok s h x _ (<[t := Inside h op]> (hs_threads s))); try done; simpl.
    + rewrite holders_insert by done. rewrite (one_same h) by done. lia.
    + unfold UINT16_MAX in *. lia.
    + intros h' Hne. rewrite holders_insert by done. rewrite (one_other h) by done. lia.
    + intros t' gen g v k. rewrite lookup_insert_Some. by intros [[_ ?]|[_ ?]].
  - done.
  - split; [|done]. destruct (track_done_keeps op good x) as (T1 & T2 & T3). by apply (release_ok s t (Inside h op) h x).
  - assert (Hn : no_walker s) by (intros t' gen h v k Ht'; destruct (hk_walk s H _ _ _ _ _ Ht'); congruence).
    assert (H1 : hooks_ok (set_gen (hook_walk_gen_next s + 1) (set_busy true s))).
    { destruct H as [K1 K2 K3 K4 K5 K6 K7]. split; simpl; try done; [lia| |]; [intros h x Hin Hx; destruct (K5 h x Hin Hx); lia|].
      intros t' gen h v k Ht'. by apply Hn in Ht'. }
    apply go_ok in Ew as [G1 G2]; [|done|done|done| |done].
    + split; [done|]. destruct fin as [[v k]|]; [|done]. by destruct G2 as (_ & ? & ?).
    + pose proof (hk_next s H). split_and!; simpl; [lia|lia| |done]. intros h x Hin Hx Hgen. destruct (hk_gen s H h x Hin Hx). lia.
  - destruct (hk_walk s H _ _ _ _ _ Ht) as [Hb (W1 & W2 & W3)].
    pose proof (release_ok s t (Walking gen h v k) h x x H Ht eq_refl Hx eq_refl eq_refl eq_refl) as H1.
    pose proof (released_no_walker s t gen h v k (hook_rele x) H Ht) as Hn. apply go_ok in Ew as [G1 G2]; try done.
    + split; [done|]. destruct fin as [[v' k']|]; [|done]. by destruct G2 as (_ & ? & ?).
    + split_and!; [apply W1..| |done]. simpl. intros h' z Hin. rewrite lookup_insert_Some. intros [[<- <-]|[Hne Hz]] Hgen; [by apply (W2 h x)|by apply (W2 h' z)].
    + simpl. apply lookup_delete_eq.
  - split; [|done]. pose proof (release_ok s t (Walking gen h v k) h x x H Ht eq_refl Hx eq_refl eq_refl eq_refl) as H1.
    apply (busy_ok _ false) in H1; [exact H1|]. by apply (released_no_walker s t gen h v k).
Qed.

Lemma hooks_start_ok s : hooks_start s -> hooks_ok s.
Proof.
  intros (E1 & E2 & E3 & E4 & H). split; rewrite ?E1, ?E2, ?E4; try done.
  - intros h x Hx. destruct (H h x Hx) as [_ ->]. done.
  - constructor.
  - intros h. split; [by intros ?%not_elem_of_nil|]. intros (x & Hx & Ha). destruct (H h x Hx). congruence.
  - intros h x Hin. by apply not_elem_of_nil in Hin.
Qed.
Lemma hooks_steps_ok s es s' : hook_steps s es s' -> hooks_ok s -> hooks_ok s'.
Proof. induction 1 as [|s e s1 es s2 Hs _ IH]; [done|]. intros H. apply IH. by apply (hooks_step_ok s e s1). Qed.

(** ** A hook that is closed stays closed *)

Definition closed (h : Z) (s : hooks) : Prop := exists x, hs_hook s !! h = Some x /\ hook_active x = false /\ hook_refcnt x = 0.
Lemma scan_frame fuel gen k s s' r k' h : walk_scan fuel gen k s = Some (s', r, k') -> h ∉ hs_list s -> hs_hook s' !! h = hs_hook s !! h.
Proof.
  revert k s. induction fuel as [|fuel IH]; intros k s; simpl; [done|]. destruct (walk_first _ _ _) as [g|] eqn:Ew; [|by intros [= <- _ _]].
  apply walk_first_some in Ew as [Hin _]. destruct (hs_hook s !! g) as [x|]; [|done]. intros E Hn. assert (g <> h) by (intros ->; done).
  destruct (hook_hold _) as [y|]; [injection E as <- _ _; simpl; by rewrite lookup_insert_ne|]. rewrite (IH _ _ E) by done. simpl. by rewrite lookup_insert_ne.
Qed.
Lemma go_frame t gen v k s s' fin h : walk_go t gen v k s = Some (s', fin) -> h ∉ hs_list s -> hs_hook s' !! h = hs_hook s !! h.
Proof.
  unfold walk_go. destruct (walk_scan _ _ _ _) as [[[s1 [g|] ] k1]|] eqn:E; [..|done]; intros [= <- _] Hn; simpl; by eapply scan_frame.
Qed.
Lemma closed_step s e s' h : hook_step s e s' -> hooks_ok s -> (forall r, e <> Registered h r) -> closed h s -> closed h s'.
Proof.
  intros Hs H He (x & Hx & Ha & Hr). assert (Hnl : h ∉ hs_list s) by (intros (y & Hy & Hay)%(hk_list s H); congruence).
  assert (Hno : forall t th, hs_threads s !! t = Some th -> holding th <> Some h).
  { intros t th Ht Hh. pose proof (holders_pos _ _ _ _ Ht Hh). destruct (hk_refs s H h x Hx). lia. }
  assert (Hkeep : forall g y, g <> h -> <[g := y]> (hs_hook s) !! h = Some x) by (intros; by rewrite lookup_insert_ne).
  exists x. split; [|done]. clear Hr. revert Hx Ha He Hnl Hno Hkeep H.
  destruct Hs as [t g y s s' r Ht Hy Hn Er|t g y s Ht Hy|t g y s Ht Hy Hr|t g y y' op s Ht Hy Eh|t g y s Ht Hy Eh|t g op y good s Ht Hy
    |t s s' fin Ht Hb Hg Ew|t gen g v k y s s' fin Ht Hy Ew|t gen g v k y s Ht Hy]; intros Hx Ha He Hnl Hno Hkeep H; simpl; try done.
  - unfold umem_hook_register in Er. destruct (_ && _); [by injection Er as <- _|]. destruct (hook_find_locked _ _ _); injection Er as <- <-; [done|].
    apply Hkeep. intros ->. by apply (He 0).
  - unfold unregister_close. destruct (hook_active y) eqn:Ey; [|done]. simpl. apply Hkeep. intros ->. congruence.
  - apply hold_some in Eh as (Hy' & _). apply Hkeep. intros ->. congruence.
  - apply Hkeep. intros ->. by apply (Hno t _ Ht).
  - by rewrite (go_frame _ _ _ _ _ _ _ h Ew).
  - rewrite (go_frame _ _ _ _ _ _ _ h Ew) by done. simpl. apply Hkeep. intros ->. by apply (Hno t _ Ht).
  - apply Hkeep. intros ->. by apply (Hno t _ Ht).
Qed.
Lemma closed_nobody s h : hooks_ok s -> closed h s -> nobody h s.
Proof. intros H (x & Hx & _ & Hr). apply holders_nobody. destruct (hk_refs s H h x Hx). lia. Qed.
Lemma closed_steps s es s' h : hook_steps s es s' -> hooks_ok s -> Forall (fun e => forall r, e <> Registered h r) es -> closed h s -> closed h s'.
Proof.
  induction 1 as [|s e s1 es s2 Hs _ IH]; [done|]. intros H Hf Hc. apply Forall_cons in Hf as [He Hf]. apply IH; [by apply (hooks_step_ok s e s1)|done|]. by apply (closed_step s e).
Qed.

(** ** Claims *)

(** C24: a hook may be freed when [umem_hook_unregister] returns.  In every
    interleaving of registrations, tracking calls, walks and unregistrations
    by any number of threads, no thread is inside a callback of the hook at
    that moment, and if it has not been registered again in the meantime no
    thread enters one afterwards until it is. *)
Theorem hook_unregister_quiesces s0 es s h s' :
  hooks_start s0 -> hook_steps s0 es s -> hook_step s (Returned h) s' ->
  nobody h s' /\
  ((exists x, hs_hook s' !! h = Some x /\ hook_active x = false) ->
   forall es' s'', hook_steps s' es' s'' -> Forall (fun e => forall r, e <> Registered h r) es' -> nobody h s'').
Proof.
  intros Hs He Hr. pose proof (hooks_steps_ok s0 es s He (hooks_start_ok s0 Hs)) as H. destruct (hooks_step_ok s _ s' Hr H) as [H' _].
  assert (Hz : exists x, hs_hook s' !! h = Some x /\ hook_refcnt x = 0) by
    (inversion Hr; subst; try (by eexists); match goal with f : option _ |- _ => by destruct f as [ [? ?]|] end).
  destruct Hz as (x & Hx & Hz). split.
  - apply holders_nobody. destruct (hk_refs s' H' h x Hx). lia.
  - intros (y & Hy & Ha) es' s'' Hes Hf. assert (y = x) as -> by congruence. apply closed_nobody; [by apply (hooks_steps_ok s' es')|].
    apply (closed_steps s' es'); try done. by exists x.
Qed.

Definition demo_hook : umem_hook := Hook "palloc" true true 0 0 0 0 0 0 0 false 0 0.
Definition demo_hooks : hooks := Hooks {[100 := demo_hook]} [] false 1 ∅.
Lemma hook_unregister_quiesces_witness :
  exists es s s', hook_steps demo_hooks es s /\ hook_step s (Returned 100) s' /\ nobody 100 s'.
Proof.
  assert (Hs : exists es s s', hook_steps demo_hooks es s /\ hook_step s (Returned 100) s').
  { eexists [Registered 100 0; Entered 100; Unregistering 100; Refused 100; Left 100], _, _. split.
    - eapply hook_then; [eapply (step_register 1 100); [reflexivity..| |reflexivity]; by intros _ t x|].
      eapply hook_then; [by eapply (step_enter 1 100 _ _ (TrackAlloc 64))|].
      eapply hook_then; [by eapply (step_unregister 2 100)|].
      eapply hook_then; [by eapply (step_refused 3 100)|].
      eapply hook_then; [by eapply (step_leave 1 100 _ _ true)|apply hook_none].
    - by eapply (step_returned 2 100). }
  destruct Hs as (es & s & s' & H1 & H2). exists es, s, s'. split; [done|]. split; [done|].
  destruct (hook_unregister_quiesces demo_hooks es s 100 s') as [Hn _]; [|done|done|exact Hn].
  split_and!; try done. intros h x Hx. unfold demo_hooks in Hx. cbn [hs_hook] in Hx. destruct (decide (h = 100)) as [->|Hne].
  - rewrite lookup_singleton_eq in Hx. by injection Hx as <-.
  - rewrite lookup_singleton_ne in Hx by done. done.
Defined.

(** A walk that is not stopped has been at every hook that is registered when
    it ends, except those whose reference count was at its limit. *)
Theorem hook_walk_complete s0 es s v k s' :
  hooks_start s0 -> hook_steps s0 es s -> hook_step s (WalkEnd v k) s' ->
  forall h, h ∈ hs_list s' -> h ∈ v \/ (h, UINT16_MAX) ∈ k.
Proof.
  intros Hs He Hr h Hin. destruct (hooks_step_ok s _ s' Hr (hooks_steps_ok s0 es s He (hooks_start_ok s0 Hs))) as (_ & Hf & Hall).
  destruct (Hall h Hin) as [?|Hk]; [by left|right]. apply list_elem_of_fmap in Hk as ([g n] & -> & Hk). simpl.
  pose proof (proj1 (Forall_forall _ _) Hf _ Hk) as E. simpl in E. by rewrite <- E.
Qed.
(** And it always goes on: the scan for the next hook ends. *)
Theorem hook_walk_goes_on s0 es s t gen h v k x :
  hooks_start s0 -> hook_steps s0 es s -> hs_threads s !! t = Some (Walking gen h v k) -> hs_hook s !! h = Some x ->
  exists s' e, hook_step s e s'.
Proof.
  intros Hs He Ht Hx. pose proof (hooks_steps_ok s0 es s He (hooks_start_ok s0 Hs)) as H.
  pose proof (release_ok s t (Walking gen h v k) h x x H Ht eq_refl Hx eq_refl eq_refl eq_refl) as H1.
  destruct (walk_go_total t gen v k _ H1) as [[s' fin] E]. eexists _, _. by eapply step_walk_next.
Qed.
